(* ===== verification/_CoqProject ===== *)
-Q . S2P
Prelude.v
Text.v
KeyCodec.v
FloatKey.v
Replacer.v
BufferPool.v
BufferPoolSpec.v
PoolHold.v
TreePages.v
TreePagesSpec.v
PageImage.v
BPlusTree.v
BPlusTreeSpec.v
TreeOwn.v
BPlusTreeInsert.v
BPlusTreeRemove.v
TupleStore.v
TupleStoreSpec.v
Engine.v
EngineSpec.v
KvMap.v
Table.v
TableSpec.v
RowScan.v
Storage.v
Columnar.v
ColumnarSpec.v
SeqCodec.v
SeqCodecSpec.v
WalSpec.v
Cloud.v
CloudLogic.v
CloudInv.v
CloudProto.v
CloudIndex.v
CloudSystem.v
CloudSource.v
CloudQuery.v
CloudProgress.v
S3.v
S3Sign.v
S3Spec.v
S3List.v
LocalStorage.v
LocalSpec.v
LocalRefine.v
LocalScript.v
Reactor.v
ReactorSpec.v
BoundedQueue.v
LatchSpec.v
