(* ===== verification/Prelude.v ===== *)
(** * DBPlayground, modelled and verified

    DBPlayground is a small database in C++ with two storage paths behind one
    table abstraction: a paged row store (a B+Tree over a buffer pool, with the
    values in slotted pages) and immutable columnar files on a byte storage.
    On top of the second, cloud tables share a write-ahead log and columnar
    files between nodes, through nothing but conditional writes to an object
    store. This development translates these paths into executable definitions
    and proves what makes them correct. Paths below are relative to src/src/.

    ** The program's parts, and the files that model them

    The row store, bottom up:
    - [KeyCodec]: Common/Type.h, Slice.h, RID.h, Codec.h, EncodedKey.h. Scalars,
      the comparison of slices, record ids and the order-preserving encodings
      of integers, doubles and strings as fixed-size [EncodedKey]s. [FloatKey]
      adds [KeyEncoder<float>] and the templates of Codec.h as type classes.
    - [Replacer]: Storage/BufferPool/IReplacer.h as the class [IReplacer];
      [ReplacerSpec] is what a pool relies on; LRUReplacer.cpp is the instance.
    - [BufferPool]: Storage/Disk/DiskManager, Storage/Page/Page.h,
      Base/ReaderWriterLatch.h and Storage/BufferPool/BufferPoolManager, over
      any page image type and any [IReplacer]. [BufferPoolSpec] has the pool's
      invariant and its contracts; [PoolHold] restates each operation as one
      step on what a client holds (pins, dirty pages, latches), and is all that
      the clients' proofs use.
    - [TreePages]: Storage/Page/BPlusTree{,Leaf,Internal}Page, one page at a
      time; [TreePagesSpec] relates them to lists of entries and finite maps.
    - [PageImage]: Storage/MetaPage.h and the four overlays of a frame.
    - [BPlusTree]: Container/BPlusTree.cpp and Concurrency/Transaction.h:
      descent with latch crabbing, insertion with splits, removal with merges
      and redistribution; [BPlusTreeSpec] has the representation predicate
      [tree_rep] and the search. [TreeOwn] has trees that own their pages and
      contexts of a subtree, [BPlusTreeInsert] the descent that keeps its
      latches and the insertion on whole trees, and [BPlusTreeRemove] the
      removals that end at a leaf and its sibling ([local_removal]).
    - [TupleStore], [TupleStoreSpec]: Storage/TupleStore, byte for byte.
    - [Engine], [EngineSpec]: Storage/BPlusTreeEngine with its cursor, and
      Core/MiniKV. The tree and the tuple store share one pool, as in the code.
    - [KvMap]: insertion and removal through the engine, and MiniKV against a
      finite map.

    Tables and the columnar store:
    - [Table], [TableSpec]: Table/Value, Column, Schema, Chunk, RowCodec,
      RowTableSource and Execution/ScanExecutor. IKvCursor, IBatchCursor are
      classes, so that the executor's theorems hold for every source.
    - [RowScan]: the engine's cursor as an [IKvCursor], and the scan of a table
      kept in the engine, from page bytes to cells.
    - [Storage]: Storage/File/IStorage with MemStorage, and
      Metadata/MemMetadataStore.
    - [LocalStorage]: Storage/File/LocalStorage.cpp. Module [Posix] is a file
      system (directories, files, open descriptors) and its system calls, each
      of which may fail; an operation is a [proc], a tree of system calls.
      [LocalSpec] runs it among other processes, [LocalRefine] has the contract
      of each operation, and [LocalScript] compares scripts with MemStorage.
    - [Columnar], [ColumnarSpec]: Storage/Encoding (plain codec, compressions,
      registry) and Table/Format/NativeColumnarFileFormat (writer, footer, page
      accessors, reader, scan cursor).

    Cloud tables:
    - [SeqCodec], [SeqCodecSpec], [WalSpec]: the records of
      Cloud/SequentialProtocol (CURRENT, manifests, batch indexes, WAL records)
      and their codecs, with CRC and SHA-256 as the parameters [Hashes].
    - [Cloud]: the state store of SequentialProtocol, CloudTableWriter,
      CloudWalIndexer, TableSnapshotLoader and CloudTable. An operation is a
      [prog]: a tree of calls to the shared stores, so that two nodes can be
      interleaved at every call.
    - [CloudLogic]: what a call does to the shared [World] (it may also be lost,
      or take effect and be answered with a conflict or an exception), systems
      of nodes as a step relation, and a logic of invariants with rely relation.
    - [CloudInv], [CloudProto], [CloudIndex]: the invariant of a table's log, and
      that the writer, the state store, the indexer and the snapshot loader keep
      it under the interference of any other nodes.
    - [CloudSystem]: nodes, clients and their scripts, and the theorems about
      every run of a system of clients.
    - [CloudSource], [CloudQuery]: CloudTableSource, CloudServices and the
      native columnar format as the data format of a cloud table; the rows a
      query returns, from log records to cells.
    - [CloudProgress]: what a writer that is left alone achieves.

    The object store under a cloud table:
    - [S3]: Cloud/S3: request signing (Sigv4.cpp), the client (S3Client.cpp) and
      the two adapters, S3MetadataStore and S3FileStorage. libcurl with the
      clock is the class [Curl], HMAC the class [Hmac]; an operation is a
      function of the world behind them.
    - [S3Sign]: the service's side of Signature Version 4, as the reference that
      the signer is compared with.
    - [S3Spec]: the documented behaviour of the service, one request at a time,
      as the class [S3Service], a server that has it, and the adapters above it.
    - [S3List]: listing bodies as XML items and pages ([S3Lister]), and
      S3FileStorage::List over any number of pages.

    The event loop and the base library:
    - [Reactor], [ReactorSpec]: Io/Channel, Poller and EventLoop, with the
      channels on a heap; [::poll] and the callbacks are the class [Env].
    - [BoundedQueue]: Base/BoundedQueue.h, a monitor with its threads and the
      waiting set as a step relation.
    - [LatchSpec]: Base/ReaderWriterLatch.h in the same way, with its two
      conditions and threads that go through scripts of critical sections.

    [Text] has the string functions that the path and URL code share.

    ** How code becomes definitions

    A w-bit integer is a [Z] and every operation that can leave its range is
    followed by the wrap of its type ([u8] .. [i64] below); bytes are
    [Byte.byte]; floating-point numbers are bit patterns. Stateful operations
    are in the state-and-failure monad [M]. Errors a call returns (a null
    pointer, [false]) are values; an exception ([Throw]), undefined behaviour
    ([Undefined]), waiting for a latch of one's own ([Blocked]) and exhausted
    fuel ([OutOfFuel]) are the faults of a [result], and the state survives
    them. So a theorem whose conclusion is [Ok _] also says that the call
    returns and that none of these happens.

    Loops that are not structural take fuel, and the theorems show that the
    fuel given by the callers suffices: a walk down or up the tree gets one
    more than the number of allocated pages; the search for a value page with
    room gets one more than the number of allocated pages; the columnar cursor's loop over
    files gets the number of files plus two; draining a scan needs one batch
    more than there are rows; the fencing loop of [CloudTableWriter::Start],
    which the code leaves unbounded, needs as many rounds as the store has files
    when the writer is alone, and a run in which it exhausts its fuel is one in
    which the writer has not answered yet; a listing of an object store needs one
    page more than there are keys; a listing of a directory tree needs its depth,
    and a write to a descriptor as many calls as there are bytes. The counters of the stores are
    followed while they have not wrapped ([Small], [room]); a batch in a client's
    request encodes to at most the 256 MiB that [ReadAll] accepts ([batch_wf]).

    The [World] of the cloud tables has one ghost component, [written]: the
    data files and what the format made them of, in the order of their creation.
    Nothing reads it; the theorems that decode data files assume that the key
    generator, which is outside the sources, never repeated a path there.

    ** What the theorems show

    - Pool: [pool_refines_page_map] (any sequence of operations acts on the map
      from page ids to contents as if there were no cache), [FetchPage_spec],
      [NewPage_spec], [flush_then_reopen], [lru_refines_queue].
    - Keys: the encodings are order isomorphisms ([KeyEncoder_int_order],
      [KeyEncoder_double_order], [KeyEncoder_float_order]); [RID_roundtrip].
    - Tree: a leaf is a finite map ([leaf_refines_map]), splits and merges
      lose nothing ([leaf_split], [leaf_rebalance]), internal pages route
      ([internal_lookup_routes], [internal_insert_after]), indexes stay in the
      page ([pages_in_bounds]); on whole trees [GetValue_correct],
      [Insert_correct] (with every split up to a new root) and [Remove_correct]
      (with merges of leaves below a node that can lose a child, and the removal
      of the last entry).
    - Values: [Put_stores], [Put_Get_roundtrip], [Delete_erases] and
      [Update_replaces] with the frame of all other values.
    - Engine: [Engine_Get_correct], [cursor_scans_in_order],
      [MiniKV_reopen] (closing and opening the file again gives the same map),
      and [MiniKV_refines_map] (any script of insertions, removals, lookups,
      scans and restarts answers as a finite map).
    - Tables: [RowCodec_roundtrip], [RowCodec_Decode_typed] on any bytes,
      [row_scan_correct] end to end.
    - Columnar: [columnar_scan_correct] and [columnar_write_then_scan] (a scan
      of what the writer sealed yields the rows written, for any projection,
      batch size and accessor).
    - Metadata: [version_identifies_write].
    - Cloud records: [Wal_roundtrip], [metadata_codecs_exact] (the decoders
      accept exactly what the encoders produce), [DecodeSequentialWal_safe].
    - Cloud tables, for every interleaving and every store failure:
      [cloud_log_invariant], [cloud_import_answers] (what is answered as done is
      in the log), [cloud_import_once] (never twice), [cloud_snapshot_exact] and
      [cloud_query_exact] (a query sees exactly the rows of a log prefix, from
      data files and records together), [cloud_read_your_writes].
    - Progress: [Start_terminates], [import_commits].
    - Object store: [s3_metadata_atomic] and [s3_files_atomic] (each operation is
      one atomic step on the objects, and a conditional write that is refused
      changes nothing), [s3_list_complete], [requests_authentic] (what the client
      sends verifies at the service).
    - Local files: [CreateIfAbsent_atomic] (among other processes and failing
      system calls, a complete file appears in one step or not at all) and
      [local_refines_mem] (scripts answer as on the in-memory storage).
    - Event loop: [reactor_refines] (channels, poller and loop are a set of
      interests) and [reactor_dispatch] (a turn runs the callbacks that are due).
    - Monitors, in every schedule and with spurious wake-ups: [queue_accounts],
      [latch_exclusive] and [latch_serves_all] (no wake-up of the latch is lost,
      and all threads get through).
    - Behaviour the code does not intend, each as a theorem on a concrete or
      general state: [DeletePage_pinned], [ReadPage_overflow],
      [MoveLastToFrontOf_loses_child], [Remove_self_deadlock],
      [Redistribute_leaks_pin], [collapse_leaves_pin], [Update_too_large_loses],
      [zero_batch_never_ends], [repeated_projection_undefined],
      [ParseFooter_reads_past_footer], [DecodeFixed_size_wraps],
      [manifest_too_many_columns], [fenced_writer_stuck], [ResolveVersion_races],
      [S3_ReadAt_wraps], [S3_Exists_hides_errors], [Close_hides_failure],
      [Delete_directory_throws], [absolute_path_escapes], [List_shows_temporary],
      [dispatch_dangling], [Pop_loses_element], [queue_lost_wakeup].

    ** What is assumed, and what is left out

    One thread is followed on the pool and the tree: latches are modelled as that
    thread sees them ([LatchSpec] compares), and mutexes that a call takes on entry and releases on exit are left out, as is
    the tree's [root_mutex_]. Memory allocation succeeds, pin counts do not
    overflow, and a read of the database file sees the writes before it. A
    frame read as tree or meta page is the struct that was written there
    (reading it as another struct is undefined); value pages are raw bytes.
    zlib is a parameter, with its documented round trip as the class [ZlibSpec].

    A node of the cloud system is one thread; the catalog, the routing and the
    transport of CloudServices are interfaces of the model.

    A request to the object service is one atomic step there, or is answered by
    an error of the transport; [curl_easy_init] succeeds. SHA-256 and HMAC are
    functions of which nothing is assumed.

    The file system has no symbolic links, permissions or quotas: a call that
    fails for such a reason is one that fails. Each system call is one atomic
    step. A file stream is the calls it makes; when its buffer is written is up
    to the class [Filebuf]. [local_refines_mem] is about paths with plain
    components, none of which is a directory on the way to another.

    [reactor_dispatch] is for callbacks that do not change the reactor, and for a
    [::poll] that fills in as many [revents] as it says. Failing assertions
    end the process and are the fault [Undefined]. Threads of the monitors run one
    turn with the mutex at a time, and there are fewer than 2^32 - 1 of them at a
    latch.

    Not modelled: the unfinished hash table (a draft of one method, in a class
    that cannot be built), the random generator, string formatting and macros,
    which the modelled parts do not call; [ToString] methods; the checks for
    null arguments in constructors.

    [Remove_correct] and removals in [MiniKV_refines_map] are for the cases that
    [local_removal] decides from the pages. The others are modelled as well, but
    the code is not correct there: borrowing from a sibling leaks a pin
    ([Redistribute_leaks_pin]), rebalancing inner nodes can wait for a latch of
    the same thread ([Remove_self_deadlock]) or drop a child
    ([MoveLastToFrontOf_loses_child]), and giving up the root leaves a pin
    ([collapse_leaves_pin]).

    ** This file

    Notations, fixed-width integers, little-endian bytes, list and map lemmas,
    and the tactics that the other files share. *)

From Stdlib Require Export ZArith Lia String.
From Stdlib Require Import Strings.Byte.
From stdpp Require Export base gmap strings countable.
Export list_basics.list list_relations.list list_misc.list list_monad.list list_tactics.list.

Declare Scope dbp_scope.
Delimit Scope dbp_scope with dbp.
Open Scope dbp_scope.
#[global] Open Scope Z_scope.
#[export] Set Warnings "-clear-no-such-hyp".

(** ** Fixed-width integers

    A w-bit value of the C++ program is a [Z]; every operation that can leave
    the range is followed by the wrap of its type. *)

Definition u8 (z : Z) : Z := z mod 2 ^ 8.
Definition u32 (z : Z) : Z := z mod 2 ^ 32.
Definition u64 (z : Z) : Z := z mod 2 ^ 64.
Definition i32 (z : Z) : Z := (z + 2 ^ 31) mod 2 ^ 32 - 2 ^ 31.
Definition i64 (z : Z) : Z := (z + 2 ^ 63) mod 2 ^ 64 - 2 ^ 63.

Definition UINT32_MAX : Z := 2 ^ 32 - 1.
Definition UINT64_MAX : Z := 2 ^ 64 - 1.

Lemma u64_small z : 0 <= z < 2 ^ 64 -> u64 z = z.
Proof. apply Z.mod_small. Qed.

Lemma u32_small z : 0 <= z < 2 ^ 32 -> u32 z = z.
Proof. apply Z.mod_small. Qed.

Lemma i32_small z : - 2 ^ 31 <= z < 2 ^ 31 -> i32 z = z.
Proof. intros H. unfold i32. rewrite Z.mod_small; lia. Qed.

Lemma i64_small z : - 2 ^ 63 <= z < 2 ^ 63 -> i64 z = z.
Proof. intros H. unfold i64. rewrite Z.mod_small; lia. Qed.

Lemma u32_range z : 0 <= u32 z < 2 ^ 32.
Proof. apply Z.mod_pos_bound. lia. Qed.

Lemma u64_range z : 0 <= u64 z < 2 ^ 64.
Proof. apply Z.mod_pos_bound. lia. Qed.

Lemma i32_range z : - 2 ^ 31 <= i32 z < 2 ^ 31.
Proof. unfold i32. pose proof (Z.mod_pos_bound (z + 2 ^ 31) (2 ^ 32)). lia. Qed.

Lemma i64_range z : - 2 ^ 63 <= i64 z < 2 ^ 63.
Proof. unfold i64. pose proof (Z.mod_pos_bound (z + 2 ^ 63) (2 ^ 64)). lia. Qed.

(** Casting a w-bit signed value to unsigned and back gives it again. *)
Lemma i64_u64 z : i64 (u64 z) = i64 z.
Proof. unfold i64, u64. rewrite Zplus_mod_idemp_l. reflexivity. Qed.

Lemma i32_u32 z : i32 (u32 z) = i32 z.
Proof. unfold i32, u32. rewrite Zplus_mod_idemp_l. reflexivity. Qed.

(** ** Bytes

    [std::string], [char[]] and the bytes a [Slice] points at are lists of
    bytes. *)

Abbreviation bytes := (list Byte.byte).

#[global] Instance byte_eq_dec : EqDecision Byte.byte := Byte.byte_eq_dec.

Definition byte_to_Z (b : Byte.byte) : Z := Z.of_N (Byte.to_N b).

Definition byte_of_Z (z : Z) : Byte.byte :=
  match Byte.of_N (Z.to_N (z mod 256)) with
  | Some b => b
  | None => x00
  end.

Lemma byte_to_Z_range b : 0 <= byte_to_Z b < 256.
Proof.
  unfold byte_to_Z. pose proof (Byte.to_N_bounded b). lia.
Qed.

Lemma byte_to_of_Z z : byte_to_Z (byte_of_Z z) = z mod 256.
Proof.
  unfold byte_to_Z, byte_of_Z.
  pose proof (Z.mod_pos_bound z 256 ltac:(lia)).
  destruct (Byte.of_N _) as [b|] eqn:E.
  - apply Byte.to_of_N in E. rewrite E. lia.
  - apply Byte.of_N_None_iff in E. lia.
Qed.

Lemma byte_of_to_Z b : byte_of_Z (byte_to_Z b) = b.
Proof.
  unfold byte_of_Z. rewrite Z.mod_small by apply byte_to_Z_range.
  unfold byte_to_Z. rewrite N2Z.id, Byte.of_to_N. reflexivity.
Qed.

Lemma byte_to_Z_inj a b : byte_to_Z a = byte_to_Z b -> a = b.
Proof. intros H. rewrite <- (byte_of_to_Z a), H. apply byte_of_to_Z. Qed.

Lemma byte_of_to_N b : default x00 (Byte.of_N (Byte.to_N b)) = b.
Proof. rewrite Byte.of_to_N. reflexivity. Qed.

#[global] Instance byte_countable : Countable Byte.byte :=
  inj_countable' Byte.to_N (fun n => default x00 (Byte.of_N n)) byte_of_to_N.

(** A literal of the program, as bytes. *)
Definition lit (s : string) : bytes := String.list_byte_of_string s.

(** *** Little- and big-endian layouts *)

Fixpoint le_bytes (n : nat) (z : Z) : bytes :=
  match n with
  | O => []
  | S n => byte_of_Z z :: le_bytes n (z / 256)
  end.

Fixpoint le_value (bs : bytes) : Z :=
  match bs with
  | [] => 0
  | b :: bs => byte_to_Z b + 256 * le_value bs
  end.

Definition be_bytes (n : nat) (z : Z) : bytes := rev (le_bytes n z).
Definition be_value (bs : bytes) : Z := le_value (rev bs).

Lemma length_le_bytes n z : length (le_bytes n z) = n.
Proof. revert z; induction n as [|n IH]; intros z; simpl; auto. Qed.

Lemma length_be_bytes n z : length (be_bytes n z) = n.
Proof. unfold be_bytes. rewrite length_rev. apply length_le_bytes. Qed.

Lemma pow256_S n : 256 ^ Z.of_nat (S n) = 256 * 256 ^ Z.of_nat n.
Proof. rewrite Nat2Z.inj_succ, Z.pow_succ_r; lia. Qed.

Lemma le_value_bytes n z : le_value (le_bytes n z) = z mod 256 ^ Z.of_nat n.
Proof.
  revert z; induction n as [|n IH]; intros z; [symmetry; apply Z.mod_1_r|].
  simpl le_bytes; simpl le_value. rewrite IH, byte_to_of_Z, pow256_S.
  assert (0 < 256 ^ Z.of_nat n) by (apply Z.pow_pos_nonneg; lia).
  rewrite Z.rem_mul_r by lia. reflexivity.
Qed.

Lemma le_bytes_value bs : le_bytes (length bs) (le_value bs) = bs.
Proof.
  induction bs as [|b bs IH]; [reflexivity|]. simpl.
  pose proof (byte_to_Z_range b). f_equal.
  - apply byte_to_Z_inj. rewrite byte_to_of_Z.
    rewrite Z.mul_comm, Z.mod_add by lia. apply Z.mod_small; lia.
  - rewrite Z.mul_comm, Z.div_add by lia.
    rewrite (Z.div_small (byte_to_Z b)) by lia. exact IH.
Qed.

Lemma le_value_range bs : 0 <= le_value bs < 256 ^ Z.of_nat (length bs).
Proof.
  rewrite <- (le_bytes_value bs), le_value_bytes, length_le_bytes.
  apply Z.mod_pos_bound, Z.pow_pos_nonneg; lia.
Qed.

Lemma be_value_bytes n z : be_value (be_bytes n z) = z mod 256 ^ Z.of_nat n.
Proof. unfold be_value, be_bytes. rewrite rev_involutive. apply le_value_bytes. Qed.

Lemma le_bytes_small n z :
  0 <= z < 256 ^ Z.of_nat n -> le_value (le_bytes n z) = z.
Proof. intros H. rewrite le_value_bytes. apply Z.mod_small, H. Qed.

(** Widths are given in bits in the source and in bytes here. *)
Lemma le_bytes_mod n z : le_bytes n z = le_bytes n (z mod 256 ^ Z.of_nat n).
Proof.
  assert (H : le_bytes n z = le_bytes (length (le_bytes n z)) (le_value (le_bytes n z)))
    by (symmetry; apply le_bytes_value).
  rewrite length_le_bytes, le_value_bytes in H. exact H.
Qed.

(** *** memcmp *)

Fixpoint memcmp (a b : bytes) : comparison :=
  match a, b with
  | [], [] => Eq
  | [], _ :: _ => Lt
  | _ :: _, [] => Gt
  | x :: a, y :: b =>
      match byte_to_Z x ?= byte_to_Z y with
      | Eq => memcmp a b
      | c => c
      end
  end.

Lemma le_value_app a b :
  le_value (a ++ b) = le_value a + 256 ^ Z.of_nat (length a) * le_value b.
Proof.
  induction a as [|x a IH]; [simpl; lia|].
  simpl app; simpl le_value; simpl length. rewrite IH, pow256_S. ring.
Qed.

Lemma be_value_cons x a :
  be_value (x :: a) = byte_to_Z x * 256 ^ Z.of_nat (length a) + be_value a.
Proof.
  unfold be_value. simpl rev. rewrite le_value_app, length_rev. simpl. ring.
Qed.

Lemma be_value_range a : 0 <= be_value a < 256 ^ Z.of_nat (length a).
Proof. unfold be_value. rewrite <- length_rev. apply le_value_range. Qed.

(** On byte strings of one length [memcmp] is the order of their big-endian
    values: this is what makes a byte comparison a key comparison. *)
Lemma memcmp_be a b :
  length a = length b -> memcmp a b = (be_value a ?= be_value b).
Proof.
  revert b; induction a as [|x a IH]; intros [|y b] H; try discriminate H;
    [reflexivity|].
  injection H as H. simpl memcmp. rewrite !be_value_cons, <- H.
  pose proof (be_value_range a). pose proof (be_value_range b).
  rewrite <- H in *.
  set (p := 256 ^ Z.of_nat (length a)) in *.
  destruct (Z.compare_spec (byte_to_Z x) (byte_to_Z y)) as [E|E|E].
  - rewrite E, (IH b H).
    destruct (Z.compare_spec (be_value a) (be_value b)); symmetry;
      rewrite ?Z.compare_eq_iff, ?Z.compare_lt_iff, ?Z.compare_gt_iff; lia.
  - symmetry. apply Z.compare_lt_iff. nia.
  - symmetry. apply Z.compare_gt_iff. nia.
Qed.

Lemma memcmp_eq a b : memcmp a b = Eq <-> a = b.
Proof.
  split; [|intros ->; induction b as [|y b IH]; simpl; rewrite ?Z.compare_refl; auto].
  revert b; induction a as [|x a IH]; intros [|y b]; simpl; try discriminate; auto.
  destruct (Z.compare_spec (byte_to_Z x) (byte_to_Z y)) as [E| |]; try discriminate.
  intros H. f_equal; [apply byte_to_Z_inj, E | apply IH, H].
Qed.

(** ** Outcomes

    A call returns, throws one of the standard exceptions, runs into undefined
    behaviour (a null or dangling dereference), blocks for ever on a latch its
    own thread holds, or exhausts the fuel of the model of a loop. *)

Inductive exn_kind := invalid_argument | runtime_error | out_of_range | logic_error.

Inductive fault :=
| Throw (k : exn_kind) (msg : string)
| Undefined (why : string)
| Blocked
| OutOfFuel.

Inductive result (A : Type) :=
| Ok (a : A)
| Fail (f : fault).
Arguments Ok {A} a.
Arguments Fail {A} f.

Definition result_bind {A B} (r : result A) (f : A -> result B) : result B :=
  match r with
  | Ok a => f a
  | Fail e => Fail e
  end.

Notation "'let?' x ':=' r 'in' k" := (result_bind r (fun x => k))
  (at level 10, x pattern, r at level 100, k at level 200,
   format "'[v' 'let?'  x  ':='  r  'in' '/' k ']'") : dbp_scope.

Definition guard_throw (ok : bool) (k : exn_kind) (msg : string) : result unit :=
  if ok then Ok tt else Fail (Throw k msg).

(** The state-and-failure monad of the stateful components: a state survives
    the exception that ends a call, as it does in the program. *)

Definition M (S A : Type) : Type := S -> result A * S.

Definition ret {S A} (a : A) : M S A := fun s => (Ok a, s).
Definition fail {S A} (e : fault) : M S A := fun s => (Fail e, s).
Definition throw {S A} (k : exn_kind) (msg : string) : M S A := fail (Throw k msg).
Definition get {S} : M S S := fun s => (Ok s, s).
Definition put {S} (s : S) : M S unit := fun _ => (Ok tt, s).
Definition gets {S A} (f : S -> A) : M S A := fun s => (Ok (f s), s).
Definition modify {S} (f : S -> S) : M S unit := fun s => (Ok tt, f s).
Definition lift {S A} (r : result A) : M S A := fun s => (r, s).

Definition bind {S A B} (m : M S A) (f : A -> M S B) : M S B :=
  fun s => match m s with
           | (Ok a, s') => f a s'
           | (Fail e, s') => (Fail e, s')
           end.

Notation "'let*' x ':=' m 'in' k" := (bind m (fun x => k))
  (at level 10, x pattern, m at level 100, k at level 200,
   format "'[v' 'let*'  x  ':='  m  'in' '/' k ']'") : dbp_scope.
Notation "m ';;;' k" := (bind m (fun _ => k))
  (at level 199, right associativity, format "'[v' m ';;;' '/' k ']'") : dbp_scope.

Definition when {S} (b : bool) (m : M S unit) : M S unit := if b then m else ret tt.

Lemma bind_ok {S A B} (m : M S A) (f : A -> M S B) s a s' :
  m s = (Ok a, s') -> bind m f s = f a s'.
Proof. unfold bind. intros ->. reflexivity. Qed.

Lemma bind_ret {S A B} (a : A) (f : A -> M S B) s : bind (ret a) f s = f a s.
Proof. reflexivity. Qed.

Lemma bind_inv {S A B} (m : M S A) (f : A -> M S B) s b s' :
  bind m f s = (Ok b, s') -> exists a s1, m s = (Ok a, s1) /\ f a s1 = (Ok b, s').
Proof.
  unfold bind. destruct (m s) as [[a|e] s1]; [eauto|discriminate].
Qed.

(** ** Lists *)

Lemma list_filter_id {A} (P : A -> Prop) `{!forall x, Decision (P x)} (l : list A) :
  (forall x, x ∈ l -> P x) -> filter P l = l.
Proof.
  induction l as [|x l IH]; intros Hl; [reflexivity|].
  rewrite filter_cons_True, IH; set_solver.
Qed.

(** A zero-extended array: a cell that was never written holds [d], a write
    past the end grows the list, whose length is therefore the extent of the
    memory touched so far. *)
Section ZeroExtended.

Context {A : Type} (d : A).
Implicit Types (l : list A) (i j n : nat).

Definition load i l : A := default d (l !! i).

Definition store i (x : A) l : list A :=
  if (i <? length l)%nat then <[i := x]> l
  else l ++ replicate (i - length l) d ++ [x].

(** The first [n] cells. *)
Definition cells n l : list A := (fun i => load i l) <$> seq 0 n.

Lemma length_store i x l : length (store i x l) = Nat.max (S i) (length l).
Proof.
  unfold store. destruct (Nat.ltb_spec i (length l)).
  - rewrite length_insert. lia.
  - rewrite !length_app, length_replicate. simpl. lia.
Qed.

Lemma load_store i x l j : load j (store i x l) = if decide (j = i) then x else load j l.
Proof.
  unfold load, store. destruct (Nat.ltb_spec i (length l)) as [Hlt|Hge].
  - case_decide as E; [subst; by rewrite list_lookup_insert_eq|].
    by rewrite list_lookup_insert_ne.
  - destruct (decide (j < length l)%nat) as [Hj|Hj].
    + rewrite lookup_app_l by done. by rewrite decide_False by lia.
    + rewrite lookup_app_r, (lookup_ge_None_2 l) by lia.
      destruct (decide (j - length l < i - length l)%nat) as [Hk|Hk].
      * rewrite lookup_app_l by (rewrite length_replicate; lia).
        rewrite lookup_replicate_2 by lia. by rewrite decide_False by lia.
      * rewrite lookup_app_r by (rewrite length_replicate; lia). rewrite length_replicate.
        case_decide as E.
        -- subst. replace (i - length l - (i - length l))%nat with 0%nat by lia. done.
        -- rewrite lookup_ge_None_2; [done | simpl; lia].
Qed.

Lemma load_store_eq i x l : load i (store i x l) = x.
Proof. rewrite load_store. by rewrite decide_True. Qed.

Lemma load_store_ne i x l j : j <> i -> load j (store i x l) = load j l.
Proof. intros. rewrite load_store. by rewrite decide_False. Qed.

Lemma length_cells n l : length (cells n l) = n.
Proof. unfold cells. by rewrite length_fmap, length_seq. Qed.

Lemma lookup_cells n l i : cells n l !! i = if decide (i < n)%nat then Some (load i l) else None.
Proof.
  unfold cells. rewrite list_lookup_fmap. case_decide.
  - by rewrite lookup_seq_lt.
  - by rewrite lookup_seq_ge by lia.
Qed.

Lemma cells_take n l : (n <= length l)%nat -> cells n l = take n l.
Proof.
  intros H. apply list_eq. intros i. rewrite lookup_cells. case_decide.
  - rewrite lookup_take_lt by done. unfold load. destruct (lookup_lt_is_Some_2 l i) as [x ->]; [lia|done].
  - by rewrite lookup_take_ge by lia.
Qed.

(** [for (i = pos + n - 1; i >= pos; i--) a[i + k] = a[i]]: make room for [k]
    cells below [n] ones. *)
Fixpoint shift_up (k n pos : nat) l : list A :=
  match n with
  | O => l
  | S n => shift_up k n pos (store (pos + n + k) (load (pos + n) l) l)
  end.

Lemma load_shift_up k n pos l j : (0 < k)%nat ->
  load j (shift_up k n pos l) =
  if decide (pos + k <= j < pos + k + n)%nat then load (j - k) l else load j l.
Proof.
  intros Hk. revert l; induction n as [|n IH]; intros l; simpl; [by rewrite decide_False by lia|].
  rewrite IH. repeat case_decide; try lia; rewrite ?load_store_ne by lia; auto.
  replace j with (pos + n + k)%nat by lia. rewrite load_store_eq. f_equal. lia.
Qed.

(** [for (i = pos + 1; i <= pos + n; i++) a[i - 1] = a[i]]: close the gap at
    [pos]. *)
Fixpoint shift_down (n pos : nat) l : list A :=
  match n with
  | O => l
  | S n => shift_down n (S pos) (store pos (load (S pos) l) l)
  end.

Lemma load_shift_down n pos l j :
  load j (shift_down n pos l) =
  if decide (pos <= j < pos + n)%nat then load (S j) l else load j l.
Proof.
  revert pos l; induction n as [|n IH]; intros pos l; simpl; [by rewrite decide_False by lia|].
  rewrite IH. repeat case_decide; try lia; rewrite ?load_store_ne by lia; auto.
  replace j with pos by lia. by rewrite load_store_eq.
Qed.

(** [for (i = 0; i < n; i++) a[at + i] = items[i]]. *)
Fixpoint copy_in (at_ : nat) (items l : list A) : list A :=
  match items with
  | [] => l
  | x :: items => copy_in (S at_) items (store at_ x l)
  end.

Lemma load_copy_in at_ items l j :
  load j (copy_in at_ items l) =
  if decide (at_ <= j < at_ + length items)%nat then load (j - at_) items else load j l.
Proof.
  revert at_ l; induction items as [|x items IH]; intros at_ l; simpl;
    [by rewrite decide_False by lia|].
  rewrite IH. repeat case_decide; try lia; rewrite ?load_store_ne by lia; auto.
  - replace (j - at_)%nat with (S (j - S at_)) by lia. done.
  - replace j with at_ by lia. rewrite load_store_eq, Nat.sub_diag. done.
Qed.

Lemma length_shift_up k n pos l :
  (length (shift_up k n pos l) <= Nat.max (length l) (pos + n + k))%nat.
Proof.
  revert l; induction n as [|n IH]; intros l; simpl; [lia|].
  etransitivity; [apply IH|]. rewrite length_store. lia.
Qed.

Lemma length_shift_down n pos l :
  (length (shift_down n pos l) <= Nat.max (length l) (pos + n))%nat.
Proof.
  revert pos l; induction n as [|n IH]; intros pos l; simpl; [lia|].
  etransitivity; [apply IH|]. rewrite length_store. lia.
Qed.

Lemma length_copy_in at_ items l :
  (length (copy_in at_ items l) <= Nat.max (length l) (at_ + length items))%nat.
Proof.
  revert at_ l; induction items as [|x items IH]; intros at_ l; simpl; [lia|].
  etransitivity; [apply IH|]. rewrite length_store. lia.
Qed.

End ZeroExtended.

(** Slices of a buffer: [memcpy] out of it and into it. *)
Section Slices.

Context {A : Type}.
Implicit Types (l x : list A) (o n i : nat).

Definition slice o n l : list A := take n (drop o l).

Definition patch o x l : list A := take o l ++ x ++ drop (o + length x) l.

Lemma lookup_slice o n l i : slice o n l !! i = if decide (i < n)%nat then l !! (o + i)%nat else None.
Proof.
  unfold slice. case_decide; [by rewrite lookup_take_lt, lookup_drop | by rewrite lookup_take_ge by lia].
Qed.

Lemma lookup_patch o x l i : (o + length x <= length l)%nat ->
  patch o x l !! i = if decide (o <= i < o + length x)%nat then x !! (i - o)%nat else l !! i.
Proof.
  intros Hx. unfold patch. assert (Ho : length (take o l) = o) by (rewrite length_take; lia).
  destruct (decide (i < o)%nat).
  - rewrite lookup_app_l, lookup_take_lt by lia. by rewrite decide_False by lia.
  - rewrite lookup_app_r, Ho by lia. destruct (decide (i < o + length x)%nat).
    + rewrite lookup_app_l by lia. by rewrite decide_True by lia.
    + rewrite lookup_app_r, lookup_drop by lia. rewrite decide_False by lia. f_equal. lia.
Qed.

Lemma length_slice o n l : (o + n <= length l)%nat -> length (slice o n l) = n.
Proof. intros. unfold slice. rewrite length_take, length_drop. lia. Qed.

Lemma length_patch o x l : (o + length x <= length l)%nat -> length (patch o x l) = length l.
Proof. intros. unfold patch. rewrite !length_app, length_take, length_drop. lia. Qed.

Lemma slice_patch_eq o x l : (o + length x <= length l)%nat -> slice o (length x) (patch o x l) = x.
Proof.
  intros Hx. apply list_eq. intros i. rewrite lookup_slice, lookup_patch by done. case_decide.
  - rewrite decide_True by lia. f_equal. lia.
  - symmetry. apply lookup_ge_None_2. lia.
Qed.

Lemma slice_patch_ne o x l o' n : (o + length x <= length l)%nat ->
  (o' + n <= o \/ o + length x <= o')%nat -> slice o' n (patch o x l) = slice o' n l.
Proof.
  intros Hx Hd. apply list_eq. intros i. rewrite !lookup_slice. case_decide; [|done].
  rewrite lookup_patch, decide_False by lia. done.
Qed.

(** A slice inside what was written. *)
Lemma slice_patch_in o x l o' n : (o + length x <= length l)%nat ->
  (o <= o')%nat -> (o' + n <= o + length x)%nat -> slice o' n (patch o x l) = slice (o' - o) n x.
Proof.
  intros Hx H1 H2. apply list_eq. intros i. rewrite !lookup_slice. case_decide; [|done].
  rewrite lookup_patch, decide_True by lia. f_equal. lia.
Qed.

Lemma slice_app_l o n l x : (o + n <= length l)%nat -> slice o n (l ++ x) = slice o n l.
Proof.
  intros H. apply list_eq. intros i. rewrite !lookup_slice. case_decide; [|done].
  by rewrite lookup_app_l by lia.
Qed.

Lemma slice_app_r o n l x : (length l <= o)%nat -> slice o n (l ++ x) = slice (o - length l) n x.
Proof.
  intros H. apply list_eq. intros i. rewrite !lookup_slice. case_decide; [|done].
  rewrite lookup_app_r by lia. f_equal. lia.
Qed.

Lemma slice_all l : slice 0 (length l) l = l.
Proof. unfold slice. rewrite drop_0. apply take_ge. lia. Qed.

End Slices.

(** ** Strings *)

Lemma string_app_cons c a b : (String c a +:+ b) = String c (a +:+ b).
Proof. done. Qed.

Lemma string_app_assoc (a b c : string) : (a +:+ b) +:+ c = a +:+ (b +:+ c).
Proof. induction a as [|x a IH]; [done|]. by rewrite !string_app_cons, IH. Qed.

Lemma string_app_nil_r (a : string) : a +:+ ""%string = a.
Proof. induction a as [|x a IH]; [done|]. by rewrite string_app_cons, IH. Qed.

Lemma string_length_app (a b : string) : String.length (a +:+ b) = (String.length a + String.length b)%nat.
Proof. induction a as [|x a IH]; [done|]. rewrite string_app_cons. simpl. by rewrite IH. Qed.

Create HintDb dbp.
Create Rewrite HintDb dbp.
#[export] Hint Resolve u32_range u64_range i32_range i64_range byte_to_Z_range : dbp.
#[export] Hint Rewrite @length_app @length_le_bytes @length_be_bytes @length_take
  @length_drop @length_insert @length_replicate : dbp.

(** Length goals over appended and sliced byte strings. *)
Ltac solve_len := autorewrite with dbp in *; simpl in *; lia.

(** Case analysis on index comparisons. *)
Ltac decides := repeat (case_decide; simplify_eq; try lia); auto; try (f_equal; f_equal; lia).

(** Linear arithmetic with divisions and remainders by constants. *)
Ltac div_lia := Z.to_euclidean_division_equations; lia.
