(* ===== verification/Text.v ===== *)
(** * Text

    Splitting strings at a character, for the components that take paths, URLs
    and headers apart. *)

From Stdlib Require Import Ascii.
From stdpp Require Import strings.
From S2P Require Import Prelude.

Abbreviation chars := list_ascii_of_string.

(** [P] holds of every character. *)
Definition all_chars (P : ascii -> Prop) (s : string) : Prop := Forall P (chars s).

Lemma chars_app a b : chars (a +:+ b) = chars a ++ chars b.
Proof. induction a as [|c a IH]; [done|]. change (chars (String c a +:+ b)) with (c :: chars (a +:+ b)). by rewrite IH. Qed.

(** The text before the first [c], and behind it. *)
Fixpoint cut (c : ascii) (s : string) : string * option string :=
  match s with
  | EmptyString => ("", None)
  | String x s => if bool_decide (x = c) then ("", Some s) else let (a, b) := cut c s in (String x a, b)
  end.

Fixpoint split_on (c : ascii) (s : string) : list string :=
  match s with
  | EmptyString => [""]
  | String x s =>
      if bool_decide (x = c) then "" :: split_on c s
      else match split_on c s with a :: l => String x a :: l | [] => [String x ""] end
  end.

Lemma cut_app c a b : all_chars (.≠ c) a -> cut c (a +:+ String c b) = (a, Some b).
Proof.
  induction a as [|x a IH]; intros Ha; [simpl; by rewrite bool_decide_true|]. apply Forall_cons in Ha as [Hx Ha].
  rewrite string_app_cons. cbn [cut]. by rewrite bool_decide_false, IH.
Qed.

Lemma cut_none c a : all_chars (.≠ c) a -> cut c a = (a, None).
Proof.
  induction a as [|x a IH]; intros Ha; [done|]. apply Forall_cons in Ha as [Hx Ha]. cbn [cut]. by rewrite bool_decide_false, IH.
Qed.

Lemma split_on_app c a b : all_chars (.≠ c) a -> split_on c (a +:+ String c b) = a :: split_on c b.
Proof.
  induction a as [|x a IH]; intros Ha; [simpl; by rewrite bool_decide_true|]. apply Forall_cons in Ha as [Hx Ha].
  rewrite string_app_cons. cbn [split_on]. by rewrite bool_decide_false, IH.
Qed.

Lemma split_on_none c a : all_chars (.≠ c) a -> split_on c a = [a].
Proof.
  induction a as [|x a IH]; intros Ha; [done|]. apply Forall_cons in Ha as [Hx Ha]. cbn [split_on]. by rewrite bool_decide_false, IH.
Qed.

Lemma all_chars_app P a b : all_chars P a -> all_chars P b -> all_chars P (a +:+ b).
Proof. unfold all_chars. rewrite chars_app. apply Forall_app_2. Qed.
