(* ===== verification/KeyCodec.v ===== *)
(** * Keys and values at the storage boundary

    Models [Common/Type.h], [Common/Slice.h], [Common/RID.h],
    [Common/Codec.h] and [Common/EncodedKey.h]: the scalar types, byte slices
    and their comparison, record ids, and the order-preserving key encoding on
    which the B+Tree relies. *)

From Corelib Require Import SpecFloat.
From S2P Require Import Prelude.

(** ** Common/Type.h *)

Inductive DType := Invalid | Int32 | Int64 | Float | Double | Bool | String_ | Blob.

#[global] Instance DType_eq_dec : EqDecision DType.
Proof. solve_decision. Defined.

(** The underlying [uint8_t] of the enumeration. *)
Definition DType_u8 (t : DType) : Z :=
  match t with
  | Invalid => 0 | Int32 => 1 | Int64 => 2 | Float => 3
  | Double => 4 | Bool => 5 | String_ => 6 | Blob => 7
  end.

Definition IsFixedWidthType (t : DType) : bool :=
  match t with
  | Int32 | Int64 | Float | Double | Bool => true
  | _ => false
  end.

(** ** Common/Slice.h *)

Module Slice.

(** [Slice::compare]: [memcmp] over the shorter length, ties broken by size. *)
Definition compare (x b : bytes) : comparison :=
  let min_len := (if length x <? length b then length x else length b)%nat in
  match memcmp (take min_len x) (take min_len b) with
  | Eq => if (length x <? length b)%nat then Lt
          else if (length b <? length x)%nat then Gt else Eq
  | r => r
  end.

(** [operator==]: equal sizes and equal bytes over the first one's size. *)
Definition eqb (x y : bytes) : bool :=
  (length x =? length y)%nat &&
  match memcmp (take (length x) x) (take (length x) y) with Eq => true | _ => false end.

Lemma compare_lex x b : compare x b = memcmp x b.
Proof.
  unfold compare. revert b. induction x as [|c x IH]; intros [|d b]; [reflexivity..|].
  change (length (c :: x)) with (S (length x)). change (length (d :: b)) with (S (length b)).
  specialize (IH b). cbv zeta in *.
  replace (S (length x) <? S (length b))%nat with (length x <? length b)%nat
    by (apply eq_true_iff_eq; rewrite !Nat.ltb_lt; lia).
  replace (S (length b) <? S (length x))%nat with (length b <? length x)%nat
    by (apply eq_true_iff_eq; rewrite !Nat.ltb_lt; lia).
  destruct (length x <? length b)%nat; simpl;
    destruct (byte_to_Z c ?= byte_to_Z d); auto.
Qed.

Lemma eqb_spec x y : eqb x y = true <-> x = y.
Proof.
  unfold eqb. rewrite andb_true_iff, Nat.eqb_eq. split.
  - intros [H1 H2]. destruct (memcmp _ _) eqn:E; try discriminate.
    apply memcmp_eq in E. rewrite H1 in E at 2. rewrite !firstn_all in E. exact E.
  - intros ->. split; [reflexivity|].
    rewrite (proj2 (memcmp_eq _ _) eq_refl). reflexivity.
Qed.

End Slice.

(** ** Common/RID.h *)

Definition INVALID_PAGE_ID : Z := -1.
Definition HEADER_PAGE_ID : Z := 0.
Definition PAGE_SIZE : Z := 16384.
Definition BUFFER_POOL_SIZE : Z := 40.

Record RID := mkRID { rid_page : Z; rid_slot : Z }.

#[global] Instance RID_eq_dec : EqDecision RID.
Proof. solve_decision. Defined.

Module Rid.

(** The default constructor: an invalid id. *)
Definition default : RID := mkRID INVALID_PAGE_ID 0.

(** [RID(int64_t)]: high 32 bits are the page, low 32 bits the slot. *)
Definition of_int64 (rid : Z) : RID := mkRID (i32 (Z.shiftr rid 32)) (u32 rid).

(** [RID::Get]. *)
Definition Get (r : RID) : Z := Z.lor (i64 (Z.shiftl (rid_page r) 32)) (rid_slot r).

(** A record id is well formed when its fields fit their C++ types. *)
Definition wf (r : RID) : Prop :=
  - 2 ^ 31 <= rid_page r < 2 ^ 31 /\ 0 <= rid_slot r < 2 ^ 32.

Lemma Get_arith r : wf r -> Get r = rid_page r * 2 ^ 32 + rid_slot r.
Proof.
  intros [Hp Hs]. unfold Get. rewrite Z.shiftl_mul_pow2 by lia.
  rewrite i64_small by lia.
  rewrite <- Z.add_lor_land.
  enough (Z.land (rid_page r * 2 ^ 32) (rid_slot r) = 0) as -> by lia.
  apply Z.bits_inj'. intros n Hn. rewrite Z.land_spec, Z.bits_0.
  destruct (Z.ltb_spec n 32).
  - rewrite Z.mul_pow2_bits_low by lia. reflexivity.
  - rewrite andb_comm, Z.bits_above_log2; [reflexivity|lia|].
    destruct (Z.eq_dec (rid_slot r) 0) as [->|]; [cbn; lia|].
    apply Z.log2_lt_pow2; [lia|].
    apply Z.lt_le_trans with (2 ^ 32); [lia|]. apply Z.pow_le_mono_r; lia.
Qed.

End Rid.

(** ** Common/Codec.h: order-preserving keys *)

Definition kKeyLen : nat := 8.

(** [PutBigEndian64]: the loop fills the buffer from its last byte. *)
Fixpoint put_big_endian_loop (i : nat) (v : Z) (dst : bytes) : bytes :=
  match i with
  | O => dst
  | S i => put_big_endian_loop i (Z.shiftr v 8) (byte_of_Z (Z.land v 255) :: dst)
  end.

Definition PutBigEndian64 (v : Z) : bytes := put_big_endian_loop kKeyLen v [].

(** [EncodeInt]: flip the sign bit of the two's complement pattern. *)
Definition EncodeInt (v : Z) : bytes :=
  PutBigEndian64 (Z.lxor (u64 v) (Z.shiftl 1 63)).

(** [EncodeDouble], on the 64-bit pattern of the double. *)
Definition EncodeDouble (d : Z) : bytes :=
  PutBigEndian64
    (if Z.testbit d 63 then u64 (Z.lnot d) else Z.lor d (Z.shiftl 1 63)).

Definition KeyEncoder_int64 (v : Z) : bytes := EncodeInt v.
Definition KeyEncoder_int32 (v : Z) : bytes := EncodeInt v.
Definition KeyEncoder_bool (v : bool) : bytes := EncodeInt (if v then 1 else 0).
Definition KeyEncoder_double (v : Z) : bytes := EncodeDouble v.

(** [Codec<T>] for trivially copyable T of [n] bytes: the raw little-endian
    object representation, as an unsigned pattern. *)
Definition Codec_Encode (n : nat) (v : Z) : bytes := le_bytes n v.
Definition Codec_Decode (n : nat) (s : bytes) : result Z :=
  if (length s <? n)%nat then Fail (Undefined "memcpy past the end of the slice")
  else Ok (le_value (take n s)).

Lemma put_big_endian_loop_spec i v dst :
  0 <= v -> put_big_endian_loop i v dst = be_bytes i v ++ dst.
Proof.
  revert v dst; induction i as [|i IH]; intros v dst Hv; [reflexivity|].
  simpl put_big_endian_loop. rewrite IH by (apply Z.shiftr_nonneg; lia).
  unfold be_bytes. simpl. rewrite <- app_assoc. simpl.
  rewrite Z.shiftr_div_pow2 by lia. f_equal. f_equal.
  apply byte_to_Z_inj. rewrite !byte_to_of_Z.
  change 255 with (Z.ones 8). rewrite Z.land_ones by lia.
  rewrite Z.mod_mod by lia. reflexivity.
Qed.

Lemma PutBigEndian64_spec v : 0 <= v -> PutBigEndian64 v = be_bytes 8 v.
Proof.
  intros Hv. unfold PutBigEndian64. rewrite put_big_endian_loop_spec by lia.
  apply app_nil_r.
Qed.

Lemma be_value_Put v : 0 <= v < 2 ^ 64 -> be_value (PutBigEndian64 v) = v.
Proof.
  intros Hv. rewrite PutBigEndian64_spec by lia. rewrite be_value_bytes.
  apply Z.mod_small. exact Hv.
Qed.

Lemma length_Put v : length (PutBigEndian64 v) = kKeyLen.
Proof. reflexivity. Qed.

(** Two packed integers compare as the integers. *)
Lemma memcmp_Put a b :
  0 <= a < 2 ^ 64 -> 0 <= b < 2 ^ 64 ->
  memcmp (PutBigEndian64 a) (PutBigEndian64 b) = (a ?= b).
Proof.
  intros Ha Hb. rewrite memcmp_be by (rewrite !length_Put; reflexivity).
  rewrite !be_value_Put by assumption. reflexivity.
Qed.

(** Flipping bit 63 of a 64-bit pattern adds 2^63 modulo 2^64. *)
Lemma lxor_top v : 0 <= v < 2 ^ 64 ->
  Z.lxor v (Z.shiftl 1 63) = (v + 2 ^ 63) mod 2 ^ 64.
Proof.
  intros Hv. rewrite Z.shiftl_1_l.
  apply Z.bits_inj'. intros n Hn. rewrite Z.lxor_spec.
  destruct (Z.ltb_spec n 64) as [Hlt|Hge].
  - rewrite Z.mod_pow2_bits_low by lia.
    destruct (Z.eq_dec n 63) as [->|Hne].
    + rewrite Z.pow2_bits_true by lia.
      replace (v + 2 ^ 63) with (v + 1 * 2 ^ 63) by lia.
      rewrite <- (Z.shiftr_spec _ 63 0), <- (Z.shiftr_spec _ 63 0) by lia.
      rewrite !Z.shiftr_div_pow2, Z.div_add by lia.
      rewrite !Z.bit0_odd, Z.odd_add. reflexivity.
    + rewrite Z.pow2_bits_false by lia. rewrite xorb_false_r.
      rewrite <- (Z.mod_pow2_bits_low v 63 n), <- (Z.mod_pow2_bits_low (v + 2^63) 63 n) by lia.
      replace (v + 2 ^ 63) with (v + 1 * 2 ^ 63) by lia. rewrite Z.mod_add by lia. reflexivity.
  - rewrite Z.mod_pow2_bits_high by lia. rewrite Z.pow2_bits_false by lia.
    rewrite xorb_false_r. apply Z.bits_above_log2; [lia|].
    destruct (Z.eq_dec v 0) as [->|]; [cbn; lia|].
    apply Z.log2_lt_pow2; [lia|].
    apply Z.lt_le_trans with (2 ^ 64); [lia|]. apply Z.pow_le_mono_r; lia.
Qed.

Lemma EncodeInt_value v :
  - 2 ^ 63 <= v < 2 ^ 63 -> EncodeInt v = PutBigEndian64 (v + 2 ^ 63).
Proof.
  intros Hv. unfold EncodeInt. rewrite lxor_top by apply u64_range.
  unfold u64. rewrite Zplus_mod_idemp_l, Z.mod_small by lia. reflexivity.
Qed.

(** Both branches of [EncodeDouble], as arithmetic on the pattern. *)
Definition double_key (d : Z) : Z :=
  if Z.testbit d 63 then 2 ^ 64 - 1 - d else d + 2 ^ 63.

Lemma testbit63 d : 0 <= d < 2 ^ 64 -> Z.testbit d 63 = (2 ^ 63 <=? d).
Proof.
  intros Hd.
  replace (Z.testbit d 63) with (Z.testbit (Z.shiftr d 63) 0)
    by (apply Z.shiftr_spec; lia).
  rewrite Z.shiftr_div_pow2, Z.bit0_odd by lia.
  destruct (Z.leb_spec (2 ^ 63) d).
  - replace (d / 2 ^ 63) with 1; [reflexivity|].
    apply Z.div_unique with (d - 2 ^ 63); lia.
  - rewrite Z.div_small by lia. reflexivity.
Qed.

Lemma EncodeDouble_value d :
  0 <= d < 2 ^ 64 -> EncodeDouble d = PutBigEndian64 (double_key d).
Proof.
  intros Hd. unfold EncodeDouble, double_key. rewrite testbit63 by exact Hd.
  destruct (Z.leb_spec (2 ^ 63) d).
  - unfold u64. f_equal. pose proof (Z.add_lnot_diag d).
    replace (Z.lnot d) with (2 ^ 64 - 1 - d + (-1) * 2 ^ 64) by lia.
    rewrite Z.mod_add by lia. apply Z.mod_small. lia.
  - f_equal. rewrite Z.shiftl_1_l, <- Z.add_lor_land.
    enough (Z.land d (2 ^ 63) = 0) as -> by lia.
    apply Z.bits_inj'. intros n Hn. rewrite Z.land_spec, Z.bits_0, Z.pow2_bits_eqb by lia.
    destruct (Z.eqb_spec 63 n) as [<-|]; [|apply andb_false_r].
    rewrite testbit63 by lia. destruct (Z.leb_spec (2 ^ 63) d); [lia|reflexivity].
Qed.

(** ** Doubles as IEEE-754 binary64 values

    [decode64] reads a bit pattern as the standard's value, so that the value
    order of the theorem below is [SFcompare] of [SpecFloat] and not an order
    invented for the encoding. *)

Definition sign64 (d : Z) : bool := Z.testbit d 63.
Definition exp64 (d : Z) : Z := (d / 2 ^ 52) mod 2 ^ 11.
Definition frac64 (d : Z) : Z := d mod 2 ^ 52.
Definition mag64 (d : Z) : Z := d mod 2 ^ 63.

Definition decode64 (d : Z) : spec_float :=
  let s := sign64 d in
  if exp64 d =? 2047 then
    if frac64 d =? 0 then S754_infinity s else S754_nan
  else if exp64 d =? 0 then
    if frac64 d =? 0 then S754_zero s
    else S754_finite s (Z.to_pos (frac64 d)) (-1074)
  else S754_finite s (Z.to_pos (frac64 d + 2 ^ 52)) (exp64 d - 1075).

Lemma mag64_split d : mag64 d = exp64 d * 2 ^ 52 + frac64 d.
Proof.
  unfold mag64, exp64, frac64.
  change (2 ^ 63) with (2 ^ 52 * 2 ^ 11). rewrite Z.rem_mul_r by lia. lia.
Qed.

Lemma exp64_range d : 0 <= exp64 d < 2048.
Proof. apply Z.mod_pos_bound; lia. Qed.

Lemma frac64_range d : 0 <= frac64 d < 2 ^ 52.
Proof. apply Z.mod_pos_bound; lia. Qed.

(** The encoded key grows with the magnitude when positive and falls with it
    when negative. *)
Lemma double_key_mag d : 0 <= d < 2 ^ 64 ->
  double_key d = if sign64 d then 2 ^ 63 - 1 - mag64 d else 2 ^ 63 + mag64 d.
Proof.
  intros Hd. unfold double_key, sign64, mag64. rewrite testbit63 by exact Hd.
  destruct (Z.leb_spec (2 ^ 63) d).
  - replace (d mod 2 ^ 63) with (d - 2 ^ 63); [lia|].
    apply Z.mod_unique_pos with 1; lia.
  - rewrite Z.mod_small by lia. lia.
Qed.

(** The order on magnitudes that [SFcompare] uses: exponent, then significand. *)
Definition lex_compare (e1 e2 : Z) (m1 m2 : positive) : comparison :=
  match e1 ?= e2 with Eq => Pos.compare_cont Eq m1 m2 | c => c end.

(** Significand and exponent of a finite pattern, and its range. *)
Lemma decode64_finite d s m e :
  decode64 d = S754_finite s m e ->
  s = sign64 d /\ exp64 d < 2047 /\ e = Z.max (exp64 d) 1 - 1075 /\
  Z.pos m = frac64 d + (if exp64 d =? 0 then 0 else 2 ^ 52).
Proof.
  unfold decode64. pose proof (exp64_range d). pose proof (frac64_range d).
  destruct (Z.eqb_spec (exp64 d) 2047); [destruct (_ =? 0); discriminate|].
  destruct (Z.eqb_spec (exp64 d) 0); [destruct (Z.eqb_spec (frac64 d) 0); [discriminate|]|];
    intros [= <- <- <-]; rewrite Z2Pos.id by lia; repeat split; lia.
Qed.

Lemma decode64_infinity d s :
  decode64 d = S754_infinity s -> s = sign64 d /\ mag64 d = 2047 * 2 ^ 52.
Proof.
  unfold decode64. rewrite mag64_split.
  destruct (Z.eqb_spec (exp64 d) 2047), (Z.eqb_spec (frac64 d) 0);
    try destruct (_ =? 0); intros [= <-]; (split; [reflexivity|lia]).
Qed.

Lemma decode64_zero d s :
  decode64 d = S754_zero s -> s = sign64 d /\ mag64 d = 0.
Proof.
  unfold decode64. rewrite mag64_split.
  destruct (Z.eqb_spec (exp64 d) 2047), (Z.eqb_spec (exp64 d) 0), (Z.eqb_spec (frac64 d) 0);
    intros [= <-]; (split; [reflexivity|lia]).
Qed.

Lemma lex_compare_finite d1 d2 m1 e1 m2 e2 s1 s2 :
  decode64 d1 = S754_finite s1 m1 e1 -> decode64 d2 = S754_finite s2 m2 e2 ->
  lex_compare e1 e2 m1 m2 = (mag64 d1 ?= mag64 d2).
Proof.
  intros (_ & X1 & -> & M1)%decode64_finite (_ & X2 & -> & M2)%decode64_finite.
  unfold lex_compare. change (Pos.compare_cont Eq m1 m2) with (Z.pos m1 ?= Z.pos m2).
  rewrite M1, M2, !mag64_split.
  pose proof (exp64_range d1). pose proof (exp64_range d2).
  pose proof (frac64_range d1). pose proof (frac64_range d2).
  destruct (Z.eqb_spec (exp64 d1) 0), (Z.eqb_spec (exp64 d2) 0);
    repeat match goal with |- context [?a ?= ?b] => destruct (Z.compare_spec a b) end;
    first [reflexivity | lia].
Qed.

Lemma finite_mag d s m e :
  decode64 d = S754_finite s m e -> 0 < mag64 d < 2047 * 2 ^ 52.
Proof.
  intros (_ & X & _ & M)%decode64_finite. rewrite mag64_split.
  pose proof (exp64_range d). pose proof (frac64_range d).
  destruct (Z.eqb_spec (exp64 d) 0); lia.
Qed.

(** The value order of two patterns, as an order on sign and magnitude. *)
Lemma SFcompare_mag d1 d2 :
  decode64 d1 <> S754_nan -> decode64 d2 <> S754_nan ->
  SFcompare (decode64 d1) (decode64 d2) =
  Some ((if sign64 d1 then - mag64 d1 else mag64 d1) ?=
        (if sign64 d2 then - mag64 d2 else mag64 d2)).
Proof.
  intros N1 N2.
  destruct (decode64 d1) as [s1|s1| |s1 m1 e1] eqn:D1;
  destruct (decode64 d2) as [s2|s2| |s2 m2 e2] eqn:D2; try congruence;
    try (pose proof (lex_compare_finite _ _ _ _ _ _ _ _ D1 D2) as L; unfold lex_compare in L);
    repeat match goal with
    | D : decode64 ?d = S754_zero _ |- _ =>
        apply decode64_zero in D as [-> D]; rewrite ?D
    | D : decode64 ?d = S754_infinity _ |- _ =>
        apply decode64_infinity in D as [-> D]; rewrite ?D
    | D : decode64 ?d = S754_finite _ _ _ |- _ =>
        pose proof (finite_mag _ _ _ _ D); apply decode64_finite in D as (-> & _)
    end; simpl SFcompare;
    destruct (sign64 d1), (sign64 d2); f_equal; try reflexivity;
    try (symmetry; first [apply Z.compare_lt_iff | apply Z.compare_gt_iff]; lia).
  - rewrite Z.compare_opp, (Z.compare_antisym (mag64 d1) (mag64 d2)), <- L. destruct (e1 ?= e2); reflexivity.
  - exact L.
Qed.

Lemma double_key_range d : 0 <= d < 2 ^ 64 -> 0 <= double_key d < 2 ^ 64.
Proof.
  intros Hd. unfold double_key. rewrite testbit63 by exact Hd.
  destruct (Z.leb_spec (2 ^ 63) d); lia.
Qed.

(** ** Properties of the key encoding *)

Lemma EncodeInt_order a b :
  - 2 ^ 63 <= a < 2 ^ 63 -> - 2 ^ 63 <= b < 2 ^ 63 ->
  memcmp (EncodeInt a) (EncodeInt b) = (a ?= b).
Proof.
  intros Ha Hb. rewrite !EncodeInt_value, memcmp_Put by lia.
  destruct (Z.compare_spec a b); [apply Z.compare_eq_iff | apply Z.compare_lt_iff
    | apply Z.compare_gt_iff]; lia.
Qed.

(** [EncodeInt] is order preserving: on any two 64-bit signed keys (and so
    on [int32_t] and [bool] keys, which are sign-extended first) the [memcmp] of
    the 8 encoded bytes is the order of the keys, and the encoding is 8 bytes
    long. *)
Theorem KeyEncoder_int_order (a b : Z) :
  - 2 ^ 63 <= a < 2 ^ 63 -> - 2 ^ 63 <= b < 2 ^ 63 ->
  memcmp (KeyEncoder_int64 a) (KeyEncoder_int64 b) = (a ?= b) /\
  length (KeyEncoder_int64 a) = kKeyLen.
Proof. intros Ha Hb. split; [apply EncodeInt_order; assumption | apply length_Put]. Qed.

Lemma KeyEncoder_int_order_witness :
  memcmp (KeyEncoder_int64 (-5)) (KeyEncoder_int64 7) = (-5 ?= 7) /\
  length (KeyEncoder_int64 (-5)) = kKeyLen.
Proof. apply KeyEncoder_int_order; lia. Defined.



(** A record id survives its packing into an [int64_t] and back. *)
Theorem RID_roundtrip (r : RID) :
  Rid.wf r -> Rid.of_int64 (Rid.Get r) = r.
Proof.
  intros Hwf. rewrite Rid.Get_arith by exact Hwf. destruct Hwf as [Hp Hs].
  destruct r as [p s]. simpl in *. unfold Rid.of_int64.
  rewrite Z.shiftr_div_pow2 by lia. rewrite Z.div_add_l by lia.
  rewrite (Z.div_small s) by lia. rewrite Z.add_0_r, i32_small by lia.
  f_equal. unfold u32. rewrite Z.add_comm, Z.mod_add by lia. apply Z.mod_small; lia.
Qed.

Lemma RID_roundtrip_witness : Rid.of_int64 (Rid.Get (mkRID 17 4000000000)) = mkRID 17 4000000000.
Proof. apply RID_roundtrip. split; simpl; lia. Defined.

(** ** Common/EncodedKey.h

    A key the tree stores: exactly [kKeyLen] bytes. The tree sees nothing of
    it but [operator<] and [operator==]. *)

Definition EncodedKey : Type := bytes.
Definition key_wf (k : bytes) : Prop := length k = kKeyLen.

Definition key_ltb (a b : bytes) : bool :=
  match memcmp (take kKeyLen a) (take kKeyLen b) with Lt => true | _ => false end.
Definition key_eqb (a b : bytes) : bool :=
  match memcmp (take kKeyLen a) (take kKeyLen b) with Eq => true | _ => false end.

(** [EncodedKeyFromSlice]: a [memcpy] of [kKeyLen] bytes. *)
Definition EncodedKeyFromSlice (s : bytes) : result bytes :=
  if (length s <? kKeyLen)%nat then Fail (Undefined "memcpy past the end of the slice")
  else Ok (take kKeyLen s).

(** The number a key stands for: its big-endian value. The comparisons of two
    well-formed keys are the comparisons of their numbers. *)
Definition key_num (k : bytes) : Z := be_value k.

Lemma take_key k : key_wf k -> take kKeyLen k = k.
Proof. intros H. apply take_ge. unfold key_wf in H. rewrite H. reflexivity. Qed.

Lemma key_ltb_num a b : key_wf a -> key_wf b -> key_ltb a b = (key_num a <? key_num b).
Proof.
  intros Ha Hb. unfold key_ltb, key_num. rewrite !take_key by assumption.
  rewrite memcmp_be by (unfold key_wf in *; congruence).
  destruct (Z.compare_spec (be_value a) (be_value b)), (Z.ltb_spec (be_value a) (be_value b));
    first [reflexivity | lia].
Qed.

Lemma key_num_inj a b : key_wf a -> key_wf b -> key_num a = key_num b -> a = b.
Proof.
  intros Ha Hb H. apply memcmp_eq. rewrite memcmp_be by (unfold key_wf in *; congruence).
  apply Z.compare_eq_iff, H.
Qed.

Lemma key_eqb_eq a b : key_wf a -> key_wf b -> key_eqb a b = true <-> a = b.
Proof.
  intros Ha Hb. unfold key_eqb. rewrite !take_key by assumption.
  destruct (memcmp a b) eqn:E; rewrite <- memcmp_eq, E; split; congruence.
Qed.
