(* ===== verification/FloatKey.v ===== *)
(** * Keys of type float, and the codec helpers

    Models the rest of [Common/Codec.h]: [KeyEncoder<float>], which converts to
    double first, and the templates through which callers reach the encoders and
    value codecs of their types, as type classes. *)

From Corelib Require Import SpecFloat.
From S2P Require Import Prelude KeyCodec.
Open Scope Z_scope.

(** ** The conversion of binary32 to binary64

    On bit patterns; a NaN stays a NaN. *)

Definition exp32 (f : Z) : Z := (f / 2 ^ 23) mod 2 ^ 8.
Definition frac32 (f : Z) : Z := f mod 2 ^ 23.
Definition sign32 (f : Z) : bool := 2 ^ 31 <=? f.

Definition float_to_double (f : Z) : Z :=
  let m := frac32 f in
  (if sign32 f then 2 ^ 63 else 0) +
  (if exp32 f =? 255 then 2047 * 2 ^ 52 + m * 2 ^ 29
   else if exp32 f =? 0 then
     if m =? 0 then 0 else let k := Z.log2 m in (k + 874) * 2 ^ 52 + (m - 2 ^ k) * 2 ^ (52 - k)
   else (exp32 f + 896) * 2 ^ 52 + m * 2 ^ 29).

Definition KeyEncoder_float (f : Z) : bytes := EncodeDouble (float_to_double f).

(** ** It is exact *)

Definition decode32 (f : Z) : spec_float :=
  let s := sign32 f in
  if exp32 f =? 255 then if frac32 f =? 0 then S754_infinity s else S754_nan
  else if exp32 f =? 0 then if frac32 f =? 0 then S754_zero s else S754_finite s (Z.to_pos (frac32 f)) (-149)
  else S754_finite s (Z.to_pos (frac32 f + 2 ^ 23)) (exp32 f - 150).

(** The fields of a binary64 pattern that is put together. *)
Lemma fields64 (s : bool) E M : 0 <= E < 2048 -> 0 <= M < 2 ^ 52 ->
  let d := (if s then 2 ^ 63 else 0) + (E * 2 ^ 52 + M) in
  0 <= d < 2 ^ 64 /\ sign64 d = s /\ exp64 d = E /\ frac64 d = M.
Proof.
  intros HE HM d. assert (Hd : 0 <= d < 2 ^ 64) by (subst d; destruct s; lia).
  assert (Hdiv : d / 2 ^ 52 = (if s then 2048 else 0) + E).
  { symmetry. apply Z.div_unique with M; [lia|]. subst d. destruct s; lia. }
  split_and!; [lia | lia | | |].
  - unfold sign64. rewrite testbit63 by done. subst d. destruct s, (Z.leb_spec (2 ^ 63) ((if true then 2 ^ 63 else 0) + (E * 2 ^ 52 + M))), (Z.leb_spec (2 ^ 63) (0 + (E * 2 ^ 52 + M))); try done; lia.
  - unfold exp64. rewrite Hdiv. destruct s; [|rewrite Z.mod_small; lia]. change 2048 with (1 * 2 ^ 11). rewrite Z.add_comm, Z.mod_add, Z.mod_small; lia.
  - unfold frac64. symmetry. apply Z.mod_unique_pos with ((if s then 2048 else 0) + E); [lia|]. subst d. destruct s; lia.
Qed.

(** The same number, the second time with at least as many digits. *)
Definition same_number (x y : spec_float) : Prop :=
  match x, y with
  | S754_finite s m e, S754_finite s' m' e' => s' = s /\ e' <= e /\ Z.pos m' = Z.pos m * 2 ^ (e - e')
  | _, _ => y = x
  end.

Lemma frac32_range f : 0 <= frac32 f < 2 ^ 23.
Proof. apply Z.mod_pos_bound. lia. Qed.

Lemma exp32_range f : 0 <= exp32 f < 256.
Proof. apply Z.mod_pos_bound. lia. Qed.

(** A subnormal float is a normal double. *)
Lemma subnormal_fields m : 0 < m < 2 ^ 23 -> let k := Z.log2 m in
  0 <= k < 23 /\ 2 ^ k <= m /\ 0 <= (m - 2 ^ k) * 2 ^ (52 - k) < 2 ^ 52 /\ (m - 2 ^ k) * 2 ^ (52 - k) + 2 ^ 52 = m * 2 ^ (52 - k).
Proof.
  intros Hm k. destruct (Z.log2_spec m) as [L1 L2]; [lia|]. fold k in L1, L2. assert (Hk : 0 <= k < 23).
  { split; [apply Z.log2_nonneg|]. apply Z.log2_lt_pow2; lia. }
  assert (Hp : 2 ^ 52 = 2 ^ k * 2 ^ (52 - k)) by (rewrite <- Z.pow_add_r by lia; f_equal; lia).
  rewrite Z.pow_succ_r in L2 by lia. assert (0 < 2 ^ (52 - k)) by (apply Z.pow_pos_nonneg; lia). rewrite Hp. split_and!; try lia; nia.
Qed.

Lemma float_cast f : 0 <= f < 2 ^ 32 -> 0 <= float_to_double f < 2 ^ 64 /\ sign64 (float_to_double f) = sign32 f /\
  same_number (decode32 f) (decode64 (float_to_double f)).
Proof.
  intros Hf. pose proof (frac32_range f) as Hm. pose proof (exp32_range f) as He. unfold float_to_double, decode32.
  destruct (Z.eqb_spec (exp32 f) 255) as [E1|E1].
  { destruct (fields64 (sign32 f) 2047 (frac32 f * 2 ^ 29)) as (F1 & F2 & F3 & F4); [lia | lia|]. split_and!; [lia.. | done |].
    unfold decode64. rewrite F2, F3, F4. simpl (2047 =? 2047). cbv iota. destruct (Z.eqb_spec (frac32 f) 0) as [->|Hz]; [done|].
    rewrite (proj2 (Z.eqb_neq (frac32 f * 2 ^ 29) 0)) by lia. done. }
  destruct (Z.eqb_spec (exp32 f) 0) as [E0|E0].
  - destruct (Z.eqb_spec (frac32 f) 0) as [Ez|Ez].
    { destruct (fields64 (sign32 f) 0 0) as (F1 & F2 & F3 & F4); [lia | lia|]. change (0 * 2 ^ 52 + 0) with 0 in *. split_and!; [lia.. | done |]. unfold decode64. rewrite F2, F3, F4. done. }
    destruct (subnormal_fields (frac32 f)) as (K1 & K2 & K3 & K4); [lia|]. cbn zeta. set (k := Z.log2 (frac32 f)) in *.
    destruct (fields64 (sign32 f) (k + 874) ((frac32 f - 2 ^ k) * 2 ^ (52 - k))) as (F1 & F2 & F3 & F4); [lia | lia|]. split_and!; [lia.. | done |].
    unfold decode64. rewrite F2, F3, F4. rewrite !(proj2 (Z.eqb_neq _ _)) by lia. simpl. split_and!; [done | lia|].
    rewrite !Z2Pos.id by lia. rewrite K4. f_equal. f_equal. lia.
  - destruct (fields64 (sign32 f) (exp32 f + 896) (frac32 f * 2 ^ 29)) as (F1 & F2 & F3 & F4); [lia | lia|]. split_and!; [lia.. | done |].
    unfold decode64. rewrite F2, F3, F4. rewrite !(proj2 (Z.eqb_neq _ _)) by lia. simpl. split_and!; [done | lia|].
    rewrite !Z2Pos.id by lia. replace (exp32 f - 150 - (exp32 f + 896 - 1075)) with 29 by lia. lia.
Qed.

(** ** The order of floats *)

(** A significand of [p] bits, all of them used unless the exponent is least. *)
Definition canonical (p emin : Z) (m : positive) (e : Z) : Prop :=
  emin <= e /\ Z.pos m < 2 ^ p /\ (emin < e -> 2 ^ (p - 1) <= Z.pos m).

(** The order of canonical pairs is that of the numbers. *)
Lemma lex_compare_value p emin m1 e1 m2 e2 : 0 < p -> canonical p emin m1 e1 -> canonical p emin m2 e2 ->
  lex_compare e1 e2 m1 m2 = (Z.pos m1 * 2 ^ (e1 - emin) ?= Z.pos m2 * 2 ^ (e2 - emin)).
Proof.
  intros Hp (A1 & A2 & A3) (B1 & B2 & B3). unfold lex_compare. change (Pos.compare_cont Eq m1 m2) with (Z.pos m1 ?= Z.pos m2).
  assert (Hstep : forall m m' e e' : Z, emin <= e -> e < e' -> 0 < m -> m < 2 ^ p -> 2 ^ (p - 1) <= m' -> m * 2 ^ (e - emin) < m' * 2 ^ (e' - emin)).
  { intros m m' e e' H1 H2 H3 H4 H5. assert (E : 2 ^ (e' - emin) = 2 ^ (e - emin) * 2 ^ (e' - e)) by (rewrite <- Z.pow_add_r by lia; f_equal; lia).
    assert (Hq : 2 ^ p <= m' * 2 ^ (e' - e)).
    { transitivity (2 ^ (p - 1) * 2 ^ (e' - e)); [rewrite <- Z.pow_add_r by lia; apply Z.pow_le_mono_r; lia|]. apply Z.mul_le_mono_nonneg_r; [apply Z.pow_nonneg; lia | done]. }
    assert (0 < 2 ^ (e - emin)) by (apply Z.pow_pos_nonneg; lia). rewrite E. nia. }
  destruct (Z.compare_spec e1 e2) as [->|Hlt|Hgt].
  - assert (0 < 2 ^ (e2 - emin)) by (apply Z.pow_pos_nonneg; lia).
    destruct (Z.compare_spec (Z.pos m1) (Z.pos m2)) as [->|Hc|Hc]; symmetry; [apply Z.compare_refl | apply Z.compare_lt_iff | apply Z.compare_gt_iff]; nia.
  - symmetry. apply Z.compare_lt_iff. apply Hstep; first [done | lia | apply B3; lia].
  - symmetry. apply Z.compare_gt_iff. apply Hstep; first [done | lia | apply A3; lia].
Qed.

Lemma decode32_canonical f s m e : decode32 f = S754_finite s m e -> canonical 24 (-149) m e.
Proof.
  unfold decode32. pose proof (frac32_range f). pose proof (exp32_range f). destruct (Z.eqb_spec (exp32 f) 255); [by destruct (_ =? 0)|].
  destruct (Z.eqb_spec (exp32 f) 0); [destruct (Z.eqb_spec (frac32 f) 0); [done|]|]; intros [= <- <- <-]; unfold canonical; rewrite Z2Pos.id by lia; lia.
Qed.

Lemma decode64_canonical d s m e : decode64 d = S754_finite s m e -> canonical 53 (-1074) m e.
Proof.
  intros (_ & X & -> & M)%decode64_finite. pose proof (exp64_range d). pose proof (frac64_range d). unfold canonical. rewrite M.
  destruct (Z.eqb_spec (exp64 d) 0); lia.
Qed.

(** Comparing two finite numbers, given the order of their magnitudes. *)
Lemma SFcompare_finite s1 m1 e1 s2 m2 e2 : SFcompare (S754_finite s1 m1 e1) (S754_finite s2 m2 e2) =
  Some match s1, s2 with
       | true, false => Lt
       | false, true => Gt
       | true, true => CompOpp (lex_compare e1 e2 m1 m2)
       | false, false => lex_compare e1 e2 m1 m2
       end.
Proof. destruct s1, s2; simpl; unfold lex_compare; by destruct (e1 ?= e2). Qed.

Definition canonical_float (p emin : Z) (x : spec_float) : Prop := match x with S754_finite _ m e => canonical p emin m e | _ => True end.

(** The comparison looks at the numbers only. *)
Lemma same_compare x1 x2 y1 y2 : canonical_float 24 (-149) x1 -> canonical_float 24 (-149) x2 -> canonical_float 53 (-1074) y1 -> canonical_float 53 (-1074) y2 ->
  same_number x1 y1 -> same_number x2 y2 -> SFcompare x1 x2 = SFcompare y1 y2.
Proof.
  intros X1 X2 Y1 Y2 E1 E2. destruct x1 as [s1|s1| |s1 m1 e1], x2 as [s2|s2| |s2 m2 e2]; simpl in E1, E2; try (by subst y1 y2);
    destruct y1 as [t1|t1| |t1 n1 d1]; try (by simplify_eq); destruct y2 as [t2|t2| |t2 n2 d2]; try (by simplify_eq);
    repeat match goal with H : _ /\ _ |- _ => destruct H end; simplify_eq; try done.
  rewrite !SFcompare_finite. enough (E : lex_compare e1 e2 m1 m2 = lex_compare d1 d2 n1 n2) by (by rewrite E). simpl in *.
  rewrite (lex_compare_value 24 (-149) m1 e1 m2 e2), (lex_compare_value 53 (-1074) n1 d1 n2 d2) by (done || lia).
  destruct X1 as (A1 & _), X2 as (A2 & _), Y1 as (B1 & _), Y2 as (B2 & _).
  assert (Hs : forall m n e d, d <= e -> -1074 <= d -> -149 <= e -> n = m * 2 ^ (e - d) -> n * 2 ^ (d - -1074) = 2 ^ 925 * (m * 2 ^ (e - -149))).
  { intros m n e d G1 G2 G3 ->. transitivity (m * 2 ^ (e + 1074)); [rewrite <- Z.mul_assoc, <- Z.pow_add_r by lia; f_equal; f_equal; lia|].
    rewrite Z.mul_assoc, (Z.mul_comm (2 ^ 925)), <- Z.mul_assoc, <- Z.pow_add_r by lia. f_equal. f_equal. lia. }
  rewrite (Hs (Z.pos m1) (Z.pos n1) e1 d1), (Hs (Z.pos m2) (Z.pos n2) e2 d2) by done.
  apply Zmult_compare_compat_l. lia.
Qed.

Lemma canonical32 f : canonical_float 24 (-149) (decode32 f).
Proof. destruct (decode32 f) eqn:E; try done. by apply decode32_canonical in E. Qed.

Lemma canonical64 d : canonical_float 53 (-1074) (decode64 d).
Proof. destruct (decode64 d) eqn:E; try done. by apply decode64_canonical in E. Qed.

(** The order of double keys is that of their values, up to the two zeros. *)
Lemma double_key_order a b : 0 <= a < 2 ^ 64 -> 0 <= b < 2 ^ 64 -> decode64 a <> S754_nan -> decode64 b <> S754_nan ->
  forall c, SFcompare (decode64 a) (decode64 b) = Some c -> c <> Eq -> memcmp (EncodeDouble a) (EncodeDouble b) = c.
Proof.
  intros Ha Hb Na Nb c. rewrite SFcompare_mag by assumption. intros [= <-] Hc.
  rewrite !EncodeDouble_value, memcmp_Put by (first [assumption | apply double_key_range; assumption]). rewrite !double_key_mag by assumption.
  pose proof (Z.mod_pos_bound a (2 ^ 63)). pose proof (Z.mod_pos_bound b (2 ^ 63)). unfold mag64 in *.
  destruct (sign64 a), (sign64 b); repeat match goal with |- context [?x ?= ?y] => destruct (Z.compare_spec x y) end; try done; try lia.
  all: match goal with H : context [?x ?= ?y] |- _ => destruct (Z.compare_spec x y); try done; lia end.
Qed.

(** ** The order of float keys *)

Lemma nan_cast f : 0 <= f < 2 ^ 32 -> decode32 f <> S754_nan -> decode64 (float_to_double f) <> S754_nan.
Proof. intros Hf Hn E. destruct (float_cast f Hf) as (_ & _ & H). rewrite E in H. by destruct (decode32 f). Qed.

Lemma float_key_order a b c : 0 <= a < 2 ^ 32 -> 0 <= b < 2 ^ 32 -> decode32 a <> S754_nan -> decode32 b <> S754_nan ->
  SFcompare (decode32 a) (decode32 b) = Some c -> c <> Eq -> memcmp (KeyEncoder_float a) (KeyEncoder_float b) = c.
Proof.
  intros Ha Hb Na Nb Hc Hne. destruct (float_cast _ Ha) as (Ra & _ & Ea), (float_cast _ Hb) as (Rb & _ & Eb).
  apply double_key_order; try done; [by apply nan_cast | by apply nan_cast|]. rewrite <- Hc. symmetry. apply same_compare; auto using canonical32, canonical64.
Qed.

(** [KeyEncoder<float>] is order preserving: for two binary32 patterns that
    are not NaN, [memcmp] of the encodings is the order of the numbers whenever
    these differ, subnormal numbers and infinities included; and its key is that
    of the double with the same number. *)
Theorem KeyEncoder_float_order (a b : Z) : 0 <= a < 2 ^ 32 -> 0 <= b < 2 ^ 32 -> decode32 a <> S754_nan -> decode32 b <> S754_nan ->
  same_number (decode32 a) (decode64 (float_to_double a)) /\ KeyEncoder_float a = KeyEncoder_double (float_to_double a) /\
  forall c, SFcompare (decode32 a) (decode32 b) = Some c -> c <> Eq -> memcmp (KeyEncoder_float a) (KeyEncoder_float b) = c.
Proof.
  intros Ha Hb Na Nb. split; [by apply float_cast|]. split; [done|]. intros c Hc Hne. by apply float_key_order.
Qed.

(** The smallest subnormal number against minus one, and against one. *)
Lemma KeyEncoder_float_order_witness :
  memcmp (KeyEncoder_float 1) (KeyEncoder_float 0xbf800000) = Gt /\ memcmp (KeyEncoder_float 1) (KeyEncoder_float 0x3f800000) = Lt.
Proof.
  split; [apply (KeyEncoder_float_order 1 0xbf800000) | apply (KeyEncoder_float_order 1 0x3f800000)]; try lia; vm_compute; congruence.
Defined.

(** ** The templates

    A C++ type is a type of its own here, around the bits it holds. *)

Record int64_key := KInt64 { int64_value : Z }.
Record int32_key := KInt32 { int32_value : Z }.
Record double_key_t := KDouble { double_bits : Z }.
Record float_key := KFloat { float_bits : Z }.

(** [KeyEncoder<T>]; the primary template has no [Encode]. *)
Class KeyEncoder (T : Type) := { Encode : T -> bytes }.
#[export] Instance KeyEncoder_of_int64 : KeyEncoder int64_key := {| Encode k := KeyEncoder_int64 (int64_value k) |}.
#[export] Instance KeyEncoder_of_int32 : KeyEncoder int32_key := {| Encode k := KeyEncoder_int32 (int32_value k) |}.
#[export] Instance KeyEncoder_of_bool : KeyEncoder bool := {| Encode := KeyEncoder_bool |}.
#[export] Instance KeyEncoder_of_double : KeyEncoder double_key_t := {| Encode k := KeyEncoder_double (double_bits k) |}.
#[export] Instance KeyEncoder_of_float : KeyEncoder float_key := {| Encode k := KeyEncoder_float (float_bits k) |}.

Definition encode_key {T} `{!KeyEncoder T} (k : T) : bytes := Encode k.

(** [Codec<T>], for trivially copyable types of [n] bytes and for strings. *)
Class Codec (T : Type) := { value_Encode : T -> bytes; value_Decode : bytes -> result T }.

Record raw (n : nat) := mkRaw { raw_bits : Z }.
Arguments mkRaw {n}.
Arguments raw_bits {n}.

#[export] Instance Codec_raw (n : nat) : Codec (raw n) := {|
  value_Encode v := Codec_Encode n (raw_bits v);
  value_Decode s := let? z := Codec_Decode n s in Ok (mkRaw z);
|}.

Definition Codec_string_Encode (v : bytes) : bytes := v.
Definition Codec_string_Decode (s : bytes) : bytes := s.
#[export] Instance Codec_string : Codec bytes := {| value_Encode := Codec_string_Encode; value_Decode s := Ok (Codec_string_Decode s) |}.

Definition encode_value {T} `{!Codec T} (v : T) : bytes := value_Encode v.
Definition decode_value {T} `{!Codec T} (s : bytes) : result T := value_Decode s.

(** What a key type promises: keys compare as their encodings. *)
Class KeyOrder (T : Type) `{!KeyEncoder T} := {
  key_valid : T -> Prop;
  key_compare : T -> T -> option comparison;
  key_length : forall k, length (Encode k) = kKeyLen;
  key_law : forall a b c, key_valid a -> key_valid b -> key_compare a b = Some c -> c <> Eq -> memcmp (Encode a) (Encode b) = c;
}.

#[export] Program Instance int64_order : KeyOrder int64_key := {|
  key_valid k := - 2 ^ 63 <= int64_value k < 2 ^ 63;
  key_compare a b := Some (int64_value a ?= int64_value b);
|}.
Next Obligation. intros k. apply length_Put. Qed.
Next Obligation. intros a b c Ha Hb [= <-] _. by apply EncodeInt_order. Qed.

#[export] Program Instance int32_order : KeyOrder int32_key := {|
  key_valid k := - 2 ^ 31 <= int32_value k < 2 ^ 31;
  key_compare a b := Some (int32_value a ?= int32_value b);
|}.
Next Obligation. intros k. apply length_Put. Qed.
Next Obligation. intros a b c Ha Hb Hc _. injection Hc as <-. cbv beta in Ha, Hb. apply EncodeInt_order; lia. Qed.

#[export] Program Instance bool_order : KeyOrder bool := {|
  key_valid _ := True;
  key_compare a b := Some ((if a then 1 else 0) ?= (if b then 1 else 0));
|}.
Next Obligation. intros k. apply length_Put. Qed.
Next Obligation. intros a b c _ _ [= <-] _. apply EncodeInt_order; destruct a, b; lia. Qed.

#[export] Program Instance double_order : KeyOrder double_key_t := {|
  key_valid k := 0 <= double_bits k < 2 ^ 64 /\ decode64 (double_bits k) <> S754_nan;
  key_compare a b := SFcompare (decode64 (double_bits a)) (decode64 (double_bits b));
|}.
Next Obligation. intros k. apply length_Put. Qed.
Next Obligation. intros a b c [Ha Na] [Hb Nb]. by apply double_key_order. Qed.

#[export] Program Instance float_order : KeyOrder float_key := {|
  key_valid k := 0 <= float_bits k < 2 ^ 32 /\ decode32 (float_bits k) <> S754_nan;
  key_compare a b := SFcompare (decode32 (float_bits a)) (decode32 (float_bits b));
|}.
Next Obligation. intros k. apply length_Put. Qed.
Next Obligation. intros a b c [Ha Na] [Hb Nb]. by apply float_key_order. Qed.

(** Values come back as they were. *)
Lemma raw_roundtrip n (v : raw n) : 0 <= raw_bits v < 256 ^ Z.of_nat n -> decode_value (encode_value v) = Ok v.
Proof.
  intros Hv. unfold decode_value, encode_value. simpl. unfold Codec_Decode, Codec_Encode. rewrite length_le_bytes, Nat.ltb_irrefl, take_ge by (rewrite length_le_bytes; lia).
  simpl. rewrite le_value_bytes, Z.mod_small by lia. by destruct v.
Qed.
