(* ===== verification/Replacer.v ===== *)
(** * Page replacement

    [IReplacer] (Storage/BufferPool/IReplacer.h) as a class of operations,
    [ReplacerSpec] as what a buffer pool may assume of an implementation, and
    [LRUReplacer] (Storage/BufferPool/LRUReplacer.cpp) as the instance the
    program uses. *)

From S2P Require Import Prelude.

(** ** The interface *)

Class IReplacer (R : Type) := {
  Victim : M R (option Z);
  Pin : Z -> M R unit;
  Unpin : Z -> M R unit;
  Size : M R Z;
}.

(** What an implementation promises: it keeps a queue of distinct evictable
    frames. [Victim] takes its front, [Pin] withdraws a frame, [Unpin] appends
    one that is not there yet and fits the capacity, [Size] is its length; no
    call fails. *)
Class ReplacerSpec (R : Type) `{IReplacer R} := {
  rep_inv : R -> Prop;
  rep_queue : R -> list Z;
  rep_cap : R -> nat;
  rep_nodup : forall r, rep_inv r -> NoDup (rep_queue r);
  victim_spec : forall r, rep_inv r ->
    exists r', Victim r = (Ok (head (rep_queue r)), r') /\ rep_inv r' /\
      rep_queue r' = tail (rep_queue r) /\ rep_cap r' = rep_cap r;
  pin_spec : forall f r, rep_inv r ->
    exists r', Pin f r = (Ok tt, r') /\ rep_inv r' /\
      rep_queue r' = filter (fun g => g <> f) (rep_queue r) /\ rep_cap r' = rep_cap r;
  unpin_spec : forall f r, rep_inv r ->
    exists r', Unpin f r = (Ok tt, r') /\ rep_inv r' /\
      rep_queue r' = (if decide (f ∈ rep_queue r) then rep_queue r
                      else if (rep_cap r <=? length (rep_queue r))%nat then rep_queue r
                      else rep_queue r ++ [f]) /\
      rep_cap r' = rep_cap r;
  size_spec : forall r, rep_inv r ->
    Size r = (Ok (Z.of_nat (length (rep_queue r))), r);
}.

(** ** LRUReplacer

    A [std::list] is a list of nodes; an iterator is the address of a node.
    [next_node] is the allocator's next fresh address. *)
Module LRUReplacer.

Abbreviation std_list := (list (nat * Z)).

Record LRUReplacer := mkLRU {
  num_pages : nat;
  pinned_pages : std_list;
  unpinned_pages : std_list;
  pinned_iter_map : gmap Z nat;
  unpinned_iter_map : gmap Z nat;
  next_node : nat;
}.

(** [LRUReplacer::LRUReplacer]. *)
Definition new (n : nat) : LRUReplacer := mkLRU n [] [] ∅ ∅ 0.

(** [std::list::erase(iterator)]: undefined when the iterator is not in the
    list. *)
Fixpoint erase_node (it : nat) (l : std_list) : option std_list :=
  match l with
  | [] => None
  | p :: l => if decide (p.1 = it) then Some l else cons p <$> erase_node it l
  end.

Definition victim : M LRUReplacer (option Z) := fun r =>
  match unpinned_pages r with
  | [] => (Ok None, r)
  | (_, f) :: rest =>
      (Ok (Some f),
       mkLRU (num_pages r) (pinned_pages r) rest (pinned_iter_map r)
         (delete f (unpinned_iter_map r)) (next_node r))
  end.

Definition pin (f : Z) : M LRUReplacer unit := fun r =>
  match unpinned_iter_map r !! f with
  | None => (Ok tt, r)
  | Some it =>
      match erase_node it (unpinned_pages r) with
      | None => (Fail (Undefined "erase of a dangling list iterator"), r)
      | Some rest =>
          (Ok tt,
           mkLRU (num_pages r) (pinned_pages r ++ [(next_node r, f)]) rest
             (<[f := next_node r]> (pinned_iter_map r))
             (delete f (unpinned_iter_map r)) (S (next_node r)))
      end
  end.

(** The first half of [Unpin]: leave the pinned list. *)
Definition unpin_leave_pinned (f : Z) : M LRUReplacer unit := fun r =>
  match pinned_iter_map r !! f with
  | None => (Ok tt, r)
  | Some it =>
      match erase_node it (pinned_pages r) with
      | None => (Fail (Undefined "erase of a dangling list iterator"), r)
      | Some rest =>
          (Ok tt, mkLRU (num_pages r) rest (unpinned_pages r)
                    (delete f (pinned_iter_map r)) (unpinned_iter_map r) (next_node r))
      end
  end.

(** The second half: join the unpinned list unless there already, or full. *)
Definition unpin_enter_unpinned (f : Z) : M LRUReplacer unit := fun r =>
  if bool_decide (is_Some (unpinned_iter_map r !! f)) ||
     (num_pages r <=? length (unpinned_pages r))%nat
  then (Ok tt, r)
  else (Ok tt,
        mkLRU (num_pages r) (pinned_pages r) (unpinned_pages r ++ [(next_node r, f)])
          (pinned_iter_map r) (<[f := next_node r]> (unpinned_iter_map r))
          (S (next_node r))).

Definition unpin (f : Z) : M LRUReplacer unit :=
  unpin_leave_pinned f;;; unpin_enter_unpinned f.

Definition size : M LRUReplacer Z := gets (fun r => Z.of_nat (length (unpinned_pages r))).

#[global] Instance ireplacer : IReplacer LRUReplacer :=
  {| Victim := victim; Pin := pin; Unpin := unpin; Size := size |}.

(** *** Invariant: each map is the inverse of its list *)

Definition indexed (m : gmap Z nat) (l : std_list) : Prop :=
  NoDup l.*1 /\ NoDup l.*2 /\ forall f n, m !! f = Some n <-> (n, f) ∈ l.

Definition fresh_above (n : nat) (l : std_list) : Prop := Forall (fun p => p.1 < n)%nat l.

Definition inv (r : LRUReplacer) : Prop :=
  indexed (unpinned_iter_map r) (unpinned_pages r) /\
  indexed (pinned_iter_map r) (pinned_pages r) /\
  unpinned_iter_map r ##ₘ pinned_iter_map r /\
  fresh_above (next_node r) (unpinned_pages r) /\
  fresh_above (next_node r) (pinned_pages r).

Definition queue (r : LRUReplacer) : list Z := (unpinned_pages r).*2.

Lemma erase_node_spec l it f :
  NoDup l.*1 -> NoDup l.*2 -> (it, f) ∈ l ->
  erase_node it l = Some (filter (fun p => p.2 <> f) l).
Proof.
  induction l as [|[n g] l IH]; intros N1 N2 Hin; [set_solver|].
  apply NoDup_cons in N1 as [H1 N1]. apply NoDup_cons in N2 as [H2 N2]. simpl in *.
  apply elem_of_cons in Hin as [Hin|Hin].
  - simplify_eq. rewrite decide_True, filter_cons_False by (simpl; auto).
    f_equal. symmetry. apply list_filter_id. intros [m h] Hi. simpl. intros ->.
    apply H2, list_elem_of_fmap. eexists (m, _). eauto.
  - assert (n <> it) by (intros ->; apply H1, list_elem_of_fmap; exists (it, f); auto).
    assert (g <> f) by (intros ->; apply H2, list_elem_of_fmap; exists (it, f); auto).
    rewrite decide_False, filter_cons_True, IH by auto. reflexivity.
Qed.

Lemma filter_snd (l : std_list) f :
  (filter (fun p => p.2 <> f) l).*2 = filter (fun g => g <> f) l.*2.
Proof.
  induction l as [|[n g] l IH]; [reflexivity|].
  destruct (decide (g = f)); simpl fmap.
  - rewrite !filter_cons_False by (simpl; auto). exact IH.
  - rewrite !filter_cons_True by auto. simpl. f_equal. exact IH.
Qed.

Lemma NoDup_fst_filter {A} (P : nat * A -> Prop) `{!forall x, Decision (P x)} (l : list (nat * A)) :
  NoDup l.*1 -> NoDup (filter P l).*1.
Proof.
  induction l as [|p l IH]; intros Hl; [constructor|].
  apply NoDup_cons in Hl as [H1 H2]. rewrite filter_cons. case_decide; [|auto].
  apply NoDup_cons. split; [|auto]. contradict H1.
  apply list_elem_of_fmap in H1 as (q & -> & Hq). apply list_elem_of_filter in Hq as [_ Hq].
  apply list_elem_of_fmap. eauto.
Qed.

Lemma indexed_filter m l f :
  indexed m l -> indexed (delete f m) (filter (fun p => p.2 <> f) l).
Proof.
  intros (N1 & N2 & Hm). split; [by apply NoDup_fst_filter|].
  split; [rewrite filter_snd; by apply NoDup_filter|].
  intros g n. rewrite list_elem_of_filter, lookup_delete_Some, Hm. simpl. naive_solver.
Qed.

Lemma indexed_snoc m l f n :
  indexed m l -> m !! f = None -> fresh_above n l -> indexed (<[f := n]> m) (l ++ [(n, f)]).
Proof.
  intros (N1 & N2 & H) Hf Hn. unfold indexed. rewrite !fmap_app. simpl. rewrite !NoDup_app.
  split_and!; auto using NoDup_singleton.
  - intros k Hk Hk'. apply list_elem_of_singleton in Hk' as ->.
    apply list_elem_of_fmap in Hk as ([? ?] & -> & Hk).
    unfold fresh_above in Hn. rewrite Forall_forall in Hn. specialize (Hn _ Hk). simpl in Hn. lia.
  - intros g Hg Hg'. apply list_elem_of_singleton in Hg' as ->.
    apply list_elem_of_fmap in Hg as ([k ?] & -> & Hg). apply H in Hg. simpl in *. congruence.
  - intros g k. rewrite elem_of_app, list_elem_of_singleton, lookup_insert_Some, H.
    split; [naive_solver|]. intros [Hin|[= -> ->]]; [|auto].
    right. split; [|exact Hin]. intros ->. apply H in Hin. congruence.
Qed.

Lemma fresh_above_S n l : fresh_above n l -> fresh_above (S n) l.
Proof. intros Hl. eapply Forall_impl; [exact Hl|]. simpl. lia. Qed.

Lemma fresh_above_filter (P : nat * Z -> Prop) `{!forall x, Decision (P x)} n l :
  fresh_above n l -> fresh_above n (filter P l).
Proof. unfold fresh_above. rewrite !Forall_forall. intros Hl x [_ Hx]%list_elem_of_filter. auto. Qed.

Lemma fresh_above_snoc n f l : fresh_above n l -> fresh_above (S n) (l ++ [(n, f)]).
Proof.
  intros H. apply Forall_app. split; [by apply fresh_above_S|].
  constructor; [simpl; lia | constructor].
Qed.

Lemma indexed_queue m l f : indexed m l -> is_Some (m !! f) <-> f ∈ l.*2.
Proof.
  intros (_ & _ & H). rewrite list_elem_of_fmap. split.
  - intros [n Hn]. exists (n, f). split; [reflexivity | by apply H].
  - intros ([n g] & -> & Hn). exists n. by apply H.
Qed.

Lemma indexed_tail m n f l : indexed m ((n, f) :: l) -> indexed (delete f m) l.
Proof.
  intros H. pose proof (indexed_filter _ _ f H) as H'. destruct H as (_ & N2 & _).
  rewrite filter_cons_False in H' by (simpl; auto).
  rewrite list_filter_id in H'; [exact H'|]. intros [k g] Hi. simpl. intros ->.
  apply NoDup_cons in N2 as [N2 _]. apply N2, list_elem_of_fmap.
  exists (k, f). auto.
Qed.

(** *** The operations on the invariant *)

Lemma lru_new_inv n : inv (new n).
Proof.
  assert (indexed ∅ []).
  { split_and!; [constructor..|]. intros f k. rewrite lookup_empty. set_solver. }
  split_and!; auto; [apply map_disjoint_empty_l | constructor | constructor].
Qed.

Lemma lru_victim_ok r : inv r ->
  exists r', victim r = (Ok (head (queue r)), r') /\ inv r' /\
    queue r' = tail (queue r) /\ num_pages r' = num_pages r.
Proof.
  unfold victim, queue. intros Hinv. pose proof Hinv as (IU & IP & D & FU & FP).
  destruct (unpinned_pages r) as [|[n f] l] eqn:E.
  - exists r. rewrite E. auto.
  - eexists. split; [reflexivity|]. split; [|auto].
    split_and!; simpl; auto.
    + by eapply indexed_tail.
    + by apply map_disjoint_delete_l.
    + by inversion FU.
Qed.

Lemma lru_pin_ok f r : inv r ->
  exists r', pin f r = (Ok tt, r') /\ inv r' /\
    queue r' = filter (fun g => g <> f) (queue r) /\ num_pages r' = num_pages r.
Proof.
  unfold pin, queue. intros Hinv. pose proof Hinv as (IU & IP & D & FU & FP).
  destruct (unpinned_iter_map r !! f) as [it|] eqn:E.
  - assert (pinned_iter_map r !! f = None) by (eapply map_disjoint_Some_l; eauto).
    pose proof IU as (N1 & N2 & Hm). apply Hm in E.
    rewrite (erase_node_spec _ _ f) by auto. eexists. split; [reflexivity|].
    simpl. rewrite filter_snd. split; [|auto]. split_and!; simpl.
    + by apply indexed_filter.
    + by apply indexed_snoc.
    + apply map_disjoint_insert_r. rewrite lookup_delete_eq.
      split; [reflexivity | by apply map_disjoint_delete_l].
    + by apply fresh_above_S, fresh_above_filter.
    + by apply fresh_above_snoc.
  - exists r. split_and!; try apply Hinv; auto.
    symmetry. apply list_filter_id. intros g Hg ->.
    apply (indexed_queue _ _ _ IU) in Hg as [? ?]. congruence.
Qed.

Lemma unpin_leave_pinned_ok f r : inv r ->
  exists r', unpin_leave_pinned f r = (Ok tt, r') /\ inv r' /\
    unpinned_pages r' = unpinned_pages r /\
    unpinned_iter_map r' = unpinned_iter_map r /\
    num_pages r' = num_pages r /\ pinned_iter_map r' !! f = None.
Proof.
  unfold unpin_leave_pinned. intros Hinv. pose proof Hinv as (IU & IP & D & FU & FP).
  destruct (pinned_iter_map r !! f) as [it|] eqn:E; [|exists r; auto 10].
  pose proof IP as (N1 & N2 & Hm). apply Hm in E.
  rewrite (erase_node_spec _ _ f) by auto. eexists. split; [reflexivity|].
  simpl. rewrite lookup_delete_eq. split; [|auto]. split_and!; simpl; auto.
  - by apply indexed_filter.
  - by apply map_disjoint_delete_r.
  - by apply fresh_above_filter.
Qed.

Lemma lru_unpin_ok f r : inv r ->
  exists r', unpin f r = (Ok tt, r') /\ inv r' /\
    queue r' = (if decide (f ∈ queue r) then queue r
                else if (num_pages r <=? length (queue r))%nat then queue r
                else queue r ++ [f]) /\
    num_pages r' = num_pages r.
Proof.
  intros Hinv. destruct (unpin_leave_pinned_ok f r Hinv) as (r1 & H1 & I1 & HU & HM & HN & HP).
  unfold unpin. rewrite (bind_ok _ _ _ _ _ H1). unfold unpin_enter_unpinned, queue.
  rewrite <- HU, <- HN. pose proof I1 as (IU & IP & D & FU & FP). rewrite length_fmap.
  pose proof (indexed_queue _ _ f IU) as Hq.
  destruct (decide (f ∈ (unpinned_pages r1).*2)) as [Hf|Hf].
  - rewrite bool_decide_eq_true_2 by (apply Hq, Hf). eexists. split; [reflexivity|]. auto.
  - rewrite bool_decide_eq_false_2 by (rewrite Hq; exact Hf).
    destruct (_ <=? _)%nat eqn:L; simpl; (eexists; split; [reflexivity|]); [auto|].
    assert (unpinned_iter_map r1 !! f = None) by (apply eq_None_not_Some; rewrite Hq; exact Hf).
    simpl. rewrite fmap_app. split; [|auto]. split_and!; simpl; auto using fresh_above_S, fresh_above_snoc.
    + by apply indexed_snoc.
    + by apply map_disjoint_insert_l.
Qed.

Lemma queue_nodup r : inv r -> NoDup (queue r).
Proof. intros (IU & _). apply IU. Qed.

Lemma lru_size_ok r : inv r -> size r = (Ok (Z.of_nat (length (queue r))), r).
Proof. intros _. unfold size, gets, queue. rewrite length_fmap. reflexivity. Qed.

#[global] Instance lru_spec : ReplacerSpec LRUReplacer := {|
  rep_inv := inv; rep_queue := queue; rep_cap := num_pages;
  rep_nodup := queue_nodup; victim_spec := lru_victim_ok; pin_spec := lru_pin_ok;
  unpin_spec := lru_unpin_ok; size_spec := lru_size_ok;
|}.

End LRUReplacer.

(** *** Traces *)

Inductive rep_op := OpVictim | OpPin (f : Z) | OpUnpin (f : Z).

(** The queue an ideal LRU policy would hold after an operation. *)
Definition lru_step (cap : nat) (op : rep_op) (q : list Z) : list Z :=
  match op with
  | OpVictim => tail q
  | OpPin f => filter (fun g => g <> f) q
  | OpUnpin f =>
      if decide (f ∈ q) then q
      else if (cap <=? length q)%nat then q else q ++ [f]
  end.

(** What the operation hands back: the victim, if there is one. *)
Definition lru_out (op : rep_op) (q : list Z) : option Z :=
  match op with OpVictim => head q | _ => None end.

Definition rep_exec {R} `{IReplacer R} (op : rep_op) : M R (option Z) :=
  match op with
  | OpVictim => Victim
  | OpPin f => Pin f;;; ret None
  | OpUnpin f => Unpin f;;; ret None
  end.

Fixpoint rep_run {R} `{IReplacer R} (ops : list rep_op) : M R (list (option Z)) :=
  match ops with
  | [] => ret []
  | op :: ops => let* o := rep_exec op in let* os := rep_run ops in ret (o :: os)
  end.

Fixpoint lru_run (cap : nat) (ops : list rep_op) (q : list Z) : list (option Z) * list Z :=
  match ops with
  | [] => ([], q)
  | op :: ops =>
      let (os, q') := lru_run cap ops (lru_step cap op q) in (lru_out op q :: os, q')
  end.

Lemma rep_exec_ok {R} `{ReplacerSpec R} op (r : R) : rep_inv r ->
  exists r', rep_exec op r = (Ok (lru_out op (rep_queue r)), r') /\ rep_inv r' /\
    rep_queue r' = lru_step (rep_cap r) op (rep_queue r) /\ rep_cap r' = rep_cap r.
Proof.
  intros Hr. destruct op as [|f|f]; simpl.
  - by apply victim_spec.
  - destruct (pin_spec f r Hr) as (r' & E & Hs). exists r'. by rewrite (bind_ok _ _ _ _ _ E).
  - destruct (unpin_spec f r Hr) as (r' & E & Hs). exists r'. by rewrite (bind_ok _ _ _ _ _ E).
Qed.

(** Any implementation of the interface that meets [ReplacerSpec] answers a
    sequence of calls as the ideal queue does. *)
Lemma rep_run_refines {R} `{ReplacerSpec R} ops (r : R) : rep_inv r ->
  exists r', rep_run ops r = (Ok (lru_run (rep_cap r) ops (rep_queue r)).1, r') /\
    rep_inv r' /\ rep_queue r' = (lru_run (rep_cap r) ops (rep_queue r)).2.
Proof.
  revert r; induction ops as [|op ops IH]; intros r Hr; simpl; [eexists; eauto|].
  destruct (rep_exec_ok op r Hr) as (r1 & E1 & I1 & Q1 & C1).
  destruct (IH r1 I1) as (r2 & E2 & I2 & Q2). exists r2.
  rewrite (bind_ok _ _ _ _ _ E1), (bind_ok _ _ _ _ _ E2).
  rewrite Q1, C1 in *. destruct (lru_run _ _ _). auto.
Qed.

(** C34. The LRU replacer, with its two linked lists and its two iterator maps,
    refines an ideal LRU queue: whatever sequence of [Victim], [Pin] and
    [Unpin] calls is made on a new replacer, no iterator ever dangles and the
    answers and the remaining evictable frames are those of the queue. *)
Theorem lru_refines_queue (cap : nat) (ops : list rep_op) :
  exists r', rep_run ops (LRUReplacer.new cap) = (Ok (lru_run cap ops []).1, r') /\
    LRUReplacer.inv r' /\ LRUReplacer.queue r' = (lru_run cap ops []).2.
Proof.
  exact (rep_run_refines ops (LRUReplacer.new cap) (LRUReplacer.lru_new_inv cap)).
Qed.
