(* ===== verification/BufferPool.v ===== *)
(** * Disk manager and buffer pool

    Models [Base/ReaderWriterLatch.h] (as one thread sees it),
    [Storage/Page/Page.h], [Storage/Disk/DiskManager] and
    [Storage/BufferPool/BufferPoolManager]. The pool moves whole page images
    and never looks inside them, so the image type [D] is a parameter with its
    all-zero value; the clients instantiate it with the overlays they cast the
    [char[PAGE_SIZE]] to. The replacer is any [IReplacer]. *)

From S2P Require Import Prelude KeyCodec Replacer.

(** ** ReaderWriterLatch

    In a run of a single thread nobody else releases a latch: a wait whose
    condition is false when it is reached never returns. *)
Module Latch.

Record ReaderWriterLatch := mkLatch { reader_count : Z; writer_entered : bool }.

Definition MAX_READERS : Z := UINT32_MAX.
Definition unlocked : ReaderWriterLatch := mkLatch 0 false.

Definition WLock (l : ReaderWriterLatch) : result ReaderWriterLatch :=
  if writer_entered l then Fail Blocked
  else if 0 <? reader_count l then Fail Blocked
  else Ok (mkLatch (reader_count l) true).

Definition WUnlock (l : ReaderWriterLatch) : ReaderWriterLatch :=
  mkLatch (reader_count l) false.

Definition RLock (l : ReaderWriterLatch) : result ReaderWriterLatch :=
  if writer_entered l || (reader_count l =? MAX_READERS) then Fail Blocked
  else Ok (mkLatch (u32 (reader_count l + 1)) (writer_entered l)).

Definition RUnlock (l : ReaderWriterLatch) : ReaderWriterLatch :=
  mkLatch (u32 (reader_count l - 1)) (writer_entered l).

End Latch.

Section BufferPool.

Context {D : Type} (zero : D) {R : Type} `{IReplacer R}.

(** ** Page *)

Record Page := mkPage {
  data : D;
  page_id : Z;
  pin_count : Z;
  is_dirty : bool;
  rwlatch : Latch.ReaderWriterLatch;
}.

Definition Page_new : Page := mkPage zero INVALID_PAGE_ID 0 false Latch.unlocked.

Definition set_data (d : D) (p : Page) : Page :=
  mkPage d (page_id p) (pin_count p) (is_dirty p) (rwlatch p).
Definition set_pin (n : Z) (p : Page) : Page :=
  mkPage (data p) (page_id p) n (is_dirty p) (rwlatch p).
Definition set_dirty (b : bool) (p : Page) : Page :=
  mkPage (data p) (page_id p) (pin_count p) b (rwlatch p).
Definition set_page_id (n : Z) (p : Page) : Page :=
  mkPage (data p) n (pin_count p) (is_dirty p) (rwlatch p).
Definition set_latch (l : Latch.ReaderWriterLatch) (p : Page) : Page :=
  mkPage (data p) (page_id p) (pin_count p) (is_dirty p) l.
(** [ResetMemory]. *)
Definition ResetMemory (p : Page) : Page := set_data zero p.

(** ** DiskManager

    The database file, as the page images it holds: every write is one page at
    a multiple of [PAGE_SIZE], and a hole reads as zeros. *)

Record DiskManager := mkDisk { file : list D; next_page_id : Z }.

(** [GetFileSize]: the size, cast to [int]. *)
Definition GetFileSize (d : DiskManager) : Z := i32 (Z.of_nat (length (file d)) * PAGE_SIZE).

(** The constructor on an existing (or just created, then empty) file. *)
Definition DiskManager_open (f : list D) : DiskManager :=
  let file_size := i32 (Z.of_nat (length f) * PAGE_SIZE) in
  mkDisk f (if 0 <? file_size then file_size / PAGE_SIZE else 0).

Definition AllocatePage : M DiskManager Z := fun d =>
  (Ok (next_page_id d), mkDisk (file d) (i32 (next_page_id d + 1))).

(** [ReadPage]: the offset is an [int]; its overflow is undefined behaviour. A
    read that starts at or past the end of the file leaves zeros. *)
Definition ReadPage (pid : Z) : M DiskManager D := fun d =>
  let offset := pid * PAGE_SIZE in
  if negb ((- 2 ^ 31 <=? offset) && (offset <? 2 ^ 31))
  then (Fail (Undefined "signed overflow in page_id * PAGE_SIZE"), d)
  else if GetFileSize d <? offset
  then (Fail (Throw runtime_error "page id out of range"), d)
  else if offset <? 0 then (Ok zero, d)
  else (Ok (load zero (Z.to_nat pid) (file d)), d).

(** A write past the end of the file leaves a hole. *)
Definition WritePage (pid : Z) (x : D) : M DiskManager unit := fun d =>
  if pid <? 0 then (Fail (Undefined "seek before the start of the file"), d)
  else (Ok tt, mkDisk (store zero (Z.to_nat pid) x (file d)) (next_page_id d)).

Definition DeallocatePage (pid : Z) : M DiskManager unit := ret tt.

(** ** BufferPoolManager *)

Record BufferPoolManager := mkBPM {
  slot_num : nat;
  disk_manager : DiskManager;
  replacer : R;
  pages : list Page;
  free_list : list Z;
  page_table : gmap Z Z;
}.

Definition set_disk d s :=
  mkBPM (slot_num s) d (replacer s) (pages s) (free_list s) (page_table s).
Definition set_replacer r s :=
  mkBPM (slot_num s) (disk_manager s) r (pages s) (free_list s) (page_table s).
Definition set_pages ps s :=
  mkBPM (slot_num s) (disk_manager s) (replacer s) ps (free_list s) (page_table s).
Definition set_free l s :=
  mkBPM (slot_num s) (disk_manager s) (replacer s) (pages s) l (page_table s).
Definition set_table t s :=
  mkBPM (slot_num s) (disk_manager s) (replacer s) (pages s) (free_list s) t.

(** The constructor: every frame is a fresh page on the free list. *)
Definition BPM_new (n : nat) (d : DiskManager) (r : R) : BufferPoolManager :=
  mkBPM n d r (replicate n Page_new) (Z.of_nat <$> seq 0 n) ∅.

Definition on_disk {A} (m : M DiskManager A) : M BufferPoolManager A := fun s =>
  let (a, d) := m (disk_manager s) in (a, set_disk d s).
Definition on_replacer {A} (m : M R A) : M BufferPoolManager A := fun s =>
  let (a, r) := m (replacer s) in (a, set_replacer r s).

(** [pages_.at(frame)]: the frame object a [shared_ptr<Page>] points to. *)
Definition page_at (f : Z) : M BufferPoolManager Page := fun s =>
  match (if f <? 0 then None else pages s !! Z.to_nat f) with
  | Some p => (Ok p, s)
  | None => (Fail (Throw out_of_range "vector::at"), s)
  end.

Definition update_page (f : Z) (g : Page -> Page) : M BufferPoolManager unit :=
  modify (fun s => set_pages (alter g (Z.to_nat f) (pages s)) s).

(** Both [FetchPage] and [NewPage] evict this way when the free list is empty:
    write the victim back if dirty, unmap and clear it, and free its frame. *)
Definition evict_victim : M BufferPoolManager bool :=
  let* v := on_replacer Victim in
  match v with
  | None => ret false
  | Some f =>
      let* p := page_at f in
      when (is_dirty p) (on_disk (WritePage (page_id p) (data p)));;;
      modify (fun s => set_table (delete (page_id p) (page_table s)) s);;;
      update_page f (fun p => set_dirty false (set_page_id INVALID_PAGE_ID (ResetMemory p)));;;
      modify (fun s => set_free (free_list s ++ [f]) s);;;
      ret true
  end.

(** [try { ReadPage(page_id, data) } catch (...) {}]: on an exception the
    frame keeps the bytes it had; undefined behaviour is not an exception. *)
Definition read_into (pid f : Z) : M BufferPoolManager unit := fun s =>
  match ReadPage pid (disk_manager s) with
  | (Ok x, d) => update_page f (set_data x) (set_disk d s)
  | (Fail (Throw _ _), d) => (Ok tt, set_disk d s)
  | (Fail e, d) => (Fail e, set_disk d s)
  end.

Definition pop_back (l : list Z) : option (list Z * Z) :=
  match rev l with [] => None | f :: l => Some (rev l, f) end.

(** The second half of [FetchPage]: take the last free frame for the page and
    read the page into it. *)
Definition load_free_frame (pid : Z) : M BufferPoolManager (option Z) :=
  let* s := get in
  match pop_back (free_list s) with
  | None => fail (Undefined "back of an empty list")
  | Some (rest, f) =>
      put (set_free rest s);;;
      let* _ := page_at f in
      update_page f (fun p => set_dirty false (set_page_id pid (set_pin (pin_count p + 1) p)));;;
      on_replacer (Pin f);;;
      modify (fun s => set_table (<[pid := f]> (page_table s)) s);;;
      read_into pid f;;;
      ret (Some f)
  end.

(** [FetchPage] returns the frame the page sits in, [None] for [nullptr]. *)
Definition FetchPage (pid : Z) : M BufferPoolManager (option Z) :=
  let* s := get in
  match page_table s !! pid with
  | Some f =>
      let* _ := page_at f in
      update_page f (fun p => set_pin (pin_count p + 1) p);;;
      on_replacer (Pin f);;;
      ret (Some f)
  | None =>
      let* room := (if bool_decide (free_list s = []) then evict_victim else ret true) in
      if negb room then ret None else load_free_frame pid
  end.

Definition UnpinPage (pid : Z) (dirty : bool) : M BufferPoolManager bool :=
  let* s := get in
  match page_table s !! pid with
  | None => ret false
  | Some f =>
      let* p := page_at f in
      when (negb (is_dirty p)) (update_page f (set_dirty dirty));;;
      if pin_count p <=? 0 then ret false else
      update_page f (set_pin (pin_count p - 1));;;
      when (pin_count p - 1 =? 0) (on_replacer (Unpin f));;;
      ret true
  end.

Definition FlushPage (pid : Z) : M BufferPoolManager bool :=
  let* s := get in
  match page_table s !! pid with
  | None => ret false
  | Some f =>
      let* p := page_at f in
      on_disk (WritePage pid (data p));;;
      update_page f (set_dirty false);;;
      ret true
  end.

(** The second half of [NewPage]: allocate an id for the first free frame. *)
Definition init_free_frame : M BufferPoolManager (option Z) :=
  let* s := get in
  match free_list s with
  | [] => fail (Undefined "front of an empty list")
  | f :: rest =>
      let* _ := page_at f in
      let* pid := on_disk AllocatePage in
      update_page f (set_page_id pid);;;
      modify (fun s => set_table (<[pid := f]> (page_table s)) s);;;
      on_replacer (Pin f);;;
      update_page f (fun p => set_dirty false (set_pin 1 p));;;
      modify (set_free rest);;;
      ret (Some f)
  end.

Definition NewPage : M BufferPoolManager (option Z) :=
  let* s := get in
  let* room :=
    (if bool_decide (free_list s = []) then
       let* n := on_replacer Size in
       if n =? 0 then ret false else evict_victim
     else ret true) in
  if negb room then ret None else init_free_frame.

Definition DeletePage (pid : Z) : M BufferPoolManager bool :=
  let* s := get in
  match page_table s !! pid with
  | None => ret true
  | Some f =>
      let* _ := page_at f in
      on_disk (DeallocatePage pid);;;
      update_page f (fun p => set_page_id INVALID_PAGE_ID (set_dirty false (ResetMemory p)));;;
      modify (fun s => set_table (delete pid (page_table s)) s);;;
      on_replacer (Unpin f);;;
      modify (fun s => set_free (free_list s ++ [f]) s);;;
      ret true
  end.

(** [FlushAllPages], over the entries of the page table in some order. *)
Fixpoint flush_entries (l : list (Z * Z)) : M BufferPoolManager unit :=
  match l with
  | [] => ret tt
  | (pid, f) :: l =>
      let* p := page_at f in
      on_disk (WritePage pid (data p));;;
      update_page f (set_dirty false);;;
      flush_entries l
  end.

Definition FlushAllPages : M BufferPoolManager unit :=
  let* s := get in flush_entries (map_to_list (page_table s)).

(** ** Access through a [Page] pointer *)

Definition GetData (f : Z) : M BufferPoolManager D := let* p := page_at f in ret (data p).
Definition write_data (f : Z) (d : D) : M BufferPoolManager unit :=
  let* _ := page_at f in update_page f (set_data d).
Definition GetPageId (f : Z) : M BufferPoolManager Z := let* p := page_at f in ret (page_id p).

Definition on_latch (f : Z) (g : Latch.ReaderWriterLatch -> result Latch.ReaderWriterLatch)
  : M BufferPoolManager unit :=
  let* p := page_at f in
  let* l := lift (g (rwlatch p)) in
  update_page f (set_latch l).

Definition WLatch (f : Z) := on_latch f Latch.WLock.
Definition WUnlatch (f : Z) := on_latch f (fun l => Ok (Latch.WUnlock l)).
Definition RLatch (f : Z) := on_latch f Latch.RLock.
Definition RUnlatch (f : Z) := on_latch f (fun l => Ok (Latch.RUnlock l)).

End BufferPool.

(** From 131072 pages on (a file of 2 GB) [ReadPage] computes its offset
    in an [int] that overflows, while [WritePage], which uses [size_t], still
    writes the page. *)
Theorem ReadPage_overflow {D} (zero x : D) (d : @DiskManager D) (pid : Z) :
  131072 <= pid ->
  (exists d', WritePage zero pid x d = (Ok tt, d')) /\
  ReadPage zero pid d = (Fail (Undefined "signed overflow in page_id * PAGE_SIZE"), d).
Proof.
  intros Hp. unfold WritePage, ReadPage, PAGE_SIZE.
  destruct (Z.ltb_spec pid 0); [lia|]. split; [eauto|].
  assert (negb ((- 2 ^ 31 <=? pid * 16384) && (pid * 16384 <? 2 ^ 31)) = true) as -> by lia.
  reflexivity.
Qed.

Lemma ReadPage_overflow_witness :
  (exists d', WritePage 0 131072 1 (mkDisk [] 0) = (Ok tt, d')) /\
  ReadPage 0 131072 (mkDisk [] 0) =
    (Fail (Undefined "signed overflow in page_id * PAGE_SIZE"), mkDisk [] 0).
Proof. apply (ReadPage_overflow 0 1 (mkDisk [] 0) 131072). lia. Defined.
