(* ===== verification/BufferPoolSpec.v ===== *)
(** * The buffer pool is transparent

    The invariant of [BufferPoolManager], its preservation by every
    operation, and what a client may rely on: the contents it sees ([view])
    do not depend on which pages are resident, a pinned page stays in its
    frame, and a flush makes the file agree with the view. *)

From S2P Require Import Prelude KeyCodec Replacer BufferPool.

Arguments data {D} _.
Arguments page_id {D} _.
Arguments pin_count {D} _.
Arguments is_dirty {D} _.

Section Spec.

Context {D : Type} (zero : D) {R : Type} `{!IReplacer R} `{!ReplacerSpec R}.

Abbreviation BPM := (@BufferPoolManager D R).
Implicit Types (s : BPM) (p : @Page D) (d : @DiskManager D).

(** The largest number of pages whose file size still fits the [int] that
    [GetFileSize] returns: 131071 pages, just under 2 GB. *)
Definition MAX_PAGES : Z := 2 ^ 31 / PAGE_SIZE - 1.

(** What the file holds at a page id; beyond its end a page reads as zero. *)
Definition disk_page d (pid : Z) : D := load zero (Z.to_nat pid) (file d).

(** ** The invariant *)

(** One frame: a free frame is clean and zeroed; an occupied one holds an
    allocated page, is evictable exactly when nobody pins it, and if nobody
    pins it and it is clean then the file has its contents. *)
Definition frame_inv d (queue : list Z) (i : nat) p : Prop :=
  0 <= pin_count p /\
  (page_id p = INVALID_PAGE_ID -> is_dirty p = false /\ data p = zero) /\
  (page_id p <> INVALID_PAGE_ID ->
     0 <= page_id p < next_page_id d /\
     (pin_count p = 0 <-> Z.of_nat i ∈ queue) /\
     (pin_count p = 0 -> is_dirty p = false -> data p = disk_page d (page_id p))).

Record bpm_inv s : Prop := {
  inv_len : length (pages s) = slot_num s;
  inv_rep : rep_inv (replacer s);
  inv_cap : rep_cap (replacer s) = slot_num s;
  inv_disk : Z.of_nat (length (file (disk_manager s))) <= next_page_id (disk_manager s) <= MAX_PAGES;
  inv_queue : forall f, f ∈ rep_queue (replacer s) -> 0 <= f < Z.of_nat (slot_num s);
  inv_nodup : NoDup (free_list s);
  inv_free : forall f, f ∈ free_list s <->
    0 <= f /\ exists p, pages s !! Z.to_nat f = Some p /\ page_id p = INVALID_PAGE_ID;
  inv_table : forall pid f, page_table s !! pid = Some f <->
    0 <= f /\ pid <> INVALID_PAGE_ID /\
    exists p, pages s !! Z.to_nat f = Some p /\ page_id p = pid;
  inv_frame : forall i p, pages s !! i = Some p ->
    frame_inv (disk_manager s) (rep_queue (replacer s)) i p;
}.

(** ** The client's view *)

Definition frame_of s (f : Z) : option (@Page D) := pages s !! Z.to_nat f.

Definition resident s (pid : Z) : option (@Page D) :=
  match page_table s !! pid with Some f => frame_of s f | None => None end.

Definition view s (pid : Z) : D :=
  match resident s pid with Some p => data p | None => disk_page (disk_manager s) pid end.

Definition pins s (pid : Z) : Z :=
  match resident s pid with Some p => pin_count p | None => 0 end.

Lemma table_frame s pid f : bpm_inv s -> page_table s !! pid = Some f ->
  0 <= f /\ pid <> INVALID_PAGE_ID /\
  exists p, pages s !! Z.to_nat f = Some p /\ page_id p = pid.
Proof. intros I. apply (inv_table s I). Qed.

Lemma resident_Some s pid p : bpm_inv s ->
  resident s pid = Some p <->
  exists i, pages s !! i = Some p /\ page_id p = pid /\ pid <> INVALID_PAGE_ID.
Proof.
  intros I. unfold resident, frame_of. split.
  - destruct (page_table s !! pid) as [f|] eqn:E; [|discriminate].
    apply (inv_table s I) in E as (Hf & Hp & q & Hq & Hid). intros Hp'.
    rewrite Hp' in Hq. simplify_eq. eauto.
  - intros (i & Hi & Hid & Hne).
    assert (page_table s !! pid = Some (Z.of_nat i)) as ->.
    { apply (inv_table s I). rewrite Nat2Z.id. split_and!; [lia|done|eauto]. }
    rewrite Nat2Z.id. exact Hi.
Qed.

(** Two pools with the same occupied frames, wherever these lie, and the same
    file contents elsewhere have the same view. *)
Lemma view_resident s pid p : resident s pid = Some p -> view s pid = data p.
Proof. unfold view. intros ->. reflexivity. Qed.

Lemma view_absent s pid : resident s pid = None -> view s pid = disk_page (disk_manager s) pid.
Proof. unfold view. intros ->. reflexivity. Qed.

(** ** Changing one frame

    Every operation rewrites one frame and, consistently with it, the table,
    the free list, the replacer and the file. *)

Lemma bpm_inv_update s s' i p p' :
  bpm_inv s ->
  pages s !! i = Some p ->
  pages s' = <[i := p']> (pages s) -> slot_num s' = slot_num s ->
  rep_inv (replacer s') -> rep_cap (replacer s') = rep_cap (replacer s) ->
  (forall f, f ∈ rep_queue (replacer s') -> 0 <= f < Z.of_nat (slot_num s)) ->
  (forall f, f <> Z.of_nat i -> f ∈ rep_queue (replacer s') <-> f ∈ rep_queue (replacer s)) ->
  Z.of_nat (length (file (disk_manager s'))) <= next_page_id (disk_manager s') <= MAX_PAGES ->
  next_page_id (disk_manager s) <= next_page_id (disk_manager s') ->
  (forall pid, 0 <= pid -> pid <> page_id p -> pid <> page_id p' ->
     disk_page (disk_manager s') pid = disk_page (disk_manager s) pid) ->
  NoDup (free_list s') ->
  (forall f, 0 <= f -> f <> Z.of_nat i -> f ∈ free_list s' <-> f ∈ free_list s) ->
  (forall f, f ∈ free_list s' -> 0 <= f) ->
  (Z.of_nat i ∈ free_list s' <-> page_id p' = INVALID_PAGE_ID) ->
  (forall pid, page_table s' !! pid =
     if decide (pid = page_id p' /\ pid <> INVALID_PAGE_ID) then Some (Z.of_nat i)
     else if decide (pid = page_id p /\ pid <> INVALID_PAGE_ID) then None
     else page_table s !! pid) ->
  (page_id p' <> INVALID_PAGE_ID -> page_id p' <> page_id p ->
     page_table s !! page_id p' = None) ->
  frame_inv (disk_manager s') (rep_queue (replacer s')) i p' ->
  bpm_inv s' /\
  forall q, resident s' q =
    if decide (q = page_id p' /\ q <> INVALID_PAGE_ID) then Some p'
    else if decide (q = page_id p /\ q <> INVALID_PAGE_ID) then None
    else resident s q.
Proof.
  intros I Hp Hpages Hslot Hrep Hcap Hq Hqeq Hlen Hnext Hdisk Hnd Hfree Hfree0 Hfreei Htab Hnew Hfr.
  assert (Hi : (i < length (pages s))%nat) by (eapply lookup_lt_Some; eauto).
  assert (Hlook : forall j q, pages s' !! j = Some q ->
            (j = i /\ q = p') \/ (j <> i /\ pages s !! j = Some q)).
  { intros j q Hj. rewrite Hpages in Hj. apply list_lookup_insert_Some in Hj. naive_solver. }
  assert (Hother : forall j q, j <> i -> pages s !! j = Some q ->
            page_id q <> INVALID_PAGE_ID -> page_id q <> page_id p /\ page_id q <> page_id p').
  { intros j q Hj Hq' Hv.
    assert (Htq : page_table s !! page_id q = Some (Z.of_nat j))
      by (apply (inv_table s I); rewrite Nat2Z.id; split_and!; [lia|done|eauto]).
    assert (page_id q <> page_id p).
    { intros He. assert (Htp : page_table s !! page_id p = Some (Z.of_nat i))
        by (apply (inv_table s I); rewrite Nat2Z.id; split_and!; [lia|congruence|eauto]).
      rewrite He in Htq. by simplify_eq. }
    split; [done|]. intros He. rewrite <- He in Hnew. rewrite Hnew in Htq; congruence. }
  split; [constructor; auto|].
  - rewrite Hpages, length_insert, Hslot. apply (inv_len s I).
  - rewrite Hcap, Hslot. apply (inv_cap s I).
  - rewrite Hslot. exact Hq.
  - intros f. destruct (decide (f = Z.of_nat i)) as [->|Hne].
    + rewrite Hfreei, Nat2Z.id, Hpages, list_lookup_insert_eq by lia. naive_solver lia.
    + split.
      * intros Hin. pose proof (Hfree0 _ Hin) as Hpos. apply Hfree in Hin; [|lia|done].
        apply (inv_free s I) in Hin as (_ & q & Hq1 & Hq2). split; [lia|].
        exists q. rewrite Hpages, list_lookup_insert_ne by lia. auto.
      * intros (Hpos & q & Hq1 & Hq2). rewrite Hpages, list_lookup_insert_ne in Hq1 by lia.
        apply Hfree; [lia|done|]. apply (inv_free s I). eauto.
  - intros pid f. rewrite Htab. split.
    + intros Hf. repeat case_decide; simplify_eq.
      * destruct_and!. subst. rewrite Nat2Z.id, Hpages, list_lookup_insert_eq by lia.
        split_and!; [lia|done|eauto].
      * apply (inv_table s I) in Hf as (Hpos & Hne & q & Hq1 & Hq2). split_and!; [done..|].
        exists q. split; [|done]. rewrite Hpages, list_lookup_insert_ne; [done|].
        intros ->. simplify_eq. naive_solver.
    + intros (Hpos & Hne & q & Hq1 & Hq2). destruct (Hlook _ _ Hq1) as [[Hj ->]|[Hj Hq3]].
      * rewrite decide_True by auto. f_equal. lia.
      * destruct (Hother _ _ Hj Hq3); [congruence|].
        rewrite !decide_False by naive_solver. apply (inv_table s I). eauto.
  - intros j q Hj. destruct (Hlook _ _ Hj) as [[-> ->]|[Hne Hj']]; [done|].
    destruct (inv_frame s I _ _ Hj') as (F1 & F2 & F3). split_and!; auto.
    intros Hv. destruct (F3 Hv) as (G1 & G2 & G3). destruct (Hother _ _ Hne Hj' Hv).
    rewrite Hqeq by lia. rewrite Hdisk by (auto || lia). split_and!; [lia|lia|done|done].
  - intros q. unfold resident, frame_of. rewrite Htab. repeat case_decide.
    + rewrite Nat2Z.id, Hpages, list_lookup_insert_eq by lia. reflexivity.
    + reflexivity.
    + destruct (page_table s !! q) as [f|] eqn:E; [|reflexivity].
      apply (inv_table s I) in E as (Hpos & Hne & r & Hr1 & Hr2).
      rewrite Hpages, list_lookup_insert_ne; [reflexivity|].
      intros ->. simplify_eq. naive_solver.
Qed.

Lemma decide_never {A} (q : Z) (a b : A) :
  (if decide (q = INVALID_PAGE_ID /\ q <> INVALID_PAGE_ID) then a else b) = b.
Proof. rewrite decide_False by naive_solver. done. Qed.

Lemma decide_valid {A} (q pid : Z) (a b : A) : 0 <= pid ->
  (if decide (q = pid /\ q <> INVALID_PAGE_ID) then a else b) = if decide (q = pid) then a else b.
Proof. unfold INVALID_PAGE_ID. intros H. repeat case_decide; naive_solver lia. Qed.

(** The case in which the page stays in its frame. *)
Lemma bpm_inv_in_place s s' i p p' :
  bpm_inv s -> pages s !! i = Some p ->
  page_id p <> INVALID_PAGE_ID -> page_id p' = page_id p ->
  pages s' = <[i := p']> (pages s) -> slot_num s' = slot_num s ->
  disk_manager s' = disk_manager s -> free_list s' = free_list s ->
  page_table s' = page_table s ->
  rep_inv (replacer s') -> rep_cap (replacer s') = rep_cap (replacer s) ->
  (forall f, f ∈ rep_queue (replacer s') -> 0 <= f < Z.of_nat (slot_num s)) ->
  (forall f, f <> Z.of_nat i -> f ∈ rep_queue (replacer s') <-> f ∈ rep_queue (replacer s)) ->
  frame_inv (disk_manager s') (rep_queue (replacer s')) i p' ->
  bpm_inv s' /\
  forall q, resident s' q = if decide (q = page_id p) then Some p' else resident s q.
Proof.
  intros I Hp Hv Hid Hpages Hslot Hdisk Hfree Htab Hr Hc Hq1 Hq2 Hfr.
  destruct (bpm_inv_update s s' i p p') as [I' HR]; auto; rewrite ?Hdisk, ?Hfree; try apply I; auto.
  - done.
  - rewrite (inv_free s I), Hid, Nat2Z.id. naive_solver lia.
  - intros pid. rewrite Htab, Hid. repeat case_decide; try done.
    apply (inv_table s I). rewrite Nat2Z.id. naive_solver lia.
  - congruence.
  - split; [done|]. intros q. rewrite HR, Hid. repeat case_decide; naive_solver.
Qed.

(** No frame that is free still counts a pin. Every operation but the deletion
    of a pinned page keeps this. *)
Definition no_leak s : Prop :=
  forall i p, pages s !! i = Some p -> page_id p = INVALID_PAGE_ID -> pin_count p = 0.

Lemma no_leak_update s s' i p' :
  no_leak s -> pages s' = <[i := p']> (pages s) ->
  (page_id p' = INVALID_PAGE_ID -> pin_count p' = 0) -> no_leak s'.
Proof.
  intros Hl Hp Hi j q Hj Hq. rewrite Hp in Hj.
  apply list_lookup_insert_Some in Hj as [(<- & <- & _)|[_ Hj]]; eauto.
Qed.

(** ** Running the primitive steps *)

Lemma page_at_ok s f p :
  0 <= f -> pages s !! Z.to_nat f = Some p -> page_at f s = (Ok p, s).
Proof. intros Hf Hp. unfold page_at. destruct (Z.ltb_spec f 0); [lia|]. by rewrite Hp. Qed.

Lemma on_replacer_ok {A} (m : M R A) s a r' :
  m (replacer s) = (Ok a, r') -> on_replacer m s = (Ok a, set_replacer r' s).
Proof. unfold on_replacer. by intros ->. Qed.

Lemma update_page_ok s f p g :
  pages s !! Z.to_nat f = Some p ->
  update_page f g s = (Ok tt, set_pages (<[Z.to_nat f := g p]> (pages s)) s).
Proof.
  intros Hp. unfold update_page, modify. do 3 f_equal. apply list_eq. intros i.
  destruct (decide (Z.to_nat f = i)) as [<-|Hne].
  - rewrite list_lookup_alter_eq, Hp, list_lookup_insert_eq; [reflexivity|].
    by eapply lookup_lt_Some.
  - by rewrite list_lookup_alter_ne, list_lookup_insert_ne.
Qed.

Lemma disk_page_write pid x d q :
  0 <= pid -> 0 <= q ->
  disk_page (mkDisk (store zero (Z.to_nat pid) x (file d)) (next_page_id d)) q =
  if decide (q = pid) then x else disk_page d q.
Proof.
  intros Hp Hq. unfold disk_page. simpl. rewrite load_store.
  destruct (decide (q = pid)) as [->|]; [by rewrite decide_True|].
  rewrite decide_False by lia. reflexivity.
Qed.

Lemma elem_of_frames s f p i :
  bpm_inv s -> pages s !! i = Some p -> f = Z.of_nat i -> 0 <= f < Z.of_nat (slot_num s).
Proof.
  intros I Hi ->. apply lookup_lt_Some in Hi. rewrite (inv_len s I) in Hi. lia.
Qed.

(** ** Eviction *)

(** What both kinds of allocation need of an eviction: the view and the pins
    are those of before, pinned pages stay where they are. *)
Definition same_view s s' : Prop :=
  next_page_id (disk_manager s') = next_page_id (disk_manager s) /\
  slot_num s' = slot_num s /\
  (forall q, 0 <= q -> view s' q = view s q).

Definition keeps_pinned s s' : Prop :=
  forall q p, resident s q = Some p -> 0 < pin_count p ->
    resident s' q = Some p /\ page_table s' !! q = page_table s !! q.

Lemma bpm_inv_set_replacer s r' :
  bpm_inv s -> rep_inv r' -> rep_cap r' = rep_cap (replacer s) ->
  (forall f, f ∈ rep_queue r' <-> f ∈ rep_queue (replacer s)) ->
  bpm_inv (set_replacer r' s).
Proof.
  intros I Hr Hc Hq. constructor; simpl; try apply I; auto.
  - rewrite Hc. apply (inv_cap s I).
  - intros f Hf. apply (inv_queue s I), Hq, Hf.
  - intros i p Hi. destruct (inv_frame s I i p Hi) as (F1 & F2 & F3).
    split_and!; auto. intros Hv. destruct (F3 Hv) as (G1 & G2 & G3). by rewrite Hq.
Qed.

(** A frame of the eviction queue holds, when the free list is empty, an
    allocated page that nobody pins. *)
Lemma queue_frame s f : bpm_inv s -> f ∈ rep_queue (replacer s) -> free_list s = [] ->
  0 <= f /\ exists p, pages s !! Z.to_nat f = Some p /\ page_id p <> INVALID_PAGE_ID /\
    0 <= page_id p < next_page_id (disk_manager s) /\ pin_count p = 0 /\
    (is_dirty p = false -> data p = disk_page (disk_manager s) (page_id p)).
Proof.
  intros I Hf Hfree. pose proof (inv_queue s I f Hf) as Hr. split; [lia|].
  destruct (lookup_lt_is_Some_2 (pages s) (Z.to_nat f)) as [p Hp].
  { rewrite (inv_len s I). lia. }
  exists p. split; [done|]. destruct (inv_frame s I _ _ Hp) as (F1 & F2 & F3).
  assert (Hv : page_id p <> INVALID_PAGE_ID).
  { intros Hi. assert (f ∈ free_list s) as Hin by (apply (inv_free s I); eauto with lia).
    rewrite Hfree in Hin. set_solver. }
  destruct (F3 Hv) as (G1 & G2 & G3). rewrite Z2Nat.id in G2 by lia.
  apply G2 in Hf as Hpin. auto.
Qed.

(** The file after the victim was written back. *)
Definition write_back p d : @DiskManager D :=
  if is_dirty p then mkDisk (store zero (Z.to_nat (page_id p)) (data p) (file d)) (next_page_id d)
  else d.

Lemma write_back_next p d : next_page_id (write_back p d) = next_page_id d.
Proof. unfold write_back. by destruct (is_dirty p). Qed.

Lemma write_back_length p d :
  0 <= page_id p < next_page_id d -> Z.of_nat (length (file d)) <= next_page_id d ->
  Z.of_nat (length (file (write_back p d))) <= next_page_id d.
Proof.
  unfold write_back. intros H1 H2. destruct (is_dirty p); [|done].
  simpl. rewrite length_store. lia.
Qed.

Lemma write_back_page p d q : 0 <= page_id p -> 0 <= q ->
  disk_page (write_back p d) q =
  if decide (q = page_id p) then (if is_dirty p then data p else disk_page d q) else disk_page d q.
Proof.
  intros Hp Hq. unfold write_back. destruct (is_dirty p); [by apply disk_page_write|].
  by case_decide.
Qed.

Lemma evict_run s v r' p :
  bpm_inv s -> Victim (replacer s) = (Ok (Some v), r') ->
  0 <= v -> pages s !! Z.to_nat v = Some p -> 0 <= page_id p ->
  evict_victim zero s =
  (Ok true,
   mkBPM (slot_num s)
     (write_back p (disk_manager s)) r'
     (<[Z.to_nat v := mkPage zero INVALID_PAGE_ID (pin_count p) false (rwlatch p)]> (pages s))
     (free_list s ++ [v]) (delete (page_id p) (page_table s))).
Proof.
  intros I E Hv Hp Hid. unfold evict_victim.
  rewrite (bind_ok _ _ _ _ _ (on_replacer_ok _ _ _ _ E)).
  erewrite bind_ok by (apply page_at_ok; [lia | exact Hp]).
  destruct s as [sn d r ps fl pt]. simpl in *.
  unfold bind at 1. unfold when, on_disk, WritePage, write_back. simpl.
  assert ((page_id p <? 0) = false) as E0 by lia.
  destruct (is_dirty p); rewrite ?E0; unfold bind at 1; simpl;
    (erewrite bind_ok by (apply update_page_ok; simpl; exact Hp)); destruct d; reflexivity.
Qed.

Lemma evict_victim_ok s : bpm_inv s -> free_list s = [] ->
  exists b s', evict_victim zero s = (Ok b, s') /\ bpm_inv s' /\ same_view s s' /\
    keeps_pinned s s' /\ (forall q, pins s' q = pins s q) /\
    (forall q, resident s q = None -> resident s' q = None) /\ (no_leak s -> no_leak s') /\
    if b then free_list s' <> [] else rep_queue (replacer s) = [] /\ free_list s' = [].
Proof.
  intros I Hfree. destruct (victim_spec (replacer s) (inv_rep s I)) as (r' & E & Hi' & Hq' & Hc').
  pose proof (rep_nodup (replacer s) (inv_rep s I)) as Hnd.
  destruct (rep_queue (replacer s)) as [|v q] eqn:Q; simpl in E, Hq'.
  { exists false, (set_replacer r' s). unfold evict_victim.
    rewrite (bind_ok _ _ _ _ _ (on_replacer_ok _ _ _ _ E)).
    split; [reflexivity|]. split; [apply bpm_inv_set_replacer; auto; by rewrite Hq', Q|].
    split_and!; auto; [by split_and!|by intros]. }
  destruct (queue_frame s v I) as (Hv & p & Hp & Hvalid & Hid & Hpin & Hclean); [rewrite Q; set_solver|done|].
  eexists true, _. split; [eapply evict_run; eauto; lia|].
  match goal with |- bpm_inv ?s' /\ _ => set (s1 := s') end.
  assert (U : bpm_inv s1 /\ forall q, resident s1 q =
    if decide (q = INVALID_PAGE_ID /\ q <> INVALID_PAGE_ID) then
      Some (mkPage zero INVALID_PAGE_ID (pin_count p) false (rwlatch p))
    else if decide (q = page_id p /\ q <> INVALID_PAGE_ID) then None else resident s q).
  { pose proof (inv_disk s I) as [HL HM]. apply NoDup_cons in Hnd as [Hv1 Hv2].
    apply (bpm_inv_update s s1 (Z.to_nat v) p (mkPage zero INVALID_PAGE_ID (pin_count p) false (rwlatch p)));
      subst s1; simpl; auto; rewrite ?Hq', ?Hfree, ?Q, ?write_back_next, ?Z2Nat.id by lia; simpl.
    - intros f Hf. apply (inv_queue s I). rewrite Q. set_solver.
    - set_solver.
    - split; [by apply write_back_length | done].
    - done.
    - intros pid H1 H2 H3. rewrite write_back_page by lia. by rewrite decide_False.
    - apply NoDup_singleton.
    - set_solver.
    - set_solver by lia.
    - set_solver.
    - intros pid. rewrite decide_False by naive_solver. rewrite lookup_delete.
      repeat case_decide; naive_solver.
    - done.
    - split_and!; simpl; auto; [lia|done]. }
  destruct U as [I1 HR]. split; [done|].
  assert (HR' : forall q, resident s1 q = if decide (q = page_id p) then None else resident s q).
  { intros x. rewrite HR, decide_False by naive_solver. repeat case_decide; naive_solver. }
  assert (Hres : resident s (page_id p) = Some p) by (apply resident_Some; eauto).
  split_and!; auto.
  - split_and!; [subst s1; simpl; apply write_back_next | done |].
    intros x Hx. unfold view. rewrite HR'. case_decide; [subst x|].
    + rewrite Hres. subst s1. simpl. rewrite write_back_page, decide_True by (done || lia).
      destruct (is_dirty p) eqn:Ed; [done|]. symmetry. auto.
    + destruct (resident s x); [done|]. subst s1. simpl.
      rewrite write_back_page, decide_False by (done || lia). done.
  - intros x px Hx Hpx. rewrite HR'. case_decide; [subst x; naive_solver lia|].
    split; [done|]. subst s1. simpl. by rewrite lookup_delete_ne.
  - intros x. unfold pins. rewrite HR'. case_decide; [subst x; by rewrite Hres|done].
  - intros x Hx. rewrite HR'. by case_decide.
  - intros Hl. by eapply no_leak_update.
  - subst s1. simpl. rewrite Hfree. done.
Qed.

(** ** FetchPage *)

(** Nothing changes for the pages other than [pid]. *)
Definition others_unchanged (pid : Z) s s' : Prop :=
  (forall q, q <> pid -> pins s' q = pins s q) /\
  (forall q p, q <> pid -> resident s q = Some p -> 0 < pin_count p ->
     resident s' q = Some p /\ page_table s' !! q = page_table s !! q).

(** [pid] sits pinned in frame [f] with contents [x]. *)
Definition held s (pid f : Z) (x : D) : Prop :=
  page_table s !! pid = Some f /\
  exists p, pages s !! Z.to_nat f = Some p /\ page_id p = pid /\ data p = x /\ 0 < pin_count p.

(** A page that is clean agrees with the file. *)
Definition clean_page s (pid : Z) : Prop :=
  forall p, resident s pid = Some p -> is_dirty p = false ->
    data p = disk_page (disk_manager s) pid.

Lemma resident_at s pid f p : bpm_inv s ->
  page_table s !! pid = Some f -> pages s !! Z.to_nat f = Some p -> resident s pid = Some p.
Proof. intros I Ht Hp. unfold resident, frame_of. by rewrite Ht. Qed.

Lemma fetch_hit s pid f : bpm_inv s -> page_table s !! pid = Some f ->
  exists s', FetchPage zero pid s = (Ok (Some f), s') /\ bpm_inv s' /\ same_view s s' /\
    others_unchanged pid s s' /\ held s' pid f (view s pid) /\ pins s' pid = pins s pid + 1 /\
    (no_leak s -> no_leak s') /\ (pins s pid = 0 -> clean_page s' pid).
Proof.
  intros I Ht. destruct (table_frame s pid f I Ht) as (Hf & Hne & p & Hp & Hid).
  destruct (pin_spec f (replacer s) (inv_rep s I)) as (r' & E & Hr & Hq & Hc).
  unfold FetchPage, bind at 1, get. rewrite Ht.
  erewrite bind_ok by (by apply page_at_ok).
  erewrite bind_ok by (by apply update_page_ok).
  erewrite bind_ok by (apply on_replacer_ok; exact E).
  eexists. split; [reflexivity|]. simpl.
  match goal with |- bpm_inv ?s' /\ _ => set (s1 := s') end.
  destruct (inv_frame s I _ _ Hp) as (F1 & F2 & F3). destruct (F3 ltac:(congruence)) as (G1 & G2 & G3).
  destruct (bpm_inv_in_place s s1 (Z.to_nat f) p (set_pin (pin_count p + 1) p)) as [I1 HR];
    subst s1; simpl; auto; rewrite ?Hq, ?Z2Nat.id in * by lia; try congruence.
  - intros g [_ Hg]%list_elem_of_filter. by apply (inv_queue s I).
  - intros g Hg. rewrite list_elem_of_filter. naive_solver.
  - split_and!; simpl; [lia|done|]. intros _. split_and!; [lia|lia| |lia].
    rewrite Z2Nat.id, list_elem_of_filter by lia. split; [lia|naive_solver].
  - rewrite Hid in HR. pose proof (resident_at _ _ _ _ I Ht Hp) as Hres.
    split; [done|]. split; [split_and!; auto|].
    { intros q Hq0. unfold view. rewrite HR. case_decide; [subst q; by rewrite Hres | done]. }
    split; [split|].
    { intros q Hq0. unfold pins. by rewrite HR, decide_False. }
    { intros q pq Hq0 Hq1 Hq2. by rewrite HR, decide_False. }
    unfold pins. rewrite HR, decide_True, Hres by done. split; [|split_and!; [done| |]]; cycle 1.
    { intros Hl. eapply no_leak_update; [done..|simpl; congruence]. }
    { intros Hz pq. rewrite HR, decide_True by done. intros [= <-] Hd. simpl in *.
      rewrite <- Hid. by apply G3. }
    split; [done|]. eexists. simpl. rewrite list_lookup_insert_eq by (by eapply lookup_lt_Some).
    split; [done|]. unfold view. rewrite Hres. simpl. split_and!; [done|done|lia].
Qed.

Lemma pop_back_snoc l f : pop_back (l ++ [f]) = Some (l, f).
Proof. unfold pop_back. rewrite rev_app_distr. simpl. by rewrite rev_involutive. Qed.

(** A read of an allocated page leaves the file's contents in a zeroed frame,
    whether the read succeeds or throws. *)
Lemma read_into_ok s pid f p :
  0 <= pid < next_page_id (disk_manager s) ->
  Z.of_nat (length (file (disk_manager s))) <= next_page_id (disk_manager s) <= MAX_PAGES ->
  pages s !! Z.to_nat f = Some p -> data p = zero ->
  read_into zero pid f s =
  (Ok tt, set_pages (<[Z.to_nat f := set_data (disk_page (disk_manager s) pid) p]> (pages s)) s).
Proof.
  intros Hpid [Hlen Hmax] Hp Hz. unfold MAX_PAGES, PAGE_SIZE in *.
  change (2 ^ 31 / 16384 - 1) with 131071 in *.
  unfold read_into, ReadPage, GetFileSize, PAGE_SIZE.
  assert (negb ((- 2 ^ 31 <=? pid * 16384) && (pid * 16384 <? 2 ^ 31)) = false) as -> by lia.
  rewrite i32_small by lia.
  destruct (Z.ltb_spec (Z.of_nat (length (file (disk_manager s))) * 16384) (pid * 16384)).
  - assert (disk_page (disk_manager s) pid = zero) as ->.
    { unfold disk_page, load. rewrite lookup_ge_None_2 by lia. reflexivity. }
    assert (set_data zero p = p) as -> by (rewrite <- Hz; by destruct p).
    rewrite list_insert_id by done. by destruct s.
  - destruct (Z.ltb_spec (pid * 16384) 0); [lia|].
    erewrite update_page_ok by exact Hp. by destruct s.
Qed.

Lemma load_free_frame_ok s pid : bpm_inv s -> free_list s <> [] ->
  page_table s !! pid = None -> 0 <= pid < next_page_id (disk_manager s) ->
  exists f s', load_free_frame zero pid s = (Ok (Some f), s') /\ bpm_inv s' /\ same_view s s' /\
    others_unchanged pid s s' /\ held s' pid f (view s pid) /\
    (no_leak s -> no_leak s' /\ pins s' pid = 1) /\ clean_page s' pid.
Proof.
  intros I Hfree Ht Hpid. destruct (exists_last Hfree) as (rest & f & Hsnoc).
  assert (Hf : f ∈ free_list s) by (rewrite Hsnoc; set_solver).
  pose proof (inv_nodup s I) as Hnd. rewrite Hsnoc in Hnd.
  apply NoDup_app in Hnd as (Hnd & Hdisj & _).
  apply (inv_free s I) in Hf as (Hf & p & Hp & Hid).
  destruct (inv_frame s I _ _ Hp) as (F1 & F2 & F3). destruct (F2 Hid) as [Hclean Hz].
  destruct (pin_spec f (replacer s) (inv_rep s I)) as (r' & E & Hr & Hq & Hc).
  unfold load_free_frame, bind at 1, get. rewrite Hsnoc, pop_back_snoc.
  unfold bind at 1, put.
  erewrite bind_ok by (apply page_at_ok; [lia | exact Hp]).
  erewrite bind_ok by (apply update_page_ok; exact Hp).
  erewrite bind_ok by (apply on_replacer_ok; exact E).
  unfold bind at 1, modify.
  assert (Hi : (Z.to_nat f < length (pages s))%nat) by (by eapply lookup_lt_Some).
  erewrite bind_ok; cycle 1.
  { apply read_into_ok; simpl; [lia | apply I | by rewrite list_lookup_insert_eq | done]. }
  eexists _, _. split; [reflexivity|]. simpl. rewrite list_insert_insert_eq.
  set (p' := mkPage (disk_page (disk_manager s) pid) pid (pin_count p + 1) false (rwlatch p)).
  match goal with |- bpm_inv ?s' /\ _ => set (s1 := s') end.
  destruct (bpm_inv_update s s1 (Z.to_nat f) p p') as [I1 HR];
    subst s1; simpl; auto; rewrite ?Hq, ?Z2Nat.id in * by lia; try apply I.
  - intros g [_ Hg]%list_elem_of_filter. by apply (inv_queue s I).
  - intros g Hg. rewrite list_elem_of_filter. naive_solver.
  - done.
  - intros g Hg Hne. rewrite Hsnoc. set_solver.
  - intros g Hg. assert (g ∈ free_list s) as Hg' by (rewrite Hsnoc; set_solver).
    apply (inv_free s I) in Hg'. lia.
  - split; [|unfold INVALID_PAGE_ID; lia]. set_solver.
  - intros q. rewrite Hid, decide_never, lookup_insert, (decide_valid q pid) by lia.
    destruct (decide (pid = q)) as [->|]; [by rewrite decide_True | by rewrite decide_False].
  - split_and!; simpl; [lia|unfold INVALID_PAGE_ID; lia|]. intros _. split_and!; [lia|lia| |lia].
    rewrite Z2Nat.id, list_elem_of_filter by lia. split; [lia|naive_solver].
  - assert (Hres : resident s pid = None) by (unfold resident; by rewrite Ht).
    assert (HR' : forall q, resident _ q = if decide (q = pid) then Some p' else resident s q)
      by (intros q; rewrite HR, Hid, decide_never; simpl; rewrite (decide_valid q pid) by lia; done).
    clear HR. split; [done|].
    assert (Hv : view s pid = disk_page (disk_manager s) pid) by (unfold view; by rewrite Hres).
    split; [split_and!; auto|split; [split|split_and!]].
    + intros q Hq0. unfold view. rewrite HR'. case_decide; [subst q; by rewrite Hres | done].
    + intros q Hq0. unfold pins. by rewrite HR', decide_False.
    + intros q pq Hq0 Hq1 Hq2. rewrite HR', decide_False by done. split; [done|].
      simpl. by rewrite lookup_insert_ne.
    + split; [simpl; by rewrite lookup_insert_eq|]. exists p'. simpl.
      rewrite list_lookup_insert_eq by done. rewrite Hv. split_and!; [done..|lia].
    + intros Hl. pose proof (Hl _ _ Hp Hid) as Hpin. split.
      * eapply no_leak_update; [done..|simpl; unfold INVALID_PAGE_ID; lia].
      * unfold pins. rewrite HR', decide_True by done. simpl. lia.
    + intros pq. rewrite HR', decide_True by done. by intros [= <-].
Qed.

(** Every frame is in use by somebody: the pool cannot take one more page. *)
Definition all_pinned s : Prop := forall i p, pages s !! i = Some p -> 0 < pin_count p.

Definition exhausted s : Prop := free_list s = [] /\ rep_queue (replacer s) = [].

Lemma exhausted_all_pinned s : bpm_inv s -> exhausted s -> all_pinned s.
Proof.
  intros I [Hf Hq] i p Hp. destruct (inv_frame s I _ _ Hp) as (F1 & F2 & F3).
  destruct (decide (page_id p = INVALID_PAGE_ID)) as [Hid|Hv].
  - assert (Z.of_nat i ∈ free_list s) as Hin.
    { apply (inv_free s I). rewrite Nat2Z.id. split; [lia|eauto]. }
    rewrite Hf in Hin. set_solver.
  - destruct (F3 Hv) as (_ & G2 & _). rewrite Hq in G2.
    destruct (Z.eq_dec (pin_count p) 0) as [E|]; [apply G2 in E; set_solver | lia].
Qed.

Lemma same_view_trans s1 s2 s3 : same_view s1 s2 -> same_view s2 s3 -> same_view s1 s3.
Proof. intros (A1 & A2 & A3) (B1 & B2 & B3). split_and!; [congruence..|]. intros q Hq. by rewrite B3, A3. Qed.

Lemma others_after_evict pid s1 s2 s3 :
  keeps_pinned s1 s2 -> (forall q, pins s2 q = pins s1 q) ->
  others_unchanged pid s2 s3 -> others_unchanged pid s1 s3.
Proof.
  intros HK HP [H1 H2]. split; [intros q Hq; by rewrite H1, HP|].
  intros q p Hq Hr Hp. destruct (HK q p Hr Hp) as [K1 K2].
  destruct (H2 q p Hq K1 Hp) as [L1 L2]. split; [done | congruence].
Qed.

Lemma resident_None_table s pid : bpm_inv s -> resident s pid = None -> page_table s !! pid = None.
Proof.
  intros I. unfold resident, frame_of. destruct (page_table s !! pid) as [f|] eqn:E; [|done].
  apply (inv_table s I) in E as (_ & _ & p & Hp & _). congruence.
Qed.

(** [FetchPage] on any allocated page: either it is returned pinned, holding
    what the client last left there, or every frame is pinned and [nullptr]
    comes back. *)
Lemma fetch_ok s pid : bpm_inv s -> 0 <= pid < next_page_id (disk_manager s) ->
  exists r s', FetchPage zero pid s = (Ok r, s') /\ bpm_inv s' /\ same_view s s' /\
    match r with
    | Some f => others_unchanged pid s s' /\ held s' pid f (view s pid) /\
        (no_leak s -> no_leak s' /\ pins s' pid = pins s pid + 1) /\
        (pins s pid = 0 -> clean_page s' pid)
    | None => exhausted s
    end.
Proof.
  intros I Hpid. destruct (page_table s !! pid) as [f|] eqn:Ht.
  { destruct (fetch_hit s pid f I Ht) as (s' & E & I' & V & O & Hh & P & L & C). exists (Some f), s'. auto 10. }
  assert (Hp0 : pins s pid = 0) by (unfold pins, resident; by rewrite Ht).
  unfold FetchPage, bind at 1, get. rewrite Ht.
  destruct (bool_decide (free_list s = [])) eqn:Ef.
  - apply bool_decide_eq_true in Ef.
    destruct (evict_victim_ok s I Ef) as (b & s1 & E & I1 & V1 & K1 & P1 & N1 & L1 & Hb).
    erewrite bind_ok by exact E. destruct b; simpl.
    + destruct (load_free_frame_ok s1 pid I1 Hb) as (f & s2 & E2 & I2 & V2 & O2 & H2 & L2 & C2).
      { apply resident_None_table; [done|]. apply N1. unfold resident. by rewrite Ht. }
      { destruct V1 as (-> & _). done. }
      exists (Some f), s2. destruct V1 as (V1a & V1b & V1c).
      split_and!; auto; [eapply same_view_trans; [split_and!|]; eauto | | |].
      * eapply others_after_evict; eauto.
      * rewrite V1c in H2 by lia. done.
      * rewrite Hp0. auto.
    + eexists None, s1. split_and!; [done..|]. by destruct Hb.
  - apply bool_decide_eq_false in Ef. rewrite bind_ret. simpl.
    destruct (load_free_frame_ok s pid I Ef Ht Hpid) as (f & s2 & E2 & I2 & V2 & O2 & H2 & L2 & C2).
    exists (Some f), s2. rewrite Hp0. auto 10.
Qed.

(** ** UnpinPage *)

Lemma NoDup_bounded (l : list Z) n :
  NoDup l -> (forall x, x ∈ l -> 0 <= x < Z.of_nat n) -> (length l <= n)%nat.
Proof.
  intros Hnd Hb. transitivity (length (Z.of_nat <$> seq 0 n)).
  - apply submseteq_length, NoDup_submseteq; [done|]. intros x Hx.
    apply list_elem_of_fmap. exists (Z.to_nat x). specialize (Hb x Hx).
    rewrite elem_of_seq. lia.
  - rewrite length_fmap, length_seq. lia.
Qed.

(** The replacer never refuses a frame for lack of room. *)
Lemma queue_not_full s f : bpm_inv s -> f ∉ rep_queue (replacer s) ->
  0 <= f < Z.of_nat (slot_num s) -> (length (rep_queue (replacer s)) < slot_num s)%nat.
Proof.
  intros I Hf Hr. apply (NoDup_bounded (f :: _)).
  - apply NoDup_cons. split; [done|]. apply rep_nodup, I.
  - intros x [->|Hx]%elem_of_cons; [done | by apply (inv_queue s I)].
Qed.

(** A page the client leaves clean must be as it is in the file. *)
Definition clean_ok s (pid : Z) (dirty : bool) : Prop :=
  forall p, resident s pid = Some p -> is_dirty p = false -> dirty = false ->
    pin_count p <= 1 -> data p = disk_page (disk_manager s) pid.

Lemma unpin_run s pid dirty f p : bpm_inv s -> page_table s !! pid = Some f ->
  pages s !! Z.to_nat f = Some p ->
  exists r' b, UnpinPage pid dirty s =
    (Ok b, mkBPM (slot_num s) (disk_manager s) r'
       (<[Z.to_nat f := mkPage (data p) (page_id p)
           (if pin_count p <=? 0 then pin_count p else pin_count p - 1)
           (is_dirty p || dirty) (rwlatch p)]> (pages s)) (free_list s) (page_table s)) /\
    b = (0 <? pin_count p) /\ rep_inv r' /\ rep_cap r' = rep_cap (replacer s) /\
    (forall g, g ∈ rep_queue r' <-> g ∈ rep_queue (replacer s) \/ (pin_count p = 1 /\ g = f)).
Proof.
  intros I Ht Hp. destruct (table_frame s pid f I Ht) as (Hf & Hne & p0 & Hp0 & Hid).
  assert (p0 = p) as -> by congruence.
  destruct (inv_frame s I _ _ Hp) as (F1 & _ & F3). destruct (F3 ltac:(congruence)) as (_ & G2 & _).
  rewrite Z2Nat.id in G2 by lia.
  unfold UnpinPage, bind at 1, get. rewrite Ht.
  erewrite bind_ok by (by apply page_at_ok).
  set (p1 := mkPage (data p) (page_id p) (pin_count p) (is_dirty p || dirty) (rwlatch p)).
  erewrite bind_ok; cycle 1.
  { instantiate (1 := set_pages (<[Z.to_nat f := p1]> (pages s)) s). instantiate (1 := tt).
    destruct (is_dirty p) eqn:Ed; simpl.
    - unfold ret. do 3 f_equal. rewrite list_insert_id; [by destruct s|].
      rewrite Hp. subst p1. by destruct p; simpl in *; subst.
    - by rewrite (update_page_ok s f p). }
  assert (Hi : (Z.to_nat f < length (pages s))%nat) by (by eapply lookup_lt_Some).
  destruct (Z.leb_spec (pin_count p) 0) as [Hle|Hgt].
  { eexists (replacer s), _. split; [reflexivity|].
    split_and!; [lia | apply I | done | intros; naive_solver lia]. }
  erewrite bind_ok by (apply update_page_ok; simpl; by rewrite list_lookup_insert_eq).
  simpl. rewrite list_insert_insert_eq.
  destruct (Z.eqb_spec (pin_count p - 1) 0) as [H1|H1]; simpl.
  - destruct (unpin_spec f (replacer s) (inv_rep s I)) as (r' & E & Hr & Hq & Hc).
    erewrite bind_ok by (apply on_replacer_ok; exact E).
    eexists r', _. split; [reflexivity|]. split_and!; [lia|done..|].
    intros g. rewrite Hq. case_decide as Hin; [apply G2 in Hin; lia|].
    destruct (Nat.leb_spec (rep_cap (replacer s)) (length (rep_queue (replacer s)))) as [Hfull|]; [|set_solver by lia].
    exfalso. rewrite (inv_cap s I) in Hfull.
    rewrite (inv_len s I) in Hi. pose proof (queue_not_full s f I Hin). lia.
  - rewrite bind_ret. eexists (replacer s), _. split; [reflexivity|].
    split_and!; [lia | apply I | done | intros; naive_solver lia].
Qed.

Lemma unpin_ok s pid dirty : bpm_inv s -> clean_ok s pid dirty ->
  exists b s', UnpinPage pid dirty s = (Ok b, s') /\ bpm_inv s' /\ same_view s s' /\
    others_unchanged pid s s' /\ page_table s' = page_table s /\
    b = (0 <? pins s pid) /\ pins s' pid = Z.max 0 (pins s pid - 1) /\ (no_leak s -> no_leak s').
Proof.
  intros I Hclean. destruct (page_table s !! pid) as [f|] eqn:Ht; cycle 1.
  { exists false, s. unfold UnpinPage, bind, get. rewrite Ht.
    assert (pins s pid = 0) as -> by (unfold pins, resident; by rewrite Ht).
    split_and!; auto; [by split_and!|by split]. }
  destruct (table_frame s pid f I Ht) as (Hf & Hne & p & Hp & Hid).
  pose proof (resident_at _ _ _ _ I Ht Hp) as Hres.
  destruct (unpin_run s pid dirty f p I Ht Hp) as (r' & b & E & Hb & Hr & Hc & Hq).
  eexists _, _. split; [exact E|].
  destruct (inv_frame s I _ _ Hp) as (F1 & F2 & F3). destruct (F3 ltac:(congruence)) as (G1 & G2 & G3).
  rewrite Z2Nat.id in G2 by lia. pose proof (lookup_lt_Some _ _ _ Hp) as Hi. rewrite (inv_len s I) in Hi.
  match goal with |- bpm_inv ?s' /\ _ => set (s1 := s') end.
  match goal with _ := context [<[Z.to_nat f := ?x]> _] |- _ => set (p' := x) in * end.
  destruct (bpm_inv_in_place s s1 (Z.to_nat f) p p') as [I1 HR];
    subst s1; simpl; auto; try congruence.
  - intros g [Hg|[_ ->]]%Hq; [by apply (inv_queue s I) | lia].
  - intros g Hg. rewrite Hq, Z2Nat.id in * by lia. naive_solver.
  - subst p'. split_and!; simpl.
    + destruct (Z.leb_spec (pin_count p) 0); lia.
    + congruence.
    + intros _. rewrite Z2Nat.id by lia. split_and!; [lia|lia| |].
      * rewrite Hq, <- G2. destruct (Z.leb_spec (pin_count p) 0); naive_solver lia.
      * intros Hz [Hd1 Hd2]%orb_false_elim.
        destruct (Z.leb_spec (pin_count p) 0); [apply G3; [lia|done]|].
        rewrite Hid. apply Hclean; [done..|lia].
  - rewrite Hid in HR. split; [done|]. split; [split_and!; auto|split; [split|]].
    + intros q Hq0. unfold view. rewrite HR. case_decide; [subst q; by rewrite Hres | done].
    + intros q Hq0. unfold pins. by rewrite HR, decide_False.
    + intros q pq Hq0 Hq1 Hq2. by rewrite HR, decide_False.
    + unfold pins. rewrite HR, decide_True, Hres by done. simpl.
      split_and!; [done|done| |]; [destruct (Z.leb_spec (pin_count p) 0); lia|].
      intros Hl. eapply no_leak_update; [done..|simpl; congruence].
Qed.

(** ** Writing through a pinned page's pointer *)

Lemma write_data_ok s pid f x y : bpm_inv s -> held s pid f x ->
  exists s', write_data f y s = (Ok tt, s') /\ bpm_inv s' /\
    next_page_id (disk_manager s') = next_page_id (disk_manager s) /\ slot_num s' = slot_num s /\
    (forall q, 0 <= q -> view s' q = if decide (q = pid) then y else view s q) /\
    (forall q, pins s' q = pins s q) /\ page_table s' = page_table s /\
    others_unchanged pid s s' /\ held s' pid f y /\ (no_leak s -> no_leak s').
Proof.
  intros I (Ht & p & Hp & Hid & Hx & Hpin).
  destruct (table_frame s pid f I Ht) as (Hf & Hne & _).
  pose proof (resident_at _ _ _ _ I Ht Hp) as Hres.
  unfold write_data. erewrite bind_ok by (by apply page_at_ok).
  erewrite update_page_ok by exact Hp. eexists. split; [reflexivity|].
  destruct (inv_frame s I _ _ Hp) as (F1 & F2 & F3). destruct (F3 ltac:(congruence)) as (G1 & G2 & G3).
  match goal with |- bpm_inv ?s' /\ _ => set (s1 := s') end.
  destruct (bpm_inv_in_place s s1 (Z.to_nat f) p (set_data y p)) as [I1 HR];
    subst s1; simpl; auto; try congruence; eauto using inv_rep, inv_queue.
  { split_and!; simpl; [lia|congruence|]. intros _. split_and!; [lia|lia|done|lia]. }
  rewrite Hid in HR. split_and!; auto.
  - intros q Hq0. unfold view. rewrite HR. case_decide; done.
  - intros q. unfold pins. rewrite HR. case_decide; [subst q; by rewrite Hres | done].
  - split; [intros q Hq0; unfold pins; by rewrite HR, decide_False|].
    intros q pq Hq0 Hq1 Hq2. by rewrite HR, decide_False.
  - split; [done|]. eexists. simpl.
    rewrite list_lookup_insert_eq by (by eapply lookup_lt_Some). by split_and!.
  - intros Hl. eapply no_leak_update; [done..|simpl; congruence].
Qed.

(** ** NewPage *)

Lemma init_free_frame_ok s : bpm_inv s -> free_list s <> [] ->
  next_page_id (disk_manager s) < MAX_PAGES ->
  let pid := next_page_id (disk_manager s) in
  exists f s', init_free_frame s = (Ok (Some f), s') /\ bpm_inv s' /\
    next_page_id (disk_manager s') = pid + 1 /\ slot_num s' = slot_num s /\
    (forall q, 0 <= q -> view s' q = view s q) /\ view s pid = zero /\
    others_unchanged pid s s' /\ held s' pid f zero /\ pins s' pid = 1 /\
    (no_leak s -> no_leak s').
Proof.
  intros I Hfree Hmax pid. destruct (free_list s) as [|f rest] eqn:Hsnoc; [done|].
  assert (Hf : f ∈ free_list s) by (rewrite Hsnoc; set_solver).
  pose proof (inv_nodup s I) as Hnd. rewrite Hsnoc in Hnd. apply NoDup_cons in Hnd as [Hnin Hnd].
  apply (inv_free s I) in Hf as (Hf & p & Hp & Hid).
  destruct (inv_frame s I _ _ Hp) as (F1 & F2 & F3). destruct (F2 Hid) as [Hclean Hz].
  destruct (pin_spec f (replacer s) (inv_rep s I)) as (r' & E & Hr & Hq & Hc).
  pose proof (inv_disk s I) as [HL HM].
  assert (Hpid : 0 <= pid) by (subst pid; lia).
  assert (Hw : i32 (pid + 1) = pid + 1).
  { apply i32_small. subst pid. unfold MAX_PAGES, PAGE_SIZE in *.
    change (2 ^ 31 / 16384 - 1) with 131071 in *. lia. }
  assert (Ht : page_table s !! pid = None).
  { destruct (page_table s !! pid) as [g|] eqn:Eg; [|done]. exfalso.
    destruct (table_frame s pid g I Eg) as (_ & Hne & q & Hq1 & Hq2).
    destruct (inv_frame s I _ _ Hq1) as (_ & _ & G). destruct (G ltac:(congruence)). subst pid. lia. }
  assert (Hi : (Z.to_nat f < length (pages s))%nat) by (by eapply lookup_lt_Some).
  unfold init_free_frame, bind at 1, get. rewrite Hsnoc.
  erewrite bind_ok by (apply page_at_ok; [lia | exact Hp]).
  erewrite bind_ok by reflexivity.
  erewrite bind_ok by (apply update_page_ok; exact Hp).
  erewrite bind_ok by reflexivity.
  erewrite bind_ok by (apply on_replacer_ok; exact E).
  erewrite bind_ok by (apply update_page_ok; simpl; by rewrite list_lookup_insert_eq).
  erewrite bind_ok by reflexivity.
  eexists _, _. split; [reflexivity|]. simpl. rewrite list_insert_insert_eq. fold pid. rewrite Hw.
  set (p' := set_dirty false _).
  match goal with |- bpm_inv ?s' /\ _ => set (s1 := s') end.
  destruct (bpm_inv_update s s1 (Z.to_nat f) p p') as [I1 HR];
    subst s1; simpl; auto; rewrite ?Hq, ?Z2Nat.id in * by lia; try apply I.
  - intros g [_ Hg]%list_elem_of_filter. by apply (inv_queue s I).
  - intros g Hg. rewrite list_elem_of_filter. naive_solver.
  - subst pid. lia.
  - subst pid. lia.
  - intros g Hg Hne. rewrite Hsnoc. set_solver.
  - intros g Hg. assert (g ∈ free_list s) as Hg' by (rewrite Hsnoc; set_solver).
    apply (inv_free s I) in Hg'. lia.
  - split; [|unfold INVALID_PAGE_ID; lia]. set_solver.
  - intros q. rewrite Hid, decide_never, lookup_insert, (decide_valid q pid) by lia.
    destruct (decide (pid = q)) as [->|]; [by rewrite decide_True | by rewrite decide_False].
  - split_and!; simpl; [lia|unfold INVALID_PAGE_ID; lia|]. intros _. split_and!; [lia|subst pid; lia| |lia].
    rewrite Z2Nat.id, list_elem_of_filter by lia. split; [lia|naive_solver].
  - assert (Hres : resident s pid = None) by (unfold resident; by rewrite Ht).
    assert (HR' : forall q, resident _ q = if decide (q = pid) then Some p' else resident s q)
      by (intros q; rewrite HR, Hid, decide_never; simpl; rewrite (decide_valid q pid) by lia; done).
    clear HR.
    assert (Hv : view s pid = zero).
    { unfold view. rewrite Hres. unfold disk_page, load. rewrite lookup_ge_None_2 by (subst pid; lia). done. }
    split_and!; auto; [| | | |].
    + intros q Hq0. unfold view at 1. rewrite HR'. case_decide; [subst q; by rewrite Hv | done].
    + split; [intros q Hq0; unfold pins; by rewrite HR', decide_False|].
      intros q pq Hq0 Hq1 Hq2. rewrite HR', decide_False by done. split; [done|].
      simpl. by rewrite lookup_insert_ne.
    + split; [simpl; by rewrite lookup_insert_eq|]. exists p'. simpl.
      rewrite list_lookup_insert_eq by done. split_and!; [done..|lia].
    + unfold pins. by rewrite HR', decide_True.
    + intros Hl. eapply no_leak_update; [done..|simpl; unfold INVALID_PAGE_ID; lia].
Qed.

Lemma newpage_ok s : bpm_inv s -> next_page_id (disk_manager s) < MAX_PAGES ->
  let pid := next_page_id (disk_manager s) in
  exists r s', NewPage zero s = (Ok r, s') /\ bpm_inv s' /\ slot_num s' = slot_num s /\
    (forall q, 0 <= q -> view s' q = view s q) /\
    match r with
    | Some f => next_page_id (disk_manager s') = pid + 1 /\ view s pid = zero /\
        others_unchanged pid s s' /\ held s' pid f zero /\ pins s' pid = 1 /\
        (no_leak s -> no_leak s')
    | None => next_page_id (disk_manager s') = pid /\ exhausted s
    end.
Proof.
  intros I Hmax pid. unfold NewPage, bind at 1, get.
  destruct (bool_decide (free_list s = [])) eqn:Ef.
  - apply bool_decide_eq_true in Ef.
    pose proof (size_spec (replacer s) (inv_rep s I)) as Es.
    destruct (Z.eqb_spec (Z.of_nat (length (rep_queue (replacer s)))) 0) as [En|En].
    + erewrite bind_ok; cycle 1.
      { erewrite bind_ok by (apply on_replacer_ok; exact Es).
        rewrite (proj2 (Z.eqb_eq _ _) En). reflexivity. }
      simpl. eexists None, _. split; [reflexivity|].
      assert (set_replacer (replacer s) s = s) as -> by (by destruct s).
      split_and!; auto. split; [done|]. apply length_zero_iff_nil. lia.
    + destruct (evict_victim_ok s I Ef) as (b & s1 & E & I1 & (V1a & V1b & V1c) & K1 & P1 & N1 & L1 & Hb).
      erewrite bind_ok; cycle 1.
      { erewrite bind_ok by (apply on_replacer_ok; exact Es).
        rewrite (proj2 (Z.eqb_neq _ _) En).
        assert (set_replacer (replacer s) s = s) as -> by (by destruct s). exact E. }
      destruct b; simpl; [|exfalso; destruct Hb as [Hb _]; apply En; rewrite Hb; done].
      rewrite <- V1a in Hmax. pose proof (init_free_frame_ok s1 I1 Hb Hmax) as Hnew. cbv zeta in Hnew.
      rewrite V1a in Hnew. destruct Hnew as (f & s2 & E2 & I2 & A1 & A2 & A3 & A4 & A5 & A6 & A7 & A8).
      assert (0 <= pid) by (pose proof (inv_disk s I); subst pid; lia).
      exists (Some f), s2. split_and!; auto; [congruence | | |].
      * intros q Hq. by rewrite A3, V1c.
      * rewrite <- V1c by done. done.
      * eapply others_after_evict; eauto.
  - apply bool_decide_eq_false in Ef. rewrite bind_ret. simpl.
    destruct (init_free_frame_ok s I Ef Hmax) as (f & s2 & E2 & I2 & A1 & A2 & A3 & A4 & A5 & A6 & A7 & A8).
    exists (Some f), s2. split_and!; auto.
Qed.

(** ** DeletePage *)

(** The page's frame is freed and zeroed even when the page is pinned; what
    the file held at that id is left there. *)
Lemma delete_ok s pid : bpm_inv s -> 0 <= pid ->
  exists s', DeletePage zero pid s = (Ok true, s') /\ bpm_inv s' /\
    disk_manager s' = disk_manager s /\ slot_num s' = slot_num s /\
    (forall q, resident s' q = if decide (q = pid) then None else resident s q) /\
    page_table s' = delete pid (page_table s) /\
    (forall f p, page_table s !! pid = Some f -> pages s !! Z.to_nat f = Some p ->
       pages s' !! Z.to_nat f = Some (mkPage zero INVALID_PAGE_ID (pin_count p) false (rwlatch p))).
Proof.
  intros I Hpid. destruct (page_table s !! pid) as [f|] eqn:Ht; cycle 1.
  { exists s. unfold DeletePage, bind, get. rewrite Ht. split_and!; auto.
    - intros q. case_decide; [subst q; unfold resident; by rewrite Ht | done].
    - by rewrite delete_id.
    - by intros. }
  destruct (table_frame s pid f I Ht) as (Hf & Hne & p & Hp & Hid).
  destruct (unpin_spec f (replacer s) (inv_rep s I)) as (r' & E & Hr & Hq & Hc).
  unfold DeletePage, bind at 1, get. rewrite Ht.
  erewrite bind_ok by (by apply page_at_ok).
  erewrite bind_ok by reflexivity.
  erewrite bind_ok by (apply update_page_ok; exact Hp).
  erewrite bind_ok by reflexivity.
  erewrite bind_ok by (apply on_replacer_ok; exact E).
  erewrite bind_ok by reflexivity.
  eexists. split; [reflexivity|]. simpl.
  pose proof (lookup_lt_Some _ _ _ Hp) as Hi. rewrite (inv_len s I) in Hi.
  destruct (inv_frame s I _ _ Hp) as (F1 & F2 & F3).
  assert (Hnf : f ∉ free_list s).
  { intros Hin. apply (inv_free s I) in Hin as (_ & q & Hq1 & Hq2). congruence. }
  assert (Hsub : forall g, g ∈ rep_queue r' -> g ∈ rep_queue (replacer s) \/ g = f).
  { intros g. rewrite Hq. repeat case_match; set_solver. }
  assert (Hsup : forall g, g ∈ rep_queue (replacer s) -> g ∈ rep_queue r').
  { intros g. rewrite Hq. repeat case_match; set_solver. }
  match goal with |- bpm_inv ?s' /\ _ => set (s1 := s') end.
  destruct (bpm_inv_update s s1 (Z.to_nat f) p (mkPage zero INVALID_PAGE_ID (pin_count p) false (rwlatch p))) as [I1 HR];
    subst s1; simpl; auto; rewrite ?Z2Nat.id by lia.
  - intros g Hg. destruct (Hsub g Hg) as [Hg'| ->]; [by apply (inv_queue s I) | lia].
  - naive_solver.
  - apply I.
  - done.
  - apply NoDup_app. split_and!; [apply I | set_solver | apply NoDup_singleton].
  - set_solver.
  - intros g [Hg|Hg]%elem_of_app; [apply (inv_free s I) in Hg; lia | set_solver by lia].
  - set_solver.
  - intros q. rewrite decide_never, Hid, lookup_delete, decide_valid by lia.
    destruct (decide (pid = q)) as [->|]; [by rewrite decide_True | by rewrite decide_False].
  - done.
  - split_and!; simpl; [lia | done | done].
  - split_and!; auto; [intros q; by rewrite HR, decide_never, Hid, decide_valid by lia|].
    intros g pg [= <-] Hg. rewrite Hp in Hg. injection Hg as <-.
    rewrite list_lookup_insert_eq by (rewrite (inv_len s I); lia). done.
Qed.

(** ** FlushPage and FlushAllPages *)

Lemma flush_one s pid f : bpm_inv s -> page_table s !! pid = Some f ->
  exists p s', pages s !! Z.to_nat f = Some p /\
    (forall (k : unit -> M BPM unit), bind (page_at f) (fun p => bind (on_disk (WritePage zero pid (data p)))
       (fun _ => bind (update_page f (set_dirty false)) k)) s = k tt s') /\
    bpm_inv s' /\ same_view s s' /\ (forall q, pins s' q = pins s q) /\
    page_table s' = page_table s /\ free_list s' = free_list s /\ replacer s' = replacer s /\
    (forall q, 0 <= q -> disk_page (disk_manager s') q =
       if decide (q = pid) then view s pid else disk_page (disk_manager s) q) /\
    (no_leak s -> no_leak s').
Proof.
  intros I Ht. destruct (table_frame s pid f I Ht) as (Hf & Hne & p & Hp & Hid).
  destruct (inv_frame s I _ _ Hp) as (F1 & F2 & F3). destruct (F3 ltac:(congruence)) as (G1 & G2 & G3).
  pose proof (resident_at _ _ _ _ I Ht Hp) as Hres. pose proof (inv_disk s I) as [HL HM].
  set (d' := mkDisk (store zero (Z.to_nat pid) (data p) (file (disk_manager s)))
               (next_page_id (disk_manager s))).
  set (p' := set_dirty false p).
  exists p, (set_pages (<[Z.to_nat f := p']> (pages s)) (set_disk d' s)). split; [done|].
  assert (Hd : forall q, 0 <= q -> disk_page d' q =
            if decide (q = pid) then data p else disk_page (disk_manager s) q)
    by (intros q Hq; apply disk_page_write; lia).
  split.
  { intros k. erewrite bind_ok by (by apply page_at_ok).
    erewrite bind_ok; cycle 1.
    { unfold on_disk, WritePage. destruct (Z.ltb_spec pid 0); [lia|reflexivity]. }
    erewrite bind_ok by (apply update_page_ok; exact Hp). reflexivity. }
  match goal with |- bpm_inv ?s' /\ _ => set (s1 := s') end.
  destruct (bpm_inv_update s s1 (Z.to_nat f) p p') as [I1 HR];
    subst s1; simpl; auto; rewrite ?Z2Nat.id by lia; eauto using inv_rep, inv_queue, inv_nodup.
  - rewrite length_store. lia.
  - done.
  - intros q Hq0 Hq1 _. rewrite Hd, decide_False by congruence. done.
  - intros g Hg. apply (inv_free s I) in Hg. lia.
  - rewrite (inv_free s I). naive_solver lia.
  - intros q. rewrite Hid, decide_valid by lia. case_decide; [by subst q|].
    rewrite decide_False by naive_solver. done.
  - congruence.
  - split_and!; simpl; [lia|congruence|]. intros _. rewrite Hid in *.
    split_and!; [lia|lia|done|]. intros _ _. by rewrite Hd, decide_True by lia.
  - assert (HR' : forall q, resident _ q = if decide (q = pid) then Some p' else resident s q)
      by (intros q; rewrite HR; simpl; rewrite Hid, !decide_valid by lia; by repeat case_decide).
    assert (Hv : view s pid = data p) by (by apply view_resident).
    split_and!; auto.
    + split_and!; auto. intros q Hq0. unfold view. rewrite HR'.
      case_decide; [subst q; by rewrite Hres|]. simpl. rewrite Hd, decide_False by done. done.
    + intros q. unfold pins. rewrite HR'. case_decide; [subst q; by rewrite Hres | done].
    + rewrite Hv. exact Hd.
    + intros Hl. eapply no_leak_update; [done..|simpl; congruence].
Qed.

Lemma flush_entries_ok l s : bpm_inv s ->
  (forall e, e ∈ l -> page_table s !! e.1 = Some e.2) ->
  exists s', flush_entries zero l s = (Ok tt, s') /\ bpm_inv s' /\ same_view s s' /\
    (forall q, pins s' q = pins s q) /\ page_table s' = page_table s /\
    (forall q, 0 <= q -> disk_page (disk_manager s') q =
       if decide (q ∈ l.*1) then view s q else disk_page (disk_manager s) q) /\
    (no_leak s -> no_leak s').
Proof.
  revert s; induction l as [|[pid f] l IH]; intros s I Hl.
  { exists s. split_and!; auto; by split_and!. }
  destruct (flush_one s pid f I) as (p & s1 & Hp & E1 & I1 & V1 & P1 & T1 & _ & _ & D1 & L1).
  { exact (Hl (pid, f) ltac:(set_solver)). }
  destruct (IH s1 I1) as (s2 & E2 & I2 & V2 & P2 & T2 & D2 & L2).
  { intros e He. rewrite T1. apply Hl. set_solver. }
  exists s2. simpl flush_entries. rewrite E1, E2.
  split_and!; auto; [by eapply same_view_trans | | congruence|].
  - intros q. by rewrite P2.
  - intros q Hq. rewrite D2, D1 by done. destruct V1 as (_ & _ & V1). rewrite V1 by done. simpl.
    destruct (decide (q ∈ l.*1)); [by rewrite decide_True by set_solver|].
    destruct (decide (q = pid)) as [->|]; [by rewrite decide_True by set_solver|].
    by rewrite decide_False by set_solver.
Qed.

Lemma flush_all_ok s : bpm_inv s ->
  exists s', FlushAllPages zero s = (Ok tt, s') /\ bpm_inv s' /\ same_view s s' /\
    (forall q, pins s' q = pins s q) /\
    (forall q, 0 <= q -> disk_page (disk_manager s') q = view s q) /\
    (no_leak s -> no_leak s').
Proof.
  intros I. unfold FlushAllPages, bind, get.
  destruct (flush_entries_ok (map_to_list (page_table s)) s I) as (s' & E & I' & V & P & T & Hd & L).
  { intros [pid f] He. by apply elem_of_map_to_list. }
  exists s'. split_and!; auto. intros q Hq. rewrite Hd by done. case_decide as Hin; [done|].
  unfold view, resident. destruct (page_table s !! q) as [f|] eqn:Et; [|done].
  exfalso. apply Hin, list_elem_of_fmap. exists (q, f). split; [done|]. by apply elem_of_map_to_list.
Qed.

(** ** A new pool on a file *)

Lemma bpm_new_inv n f r : rep_inv r -> rep_queue r = [] -> rep_cap r = n ->
  Z.of_nat (length f) <= MAX_PAGES ->
  let d := DiskManager_open f in
  bpm_inv (BPM_new zero n d r) /\ next_page_id d = Z.of_nat (length f) /\
  (forall q, view (BPM_new zero n d r) q = default zero (f !! Z.to_nat q)) /\
  (forall q, pins (BPM_new zero n d r) q = 0) /\ no_leak (BPM_new zero n d r).
Proof.
  intros Hr Hq Hc Hlen d.
  assert (Hnext : next_page_id d = Z.of_nat (length f)).
  { subst d. unfold DiskManager_open, MAX_PAGES, PAGE_SIZE in *.
    change (2 ^ 31 / 16384 - 1) with 131071 in *. rewrite i32_small by lia.
    simpl. destruct (Z.ltb_spec 0 (Z.of_nat (length f) * 16384)).
    - by rewrite Z.div_mul by lia.
    - lia. }
  assert (Hrep : forall i p, replicate n (Page_new zero) !! i = Some p -> p = Page_new zero /\ (i < n)%nat)
    by (intros i p Hp; apply lookup_replicate_1 in Hp; done).
  assert (Hfile : file d = f) by reflexivity. clearbody d.
  split_and!; auto; [|intros q; unfold view, resident; simpl; rewrite lookup_empty;
    unfold disk_page; by rewrite Hfile
    | intros i p Hp _; simpl in Hp; by apply Hrep in Hp as [-> _]].
  constructor; simpl; auto.
  - apply length_replicate.
  - rewrite Hnext, Hfile. lia.
  - rewrite Hq. set_solver.
  - apply NoDup_fmap_2; [apply _ | apply NoDup_seq].
  - intros g. rewrite list_elem_of_fmap. split.
    + intros (i & -> & Hi). apply elem_of_seq in Hi. split; [lia|].
      exists (Page_new zero). rewrite Nat2Z.id. split; [apply lookup_replicate_2; lia | done].
    + intros (Hg & p & Hp & _). apply Hrep in Hp as [_ Hi]. exists (Z.to_nat g).
      rewrite elem_of_seq. lia.
  - intros pid g. rewrite lookup_empty. split; [done|]. intros (_ & Hne & p & Hp & Hid).
    apply Hrep in Hp as [-> _]. simpl in Hid. congruence.
  - intros i p Hp. apply Hrep in Hp as [-> _]. split_and!; simpl; [lia|done|done].
Qed.

(** ** Client sessions

    The way the components use the pool: bring a page in, read or replace its
    contents, release it, saying whether it was changed. *)

Inductive client_op := CRead (pid : Z) | CWrite (pid : Z) (x : D) | CNew | CFlush.

Definition with_page (pid : Z) (dirty : bool) {A} (body : Z -> M BPM A) : M BPM A :=
  let* r := FetchPage zero pid in
  match r with
  | None => fail (Undefined "null page")
  | Some f => let* a := body f in let* _ := UnpinPage pid dirty in ret a
  end.

Definition client_exec (op : client_op) : M BPM (option D) :=
  match op with
  | CRead pid => with_page pid false (fun f => let* x := GetData f in ret (Some x))
  | CWrite pid x => with_page pid true (fun f => write_data f x;;; ret None)
  | CNew =>
      let* r := NewPage zero in
      match r with
      | None => fail (Undefined "null page")
      | Some f => let* pid := GetPageId f in let* _ := UnpinPage pid true in ret None
      end
  | CFlush => FlushAllPages zero;;; ret None
  end.

Fixpoint client_run (ops : list client_op) : M BPM (list (option D)) :=
  match ops with
  | [] => ret []
  | op :: ops => let* o := client_exec op in let* os := client_run ops in ret (o :: os)
  end.

(** The specification: a map from page ids to contents, and a counter. *)
Definition spec_state : Type := (Z -> D) * Z.

Definition spec_exec (op : client_op) (m : spec_state) : option D * spec_state :=
  match op with
  | CRead pid => (Some (m.1 pid), m)
  | CWrite pid x => (None, (fun q => if decide (q = pid) then x else m.1 q, m.2))
  | CNew => (None, (m.1, m.2 + 1))
  | CFlush => (None, m)
  end.

Definition spec_valid (op : client_op) (m : spec_state) : Prop :=
  match op with
  | CRead pid | CWrite pid _ => 0 <= pid < m.2
  | CNew => m.2 < MAX_PAGES
  | CFlush => True
  end.

Fixpoint spec_run (ops : list client_op) (m : spec_state) : list (option D) * spec_state :=
  match ops with
  | [] => ([], m)
  | op :: ops => let '(o, m1) := spec_exec op m in
                 let '(os, m2) := spec_run ops m1 in (o :: os, m2)
  end.

Fixpoint spec_run_valid (ops : list client_op) (m : spec_state) : Prop :=
  match ops with
  | [] => True
  | op :: ops => spec_valid op m /\ spec_run_valid ops (spec_exec op m).2
  end.

(** Between operations: the invariant, nothing pinned, and the pool shows what
    the specification holds. *)
Definition session_inv s (m : spec_state) : Prop :=
  bpm_inv s /\ no_leak s /\ (0 < slot_num s)%nat /\ (forall q, pins s q = 0) /\
  next_page_id (disk_manager s) = m.2 /\ (forall q, 0 <= q -> view s q = m.1 q).

Lemma session_not_exhausted s : bpm_inv s -> (0 < slot_num s)%nat ->
  (forall q, pins s q = 0) -> ~ exhausted s.
Proof.
  intros I Hn Hp Hex. pose proof (exhausted_all_pinned s I Hex) as Hall.
  rewrite <- (inv_len s I) in Hn. destruct (lookup_lt_is_Some_2 _ _ Hn) as [p Hp0].
  destruct (decide (page_id p = INVALID_PAGE_ID)) as [E|E].
  - assert (0 ∈ free_list s) as Hin by (apply (inv_free s I); split; [lia|eauto]).
    destruct Hex as [Hf _]. rewrite Hf in Hin. set_solver.
  - specialize (Hp (page_id p)). unfold pins in Hp.
    rewrite (proj2 (resident_Some s (page_id p) p I)) in Hp by eauto.
    specialize (Hall _ _ Hp0). lia.
Qed.

(** The pins of every page after a fetch-and-release bracket. *)
Lemma pins_other_zero s s' pid : others_unchanged pid s s' ->
  (forall q, pins s q = 0) -> forall q, q <> pid -> pins s' q = 0.
Proof. intros [H _] H0 q Hq. by rewrite H, H0. Qed.

Lemma held_pins s pid f x : bpm_inv s -> held s pid f x ->
  exists p, resident s pid = Some p /\ data p = x /\ pins s pid = pin_count p /\ 0 < pin_count p.
Proof.
  intros I (Ht & p & Hp & Hid & Hx & Hpin). exists p.
  pose proof (resident_at _ _ _ _ I Ht Hp) as Hr. unfold pins. by rewrite Hr.
Qed.

(** A bracket whose body leaves [y] in the page and releases it, as dirty
    unless [y] is what was there. *)
Lemma with_page_ok {A} s m pid dirty (body : Z -> M BPM A) a y :
  session_inv s m -> 0 <= pid < m.2 ->
  (forall s1 f, bpm_inv s1 -> held s1 pid f (m.1 pid) -> exists s2, body f s1 = (Ok a, s2) /\ bpm_inv s2 /\
     next_page_id (disk_manager s2) = next_page_id (disk_manager s1) /\ slot_num s2 = slot_num s1 /\
     (forall q, 0 <= q -> view s2 q = if decide (q = pid) then y else view s1 q) /\
     (forall q, pins s2 q = pins s1 q) /\ (no_leak s1 -> no_leak s2) /\
     (dirty = false -> s2 = s1)) ->
  exists s', with_page pid dirty body s = (Ok a, s') /\
    session_inv s' ((fun q => if decide (q = pid) then y else m.1 q), m.2).
Proof.
  intros (I & L & Hn & HP & HX & HV) Hpid Hbody. rewrite <- HX in Hpid.
  destruct (fetch_ok s pid I Hpid) as (r & s1 & E1 & I1 & (V1a & V1b & V1c) & Hr).
  destruct r as [f|]; [|destruct (session_not_exhausted s I Hn HP Hr)].
  destruct Hr as (O1 & H1 & L1 & C1). specialize (C1 (HP pid)). destruct (L1 L) as [L1' P1]. clear L1. rewrite HP in P1.
  assert (P1o : forall q, q <> pid -> pins s1 q = 0) by (intros q Hq; destruct O1 as [-> _]; auto).
  rewrite HV in H1 by lia.
  destruct (Hbody s1 f I1 H1) as (s2 & E2 & I2 & N2 & S2 & V2 & P2 & L2 & D2).
  destruct (unpin_ok s2 pid dirty I2) as (b & s3 & E3 & I3 & (V3a & V3b & V3c) & O3 & T3 & _ & P3 & L3).
  { intros p Hres Hd Hdirty Hp. rewrite (D2 Hdirty) in *.
    by apply C1. }
  exists s3. unfold with_page. rewrite (bind_ok _ _ _ _ _ E1), (bind_ok _ _ _ _ _ E2).
  erewrite bind_ok by exact E3. split; [done|].
  split_and!; auto; simpl; [lia | | congruence |].
  - intros q. destruct (decide (q = pid)) as [->|Hq].
    + rewrite P3, P2, P1. done.
    + destruct O3 as [-> _]; [|done]. rewrite P2. auto.
  - intros q Hq. rewrite V3c, V2, V1c by done. case_decide; auto.
Qed.

Lemma client_exec_ok s m op : session_inv s m -> spec_valid op m ->
  exists s', client_exec op s = (Ok (spec_exec op m).1, s') /\ session_inv s' (spec_exec op m).2.
Proof.
  intros HS Hv. destruct op as [pid|pid x| |]; simpl in *.
  - destruct (with_page_ok s m pid false (fun f => let* x := GetData f in ret (Some x))
                (Some (m.1 pid)) (m.1 pid) HS Hv) as (s' & E & I').
    { intros s1 f I1 H1. exists s1. destruct H1 as (Ht & p & Hp & Hid & Hx & Hpin).
      destruct (table_frame s1 pid f I1 Ht) as (Hf & _).
      split; [unfold bind, GetData, bind; rewrite (page_at_ok _ _ _ Hf Hp), Hx; done|].
      split_and!; auto. intros q Hq. case_decide; [subst q|done].
      rewrite (view_resident _ _ _ (resident_at _ _ _ _ I1 Ht Hp)). done. }
    exists s'. split; [done|]. destruct I' as (J1 & J2 & J3 & J4 & J5 & J6).
    split_and!; auto. intros q Hq. rewrite J6 by done. simpl. case_decide; by subst.
  - apply (with_page_ok s m pid true _ None x HS Hv). intros s1 f I1 H1.
    destruct (write_data_ok s1 pid f _ x I1 H1) as (s2 & E & J1 & J2 & J3 & J4 & J5 & J6 & J7 & J8 & J9).
    exists s2. rewrite (bind_ok _ _ _ _ _ E). split_and!; auto. discriminate.
  - destruct HS as (I & L & Hn & HP & HX & HV). rewrite <- HX in Hv.
    destruct (newpage_ok s I Hv) as (r & s1 & E1 & I1 & S1 & V1 & Hr). cbv zeta in Hr.
    destruct r as [f|]; [|destruct Hr as [_ Hr]; destruct (session_not_exhausted s I Hn HP Hr)].
    destruct Hr as (N1 & Z1 & O1 & H1 & P1 & L1).
    rewrite (bind_ok _ _ _ _ _ E1). pose proof H1 as (Ht & p & Hp & Hid & Hx & Hpin).
    destruct (table_frame _ _ _ I1 Ht) as (Hf & _).
    erewrite bind_ok by (unfold GetPageId; erewrite bind_ok by (by apply page_at_ok); reflexivity).
    rewrite Hid. destruct (unpin_ok s1 (next_page_id (disk_manager s)) true I1)
      as (b & s3 & E3 & I3 & (V3a & V3b & V3c) & O3 & T3 & _ & P3 & L3); [intros ? ? ? ?; discriminate|].
    erewrite bind_ok by exact E3. exists s3. split; [done|].
    split_and!; auto; simpl; [lia | | congruence |].
    + intros q. destruct (decide (q = next_page_id (disk_manager s))) as [->|Hq].
      * rewrite P3, P1. done.
      * destruct O3 as [-> _]; [|done]. destruct O1 as [-> _]; auto.
    + intros q Hq. rewrite V3c, V1 by done. auto.
  - destruct HS as (I & L & Hn & HP & HX & HV).
    destruct (flush_all_ok s I) as (s' & E & I' & (V1 & V2 & V3) & P & Hd & L').
    exists s'. rewrite (bind_ok _ _ _ _ _ E). split; [done|].
    split_and!; auto; [lia | | congruence |]; intros q; [by rewrite P|]. intros Hq. rewrite V3; auto.
Qed.

Lemma client_run_ok ops s m : session_inv s m -> spec_run_valid ops m ->
  exists s', client_run ops s = (Ok (spec_run ops m).1, s') /\ session_inv s' (spec_run ops m).2.
Proof.
  revert s m; induction ops as [|op ops IH]; intros s m HS Hv; [by exists s|].
  destruct Hv as [Hv1 Hv2]. destruct (client_exec_ok s m op HS Hv1) as (s1 & E1 & I1).
  destruct (IH s1 _ I1 Hv2) as (s2 & E2 & I2). exists s2. simpl.
  rewrite (bind_ok _ _ _ _ _ E1), (bind_ok _ _ _ _ _ E2).
  destruct (spec_exec op m) as [o m1]. simpl in *. by destruct (spec_run ops m1).
Qed.

End Spec.

(** ** Properties *)

(** A pool opened with the program's replacer starts in the invariant. *)
Lemma open_inv {D} (zero : D) n f : Z.of_nat (length f) <= MAX_PAGES ->
  let d := DiskManager_open f in
  let s := BPM_new zero n d (LRUReplacer.new n) in
  bpm_inv zero s /\ next_page_id d = Z.of_nat (length f) /\
  (forall q, view zero s q = default zero (f !! Z.to_nat q)) /\
  (forall q, pins s q = 0) /\ no_leak s.
Proof.
  pose proof (LRUReplacer.lru_new_inv n) as Hr.
  exact (bpm_new_inv zero n f (LRUReplacer.new n) Hr eq_refl eq_refl).
Qed.

(** C10. The buffer pool refines a map from page ids to contents: a pool of at
    least one frame, opened on any database file below 2 GB with the LRU
    replacer, answers every sequence of reads, writes, allocations and flushes
    of allocated pages as the map does, whatever the order in which pages are
    evicted, written back and read again, and never fails. *)
Theorem pool_refines_page_map {D} (zero : D) (n : nat) (f : list D) (ops : list client_op) :
  (0 < n)%nat -> Z.of_nat (length f) <= MAX_PAGES ->
  let m0 := (fun q => default zero (f !! Z.to_nat q), Z.of_nat (length f)) in
  spec_run_valid ops m0 ->
  exists s', client_run zero ops (BPM_new zero n (DiskManager_open f) (LRUReplacer.new n)) =
             (Ok (spec_run ops m0).1, s').
Proof.
  intros Hn Hf m0 Hv.
  destruct (open_inv zero n f Hf)
    as (I & Hx & Hview & Hpins & Hl).
  destruct (client_run_ok zero ops _ m0 ltac:(split_and!; eauto) Hv) as (s' & E & _). eauto.
Qed.

(** One frame, three new pages, interleaved writes and reads: every access
    evicts. *)
Lemma pool_refines_page_map_witness :
  exists s', client_run 0 [CNew; CNew; CWrite 0 7; CWrite 1 8; CRead 0; CRead 1]
               (BPM_new 0 1 (DiskManager_open []) (LRUReplacer.new 1)) =
             (Ok [None; None; None; None; Some 7; Some 8], s').
Proof.
  apply (pool_refines_page_map 0 1 [] [CNew; CNew; CWrite 0 7; CWrite 1 8; CRead 0; CRead 1]);
    [lia | vm_compute; discriminate | vm_compute; intuition discriminate].
Defined.

(** Durability of a flush: after [FlushAllPages] a new pool opened on the
    file shows, at every page id, what the old pool showed. *)
Theorem flush_then_reopen {D} (zero : D) (s : @BufferPoolManager D LRUReplacer.LRUReplacer) (n : nat) :
  bpm_inv zero s ->
  exists s1, FlushAllPages zero s = (Ok tt, s1) /\
    let s2 := BPM_new zero n (DiskManager_open (file (disk_manager s1))) (LRUReplacer.new n) in
    bpm_inv zero s2 /\ forall q, 0 <= q -> view zero s2 q = view zero s q.
Proof.
  intros I. destruct (flush_all_ok zero s I) as (s1 & E & I1 & _ & _ & Hd & _).
  exists s1. split; [done|]. pose proof (inv_disk zero s1 I1).
  destruct (open_inv zero n (file (disk_manager s1)) ltac:(lia)) as (I2 & _ & Hv & _).
  split; [done|]. intros q Hq. rewrite Hv, <- Hd by done. reflexivity.
Qed.

Lemma flush_then_reopen_witness :
  let s := BPM_new 0 2 (DiskManager_open [5; 6]) (LRUReplacer.new 2) in
  exists s1, FlushAllPages 0 s = (Ok tt, s1) /\
    let s2 := BPM_new 0 3 (DiskManager_open (file (disk_manager s1))) (LRUReplacer.new 3) in
    bpm_inv 0 s2 /\ forall q, 0 <= q -> view 0 s2 q = view 0 s q.
Proof.
  apply (flush_then_reopen 0 (BPM_new 0 2 (DiskManager_open [5; 6]) (LRUReplacer.new 2)) 3).
  apply (open_inv 0 2 [5; 6]).
  vm_compute. discriminate.
Defined.

(** [FetchPage] of an allocated page always returns: a pinned frame whose
    contents are what the page held, every other page and every pinned frame
    untouched; or [nullptr], and then every frame of the pool is pinned. *)
Theorem FetchPage_spec {D} (zero : D) {R} `{ReplacerSpec R} (s : @BufferPoolManager D R) (pid : Z) :
  bpm_inv zero s -> 0 <= pid < next_page_id (disk_manager s) ->
  exists r s', FetchPage zero pid s = (Ok r, s') /\ bpm_inv zero s' /\ same_view zero s s' /\
    match r with
    | Some f => others_unchanged pid s s' /\ held s' pid f (view zero s pid)
    | None => all_pinned s
    end.
Proof.
  intros I Hpid. destruct (fetch_ok zero s pid I Hpid) as (r & s' & E & I' & V & Hr).
  exists r, s'. split_and!; auto. destruct r; [naive_solver | by eapply exhausted_all_pinned].
Qed.

Lemma FetchPage_spec_witness :
  let s := BPM_new 0 1 (DiskManager_open [5; 6]) (LRUReplacer.new 1) in
  exists r s', FetchPage 0 1 s = (Ok r, s') /\ bpm_inv 0 s' /\ same_view 0 s s' /\
    match r with
    | Some f => others_unchanged 1 s s' /\ held s' 1 f (view 0 s 1)
    | None => all_pinned s
    end.
Proof.
  apply (FetchPage_spec 0 (BPM_new 0 1 (DiskManager_open [5; 6]) (LRUReplacer.new 1)) 1).
  - apply (open_inv 0 1 [5; 6]).
    vm_compute. discriminate.
  - vm_compute. split; [discriminate | reflexivity].
Defined.

(** [NewPage] on a pool below the size limit returns: the next page id,
    zeroed and pinned once in its frame, no other page changed; or [nullptr],
    and then every frame is pinned and no id was consumed. *)
Theorem NewPage_spec {D} (zero : D) {R} `{ReplacerSpec R} (s : @BufferPoolManager D R) :
  bpm_inv zero s -> next_page_id (disk_manager s) < MAX_PAGES ->
  let pid := next_page_id (disk_manager s) in
  exists r s', NewPage zero s = (Ok r, s') /\ bpm_inv zero s' /\
    (forall q, 0 <= q -> view zero s' q = view zero s q) /\
    match r with
    | Some f => next_page_id (disk_manager s') = pid + 1 /\ others_unchanged pid s s' /\
        held s' pid f zero /\ pins s' pid = 1
    | None => next_page_id (disk_manager s') = pid /\ all_pinned s
    end.
Proof.
  intros I Hmax pid. destruct (newpage_ok zero s I Hmax) as (r & s' & E & I' & _ & V & Hr).
  exists r, s'. split_and!; auto. cbv zeta in Hr.
  destruct r; [naive_solver | destruct Hr; split; [done | by eapply exhausted_all_pinned]].
Qed.

Lemma NewPage_spec_witness :
  let s := BPM_new 0 1 (DiskManager_open [5; 6]) (LRUReplacer.new 1) in
  exists r s', NewPage 0 s = (Ok r, s') /\ bpm_inv 0 s' /\
    (forall q, 0 <= q -> view 0 s' q = view 0 s q) /\
    match r with
    | Some f => next_page_id (disk_manager s') = 2 + 1 /\ others_unchanged 2 s s' /\
        held s' 2 f 0 /\ pins s' 2 = 1
    | None => next_page_id (disk_manager s') = 2 /\ all_pinned s
    end.
Proof.
  apply (NewPage_spec 0 (BPM_new 0 1 (DiskManager_open [5; 6]) (LRUReplacer.new 1))).
  - apply (open_inv 0 1 [5; 6]).
    vm_compute. discriminate.
  - vm_compute. reflexivity.
Defined.

(** [DeletePage] does not refuse a pinned page, as its comment says it
    should: it returns [true], and the frame goes to the free list still
    carrying its pin count. *)
Theorem DeletePage_pinned {D} (zero : D) {R} `{ReplacerSpec R} (s : @BufferPoolManager D R) (pid f : Z) (x : D) :
  bpm_inv zero s -> 0 <= pid -> held s pid f x ->
  exists s' p, DeletePage zero pid s = (Ok true, s') /\ bpm_inv zero s' /\
    f ∈ free_list s' /\ pages s' !! Z.to_nat f = Some p /\
    pin_count p = pins s pid /\ 0 < pin_count p.
Proof.
  intros I Hpid Hh. pose proof Hh as (Ht & p & Hp & Hid & _ & Hpin).
  destruct (delete_ok zero s pid I Hpid) as (s' & E & I' & _ & _ & _ & _ & Hf).
  specialize (Hf f p Ht Hp). destruct (table_frame zero s pid f I Ht) as (Hf0 & _).
  destruct (held_pins zero s pid f x I Hh) as (p0 & Hr & _ & Hp0 & _).
  rewrite (resident_at zero s pid f p I Ht Hp) in Hr. injection Hr as <-.
  eexists s', _. split_and!; [exact E | exact I' | | exact Hf | done | done].
  apply (inv_free zero s' I'). eauto.
Qed.

Lemma DeletePage_pinned_witness :
  let s := (NewPage 0 (BPM_new 0 1 (DiskManager_open []) (LRUReplacer.new 1))).2 in
  exists s' p, DeletePage 0 0 s = (Ok true, s') /\ bpm_inv 0 s' /\
    0 ∈ free_list s' /\ pages s' !! Z.to_nat 0 = Some p /\
    pin_count p = pins s 0 /\ 0 < pin_count p.
Proof.
  apply (DeletePage_pinned 0 (NewPage 0 (BPM_new 0 1 (DiskManager_open []) (LRUReplacer.new 1))).2 0 0 0).
  - destruct (newpage_ok 0 (BPM_new 0 1 (DiskManager_open []) (LRUReplacer.new 1)))
      as (r & s' & E & I & _); [|reflexivity|rewrite E; exact I].
    apply (open_inv 0 1 []).
    vm_compute. discriminate.
  - lia.
  - split; [reflexivity|]. eexists. vm_compute. split_and!; reflexivity.
Defined.
