(* ===== verification/PoolHold.v ===== *)
(** * Reasoning about clients of the buffer pool

    The state of a pool as one thread working on it sees it: the contents of
    every page, the pages it holds pinned with their frames and pin counts,
    the pinned pages it has written to and not yet released as dirty, and the
    latches it holds. Each pool operation is one step on this description; the
    proofs about the tree and the tuple store use only these steps. *)

From stdpp Require Import functions.
From S2P Require Import Prelude KeyCodec Replacer BufferPool BufferPoolSpec.

Section Hold.

Context {D : Type} (zero : D) {R : Type} `{!IReplacer R} `{!ReplacerSpec R}.

Abbreviation BPM := (@BufferPoolManager D R).
Implicit Types (s : BPM) (p : @Page D).

(** ** What the operations leave alone *)

Definition keeps {A B} (obs : BPM -> B) (m : M BPM A) : Prop := forall s, obs (m s).2 = obs s.

Lemma keeps_bind {A B C} (obs : BPM -> C) (m : M BPM A) (f : A -> M BPM B) :
  keeps obs m -> (forall a, keeps obs (f a)) -> keeps obs (bind m f).
Proof.
  intros Hm Hf s. unfold bind. specialize (Hm s). destruct (m s) as [[a|e] s1]; simpl in *; [|done].
  by rewrite Hf.
Qed.

Definition latches s : list Latch.ReaderWriterLatch := rwlatch <$> pages s.
Definition disk_file s : list D := file (disk_manager s).

Lemma alter_latches (g : @Page D -> @Page D) (i : nat) (l : list (@Page D)) :
  (forall p, rwlatch (g p) = rwlatch p) -> rwlatch <$> alter g i l = rwlatch <$> l.
Proof.
  intros Hg. apply list_eq. intros j. rewrite !list_lookup_fmap.
  destruct (decide (i = j)) as [<-|Hne].
  - rewrite list_lookup_alter_eq. destruct (l !! i) as [p|]; simpl; [by rewrite Hg | done].
  - by rewrite list_lookup_alter_ne.
Qed.

Lemma update_latches f (g : @Page D -> @Page D) :
  (forall p, rwlatch (g p) = rwlatch p) -> keeps latches (update_page f g).
Proof. intros Hg s. apply alter_latches, Hg. Qed.

Lemma page_at_keeps {B} (obs : BPM -> B) f : keeps obs (page_at f).
Proof. intros s. unfold page_at. by destruct (if f <? 0 then _ else _). Qed.

Lemma on_replacer_latches {A} (m : M R A) : keeps latches (on_replacer m).
Proof. intros s. unfold on_replacer. by destruct (m (replacer s)). Qed.

Lemma on_replacer_file {A} (m : M R A) : keeps disk_file (on_replacer m).
Proof. intros s. unfold on_replacer. by destruct (m (replacer s)). Qed.

Lemma on_disk_latches {A} (m : M (@DiskManager D) A) : keeps latches (on_disk m).
Proof. intros s. unfold on_disk. by destruct (m (disk_manager s)). Qed.

Lemma evict_latches : keeps latches (evict_victim zero).
Proof.
  apply keeps_bind; [apply on_replacer_latches|]. intros [f|]; [|done].
  repeat (apply keeps_bind; [first [apply page_at_keeps | done | by apply update_latches |
    intros ?; unfold when; case_match; [apply on_disk_latches | done]]|intros]).
  done.
Qed.

Lemma read_into_keeps pid f : keeps latches (read_into zero pid f) /\ keeps disk_file (read_into zero pid f).
Proof.
  split; intros s; unfold read_into, ReadPage; repeat case_match; simplify_eq; try done;
    try (by rewrite update_latches).
Qed.

Lemma load_latches pid : keeps latches (load_free_frame zero pid).
Proof.
  intros s. unfold load_free_frame, bind at 1, get.
  destruct (pop_back (free_list s)) as [[rest f]|]; [|done].
  unfold bind at 1, put. change (latches s) with (latches (set_free rest s)).
  generalize (set_free rest s). change (keeps latches
    (let* _ := page_at f in
     update_page f (fun p => set_dirty false (set_page_id pid (set_pin (pin_count p + 1) p)));;;
     on_replacer (Pin f);;; modify (fun s => set_table (<[pid := f]> (page_table s)) s);;;
     read_into zero pid f;;; ret (Some f))).
  repeat (apply keeps_bind; [first [apply page_at_keeps | by apply update_latches | apply on_replacer_latches |
    done | apply read_into_keeps]|intros]). done.
Qed.

Lemma load_file pid : keeps disk_file (load_free_frame zero pid).
Proof.
  intros s. unfold load_free_frame, bind at 1, get.
  destruct (pop_back (free_list s)) as [[rest f]|]; [|done].
  unfold bind at 1, put. change (disk_file s) with (disk_file (set_free rest s)).
  generalize (set_free rest s). change (keeps disk_file
    (let* _ := page_at f in
     update_page f (fun p => set_dirty false (set_page_id pid (set_pin (pin_count p + 1) p)));;;
     on_replacer (Pin f);;; modify (fun s => set_table (<[pid := f]> (page_table s)) s);;;
     read_into zero pid f;;; ret (Some f))).
  repeat (apply keeps_bind; [first [apply page_at_keeps | apply on_replacer_file | apply read_into_keeps |
    done]|intros]). done.
Qed.

Lemma init_latches : keeps latches (@init_free_frame D R _).
Proof.
  unfold init_free_frame. apply keeps_bind; [done|]. intros s0. destruct (free_list s0) as [|f rest]; [done|].
  repeat (apply keeps_bind; [first [apply page_at_keeps | by apply update_latches | apply on_replacer_latches |
    apply on_disk_latches | done]|intros]). done.
Qed.

Lemma init_file : keeps disk_file (@init_free_frame D R _).
Proof.
  unfold init_free_frame. apply keeps_bind; [done|]. intros s0. destruct (free_list s0) as [|f rest]; [done|].
  repeat (apply keeps_bind; [first [apply page_at_keeps | apply on_replacer_file | done]|intros]). done.
Qed.

Lemma fetch_latches pid : keeps latches (FetchPage zero pid).
Proof.
  unfold FetchPage. apply keeps_bind; [done|]. intros s0. destruct (page_table s0 !! pid) as [f|].
  - repeat (apply keeps_bind; [first [apply page_at_keeps | by apply update_latches | apply on_replacer_latches]|intros]).
    done.
  - apply keeps_bind; [case_match; [apply evict_latches | done]|]. intros b.
    case_match; [done | apply load_latches].
Qed.

Lemma new_latches : keeps latches (NewPage zero).
Proof.
  unfold NewPage. apply keeps_bind; [done|]. intros s0. apply keeps_bind.
  - case_match; [|done]. apply keeps_bind; [apply on_replacer_latches|]. intros n.
    case_match; [done | apply evict_latches].
  - intros b. case_match; [done | apply init_latches].
Qed.

Lemma unpin_latches pid dirty : keeps latches (@UnpinPage D R _ pid dirty).
Proof.
  unfold UnpinPage. apply keeps_bind; [done|]. intros s0. destruct (page_table s0 !! pid) as [f|]; [|done].
  apply keeps_bind; [apply page_at_keeps|]. intros p.
  apply keeps_bind; [unfold when; case_match; [by apply update_latches | done]|]. intros _.
  case_match; [done|]. apply keeps_bind; [by apply update_latches|]. intros _.
  apply keeps_bind; [unfold when; case_match; [apply on_replacer_latches | done]|]. done.
Qed.

Lemma write_data_latches f (x : D) : keeps latches (@write_data D R f x).
Proof.
  unfold write_data. apply keeps_bind; [apply page_at_keeps|]. intros _. by apply update_latches.
Qed.

(** The victim's is the only page of the file that an eviction writes. *)
Lemma evict_disk s b s' : bpm_inv zero s -> free_list s = [] -> evict_victim zero s = (Ok b, s') ->
  forall q, 0 <= q -> 0 < pins s q -> disk_page zero (disk_manager s') q = disk_page zero (disk_manager s) q.
Proof.
  intros I Hfree E q Hq Hpin.
  destruct (victim_spec (replacer s) (inv_rep zero s I)) as (r' & Ev & Hi' & Hq' & Hc').
  destruct (rep_queue (replacer s)) as [|v l] eqn:Q; simpl in Ev.
  - unfold evict_victim in E. rewrite (bind_ok _ _ _ _ _ (on_replacer_ok _ _ _ _ Ev)) in E.
    injection E as <- <-. done.
  - destruct (queue_frame zero s v I) as (Hv & p & Hp & Hvalid & Hid & Hpin0 & Hclean); [rewrite Q; set_solver|done|].
    rewrite (evict_run zero s v r' p) in E by (done || lia). injection E as <- <-. simpl.
    rewrite write_back_page by lia. case_decide as Eq; [|done]. subst q.
    assert (Hr : resident s (page_id p) = Some p) by (apply (resident_Some zero); eauto).
    unfold pins in Hpin. rewrite Hr in Hpin. lia.
Qed.

(** Pages that are pinned keep their place in the file. *)
Lemma fetch_disk s pid r s' : bpm_inv zero s -> FetchPage zero pid s = (Ok r, s') ->
  forall q, 0 <= q -> 0 < pins s q -> disk_page zero (disk_manager s') q = disk_page zero (disk_manager s) q.
Proof.
  intros I E q Hq Hpin. unfold FetchPage, bind at 1, get in E. destruct (page_table s !! pid) as [f|] eqn:Ht.
  - enough (disk_file s' = disk_file s) as Hf by (unfold disk_page, disk_file in *; by rewrite Hf).
    change s' with ((Ok r, s').2). rewrite <- E. clear E.
    match goal with |- disk_file (?m s).2 = _ => enough (keeps disk_file m) as K by apply K end.
    repeat (apply keeps_bind; [first [apply page_at_keeps | apply on_replacer_file | done]|intros]). done.
  - destruct (bool_decide (free_list s = [])) eqn:Ef.
    + apply bool_decide_eq_true in Ef.
      destruct (evict_victim_ok zero s I Ef) as (b & s1 & E1 & I1 & V1 & K1 & P1 & N1 & L1 & Hb).
      rewrite (bind_ok _ _ _ _ _ E1) in E. rewrite <- (evict_disk s b s1 I Ef E1 q Hq Hpin).
      destruct b; simpl in E; [|by injection E as <- <-].
      pose proof (load_file pid s1) as Hf. rewrite E in Hf. unfold disk_page, disk_file in *. simpl in Hf. by rewrite Hf.
    + rewrite bind_ret in E. simpl in E. pose proof (load_file pid s) as Hf. rewrite E in Hf.
      unfold disk_page, disk_file in *. simpl in Hf. by rewrite Hf.
Qed.

Lemma new_disk s r s' : bpm_inv zero s -> NewPage zero s = (Ok r, s') ->
  forall q, 0 <= q -> 0 < pins s q -> disk_page zero (disk_manager s') q = disk_page zero (disk_manager s) q.
Proof.
  intros I E q Hq Hpin. unfold NewPage, bind at 1, get in E.
  assert (Hinit : forall s1, init_free_frame s1 = (Ok r, s') -> disk_file s' = disk_file s1).
  { intros s1 E1. pose proof (init_file s1) as Hf. by rewrite E1 in Hf. }
  destruct (bool_decide (free_list s = [])) eqn:Ef.
  - apply bool_decide_eq_true in Ef.
    destruct (evict_victim_ok zero s I Ef) as (b & s1 & E1 & I1 & V1 & K1 & P1 & N1 & L1 & Hb).
    pose proof (on_replacer_ok _ s _ _ (size_spec _ (inv_rep zero s I))) as Es.
    assert (set_replacer (replacer s) s = s) as Es' by (by destruct s). rewrite Es' in Es.
    unfold bind in E. rewrite Es in E.
    destruct (Z.of_nat (length (rep_queue (replacer s))) =? 0); [by injection E as <- <-|].
    rewrite E1 in E. rewrite <- (evict_disk s b s1 I Ef E1 q Hq Hpin).
    destruct b; simpl in E; [|by injection E as <- <-]. unfold disk_page. fold (disk_file s') (disk_file s1). by rewrite (Hinit s1 E).
  - rewrite bind_ret in E. simpl in E. unfold disk_page. fold (disk_file s') (disk_file s). by rewrite (Hinit s E).
Qed.

(** ** The description *)

(** A page that is clean, and that nobody is writing to, agrees with the file. *)
Definition clean_pages s (W : gset Z) : Prop :=
  forall q p, q ∉ W -> resident s q = Some p -> is_dirty p = false -> data p = disk_page zero (disk_manager s) q.

Record holding s (pg : Z -> D) (H : gmap Z (Z * Z)) (W : gset Z) (L : gmap Z Latch.ReaderWriterLatch) : Prop := {
  hold_inv : bpm_inv zero s;
  hold_leak : no_leak s;
  hold_view : forall q, 0 <= q -> view zero s q = pg q;
  hold_held : forall q f n, H !! q = Some (f, n) -> page_table s !! q = Some f /\ pins s q = n /\ 0 < n;
  hold_free : forall q, H !! q = None -> pins s q = 0;
  hold_clean : clean_pages s W;
  hold_latch : forall i p, pages s !! i = Some p -> rwlatch p = default Latch.unlocked (L !! Z.of_nat i);
}.

(** Only held pages are latched: what every client but a removal that deletes a
    latched page keeps to. *)
Record hold s (pg : Z -> D) (H : gmap Z (Z * Z)) (W : gset Z) (L : gmap Z Latch.ReaderWriterLatch) : Prop := {
  hold_base :> holding s pg H W L;
  hold_latched : forall f l, L !! f = Some l -> exists q n, H !! q = Some (f, n);
}.

Implicit Types (pg : Z -> D) (H : gmap Z (Z * Z)) (W : gset Z) (L : gmap Z Latch.ReaderWriterLatch).

(** The frame of a held page. *)
Lemma holding_frame s pg H W L q f n : holding s pg H W L -> H !! q = Some (f, n) ->
  0 <= f /\ 0 <= q < next_page_id (disk_manager s) /\
  exists p, pages s !! Z.to_nat f = Some p /\ page_id p = q /\ data p = pg q /\ pin_count p = n /\
    0 < n /\ resident s q = Some p.
Proof.
  intros HS Hq. pose proof (hold_inv _ _ _ _ _ HS) as I.
  destruct (hold_held _ _ _ _ _ HS q f n Hq) as (Ht & Hn & Hpos).
  destruct (table_frame zero s q f I Ht) as (Hf & Hne & p & Hp & Hid).
  pose proof (resident_at zero _ _ _ _ I Ht Hp) as Hres.
  destruct (inv_frame zero s I _ _ Hp) as (_ & _ & F). destruct (F ltac:(congruence)) as (G & _).
  rewrite Hid in G. unfold pins in Hn. rewrite Hres in Hn.
  split_and!; [done | lia | lia |]. exists p. split_and!; auto.
  rewrite <- (hold_view _ _ _ _ _ HS) by lia. unfold view. by rewrite Hres.
Qed.

Lemma hold_frame s pg H W L q f n : hold s pg H W L -> H !! q = Some (f, n) ->
  0 <= f /\ 0 <= q < next_page_id (disk_manager s) /\
  exists p, pages s !! Z.to_nat f = Some p /\ page_id p = q /\ data p = pg q /\ pin_count p = n /\
    0 < n /\ resident s q = Some p.
Proof. intros [HS _]. by apply (holding_frame s pg H W L). Qed.

Lemma holding_frame_inj s pg H W L q1 q2 f n1 n2 : holding s pg H W L ->
  H !! q1 = Some (f, n1) -> H !! q2 = Some (f, n2) -> q1 = q2.
Proof.
  intros HS H1 H2. destruct (holding_frame _ _ _ _ _ _ _ _ HS H1) as (_ & _ & p1 & Hp1 & Hi1 & _).
  destruct (holding_frame _ _ _ _ _ _ _ _ HS H2) as (_ & _ & p2 & Hp2 & Hi2 & _). congruence.
Qed.

Lemma hold_frame_inj s pg H W L q1 q2 f n1 n2 : hold s pg H W L ->
  H !! q1 = Some (f, n1) -> H !! q2 = Some (f, n2) -> q1 = q2.
Proof. intros [HS _]. by apply (holding_frame_inj s pg H W L). Qed.

(** A pool with more frames than held pages can take one more. *)
Lemma hold_room s pg H W L : holding s pg H W L -> (size H < slot_num s)%nat -> ~ exhausted s.
Proof.
  intros HS Hsz Hex. pose proof (hold_inv _ _ _ _ _ HS) as I.
  pose proof (exhausted_all_pinned zero s I Hex) as Hall. destruct Hex as [Hfree _].
  assert (Hval : forall i p, pages s !! i = Some p -> page_id p <> INVALID_PAGE_ID).
  { intros i p Hp Hid. assert (Z.of_nat i ∈ free_list s) as Hin.
    { apply (inv_free zero s I). rewrite Nat2Z.id. split; [lia|eauto]. }
    rewrite Hfree in Hin. set_solver. }
  assert (Hnd : NoDup (page_id <$> pages s)).
  { apply NoDup_alt. intros i j q Hi Hj. rewrite list_lookup_fmap in Hi, Hj.
    destruct (pages s !! i) as [p|] eqn:Ei; [|done]. destruct (pages s !! j) as [p'|] eqn:Ej; [|done].
    simplify_eq/=. assert (E1 : page_table s !! page_id p = Some (Z.of_nat i)).
    { apply (inv_table zero s I). rewrite Nat2Z.id. split_and!; [lia | by eapply Hval | eauto]. }
    assert (E2 : page_table s !! page_id p = Some (Z.of_nat j)).
    { apply (inv_table zero s I). rewrite Nat2Z.id. split_and!; [lia | by eapply Hval | eauto]. }
    rewrite E1 in E2. simplify_eq. lia. }
  assert (Hsub : page_id <$> pages s ⊆+ elements (dom H)).
  { apply NoDup_submseteq; [done|]. intros q (p & -> & (i & Hi)%list_elem_of_lookup)%list_elem_of_fmap.
    apply elem_of_elements, elem_of_dom. destruct (H !! page_id p) eqn:E; [done|].
    pose proof (hold_free _ _ _ _ _ HS _ E) as Hz.
    assert (Hr : resident s (page_id p) = Some p) by (apply (resident_Some zero); [done | exists i; eauto]).
    unfold pins in Hz. rewrite Hr in Hz. specialize (Hall _ _ Hi). lia. }
  apply submseteq_length in Hsub. rewrite length_fmap, (inv_len zero s I) in Hsub.
  assert (length (elements (dom H)) = size H) as Hd by (rewrite <- size_dom; reflexivity). lia.
Qed.

Lemma latch_same s s' L : latches s' = latches s ->
  (forall i p, pages s !! i = Some p -> rwlatch p = default Latch.unlocked (L !! Z.of_nat i)) ->
  forall i p, pages s' !! i = Some p -> rwlatch p = default Latch.unlocked (L !! Z.of_nat i).
Proof.
  intros E Hl i p Hp. assert (Hi : latches s' !! i = Some (rwlatch p)) by (unfold latches; by rewrite list_lookup_fmap, Hp).
  rewrite E in Hi. unfold latches in Hi. rewrite list_lookup_fmap in Hi.
  destruct (pages s !! i) as [p0|] eqn:E0; simpl in Hi; [|done]. rewrite <- (Hl i p0 E0). congruence.
Qed.

(** Cleanliness after an operation that touched only page [pid] among the
    pinned ones. *)
Lemma clean_after s s' pid W : bpm_inv zero s -> bpm_inv zero s' -> clean_pages s W ->
  others_unchanged pid s s' ->
  (forall q, 0 <= q -> 0 < pins s q -> disk_page zero (disk_manager s') q = disk_page zero (disk_manager s) q) ->
  (forall p, pid ∉ W -> resident s' pid = Some p -> is_dirty p = false -> data p = disk_page zero (disk_manager s') pid) ->
  clean_pages s' W.
Proof.
  intros I I' HC [Ho1 Ho2] Hd Hpid q p Hq Hres Hdirty. destruct (decide (q = pid)) as [->|Hne]; [eauto|].
  pose proof Hres as Hr. apply (resident_Some zero s') in Hr as (i & Hi & Hid & Hv); [|done].
  destruct (inv_frame zero s' I' _ _ Hi) as (F1 & _ & F3). destruct (F3 ltac:(congruence)) as (G1 & _ & G3).
  destruct (decide (pin_count p = 0)) as [Hz|Hz]; [rewrite <- Hid; by apply G3|].
  assert (Hpins : pins s q = pin_count p).
  { rewrite <- Ho1 by done. unfold pins. by rewrite Hres. }
  unfold pins in Hpins. destruct (resident s q) as [p0|] eqn:Er; [|lia].
  destruct (Ho2 q p0 Hne Er ltac:(lia)) as [Hs _]. rewrite Hres in Hs. simplify_eq.
  rewrite Hd by (lia || (unfold pins; rewrite Er; lia)). by apply HC.
Qed.

(** ** The steps *)

(** The pool's dimensions: its frames and the number of allocated pages. *)
Definition same_dims s s' : Prop :=
  next_page_id (disk_manager s') = next_page_id (disk_manager s) /\ slot_num s' = slot_num s.

Lemma holding_others s s' pg H W L pid f n : holding s pg H W L -> others_unchanged pid s s' ->
  page_table s' !! pid = Some f -> pins s' pid = n -> 0 < n ->
  (forall q g m, <[pid := (f, n)]> H !! q = Some (g, m) -> page_table s' !! q = Some g /\ pins s' q = m /\ 0 < m) /\
  (forall q, <[pid := (f, n)]> H !! q = None -> pins s' q = 0).
Proof.
  intros HS [Ho1 Ho2] Ht Hn Hpos. split.
  - intros q g m. rewrite lookup_insert_Some. intros [[<- [= <- <-]]|[Hne Hq]]; [done|].
    destruct (holding_frame _ _ _ _ _ _ _ _ HS Hq) as (_ & _ & p & _ & _ & _ & Hp & Hm & Hr).
    destruct (hold_held _ _ _ _ _ HS _ _ _ Hq) as (Hq1 & Hq2 & _).
    destruct (Ho2 q p ltac:(done) Hr ltac:(lia)) as [_ ->]. by rewrite Ho1.
  - intros q. rewrite lookup_insert_None. intros [Hq Hne]. rewrite Ho1 by done. by apply (hold_free _ _ _ _ _ HS).
Qed.

(** A page that is fetched does not land in a frame that is latched. *)
Lemma fetched_unlatched s s' pg H W L pid f n (I' : bpm_inv zero s') :
  hold s pg H W L -> others_unchanged pid s s' -> page_table s' !! pid = Some f -> pins s' pid = n -> 0 < n ->
  H !! pid = None -> L !! f = None.
Proof.
  intros HS O Ht Hn Hpos Hno. destruct (holding_others s s' pg H W L pid f n HS O Ht Hn Hpos) as [Hkeep _].
  destruct (L !! f) as [l|] eqn:El; [|done]. exfalso.
  destruct (hold_latched _ _ _ _ _ HS _ _ El) as (q & m & Hq).
  assert (q <> pid) by (intros ->; congruence).
  destruct (Hkeep q f m ltac:(by rewrite lookup_insert_ne)) as (Hq' & _ & _).
  destruct (table_frame zero s' _ _ I' Hq') as (_ & _ & p1 & Hp1 & Hi1).
  destruct (table_frame zero s' _ _ I' Ht) as (_ & _ & p2 & Hp2 & Hi2). congruence.
Qed.

Lemma latched_insert H L pid f n :
  (forall g l, L !! g = Some l -> exists q m, H !! q = Some (g, m)) ->
  (forall m g, H !! pid = Some (g, m) -> g = f) ->
  forall g l, L !! g = Some l -> exists q m, <[pid := (f, n)]> H !! q = Some (g, m).
Proof.
  intros HL Hpid g l Hg. destruct (HL g l Hg) as (q & m & Hq). destruct (decide (q = pid)) as [->|Hne].
  - rewrite (Hpid m g Hq). exists pid, n. by rewrite lookup_insert_eq.
  - exists q, m. by rewrite lookup_insert_ne.
Qed.

(** Pin a page that is not held. *)
Lemma hold_fetch s pg H W L pid : hold s pg H W L -> H !! pid = None ->
  (size H < slot_num s)%nat -> 0 <= pid < next_page_id (disk_manager s) ->
  exists f s', FetchPage zero pid s = (Ok (Some f), s') /\ hold s' pg (<[pid := (f, 1)]> H) W L /\
    same_dims s s' /\ L !! f = None.
Proof.
  intros HS Hno Hsz Hpid. pose proof HS as [[I Hl Hv Hh Hf Hc HL] HL'].
  destruct (fetch_ok zero s pid I Hpid) as (r & s' & E & I' & (V1 & V2 & V3) & Hr).
  destruct r as [f|]; [|by destruct (hold_room s pg H W L HS Hsz)].
  destruct Hr as (O & Hheld & HP & HC). destruct (HP Hl) as [Hl' Hp']. rewrite Hf in Hp' by done.
  pose proof Hheld as (Ht & _).
  destruct (holding_others s s' pg H W L pid f 1 HS O Ht Hp' ltac:(lia)) as [A1 A2].
  exists f, s'. split; [done|]. split; [|split; [by split | by eapply (fetched_unlatched s s' pg H W L pid f 1)]].
  constructor; [|eapply latched_insert; [exact HL'|]; intros m g; congruence]. constructor; auto.
  - intros q Hq. rewrite V3; auto.
  - eapply (clean_after s s' pid W); eauto; [by eapply fetch_disk|]. intros p _ Hres Hd. by apply HC; auto.
  - eapply latch_same; [|exact HL]. pose proof (fetch_latches pid s) as K. by rewrite E in K.
Qed.

(** Pin a page that is held once more. *)
Lemma holding_refetch s pg H W L pid f n : holding s pg H W L -> H !! pid = Some (f, n) ->
  exists s', FetchPage zero pid s = (Ok (Some f), s') /\ holding s' pg (<[pid := (f, n + 1)]> H) W L /\
    same_dims s s'.
Proof.
  intros HS Hin. pose proof HS as [I Hl Hv Hh Hf Hc HL].
  destruct (Hh _ _ _ Hin) as (Ht & Hn & Hpos).
  destruct (holding_frame _ _ _ _ _ _ _ _ HS Hin) as (Hf0 & Hpid & p & Hp & Hid & Hdata & Hpc & _ & Hres).
  destruct (fetch_hit zero s pid f I Ht) as (s' & E & I' & (V1 & V2 & V3) & O & Hheld & P & HLk & _).
  pose proof Hheld as (Ht' & _). rewrite Hn in P.
  destruct (holding_others s s' pg H W L pid f (n + 1) HS O Ht' P ltac:(lia)) as [A1 A2].
  exists s'. split; [done|]. split; [|by split]. constructor; auto.
  - intros q Hq. rewrite V3; auto.
  - eapply (clean_after s s' pid W); eauto; [by eapply fetch_disk|]. intros p' HW Hres' Hd.
    assert (Hp' : p' = set_pin (pin_count p + 1) p).
    { unfold FetchPage, bind at 1, get in E. rewrite Ht in E.
      erewrite bind_ok in E by (by apply page_at_ok).
      erewrite bind_ok in E by (by apply update_page_ok).
      destruct (pin_spec f (replacer s) (inv_rep zero s I)) as (r' & Er & _).
      erewrite bind_ok in E by (apply on_replacer_ok; exact Er). injection E as <-.
      unfold resident, frame_of in Hres'. simpl in Hres'. rewrite Ht in Hres'. simpl in Hres'.
      rewrite list_lookup_insert_eq in Hres' by (by eapply lookup_lt_Some). by injection Hres'. }
    subst p'. simpl in *. rewrite (fetch_disk s pid _ s' I E pid) by lia. by apply Hc.
  - eapply latch_same; [|exact HL]. pose proof (fetch_latches pid s) as K. by rewrite E in K.
Qed.

Lemma hold_refetch s pg H W L pid f n : hold s pg H W L -> H !! pid = Some (f, n) ->
  exists s', FetchPage zero pid s = (Ok (Some f), s') /\ hold s' pg (<[pid := (f, n + 1)]> H) W L /\
    same_dims s s'.
Proof.
  intros [HS HL'] Hin. destruct (holding_refetch s pg H W L pid f n HS Hin) as (s' & E & H' & D'). exists s'.
  split_and!; auto. split; [done|]. eapply latched_insert; [exact HL'|]. intros m g. congruence.
Qed.

(** Release one pin; a written page must be released as dirty at the latest
    with its last pin. *)
Lemma holding_unpin s pg H W L pid f n dirty : holding s pg H W L -> H !! pid = Some (f, n) ->
  dirty = true \/ pid ∉ W \/ 1 < n ->
  exists s', UnpinPage pid dirty s = (Ok true, s') /\
    holding s' pg (if decide (n = 1) then delete pid H else <[pid := (f, n - 1)]> H)
      (if dirty then W ∖ {[pid]} else W) L /\
    same_dims s s'.
Proof.
  intros HS Hin HW. pose proof HS as [I Hl Hv Hh Hf Hc HL].
  destruct (Hh _ _ _ Hin) as (Ht & Hn & Hpos).
  destruct (holding_frame _ _ _ _ _ _ _ _ HS Hin) as (Hf0 & Hpid & p & Hp & Hid & Hdata & Hpc & _ & Hres).
  destruct (unpin_ok zero s pid dirty I) as (b & s' & E & I' & (V1 & V2 & V3) & O & T & Hb & P & HLk).
  { intros p' Hr' Hd Hdirty Hle. rewrite Hres in Hr'. injection Hr' as <-. destruct HW as [->|[Hw|Hgt]]; [done | by apply Hc | lia]. }
  destruct (unpin_run zero s pid dirty f p I Ht Hp) as (r' & b' & E' & _). rewrite E in E'.
  assert (Hs' : s' = mkBPM (slot_num s) (disk_manager s) r'
    (<[Z.to_nat f := mkPage (data p) (page_id p) (if pin_count p <=? 0 then pin_count p else pin_count p - 1)
        (is_dirty p || dirty) (rwlatch p)]> (pages s)) (free_list s) (page_table s)) by congruence.
  rewrite Hn in Hb, P. rewrite Z.max_r in P by lia.
  assert (b = true) as -> by (rewrite Hb; lia).
  assert (Hlat : latches s' = latches s) by (pose proof (unpin_latches pid dirty s) as K; by rewrite E in K).
  assert (Hd : disk_manager s' = disk_manager s) by (by rewrite Hs').
  assert (HC : clean_pages s' (if dirty then W ∖ {[pid]} else W)).
  { intros q p' Hq Hr' Hdd. destruct (decide (q = pid)) as [->|Hne].
    - rewrite Hs' in Hr'. unfold resident, frame_of in Hr'. simpl in Hr'. rewrite Ht in Hr'.
      rewrite list_lookup_insert_eq in Hr' by (by eapply lookup_lt_Some). injection Hr' as <-.
      simpl in Hdd. apply orb_false_elim in Hdd as [H1 ->]. simpl. rewrite Hd. by apply Hc.
    - assert (q ∉ W) as HqW by (destruct dirty; set_solver).
      eapply (clean_after s s' pid W I I' Hc O); [by rewrite Hd| |exact HqW|exact Hr'|exact Hdd].
      intros p0 Hw Hr0 Hd0. rewrite Hs' in Hr0. unfold resident, frame_of in Hr0. simpl in Hr0. rewrite Ht in Hr0.
      rewrite list_lookup_insert_eq in Hr0 by (by eapply lookup_lt_Some). injection Hr0 as <-.
      simpl in Hd0. apply orb_false_elim in Hd0 as [H1 ->]. simpl. rewrite Hd. by apply Hc. }
  exists s'. split; [done|]. split; [|by split]. destruct (decide (n = 1)) as [->|Hn1].
  - destruct O as [Ho1 Ho2]. constructor; auto.
    + intros q Hq. rewrite V3; auto.
    + intros q g m. rewrite lookup_delete_Some. intros [Hne Hq]. rewrite T, Ho1 by done. auto.
    + intros q. rewrite lookup_delete_None. intros [<-|Hq]; [done|].
      destruct (decide (q = pid)) as [->|]; [done|]. rewrite Ho1; auto.
    + by eapply latch_same.
  - destruct (holding_others s s' pg H W L pid f (n - 1) HS O) as [A1 A2]; [by rewrite T | done | lia |].
    constructor; auto.
    + intros q Hq. rewrite V3; auto.
    + by eapply latch_same.
Qed.

(** The last pin of a page that is latched must not go. *)
Lemma hold_unpin s pg H W L pid f n dirty : hold s pg H W L -> H !! pid = Some (f, n) ->
  dirty = true \/ pid ∉ W \/ 1 < n -> (n = 1 -> L !! f = None) ->
  exists s', UnpinPage pid dirty s = (Ok true, s') /\
    hold s' pg (if decide (n = 1) then delete pid H else <[pid := (f, n - 1)]> H)
      (if dirty then W ∖ {[pid]} else W) L /\
    same_dims s s'.
Proof.
  intros [HS HL'] Hin HW Hlast. destruct (holding_unpin s pg H W L pid f n dirty HS Hin HW) as (s' & E & H' & D'). exists s'.
  split_and!; auto. split; [done|]. case_decide as Hn; [|eapply latched_insert; [exact HL'|]; intros m g; congruence].
  intros g l Hg. destruct (HL' g l Hg) as (q & m & Hq). exists q, m. rewrite lookup_delete_ne; [done|].
  intros <-. rewrite Hin in Hq. injection Hq as <- <-. by rewrite Hlast in Hg.
Qed.

(** Allocate a page: zeroed, held once, and to be released as dirty. *)
Lemma hold_new s pg H W L : hold s pg H W L -> (size H < slot_num s)%nat ->
  let pid := next_page_id (disk_manager s) in
  pid < MAX_PAGES ->
  exists f s', NewPage zero s = (Ok (Some f), s') /\ hold s' pg (<[pid := (f, 1)]> H) ({[pid]} ∪ W) L /\
    pg pid = zero /\ next_page_id (disk_manager s') = pid + 1 /\ slot_num s' = slot_num s /\
    L !! f = None /\ H !! pid = None.
Proof.
  intros HS Hsz pid Hmax. pose proof HS as [[I Hl Hv Hh Hf Hc HL] HL'].
  assert (Hno : H !! pid = None).
  { destruct (H !! pid) as [[g m]|] eqn:E; [|done].
    destruct (hold_frame _ _ _ _ _ _ _ _ HS E) as (_ & Hlt & _). subst pid. lia. }
  assert (0 <= pid) by (pose proof (inv_disk zero s I); subst pid; lia).
  destruct (newpage_ok zero s I Hmax) as (r & s' & E & I' & S' & V & Hr). cbv zeta in Hr. fold pid in Hr.
  destruct r as [f|]; [|destruct Hr as [_ Hr]; by destruct (hold_room s pg H W L HS Hsz)].
  destruct Hr as (N & Hz & O & Hheld & P & HLk). pose proof Hheld as (Ht & _).
  destruct (holding_others s s' pg H W L pid f 1 HS O Ht P ltac:(lia)) as [A1 A2].
  exists f, s'. split; [done|].
  split; [|rewrite <- Hv by done; split_and!; auto; by eapply (fetched_unlatched s s' pg H W L pid f 1)].
  constructor; [|eapply latched_insert; [exact HL'|]; intros m g; congruence]. constructor; auto.
  - intros q Hq. rewrite V; auto.
  - eapply (clean_after s s' pid); eauto; [| by eapply new_disk | set_solver].
    intros q p Hq. apply Hc. set_solver.
  - eapply latch_same; [|exact HL]. pose proof (new_latches s) as K. by rewrite E in K.
Qed.

Lemma holding_get s pg H W L pid f n : holding s pg H W L -> H !! pid = Some (f, n) ->
  GetData f s = (Ok (pg pid), s) /\ GetPageId f s = (Ok pid, s).
Proof.
  intros HS Hin. destruct (holding_frame _ _ _ _ _ _ _ _ HS Hin) as (Hf0 & _ & p & Hp & Hid & Hdata & _).
  unfold GetData, GetPageId. rewrite !(bind_ok _ _ _ _ _ (page_at_ok _ _ _ Hf0 Hp)). unfold ret. by rewrite Hid, Hdata.
Qed.

Lemma hold_get s pg H W L pid f n : hold s pg H W L -> H !! pid = Some (f, n) ->
  GetData f s = (Ok (pg pid), s) /\ GetPageId f s = (Ok pid, s).
Proof. intros [HS _]. by apply (holding_get s pg H W L). Qed.

(** Write through the pointer to a held page. *)
Lemma holding_write s pg H W L pid f n x : holding s pg H W L -> H !! pid = Some (f, n) ->
  exists s', write_data f x s = (Ok tt, s') /\ holding s' (<[pid := x]> pg) H ({[pid]} ∪ W) L /\ same_dims s s'.
Proof.
  intros HS Hin. pose proof HS as [I Hl Hv Hh Hf Hc HL].
  destruct (holding_frame _ _ _ _ _ _ _ _ HS Hin) as (Hf0 & Hpid & p & Hp & Hid & Hdata & Hpc & Hpos & Hres).
  destruct (Hh _ _ _ Hin) as (Ht & Hn & _).
  destruct (write_data_ok zero s pid f (pg pid) x I) as (s' & E & I' & N & S & V & P & T & O & _ & HLk).
  { split; [done|]. exists p. split_and!; auto. lia. }
  exists s'. split; [done|]. split; [|by split]. constructor; auto.
  - intros q Hq. rewrite V by done. case_decide as Eq; [subst q; by rewrite fn_lookup_insert|].
    rewrite fn_lookup_insert_ne by done. auto.
  - intros q g m Hq. rewrite T, P. auto.
  - intros q Hq. rewrite P. auto.
  - eapply (clean_after s s' pid); eauto; [intros q p' Hq; apply Hc; set_solver | | set_solver].
    intros q Hq _. enough (disk_file s' = disk_file s) as K by (unfold disk_page, disk_file in *; by rewrite K).
    enough (keeps disk_file (@write_data D R f x)) as K by (specialize (K s); by rewrite E in K).
    unfold write_data. apply keeps_bind; [apply page_at_keeps | done].
  - eapply latch_same; [|exact HL]. pose proof (write_data_latches f x s) as K. by rewrite E in K.
Qed.

Lemma hold_write s pg H W L pid f n x : hold s pg H W L -> H !! pid = Some (f, n) ->
  exists s', write_data f x s = (Ok tt, s') /\ hold s' (<[pid := x]> pg) H ({[pid]} ∪ W) L /\ same_dims s s'.
Proof.
  intros [HS HL'] Hin. destruct (holding_write s pg H W L pid f n x HS Hin) as (s' & E & H' & D'). exists s'. by split_and!.
Qed.

(** A pool that differs in the latch of one frame. *)
Definition relatch (i : nat) p (l : Latch.ReaderWriterLatch) s : BPM := set_pages (<[i := set_latch l p]> (pages s)) s.

Lemma relatch_lookup s i p l j p' : pages s !! i = Some p -> pages (relatch i p l s) !! j = Some p' ->
  exists p0, pages s !! j = Some p0 /\ data p0 = data p' /\ page_id p0 = page_id p' /\ pin_count p0 = pin_count p' /\
    is_dirty p0 = is_dirty p'.
Proof.
  intros Hp. simpl. rewrite list_lookup_insert_Some. intros [(<- & <- & _)|[_ Hj]]; [by exists p | by exists p'].
Qed.

Lemma relatch_back s i p l j p0 : pages s !! i = Some p -> pages s !! j = Some p0 ->
  exists p', pages (relatch i p l s) !! j = Some p' /\ page_id p' = page_id p0.
Proof.
  intros Hp Hj. simpl. destruct (decide (i = j)) as [->|]; [|rewrite list_lookup_insert_ne; eauto].
  rewrite list_lookup_insert_eq by (by eapply lookup_lt_Some). eexists. split; [done|]. simpl. congruence.
Qed.

Lemma relatch_inv s i p l : bpm_inv zero s -> pages s !! i = Some p -> bpm_inv zero (relatch i p l s).
Proof.
  intros I Hp. constructor; simpl; try apply I.
  - rewrite length_insert. apply I.
  - intros f. rewrite (inv_free zero s I). split; intros (H0 & p0 & Hf & Hid); (split; [done|]).
    + destruct (relatch_back s i p l _ _ Hp Hf) as (p' & ? & ?). exists p'. split; [done | congruence].
    + destruct (relatch_lookup s i p l _ _ Hp Hf) as (p' & ? & _ & ? & _). exists p'. split; [done | congruence].
  - intros q f. rewrite (inv_table zero s I). split; intros (H0 & Hq & p0 & Hf & Hid); (split_and!; [done | done |]).
    + destruct (relatch_back s i p l _ _ Hp Hf) as (p' & ? & ?). exists p'. split; [done | congruence].
    + destruct (relatch_lookup s i p l _ _ Hp Hf) as (p' & ? & _ & ? & _). exists p'. split; [done | congruence].
  - intros j p' Hj. destruct (relatch_lookup s i p l _ _ Hp Hj) as (p0 & H0 & E1 & E2 & E3 & E4).
    pose proof (inv_frame zero s I _ _ H0) as K. unfold frame_inv in *. by rewrite <- E1, <- E2, <- E3, <- E4.
Qed.

Lemma relatch_resident s i p l q : pages s !! i = Some p ->
  option_map (fun p => (data p, pin_count p, is_dirty p)) (resident (relatch i p l s) q) =
  option_map (fun p => (data p, pin_count p, is_dirty p)) (resident s q).
Proof.
  intros Hp. unfold resident, frame_of. simpl. destruct (page_table s !! q) as [f|]; [|done].
  destruct (decide (i = Z.to_nat f)) as [->|]; [|by rewrite list_lookup_insert_ne].
  rewrite list_lookup_insert_eq, Hp by (by eapply lookup_lt_Some). done.
Qed.

(** Take or release the latch of any frame. *)
Lemma holding_on_latch s pg H W L f p g l L' : holding s pg H W L -> 0 <= f -> pages s !! Z.to_nat f = Some p ->
  g (default Latch.unlocked (L !! f)) = Ok l ->
  default Latch.unlocked (L' !! f) = l -> (forall j, j <> f -> L' !! j = L !! j) ->
  on_latch f g s = (Ok tt, relatch (Z.to_nat f) p l s) /\ holding (relatch (Z.to_nat f) p l s) pg H W L'.
Proof.
  intros [I Hl Hv Hh Hf Hc HL] Hf0 Hp Hg HLf HLo.
  pose proof (HL _ _ Hp) as Hlat. rewrite Z2Nat.id in Hlat by done. rewrite <- Hlat in Hg.
  unfold on_latch. rewrite (bind_ok _ _ _ _ _ (page_at_ok _ _ _ Hf0 Hp)). rewrite Hg.
  unfold bind at 1, lift. erewrite update_page_ok by exact Hp. split; [reflexivity|].
  pose proof (fun q => relatch_resident s (Z.to_nat f) p l q Hp) as HR.
  assert (HP : forall q, pins (relatch (Z.to_nat f) p l s) q = pins s q).
  { intros q. unfold pins. specialize (HR q). destruct (resident (relatch _ _ _ _) q), (resident s q); simpl in HR; congruence. }
  constructor; auto.
  - by apply relatch_inv.
  - intros j p' Hj Hid. destruct (relatch_lookup s _ p l _ _ Hp Hj) as (p0 & H0 & _ & E2 & E3 & _).
    rewrite <- E3. apply (Hl _ _ H0). congruence.
  - intros q Hq. rewrite <- Hv by done. unfold view. specialize (HR q).
    destruct (resident (relatch _ _ _ _) q), (resident s q); simpl in HR; try congruence. done.
  - intros q h m Hq. rewrite HP. by apply Hh.
  - intros q Hq. rewrite HP. by apply Hf.
  - intros q p' Hq Hr Hd. specialize (HR q). rewrite Hr in HR. destruct (resident s q) as [p0|] eqn:E0; [|done].
    injection HR as -> _ Hd'. rewrite Hd in Hd'. by apply (Hc q p0).
  - intros i p'. simpl. rewrite list_lookup_insert_Some. intros [(<- & <- & _)|[Hne Hi]]; simpl.
    + rewrite Z2Nat.id by done. by rewrite HLf.
    + rewrite HLo by lia. by apply HL.
Qed.

(** Take or release the latch of a held page. *)
Lemma hold_on_latch s pg H W L pid f n g l L' : hold s pg H W L -> H !! pid = Some (f, n) ->
  g (default Latch.unlocked (L !! f)) = Ok l ->
  default Latch.unlocked (L' !! f) = l -> (forall j, j <> f -> L' !! j = L !! j) ->
  exists s', on_latch f g s = (Ok tt, s') /\ hold s' pg H W L' /\ same_dims s s'.
Proof.
  intros [HS HL'] Hin Hg HLf HLo. destruct (holding_frame _ _ _ _ _ _ _ _ HS Hin) as (Hf0 & _ & p & Hp & _).
  destruct (holding_on_latch s pg H W L f p g l L' HS Hf0 Hp Hg HLf HLo) as [E H'].
  eexists. split; [exact E|]. split; [|done]. split; [done|].
  intros j m Hj. destruct (decide (j = f)) as [->|]; [eauto|]. rewrite HLo in Hj by done. eauto.
Qed.

Lemma hold_lock s pg H W L pid f n g l : hold s pg H W L -> H !! pid = Some (f, n) ->
  g (default Latch.unlocked (L !! f)) = Ok l ->
  exists s', on_latch f g s = (Ok tt, s') /\ hold s' pg H W (<[f := l]> L) /\ same_dims s s'.
Proof.
  intros HS Hin Hg. eapply hold_on_latch; eauto; [by rewrite lookup_insert_eq|].
  intros j Hj. by rewrite lookup_insert_ne.
Qed.

Lemma hold_unlock s pg H W L pid f n g : hold s pg H W L -> H !! pid = Some (f, n) ->
  g (default Latch.unlocked (L !! f)) = Ok Latch.unlocked ->
  exists s', on_latch f g s = (Ok tt, s') /\ hold s' pg H W (delete f L) /\ same_dims s s'.
Proof.
  intros HS Hin Hg. eapply hold_on_latch; eauto; [by rewrite lookup_delete_eq|].
  intros j Hj. by rewrite lookup_delete_ne.
Qed.

(** A page that is not zero has been allocated. *)
Lemma hold_nonzero s pg H W L pid : hold s pg H W L -> 0 <= pid -> pg pid <> zero ->
  pid < next_page_id (disk_manager s).
Proof.
  intros HS Hpid Hne. pose proof (hold_inv _ _ _ _ _ HS) as I.
  rewrite <- (hold_view _ _ _ _ _ HS) in Hne by done. unfold view in Hne.
  destruct (resident s pid) as [p|] eqn:E.
  - apply (resident_Some zero) in E as (i & Hi & Hid & Hv); [|done].
    destruct (inv_frame _ _ I _ _ Hi) as (_ & _ & F). destruct (F ltac:(congruence)) as (G & _). lia.
  - destruct (decide (pid < next_page_id (disk_manager s))) as [|Hge]; [done|]. exfalso. apply Hne.
    unfold disk_page, load. pose proof (inv_disk _ _ I). rewrite lookup_ge_None_2 by lia. done.
Qed.

(** A pool between two calls: nothing held, nothing latched, nothing unsaved. *)
Definition idle s pg : Prop := hold s pg ∅ ∅ ∅.

(** Only the allocated pages of [pg] matter, and no negative id is one. *)
Lemma hold_ext s pg pg' H W L : hold s pg H W L -> (forall q, 0 <= q -> pg q = pg' q) -> hold s pg' H W L.
Proof. intros [[I Hl Hv Hh Hf Hc HL] HL'] Hext. constructor; [constructor|]; auto. intros q Hq. rewrite Hv, Hext; auto. Qed.

(** More pages may be counted as written. *)
Lemma hold_weaken s pg H W W' L : hold s pg H W L -> W ⊆ W' -> hold s pg H W' L.
Proof. intros [[I Hl Hv Hh Hf Hc HL] HL'] Hsub. constructor; [constructor|]; auto. intros q p Hq. apply Hc. set_solver. Qed.

Lemma flush_entries_latches (l : list (Z * Z)) : keeps latches (flush_entries zero l).
Proof.
  induction l as [|[pid f] l IH]; [done|]. cbn [flush_entries].
  repeat (apply keeps_bind; [first [apply page_at_keeps | by apply update_latches | apply on_disk_latches]|intros]). done.
Qed.

(** A flush between calls: the pool stays idle and the file has every page. *)
Lemma idle_flush s pg : idle s pg ->
  exists s', FlushAllPages zero s = (Ok tt, s') /\ idle s' pg /\ same_dims s s' /\
    forall q, 0 <= q -> disk_page zero (disk_manager s') q = pg q.
Proof.
  intros [[I Hl Hv Hh Hf Hc HL] HL'].
  destruct (flush_all_ok zero s I) as (s' & E & I' & (V1 & V2 & V3) & P & Hd & Hlk).
  assert (Hdisk : forall q, 0 <= q -> disk_page zero (disk_manager s') q = pg q) by (intros q Hq; rewrite Hd, Hv; auto).
  exists s'. split_and!; [done | | by split | done]. constructor; [constructor|]; auto.
  - intros q Hq. rewrite V3; auto.
  - intros q f n Hq. by rewrite lookup_empty in Hq.
  - intros q Hq. rewrite P. auto.
  - intros q p _ Hr _. pose proof Hr as Hr'. apply (resident_Some zero s') in Hr' as (i & Hi & Hid & Hne); [|done].
    destruct (inv_frame zero s' I' _ _ Hi) as (_ & _ & F). destruct (F ltac:(congruence)) as (G & _).
    assert (0 <= q) by lia. rewrite Hdisk, <- Hv, <- V3 by done. unfold view. by rewrite Hr.
  - eapply latch_same; [|exact HL]. unfold FlushAllPages, bind, get in E.
    pose proof (flush_entries_latches (map_to_list (page_table s)) s) as K. by rewrite E in K.
Qed.

Lemma same_dims_trans s1 s2 s3 : same_dims s1 s2 -> same_dims s2 s3 -> same_dims s1 s3.
Proof. intros [? ?] [? ?]. split; congruence. Qed.

Lemma same_dims_refl s : same_dims s s.
Proof. done. Qed.

(** ** Deleting pages

    A thread that deletes a page may keep the latch of the frame it was in. What
    sits in a frame, nothing or a page that is no longer pinned, stays there as
    long as nothing is fetched. *)

Definition page_ids s : list Z := page_id <$> pages s.

Definition sits s (f q : Z) : Prop := 0 <= f /\ page_ids s !! Z.to_nat f = Some q.

Lemma update_page_ids f (g : @Page D -> @Page D) : (forall p, page_id (g p) = page_id p) -> keeps page_ids (update_page f g).
Proof.
  intros Hg s. unfold page_ids. simpl. apply list_eq. intros j. rewrite !list_lookup_fmap.
  destruct (decide (Z.to_nat f = j)) as [<-|Hne]; [|by rewrite list_lookup_alter_ne].
  rewrite list_lookup_alter_eq. destruct (pages s !! Z.to_nat f) as [p|]; simpl; [by rewrite Hg | done].
Qed.

Lemma unpin_page_ids pid dirty : keeps page_ids (@UnpinPage D R _ pid dirty).
Proof.
  unfold UnpinPage. apply keeps_bind; [done|]. intros s0. destruct (page_table s0 !! pid) as [f|]; [|done].
  apply keeps_bind; [apply page_at_keeps|]. intros p.
  apply keeps_bind; [unfold when; case_match; [by apply update_page_ids | done]|]. intros _.
  case_match; [done|]. apply keeps_bind; [by apply update_page_ids|]. intros _.
  apply keeps_bind; [|done]. unfold when. case_match; [|done]. intros s. unfold on_replacer. by destruct (Unpin f (replacer s)).
Qed.

Lemma write_data_page_ids f (x : D) : keeps page_ids (@write_data D R f x).
Proof. unfold write_data. apply keeps_bind; [apply page_at_keeps|]. intros _. by apply update_page_ids. Qed.

Lemma on_latch_page_ids f g : keeps page_ids (@on_latch D R f g).
Proof.
  unfold on_latch. apply keeps_bind; [apply page_at_keeps|]. intros p. apply keeps_bind; [intros s; unfold lift; by destruct (g (rwlatch p))|].
  intros l. by apply update_page_ids.
Qed.

Lemma sits_keeps {A} (m : M BPM A) s a s' f q : keeps page_ids m -> m s = (a, s') -> sits s f q -> sits s' f q.
Proof. intros K E [H0 Hs]. split; [done|]. specialize (K s). rewrite E in K. simpl in K. by rewrite K. Qed.

Lemma sits_frame s f q : sits s f q -> 0 <= f /\ exists p, pages s !! Z.to_nat f = Some p /\ page_id p = q.
Proof.
  intros [H0 Hs]. split; [done|]. unfold page_ids in Hs. rewrite list_lookup_fmap in Hs.
  destruct (pages s !! Z.to_nat f) as [p|]; simplify_eq/=. eauto.
Qed.

Lemma sits_page_id s f q : sits s f q -> GetPageId f s = (Ok q, s).
Proof.
  intros Hs. destruct (sits_frame s f q Hs) as (H0 & p & Hp & <-). unfold GetPageId.
  by rewrite (bind_ok _ _ _ _ _ (page_at_ok _ _ _ H0 Hp)).
Qed.

Lemma holding_sits s pg H W L pid f n : holding s pg H W L -> H !! pid = Some (f, n) -> sits s f pid.
Proof.
  intros HS Hin. destruct (holding_frame _ _ _ _ _ _ _ _ HS Hin) as (H0 & _ & p & Hp & Hid & _).
  split; [done|]. unfold page_ids. by rewrite list_lookup_fmap, Hp, <- Hid.
Qed.

(** Release the latch of a frame, whatever sits there. *)
Lemma holding_unlatch s pg H W L f q : holding s pg H W L -> sits s f q -> L !! f = Some (Latch.mkLatch 0 true) ->
  exists s', WUnlatch f s = (Ok tt, s') /\ holding s' pg H W (delete f L) /\ same_dims s s'.
Proof.
  intros HS Hs HL. destruct (sits_frame s f q Hs) as (H0 & p & Hp & _).
  destruct (holding_on_latch s pg H W L f p (fun l => Ok (Latch.WUnlock l)) Latch.unlocked (delete f L) HS H0 Hp) as [E H'].
  - by rewrite HL.
  - by rewrite lookup_delete_eq.
  - intros j Hj. by rewrite lookup_delete_ne.
  - eexists. split; [exact E|]. by split.
Qed.

(** An unpin too many of a page, as dirty, and one of no page. *)
Lemma holding_unpin_again s pg H W L pid : holding s pg H W L -> H !! pid = None ->
  exists s', UnpinPage pid true s = (Ok false, s') /\ holding s' pg H W L /\ same_dims s s'.
Proof.
  intros [I Hl Hv Hh Hf Hc HL] Hno. specialize (Hf pid Hno) as Hp0.
  destruct (unpin_ok zero s pid true I) as (b & s' & E & I' & (V1 & V2 & V3) & [O1 O2] & T & Hb & P & HLk); [by intros ? ? ? ?|].
  rewrite Hp0 in Hb, P. simpl in Hb. subst b. exists s'. split; [done|]. split; [|by split].
  assert (HP : forall q, pins s' q = pins s q) by (intros q; destruct (decide (q = pid)) as [->|]; [by rewrite P | by apply O1]).
  constructor; auto.
  - intros q Hq. rewrite V3; auto.
  - intros q f n Hq. rewrite T, HP. by apply Hh.
  - intros q Hq. rewrite HP. by apply Hf.
  - destruct (page_table s !! pid) as [f|] eqn:Ht; cycle 1.
    { unfold UnpinPage, bind, get in E. rewrite Ht in E. by injection E as <-. }
    destruct (table_frame zero s pid f I Ht) as (H0 & _ & p & Hp & Hid).
    destruct (unpin_run zero s pid true f p I Ht Hp) as (r' & b' & E' & _). rewrite E in E'. injection E' as _ ->.
    intros q p' Hq. unfold resident, frame_of. simpl. destruct (page_table s !! q) as [g|] eqn:Hg; [|done].
    destruct (decide (Z.to_nat f = Z.to_nat g)) as [Eg|Eg].
    + rewrite Eg, list_lookup_insert_eq by (rewrite <- Eg; by eapply lookup_lt_Some). intros [= <-] Hd. simpl in Hd.
      by rewrite orb_true_r in Hd.
    + rewrite list_lookup_insert_ne by done. intros Hp' Hd. apply Hc; [done | | done]. unfold resident, frame_of. by rewrite Hg.
  - eapply latch_same; [|exact HL]. pose proof (unpin_latches pid true s) as K. by rewrite E in K.
Qed.

Lemma delete_pages s s' pid f p : bpm_inv zero s -> page_table s !! pid = Some f -> pages s !! Z.to_nat f = Some p ->
  DeletePage zero pid s = (Ok true, s') ->
  pages s' = <[Z.to_nat f := mkPage zero INVALID_PAGE_ID (pin_count p) false (rwlatch p)]> (pages s).
Proof.
  intros I Ht Hp E. destruct (table_frame zero s pid f I Ht) as (Hf0 & _).
  unfold DeletePage, bind at 1, get in E. rewrite Ht, (bind_ok _ _ _ _ _ (page_at_ok _ _ _ Hf0 Hp)) in E.
  erewrite bind_ok in E by reflexivity. erewrite bind_ok in E by (apply update_page_ok; exact Hp).
  destruct (unpin_spec f (replacer s) (inv_rep zero s I)) as (r' & Er & _).
  erewrite bind_ok in E by reflexivity. erewrite bind_ok in E by (apply on_replacer_ok; exact Er).
  by injection E as <-.
Qed.

(** Release the last pin of a page and delete it. *)
Lemma holding_drop s pg H W L pid f : holding s pg H W L -> H !! pid = Some (f, 1) ->
  exists s1 s2 x, UnpinPage pid true s = (Ok true, s1) /\ GetData f s1 = (Ok (pg pid), s1) /\
    DeletePage zero pid s1 = (Ok true, s2) /\
    holding s2 (<[pid := x]> pg) (delete pid H) (W ∖ {[pid]}) L /\ sits s2 f INVALID_PAGE_ID /\ same_dims s s2 /\
    (forall g q, g <> f -> sits s g q -> sits s2 g q).
Proof.
  intros HS Hin. destruct (holding_unpin s pg H W L pid f 1 true HS Hin) as (s1 & E1 & H1 & [D1 D2]); [by left|].
  rewrite decide_True in H1 by done. pose proof (sits_keeps _ _ _ _ f pid (unpin_page_ids pid true) E1 (holding_sits _ _ _ _ _ _ _ _ HS Hin)) as Hs1.
  destruct (holding_frame _ _ _ _ _ _ _ _ HS Hin) as (Hf0 & Hpid & _).
  destruct (sits_frame s1 f pid Hs1) as (_ & p & Hp & Hid). destruct H1 as [I Hl Hv Hh Hf Hc HL].
  assert (Ht : page_table s1 !! pid = Some f) by (apply (inv_table zero s1 I); split_and!; [done | unfold INVALID_PAGE_ID; lia | eauto]).
  assert (Hp0 : pin_count p = 0).
  { specialize (Hf pid (lookup_delete_eq _ _)). unfold pins in Hf. by rewrite (resident_at zero s1 pid f p I Ht Hp) in Hf. }
  destruct (delete_ok zero s1 pid I ltac:(lia)) as (s2 & E2 & I2 & Ed & Es & HR & HT & _).
  pose proof (delete_pages s1 s2 pid f p I Ht Hp E2) as Hpg. pose proof (lookup_lt_Some _ _ _ Hp) as Hlt.
  exists s1, s2, (disk_page zero (disk_manager s2) pid). split; [done|]. split.
  { unfold GetData. rewrite (bind_ok _ _ _ _ _ (page_at_ok _ _ _ Hf0 Hp)). rewrite <- (Hv pid) by lia. unfold view.
    by rewrite (resident_at zero s1 pid f p I Ht Hp). }
  split; [done|].
  assert (HP : forall q, q <> pid -> pins s2 q = pins s1 q) by (intros q Hq; unfold pins; by rewrite HR, decide_False).
  assert (Hsame : same_dims s s2) by (split; congruence).
  split; [constructor; auto | split; [|split; [done|]]].
  - intros i p'. rewrite Hpg, list_lookup_insert_Some. intros [(_ & <- & _)|[_ Hi]]; [done | by apply (Hl i p')].
  - intros q Hq. unfold view. rewrite HR. case_decide as Eq; [subst q; by rewrite fn_lookup_insert|].
    rewrite fn_lookup_insert_ne, <- Hv by done. unfold view. by rewrite Ed.
  - intros q g m Hq. apply lookup_delete_Some in Hq as [Hne Hq]. rewrite HT, lookup_delete_ne, HP by done. apply Hh. by rewrite lookup_delete_ne.
  - intros q Hq. destruct (decide (q = pid)) as [->|]; [unfold pins; by rewrite HR, decide_True|]. rewrite HP by done. by apply Hf.
  - intros q p' Hq. rewrite HR. case_decide; [done|]. rewrite Ed. by apply Hc.
  - eapply latch_same; [|exact HL]. unfold latches. rewrite Hpg, list_fmap_insert. apply list_insert_id. by rewrite list_lookup_fmap, Hp.
  - split; [done|]. unfold page_ids. by rewrite Hpg, list_lookup_fmap, list_lookup_insert_eq.
  - intros g q Hne Hg. pose proof (sits_keeps _ _ _ _ g q (unpin_page_ids pid true) E1 Hg) as [G0 G1].
    split; [done|]. unfold page_ids in *. rewrite Hpg, list_lookup_fmap, list_lookup_insert_ne by lia. by rewrite list_lookup_fmap in G1.
Qed.

Lemma holding_idle s pg : holding s pg ∅ ∅ ∅ -> idle s pg.
Proof. intros HS. split; [done|]. intros f l Hf. by rewrite lookup_empty in Hf. Qed.

End Hold.

(** A pool just opened on a file is idle and shows the file. *)
Lemma idle_open {D} (zero : D) n f : Z.of_nat (length f) <= MAX_PAGES ->
  idle zero (BPM_new zero n (DiskManager_open f) (LRUReplacer.new n)) (fun q => load zero (Z.to_nat q) f).
Proof.
  intros Hlen. destruct (open_inv zero n f Hlen) as (I & _ & Hv & Hp & Hl).
  assert (Hno : forall i p, pages (BPM_new zero n (DiskManager_open f) (LRUReplacer.new n)) !! i = Some p -> p = Page_new zero).
  { intros i p Hi. simpl in Hi. by apply lookup_replicate in Hi as [? _]. }
  constructor; [constructor|]; auto.
  - intros q g m Hq. by rewrite lookup_empty in Hq.
  - intros q p _ Hr _. apply (resident_Some zero) in Hr as (i & Hi & Hid & Hv0); [|done].
    rewrite (Hno _ _ Hi) in Hid. simpl in Hid. congruence.
  - intros i p Hi. rewrite (Hno _ _ Hi), lookup_empty. done.
  - intros g l Hg. by rewrite lookup_empty in Hg.
Qed.
