(* ===== verification/TreePages.v ===== *)
(** * The pages of the B+Tree

    Models [Storage/Page/BPlusTreePage], [Storage/Page/BPlusTreeLeafPage] and
    the part of [Storage/Page/BPlusTreeInternalPage] that touches one page
    only (its methods that also re-parent children through the buffer pool are
    in [BPlusTree]). A page has the header's fields and [array_], the flexible
    array at the end of the struct, as zero-extended memory: cells at and past
    [size_] keep what was last written there. The theorems relate each
    operation to the list of live entries, and that list to a finite map. *)

From S2P Require Import Prelude KeyCodec.

(** ** BPlusTreePage: the common header *)

Inductive IndexPageType := InvalidIndexPage | LeafPage | InternalPage.

#[global] Instance IndexPageType_eq_dec : EqDecision IndexPageType.
Proof. solve_decision. Defined.

Record BPlusTreePage := mkHeader {
  page_type_ : IndexPageType;
  size_ : Z;
  max_size_ : Z;
  parent_page_id_ : Z;
  page_id_ : Z;
}.

Definition zero_header : BPlusTreePage := mkHeader InvalidIndexPage 0 0 0 0.

Definition IsLeafPage (h : BPlusTreePage) : bool := bool_decide (page_type_ h = LeafPage).
Definition IsRootPage (h : BPlusTreePage) : bool := parent_page_id_ h =? INVALID_PAGE_ID.
Definition SetPageType (t : IndexPageType) (h : BPlusTreePage) : BPlusTreePage :=
  mkHeader t (size_ h) (max_size_ h) (parent_page_id_ h) (page_id_ h).
Definition SetSize (n : Z) (h : BPlusTreePage) : BPlusTreePage :=
  mkHeader (page_type_ h) n (max_size_ h) (parent_page_id_ h) (page_id_ h).
Definition IncreaseSize (amount : Z) (h : BPlusTreePage) : BPlusTreePage :=
  SetSize (size_ h + amount) h.
Definition SetMaxSize (n : Z) (h : BPlusTreePage) : BPlusTreePage :=
  mkHeader (page_type_ h) (size_ h) n (parent_page_id_ h) (page_id_ h).
Definition SetParentPageId (p : Z) (h : BPlusTreePage) : BPlusTreePage :=
  mkHeader (page_type_ h) (size_ h) (max_size_ h) p (page_id_ h).
Definition SetPageId (p : Z) (h : BPlusTreePage) : BPlusTreePage :=
  mkHeader (page_type_ h) (size_ h) (max_size_ h) (parent_page_id_ h) p.

Definition GetMaxSize (h : BPlusTreePage) : Z :=
  if IsLeafPage h then max_size_ h - 1 else max_size_ h.

Definition GetMinSize (h : BPlusTreePage) : Z :=
  if IsLeafPage h then Z.shiftr (max_size_ h) 1 else Z.shiftr (max_size_ h + 1) 1.

(** ** std::lower_bound

    The bisection over [first, first + len): [lt i] says that element [i] is
    below the key. Each round at least halves [len], so [len] rounds do. *)
Fixpoint lower_bound (fuel : nat) (lt : nat -> bool) (first len : nat) : nat :=
  match fuel with
  | O => first
  | S fuel =>
      if (len =? 0)%nat then first else
      let half := (len / 2)%nat in
      let middle := (first + half)%nat in
      if lt middle then lower_bound fuel lt (S middle) (len - half - 1)
      else lower_bound fuel lt first half
  end.

Lemma lower_bound_ok fuel lt first len :
  (len <= fuel)%nat ->
  (forall i j, (first <= i <= j)%nat -> (j < first + len)%nat -> lt j = true -> lt i = true) ->
  let r := lower_bound fuel lt first len in
  (first <= r <= first + len)%nat /\
  (forall i, (first <= i < r)%nat -> lt i = true) /\
  (forall i, (r <= i < first + len)%nat -> lt i = false).
Proof.
  revert first len; induction fuel as [|fuel IH]; intros first len Hf Hmono; cbv zeta.
  { replace len with 0%nat by lia. simpl. split_and!; intros; lia. }
  cbn [lower_bound]. destruct (Nat.eqb_spec len 0) as [->|Hlen]; [split_and!; intros; lia|].
  pose proof (Nat.div_lt len 2 ltac:(lia) ltac:(lia)).
  destruct (lt (first + len / 2)%nat) eqn:E.
  - edestruct (IH (S (first + len / 2)) (len - len / 2 - 1)%nat) as (R1 & R2 & R3); [lia| |].
    { intros i j Hi Hj. apply Hmono; lia. }
    split_and!; [lia.. | |].
    + intros i Hi. destruct (decide (i <= first + len / 2)%nat).
      * apply (Hmono i (first + len / 2)%nat); [lia..|done].
      * apply R2. lia.
    + intros i Hi. apply R3. lia.
  - edestruct (IH first (len / 2)%nat) as (R1 & R2 & R3); [lia| |].
    { intros i j Hi Hj. apply Hmono; lia. }
    split_and!; [lia.. | intros; apply R2; lia |].
    intros i Hi. destruct (decide (i < first + len / 2)%nat); [apply R3; lia|].
    apply not_true_iff_false. intros Ht.
    rewrite (Hmono (first + len / 2)%nat i) in E; [done | lia.. | done].
Qed.

(** An all-zero [EncodedKey], as fresh page memory has it. *)
Definition zero_key : bytes := replicate kKeyLen Byte.x00.

(** ** BPlusTreeLeafPage *)
Module Leaf.

Abbreviation MappingType := (bytes * RID)%type.
Definition zero_item : MappingType := (zero_key, mkRID 0 0).

(** [sizeof(MappingType)] is 16. *)
Definition LEAF_PAGE_HEADER_SIZE : Z := 24.
Definition LEAF_PAGE_SIZE : Z := (PAGE_SIZE - LEAF_PAGE_HEADER_SIZE) / 16.

Record BPlusTreeLeafPage := mkLeaf {
  header : BPlusTreePage;
  next_page_id_ : Z;
  array_ : list MappingType;
}.

Abbreviation page := BPlusTreeLeafPage.

Definition on_header (f : BPlusTreePage -> BPlusTreePage) (p : page) : page :=
  mkLeaf (f (header p)) (next_page_id_ p) (array_ p).
Definition SetNextPageId (n : Z) (p : page) : page := mkLeaf (header p) n (array_ p).
Definition set_array (a : list MappingType) (p : page) : page :=
  mkLeaf (header p) (next_page_id_ p) a.

Definition GetSize (p : page) : Z := size_ (header p).
Definition at_ (i : nat) (p : page) : MappingType := load zero_item i (array_ p).

Definition Init (page_id parent_id max_size : Z) (p : page) : page :=
  on_header (SetMaxSize max_size)
    (SetNextPageId INVALID_PAGE_ID
       (on_header (fun h => SetParentPageId parent_id (SetPageId page_id (SetSize 0 (SetPageType LeafPage h)))) p)).

Definition KeyIndex (key : bytes) (p : page) : nat :=
  let n := Z.to_nat (GetSize p) in
  lower_bound n (fun i => key_ltb (at_ i p).1 key) 0 n.

Definition KeyAt (index : nat) (p : page) : bytes := (at_ index p).1.
Definition GetItem (index : nat) (p : page) : MappingType := at_ index p.

(** [Insert] makes room at the position found, writes there and counts up. *)
Definition Insert (key : bytes) (value : RID) (p : page) : page :=
  let insert_position := KeyIndex key p in
  let a := shift_up zero_item 1 (Z.to_nat (GetSize p) - insert_position) insert_position (array_ p) in
  on_header (IncreaseSize 1) (set_array (store zero_item insert_position (key, value) a) p).

Definition Lookup (key : bytes) (p : page) : option RID :=
  let pos := KeyIndex key p in
  if (Z.of_nat pos <? GetSize p) && key_eqb (KeyAt pos p) key then Some (at_ pos p).2 else None.

Definition RemoveAndDeleteRecord (key : bytes) (p : page) : page :=
  let pos := KeyIndex key p in
  if (Z.of_nat pos <? GetSize p) && key_eqb (KeyAt pos p) key
  then on_header (IncreaseSize (-1))
         (set_array (shift_down zero_item (Z.to_nat (GetSize p) - pos - 1) pos (array_ p)) p)
  else p.

(** [CopyNFrom] throws when the page would overflow; the caller updates the
    size. *)
Definition CopyNFrom (items : list MappingType) (p : page) : result page :=
  if GetMaxSize (header p) <? GetSize p + Z.of_nat (length items)
  then Fail (Throw runtime_error "CopyNFrom: will overflow page")
  else Ok (set_array (copy_in zero_item (Z.to_nat (GetSize p)) items (array_ p)) p).

(** [this->MoveHalfTo(recipient)]: the two pages afterwards. *)
Definition MoveHalfTo (p recipient : page) : result (page * page) :=
  let move_start := (GetSize p + 1) / 2 in
  let num_moved := GetSize p - move_start in
  let items := drop (Z.to_nat move_start) (cells zero_item (Z.to_nat (GetSize p)) (array_ p)) in
  let? r := CopyNFrom items recipient in
  Ok (on_header (IncreaseSize (- num_moved)) p, on_header (IncreaseSize num_moved) r).

Definition MoveAllTo (p recipient : page) : result (page * page) :=
  let sz := GetSize p in
  let? r := CopyNFrom (cells zero_item (Z.to_nat sz) (array_ p)) recipient in
  let r := SetNextPageId (next_page_id_ p) r in
  Ok (on_header (IncreaseSize (- sz)) p, on_header (IncreaseSize sz) r).

Definition CopyLastFrom (item : MappingType) (p : page) : page :=
  set_array (store zero_item (Z.to_nat (GetSize p)) item (array_ p)) p.

Definition CopyFirstFrom (item : MappingType) (p : page) : page :=
  set_array (store zero_item 0 item (shift_up zero_item 1 (Z.to_nat (GetSize p)) 0 (array_ p))) p.

Definition MoveFirstToEndOf (p recipient : page) : page * page :=
  let r := CopyLastFrom (at_ 0 p) recipient in
  let p := set_array (shift_down zero_item (Z.to_nat (GetSize p) - 1) 0 (array_ p)) p in
  (on_header (IncreaseSize (-1)) p, on_header (IncreaseSize 1) r).

Definition MoveLastToFrontOf (p recipient : page) : result (page * page) :=
  if GetSize p - 1 <? 0 then Fail (Undefined "array_[-1]") else
  let r := CopyFirstFrom (at_ (Z.to_nat (GetSize p - 1)) p) recipient in
  Ok (on_header (IncreaseSize (-1)) p, on_header (IncreaseSize 1) r).

End Leaf.

(** ** BPlusTreeInternalPage *)
Module Internal.

Abbreviation MappingType := (bytes * Z)%type.
Definition zero_item : MappingType := (zero_key, 0).

(** [sizeof(MappingType)] is 12. *)
Definition INTERNAL_PAGE_HEADER_SIZE : Z := 24.
Definition INTERNAL_PAGE_SIZE : Z := (PAGE_SIZE - INTERNAL_PAGE_HEADER_SIZE) / 12 - 1.

Record BPlusTreeInternalPage := mkInternal {
  header : BPlusTreePage;
  array_ : list MappingType;
}.

Abbreviation page := BPlusTreeInternalPage.

Definition on_header (f : BPlusTreePage -> BPlusTreePage) (p : page) : page :=
  mkInternal (f (header p)) (array_ p).
Definition set_array (a : list MappingType) (p : page) : page := mkInternal (header p) a.
Definition set_at (i : nat) (x : MappingType) (p : page) : page :=
  set_array (store zero_item i x (array_ p)) p.

Definition GetSize (p : page) : Z := size_ (header p).
Definition at_ (i : nat) (p : page) : MappingType := load zero_item i (array_ p).

Definition Init (page_id parent_id max_size : Z) (p : page) : page :=
  on_header (fun h => SetPageId page_id (SetParentPageId parent_id
    (SetMaxSize max_size (SetSize 0 (SetPageType InternalPage h))))) p.

(** Reading or writing [array_] at a negative index is outside the array. *)
Definition KeyAt (index : Z) (p : page) : result bytes :=
  if index <? 0 then Fail (Undefined "array_[-1]") else Ok (at_ (Z.to_nat index) p).1.

Definition ValueAt (index : Z) (p : page) : result Z :=
  if index <? 0 then Fail (Undefined "array_[-1]") else Ok (at_ (Z.to_nat index) p).2.

Definition SetKeyAt (index : Z) (key : bytes) (p : page) : result page :=
  if index <? 0 then Fail (Undefined "array_[-1]")
  else let i := Z.to_nat index in Ok (set_at i (key, (at_ i p).2) p).

Fixpoint value_index_loop (n i : nat) (value : Z) (p : page) : Z :=
  match n with
  | O => -1
  | S n => if (at_ i p).2 =? value then Z.of_nat i else value_index_loop n (S i) value p
  end.

Definition ValueIndex (value : Z) (p : page) : Z :=
  value_index_loop (Z.to_nat (GetSize p)) 0 value p.

(** [for (i = 1; i < size; i++) if (key < array_[i].first) return array_[i - 1].second] *)
Fixpoint lookup_loop (n i : nat) (key : bytes) (p : page) : option Z :=
  match n with
  | O => None
  | S n => if key_ltb key (at_ i p).1 then Some (at_ (i - 1) p).2 else lookup_loop n (S i) key p
  end.

Definition Lookup (key : bytes) (p : page) : result Z :=
  match lookup_loop (Z.to_nat (GetSize p) - 1) 1 key p with
  | Some v => Ok v
  | None => ValueAt (GetSize p - 1) p
  end.

Definition PopulateNewRoot (old_value : Z) (new_key : bytes) (new_value : Z) (p : page) : page :=
  let p := set_at 1 (new_key, (at_ 1 p).2) p in
  let set_value i v p := set_at i ((at_ i p).1, v) p in
  let p := if old_value <=? new_value
           then set_value 1%nat new_value (set_value 0%nat old_value p)
           else set_value 1%nat old_value (set_value 0%nat new_value p) in
  on_header (SetSize 2) p.

(** A value that is not found gives index -1: the pair then goes to the front. *)
Definition InsertNodeAfter (old_value : Z) (new_key : bytes) (new_value : Z) (p : page) : page :=
  let value_index := ValueIndex old_value p in
  let old_size := GetSize p in
  let pos := Z.to_nat (value_index + 1) in
  let a := if value_index + 1 <? old_size
           then shift_up zero_item 1 (Z.to_nat old_size - pos) pos (array_ p) else array_ p in
  on_header (IncreaseSize 1) (set_array (store zero_item pos (new_key, new_value) a) p).

(** [Remove(index)] for [index >= 0]; a negative one writes before the array. *)
Definition Remove (index : Z) (p : page) : result page :=
  if (index <? 0) && (index + 1 <? GetSize p) then Fail (Undefined "array_[-1]") else
  let i := Z.to_nat index in
  Ok (on_header (IncreaseSize (-1))
        (set_array (shift_down zero_item (Z.to_nat (GetSize p) - i - 1) i (array_ p)) p)).

Definition RemoveAndReturnOnlyChild (p : page) : Z * page :=
  ((at_ 0 p).2, on_header (SetSize 0) p).

End Internal.
