(* ===== verification/TreePagesSpec.v ===== *)
(** * What the page operations do to the entries

    The live entries of a page are the first [size_] cells of [array_]. On a
    page whose live keys are well formed and strictly increasing, the leaf
    operations are those of a finite map, splitting and merging move entries
    without losing or reordering any, and the internal page's [Lookup] routes a
    key to the child whose key range contains it. *)

From Stdlib Require Import Sorting.Sorted.
From S2P Require Import Prelude KeyCodec TreePages.

(** ** Sorted entry lists *)
Section Entries.

Context {V : Type}.
Implicit Types (l : list (bytes * V)) (x y : bytes * V) (k : bytes).

Definition entry_lt x y : Prop := key_num x.1 < key_num y.1.

Record entries_ok l : Prop := {
  ok_wf : Forall (fun x => key_wf x.1) l;
  ok_sorted : StronglySorted entry_lt l;
}.

Lemma sorted_app l1 l2 :
  StronglySorted entry_lt (l1 ++ l2) <->
  StronglySorted entry_lt l1 /\ StronglySorted entry_lt l2 /\
  (forall x y, x ∈ l1 -> y ∈ l2 -> entry_lt x y).
Proof.
  induction l1 as [|a l1 IH]; simpl.
  - split; [intros; split_and!; auto using SSorted_nil; set_solver | tauto].
  - split.
    + intros Hs. inversion Hs as [|? ? Hs' Hf]; subst. apply IH in Hs' as (H1 & H2 & H3).
      apply Forall_app in Hf as [Hf1 Hf2]. rewrite Forall_forall in Hf2.
      split_and!; [by constructor | done |]. intros x y [->|Hx]%elem_of_cons Hy; auto.
    + intros (H1 & H2 & H3). inversion H1 as [|? ? Hs' Hf]; subst.
      constructor; [apply IH; split_and!; auto; set_solver|].
      apply Forall_app. split; [done|]. apply Forall_forall. set_solver.
Qed.

Lemma entries_app l1 l2 :
  entries_ok (l1 ++ l2) <->
  entries_ok l1 /\ entries_ok l2 /\ (forall x y, x ∈ l1 -> y ∈ l2 -> entry_lt x y).
Proof.
  split.
  - intros [Hw Hs]. apply Forall_app in Hw as [? ?]. apply sorted_app in Hs as (? & ? & ?).
    split_and!; [by constructor.. | done].
  - intros ([? ?] & [? ?] & ?). constructor; [by apply Forall_app | by apply sorted_app].
Qed.

Lemma entries_nil : entries_ok [].
Proof. constructor; constructor. Qed.

Lemma entries_single k (v : V) : key_wf k -> entries_ok [(k, v)].
Proof. intros. constructor; repeat constructor; done. Qed.

Lemma entries_lookup_lt l i j x y :
  entries_ok l -> (i < j)%nat -> l !! i = Some x -> l !! j = Some y -> entry_lt x y.
Proof.
  intros Hl Hij Hi Hj. rewrite <- (take_drop j l) in Hl. apply entries_app in Hl as (_ & _ & Hlt).
  apply Hlt.
  - eapply list_elem_of_lookup_2. rewrite lookup_take_lt by done. exact Hi.
  - eapply (list_elem_of_lookup_2 _ 0). by rewrite lookup_drop, Nat.add_0_r.
Qed.

Lemma entries_wf l x : entries_ok l -> x ∈ l -> key_wf x.1.
Proof. intros [Hw _] Hx. rewrite Forall_forall in Hw. auto. Qed.

Lemma entries_nodup l : entries_ok l -> NoDup l.*1.
Proof.
  intros [_ Hs]. induction Hs as [|x l Hs IH Hf]; [constructor|]. simpl. constructor; [|done].
  intros (y & Hy & Hin)%list_elem_of_fmap. rewrite Forall_forall in Hf. specialize (Hf y Hin).
  unfold entry_lt in Hf. rewrite Hy in Hf. lia.
Qed.

(** The finite map of a list of entries. *)
Definition to_map l : gmap bytes V := list_to_map l.

Lemma to_map_Some l k v : entries_ok l -> to_map l !! k = Some v <-> (k, v) ∈ l.
Proof. intros Hl. symmetry. apply elem_of_list_to_map, entries_nodup, Hl. Qed.

Lemma to_map_None l k : to_map l !! k = None <-> k ∉ l.*1.
Proof. symmetry. apply not_elem_of_list_to_map. Qed.

(** Entries in the middle of others stand for their own keys. *)
Lemma to_map_middle l1 l l2 k : entries_ok (l1 ++ l ++ l2) -> k ∉ l1.*1 -> k ∉ l2.*1 ->
  to_map (l1 ++ l ++ l2) !! k = to_map l !! k.
Proof.
  intros Hok H1 H2. pose proof Hok as (_ & (Hl & _)%entries_app & _)%entries_app.
  apply option_eq. intros v. rewrite !to_map_Some by done. rewrite !elem_of_app. split; [|tauto].
  intros [H|[H|H]]; [|done|]; exfalso; [apply H1 | apply H2]; by apply (list_elem_of_fmap_2 fst _ (k, v)).
Qed.

Lemma to_map_replace l1 l l' l2 k v : entries_ok (l1 ++ l ++ l2) -> entries_ok (l1 ++ l' ++ l2) ->
  to_map l' = <[k := v]> (to_map l) -> to_map (l1 ++ l ++ l2) !! k = None ->
  to_map (l1 ++ l' ++ l2) = <[k := v]> (to_map (l1 ++ l ++ l2)).
Proof.
  intros Hok Hok' Hl' Hno. pose proof Hok as (_ & (Hl & _)%entries_app & _)%entries_app.
  pose proof Hok' as (_ & (Hlo' & _)%entries_app & _)%entries_app.
  assert (Hin : forall k' v', (k', v') ∈ l' <-> (<[k := v]> (to_map l)) !! k' = Some v') by (intros; by rewrite <- to_map_Some, Hl').
  apply map_eq. intros k'. apply option_eq. intros v'. rewrite to_map_Some, !elem_of_app, Hin by done.
  destruct (decide (k' = k)) as [->|Hne].
  - rewrite !lookup_insert_eq. apply to_map_None in Hno. rewrite !fmap_app, !elem_of_app in Hno. split; [|tauto].
    intros [H|[H|H]]; [|done|]; exfalso; apply Hno; [left | right; right]; by apply (list_elem_of_fmap_2 fst _ (k, v')).
  - rewrite !lookup_insert_ne, !to_map_Some, !elem_of_app by done. done.
Qed.

(** A split of the entries around a key. *)
Definition split_at k (n : nat) l : Prop :=
  (n <= length l)%nat /\
  (forall x, x ∈ take n l -> key_num x.1 < key_num k) /\
  (forall x, x ∈ drop n l -> key_num k <= key_num x.1).

Lemma insert_at_ok l k v n :
  entries_ok l -> key_wf k -> split_at k n l -> to_map l !! k = None ->
  entries_ok (take n l ++ (k, v) :: drop n l) /\
  to_map (take n l ++ (k, v) :: drop n l) = <[k := v]> (to_map l).
Proof.
  intros Hl Hk (Hn & Hlo & Hhi) Hno.
  assert (Hhi' : forall x, x ∈ drop n l -> key_num k < key_num x.1).
  { intros x Hx. specialize (Hhi x Hx). enough (key_num k <> key_num x.1) by lia. intros E.
    assert (x ∈ l) by (rewrite <- (take_drop n l); set_solver).
    apply key_num_inj in E; [|done|by eapply entries_wf].
    apply to_map_None in Hno. apply Hno. rewrite E. apply list_elem_of_fmap. eauto. }
  assert (Hok : entries_ok (take n l ++ (k, v) :: drop n l)).
  { pose proof Hl as Hl'. rewrite <- (take_drop n l) in Hl'. apply entries_app in Hl' as (H1 & H2 & H3).
    apply entries_app. split_and!; [done | |].
    - apply (entries_app [(k, v)]). split_and!; [by apply entries_single | done |].
      intros x y ->%list_elem_of_singleton Hy. by apply Hhi'.
    - intros x y Hx [->|Hy]%elem_of_cons; [by apply Hlo | by apply H3]. }
  split; [done|]. apply map_eq. intros k'. apply option_eq. intros v'.
  rewrite to_map_Some, lookup_insert_Some, to_map_Some by done.
  rewrite elem_of_app, elem_of_cons. rewrite <- (take_drop n l) at 3. rewrite elem_of_app.
  apply to_map_None in Hno. split.
  - intros [H|[H|H]]; [|naive_solver|]; right; (split; [|auto]); intros <-; apply Hno, list_elem_of_fmap;
      exists (k, v'); (split; [done|]); rewrite <- (take_drop n l); set_solver.
  - naive_solver.
Qed.

Lemma remove_at_ok l k n v :
  entries_ok l -> l !! n = Some (k, v) ->
  entries_ok (take n l ++ drop (S n) l) /\
  to_map (take n l ++ drop (S n) l) = delete k (to_map l).
Proof.
  intros Hl Hn. pose proof (take_drop_middle _ _ _ Hn) as Hsplit.
  pose proof Hl as Hl'. rewrite <- Hsplit in Hl'. apply entries_app in Hl' as (H1 & H2 & H3).
  apply (entries_app [(k, v)]) in H2 as (_ & H2 & H4).
  assert (Hok : entries_ok (take n l ++ drop (S n) l)).
  { apply entries_app. split_and!; [done..|]. intros x y Hx Hy. apply H3; set_solver. }
  split; [done|]. apply map_eq. intros k'. apply option_eq. intros v'.
  rewrite to_map_Some, lookup_delete_Some, to_map_Some by done.
  rewrite <- Hsplit at 3. rewrite !elem_of_app, elem_of_cons. split.
  - intros H. split; [|naive_solver]. intros <-. destruct H as [H|H].
    + specialize (H3 (k, v') (k, v) H ltac:(set_solver)). unfold entry_lt in H3. simpl in H3. lia.
    + specialize (H4 (k, v) (k, v') ltac:(set_solver) H). unfold entry_lt in H4. simpl in H4. lia.
  - naive_solver.
Qed.

(** The entry a key would have, by its split. *)
Lemma lookup_split l k n : entries_ok l -> key_wf k -> split_at k n l ->
  to_map l !! k = match l !! n with
                  | Some x => if decide (x.1 = k) then Some x.2 else None
                  | None => None
                  end.
Proof.
  intros Hl Hk (Hn & Hlo & Hhi). apply option_eq. intros v. rewrite to_map_Some by done.
  assert (Hdrop : (k, v) ∈ l <-> (k, v) ∈ drop n l).
  { rewrite <- (take_drop n l) at 1. rewrite elem_of_app. split; [|tauto].
    intros [H|H]; [|done]. apply Hlo in H. simpl in H. lia. }
  rewrite Hdrop. destruct (l !! n) as [[k' v']|] eqn:E.
  - rewrite (drop_S _ _ _ E), elem_of_cons.
    assert (Hlater : (k, v) ∈ drop (S n) l -> key_num k' < key_num k).
    { intros H. pose proof Hl as Hl'. rewrite <- (take_drop_middle _ _ _ E) in Hl'.
      apply entries_app in Hl' as (_ & Hl' & _).
      apply (entries_app [(k', v')]) in Hl' as (_ & _ & Hlt). apply (Hlt (k', v') _ ltac:(set_solver) H). }
    assert (key_num k <= key_num k').
    { apply (Hhi (k', v')). rewrite (drop_S _ _ _ E). set_solver. }
    case_decide as Ek; simpl in *; [naive_solver lia|].
    split; [|done]. intros [[= -> ->]|H']; [done|]. specialize (Hlater H'). lia.
  - rewrite drop_ge by by apply lookup_ge_None. set_solver.
Qed.

End Entries.

(** ** Cell rearrangements as list operations *)
Section Rearrange.

Context {A : Type} (d : A).
Implicit Types (l a : list A).

Lemma cells_store_end n x a : cells d (S n) (store d n x a) = cells d n a ++ [x].
Proof.
  apply list_eq. intros i. rewrite lookup_cells, load_store.
  destruct (decide (i < n)%nat); [rewrite lookup_app_l, lookup_cells by (rewrite length_cells; lia)|
    rewrite lookup_app_r by (rewrite length_cells; lia); rewrite length_cells].
  - decides.
  - destruct (decide (i = n)) as [->|].
    + rewrite Nat.sub_diag. decides.
    + rewrite lookup_ge_None_2 by (simpl; lia). decides.
Qed.

Lemma cells_insert_at n pos x a : (pos <= n)%nat ->
  cells d (S n) (store d pos x (shift_up d 1 (n - pos) pos a)) =
  take pos (cells d n a) ++ x :: drop pos (cells d n a).
Proof.
  intros Hp. apply list_eq. intros i. rewrite lookup_cells, load_store, load_shift_up by lia.
  assert (Ht : length (take pos (cells d n a)) = pos) by (rewrite length_take, length_cells; lia).
  destruct (decide (i < pos)%nat).
  - rewrite lookup_app_l, lookup_take_lt, lookup_cells by lia.
    decides.
  - rewrite lookup_app_r by lia. rewrite Ht. destruct (decide (i = pos)) as [->|].
    + rewrite Nat.sub_diag. decides.
    + replace (i - pos)%nat with (S (i - pos - 1)) by lia. simpl. rewrite lookup_drop, lookup_cells.
      replace (pos + (i - pos - 1))%nat with (i - 1)%nat by lia.
      decides.
Qed.

Lemma cells_remove_at n pos a : (pos < n)%nat ->
  cells d (n - 1) (shift_down d (n - pos - 1) pos a) =
  take pos (cells d n a) ++ drop (S pos) (cells d n a).
Proof.
  intros Hp. apply list_eq. intros i. rewrite lookup_cells, load_shift_down.
  assert (Ht : length (take pos (cells d n a)) = pos) by (rewrite length_take, length_cells; lia).
  destruct (decide (i < pos)%nat).
  - rewrite lookup_app_l, lookup_take_lt, lookup_cells by lia.
    decides.
  - rewrite lookup_app_r, Ht, lookup_drop, lookup_cells by lia.
    replace (S pos + (i - pos))%nat with (S i) by lia.
    decides.
Qed.

Lemma cells_copy_in n items a : (0 <= n)%nat ->
  cells d (n + length items) (copy_in d n items a) = cells d n a ++ items.
Proof.
  intros _. apply list_eq. intros i. rewrite lookup_cells, load_copy_in.
  destruct (decide (i < n)%nat).
  - rewrite lookup_app_l, lookup_cells by (rewrite length_cells; lia).
    decides.
  - rewrite lookup_app_r, length_cells by (rewrite length_cells; lia).
    destruct (decide (i < n + length items)%nat).
    + repeat (case_decide; try lia). unfold load.
      destruct (lookup_lt_is_Some_2 items (i - n)) as [x Hx]; [lia|]. by rewrite Hx.
    + rewrite lookup_ge_None_2 by lia. decides.
Qed.

Lemma cells_prefix n m a : (m <= n)%nat -> cells d m a = take m (cells d n a).
Proof.
  intros Hm. apply list_eq. intros i. rewrite lookup_cells. destruct (decide (i < m)%nat).
  - rewrite lookup_take_lt, lookup_cells by lia. decides.
  - rewrite lookup_take_ge by lia. decides.
Qed.

Lemma cells_tail n a : cells d (n - 1) (shift_down d (n - 1) 0 a) = tail (cells d n a).
Proof.
  destruct n as [|n]; [done|]. pose proof (cells_remove_at (S n) 0 a ltac:(lia)) as H.
  rewrite Nat.sub_0_r in H. rewrite H. simpl. by rewrite drop_0.
Qed.

End Rearrange.

(** ** Leaf pages *)
Section LeafSpec.

Import Leaf.
Implicit Types (p r : Leaf.BPlusTreeLeafPage) (k : bytes) (v : RID).

(** The live entries, in page order. *)
Definition leaf_entries p : list (bytes * RID) := cells zero_item (Z.to_nat (GetSize p)) (array_ p).

Record leaf_ok p : Prop := {
  leaf_size : 0 <= GetSize p;
  leaf_entries_ok : entries_ok (leaf_entries p);
}.

Lemma length_leaf p : 0 <= GetSize p -> Z.of_nat (length (leaf_entries p)) = GetSize p.
Proof. intros. unfold leaf_entries. rewrite length_cells. lia. Qed.

Lemma leaf_lookup p i : 0 <= GetSize p ->
  leaf_entries p !! i = if decide (Z.of_nat i < GetSize p) then Some (at_ i p) else None.
Proof. intros. unfold leaf_entries, at_. rewrite lookup_cells. decides. Qed.

Lemma KeyIndex_split p k : leaf_ok p -> key_wf k -> split_at k (KeyIndex k p) (leaf_entries p).
Proof.
  intros [Hsz Hok] Hk. set (n := Z.to_nat (GetSize p)).
  assert (Hat : forall i, (i < n)%nat -> leaf_entries p !! i = Some (at_ i p)).
  { intros i Hi. rewrite leaf_lookup by done. decides. }
  assert (Hlt : forall i, (i < n)%nat -> key_ltb (at_ i p).1 k = (key_num (at_ i p).1 <? key_num k)).
  { intros i Hi. apply key_ltb_num; [|done]. eapply entries_wf; [done|].
    eapply list_elem_of_lookup_2, Hat, Hi. }
  destruct (lower_bound_ok n (fun i => key_ltb (at_ i p).1 k) 0 n) as (R1 & R2 & R3); [lia| |].
  { intros i j Hij Hj. simpl in Hj. rewrite !Hlt by lia. rewrite !Z.ltb_lt. intros Hj'.
    destruct (decide (i = j)) as [->|]; [done|].
    pose proof (entries_lookup_lt _ i j _ _ Hok ltac:(lia) (Hat i ltac:(lia)) (Hat j Hj)) as H.
    unfold entry_lt in H. lia. }
  unfold split_at, KeyIndex. fold n. simpl in R1, R3. cbv zeta.
  split_and!.
  - unfold leaf_entries. rewrite length_cells. fold n. lia.
  - intros x Hx. apply list_elem_of_lookup in Hx as [i Hi]. rewrite lookup_take_Some in Hi. destruct Hi as [Hi Hn]. destruct (decide (i < n)%nat).
    + rewrite Hat in Hi by done. simplify_eq. apply Z.ltb_lt. rewrite <- Hlt by done. apply R2. lia.
    + apply lookup_lt_Some in Hi. unfold leaf_entries in Hi. rewrite length_cells in Hi. lia.
  - intros x [i Hi]%list_elem_of_lookup. rewrite lookup_drop in Hi.
    pose proof (lookup_lt_Some _ _ _ Hi) as Hlen. unfold leaf_entries in Hlen.
    rewrite length_cells in Hlen. fold n in Hlen. rewrite Hat in Hi by lia. simplify_eq.
    apply Z.ltb_ge. rewrite <- Hlt by lia. apply R3. lia.
Qed.

(** *** The operations, on the entries *)

Lemma Insert_entries p k v : leaf_ok p -> key_wf k ->
  GetSize (Insert k v p) = GetSize p + 1 /\
  leaf_entries (Insert k v p) =
    take (KeyIndex k p) (leaf_entries p) ++ (k, v) :: drop (KeyIndex k p) (leaf_entries p).
Proof.
  intros Hp Hk. split; [done|]. destruct (KeyIndex_split p k Hp Hk) as (Hn & _).
  unfold leaf_entries in *. rewrite length_cells in Hn. rewrite <- cells_insert_at by done.
  unfold Insert, GetSize. simpl. f_equal. pose proof (leaf_size p Hp) as Hs. unfold GetSize in Hs. lia.
Qed.

Lemma Insert_ok p k v : leaf_ok p -> key_wf k -> to_map (leaf_entries p) !! k = None ->
  leaf_ok (Insert k v p) /\ to_map (leaf_entries (Insert k v p)) = <[k := v]> (to_map (leaf_entries p)).
Proof.
  intros Hp Hk Hno. destruct (Insert_entries p k v Hp Hk) as [Hs ->].
  destruct (insert_at_ok (leaf_entries p) k v (KeyIndex k p)) as [Ho Hm]; auto using leaf_entries_ok, KeyIndex_split.
  split; [|done]. constructor.
  - rewrite Hs. pose proof (leaf_size p Hp). lia.
  - destruct (Insert_entries p k v Hp Hk) as [_ ->]. done.
Qed.

(** The test both [Lookup] and [RemoveAndDeleteRecord] make. *)
Lemma found_at p k : leaf_ok p -> key_wf k ->
  let pos := KeyIndex k p in
  let found := (Z.of_nat pos <? GetSize p) && key_eqb (KeyAt pos p) k in
  to_map (leaf_entries p) !! k = (if found then Some (at_ pos p).2 else None) /\
  (found = true -> leaf_entries p !! pos = Some (k, (at_ pos p).2)).
Proof.
  intros Hp Hk pos found. pose proof Hp as [Hsz Hok].
  rewrite (lookup_split _ k pos) by (auto; by apply KeyIndex_split).
  assert (Hl : leaf_entries p !! pos = if decide (Z.of_nat pos < GetSize p) then Some (at_ pos p) else None)
    by (apply leaf_lookup; done).
  subst found. unfold KeyAt. destruct (Z.ltb_spec (Z.of_nat pos) (GetSize p)).
  - rewrite decide_True in Hl by done. rewrite Hl. simpl.
    assert (Hw : key_wf (at_ pos p).1).
    { eapply entries_wf; [done|]. eapply list_elem_of_lookup_2, Hl. }
    pose proof (key_eqb_eq _ k Hw Hk) as He. destruct (key_eqb (at_ pos p).1 k).
    + rewrite decide_True by tauto. split; [done|]. intros _.
      rewrite <- (proj1 He eq_refl). by destruct (at_ pos p).
    + rewrite decide_False; [done|]. intros E. apply He in E. discriminate.
  - rewrite Hl, decide_False by lia. done.
Qed.

Lemma Lookup_map p k : leaf_ok p -> key_wf k -> Lookup k p = to_map (leaf_entries p) !! k.
Proof. intros Hp Hk. destruct (found_at p k Hp Hk) as [-> _]. done. Qed.

Lemma Remove_ok p k : leaf_ok p -> key_wf k ->
  leaf_ok (RemoveAndDeleteRecord k p) /\
  to_map (leaf_entries (RemoveAndDeleteRecord k p)) = delete k (to_map (leaf_entries p)).
Proof.
  intros Hp Hk. destruct (found_at p k Hp Hk) as [Hm Hf]. unfold RemoveAndDeleteRecord. cbv zeta in *.
  destruct (_ && _) eqn:E.
  - specialize (Hf eq_refl). pose proof Hp as [Hsz Hok].
    destruct (remove_at_ok _ _ _ _ Hok Hf) as [Ho Hd].
    apply andb_true_iff in E as [E _]. apply Z.ltb_lt in E.
    set (p' := on_header _ _).
    assert (He : leaf_entries p' =
      take (KeyIndex k p) (leaf_entries p) ++ drop (S (KeyIndex k p)) (leaf_entries p)).
    { unfold leaf_entries. rewrite <- cells_remove_at by lia. subst p'. unfold GetSize in *. simpl.
      f_equal. lia. }
    rewrite He. split; [|done]. constructor; [|by rewrite He].
    subst p'. unfold GetSize in *. simpl. lia.
  - split; [done|]. rewrite delete_id; done.
Qed.

(** *** Moving entries between two pages *)

Lemma CopyNFrom_entries items r : 0 <= GetSize r ->
  GetSize r + Z.of_nat (length items) <= GetMaxSize (header r) ->
  exists r', CopyNFrom items r = Ok r' /\ header r' = header r /\ next_page_id_ r' = next_page_id_ r /\
    cells zero_item (Z.to_nat (GetSize r) + length items) (array_ r') = leaf_entries r ++ items.
Proof.
  intros Hr Hfit. unfold CopyNFrom. destruct (Z.ltb_spec (GetMaxSize (header r)) (GetSize r + Z.of_nat (length items))); [lia|].
  eexists. split_and!; [done..|]. simpl. apply cells_copy_in. lia.
Qed.

Lemma MoveHalfTo_entries p r : 0 <= GetSize p -> 0 <= GetSize r ->
  GetSize r + GetSize p / 2 <= GetMaxSize (header r) ->
  let m := Z.to_nat ((GetSize p + 1) / 2) in
  exists p' r', MoveHalfTo p r = Ok (p', r') /\
    leaf_entries p' = take m (leaf_entries p) /\
    leaf_entries r' = leaf_entries r ++ drop m (leaf_entries p) /\
    GetSize p' = (GetSize p + 1) / 2 /\ GetSize r' = GetSize r + GetSize p / 2 /\
    next_page_id_ p' = next_page_id_ p /\ next_page_id_ r' = next_page_id_ r.
Proof.
  intros Hp Hr Hfit m.
  assert (Hm : GetSize p - (GetSize p + 1) / 2 = GetSize p / 2) by div_lia.
  pose (items := drop m (leaf_entries p)).
  assert (Hlen : Z.of_nat (length items) = GetSize p / 2).
  { subst items m. rewrite length_drop. pose proof (length_leaf p Hp). div_lia. }
  destruct (CopyNFrom_entries items r Hr) as (r' & E & Hh & Hn & Hc); [lia|].
  unfold MoveHalfTo. fold m. change (drop m _) with items. rewrite E. simpl. eexists _, _. split; [reflexivity|].
  unfold leaf_entries at 1 3. unfold GetSize in *. simpl. rewrite Hh, Hm. split_and!; try div_lia; auto.
  - rewrite (cells_prefix _ (Z.to_nat (size_ (header p)))) by div_lia. unfold leaf_entries. f_equal. subst m. f_equal. div_lia.
  - rewrite <- Hc. f_equal. div_lia.
Qed.

Lemma MoveAllTo_entries p r : 0 <= GetSize p -> 0 <= GetSize r ->
  GetSize r + GetSize p <= GetMaxSize (header r) ->
  exists p' r', MoveAllTo p r = Ok (p', r') /\ leaf_entries p' = [] /\
    leaf_entries r' = leaf_entries r ++ leaf_entries p /\
    next_page_id_ r' = next_page_id_ p /\ GetSize r' = GetSize r + GetSize p.
Proof.
  intros Hp Hr Hfit. pose proof (length_leaf p Hp) as Hlen.
  destruct (CopyNFrom_entries (leaf_entries p) r Hr) as (r' & E & Hh & Hn & Hc); [lia|].
  unfold MoveAllTo. fold (leaf_entries p). rewrite E. simpl. eexists _, _. split; [reflexivity|].
  unfold leaf_entries at 1 2. unfold GetSize in *. simpl. rewrite Hh. split_and!; auto.
  - rewrite Z.add_opp_diag_r. done.
  - rewrite <- Hc. f_equal. lia.
Qed.

Lemma MoveFirstToEndOf_entries p r x l : 0 <= GetSize p -> 0 <= GetSize r -> leaf_entries p = x :: l ->
  let '(p', r') := MoveFirstToEndOf p r in
  leaf_entries p' = l /\ leaf_entries r' = leaf_entries r ++ [x] /\
  GetSize p' = GetSize p - 1 /\ GetSize r' = GetSize r + 1.
Proof.
  intros Hp Hr Hl. pose proof (length_leaf p Hp) as Hlen. rewrite Hl in Hlen. simpl in Hlen.
  assert (Hx : at_ 0 p = x).
  { pose proof (leaf_lookup p 0 Hp) as H0. rewrite Hl, decide_True in H0 by lia. by injection H0. }
  simpl. unfold leaf_entries at 1 2. unfold GetSize in *. simpl. split_and!; [| | lia | lia].
  - replace (Z.to_nat (size_ (header p) + -1)) with (Z.to_nat (size_ (header p)) - 1)%nat by lia.
    rewrite cells_tail. fold (GetSize p) (leaf_entries p). by rewrite Hl.
  - rewrite Hx. replace (Z.to_nat (size_ (header r) + 1)) with (S (Z.to_nat (size_ (header r)))) by lia.
    apply cells_store_end.
Qed.

Lemma MoveLastToFrontOf_entries p r x l : 0 <= GetSize p -> 0 <= GetSize r -> leaf_entries p = l ++ [x] ->
  exists p' r', MoveLastToFrontOf p r = Ok (p', r') /\
    leaf_entries p' = l /\ leaf_entries r' = x :: leaf_entries r /\
    GetSize p' = GetSize p - 1 /\ GetSize r' = GetSize r + 1.
Proof.
  intros Hp Hr Hl. pose proof (length_leaf p Hp) as Hlen. rewrite Hl, length_app in Hlen. simpl in Hlen.
  unfold MoveLastToFrontOf. destruct (Z.ltb_spec (GetSize p - 1) 0); [lia|].
  assert (Hx : at_ (Z.to_nat (GetSize p - 1)) p = x).
  { pose proof (leaf_lookup p (Z.to_nat (GetSize p - 1)) Hp) as H0.
    rewrite Hl, decide_True, lookup_app_r in H0 by lia.
    replace (Z.to_nat (GetSize p - 1) - length l)%nat with 0%nat in H0 by lia. by injection H0. }
  eexists _, _. split; [reflexivity|]. rewrite Hx. unfold leaf_entries at 1 2. unfold GetSize in *. simpl.
  split_and!; [| | lia | lia].
  - rewrite (cells_prefix _ (Z.to_nat (size_ (header p)))) by lia.
    fold (GetSize p) (leaf_entries p). unfold GetSize. rewrite Hl, take_app_le by lia. apply take_ge. lia.
  - replace (Z.to_nat (size_ (header r) + 1)) with (S (Z.to_nat (size_ (header r)))) by lia.
    pose proof (cells_insert_at zero_item (Z.to_nat (size_ (header r))) 0 x (array_ r) ltac:(lia)) as Hi.
    rewrite Nat.sub_0_r in Hi. etransitivity; [exact Hi|]. by rewrite take_0, drop_0.
Qed.

End LeafSpec.

(** ** Internal pages *)
Section InternalSpec.

Import Internal.
Implicit Types (p r : Internal.BPlusTreeInternalPage) (k : bytes) (c : Z).

Definition internal_entries p : list (bytes * Z) := cells zero_item (Z.to_nat (GetSize p)) (array_ p).

(** The first key is a dummy; the others are well formed and increasing. *)
Record internal_ok p : Prop := {
  internal_size : 1 <= GetSize p;
  internal_entries_ok : entries_ok (tail (internal_entries p));
}.

Lemma length_internal p : 0 <= GetSize p -> Z.of_nat (length (internal_entries p)) = GetSize p.
Proof. intros. unfold internal_entries. rewrite length_cells. lia. Qed.

Lemma internal_lookup p i : 0 <= GetSize p ->
  internal_entries p !! i = if decide (Z.of_nat i < GetSize p) then Some (at_ i p) else None.
Proof. intros. unfold internal_entries, at_. rewrite lookup_cells. decides. Qed.

Lemma lookup_loop_ok n i k p :
  match lookup_loop n i k p with
  | Some c => exists j, (i <= j < i + n)%nat /\ c = (at_ (j - 1) p).2 /\ key_ltb k (at_ j p).1 = true /\
      (forall m, (i <= m < j)%nat -> key_ltb k (at_ m p).1 = false)
  | None => forall m, (i <= m < i + n)%nat -> key_ltb k (at_ m p).1 = false
  end.
Proof.
  revert i; induction n as [|n IH]; intros i; simpl; [intros; lia|].
  destruct (key_ltb k (at_ i p).1) eqn:E.
  - exists i. split_and!; [lia.. | done | done |]. intros; lia.
  - specialize (IH (S i)). destruct (lookup_loop n (S i) k p) as [c|].
    + destruct IH as (j & Hj & Hc & Ht & Hf). exists j. split_and!; [lia.. | done | done |].
      intros m Hm. destruct (decide (m = i)) as [->|]; [done|]. apply Hf. lia.
    + intros m Hm. destruct (decide (m = i)) as [->|]; [done|]. apply IH. lia.
Qed.

(** Entry [i] is the one whose range [k_i <= key < k_(i+1)] holds the key. *)
Definition routes k (l : list (bytes * Z)) (i : nat) c : Prop :=
  (exists k', l !! i = Some (k', c) /\ ((0 < i)%nat -> key_num k' <= key_num k)) /\
  (forall j x, (i < j)%nat -> l !! j = Some x -> key_num k < key_num x.1).

Lemma Lookup_routes p k : internal_ok p -> key_wf k ->
  exists i c, Lookup k p = Ok c /\ routes k (internal_entries p) i c.
Proof.
  intros [Hsz Hok] Hk. pose proof (lookup_loop_ok (Z.to_nat (GetSize p) - 1) 1 k p) as Hloop.
  assert (Hat : forall j, (j < Z.to_nat (GetSize p))%nat -> internal_entries p !! j = Some (at_ j p)).
  { intros j Hj. rewrite internal_lookup by lia. decides. }
  assert (Htl : forall j, tail (internal_entries p) !! j = internal_entries p !! S j).
  { intros j. by destruct (internal_entries p). }
  assert (Hlt : forall j, (1 <= j < Z.to_nat (GetSize p))%nat ->
            key_ltb k (at_ j p).1 = (key_num k <? key_num (at_ j p).1)).
  { intros j Hj. apply key_ltb_num; [done|]. eapply entries_wf; [exact Hok|].
    apply (list_elem_of_lookup_2 _ (j - 1)). rewrite Htl. replace (S (j - 1)) with j by lia.
    apply Hat. lia. }
  assert (Hlen : forall j x, internal_entries p !! j = Some x -> (j < Z.to_nat (GetSize p))%nat /\ x = at_ j p).
  { intros j x Hx. pose proof (lookup_lt_Some _ _ _ Hx) as Hj. unfold internal_entries in Hj.
    rewrite length_cells in Hj. rewrite Hat in Hx by done. by simplify_eq. }
  unfold Lookup. destruct (lookup_loop _ _ _ _) as [c|].
  - destruct Hloop as (j & Hj & -> & Ht & Hf). exists (j - 1)%nat, (at_ (j - 1) p).2. split; [done|]. split.
    + exists (at_ (j - 1) p).1. split; [rewrite Hat by lia; by destruct (at_ (j - 1) p)|]. intros Hpos.
      specialize (Hf (j - 1)%nat ltac:(lia)). rewrite Hlt in Hf by lia. lia.
    + intros m x Hm Hx. destruct (Hlen _ _ Hx) as [Hm' ->].
      rewrite Hlt in Ht by lia. apply Z.ltb_lt in Ht. destruct (decide (m = j)) as [->|]; [done|].
      enough (entry_lt (at_ j p) (at_ m p)) by (unfold entry_lt in *; lia).
      apply (entries_lookup_lt (tail (internal_entries p)) (j - 1) (m - 1)); [done | lia | |]; rewrite Htl.
      * replace (S (j - 1)) with j by lia. apply Hat. lia.
      * replace (S (m - 1)) with m by lia. apply Hat. lia.
  - exists (Z.to_nat (GetSize p - 1)), (at_ (Z.to_nat (GetSize p - 1)) p).2. split.
    { unfold ValueAt. destruct (Z.ltb_spec (GetSize p - 1) 0); [lia|done]. }
    split.
    + exists (at_ (Z.to_nat (GetSize p - 1)) p).1.
      split; [rewrite Hat by lia; by destruct (at_ (Z.to_nat (GetSize p - 1)) p)|]. intros Hpos.
      specialize (Hloop (Z.to_nat (GetSize p - 1)) ltac:(lia)). rewrite Hlt in Hloop by lia. lia.
    + intros m x Hm Hx. destruct (Hlen _ _ Hx). lia.
Qed.

Lemma value_index_loop_ok n i c p :
  (value_index_loop n i c p = -1 /\ forall m, (i <= m < i + n)%nat -> (at_ m p).2 <> c) \/
  (exists j, value_index_loop n i c p = Z.of_nat j /\ (i <= j < i + n)%nat /\ (at_ j p).2 = c /\
     forall m, (i <= m < j)%nat -> (at_ m p).2 <> c).
Proof.
  revert i; induction n as [|n IH]; intros i; simpl; [left; split; [done|intros; lia]|].
  destruct (Z.eqb_spec (at_ i p).2 c) as [E|E].
  - right. exists i. split_and!; [done | lia | lia | done |]. intros; lia.
  - destruct (IH (S i)) as [[H1 H2]|(j & H1 & H2 & H3 & H4)].
    + left. split; [done|]. intros m Hm. destruct (decide (m = i)) as [->|]; [done|]. apply H2. lia.
    + right. exists j. split_and!; [done | lia | lia | done |]. intros m Hm.
      destruct (decide (m = i)) as [->|]; [done|]. apply H4. lia.
Qed.

Lemma ValueIndex_ok p l1 l2 k c : 0 <= GetSize p ->
  internal_entries p = l1 ++ (k, c) :: l2 -> c ∉ l1.*2 -> ValueIndex c p = Z.of_nat (length l1).
Proof.
  intros Hsz Hl Hno. unfold ValueIndex.
  pose proof (length_internal p Hsz) as Hlen. rewrite Hl, length_app in Hlen. simpl in Hlen.
  assert (Hat : forall m x, internal_entries p !! m = Some x -> at_ m p = x).
  { intros m x Hx. rewrite internal_lookup in Hx by done. by case_decide; simplify_eq. }
  assert (Hmid : at_ (length l1) p = (k, c)).
  { apply Hat. rewrite Hl, lookup_app_r, Nat.sub_diag by lia. done. }
  destruct (value_index_loop_ok (Z.to_nat (GetSize p)) 0 c p) as [[_ H]|(j & -> & Hj & Hc & H)].
  - exfalso. apply (H (length l1)); [lia|]. by rewrite Hmid.
  - f_equal. destruct (lt_eq_lt_dec j (length l1)) as [[Hlt|]|Hgt]; [|done|].
    + exfalso. destruct (lookup_lt_is_Some_2 l1 j Hlt) as [x Hx]. apply Hno. rewrite <- Hc.
      rewrite (Hat j x) by (rewrite Hl; by rewrite lookup_app_l). apply list_elem_of_fmap.
      exists x. split; [done|]. by eapply list_elem_of_lookup_2.
    + exfalso. apply (H (length l1)); [lia|]. by rewrite Hmid.
Qed.

Lemma InsertNodeAfter_entries p l1 l2 k c nk nc : 0 <= GetSize p ->
  internal_entries p = l1 ++ (k, c) :: l2 -> c ∉ l1.*2 ->
  internal_entries (InsertNodeAfter c nk nc p) = l1 ++ (k, c) :: (nk, nc) :: l2 /\
  GetSize (InsertNodeAfter c nk nc p) = GetSize p + 1.
Proof.
  intros Hsz Hl Hno. split; [|done]. unfold InsertNodeAfter. rewrite (ValueIndex_ok p l1 l2 k c) by done.
  pose proof (length_internal p Hsz) as Hlen. rewrite Hl, length_app in Hlen. simpl in Hlen.
  set (pos := Z.to_nat (Z.of_nat (length l1) + 1)). cbv zeta.
  assert (Ha : (if Z.of_nat (length l1) + 1 <? GetSize p
                then shift_up zero_item 1 (Z.to_nat (GetSize p) - pos) pos (array_ p) else array_ p) =
               shift_up zero_item 1 (Z.to_nat (GetSize p) - pos) pos (array_ p)).
  { destruct (Z.ltb_spec (Z.of_nat (length l1) + 1) (GetSize p)); [done|].
    replace (Z.to_nat (GetSize p) - pos)%nat with 0%nat by lia. done. }
  rewrite Ha. unfold internal_entries in Hl |- *. unfold GetSize in *. simpl.
  replace (Z.to_nat (size_ (header p) + 1)) with (S (Z.to_nat (size_ (header p)))) by lia.
  rewrite cells_insert_at by lia. rewrite Hl.
  replace pos with (length (l1 ++ [(k, c)])) by (rewrite length_app; simpl; lia).
  change (l1 ++ (k, c) :: l2) with (l1 ++ [(k, c)] ++ l2). rewrite (app_assoc l1 [(k, c)] l2).
  rewrite take_app_length, drop_app_length. by rewrite <- app_assoc.
Qed.

Lemma Remove_entries p i : 0 <= i < GetSize p ->
  exists p', Remove i p = Ok p' /\ GetSize p' = GetSize p - 1 /\
    internal_entries p' = take (Z.to_nat i) (internal_entries p) ++ drop (S (Z.to_nat i)) (internal_entries p).
Proof.
  intros Hi. unfold Remove. destruct (Z.ltb_spec i 0); [lia|]. simpl. eexists. split; [done|].
  split; [done|]. unfold internal_entries. rewrite <- cells_remove_at by lia. unfold GetSize in *. simpl. f_equal. lia.
Qed.

Lemma PopulateNewRoot_entries p c nk nc : c <= nc ->
  internal_entries (PopulateNewRoot c nk nc p) = [((at_ 0 p).1, c); (nk, nc)].
Proof.
  intros Hc. unfold PopulateNewRoot. destruct (Z.leb_spec c nc); [|lia].
  unfold internal_entries, at_, set_at, set_array. simpl. unfold cells. simpl.
  rewrite !load_store. by simpl.
Qed.

End InternalSpec.

(** ** Properties *)

(** What the tree does with a leaf: look a key up, insert one that is absent,
    remove one. *)
Inductive leaf_op := LLookup (k : bytes) | LInsert (k : bytes) (v : RID) | LRemove (k : bytes).

Definition leaf_op_key (op : leaf_op) : bytes :=
  match op with LLookup k | LInsert k _ | LRemove k => k end.

Definition leaf_exec (op : leaf_op) (p : Leaf.BPlusTreeLeafPage) : option RID * Leaf.BPlusTreeLeafPage :=
  match op with
  | LLookup k => (Leaf.Lookup k p, p)
  | LInsert k v =>
      match Leaf.Lookup k p with
      | Some v' => (Some v', p)
      | None => (None, Leaf.Insert k v p)
      end
  | LRemove k => (None, Leaf.RemoveAndDeleteRecord k p)
  end.

Definition map_exec (op : leaf_op) (m : gmap bytes RID) : option RID * gmap bytes RID :=
  match op with
  | LLookup k => (m !! k, m)
  | LInsert k v => match m !! k with Some v' => (Some v', m) | None => (None, <[k := v]> m) end
  | LRemove k => (None, delete k m)
  end.

Fixpoint leaf_run (ops : list leaf_op) (p : Leaf.BPlusTreeLeafPage) :=
  match ops with
  | [] => ([], p)
  | op :: ops => let (o, p) := leaf_exec op p in let (os, p) := leaf_run ops p in (o :: os, p)
  end.

Fixpoint map_run (ops : list leaf_op) (m : gmap bytes RID) :=
  match ops with
  | [] => ([], m)
  | op :: ops => let (o, m) := map_exec op m in let (os, m) := map_run ops m in (o :: os, m)
  end.

Lemma leaf_exec_ok op p : leaf_ok p -> key_wf (leaf_op_key op) ->
  let (o, p') := leaf_exec op p in
  leaf_ok p' /\ (o, to_map (leaf_entries p')) = map_exec op (to_map (leaf_entries p)).
Proof.
  intros Hp Hk. destruct op as [k|k v|k]; simpl in *.
  - by rewrite Lookup_map.
  - rewrite Lookup_map by done. destruct (to_map (leaf_entries p) !! k) eqn:E; [done|].
    destruct (Insert_ok p k v Hp Hk E) as [? ->]. done.
  - destruct (Remove_ok p k Hp Hk) as [? ->]. done.
Qed.

Lemma leaf_run_ok ops p : leaf_ok p -> Forall (fun op => key_wf (leaf_op_key op)) ops ->
  let (os, p') := leaf_run ops p in
  leaf_ok p' /\ (os, to_map (leaf_entries p')) = map_run ops (to_map (leaf_entries p)).
Proof.
  intros Hp Hops. revert p Hp; induction Hops as [|op ops Hk Hops IH]; intros p Hp; simpl; [done|].
  pose proof (leaf_exec_ok op p Hp Hk) as H. destruct (leaf_exec op p) as [o p1].
  destruct H as [H1 H2]. specialize (IH p1 H1). destruct (leaf_run ops p1) as [os p2].
  destruct IH as [H3 H4]. rewrite <- H2, <- H4. done.
Qed.

Lemma Init_ok pid parent n p : leaf_ok (Leaf.Init pid parent n p) /\
  leaf_entries (Leaf.Init pid parent n p) = [].
Proof. split; [|done]. constructor; [done | apply entries_nil]. Qed.


Definition zero_leaf : Leaf.BPlusTreeLeafPage := Leaf.mkLeaf zero_header 0 [].


Lemma MoveHalfTo_header p r p' r' : Leaf.MoveHalfTo p r = Ok (p', r') ->
  Leaf.header p' = SetSize (Leaf.GetSize p') (Leaf.header p) /\
  Leaf.header r' = SetSize (Leaf.GetSize r') (Leaf.header r).
Proof.
  unfold Leaf.MoveHalfTo, Leaf.CopyNFrom. case_match; [done|]. simpl. by intros [= <- <-].
Qed.

(** A full leaf split into a fresh page. *)
Lemma split_full_leaf (p r0 : Leaf.BPlusTreeLeafPage) (pid parent n : Z) :
  leaf_ok p -> Leaf.GetSize p = n -> 2 <= n ->
  exists p' r', Leaf.MoveHalfTo p (Leaf.Init pid parent n r0) = Ok (p', r') /\
    leaf_ok p' /\ leaf_ok r' /\ leaf_entries p' ++ leaf_entries r' = leaf_entries p /\
    (Leaf.GetSize r' <= Leaf.GetSize p' <= Leaf.GetSize r' + 1) /\
    (forall x, x ∈ leaf_entries p' -> key_num x.1 < key_num (Leaf.KeyAt 0 r')) /\
    (forall x, x ∈ leaf_entries r' -> key_num (Leaf.KeyAt 0 r') <= key_num x.1) /\
    1 <= Leaf.GetSize r' /\ Leaf.GetSize p' + Leaf.GetSize r' = n /\
    exists v, leaf_entries r' !! 0%nat = Some (Leaf.KeyAt 0 r', v).
Proof.
  intros [Hsz Hok] Hn H2. destruct (Init_ok pid parent n r0) as [Hi He].
  destruct (MoveHalfTo_entries p (Leaf.Init pid parent n r0)) as (p' & r' & E & E1 & E2 & E3 & E4 & _ & _);
    [done | done | unfold GetMaxSize, Leaf.GetSize in *; simpl; div_lia |].
  rewrite He in E2. simpl in E2.
  change (Leaf.GetSize (Leaf.Init pid parent n r0)) with 0 in E4.
  set (m := Z.to_nat ((Leaf.GetSize p + 1) / 2)) in *.
  pose proof (take_drop m (leaf_entries p)) as Hcat. rewrite <- E1, <- E2 in Hcat.
  rewrite <- Hcat in Hok. apply entries_app in Hok as (O1 & O2 & Hlt).
  assert (Hr : 0 < Leaf.GetSize r') by div_lia.
  pose proof (leaf_lookup r' 0 ltac:(lia)) as H0. rewrite decide_True in H0 by lia.
  exists p', r'. split_and!; [done | constructor; [div_lia|done] | constructor; [lia|done] | done | div_lia | div_lia | | | lia | div_lia |].
  - intros x Hx. apply Hlt; [done|]. by eapply list_elem_of_lookup_2.
  - intros x [i Hx]%list_elem_of_lookup. destruct i as [|i]; [rewrite H0 in Hx; by simplify_eq|].
    pose proof (entries_lookup_lt _ 0 (S i) _ _ O2 ltac:(lia) H0 Hx) as Hl. unfold entry_lt in Hl. unfold Leaf.KeyAt. lia.
  - exists (Leaf.at_ 0 r').2. rewrite H0. unfold Leaf.KeyAt. by destruct (Leaf.at_ 0 r').
Qed.

(** Splitting a full leaf into a fresh page never throws: the lower half
    stays, the upper half moves, in order and without loss, the sizes differ by
    at most one, and the new page's first key separates the two. *)
Theorem leaf_split (p r0 : Leaf.BPlusTreeLeafPage) (pid parent n : Z) :
  leaf_ok p -> Leaf.GetSize p = n -> 2 <= n ->
  exists p' r', Leaf.MoveHalfTo p (Leaf.Init pid parent n r0) = Ok (p', r') /\
    leaf_ok p' /\ leaf_ok r' /\ leaf_entries p' ++ leaf_entries r' = leaf_entries p /\
    Leaf.GetSize r' <= Leaf.GetSize p' <= Leaf.GetSize r' + 1 /\
    (forall x, x ∈ leaf_entries p' -> key_num x.1 < key_num (Leaf.KeyAt 0 r')) /\
    (forall x, x ∈ leaf_entries r' -> key_num (Leaf.KeyAt 0 r') <= key_num x.1).
Proof.
  intros Hok Hn H2.
  destruct (split_full_leaf p r0 pid parent n Hok Hn H2) as (p' & r' & E & A & B & C & D & F & G & _). eauto 10.
Qed.

Definition three_leaf : Leaf.BPlusTreeLeafPage :=
  Leaf.Insert (KeyEncoder_int64 5) (mkRID 1 0) (Leaf.Insert (KeyEncoder_int64 1) (mkRID 1 1)
    (Leaf.Insert (KeyEncoder_int64 9) (mkRID 1 2) (Leaf.Init 3 (-1) 3 zero_leaf))).

Lemma three_leaf_ok : leaf_ok three_leaf.
Proof.
  unfold three_leaf. repeat apply Insert_ok; try done. apply Init_ok.
Qed.

Lemma leaf_split_witness :
  exists p' r', Leaf.MoveHalfTo three_leaf (Leaf.Init 4 (-1) 3 zero_leaf) = Ok (p', r') /\
    leaf_ok p' /\ leaf_ok r' /\ leaf_entries p' ++ leaf_entries r' = leaf_entries three_leaf /\
    Leaf.GetSize r' <= Leaf.GetSize p' <= Leaf.GetSize r' + 1 /\
    (forall x, x ∈ leaf_entries p' -> key_num x.1 < key_num (Leaf.KeyAt 0 r')) /\
    (forall x, x ∈ leaf_entries r' -> key_num (Leaf.KeyAt 0 r') <= key_num x.1).
Proof.
  apply (leaf_split three_leaf zero_leaf 4 (-1) 3); [apply three_leaf_ok | reflexivity | lia].
Defined.

(** Rebalancing two sibling leaves keeps the sequence of their entries:
    borrowing the right page's first entry, lending the left page's last one,
    and merging the right page into the left one, which then also takes over
    the link to the next leaf, provided the entries fit. *)
Theorem leaf_rebalance (p q : Leaf.BPlusTreeLeafPage) :
  1 <= Leaf.GetSize p -> 1 <= Leaf.GetSize q ->
  (let '(q', p') := Leaf.MoveFirstToEndOf q p in
   leaf_entries p' ++ leaf_entries q' = leaf_entries p ++ leaf_entries q /\
   Leaf.GetSize p' = Leaf.GetSize p + 1 /\ Leaf.GetSize q' = Leaf.GetSize q - 1) /\
  (exists p' q', Leaf.MoveLastToFrontOf p q = Ok (p', q') /\
   leaf_entries p' ++ leaf_entries q' = leaf_entries p ++ leaf_entries q /\
   Leaf.GetSize p' = Leaf.GetSize p - 1 /\ Leaf.GetSize q' = Leaf.GetSize q + 1) /\
  (if decide (Leaf.GetSize p + Leaf.GetSize q <= GetMaxSize (Leaf.header p))
   then exists p' q', Leaf.MoveAllTo q p = Ok (q', p') /\
     leaf_entries p' = leaf_entries p ++ leaf_entries q /\ leaf_entries q' = [] /\
     Leaf.next_page_id_ p' = Leaf.next_page_id_ q
   else Leaf.MoveAllTo q p = Fail (Throw runtime_error "CopyNFrom: will overflow page")).
Proof.
  intros Hp Hq. pose proof (length_leaf p ltac:(lia)) as Lp. pose proof (length_leaf q ltac:(lia)) as Lq.
  split_and!.
  - destruct (leaf_entries q) as [|x l] eqn:El; [simpl in Lq; lia|].
    pose proof (MoveFirstToEndOf_entries q p x l ltac:(lia) ltac:(lia) El) as H.
    destruct (Leaf.MoveFirstToEndOf q p) as [q' p']. destruct H as (-> & -> & -> & ->).
    split_and!; [by rewrite <- app_assoc | lia | lia].
  - destruct (leaf_entries p) as [|x l _] eqn:El using rev_ind; [simpl in Lp; lia|].
    destruct (MoveLastToFrontOf_entries p q x l ltac:(lia) ltac:(lia) El) as (p' & q' & E & E1 & E2 & E3 & E4).
    exists p', q'. rewrite E1, E2, E3, E4. split_and!; [done | by rewrite <- app_assoc | lia | lia].
  - case_decide as Hfit.
    + destruct (MoveAllTo_entries q p) as (q' & p' & E & E1 & E2 & E3 & E4); [lia..|]. exists p', q'. done.
    + unfold Leaf.MoveAllTo, Leaf.CopyNFrom. rewrite length_cells.
      destruct (Z.ltb_spec (GetMaxSize (Leaf.header p)) (Leaf.GetSize p + Z.of_nat (Z.to_nat (Leaf.GetSize q)))); [done|lia].
Qed.

Lemma leaf_rebalance_witness : 1 <= Leaf.GetSize three_leaf /\
  exists p' q', Leaf.MoveLastToFrontOf three_leaf three_leaf = Ok (p', q') /\
   leaf_entries p' ++ leaf_entries q' = leaf_entries three_leaf ++ leaf_entries three_leaf.
Proof.
  split; [vm_compute; discriminate|].
  destruct (leaf_rebalance three_leaf three_leaf) as (_ & (p' & q' & E & H & _) & _);
    [vm_compute; discriminate.. |]. exists p', q'. split; [exact E | exact H].
Defined.

(** [Lookup] of an internal page always returns a child, the one whose
    key range contains the key: its own key is not above it (the first child
    has no lower bound) and every later key is. *)
Theorem internal_lookup_routes (p : Internal.BPlusTreeInternalPage) (k : bytes) :
  internal_ok p -> key_wf k ->
  exists i c, Internal.Lookup k p = Ok c /\ routes k (internal_entries p) i c.
Proof. exact (Lookup_routes p k). Qed.

Definition two_internal : Internal.BPlusTreeInternalPage :=
  Internal.PopulateNewRoot 3 (KeyEncoder_int64 5) 4
    (Internal.Init 5 (-1) 3 (Internal.mkInternal zero_header [])).

Lemma two_internal_ok : internal_ok two_internal.
Proof.
  constructor; [vm_compute; discriminate|].
  change (entries_ok [(KeyEncoder_int64 5, 4)]). by apply entries_single.
Qed.

Lemma internal_lookup_routes_witness :
  exists i c, Internal.Lookup (KeyEncoder_int64 8) two_internal = Ok c /\
    routes (KeyEncoder_int64 8) (internal_entries two_internal) i c.
Proof.
  apply (internal_lookup_routes two_internal (KeyEncoder_int64 8)); [apply two_internal_ok | reflexivity].
Defined.

(** [InsertNodeAfter] puts the new separator and child right behind the
    child that was split, moves the later ones up and keeps the keys in order
    when the separator lies strictly between its neighbours. *)
Theorem internal_insert_after (p : Internal.BPlusTreeInternalPage) (l1 l2 : list (bytes * Z))
  (k nk : bytes) (c nc : Z) :
  internal_ok p -> internal_entries p = l1 ++ (k, c) :: l2 -> c ∉ l1.*2 -> key_wf nk ->
  (forall x, x ∈ tail (l1 ++ [(k, c)]) -> key_num x.1 < key_num nk) ->
  (forall x, x ∈ l2 -> key_num nk < key_num x.1) ->
  let p' := Internal.InsertNodeAfter c nk nc p in
  internal_ok p' /\ internal_entries p' = l1 ++ (k, c) :: (nk, nc) :: l2 /\
  Internal.GetSize p' = Internal.GetSize p + 1.
Proof.
  intros [Hsz Hok] Hl Hno Hnk Hlo Hhi p'.
  destruct (InsertNodeAfter_entries p l1 l2 k c nk nc ltac:(lia) Hl Hno) as [He Hs].
  fold p' in He, Hs. split; [|done]. constructor; [lia|]. rewrite He. rewrite Hl in Hok.
  assert (Htl : forall l, tail (l1 ++ (k, c) :: l) = tail (l1 ++ [(k, c)]) ++ l).
  { intros l. destruct l1; simpl; [done|]. by rewrite <- app_assoc. }
  rewrite Htl in Hok |- *. apply entries_app in Hok as (O1 & O2 & Hlt).
  apply entries_app. split_and!; [done | |].
  - apply (entries_app [(nk, nc)]). split_and!; [by apply entries_single | done |].
    intros x y ->%list_elem_of_singleton Hy. by apply Hhi.
  - intros x y Hx [->|Hy]%elem_of_cons; [by apply Hlo | by apply Hlt].
Qed.

Lemma internal_insert_after_witness :
  let p' := Internal.InsertNodeAfter 3 (KeyEncoder_int64 2) 9 two_internal in
  internal_ok p' /\
  internal_entries p' = [] ++ (zero_key, 3) :: (KeyEncoder_int64 2, 9) :: [(KeyEncoder_int64 5, 4)] /\
  Internal.GetSize p' = Internal.GetSize two_internal + 1.
Proof.
  apply (internal_insert_after two_internal [] [(KeyEncoder_int64 5, 4)] zero_key (KeyEncoder_int64 2) 3 9).
  - apply two_internal_ok.
  - reflexivity.
  - apply not_elem_of_nil.
  - reflexivity.
  - simpl. intros x Hx. destruct (not_elem_of_nil _ Hx).
  - intros x Hx. apply list_elem_of_singleton in Hx. rewrite Hx. vm_compute. reflexivity.
Defined.

(** C38. The default capacities keep every access of an insertion inside the
    16 KB page: an insertion into a leaf of at most [LEAF_PAGE_SIZE - 1]
    entries, or into an internal page of at most [INTERNAL_PAGE_SIZE] entries,
    touches no cell whose bytes end past [PAGE_SIZE]. *)
Theorem pages_in_bounds (p : Leaf.BPlusTreeLeafPage) (q : Internal.BPlusTreeInternalPage)
  (k : bytes) (v : RID) (c nc : Z) :
  leaf_ok p -> key_wf k -> Leaf.GetSize p < Leaf.LEAF_PAGE_SIZE ->
  Leaf.LEAF_PAGE_HEADER_SIZE + 16 * Z.of_nat (length (Leaf.array_ p)) <= PAGE_SIZE ->
  0 <= Internal.GetSize q <= Internal.INTERNAL_PAGE_SIZE ->
  Internal.INTERNAL_PAGE_HEADER_SIZE + 12 * Z.of_nat (length (Internal.array_ q)) <= PAGE_SIZE ->
  Leaf.LEAF_PAGE_HEADER_SIZE + 16 * Z.of_nat (length (Leaf.array_ (Leaf.Insert k v p))) <= PAGE_SIZE /\
  Internal.INTERNAL_PAGE_HEADER_SIZE +
    12 * Z.of_nat (length (Internal.array_ (Internal.InsertNodeAfter c k nc q))) <= PAGE_SIZE.
Proof.
  unfold Leaf.LEAF_PAGE_SIZE, Internal.INTERNAL_PAGE_SIZE, Leaf.LEAF_PAGE_HEADER_SIZE,
    Internal.INTERNAL_PAGE_HEADER_SIZE, PAGE_SIZE.
  change ((16384 - 24) / 16) with 1022. change ((16384 - 24) / 12 - 1) with 1362.
  intros Hp Hk Hs Hl Hq Hql. split.
  - destruct (KeyIndex_split p k Hp Hk) as (Hi & _). pose proof (length_leaf p (leaf_size p Hp)).
    simpl. rewrite length_store.
    pose proof (length_shift_up Leaf.zero_item 1 (Z.to_nat (Leaf.GetSize p) - Leaf.KeyIndex k p) (Leaf.KeyIndex k p) (Leaf.array_ p)).
    lia.
  - unfold Internal.InsertNodeAfter. simpl. rewrite length_store.
    set (pos := Z.to_nat (Internal.ValueIndex c q + 1)).
    assert (Hpos : (pos <= Z.to_nat (Internal.GetSize q))%nat).
    { subst pos. unfold Internal.ValueIndex.
      destruct (value_index_loop_ok (Z.to_nat (Internal.GetSize q)) 0 c q) as [[-> _]|(j & -> & Hj & _)]; lia. }
    pose proof (length_shift_up Internal.zero_item 1 (Z.to_nat (Internal.GetSize q) - pos) pos (Internal.array_ q)).
    destruct (_ <? _); lia.
Qed.

Lemma pages_in_bounds_witness :
  Leaf.LEAF_PAGE_HEADER_SIZE +
    16 * Z.of_nat (length (Leaf.array_ (Leaf.Insert (KeyEncoder_int64 2) (mkRID 1 1) three_leaf))) <= PAGE_SIZE /\
  Internal.INTERNAL_PAGE_HEADER_SIZE +
    12 * Z.of_nat (length (Internal.array_ (Internal.InsertNodeAfter 3 (KeyEncoder_int64 2) 9 two_internal))) <= PAGE_SIZE.
Proof.
  apply (pages_in_bounds three_leaf two_internal (KeyEncoder_int64 2) (mkRID 1 1) 3 9);
    [apply three_leaf_ok | reflexivity | reflexivity | vm_compute; discriminate | split; vm_compute; discriminate |
     vm_compute; discriminate].
Defined.
