(* ===== verification/PageImage.v ===== *)
(** * What a page frame holds

    The program casts the [char[PAGE_SIZE]] of a frame to one of four structs:
    a B+Tree leaf, a B+Tree internal node, the catalog ([Storage/MetaPage.h])
    or a slotted value page ([TupleStore]). [page_image] is the memory seen
    through the struct it was written as; a frame that was only zeroed can be
    read as any of them, and reading a page as another struct than the one it
    was written as is undefined. Value pages stay raw bytes, because their slot
    directory addresses bytes. *)

From S2P Require Import Prelude KeyCodec Replacer BufferPool TreePages.

(** ** MetaPage *)

Record MetaPage := mkMeta {
  magic : Z;
  version : Z;
  key_type : Z;
  value_type : Z;
  root_page_id : Z;
  tuple_first_page_id : Z;
}.

Definition kMetaMagic : Z := 0x44425047.
Definition kMetaVersion : Z := 1.

Inductive page_image :=
| Zeroed
| LeafImage (p : Leaf.BPlusTreeLeafPage)
| InternalImage (p : Internal.BPlusTreeInternalPage)
| MetaImage (m : MetaPage)
| ValueImage (b : bytes).

(** ** The casts *)

Definition as_leaf (x : page_image) : result Leaf.BPlusTreeLeafPage :=
  match x with
  | LeafImage p => Ok p
  | Zeroed => Ok (Leaf.mkLeaf zero_header 0 [])
  | _ => Fail (Undefined "not a leaf page")
  end.

Definition as_internal (x : page_image) : result Internal.BPlusTreeInternalPage :=
  match x with
  | InternalImage p => Ok p
  | Zeroed => Ok (Internal.mkInternal zero_header [])
  | _ => Fail (Undefined "not an internal page")
  end.

Definition as_header (x : page_image) : result BPlusTreePage :=
  match x with
  | LeafImage p => Ok (Leaf.header p)
  | InternalImage p => Ok (Internal.header p)
  | Zeroed => Ok zero_header
  | _ => Fail (Undefined "not a tree page")
  end.

(** A write through a [BPlusTreePage *]. Zeroed memory has page type 0, which
    every test of the code takes for an internal page. *)
Definition on_header (f : BPlusTreePage -> BPlusTreePage) (x : page_image) : result page_image :=
  match x with
  | LeafImage p => Ok (LeafImage (Leaf.on_header f p))
  | InternalImage p => Ok (InternalImage (Internal.on_header f p))
  | Zeroed => Ok (InternalImage (Internal.mkInternal (f zero_header) []))
  | _ => Fail (Undefined "not a tree page")
  end.

Definition as_meta (x : page_image) : result MetaPage :=
  match x with
  | MetaImage m => Ok m
  | Zeroed => Ok (mkMeta 0 0 0 0 0 0)
  | _ => Fail (Undefined "not the meta page")
  end.

Definition zero_page : bytes := replicate (Z.to_nat PAGE_SIZE) Byte.x00.

Definition as_value_page (x : page_image) : result bytes :=
  match x with
  | ValueImage b => Ok b
  | Zeroed => Ok zero_page
  | _ => Fail (Undefined "not a value page")
  end.

(** ** The pool the storage engine uses *)

Abbreviation Pool := (@BufferPoolManager page_image LRUReplacer.LRUReplacer).

Definition Pool_new (n : nat) (f : list page_image) : Pool :=
  BPM_new Zeroed n (DiskManager_open f) (LRUReplacer.new n).

(** A use of a [shared_ptr<Page>] that may be null. *)
Definition deref {S} (o : option Z) : M S Z :=
  match o with Some f => ret f | None => fail (Undefined "null page") end.

(** Reading and writing the struct in a frame. *)
Definition read_as {A} (cast : page_image -> result A) (f : Z) : M Pool A :=
  let* x := GetData f in lift (cast x).
Definition write_leaf (f : Z) (p : Leaf.BPlusTreeLeafPage) : M Pool unit := write_data f (LeafImage p).
Definition write_internal (f : Z) (p : Internal.BPlusTreeInternalPage) : M Pool unit :=
  write_data f (InternalImage p).
Definition update_header (f : Z) (g : BPlusTreePage -> BPlusTreePage) : M Pool unit :=
  let* x := GetData f in
  let* x' := lift (on_header g x) in
  write_data f x'.
