(* ===== verification/BPlusTree.v ===== *)
(** * The B+Tree

    Models [Container/BPlusTree], the part of [Concurrency/Transaction] it
    uses (the page set of the transaction a call allocates) and the methods of
    [BPlusTreeInternalPage] that re-parent children through the buffer pool.

    A [BPlusTreePage *] points into a frame of the pool, so the model passes
    frame numbers around and reads and writes the frames; pins and latches are
    those of the frames. [root_mutex_] is taken and released within every call
    and never taken twice, so it is left out. Loops down and recursions up the
    tree run with as much fuel as there are allocated pages: more rounds than
    pages would mean a cycle. *)

From S2P Require Import Prelude KeyCodec Replacer BufferPool TreePages PageImage.

Inductive OpType := OpRead | OpInsert | OpRemove.

Record BPlusTree := mkTree {
  buffer_pool_manager_ : Pool;
  tree_root : Z;
  leaf_max_size_ : Z;
  internal_max_size_ : Z;
}.

Definition set_pool (s : Pool) (t : BPlusTree) : BPlusTree :=
  mkTree s (tree_root t) (leaf_max_size_ t) (internal_max_size_ t).
Definition SetRootPageId (r : Z) (t : BPlusTree) : BPlusTree :=
  mkTree (buffer_pool_manager_ t) r (leaf_max_size_ t) (internal_max_size_ t).

(** The constructor with an empty root. *)
Definition BPlusTree_new (s : Pool) (leaf_max_size internal_max_size : Z) : BPlusTree :=
  mkTree s INVALID_PAGE_ID leaf_max_size internal_max_size.

Definition on_pool {A} (m : M Pool A) : M BPlusTree A := fun t =>
  let (a, s) := m (buffer_pool_manager_ t) in (a, set_pool s t).

Definition IsEmpty (t : BPlusTree) : bool := tree_root t =? INVALID_PAGE_ID.

Definition tree_fuel (t : BPlusTree) : nat :=
  S (Z.to_nat (next_page_id (disk_manager (buffer_pool_manager_ t)))).

(** ** The pool operations the tree makes *)

Definition fetch (pid : Z) : M BPlusTree (option Z) := on_pool (FetchPage Zeroed pid).
(** A fetch whose result is dereferenced without a test. *)
Definition fetch_deref (pid : Z) : M BPlusTree Z := let* o := fetch pid in deref o.
Definition unpin (pid : Z) (dirty : bool) : M BPlusTree unit :=
  let* _ := on_pool (UnpinPage pid dirty) in ret tt.
Definition delete_page (pid : Z) : M BPlusTree unit :=
  let* _ := on_pool (DeletePage Zeroed pid) in ret tt.

Definition node_header (f : Z) : M BPlusTree BPlusTreePage := on_pool (read_as as_header f).
Definition leaf_at (f : Z) : M BPlusTree Leaf.BPlusTreeLeafPage := on_pool (read_as as_leaf f).
Definition internal_at (f : Z) : M BPlusTree Internal.BPlusTreeInternalPage := on_pool (read_as as_internal f).
Definition put_leaf (f : Z) (p : Leaf.BPlusTreeLeafPage) : M BPlusTree unit := on_pool (write_leaf f p).
Definition put_internal (f : Z) (p : Internal.BPlusTreeInternalPage) : M BPlusTree unit :=
  on_pool (write_internal f p).
Definition put_header (f : Z) (g : BPlusTreePage -> BPlusTreePage) : M BPlusTree unit :=
  on_pool (update_header f g).

(** ** Sizes *)

(** [leaf_max_size_] and [internal_max_size_] are [size_t]; the results are [int]. *)
Definition MinSize (h : BPlusTreePage) (t : BPlusTree) : Z :=
  i32 (if IsLeafPage h then leaf_max_size_ t / 2 else u64 (internal_max_size_ t + 1) / 2).

Definition MaxSize (h : BPlusTreePage) (t : BPlusTree) : Z :=
  i32 (if IsLeafPage h then u64 (leaf_max_size_ t - 1) else internal_max_size_ t).

(** The sum of two [int]s is compared as a [size_t]. *)
Definition FitOne (h1 h2 : BPlusTreePage) (t : BPlusTree) : bool :=
  if IsLeafPage h1 then u64 (size_ h1 + size_ h2) <=? u64 (leaf_max_size_ t - 1)
  else u64 (size_ h1 + size_ h2) <=? internal_max_size_ t.

Definition IsSafe (h : BPlusTreePage) (op : OpType) (t : BPlusTree) : bool :=
  match op with
  | OpInsert => size_ h <? MaxSize h t
  | _ =>
      if IsRootPage h then (if IsLeafPage h then true else 2 <? size_ h)
      else MinSize h t <? size_ h
  end.

(** ** Latch coupling

    [page_set] is the transaction's [page_set_]: the frames latched so far. *)

Fixpoint UnlatchAndUnpin (op : OpType) (page_set : list Z) : M BPlusTree unit :=
  match page_set with
  | [] => ret tt
  | f :: page_set =>
      let* page_id := on_pool (GetPageId f) in
      (match op with
       | OpRead => on_pool (RUnlatch f);;; unpin page_id false
       | _ => on_pool (WUnlatch f);;; unpin page_id true
       end);;;
      UnlatchAndUnpin op page_set
  end.

(** The leaf's frame and the page set afterwards, the leaf last in it. *)
Fixpoint find_leaf_loop (fuel : nat) (key : bytes) (left_most : bool) (op : OpType)
    (page : option Z) (page_set : list Z) : M BPlusTree (Z * list Z) :=
  match fuel with
  | O => fail OutOfFuel
  | S fuel =>
      match page with
      | None => throw runtime_error "FetchPage returns nullptr"
      | Some f =>
          let* page_set :=
            match op with
            | OpRead =>
                on_pool (RLatch f);;; UnlatchAndUnpin op page_set;;; ret []
            | _ =>
                on_pool (WLatch f);;;
                let* node := node_header f in
                let* safe := gets (IsSafe node op) in
                if safe then UnlatchAndUnpin op page_set;;; ret [] else ret page_set
            end in
          let page_set := page_set ++ [f] in
          let* node := node_header f in
          if IsLeafPage node then ret (f, page_set) else
          let* internal := internal_at f in
          let* child := lift (if left_most then Internal.ValueAt 0 internal else Internal.Lookup key internal) in
          let* page := fetch child in
          find_leaf_loop fuel key left_most op page page_set
      end
  end.

Definition FindLeafPageRW (key : bytes) (left_most : bool) (op : OpType) : M BPlusTree (Z * list Z) :=
  let* t := get in
  let* page := fetch (tree_root t) in
  find_leaf_loop (tree_fuel t) key left_most op page [].

(** ** Search *)

Definition GetValue (key : bytes) : M BPlusTree (option RID) :=
  let* t := get in
  if IsEmpty t then ret None else
  let* (page, page_set) := FindLeafPageRW key false OpRead in
  let* leaf_node := leaf_at page in
  let value := Leaf.Lookup key leaf_node in
  UnlatchAndUnpin OpRead page_set;;;
  ret value.

(** [FindLeafPage], without latches. *)
Fixpoint find_leaf_plain (fuel : nat) (key : bytes) (left_most : bool) (f : Z) : M BPlusTree Z :=
  match fuel with
  | O => fail OutOfFuel
  | S fuel =>
      let* node := node_header f in
      if IsLeafPage node then ret f else
      let* internal := internal_at f in
      let* next := lift (if left_most then Internal.ValueAt 0 internal else Internal.Lookup key internal) in
      let* next_page := fetch_deref next in
      unpin (page_id_ node) false;;;
      find_leaf_plain fuel key left_most next_page
  end.

Definition FindLeafPage (key : bytes) (left_most : bool) : M BPlusTree Z :=
  let* t := get in
  let* page := fetch_deref (tree_root t) in
  find_leaf_plain (tree_fuel t) key left_most page.

Fixpoint first_leaf_loop (fuel : nat) (cur : Z) : M BPlusTree Z :=
  match fuel with
  | O => fail OutOfFuel
  | S fuel =>
      let* page := fetch_deref cur in
      let* node := node_header page in
      if IsLeafPage node then unpin cur false;;; ret cur else
      let* internal := internal_at page in
      let* child := lift (Internal.ValueAt 0 internal) in
      unpin cur false;;;
      first_leaf_loop fuel child
  end.

Definition FirstLeafPageId : M BPlusTree Z :=
  let* t := get in
  if tree_root t =? INVALID_PAGE_ID then ret INVALID_PAGE_ID
  else first_leaf_loop (tree_fuel t) (tree_root t).

(** ** Re-parenting moves of internal pages (BPlusTreeInternalPage.cpp) *)

Definition UpdateParentPageId (page_id parent_page_id : Z) : M BPlusTree unit :=
  let* mem_page := fetch_deref page_id in
  put_header mem_page (SetParentPageId parent_page_id);;;
  unpin page_id true.

(** [CopyNFrom(items, size)] into frame [r]; [items] is the array of frame [f]
    from [start] on. *)
Fixpoint copy_n_loop (n : nat) (r f : Z) (start old_size i : nat) : M BPlusTree unit :=
  match n with
  | O => ret tt
  | S n =>
      let* src := internal_at f in
      let* dst := internal_at r in
      put_internal r (Internal.set_at i (Internal.at_ (start + (i - old_size)) src) dst);;;
      let* dst := internal_at r in
      UpdateParentPageId (Internal.at_ i dst).2 (page_id_ (Internal.header dst));;;
      copy_n_loop n r f start old_size (S i)
  end.

Definition Internal_CopyNFrom (r f : Z) (start : nat) (size : Z) : M BPlusTree unit :=
  let* dst := internal_at r in
  let old_size := Internal.GetSize dst in
  copy_n_loop (Z.to_nat (size - old_size)) r f start (Z.to_nat old_size) (Z.to_nat old_size).

Definition Internal_MoveHalfTo (f r : Z) : M BPlusTree unit :=
  let* p := internal_at f in
  let move_start := (Internal.GetSize p + 1) / 2 in
  let num_moved := Internal.GetSize p - move_start in
  Internal_CopyNFrom r f (Z.to_nat move_start) num_moved;;;
  let* dst := internal_at r in
  put_internal r (Internal.on_header (SetSize num_moved) dst);;;
  let* p := internal_at f in
  put_internal f (Internal.on_header (SetSize (Internal.GetSize p - num_moved)) p).

(** [MoveAllTo]: entry [i] of frame [f] goes behind the entries of frame [r]. *)
Fixpoint move_all_loop (n : nat) (f r : Z) (i : nat) : M BPlusTree unit :=
  match n with
  | O => ret tt
  | S n =>
      let* p := internal_at f in
      let* dst := internal_at r in
      let item := Internal.at_ i p in
      put_internal r (Internal.set_at (Z.to_nat (Internal.GetSize dst) + i) item dst);;;
      UpdateParentPageId item.2 (page_id_ (Internal.header dst));;;
      move_all_loop n f r (S i)
  end.

Definition Internal_MoveAllTo (f r : Z) (middle_key : bytes) : M BPlusTree unit :=
  let* p := internal_at f in
  move_all_loop (Z.to_nat (Internal.GetSize p)) f r 0;;;
  let* dst := internal_at r in
  let* dst := lift (Internal.SetKeyAt (Internal.GetSize dst) middle_key dst) in
  let sz := Internal.GetSize p in
  put_internal r dst;;;
  put_header f (IncreaseSize (- sz));;;
  put_header r (IncreaseSize sz).

Definition Internal_MoveFirstToEndOf (f r : Z) (middle_key : bytes) : M BPlusTree unit :=
  let* p := internal_at f in
  let* dst := internal_at r in
  let n := Z.to_nat (Internal.GetSize dst) in
  let child := (Internal.at_ 0 p).2 in
  put_internal r (Internal.set_at n (middle_key, child) dst);;;
  put_internal f (Internal.set_array
    (shift_down Internal.zero_item (Z.to_nat (Internal.GetSize p) - 1) 0 (Internal.array_ p)) p);;;
  UpdateParentPageId child (page_id_ (Internal.header dst));;;
  put_header f (IncreaseSize (-1));;;
  put_header r (IncreaseSize 1).

(** The recipient's array after [MoveLastToFrontOf] received [item]: the
    entries move up by two. *)
Definition push_front_two (middle_key : bytes) (item : bytes * Z)
    (dst : Internal.BPlusTreeInternalPage) : Internal.BPlusTreeInternalPage :=
  let dst := Internal.set_array
    (shift_up Internal.zero_item 2 (Z.to_nat (Internal.GetSize dst)) 0 (Internal.array_ dst)) dst in
  let dst := Internal.set_at 2 (middle_key, (Internal.at_ 2 dst).2) dst in
  let dst := Internal.set_at 1 item dst in
  Internal.set_at 0 ((Internal.at_ 0 dst).1, INVALID_PAGE_ID) dst.

Definition Internal_MoveLastToFrontOf (f r : Z) (middle_key : bytes) : M BPlusTree unit :=
  let* p := internal_at f in
  let* dst := internal_at r in
  if Internal.GetSize p - 1 <? 0 then fail (Undefined "array_[-1]") else
  let item := Internal.at_ (Z.to_nat (Internal.GetSize p - 1)) p in
  put_internal r (push_front_two middle_key item dst);;;
  UpdateParentPageId item.2 (page_id_ (Internal.header dst));;;
  put_header f (IncreaseSize (-1));;;
  put_header r (IncreaseSize 1).

(** The private [CopyLastFrom] and [CopyFirstFrom], which nothing calls: frame
    [r] takes [pair] at its end or at its front. *)
Definition Internal_CopyLastFrom (r : Z) (pair : bytes * Z) : M BPlusTree unit :=
  let* dst := internal_at r in
  put_internal r (Internal.set_at (Z.to_nat (Internal.GetSize dst)) pair dst);;;
  UpdateParentPageId pair.2 (page_id_ (Internal.header dst));;;
  put_header r (IncreaseSize 1).

Definition Internal_CopyFirstFrom (r : Z) (pair : bytes * Z) : M BPlusTree unit :=
  let* dst := internal_at r in
  let moved := Internal.set_array
    (shift_up Internal.zero_item 1 (Z.to_nat (Internal.GetSize dst)) 0 (Internal.array_ dst)) dst in
  let moved := Internal.set_at 1 pair moved in
  put_internal r (Internal.set_at 0 ((Internal.at_ 0 moved).1, INVALID_PAGE_ID) moved);;;
  UpdateParentPageId pair.2 (page_id_ (Internal.header dst));;;
  put_header r (IncreaseSize 1).

(** ** Insertion *)

Definition StartNewTree (key : bytes) (value : RID) : M BPlusTree unit :=
  let* new_page := on_pool (NewPage Zeroed) in
  match new_page with
  | None => throw runtime_error "out of memory"
  | Some f =>
      let* root := on_pool (GetPageId f) in
      modify (SetRootPageId root);;;
      let* t := get in
      let* leaf_page := leaf_at f in
      let leaf_page := Leaf.Init root INVALID_PAGE_ID (i32 (leaf_max_size_ t)) leaf_page in
      put_leaf f (Leaf.Insert key value leaf_page);;;
      unpin root true
  end.

(** [Split] returns the frame of the new page, pinned. *)
Definition Split (node : Z) : M BPlusTree Z :=
  let* new_page := on_pool (NewPage Zeroed) in
  match new_page with
  | None => throw runtime_error "out of memory"
  | Some f =>
      let* new_page_id := on_pool (GetPageId f) in
      let* t := get in
      let* h := node_header node in
      if IsLeafPage h then
        let* leaf_node := leaf_at node in
        let* new_leaf_node := leaf_at f in
        let new_leaf_node := Leaf.Init new_page_id (parent_page_id_ h) (i32 (leaf_max_size_ t)) new_leaf_node in
        put_leaf f new_leaf_node;;;
        let* (leaf_node, new_leaf_node) := lift (Leaf.MoveHalfTo leaf_node new_leaf_node) in
        put_leaf f (Leaf.SetNextPageId (Leaf.next_page_id_ leaf_node) new_leaf_node);;;
        put_leaf node (Leaf.SetNextPageId new_page_id leaf_node);;;
        ret f
      else
        let* new_internal_page := internal_at f in
        put_internal f (Internal.Init new_page_id (parent_page_id_ h) (i32 (internal_max_size_ t)) new_internal_page);;;
        Internal_MoveHalfTo node f;;;
        ret f
  end.

Fixpoint insert_into_parent (fuel : nat) (old_node : Z) (key : bytes) (new_node : Z) : M BPlusTree unit :=
  match fuel with
  | O => fail OutOfFuel
  | S fuel =>
      let* old_h := node_header old_node in
      let* new_h := node_header new_node in
      if IsRootPage old_h then
        let* parent_page := on_pool (NewPage Zeroed) in
        match parent_page with
        | None => throw runtime_error "out of memory"
        | Some f =>
            let* parent_page_id := on_pool (GetPageId f) in
            modify (SetRootPageId parent_page_id);;;
            let* t := get in
            let* parent_node := internal_at f in
            let parent_node := Internal.Init parent_page_id INVALID_PAGE_ID (i32 (internal_max_size_ t)) parent_node in
            put_internal f (Internal.PopulateNewRoot (page_id_ old_h) key (page_id_ new_h) parent_node);;;
            put_header old_node (SetParentPageId parent_page_id);;;
            put_header new_node (SetParentPageId parent_page_id);;;
            unpin parent_page_id true
        end
      else
        let parent_page_id := parent_page_id_ old_h in
        let* parent_page := fetch_deref parent_page_id in
        let* parent_node := internal_at parent_page in
        put_internal parent_page (Internal.InsertNodeAfter (page_id_ old_h) key (page_id_ new_h) parent_node);;;
        let* h := node_header parent_page in
        let* max_size := gets (MaxSize h) in
        when (size_ h =? max_size + 1)
          (let* new_parent := Split parent_page in
           let* new_parent_node := internal_at new_parent in
           let* middle_key := lift (Internal.KeyAt 0 new_parent_node) in
           insert_into_parent fuel parent_page middle_key new_parent;;;
           let* nh := node_header new_parent in
           unpin (page_id_ nh) true);;;
        let* h := node_header parent_page in
        unpin (page_id_ h) true
  end.

Definition InsertIntoParent (old_node : Z) (key : bytes) (new_node : Z) : M BPlusTree unit :=
  let* t := get in insert_into_parent (tree_fuel t) old_node key new_node.

Definition InsertIntoLeaf (key : bytes) (value : RID) : M BPlusTree bool :=
  let* t := get in
  if IsEmpty t then StartNewTree key value;;; ret true else
  let* (leaf_page, page_set) := FindLeafPageRW key false OpInsert in
  let* leaf_node := leaf_at leaf_page in
  match Leaf.Lookup key leaf_node with
  | Some _ => UnlatchAndUnpin OpInsert page_set;;; ret false
  | None =>
      put_leaf leaf_page (Leaf.Insert key value leaf_node);;;
      let* h := node_header leaf_page in
      let* max_size := gets (MaxSize h) in
      when (size_ h =? max_size + 1)
        (let* new_leaf_page := Split leaf_page in
         let* new_leaf := leaf_at new_leaf_page in
         InsertIntoParent leaf_page (Leaf.KeyAt 0 new_leaf) new_leaf_page;;;
         let* nh := node_header new_leaf_page in
         unpin (page_id_ nh) true);;;
      UnlatchAndUnpin OpInsert page_set;;;
      ret true
  end.

Definition Insert (key : bytes) (value : RID) : M BPlusTree bool := InsertIntoLeaf key value.

(** ** Removal *)

Definition AdjustRoot (old_root : Z) : M BPlusTree bool :=
  let* h := node_header old_root in
  if negb (IsLeafPage h) && (size_ h =? 1) then
    let* internal_root := internal_at old_root in
    let (new_root_page_id, internal_root) := Internal.RemoveAndReturnOnlyChild internal_root in
    put_internal old_root internal_root;;;
    modify (SetRootPageId new_root_page_id);;;
    let* new_root_page := fetch_deref new_root_page_id in
    put_header new_root_page (SetParentPageId INVALID_PAGE_ID);;;
    unpin new_root_page_id true;;;
    ret true
  else if IsLeafPage h && (size_ h =? 0) then
    modify (SetRootPageId INVALID_PAGE_ID);;;
    ret true
  else ret false.

(** [Redistribute]: [right] tells that the neighbour is the right sibling
    ([index == 0] in the source). The parent it fetches stays pinned. *)
Definition Redistribute (neighbor node : Z) (right : bool) : M BPlusTree unit :=
  let* h := node_header node in
  let* parent_page := fetch_deref (parent_page_id_ h) in
  let* nh := node_header neighbor in
  let update_key f (k : bytes) :=
    let* parent := internal_at parent_page in
    let* fh := node_header f in
    let* parent := lift (Internal.SetKeyAt (Internal.ValueIndex (page_id_ fh) parent) k parent) in
    put_internal parent_page parent in
  if IsLeafPage h then
    let* leaf_node := leaf_at node in
    let* leaf_neighbor := leaf_at neighbor in
    if right then
      let (leaf_neighbor, leaf_node) := Leaf.MoveFirstToEndOf leaf_neighbor leaf_node in
      put_leaf neighbor leaf_neighbor;;;
      put_leaf node leaf_node;;;
      update_key neighbor (Leaf.KeyAt 0 leaf_neighbor)
    else
      let* (leaf_neighbor, leaf_node) := lift (Leaf.MoveLastToFrontOf leaf_neighbor leaf_node) in
      put_leaf neighbor leaf_neighbor;;;
      put_leaf node leaf_node;;;
      update_key node (Leaf.KeyAt 0 leaf_node)
  else
    let* parent := internal_at parent_page in
    if right then
      let* middle_key := lift (Internal.KeyAt (Internal.ValueIndex (page_id_ nh) parent) parent) in
      Internal_MoveFirstToEndOf neighbor node middle_key;;;
      let* internal_neighbor := internal_at neighbor in
      let* k := lift (Internal.KeyAt 0 internal_neighbor) in
      update_key neighbor k
    else
      let* middle_key := lift (Internal.KeyAt (Internal.ValueIndex (page_id_ h) parent) parent) in
      Internal_MoveLastToFrontOf neighbor node middle_key;;;
      let* internal_node := internal_at node in
      let* k := lift (Internal.KeyAt 0 internal_node) in
      update_key node k.

(** [Coalesce] merges [node] into its left sibling [neighbor]; [again] is the
    recursive call on an underfull parent. *)
Definition Coalesce (again : Z -> M BPlusTree bool) (neighbor node parent : Z) (index : Z) : M BPlusTree bool :=
  let* h := node_header node in
  (if IsLeafPage h then
     let* leaf_node := leaf_at node in
     let* leaf_neighbor := leaf_at neighbor in
     let* (leaf_node, leaf_neighbor) := lift (Leaf.MoveAllTo leaf_node leaf_neighbor) in
     put_leaf node leaf_node;;;
     put_leaf neighbor (Leaf.SetNextPageId (Leaf.next_page_id_ leaf_node) leaf_neighbor)
   else
     let* p := internal_at parent in
     let* k := lift (Internal.KeyAt index p) in
     Internal_MoveAllTo node neighbor k);;;
  let* h := node_header node in
  unpin (page_id_ h) true;;;
  let* h := node_header node in
  delete_page (page_id_ h);;;
  let* p := internal_at parent in
  let* p := lift (Internal.Remove index p) in
  put_internal parent p;;;
  let* ph := node_header parent in
  let* min_size := gets (MinSize ph) in
  if size_ ph <? min_size then again parent else ret false.

(** One sibling of [CoalesceOrRedistribute]: fetch and latch it, and continue. *)
Definition with_sibling {A} (pid : Z) (body : Z -> M BPlusTree A) : M BPlusTree A :=
  let* f := fetch_deref pid in
  on_pool (WLatch f);;;
  body f.

Fixpoint coalesce_or_redistribute (fuel : nat) (node : Z) : M BPlusTree bool :=
  match fuel with
  | O => fail OutOfFuel
  | S fuel =>
      let* h := node_header node in
      if IsRootPage h then
        when (size_ h <=? 1)
          (let* del_root := AdjustRoot node in
           when del_root
             (let* h := node_header node in
              unpin (page_id_ h) true;;;
              let* h := node_header node in
              delete_page (page_id_ h)));;;
        ret false
      else
      let parent_page_id := parent_page_id_ h in
      let* parent := fetch_deref parent_page_id in
      let* p := internal_at parent in
      let index_in_parent := Internal.ValueIndex (page_id_ h) p in
      let left_sib_index := index_in_parent - 1 in
      let right_sib_index := index_in_parent + 1 in
      (** merge with the left sibling *)
      let* merged :=
        if 0 <=? left_sib_index then
          let* sib_id := lift (Internal.ValueAt left_sib_index p) in
          with_sibling sib_id (fun f =>
            let* sh := node_header f in
            let* fits := gets (FitOne sh h) in
            if fits then
              let* del_parent := Coalesce (coalesce_or_redistribute fuel) f node parent index_in_parent in
              on_pool (WUnlatch f);;;
              unpin parent_page_id true;;;
              unpin sib_id true;;;
              when del_parent (delete_page parent_page_id);;;
              ret true
            else
              on_pool (WUnlatch f);;;
              unpin sib_id false;;;
              ret false)
        else ret false in
      if (merged : bool) then ret false else
      (** merge with the right sibling *)
      let* merged :=
        if right_sib_index <? Internal.GetSize p then
          let* sib_id := lift (Internal.ValueAt right_sib_index p) in
          with_sibling sib_id (fun f =>
            let* sh := node_header f in
            let* fits := gets (FitOne sh h) in
            if fits then
              let* del_parent := Coalesce (coalesce_or_redistribute fuel) node f parent right_sib_index in
              on_pool (WUnlatch f);;;
              unpin parent_page_id true;;;
              let* nh := node_header node in
              unpin (page_id_ nh) true;;;
              when del_parent (delete_page parent_page_id);;;
              ret true
            else
              on_pool (WUnlatch f);;;
              unpin sib_id false;;;
              ret false)
        else ret false in
      if (merged : bool) then ret false else
      let borrow (index : Z) (right : bool) : M BPlusTree bool :=
        let* sib_id := lift (Internal.ValueAt index p) in
        with_sibling sib_id (fun f =>
          let* sh := node_header f in
          let* min_size := gets (MinSize sh) in
          if min_size <? size_ sh then
            Redistribute f node right;;;
            on_pool (WUnlatch f);;;
            unpin parent_page_id true;;;
            let* nh := node_header node in
            unpin (page_id_ nh) true;;;
            unpin sib_id true;;;
            ret true
          else
            on_pool (WUnlatch f);;;
            unpin sib_id false;;;
            ret false) in
      (** borrow from the left, then from the right sibling *)
      let* done := if 0 <=? left_sib_index then borrow left_sib_index false else ret false in
      if (done : bool) then ret false else
      let* done := if right_sib_index <? Internal.GetSize p then borrow right_sib_index true else ret false in
      if (done : bool) then ret false else
      throw runtime_error "Not root, cannot merge, cannot redistribute? This shouldn't happen"
  end.

Definition CoalesceOrRedistribute (node : Z) : M BPlusTree bool :=
  let* t := get in coalesce_or_redistribute (tree_fuel t) node.

Definition Remove (key : bytes) : M BPlusTree unit :=
  let* t := get in
  if IsEmpty t then throw runtime_error "Empty tree" else
  let* (leaf_page, page_set) := FindLeafPageRW key false OpRemove in
  let* leaf_node := leaf_at leaf_page in
  let leaf_page_id := page_id_ (Leaf.header leaf_node) in
  put_leaf leaf_page (Leaf.RemoveAndDeleteRecord key leaf_node);;;
  let* h := node_header leaf_page in
  let* min_size := gets (MinSize h) in
  when (size_ h <? min_size)
    (let* delete_leaf := CoalesceOrRedistribute leaf_page in
     when delete_leaf (delete_page leaf_page_id));;;
  UnlatchAndUnpin OpRemove page_set.
