(* ===== verification/BPlusTreeSpec.v ===== *)
(** * Searching the B+Tree

    [tree_rep] says what it means for the pages of a pool to form a B+Tree
    with given contents; the search operations are proved correct on such
    trees, with every pin and latch they take given back. *)

From stdpp Require Import functions.
From S2P Require Import Prelude KeyCodec Replacer BufferPool BufferPoolSpec PoolHold TreePages TreePagesSpec PageImage BPlusTree.
Open Scope Z_scope.

(** ** The shape of a tree *)
Section Rep.

Implicit Types (pg : Z -> page_image) (m : list (bytes * RID)).

(** The pages [pg] hold, at [pid] and below, a tree of height [h] with the
    entries [m]: leaves and inner nodes with sorted keys, the keys of child [i]
    between separators [i] and [i + 1], every node knowing its own id and its
    parent's. *)
Fixpoint tree_rep pg (h : nat) (parent pid : Z) m : Prop :=
  0 <= pid /\
  match h with
  | O => exists p, pg pid = LeafImage p /\ page_type_ (Leaf.header p) = LeafPage /\
      page_id_ (Leaf.header p) = pid /\ parent_page_id_ (Leaf.header p) = parent /\
      leaf_ok p /\ leaf_entries p = m
  | S h => exists p ms, pg pid = InternalImage p /\ page_type_ (Internal.header p) = InternalPage /\
      page_id_ (Internal.header p) = pid /\ parent_page_id_ (Internal.header p) = parent /\
      internal_ok p /\ m = concat ms /\ length ms = length (internal_entries p) /\
      forall i k c mi, internal_entries p !! i = Some (k, c) -> ms !! i = Some mi ->
        tree_rep pg h pid c mi /\
        forall x, x ∈ mi -> ((0 < i)%nat -> key_num k <= key_num x.1) /\
          (forall k' c', internal_entries p !! S i = Some (k', c') -> key_num x.1 < key_num k')
  end.

Lemma elem_of_concat {A} (x : A) (ls : list (list A)) : x ∈ concat ls <-> exists l, x ∈ l /\ l ∈ ls.
Proof.
  induction ls as [|l ls IH]; simpl; [set_solver|]. rewrite elem_of_app, IH. set_solver.
Qed.

(** Contents of consecutive children, each within its separators. *)
Definition ranged (l : list (bytes * Z)) (ms : list (list (bytes * RID))) : Prop :=
  length ms = length l /\
  forall i k c mi, l !! i = Some (k, c) -> ms !! i = Some mi ->
    entries_ok mi /\
    forall x, x ∈ mi -> ((0 < i)%nat -> key_num k <= key_num x.1) /\
      (forall k' c', l !! S i = Some (k', c') -> key_num x.1 < key_num k').

Lemma tail_lookup {A} (l : list A) i : tail l !! i = l !! S i.
Proof. by destruct l. Qed.

(** Separators increase, the first one aside. *)
Lemma sep_le (l : list (bytes * Z)) i j x y : entries_ok (tail l) -> (0 < i <= j)%nat ->
  l !! i = Some x -> l !! j = Some y -> key_num x.1 <= key_num y.1.
Proof.
  intros Hl Hij Hi Hj. destruct (decide (i = j)) as [->|]; [by simplify_eq|].
  enough (entry_lt x y) by (unfold entry_lt in *; lia).
  apply (entries_lookup_lt (tail l) (i - 1) (j - 1)); [done | lia | |]; rewrite tail_lookup.
  - by replace (S (i - 1)) with i by lia.
  - by replace (S (j - 1)) with j by lia.
Qed.

Lemma ranged_lt l ms i j mi mj x y : entries_ok (tail l) -> ranged l ms -> (i < j)%nat ->
  ms !! i = Some mi -> ms !! j = Some mj -> x ∈ mi -> y ∈ mj -> entry_lt x y.
Proof.
  intros Hl [Hlen Hr] Hij Hi Hj Hx Hy.
  destruct (lookup_lt_is_Some_2 l i) as [[ki ci] Eki]; [apply lookup_lt_Some in Hi; lia|].
  destruct (lookup_lt_is_Some_2 l (S i)) as [[k' c'] Ek']; [apply lookup_lt_Some in Hj; lia|].
  destruct (lookup_lt_is_Some_2 l j) as [[kj cj] Ekj]; [apply lookup_lt_Some in Hj; lia|].
  destruct (Hr i ki ci mi Eki Hi) as [_ H1]. destruct (Hr j kj cj mj Ekj Hj) as [_ H2].
  destruct (H1 x Hx) as [_ Hlt]. specialize (Hlt _ _ Ek'). destruct (H2 y Hy) as [Hge _].
  specialize (Hge ltac:(lia)). pose proof (sep_le l (S i) j _ _ Hl ltac:(lia) Ek' Ekj). unfold entry_lt. simpl in *. lia.
Qed.

Lemma concat_ok (ms : list (list (bytes * RID))) :
  (forall i mi, ms !! i = Some mi -> entries_ok mi) ->
  (forall i j mi mj x y, (i < j)%nat -> ms !! i = Some mi -> ms !! j = Some mj -> x ∈ mi -> y ∈ mj -> entry_lt x y) ->
  entries_ok (concat ms).
Proof.
  induction ms as [|a ms IH]; intros H1 H2; simpl; [apply entries_nil|].
  apply entries_app. split_and!.
  - by apply (H1 0%nat).
  - apply IH; [intros i; apply (H1 (S i))|]. intros i j. intros. apply (H2 (S i) (S j) mi mj); auto. lia.
  - intros x y Hx (b & Hy & [j Hj]%list_elem_of_lookup)%elem_of_concat.
    by apply (H2 0%nat (S j) a b x y ltac:(lia)).
Qed.

Lemma ranged_ok l ms : entries_ok (tail l) -> ranged l ms -> entries_ok (concat ms).
Proof.
  intros Hl Hr. apply concat_ok.
  - intros i mi Hi. destruct Hr as [Hlen Hr].
    destruct (lookup_lt_is_Some_2 l i) as [[k c] E]; [apply lookup_lt_Some in Hi; lia|].
    by destruct (Hr i k c mi E Hi).
  - intros i j mi mj x y. by apply (ranged_lt l ms).
Qed.

(** The child a key is routed to holds all there is to know about it. *)
Lemma routed_lookup l ms k i c mi : entries_ok (tail l) -> ranged l ms -> key_wf k ->
  routes k l i c -> ms !! i = Some mi -> to_map (concat ms) !! k = to_map mi !! k.
Proof.
  intros Hl Hr Hk [(k' & Hi & Hlo) Hhi] Hmi. pose proof (ranged_ok _ _ Hl Hr) as Hok.
  pose proof Hr as [Hlen Hr']. destruct (Hr' i k' c mi Hi Hmi) as [Hoki _].
  apply option_eq. intros v. rewrite !to_map_Some by done. split; cycle 1.
  { intros Hin. apply elem_of_concat. exists mi. split; [done|]. by eapply list_elem_of_lookup_2. }
  intros (mj & Hin & [j Hj]%list_elem_of_lookup)%elem_of_concat.
  destruct (lt_eq_lt_dec j i) as [[Hlt|Heq]|Hgt]; [| subst j; congruence |]; exfalso.
  - destruct (lookup_lt_is_Some_2 l j) as [[kj cj] Ekj]; [apply lookup_lt_Some in Hj; lia|].
    destruct (lookup_lt_is_Some_2 l (S j)) as [[k1 c1] Ek1]; [apply lookup_lt_Some in Hi; lia|].
    destruct (Hr' j kj cj mj Ekj Hj) as [_ H1]. destruct (H1 _ Hin) as [_ H2]. specialize (H2 _ _ Ek1).
    pose proof (sep_le l (S j) i _ _ Hl ltac:(lia) Ek1 Hi). specialize (Hlo ltac:(lia)). simpl in *. lia.
  - destruct (lookup_lt_is_Some_2 l j) as [[kj cj] Ekj]; [apply lookup_lt_Some in Hj; lia|].
    destruct (Hr' j kj cj mj Ekj Hj) as [_ H1]. destruct (H1 _ Hin) as [H2 _]. specialize (H2 ltac:(lia)).
    specialize (Hhi j _ Hgt Ekj). simpl in *. lia.
Qed.

Lemma tree_rep_ok pg h parent pid m : tree_rep pg h parent pid m -> entries_ok m.
Proof.
  revert parent pid m; induction h as [|h IH]; intros parent pid m [_ Hm].
  - destruct Hm as (p & _ & _ & _ & _ & Hp & <-). apply Hp.
  - destruct Hm as (p & ms & _ & _ & _ & _ & Hp & -> & Hlen & Hch).
    apply (ranged_ok (internal_entries p)); [apply Hp|]. split; [done|].
    intros i k c mi Hi Hmi. destruct (Hch i k c mi Hi Hmi) as [Hc Hx]. split; [by eapply IH | done].
Qed.

Lemma tree_rep_ranged pg h pid p ms :
  length ms = length (internal_entries p) ->
  (forall i k c mi, internal_entries p !! i = Some (k, c) -> ms !! i = Some mi ->
     tree_rep pg h pid c mi /\
     forall x, x ∈ mi -> ((0 < i)%nat -> key_num k <= key_num x.1) /\
       (forall k' c', internal_entries p !! S i = Some (k', c') -> key_num x.1 < key_num k')) ->
  ranged (internal_entries p) ms.
Proof.
  intros Hlen Hch. split; [done|]. intros i k c mi Hi Hmi. destruct (Hch i k c mi Hi Hmi) as [Hc Hx].
  split; [by eapply tree_rep_ok | done].
Qed.

(** *** Heights *)

Lemma tree_rep_height_unique pg h1 h2 r1 r2 pid m1 m2 :
  tree_rep pg h1 r1 pid m1 -> tree_rep pg h2 r2 pid m2 -> h1 = h2.
Proof.
  revert h2 r1 r2 pid m1 m2; induction h1 as [|h1 IH]; intros h2 r1 r2 pid m1 m2;
    destruct h2 as [|h2]; intros [_ H1] [_ H2]; [done | exfalso | exfalso | f_equal].
  - destruct H1 as (? & E1 & _). destruct H2 as (? & ? & E2 & _). congruence.
  - destruct H1 as (? & ? & E1 & _). destruct H2 as (? & E2 & _). congruence.
  - destruct H1 as (p1 & ms1 & E1 & _ & _ & _ & O1 & _ & L1 & C1).
    destruct H2 as (p2 & ms2 & E2 & _ & _ & _ & _ & _ & L2 & C2).
    assert (p2 = p1) as -> by congruence.
    pose proof (internal_size p1 O1) as Hs. pose proof (length_internal p1 ltac:(lia)) as Hl.
    destruct (lookup_lt_is_Some_2 (internal_entries p1) 0) as [[k c] Ek]; [lia|].
    destruct (lookup_lt_is_Some_2 ms1 0) as [a Ea]; [lia|].
    destruct (lookup_lt_is_Some_2 ms2 0) as [b Eb]; [lia|].
    destruct (C1 _ _ _ _ Ek Ea) as [T1 _]. destruct (C2 _ _ _ _ Ek Eb) as [T2 _]. by eapply IH.
Qed.

(** A tree of height [h] has pages on [h + 1] levels. *)
Lemma tree_rep_path pg h parent pid m : tree_rep pg h parent pid m ->
  exists l : list Z, length l = S h /\ NoDup l /\
    forall q, q ∈ l -> 0 <= q /\ exists h' r' m', (h' <= h)%nat /\ tree_rep pg h' r' q m'.
Proof.
  revert parent pid m; induction h as [|h IH]; intros parent pid m Ht; pose proof Ht as [Hpid Hm].
  - exists [pid]. split_and!; [done | apply NoDup_singleton |]. intros q ->%list_elem_of_singleton. eauto 10.
  - destruct Hm as (p & ms & _ & _ & _ & _ & O & _ & L & C).
    pose proof (internal_size p O) as Hs. pose proof (length_internal p ltac:(lia)) as Hl.
    destruct (lookup_lt_is_Some_2 (internal_entries p) 0) as [[k c] Ek]; [lia|].
    destruct (lookup_lt_is_Some_2 ms 0) as [a Ea]; [lia|].
    destruct (C _ _ _ _ Ek Ea) as [T _]. destruct (IH _ _ _ T) as (l & Hlen & Hnd & Hq).
    exists (pid :: l). split_and!; [simpl; lia | |].
    + constructor; [|done]. intros Hin. destruct (Hq _ Hin) as (_ & h' & r' & m' & Hle & Ht').
      pose proof (tree_rep_height_unique _ _ _ _ _ _ _ _ Ht Ht'). lia.
    + intros q [->|Hin]%elem_of_cons; [split; [done|]; exists (S h), parent, m; auto|].
      destruct (Hq _ Hin) as (? & h' & r' & m' & Hle & Ht'). split; [done|]. exists h', r', m'. auto with lia.
Qed.

Lemma tree_rep_nonzero pg h parent pid m : tree_rep pg h parent pid m -> 0 <= pid /\ pg pid <> Zeroed.
Proof.
  destruct h; intros [? Hm]; (split; [done|]); [destruct Hm as (? & -> & _) | destruct Hm as (? & ? & -> & _)]; done.
Qed.

End Rep.

(** ** Steps of a tree operation *)
Section Steps.

Abbreviation pins_map := (gmap Z (Z * Z)).
Abbreviation latch_map := (gmap Z Latch.ReaderWriterLatch).
Implicit Types (t : BPlusTree) (pg : Z -> page_image) (H : pins_map) (W : gset Z) (L : latch_map).

Definition thold t pg H W L : Prop := hold Zeroed (buffer_pool_manager_ t) pg H W L.

(** Nothing of the tree object itself or of the pool's dimensions changed. *)
Definition same_tree t t' : Prop :=
  tree_root t' = tree_root t /\ leaf_max_size_ t' = leaf_max_size_ t /\
  internal_max_size_ t' = internal_max_size_ t /\
  same_dims (buffer_pool_manager_ t) (buffer_pool_manager_ t').

Lemma same_tree_refl t : same_tree t t.
Proof. done. Qed.

Lemma same_tree_trans t1 t2 t3 : same_tree t1 t2 -> same_tree t2 t3 -> same_tree t1 t3.
Proof.
  intros (? & ? & ? & ?) (? & ? & ? & ?). split_and!; try congruence. by eapply same_dims_trans.
Qed.

Lemma same_tree_set t s' : same_dims (buffer_pool_manager_ t) s' -> same_tree t (set_pool s' t).
Proof. intros HD. split_and!; [done.. | exact HD]. Qed.

Definition slots t : nat := slot_num (buffer_pool_manager_ t).
Definition allocated t : Z := next_page_id (disk_manager (buffer_pool_manager_ t)).

Lemma on_pool_ok {A} (m : M Pool A) t a s' :
  m (buffer_pool_manager_ t) = (Ok a, s') -> on_pool m t = (Ok a, set_pool s' t).
Proof. unfold on_pool. by intros ->. Qed.

Lemma thold_allocated t pg H W L pid : thold t pg H W L -> 0 <= pid -> pg pid <> Zeroed -> pid < allocated t.
Proof. apply hold_nonzero. Qed.

Lemma step_fetch t pg H W L pid : thold t pg H W L -> H !! pid = None -> (size H < slots t)%nat ->
  0 <= pid < allocated t ->
  exists f t', fetch pid t = (Ok (Some f), t') /\ thold t' pg (<[pid := (f, 1)]> H) W L /\ same_tree t t' /\
    L !! f = None.
Proof.
  intros HS Hno Hsz Hpid. destruct (hold_fetch Zeroed _ _ _ _ _ pid HS Hno Hsz Hpid) as (f & s' & E & HS' & D & HL).
  exists f, (set_pool s' t). split; [by apply on_pool_ok|]. split_and!; [exact HS' | by apply same_tree_set | done].
Qed.

Lemma step_unpin t pg H W L pid f n dirty : thold t pg H W L -> H !! pid = Some (f, n) ->
  dirty = true \/ pid ∉ W \/ 1 < n -> (n = 1 -> L !! f = None) ->
  exists t', unpin pid dirty t = (Ok tt, t') /\
    thold t' pg (if decide (n = 1) then delete pid H else <[pid := (f, n - 1)]> H)
      (if dirty then W ∖ {[pid]} else W) L /\ same_tree t t'.
Proof.
  intros HS Hin HW HL. destruct (hold_unpin Zeroed _ _ _ _ _ _ _ _ dirty HS Hin HW HL) as (s' & E & HS' & D).
  exists (set_pool s' t). unfold unpin. rewrite (bind_ok _ _ _ _ _ (on_pool_ok _ _ _ _ E)).
  split; [done|]. split; [exact HS' | by apply same_tree_set].
Qed.

Lemma step_latch t pg H W L pid f n g l : thold t pg H W L -> H !! pid = Some (f, n) ->
  g (default Latch.unlocked (L !! f)) = Ok l ->
  exists t', on_pool (on_latch f g) t = (Ok tt, t') /\ thold t' pg H W (<[f := l]> L) /\ same_tree t t'.
Proof.
  intros HS Hin Hg. destruct (hold_lock Zeroed _ _ _ _ _ _ _ _ g l HS Hin Hg) as (s' & E & HS' & D).
  exists (set_pool s' t). split; [by apply on_pool_ok|]. split; [exact HS' | by apply same_tree_set].
Qed.

Lemma step_unlatch t pg H W L pid f n g : thold t pg H W L -> H !! pid = Some (f, n) ->
  g (default Latch.unlocked (L !! f)) = Ok Latch.unlocked ->
  exists t', on_pool (on_latch f g) t = (Ok tt, t') /\ thold t' pg H W (delete f L) /\ same_tree t t'.
Proof.
  intros HS Hin Hg. destruct (hold_unlock Zeroed _ _ _ _ _ _ _ _ g HS Hin Hg) as (s' & E & HS' & D).
  exists (set_pool s' t). split; [by apply on_pool_ok|]. split; [exact HS' | by apply same_tree_set].
Qed.

(** Reading the struct in a held page. *)
Lemma step_read {A} (cast : page_image -> result A) t pg H W L pid f n x :
  thold t pg H W L -> H !! pid = Some (f, n) -> cast (pg pid) = Ok x ->
  on_pool (read_as cast f) t = (Ok x, t).
Proof.
  intros HS Hin Hc. destruct (hold_get Zeroed _ _ _ _ _ _ _ _ HS Hin) as [E _].
  erewrite on_pool_ok; cycle 1.
  { unfold read_as. rewrite (bind_ok _ _ _ _ _ E), Hc. reflexivity. }
  by destruct t.
Qed.

Lemma step_page_id t pg H W L pid f n : thold t pg H W L -> H !! pid = Some (f, n) ->
  on_pool (GetPageId f) t = (Ok pid, t).
Proof.
  intros HS Hin. destruct (hold_get Zeroed _ _ _ _ _ _ _ _ HS Hin) as [_ E].
  erewrite on_pool_ok by exact E. by destruct t.
Qed.

(** *** The page set of a transaction

    [ps] lists the pages of the set with their frames, each pinned once and
    latched as the operation latches. *)

Definition op_latch (op : OpType) : Latch.ReaderWriterLatch :=
  match op with OpRead => Latch.mkLatch 1 false | _ => Latch.mkLatch 0 true end.

Definition pin_all (ps : list (Z * Z)) H : pins_map := foldr (fun x H => <[x.1 := (x.2, 1)]> H) H ps.
Definition latch_all (op : OpType) (ps : list (Z * Z)) L : latch_map :=
  foldr (fun x L => <[x.2 := op_latch op]> L) L ps.

Lemma lookup_pin_all_ne ps H q : q ∉ ps.*1 -> pin_all ps H !! q = H !! q.
Proof.
  induction ps as [|[p f] ps IH]; simpl; [done|]. intros Hq. rewrite lookup_insert_ne by set_solver. apply IH. set_solver.
Qed.

Lemma lookup_latch_all_ne op ps L f : f ∉ ps.*2 -> latch_all op ps L !! f = L !! f.
Proof.
  induction ps as [|[p g] ps IH]; simpl; [done|]. intros Hq. rewrite lookup_insert_ne by set_solver. apply IH. set_solver.
Qed.

(** What is unsaved after a release: a writer releases its pages as dirty. *)
Definition saved (op : OpType) (ps : list (Z * Z)) W : gset Z :=
  match op with OpRead => W | _ => W ∖ list_to_set ps.*1 end.

Lemma unlatch_unpin op ps : forall t pg H W L,
  NoDup ps.*1 -> NoDup ps.*2 ->
  (forall q, q ∈ ps.*1 -> H !! q = None) -> (forall f, f ∈ ps.*2 -> L !! f = None) ->
  (op = OpRead -> forall q, q ∈ ps.*1 -> q ∉ W) ->
  thold t pg (pin_all ps H) W (latch_all op ps L) ->
  exists t', UnlatchAndUnpin op ps.*2 t = (Ok tt, t') /\
    thold t' pg H (saved op ps W) L /\ same_tree t t'.
Proof.
  induction ps as [|[q f] ps IH]; intros t pg H W L N1 N2 HH HL HW HS; simpl in *.
  { exists t. split; [done|]. split; [|done].
    enough (saved op [] W = W) as -> by done. destruct op; [done|unfold saved; set_solver..]. }
  apply NoDup_cons in N1 as [Nq N1]. apply NoDup_cons in N2 as [Nf N2].
  erewrite bind_ok by (eapply (step_page_id _ _ _ _ _ q f 1); [exact HS|by rewrite lookup_insert_eq]).
  set (g := match op with OpRead => fun l => Ok (Latch.RUnlock l) | _ => fun l => Ok (Latch.WUnlock l) end).
  set (dirty := match op with OpRead => false | _ => true end).
  assert (Hbody : forall t0, (match op with
       | OpRead => on_pool (RUnlatch f);;; unpin q false
       | _ => on_pool (WUnlatch f);;; unpin q true end) t0 = (on_pool (on_latch f g);;; unpin q dirty) t0)
    by (by destruct op).
  destruct (step_unlatch t pg _ _ _ q f 1 g HS) as (t1 & E1 & H1 & S1);
    [by rewrite lookup_insert_eq | rewrite lookup_insert_eq; by destruct op |].
  rewrite delete_insert_id in H1 by (rewrite lookup_latch_all_ne by done; apply HL; set_solver).
  destruct (step_unpin t1 pg _ _ _ q f 1 dirty H1) as (t2 & E2 & H2 & S2).
  { by rewrite lookup_insert_eq. }
  { subst dirty. destruct op; [right; left; apply HW; [done|set_solver] | by left..]. }
  { intros _. rewrite lookup_latch_all_ne by done. apply HL. set_solver. }
  rewrite decide_True in H2 by done.
  rewrite delete_insert_id in H2 by (rewrite lookup_pin_all_ne by done; apply HH; set_solver).
  erewrite bind_ok by (rewrite Hbody, (bind_ok _ _ _ _ _ E1); exact E2).
  edestruct IH with (6 := H2) as (t3 & E3 & H3 & S3); [done | done | set_solver | set_solver | |].
  { intros Hop x Hx. subst dirty. destruct op; [apply HW; [done|set_solver] | done..]. }
  exists t3. split; [exact E3|]. split; [|by eapply same_tree_trans; [|eapply same_tree_trans]].
  subst dirty. destruct op; [exact H3|..]; unfold saved in *; rewrite difference_difference_l_L in H3; exact H3.
Qed.

End Steps.

(** ** Search *)
Section Search.

Implicit Types (t : BPlusTree) (pg : Z -> page_image) (m : list (bytes * RID)).

Lemma as_header_leaf p : as_header (LeafImage p) = Ok (Leaf.header p).
Proof. done. Qed.

Lemma child_ne pg h parent pid m p c : tree_rep pg (S h) parent pid m -> pg pid = InternalImage p ->
  forall mi, tree_rep pg h pid c mi -> c <> pid.
Proof.
  intros Ht _ mi Hc ->. pose proof (tree_rep_height_unique _ _ _ _ _ _ _ _ Ht Hc). lia.
Qed.

(** One node of the descent: what its header says, and where a key goes. *)
Lemma tree_rep_leaf pg parent pid m : tree_rep pg 0 parent pid m ->
  exists p, pg pid = LeafImage p /\ IsLeafPage (Leaf.header p) = true /\ leaf_ok p /\ leaf_entries p = m /\
    page_id_ (Leaf.header p) = pid.
Proof.
  intros [_ (p & E & Ht & Hi & _ & Hok & Hm)]. exists p. split_and!; auto.
  unfold IsLeafPage. by rewrite Ht, bool_decide_eq_true_2.
Qed.

Lemma tree_rep_descend pg h parent pid m k : tree_rep pg (S h) parent pid m -> key_wf k ->
  exists p c mi, pg pid = InternalImage p /\ IsLeafPage (Internal.header p) = false /\
    Internal.Lookup k p = Ok c /\ tree_rep pg h pid c mi /\ c <> pid /\
    page_id_ (Internal.header p) = pid /\ to_map m !! k = to_map mi !! k.
Proof.
  intros Ht Hk. pose proof Ht as [_ (p & ms & E & Hty & Hi & _ & Hok & -> & Hlen & Hch)].
  destruct (Lookup_routes p k Hok Hk) as (i & c & Hlk & Hr). pose proof Hr as [(k' & Hl & _) _].
  destruct (lookup_lt_is_Some_2 ms i) as [mi Hmi]; [apply lookup_lt_Some in Hl; lia|].
  destruct (Hch i k' c mi Hl Hmi) as [Hc _].
  exists p, c, mi. split_and!; auto.
  - unfold IsLeafPage. by rewrite Hty.
  - by eapply child_ne.
  - eapply routed_lookup; eauto; [apply Hok | by eapply tree_rep_ranged].
Qed.

Lemma tree_rep_first pg h parent pid m : tree_rep pg (S h) parent pid m ->
  exists p c mi m', pg pid = InternalImage p /\ IsLeafPage (Internal.header p) = false /\
    Internal.ValueAt 0 p = Ok c /\ tree_rep pg h pid c mi /\ c <> pid /\ m = mi ++ m'.
Proof.
  intros Ht. pose proof Ht as [_ (p & ms & E & Hty & Hi & _ & Hok & -> & Hlen & Hch)].
  pose proof (internal_size p Hok) as Hs. pose proof (length_internal p ltac:(lia)) as Hl.
  pose proof (internal_lookup p 0 ltac:(lia)) as H0. rewrite decide_True in H0 by lia.
  destruct (Internal.at_ 0 p) as [k c] eqn:Eat.
  destruct ms as [|mi ms]; [simpl in Hlen; lia|].
  destruct (Hch 0%nat k c mi H0 eq_refl) as [Hc _].
  exists p, c, mi, (concat ms). split_and!; auto.
  - unfold IsLeafPage. by rewrite Hty.
  - change (Ok (Internal.at_ 0 p).2 = Ok c). by rewrite Eat.
  - by eapply child_ne.
Qed.

Lemma latch_all_insert op ps L f l : f ∉ ps.*2 ->
  <[f := l]> (latch_all op ps L) = latch_all op ps (<[f := l]> L).
Proof.
  induction ps as [|[q g] ps IH]; simpl; [done|]. intros Hf.
  rewrite insert_insert_ne by set_solver. rewrite IH by set_solver. done.
Qed.

Lemma find_leaf_read h : forall fuel t pg ps pid f parent m key,
  (h < fuel)%nat -> (2 <= slots t)%nat -> key_wf key -> tree_rep pg h parent pid m ->
  NoDup ps.*1 -> NoDup ps.*2 -> pid ∉ ps.*1 -> f ∉ ps.*2 ->
  thold t pg (pin_all ps {[pid := (f, 1)]}) ∅ (latch_all OpRead ps ∅) ->
  exists fl pl t' p, find_leaf_loop fuel key false OpRead (Some f) ps.*2 t = (Ok (fl, [fl]), t') /\
    thold t' pg (pin_all [(pl, fl)] ∅) ∅ (latch_all OpRead [(pl, fl)] ∅) /\ same_tree t t' /\
    pg pl = LeafImage p /\ leaf_ok p /\ to_map m !! key = to_map (leaf_entries p) !! key.
Proof.
  induction h as [|h IH]; intros fuel t pg ps pid f parent m key Hfuel Hsl Hk Ht N1 N2 Hp Hf HS;
    (destruct fuel as [|fuel]; [lia|]); cbn [find_leaf_loop].
  all: assert (Hin : pin_all ps {[pid := (f, 1)]} !! pid = Some (f, 1))
    by (rewrite lookup_pin_all_ne by done; apply lookup_singleton_eq).
  all: destruct (step_latch t pg _ _ _ pid f 1 Latch.RLock (op_latch OpRead) HS Hin) as (t1 & E1 & H1 & S1);
    [by rewrite lookup_latch_all_ne by done|].
  all: rewrite latch_all_insert in H1 by done.
  all: edestruct unlatch_unpin with (1 := N1) (2 := N2) (6 := H1) as (t2 & E2 & H2 & S2);
    [intros q Hq; apply lookup_singleton_ne; congruence | intros g Hg; rewrite lookup_insert_ne by congruence; done
    | set_solver |].
  all: erewrite bind_ok; [|unfold RLatch; rewrite (bind_ok _ _ _ _ _ E1), (bind_ok _ _ _ _ _ E2); reflexivity].
  all: assert (Hin2 : ({[pid := (f, 1)]} : gmap Z (Z * Z)) !! pid = Some (f, 1)) by apply lookup_singleton_eq.
  - destruct (tree_rep_leaf _ _ _ _ Ht) as (p & Epg & Hleaf & Hok & Hm & _).
    erewrite bind_ok by (eapply (step_read as_header _ _ _ _ _ pid f 1); [exact H2 | exact Hin2 | by rewrite Epg]).
    rewrite Hleaf. exists f, pid, t2, p. simpl. split; [done|]. subst m.
    split_and!; auto. by eapply same_tree_trans.
  - destruct (tree_rep_descend _ _ _ _ _ key Ht Hk) as (p & c & mi & Epg & Hleaf & Hlk & Hc & Hne & _ & Hmap).
    erewrite bind_ok by (eapply (step_read as_header _ _ _ _ _ pid f 1); [exact H2 | exact Hin2 | by rewrite Epg]).
    rewrite Hleaf.
    erewrite bind_ok by (eapply (step_read as_internal _ _ _ _ _ pid f 1); [exact H2 | exact Hin2 | by rewrite Epg]).
    rewrite Hlk. unfold bind at 1, lift.
    destruct (tree_rep_nonzero _ _ _ _ _ Hc) as [Hc0 Hcz].
    assert (Hsl2 : slots t2 = slots t).
    { destruct S1 as (_ & _ & _ & [_ Hd1]). destruct S2 as (_ & _ & _ & [_ Hd2]). unfold slots. congruence. }
    destruct (step_fetch t2 pg _ _ _ c H2) as (f' & t3 & E3 & H3 & S3 & HL).
    { by apply lookup_singleton_ne. }
    { rewrite map_size_singleton. lia. }
    { split; [done|]. by eapply thold_allocated. }
    rewrite (bind_ok _ _ _ _ _ E3).
    assert (f' <> f) by (intros ->; rewrite lookup_insert_eq in HL; done).
    destruct (IH fuel t3 pg [(pid, f)] c f' pid mi key) as (fl & pl & t4 & q & E4 & H4 & S4 & Hq1 & Hq2 & Hq3).
    { lia. }
    { destruct S3 as (_ & _ & _ & [_ Hd3]). unfold slots in *. rewrite Hd3. lia. }
    { done. }
    { done. }
    { simpl. apply NoDup_singleton. }
    { simpl. apply NoDup_singleton. }
    { set_solver. }
    { set_solver. }
    { simpl. rewrite <- insert_empty, insert_insert_ne by done. rewrite insert_empty. exact H3. }
    exists fl, pl, t4, q. split; [exact E4|]. rewrite Hmap. split_and!; auto.
    by eapply same_tree_trans; [|eapply same_tree_trans; [|eapply same_tree_trans]].
Qed.

(** The tree object [t] over an idle pool has the contents [m]. *)
Definition tree_has t pg m : Prop :=
  (tree_root t = INVALID_PAGE_ID /\ m = []) \/
  (exists h, tree_rep pg h INVALID_PAGE_ID (tree_root t) m).

Definition tidle t pg : Prop := idle Zeroed (buffer_pool_manager_ t) pg.

Lemma tree_fuel_enough t pg H W L h r pid m : thold t pg H W L -> tree_rep pg h r pid m -> (h < tree_fuel t)%nat.
Proof.
  intros HS Ht. destruct (tree_rep_path _ _ _ _ _ Ht) as (l & Hlen & Hnd & Hq).
  enough (length l <= Z.to_nat (allocated t))%nat by (unfold tree_fuel, allocated in *; lia).
  apply NoDup_bounded; [done|]. intros q Hin. destruct (Hq q Hin) as (H0 & h' & r' & m' & _ & Ht').
  destruct (tree_rep_nonzero _ _ _ _ _ Ht') as [_ Hz]. pose proof (thold_allocated _ _ _ _ _ _ HS H0 Hz). lia.
Qed.

Lemma get_value_ok t pg m key : tidle t pg -> tree_has t pg m -> (2 <= slots t)%nat -> key_wf key ->
  exists t', GetValue key t = (Ok (to_map m !! key), t') /\ tidle t' pg /\ same_tree t t'.
Proof.
  intros HS [[Hr ->]|[h Ht]] Hsl Hk.
  { exists t. unfold GetValue, bind, get, IsEmpty. rewrite Hr, Z.eqb_refl. done. }
  destruct (tree_rep_nonzero _ _ _ _ _ Ht) as [Hr0 Hrz].
  unfold GetValue, bind at 1, get. unfold IsEmpty.
  destruct (Z.eqb_spec (tree_root t) INVALID_PAGE_ID) as [E|_]; [rewrite E in Hr0; unfold INVALID_PAGE_ID in Hr0; lia|].
  destruct (step_fetch t pg ∅ ∅ ∅ (tree_root t) HS) as (f & t1 & E1 & H1 & S1 & _).
  { apply lookup_empty. }
  { rewrite map_size_empty. lia. }
  { split; [done|]. by eapply thold_allocated. }
  pose proof (tree_fuel_enough t1 _ _ _ _ _ _ _ _ H1 Ht) as Hfuel.
  assert (Hff : tree_fuel t1 = tree_fuel t).
  { destruct S1 as (_ & _ & _ & [Hn _]). unfold tree_fuel. by rewrite Hn. }
  destruct (find_leaf_read h (tree_fuel t) t1 pg [] (tree_root t) f INVALID_PAGE_ID m key)
    as (fl & pl & t2 & p & E2 & H2 & S2 & Hp & Hok & Hmap); try done; try (by constructor); try set_solver.
  { rewrite <- Hff. done. }
  { destruct S1 as (_ & _ & _ & [_ Hn]). unfold slots in *. by rewrite Hn. }
  erewrite bind_ok; cycle 1.
  { unfold FindLeafPageRW, bind at 1, get. rewrite (bind_ok _ _ _ _ _ E1). exact E2. }
  cbv beta iota. erewrite bind_ok by (eapply (step_read as_leaf _ _ _ _ _ pl fl 1); [exact H2 | apply lookup_insert_eq | by rewrite Hp]).
  edestruct unlatch_unpin with (6 := H2) as (t3 & E3 & H3 & S3); simpl;
    [apply NoDup_singleton | apply NoDup_singleton | intros; apply lookup_empty | intros; apply lookup_empty | set_solver |].
  simpl in E3. rewrite (bind_ok _ _ _ _ _ E3). exists t3. rewrite Hmap, Lookup_map by done. split; [done|].
  split; [exact H3|]. by eapply same_tree_trans; [|eapply same_tree_trans].
Qed.

(** The leftmost leaf, where an ordered scan starts. *)
Fixpoint leftmost pg (h : nat) (pid : Z) : Z :=
  match h with
  | O => pid
  | S h => match pg pid with InternalImage p => leftmost pg h (Internal.at_ 0 p).2 | _ => pid end
  end.

Lemma first_leaf_ok h : forall fuel t pg pid parent m, (h < fuel)%nat -> (1 <= slots t)%nat ->
  tree_rep pg h parent pid m -> tidle t pg ->
  exists t', first_leaf_loop fuel pid t = (Ok (leftmost pg h pid), t') /\ tidle t' pg /\ same_tree t t'.
Proof.
  induction h as [|h IH]; intros fuel t pg pid parent m Hfuel Hsl Ht HS;
    (destruct fuel as [|fuel]; [lia|]); cbn [first_leaf_loop];
    destruct (tree_rep_nonzero _ _ _ _ _ Ht) as [Hr0 Hrz].
  all: destruct (step_fetch t pg ∅ ∅ ∅ pid HS) as (f & t1 & E1 & H1 & S1 & _);
    [apply lookup_empty | rewrite map_size_empty; lia | split; [done|]; by eapply thold_allocated |].
  all: assert (Ed : fetch_deref pid t = (Ok f, t1)) by (unfold fetch_deref; rewrite (bind_ok _ _ _ _ _ E1); done).
  all: rewrite (bind_ok _ _ _ _ _ Ed).
  all: destruct (step_unpin t1 pg _ _ _ pid f 1 false H1) as (t2 & E2 & H2 & S2);
    [apply lookup_insert_eq | right; left; set_solver | intros; apply lookup_empty |].
  all: rewrite decide_True, delete_insert_id in H2 by first [done | apply lookup_empty].
  - destruct (tree_rep_leaf _ _ _ _ Ht) as (p & Epg & Hleaf & Hok & Hm & _).
    erewrite bind_ok by (eapply (step_read as_header _ _ _ _ _ pid f 1); [exact H1 | apply lookup_insert_eq | by rewrite Epg]).
    rewrite Hleaf. rewrite (bind_ok _ _ _ _ _ E2). exists t2. split_and!; auto. by eapply same_tree_trans.
  - destruct (tree_rep_first _ _ _ _ _ Ht) as (p & c & mi & m' & Epg & Hleaf & Hv & Hc & Hne & ->).
    erewrite bind_ok by (eapply (step_read as_header _ _ _ _ _ pid f 1); [exact H1 | apply lookup_insert_eq | by rewrite Epg]).
    rewrite Hleaf.
    erewrite bind_ok by (eapply (step_read as_internal _ _ _ _ _ pid f 1); [exact H1 | apply lookup_insert_eq | by rewrite Epg]).
    rewrite Hv. unfold bind at 1, lift. rewrite (bind_ok _ _ _ _ _ E2).
    assert (Hsl2 : slots t2 = slots t).
    { destruct S1 as (_ & _ & _ & [_ Hd1]). destruct S2 as (_ & _ & _ & [_ Hd2]). unfold slots. congruence. }
    destruct (IH fuel t2 pg c pid mi) as (t3 & E3 & H3 & S3); [lia | lia | done | done |].
    assert (Hlm : leftmost pg (S h) pid = leftmost pg h c).
    { cbn [leftmost]. rewrite Epg. injection Hv as Hv. by rewrite <- Hv. }
    exists t3. rewrite Hlm. split_and!; auto.
    by eapply same_tree_trans; [|eapply same_tree_trans].
Qed.

End Search.

(** ** Properties *)

(** C11. [GetValue] is lookup in a finite map: on every well-formed tree over
    an idle pool of at least two frames, whatever the tree's height and
    whichever of its pages are resident, it terminates, returns what the map
    of the tree's entries has for the key, changes no page, and gives back
    every pin and latch it took. *)
Theorem GetValue_correct (t : BPlusTree) (pg : Z -> page_image) (m : list (bytes * RID)) (key : bytes) :
  tidle t pg -> tree_has t pg m -> (2 <= slots t)%nat -> key_wf key ->
  exists t', GetValue key t = (Ok (to_map m !! key), t') /\ tidle t' pg /\ same_tree t t'.
Proof. exact (get_value_ok t pg m key). Qed.

(** A tree of two leaves below a root, as a file of three pages. *)
Definition leaf_of (pid parent : Z) (l : list (bytes * RID)) : page_image :=
  LeafImage (Leaf.mkLeaf (mkHeader LeafPage (Z.of_nat (length l)) 3 parent pid) INVALID_PAGE_ID l).
Definition internal_of (pid parent : Z) (l : list (bytes * Z)) : page_image :=
  InternalImage (Internal.mkInternal (mkHeader InternalPage (Z.of_nat (length l)) 3 parent pid) l).

Definition entry (n : Z) : bytes * RID := (KeyEncoder_int64 n, mkRID n n).

Definition small_file : list page_image :=
  [leaf_of 0 2 [entry 1; entry 5]; leaf_of 1 2 [entry 9]; internal_of 2 (-1) [(zero_key, 0); (KeyEncoder_int64 9, 1)]].

Definition small_tree : BPlusTree := mkTree (Pool_new 2 small_file) 2 3 3.
Definition small_pages (q : Z) : page_image := load Zeroed (Z.to_nat q) small_file.

Lemma small_tree_rep : tree_rep small_pages 1 INVALID_PAGE_ID 2 [entry 1; entry 5; entry 9].
Proof.
  split; [lia|]. eexists _, [[entry 1; entry 5]; [entry 9]]. split; [reflexivity|].
  split_and!; try done.
  { constructor; [vm_compute; discriminate|]. constructor; repeat constructor. }
  intros [|[|i]] k c mi Hi Hmi; [| |done]; injection Hi as <- <-; injection Hmi as <-; split.
  - split; [lia|]. eexists. split; [reflexivity|]. split_and!; try done.
    constructor; [vm_compute; discriminate|]. constructor; repeat constructor.
  - intros x Hx. split; [lia|]. intros k' c' [= <- <-].
    apply list_elem_of_In in Hx. destruct Hx as [<-|[<-|[]]]; vm_compute; reflexivity.
  - split; [lia|]. eexists. split; [reflexivity|]. split_and!; try done.
    constructor; [vm_compute; discriminate|]. constructor; repeat constructor.
  - intros x ->%list_elem_of_singleton. split; [vm_compute; discriminate | done].
Qed.

Lemma GetValue_correct_witness :
  exists t', GetValue (KeyEncoder_int64 5) small_tree =
      (Ok (to_map [entry 1; entry 5; entry 9] !! KeyEncoder_int64 5), t') /\
    tidle t' small_pages /\ same_tree small_tree t'.
Proof.
  apply (GetValue_correct small_tree small_pages [entry 1; entry 5; entry 9] (KeyEncoder_int64 5)).
  - apply (idle_open Zeroed 2 small_file). vm_compute. discriminate.
  - right. exists 1%nat. apply small_tree_rep.
  - vm_compute. lia.
  - reflexivity.
Defined.

(** Borrowing from the left neighbour breaks an internal node: the
    recipient's entries move up by two while its size grows by one, so its last
    child is lost and its first child becomes [INVALID_PAGE_ID]. *)
Theorem MoveLastToFrontOf_loses_child (dst : Internal.BPlusTreeInternalPage) (middle_key k0 kl : bytes)
  (c0 cl : Z) (rest : list (bytes * Z)) (item : bytes * Z) :
  0 <= Internal.GetSize dst -> internal_entries dst = (k0, c0) :: rest ++ [(kl, cl)] ->
  let dst' := Internal.on_header (IncreaseSize 1) (push_front_two middle_key item dst) in
  internal_entries dst' = (k0, INVALID_PAGE_ID) :: item :: (middle_key, c0) :: rest.
Proof.
  intros Hsz Hl dst'. pose proof (length_internal dst Hsz) as Hlen. rewrite Hl in Hlen. simpl in Hlen.
  rewrite length_app in Hlen. simpl in Hlen.
  assert (Hat : forall i x, ((k0, c0) :: rest ++ [(kl, cl)]) !! i = Some x ->
            load Internal.zero_item i (Internal.array_ dst) = x).
  { intros i x Hx. rewrite <- Hl, internal_lookup in Hx by done. case_decide; [|done]. by injection Hx. }
  apply list_eq. intros i. unfold internal_entries. rewrite lookup_cells. unfold dst', push_front_two, Internal.GetSize in *.
  unfold Internal.set_at, Internal.set_array, Internal.at_. cbn [Internal.on_header Internal.header Internal.array_ IncreaseSize SetSize size_].
  rewrite !load_store, !load_shift_up by lia.
  destruct i as [|[|[|i]]]; cbn [lookup list_lookup];
    repeat (case_decide; try lia); rewrite ?load_store, ?load_shift_up by lia; repeat (case_decide; try lia).
  - f_equal. f_equal. by rewrite (Hat 0%nat (k0, c0) eq_refl).
  - done.
  - change (2 - 2)%nat with 0%nat. do 2 f_equal. by rewrite (Hat 0%nat (k0, c0) eq_refl).
  - destruct (lookup_lt_is_Some_2 rest i) as [x Hx]; [lia|].
    etransitivity; [|symmetry; exact Hx]. f_equal.
    replace (S (S (S i)) - 2)%nat with (S i) by lia. apply Hat. simpl. by apply lookup_app_l_Some.
  - symmetry. apply lookup_ge_None_2. lia.
Qed.

Lemma MoveLastToFrontOf_loses_child_witness :
  let dst := Internal.mkInternal (mkHeader InternalPage 3 4 9 7)
               [(zero_key, 20); (KeyEncoder_int64 30, 21); (KeyEncoder_int64 40, 22)] in
  let dst' := Internal.on_header (IncreaseSize 1)
                (push_front_two (KeyEncoder_int64 25) (KeyEncoder_int64 15, 19) dst) in
  internal_entries dst' =
    (zero_key, INVALID_PAGE_ID) :: (KeyEncoder_int64 15, 19) :: (KeyEncoder_int64 25, 20) ::
    [(KeyEncoder_int64 30, 21)].
Proof.
  apply (MoveLastToFrontOf_loses_child
    (Internal.mkInternal (mkHeader InternalPage 3 4 9 7)
       [(zero_key, 20); (KeyEncoder_int64 30, 21); (KeyEncoder_int64 40, 22)])
    (KeyEncoder_int64 25) zero_key (KeyEncoder_int64 40) 20 22 [(KeyEncoder_int64 30, 21)]
    (KeyEncoder_int64 15, 19)); [vm_compute; discriminate | reflexivity].
Defined.

(** Runs of insertions and removals of integer keys. *)
Fixpoint insert_all (ks : list Z) : M BPlusTree unit :=
  match ks with
  | [] => ret tt
  | k :: ks => let* _ := Insert (KeyEncoder_int64 k) (mkRID k k) in insert_all ks
  end.

Fixpoint remove_all (ks : list Z) : M BPlusTree unit :=
  match ks with
  | [] => ret tt
  | k :: ks => Remove (KeyEncoder_int64 k);;; remove_all ks
  end.

Definition upto (n : nat) : list Z := Z.of_nat <$> seq 1 n.

(** The pages that are still pinned, with their pin counts. *)
Definition pinned (t : BPlusTree) : list (Z * Z) :=
  filter (fun x => 0 < x.2) ((fun p => (page_id p, pin_count p)) <$> pages (buffer_pool_manager_ t)).

(** A removal can wait for ever on a latch its own thread holds: merging
    a node frees its frame with the write latch still taken, and the fetch of
    an uncle that is not resident reuses that frame and latches it again. Here
    fourteen insertions succeed in a pool of eight frames, and removing the
    keys in order blocks. *)
Theorem Remove_self_deadlock :
  let t0 := BPlusTree_new (Pool_new 8 []) 3 3 in
  let (r, t) := insert_all (upto 14) t0 in
  r = Ok tt /\ pinned t = [] /\ (remove_all (upto 13) t).1 = Fail Blocked.
Proof. vm_compute. split_and!; reflexivity. Qed.

(** [Redistribute] never releases the parent it fetches: after five
    insertions and one removal that borrows from the right sibling, the parent
    stays pinned although no call is in progress. *)
Theorem Redistribute_leaks_pin :
  let t0 := BPlusTree_new (Pool_new 12 []) 4 4 in
  let (r1, t1) := insert_all (upto 5) t0 in
  let (r2, t2) := Remove (KeyEncoder_int64 1) t1 in
  r1 = Ok tt /\ pinned t1 = [] /\ r2 = Ok tt /\ pinned t2 = [(tree_root t2, 1)].
Proof. vm_compute. split_and!; reflexivity. Qed.
