(* ===== verification/TreeOwn.v ===== *)
(** * B+Trees that own their pages

    [own] refines [tree_rep] for operations that write: the tree lists the
    pages it consists of, keeps every separator strictly within the bounds of
    its node, respects the maximal sizes and links its leaves. [own_ctx] is a
    tree with a subtree taken out, seen from the hole upwards. *)

From Stdlib Require Import Sorting.Sorted.
From stdpp Require Import functions.
From S2P Require Import Prelude KeyCodec Replacer BufferPool BufferPoolSpec PoolHold TreePages TreePagesSpec PageImage BPlusTree BPlusTreeSpec.
Open Scope Z_scope.

(** ** Separators as lower bounds *)

Definition bnd (x : bytes * Z) : Z * Z := (key_num x.1, x.2).

(** The lower bound of each child; the first one is the node's own. *)
Definition bounds (lo : Z) (l : list (bytes * Z)) : list (Z * Z) :=
  match l with [] => [] | x :: l => (lo, x.2) :: (bnd <$> l) end.

(** The upper bound left of [es]. *)
Definition next (hi : Z) (es : list (Z * Z)) : Z := match es with [] => hi | (b, _) :: _ => b end.

Lemma next_app hi es1 es2 : next hi (es1 ++ es2) = next (next hi es2) es1.
Proof. by destruct es1 as [|[b c] es1]. Qed.

Lemma bounds_app lo l1 x l2 :
  bounds lo (l1 ++ x :: l2) = bounds lo l1 ++ (if decide (l1 = []) then lo else key_num x.1, x.2) :: (bnd <$> l2).
Proof. destruct l1 as [|y l1]; simpl; [done|]. by rewrite fmap_app. Qed.

Lemma bounds_children lo l : (bounds lo l).*2 = l.*2.
Proof. destruct l as [|x l]; simpl; [done|]. f_equal. rewrite <- list_fmap_compose. by apply list_fmap_ext. Qed.

Lemma length_bounds lo l : length (bounds lo l) = length l.
Proof. destruct l; simpl; [done|]. by rewrite length_fmap. Qed.

Definition key_top : Z := 256 ^ Z.of_nat kKeyLen.

Lemma key_num_range k : key_wf k -> 0 <= key_num k < key_top.
Proof. intros Hk. unfold key_num, key_top. rewrite <- Hk. apply be_value_range. Qed.

(** ** Ownership *)
Section Own.

Context (lmax imax : Z).
Implicit Types (pg : Z -> page_image) (m : list (bytes * RID)) (F : list Z).

(** What a predicate on trees says of the consecutive children [es] of a node,
    up to the bound [hi] and the leaf [nx]. *)
Fixpoint seg (T : Z -> Z -> Z -> list (bytes * RID) -> list Z -> Z -> Z -> Prop) (hi nx : Z)
    (es : list (Z * Z)) m F (fst : Z) : Prop :=
  match es with
  | [] => m = [] /\ F = [] /\ fst = nx
  | (b, c) :: es => exists m1 m2 F1 F2 mid, m = m1 ++ m2 /\ F = F1 ++ F2 /\ b < next hi es /\
      T c b (next hi es) m1 F1 fst mid /\ seg T hi nx es m2 F2 mid
  end.

Definition node_hdr (ty : IndexPageType) (h : BPlusTreePage) (parent pid : Z) : Prop :=
  page_type_ h = ty /\ page_id_ h = pid /\ parent_page_id_ h = parent.

(** The tree at [pid], of height [h], holds [m] with keys from [lo] up to [hi],
    on the pages [F]; its leaves are linked from [fst] on and end at [nx]. *)
Fixpoint own pg (h : nat) (parent pid lo hi : Z) m F (fst nx : Z) : Prop :=
  0 <= pid /\
  match h with
  | O => exists p, pg pid = LeafImage p /\ node_hdr LeafPage (Leaf.header p) parent pid /\
      leaf_ok p /\ (Leaf.GetSize p <= lmax - 1 /\ max_size_ (Leaf.header p) = lmax) /\ leaf_entries p = m /\
      (forall x, x ∈ m -> lo <= key_num x.1 < hi) /\ F = [pid] /\ fst = pid /\ Leaf.next_page_id_ p = nx
  | S h => exists p F', pg pid = InternalImage p /\ node_hdr InternalPage (Internal.header p) parent pid /\
      internal_ok p /\ (2 <= Internal.GetSize p <= imax) /\ F = pid :: F' /\
      seg (own pg h pid) hi nx (bounds lo (internal_entries p)) m F' fst
  end.

Lemma seg_app T hi nx es1 es2 m F fst : seg T hi nx (es1 ++ es2) m F fst <->
  exists m1 m2 F1 F2 mid, m = m1 ++ m2 /\ F = F1 ++ F2 /\
    seg T (next hi es2) mid es1 m1 F1 fst /\ seg T hi nx es2 m2 F2 mid.
Proof.
  revert m F fst. induction es1 as [|[b c] es1 IH]; intros m F fst; simpl.
  - split; [intros Hs; exists [], m, [], F, fst; by split_and!|].
    by intros (m1 & m2 & F1 & F2 & mid & -> & -> & (-> & -> & ->) & Hs).
  - rewrite next_app. split.
    + intros (m1 & m2 & F1 & F2 & mid & -> & -> & Hb & Ht & Hs).
      apply IH in Hs as (m3 & m4 & F3 & F4 & mid' & -> & -> & Hs1 & Hs2).
      exists (m1 ++ m3), m4, (F1 ++ F3), F4, mid'. rewrite !app_assoc. split_and!; auto. eauto 12.
    + intros (m1 & m2 & F1 & F2 & mid & -> & -> & (m3 & m4 & F3 & F4 & mid' & -> & -> & Hb & Ht & Hs1) & Hs2).
      exists m3, (m4 ++ m2), F3, (F4 ++ F2), mid'. rewrite <- !app_assoc. split_and!; auto.
      apply IH. eauto 12.
Qed.

Lemma seg_impl (T T' : Z -> Z -> Z -> list (bytes * RID) -> list Z -> Z -> Z -> Prop) hi nx es m F fst :
  (forall b c hi m1 F1 f n, (b, c) ∈ es -> F1 ⊆ F -> T c b hi m1 F1 f n -> T' c b hi m1 F1 f n) ->
  seg T hi nx es m F fst -> seg T' hi nx es m F fst.
Proof.
  revert m F fst. induction es as [|[b c] es IH]; intros m F fst Himp; simpl; [done|].
  intros (m1 & m2 & F1 & F2 & mid & -> & -> & Hb & Ht & Hs). exists m1, m2, F1, F2, mid. split_and!; auto.
  - eapply Himp; [set_solver | set_solver | done].
  - apply IH; [|done]. intros. eapply Himp; [set_solver | set_solver | done].
Qed.

(** The first bound is below the last, and the contents are in between. *)
Lemma seg_lt T hi nx b c es m F fst : seg T hi nx ((b, c) :: es) m F fst -> b < hi.
Proof.
  revert b c m F fst. induction es as [|[b' c'] es IH]; intros b c m F fst (m1 & m2 & F1 & F2 & mid & _ & _ & Hb & _ & Hs);
    [done|]. apply IH in Hs. simpl in Hb. lia.
Qed.

Lemma seg_next_le T hi nx es m F fst : seg T hi nx es m F fst -> next hi es <= hi.
Proof. destruct es as [|[b c] es]; simpl; [lia|]. intros Hs. apply (seg_lt T hi nx b c es m F fst) in Hs. lia. Qed.

Lemma own_pid pg h parent pid lo hi m F fst nx : own pg h parent pid lo hi m F fst nx -> 0 <= pid /\ pid ∈ F.
Proof.
  destruct h; intros [H0 Hm]; (split; [done|]).
  - destruct Hm as (p & _ & _ & _ & _ & _ & _ & -> & _). set_solver.
  - destruct Hm as (p & F' & _ & _ & _ & _ & -> & _). set_solver.
Qed.

Lemma own_range pg h : forall parent pid lo hi m F fst nx, own pg h parent pid lo hi m F fst nx ->
  forall x, x ∈ m -> lo <= key_num x.1 < hi.
Proof.
  induction h as [|h IH]; intros parent pid lo hi m F fst nx [_ Hm].
  { by destruct Hm as (p & _ & _ & _ & _ & _ & Hx & _). }
  destruct Hm as (p & F' & _ & _ & _ & _ & _ & Hs).
  enough (forall es m F fst, seg (own pg h pid) hi nx es m F fst -> forall x, x ∈ m -> next lo es <= key_num x.1 < hi) as Hseg.
  { intros x Hx. specialize (Hseg _ _ _ _ Hs x Hx). unfold bounds in Hseg. by destruct (internal_entries p). }
  clear Hs. induction es as [|[b c] es IHes]; intros m0 F0 fst0; simpl.
  - intros (-> & _) x Hx. set_solver.
  - intros (m1 & m2 & F1 & F2 & mid & -> & -> & Hb & Ht & Hs) x [Hx|Hx]%elem_of_app.
    + specialize (IH _ _ _ _ _ _ _ _ Ht x Hx). apply seg_next_le in Hs. lia.
    + specialize (IHes _ _ _ Hs x Hx). destruct es as [|[b' c'] es]; simpl in *; [|lia].
      destruct Hs as (-> & _). set_solver.
Qed.

Lemma seg_range pg h parent hi nx es m F fst : seg (own pg h parent) hi nx es m F fst ->
  forall x, x ∈ m -> next hi es <= key_num x.1 < hi.
Proof.
  revert m F fst. induction es as [|[b c] es IH]; intros m F fst; simpl; [intros (-> & _); set_solver|].
  intros (m1 & m2 & F1 & F2 & mid & -> & _ & Hb & Ht & Hs) x [Hx|Hx]%elem_of_app.
  - pose proof (own_range _ _ _ _ _ _ _ _ _ _ Ht x Hx). apply seg_next_le in Hs. lia.
  - specialize (IH _ _ _ Hs x Hx). lia.
Qed.

(** Ownership depends on the owned pages only. *)
Lemma own_frame pg pg' h : forall parent pid lo hi m F fst nx, (forall q, q ∈ F -> pg' q = pg q) ->
  own pg h parent pid lo hi m F fst nx -> own pg' h parent pid lo hi m F fst nx.
Proof.
  induction h as [|h IH]; intros parent pid lo hi m F fst nx HF Ho; pose proof (own_pid _ _ _ _ _ _ _ _ _ _ Ho) as [_ Hin];
    destruct Ho as [H0 Hm]; (split; [done|]).
  - destruct Hm as (p & Hp & Hm). exists p. rewrite HF by done. by split.
  - destruct Hm as (p & F' & Hp & A & B & [C C0] & -> & Hs). exists p, F'. rewrite HF by set_solver. split_and!; auto.
    eapply seg_impl; [|done]. intros b c hi' m1 F1 f n _ HF1. apply IH. intros q Hq. apply HF. set_solver.
Qed.

Lemma seg_frame pg pg' h parent hi nx es m F fst : (forall q, q ∈ F -> pg' q = pg q) ->
  seg (own pg h parent) hi nx es m F fst -> seg (own pg' h parent) hi nx es m F fst.
Proof.
  intros HF. apply seg_impl. intros b c hi' m1 F1 f n _ HF1. apply own_frame. intros q Hq. apply HF. set_solver.
Qed.

(** Every owned page is a page of the tree, hence neither negative nor zeroed. *)
Definition is_node (x : page_image) : Prop := match x with LeafImage _ | InternalImage _ => True | _ => False end.

Lemma seg_child T hi nx es m F fst b c : seg T hi nx es m F fst -> (b, c) ∈ es ->
  exists hi' m1 F1 f n, T c b hi' m1 F1 f n /\ F1 ⊆ F.
Proof.
  revert m F fst. induction es as [|[b' c'] es IH]; intros m F fst; simpl; [set_solver|].
  intros (m1 & m2 & F1 & F2 & mid & -> & -> & Hb & Ht & Hs) [[= -> ->]|Hin]%elem_of_cons.
  - eexists _, _, _, _, _. split; [done | set_solver].
  - destruct (IH _ _ _ Hs Hin) as (hi' & m3 & F3 & f & n & ? & ?). eexists _, _, _, _, _. split; [done | set_solver].
Qed.

Lemma seg_pages T hi nx es m F fst q : seg T hi nx es m F fst -> q ∈ F ->
  exists c b hi' m1 F1 f n, T c b hi' m1 F1 f n /\ q ∈ F1.
Proof.
  revert m F fst. induction es as [|[b c] es IH]; intros m F fst; simpl.
  - intros (_ & -> & _). set_solver.
  - intros (m1 & m2 & F1 & F2 & mid & -> & -> & Hb & Ht & Hs) [Hq|Hq]%elem_of_app; [eauto 10|].
    by eapply IH.
Qed.

Lemma own_pages pg h : forall parent pid lo hi m F fst nx, own pg h parent pid lo hi m F fst nx ->
  forall q, q ∈ F -> 0 <= q /\ is_node (pg q).
Proof.
  induction h as [|h IH]; intros parent pid lo hi m F fst nx [H0 Hm] q Hq.
  - destruct Hm as (p & Hp & _ & _ & _ & _ & _ & -> & _). apply list_elem_of_singleton in Hq as ->. by rewrite Hp.
  - destruct Hm as (p & F' & Hp & _ & _ & _ & -> & Hs). apply elem_of_cons in Hq as [->|Hq]; [by rewrite Hp|].
    destruct (seg_pages _ _ _ _ _ _ _ _ Hs Hq) as (c & b & hi' & m1 & F1 & f & n & Ht & Hq1). by eapply IH.
Qed.

(** The headers of owned pages. *)
Lemma own_header pg h parent pid lo hi m F fst nx : own pg h parent pid lo hi m F fst nx ->
  exists hd, as_header (pg pid) = Ok hd /\ page_id_ hd = pid /\ parent_page_id_ hd = parent.
Proof.
  destruct h; intros [_ Hm].
  - destruct Hm as (p & -> & (_ & ? & ?) & _). eauto.
  - destruct Hm as (p & F' & -> & (_ & ? & ?) & _). eauto.
Qed.

Lemma own_page_id pg h : forall parent pid lo hi m F fst nx, own pg h parent pid lo hi m F fst nx ->
  forall q, q ∈ F -> exists hd, as_header (pg q) = Ok hd /\ page_id_ hd = q.
Proof.
  induction h as [|h IH]; intros parent pid lo hi m F fst nx Ho q Hq;
    destruct (own_header _ _ _ _ _ _ _ _ _ _ Ho) as (hd & Eh & Ei & _); destruct Ho as [H0 Hm].
  - destruct Hm as (p & _ & _ & _ & _ & _ & _ & -> & _). apply list_elem_of_singleton in Hq as ->. eauto.
  - destruct Hm as (p & F' & _ & _ & _ & _ & -> & Hs). apply elem_of_cons in Hq as [->|Hq]; [eauto|].
    destruct (seg_pages _ _ _ _ _ _ _ _ Hs Hq) as (c & b & hi' & m1 & F1 & f & n & Ht & Hq1). by eapply IH.
Qed.

(** *** An owned tree is a tree *)

Lemma seg_list T hi nx es m F fst : seg T hi nx es m F fst ->
  exists ms, m = concat ms /\ length ms = length es /\
    forall i b c mi, es !! i = Some (b, c) -> ms !! i = Some mi ->
      exists F1 f n, T c b (next hi (drop (S i) es)) mi F1 f n.
Proof.
  revert m F fst. induction es as [|[b c] es IH]; intros m F fst; simpl.
  - intros (-> & _). exists []. by split_and!.
  - intros (m1 & m2 & F1 & F2 & mid & -> & -> & _ & Ht & Hs). destruct (IH _ _ _ Hs) as (ms & -> & Hl & Hi).
    exists (m1 :: ms). split_and!; [done | simpl; lia |]. intros [|i] b' c' mi; simpl; [intros [= -> ->] [= <-]; eauto | apply Hi].
Qed.

Lemma bounds_lookup lo l i k c : l !! i = Some (k, c) ->
  bounds lo l !! i = Some (if decide (i = 0%nat) then lo else key_num k, c).
Proof.
  destruct l as [|x l]; [done|]. destruct i as [|i]; simpl; [by intros [= ->]|]. intros Hi. by rewrite list_lookup_fmap, Hi.
Qed.

Lemma bounds_next lo hi l i k c : l !! S i = Some (k, c) -> next hi (drop (S i) (bounds lo l)) = key_num k.
Proof.
  intros Hl. pose proof (bounds_lookup lo l (S i) k c Hl) as Hb. by rewrite (drop_S _ _ _ Hb).
Qed.

Lemma own_rep pg h : forall parent pid lo hi m F fst nx, own pg h parent pid lo hi m F fst nx ->
  tree_rep pg h parent pid m.
Proof.
  induction h as [|h IH]; intros parent pid lo hi m F fst nx [H0 Hm]; (split; [done|]).
  - destruct Hm as (p & Hp & (? & ? & ?) & ? & _ & ? & _). exists p. by split_and!.
  - destruct Hm as (p & F' & Hp & (? & ? & ?) & ? & _ & _ & Hs).
    destruct (seg_list _ _ _ _ _ _ _ Hs) as (ms & -> & Hl & Hi). rewrite length_bounds in Hl.
    exists p, ms. split_and!; auto. intros i k c mi He Hmi.
    destruct (Hi i _ _ mi (bounds_lookup lo _ _ _ _ He) Hmi) as (F1 & f & n & Ho). split; [by eapply IH|].
    intros x Hx. pose proof (own_range _ _ _ _ _ _ _ _ _ _ Ho x Hx) as Hr. split.
    + intros Hpos. rewrite decide_False in Hr by lia. lia.
    + intros k' c' He'. rewrite (bounds_next lo hi _ _ _ _ He') in Hr. lia.
Qed.

Lemma own_leftmost pg h : forall parent pid lo hi m F fst nx, own pg h parent pid lo hi m F fst nx ->
  leftmost pg h pid = fst.
Proof.
  induction h as [|h IH]; intros parent pid lo hi m F fst nx [H0 Hm]; cbn [leftmost].
  - by destruct Hm as (p & _ & _ & _ & _ & _ & _ & _ & -> & _).
  - destruct Hm as (p & F' & Hp & _ & Hok & _ & _ & Hs). rewrite Hp.
    pose proof (internal_size p Hok) as Hs1. pose proof (internal_lookup p 0 ltac:(lia)) as Hl. rewrite decide_True in Hl by lia.
    destruct (internal_entries p) as [|x l]; [done|]. injection Hl as <-.
    destruct Hs as (m1 & m2 & F1 & F2 & mid & _ & _ & _ & Ht & _). by eapply IH.
Qed.

(** *** Height

    Every inner node has two children or more, so that the height is at most
    the logarithm of the number of pages. *)

Lemma seg_count T hi nx es m F fst n : seg T hi nx es m F fst ->
  (forall c b hi' m1 F1 f x, T c b hi' m1 F1 f x -> n <= Z.of_nat (length F1)) ->
  Z.of_nat (length es) * n <= Z.of_nat (length F).
Proof.
  intros Hs HT. revert m F fst Hs. induction es as [|[b c] es IH]; intros m F fst; simpl; [intros (_ & -> & _); simpl; lia|].
  intros (m1 & m2 & F1 & F2 & mid & _ & -> & _ & Ht & Hs). specialize (HT _ _ _ _ _ _ _ Ht). specialize (IH _ _ _ Hs).
  rewrite length_app. lia.
Qed.

Lemma own_height pg h : forall parent pid lo hi m F fst nx, own pg h parent pid lo hi m F fst nx ->
  2 ^ Z.of_nat h <= Z.of_nat (length F).
Proof.
  induction h as [|h IH]; intros parent pid lo hi m F fst nx [_ Hm].
  - destruct Hm as (p & _ & _ & _ & _ & _ & _ & -> & _). done.
  - destruct Hm as (p & F' & _ & _ & Hok & Hsz & -> & Hs).
    pose proof (seg_count _ _ _ _ _ _ _ (2 ^ Z.of_nat h) Hs) as Hc. rewrite length_bounds, length_internal in Hc by lia.
    specialize (Hc ltac:(intros; by eapply IH)). rewrite Nat2Z.inj_succ, Z.pow_succ_r by lia. simpl. nia.
Qed.

(** *** Sorted separators, from their bounds *)

Lemma seg_sorted T hi nx es m F fst : seg T hi nx es m F fst -> StronglySorted (fun x y => x.1 < y.1) es.
Proof.
  revert m F fst. induction es as [|[b c] es IH]; intros m F fst Hs; [constructor|].
  pose proof Hs as (m1 & m2 & F1 & F2 & mid & _ & _ & Hb & _ & Hs'). pose proof (IH _ _ _ Hs') as Hsort.
  constructor; [done|]. destruct es as [|[b' c'] es]; [constructor|]. simpl in Hb.
  apply StronglySorted_inv in Hsort as [_ Hall]. constructor; [done|].
  eapply Forall_impl; [exact Hall|]. simpl. lia.
Qed.

Lemma seg_entries_ok T hi nx lo l m F fst : seg T hi nx (bounds lo l) m F fst ->
  Forall (fun x => key_wf x.1) (tail l) -> entries_ok (tail l).
Proof.
  intros Hs Hwf. split; [done|]. apply seg_sorted in Hs. destruct l as [|x l]; [constructor|]. simpl in *.
  apply StronglySorted_inv in Hs as [Hs _]. clear Hwf. induction l as [|y l IH]; [constructor|]. simpl in Hs.
  apply StronglySorted_inv in Hs as [Hs Hall]. constructor; [by apply IH|].
  rewrite Forall_fmap in Hall. eapply Forall_impl; [exact Hall|]. done.
Qed.

(** *** Changing the parent of a tree *)

Definition with_parent (r : Z) (x : page_image) : page_image :=
  match x with
  | LeafImage p => LeafImage (Leaf.on_header (SetParentPageId r) p)
  | InternalImage p => InternalImage (Internal.on_header (SetParentPageId r) p)
  | x => x
  end.

Lemma own_parent pg pg' h parent r pid lo hi m F fst nx : NoDup F -> pg' pid = with_parent r (pg pid) ->
  (forall q, q ∈ F -> q <> pid -> pg' q = pg q) ->
  own pg h parent pid lo hi m F fst nx -> own pg' h r pid lo hi m F fst nx.
Proof.
  intros Hnd Hpid HF Ho. destruct h; destruct Ho as [H0 Hm]; (split; [done|]).
  - destruct Hm as (p & Hp & (A & B & C) & Hok & Hm). rewrite Hp in Hpid.
    exists (Leaf.on_header (SetParentPageId r) p). destruct Hok as [O1 O2]. split; [done|]. split_and!; try done; try apply Hm.
  - destruct Hm as (p & F' & Hp & (A & B & C) & Hok & [Hsz Hsz2] & -> & Hs). rewrite Hp in Hpid.
    apply NoDup_cons in Hnd as [Hni _].
    exists (Internal.on_header (SetParentPageId r) p), F'. split_and!; try done.
    + destruct Hok as [O1 O2]. by split.
    + eapply seg_frame; [|exact Hs]. intros q Hq. apply HF; [set_solver|]. intros ->. done.
Qed.

Lemma seg_parent pg pg' h r r' hi nx es m F fst : NoDup F ->
  (forall c, c ∈ es.*2 -> pg' c = with_parent r' (pg c)) ->
  (forall q, q ∈ F -> q ∉ es.*2 -> pg' q = pg q) ->
  seg (own pg h r) hi nx es m F fst -> seg (own pg' h r') hi nx es m F fst.
Proof.
  revert m F fst. induction es as [|[b c] es IH]; intros m F fst Hnd Hc HF; simpl; [done|].
  intros (m1 & m2 & F1 & F2 & mid & -> & -> & Hb & Ht & Hs). apply NoDup_app in Hnd as (N1 & Nd & N2).
  assert (Hin : forall c', c' ∈ es.*2 -> c' ∈ F2).
  { intros c' ([b' c''] & -> & Hc')%list_elem_of_fmap. destruct (seg_child _ _ _ _ _ _ _ _ _ Hs Hc') as (? & ? & F3 & ? & ? & Ho & Hsub).
    apply Hsub. by apply (own_pid _ _ _ _ _ _ _ _ _ _ Ho). }
  pose proof (own_pid _ _ _ _ _ _ _ _ _ _ Ht) as [_ Hc1].
  exists m1, m2, F1, F2, mid. split_and!; auto.
  - eapply own_parent; [done | apply Hc; simpl; set_solver | | exact Ht]. intros q Hq Hne. apply HF; [set_solver|].
    simpl. intros [->|Hq']%elem_of_cons; [done|]. apply (Nd q Hq). auto.
  - apply IH; auto; [intros c' Hc'; apply Hc; simpl; set_solver|]. intros q Hq Hne. apply HF; [set_solver|].
    simpl. intros [->|Hq']%elem_of_cons; [|done]. by apply (Nd c Hc1).
Qed.

(** *** Contexts

    [own_ctx pg h parent pid lo hi ML MR F path fst nx root H] says that the pages
    [F] make a tree of height [H] at [root] from which the subtree at [pid], of
    height [h] and with the given bounds and neighbouring leaves, is taken out:
    [ML] and [MR] are the contents left and right of the hole and [path] the
    nodes above it, bottom up. *)
Inductive own_ctx pg : nat -> Z -> Z -> Z -> Z -> list (bytes * RID) -> list (bytes * RID) ->
    list Z -> list Z -> Z -> Z -> Z -> nat -> Prop :=
| ctx_top h root fst : own_ctx pg h INVALID_PAGE_ID root (-1) key_top [] [] [] [] fst INVALID_PAGE_ID root h
| ctx_node h parent pid p lo hi l1 k c l2 b ml mr Fl Fr f fst n nx ML MR F path root H :
    pg pid = InternalImage p -> 0 <= pid -> node_hdr InternalPage (Internal.header p) parent pid ->
    internal_ok p -> 2 <= Internal.GetSize p <= imax -> internal_entries p = l1 ++ (k, c) :: l2 ->
    b = (if decide (l1 = []) then lo else key_num k) -> b < next hi (bnd <$> l2) ->
    seg (own pg h pid) b f (bounds lo l1) ml Fl fst ->
    seg (own pg h pid) hi nx (bnd <$> l2) mr Fr n ->
    own_ctx pg (S h) parent pid lo hi ML MR F path fst nx root H ->
    own_ctx pg h pid c b (next hi (bnd <$> l2)) (ML ++ ml) (mr ++ MR) (pid :: Fl ++ Fr ++ F) (pid :: path) f n root H.

Lemma ctx_frame pg pg' h parent pid lo hi ML MR F path f n root H : (forall q, q ∈ F -> pg' q = pg q) ->
  own_ctx pg h parent pid lo hi ML MR F path f n root H -> own_ctx pg' h parent pid lo hi ML MR F path f n root H.
Proof.
  intros HF Hc. induction Hc as [|????????????????????????? Hp ?????? Hb Hl Hr Hc IH]; [constructor|].
  econstructor; eauto; [rewrite HF by set_solver; done | | |].
  - eapply seg_frame; [|exact Hl]. intros q Hq. apply HF. set_solver.
  - eapply seg_frame; [|exact Hr]. intros q Hq. apply HF. set_solver.
  - apply IH. intros q Hq. apply HF. set_solver.
Qed.

Lemma ctx_pages pg h parent pid lo hi ML MR F path f n root H :
  own_ctx pg h parent pid lo hi ML MR F path f n root H -> forall q, q ∈ F -> 0 <= q /\ is_node (pg q).
Proof.
  intros Hc. induction Hc as [|????????????????????????? Hp ?????? Hb Hl Hr Hc IH]; [set_solver|].
  assert (Hseg : forall h pid hi nx es m F fst q, seg (own pg h pid) hi nx es m F fst -> q ∈ F -> 0 <= q /\ is_node (pg q)).
  { intros h0 pid0 hi0 nx0 es m0 F0 fst0 q Hs Hq. destruct (seg_pages _ _ _ _ _ _ _ _ Hs Hq) as (? & ? & ? & ? & ? & ? & ? & Ho & Hq').
    by eapply own_pages. }
  intros q [->|[Hq|[Hq|Hq]%elem_of_app]%elem_of_app]%elem_of_cons; [by rewrite Hp | eauto..].
Qed.

Lemma ctx_path_sub pg h parent pid lo hi ML MR F path f n root H :
  own_ctx pg h parent pid lo hi ML MR F path f n root H -> path ⊆ F.
Proof. intros Hc. induction Hc; [done|]. set_solver. Qed.

Lemma ctx_path_type pg h parent pid lo hi ML MR F path f n root H q p :
  own_ctx pg h parent pid lo hi ML MR F path f n root H -> q ∈ path -> pg q = InternalImage p ->
  page_type_ (Internal.header p) = InternalPage.
Proof.
  intros Hc. induction Hc as [|????????????????????????? Hp ? [Hty _] ???? Hb Hl Hr Hc IH]; [set_solver|].
  intros [->|Hq]%elem_of_cons Hq'; [|by apply IH]. congruence.
Qed.

Lemma ctx_path_nodup pg h parent pid lo hi ML MR F path f n root H :
  own_ctx pg h parent pid lo hi ML MR F path f n root H -> NoDup F -> NoDup path.
Proof.
  intros Hc. induction Hc as [|????????????????????????? Hp ?????? Hb Hl Hr Hc IH]; [constructor|].
  rewrite NoDup_cons, !NoDup_app. intros (Hni & _ & _ & _ & _ & HF). constructor; [|auto].
  apply ctx_path_sub in Hc. set_solver.
Qed.

Lemma ctx_length pg h parent pid lo hi ML MR F path f n root H :
  own_ctx pg h parent pid lo hi ML MR F path f n root H -> H = (h + length path)%nat.
Proof. intros Hc. induction Hc; simpl; lia. Qed.

Lemma ctx_bounds pg h parent pid lo hi ML MR F path f n root H :
  own_ctx pg h parent pid lo hi ML MR F path f n root H -> -1 <= lo /\ hi <= key_top.
Proof.
  intros Hc. induction Hc as [|????????????????????????? Hp ?????? Hb Hl Hr Hc IH]; [lia|]. apply seg_next_le in Hr. subst b.
  split; [|lia]. case_decide as Hd; [lia|]. destruct l1 as [|x l1]; [done|]. apply seg_lt in Hl. lia.
Qed.

Lemma ctx_root pg h parent pid lo hi ML MR F path f n root H :
  own_ctx pg h parent pid lo hi ML MR F path f n root H ->
  parent = match path with [] => INVALID_PAGE_ID | q :: _ => q end /\ (path = [] -> pid = root).
Proof. intros Hc. by inversion Hc. Qed.

Lemma ctx_range pg h parent pid lo hi ML MR F path f n root H :
  own_ctx pg h parent pid lo hi ML MR F path f n root H ->
  (forall x, x ∈ ML -> key_num x.1 < lo) /\ (forall x, x ∈ MR -> hi <= key_num x.1).
Proof.
  intros Hc. induction Hc as [|????????????????????????? Hp ?????? Hb Hl Hr Hc [IH1 IH2]]; [set_solver|].
  split; intros x [Hx|Hx]%elem_of_app.
  - specialize (IH1 x Hx). subst b. case_decide as Hd; [done|]. destruct l1 as [|y l1]; [done|]. apply seg_lt in Hl. lia.
  - by apply (seg_range _ _ _ _ _ _ _ _ _ Hl).
  - by apply (seg_range _ _ _ _ _ _ _ _ _ Hr).
  - specialize (IH2 x Hx). apply seg_next_le in Hr. lia.
Qed.

(** Filling the hole. *)
Lemma plug pg h parent pid lo hi ML MR Fc path f n root H m F :
  own_ctx pg h parent pid lo hi ML MR Fc path f n root H -> own pg h parent pid lo hi m F f n ->
  exists fst F', own pg H INVALID_PAGE_ID root (-1) key_top (ML ++ m ++ MR) F' fst INVALID_PAGE_ID /\ (F' ≡ₚ F ++ Fc).
Proof.
  intros Hc. revert m F. induction Hc as [|h parent pid p lo hi l1 k c l2 b ml mr Fl Fr f fst n nx ML MR F' path root H
    Hp H0 Hh Hok [Hsz Hsz2] He Hb Hlt Hl Hr Hc IH]; intros m F Ho.
  { exists fst, F. rewrite !app_nil_r. by split. }
  destruct (IH (ml ++ m ++ mr) (pid :: Fl ++ F ++ Fr)) as (fst' & F1 & Hown & HP).
  - split; [done|]. exists p, (Fl ++ F ++ Fr). split_and!; auto. rewrite He, bounds_app.
    apply seg_app. exists ml, (m ++ mr), Fl, (F ++ Fr), f. split_and!; auto.
    + simpl. by rewrite <- Hb.
    + simpl. exists m, mr, F, Fr, n. split_and!; auto; by rewrite <- Hb.
  - exists fst', F1. rewrite <- !app_assoc in *. split; [exact Hown|]. rewrite HP. simpl. solve_Permutation.
Qed.

(** Going down: the child a key is routed to, and the rest. *)
Lemma own_descend pg h parent pid lo hi m F fst nx k : own pg (S h) parent pid lo hi m F fst nx -> key_wf k ->
  lo <= key_num k < hi -> forall ML MR Fc path root H,
  own_ctx pg (S h) parent pid lo hi ML MR Fc path fst nx root H ->
  exists p c lo' hi' ml m' mr F1 F2 f n, pg pid = InternalImage p /\ node_hdr InternalPage (Internal.header p) parent pid /\
    (2 <= Internal.GetSize p <= imax) /\ Internal.Lookup k p = Ok c /\ lo' <= key_num k < hi' /\
    own pg h pid c lo' hi' m' F1 f n /\
    own_ctx pg h pid c lo' hi' (ML ++ ml) (mr ++ MR) F2 (pid :: path) f n root H /\
    m = ml ++ m' ++ mr /\ (F1 ++ F2 ≡ₚ F ++ Fc).
Proof.
  intros [H0 (p & F' & Hp & Hh & Hok & [Hsz Hsz2] & -> & Hs)] Hk Hr ML MR Fc path root H Hc.
  destruct (Lookup_routes p k Hok Hk) as (i & c & Hlk & (k' & Hi & Hlo) & Hhi).
  pose proof (take_drop_middle _ _ _ Hi) as He. symmetry in He.
  set (l1 := take i (internal_entries p)) in *. set (l2 := drop (S i) (internal_entries p)) in *.
  assert (Hl1 : l1 = [] <-> i = 0%nat).
  { unfold l1. rewrite <- length_zero_iff_nil, length_take. apply lookup_lt_Some in Hi. lia. }
  rewrite He, bounds_app in Hs. apply seg_app in Hs as (ml & m2 & Fl & F2 & f & -> & -> & Hsl & m' & mr & F1 & Fr & n & -> & -> & Hb & Ho & Hsr).
  cbn [snd Datatypes.fst next] in *.
  exists p, c, (if decide (l1 = []) then lo else key_num k'), (next hi (bnd <$> l2)), ml, m', mr, F1, (pid :: Fl ++ Fr ++ Fc), f, n.
  split_and!; auto.
  - case_decide as Hd; [lia|]. apply Hlo. rewrite Hl1 in Hd. lia.
  - destruct l2 as [|y l3] eqn:E2; simpl; [lia|]. apply (Hhi (S i)); [lia|]. rewrite He.
    unfold l1. rewrite lookup_app_r; rewrite length_take; apply lookup_lt_Some in Hi; [|lia].
    by replace (S i - i `min` length (internal_entries p))%nat with 1%nat by lia.
  - econstructor; eauto.
  - simpl. solve_Permutation.
Qed.

End Own.
