(* ===== verification/BPlusTreeInsert.v ===== *)
(** * Insertion into the B+Tree

    [Insert] on a tree that owns its pages: the descent keeps pinned and
    latched what a split may reach, splits hand the upper half of a node to a
    new page, and the new separators climb as far as the splits do. *)

From Stdlib Require Import Sorting.Sorted.
From stdpp Require Import functions.
From S2P Require Import Prelude KeyCodec Replacer BufferPool BufferPoolSpec PoolHold TreePages TreePagesSpec PageImage BPlusTree BPlusTreeSpec TreeOwn.
Open Scope Z_scope.

(** ** Steps of a writer

    A writer releases every page as dirty, so all its pinned pages count as
    written. *)
Section WSteps.

Abbreviation pins_map := (gmap Z (Z * Z)).
Abbreviation latch_map := (gmap Z Latch.ReaderWriterLatch).
Implicit Types (t : BPlusTree) (pg : Z -> page_image) (H : pins_map) (L : latch_map).

Definition whold t pg H L : Prop := thold t pg H (dom H) L.

(** The tree object is the same; its pool may have allocated pages. *)
Definition conf t t' : Prop :=
  tree_root t' = tree_root t /\ leaf_max_size_ t' = leaf_max_size_ t /\
  internal_max_size_ t' = internal_max_size_ t /\ slots t' = slots t.

Lemma conf_refl t : conf t t.
Proof. done. Qed.

Lemma conf_trans t1 t2 t3 : conf t1 t2 -> conf t2 t3 -> conf t1 t3.
Proof. intros (? & ? & ? & ?) (? & ? & ? & ?). split_and!; congruence. Qed.

Lemma same_conf t t' : same_tree t t' -> conf t t' /\ allocated t' = allocated t.
Proof. intros (A & B & C & D & E). by split_and!. Qed.

Lemma w_fetch t pg H L pid : whold t pg H L -> H !! pid = None -> (size H < slots t)%nat ->
  0 <= pid -> is_node (pg pid) ->
  exists f t', fetch pid t = (Ok (Some f), t') /\ whold t' pg (<[pid := (f, 1)]> H) L /\ same_tree t t' /\ L !! f = None.
Proof.
  intros HS Hno Hsz H0 Hn. destruct (step_fetch t pg H (dom H) L pid HS Hno Hsz) as (f & t' & E & HS' & S & HL).
  { split; [done|]. eapply thold_allocated; [exact HS | done|]. by destruct (pg pid). }
  exists f, t'. split_and!; auto. eapply hold_weaken; [exact HS'|]. set_solver.
Qed.

Lemma w_refetch t pg H L pid f n : whold t pg H L -> H !! pid = Some (f, n) ->
  exists t', fetch pid t = (Ok (Some f), t') /\ whold t' pg (<[pid := (f, n + 1)]> H) L /\ same_tree t t'.
Proof.
  intros HS Hin. destruct (hold_refetch Zeroed _ _ _ _ _ _ _ _ HS Hin) as (s' & E & HS' & D).
  exists (set_pool s' t). split; [by apply on_pool_ok|]. split; [|by apply same_tree_set].
  eapply hold_weaken; [exact HS'|]. set_solver.
Qed.

Lemma w_unpin t pg H L pid f n : whold t pg H L -> H !! pid = Some (f, n) -> (n = 1 -> L !! f = None) ->
  exists t', unpin pid true t = (Ok tt, t') /\
    whold t' pg (if decide (n = 1) then delete pid H else <[pid := (f, n - 1)]> H) L /\ same_tree t t'.
Proof.
  intros HS Hin HL. destruct (step_unpin t pg H (dom H) L pid f n true HS Hin) as (t' & E & HS' & S); auto.
  exists t'. split_and!; auto. eapply hold_weaken; [exact HS'|]. case_decide; set_solver.
Qed.

Lemma w_write t pg H L pid f n x : whold t pg H L -> H !! pid = Some (f, n) ->
  exists t', on_pool (write_data f x) t = (Ok tt, t') /\ whold t' (<[pid := x]> pg) H L /\ same_tree t t'.
Proof.
  intros HS Hin. destruct (hold_write Zeroed _ _ _ _ _ _ _ _ x HS Hin) as (s' & E & HS' & D).
  exists (set_pool s' t). split; [by apply on_pool_ok|]. split; [|by apply same_tree_set].
  eapply hold_weaken; [exact HS'|]. apply elem_of_dom_2 in Hin. set_solver.
Qed.

Lemma w_header t pg H L pid f n g x : whold t pg H L -> H !! pid = Some (f, n) -> on_header g (pg pid) = Ok x ->
  exists t', put_header f g t = (Ok tt, t') /\ whold t' (<[pid := x]> pg) H L /\ same_tree t t'.
Proof.
  intros HS Hin Hx. destruct (hold_get Zeroed _ _ _ _ _ _ _ _ HS Hin) as [G _].
  destruct (w_write t pg H L pid f n x HS Hin) as (t' & E & HS' & S). exists t'. split; [|done].
  unfold put_header, update_header, on_pool in *. by rewrite (bind_ok _ _ _ _ _ G), Hx.
Qed.

Lemma w_new t pg H L : whold t pg H L -> (size H < slots t)%nat -> allocated t < MAX_PAGES ->
  exists f t', on_pool (NewPage Zeroed) t = (Ok (Some f), t') /\ whold t' pg (<[allocated t := (f, 1)]> H) L /\
    pg (allocated t) = Zeroed /\ H !! allocated t = None /\ L !! f = None /\
    conf t t' /\ allocated t' = allocated t + 1.
Proof.
  intros HS Hsz Hmax. destruct (hold_new Zeroed _ _ _ _ _ HS Hsz Hmax) as (f & s' & E & HS' & Hz & N & D & HL & HH).
  exists f, (set_pool s' t). split; [by apply on_pool_ok|]. split_and!; auto; [|by split_and!].
  eapply hold_weaken; [exact HS'|]. unfold allocated. set_solver.
Qed.

Lemma w_count t pg H L pid f n : whold t pg H L -> H !! pid = Some (f, n) -> 0 < n.
Proof. intros HS Hin. by destruct (hold_held _ _ _ _ _ _ HS _ _ _ Hin) as (_ & _ & ?). Qed.

Lemma w_ext t pg pg' H L : whold t pg H L -> (forall q, 0 <= q -> pg q = pg' q) -> whold t pg' H L.
Proof. apply hold_ext. Qed.

Lemma with_parent_header r x : is_node x -> on_header (SetParentPageId r) x = Ok (with_parent r x).
Proof. by destruct x. Qed.

Lemma with_parent_idem r x : with_parent r (with_parent r x) = with_parent r x.
Proof. by destruct x. Qed.

Lemma with_parent_node r x : is_node x -> is_node (with_parent r x).
Proof. by destruct x. Qed.

(** Re-parenting a child, pinned by the caller or not. *)
Lemma w_update_parent t pg H L c r : whold t pg H L -> (size H < slots t)%nat -> 0 <= c -> is_node (pg c) ->
  exists t', UpdateParentPageId c r t = (Ok tt, t') /\ whold t' (<[c := with_parent r (pg c)]> pg) H L /\ same_tree t t'.
Proof.
  intros HS Hsz H0 Hn.
  assert (exists f n t1, fetch c t = (Ok (Some f), t1) /\ whold t1 pg (<[c := (f, n)]> H) L /\ same_tree t t1 /\
    (n = 1 -> L !! f = None) /\ (if decide (n = 1) then delete c (<[c := (f, n)]> H) else <[c := (f, n - 1)]> (<[c := (f, n)]> H)) = H)
    as (f & n & t1 & E1 & H1 & S1 & HL & HH).
  { destruct (H !! c) as [[f n]|] eqn:Hc.
    - destruct (w_refetch t pg H L c f n HS Hc) as (t1 & E1 & H1 & S1). pose proof (w_count _ _ _ _ _ _ _ HS Hc).
      exists f, (n + 1), t1. rewrite decide_False by lia. replace (n + 1 - 1) with n by lia.
      rewrite insert_insert_eq, (insert_id H c (f, n)) by done. split_and!; auto. lia.
    - destruct (w_fetch t pg H L c HS Hc Hsz H0 Hn) as (f & t1 & E1 & H1 & S1 & HL).
      exists f, 1, t1. rewrite decide_True, delete_insert_id by done. by split_and!. }
  unfold UpdateParentPageId, fetch_deref.
  rewrite (bind_ok _ _ t f t1) by (rewrite (bind_ok _ _ _ _ _ E1); reflexivity).
  destruct (w_header t1 pg _ L c f n (SetParentPageId r) _ H1 (lookup_insert_eq _ _ _) (with_parent_header r _ Hn)) as (t2 & E2 & H2 & S2).
  rewrite (bind_ok _ _ _ _ _ E2).
  destruct (w_unpin t2 _ _ L c f n H2 (lookup_insert_eq _ _ _) HL) as (t3 & E3 & H3 & S3). rewrite HH in H3.
  exists t3. split_and!; auto. by eapply same_tree_trans; [|eapply same_tree_trans].
Qed.

End WSteps.

(** ** Splitting a node *)
Section Split.

Abbreviation pins_map := (gmap Z (Z * Z)).
Abbreviation latch_map := (gmap Z Latch.ReaderWriterLatch).
Implicit Types (t : BPlusTree) (pg : Z -> page_image) (H : pins_map) (L : latch_map).

(** [pg'] is [pg] with the nodes [cs] re-parented to [r], apart from the pages
    [except]. *)
Definition reparented (r : Z) (cs except : list Z) pg pg' : Prop :=
  (forall c, c ∈ cs -> pg' c = with_parent r (pg c)) /\
  (forall q, q ∉ cs -> q ∉ except -> pg' q = pg q).

Definition children_ok pg (except cs : list Z) : Prop :=
  forall c, c ∈ cs -> 0 <= c /\ is_node (pg c) /\ c ∉ except.

Lemma children_ok_insert pg cs q x a : children_ok pg [q; a] cs -> children_ok (<[q := x]> pg) [q; a] cs.
Proof.
  intros Hc c Hin. destruct (Hc c Hin) as (? & ? & Hn). split_and!; auto.
  rewrite fn_lookup_insert_ne by set_solver. done.
Qed.

Lemma children_ok_parent pg cs r c ex : children_ok pg ex cs -> children_ok (<[c := with_parent r (pg c)]> pg) ex cs.
Proof.
  intros Hc c' Hin. destruct (Hc c' Hin) as (? & ? & Hn). split_and!; auto.
  destruct (decide (c' = c)) as [->|]; [rewrite fn_lookup_insert; by apply with_parent_node | by rewrite fn_lookup_insert_ne].
Qed.

(** The copy loop into an empty page: it moves the entries [items], which the
    source page has from [start + i] on, and re-parents their children. *)
Lemma copy_n_ok items : forall i t pg H L pid f nf new r nr p q start,
  whold t pg H L -> H !! pid = Some (f, nf) -> H !! new = Some (r, nr) -> pid <> new -> (size H < slots t)%nat ->
  pg pid = InternalImage p -> pg new = InternalImage q -> page_id_ (Internal.header q) = new ->
  (forall j x, items !! j = Some x -> Internal.at_ (start + i + j) p = x) ->
  children_ok pg [new; pid] items.*2 ->
  exists t' pg' q', copy_n_loop (length items) r f start 0 i t = (Ok tt, t') /\ whold t' pg' H L /\ same_tree t t' /\
    pg' pid = InternalImage p /\ pg' new = InternalImage q' /\ Internal.header q' = Internal.header q /\
    cells Internal.zero_item (i + length items) (Internal.array_ q') = cells Internal.zero_item i (Internal.array_ q) ++ items /\
    reparented new items.*2 [new; pid] pg pg'.
Proof.
  induction items as [|x items IH]; intros i t pg H L pid f nf new r nr p q start HS Hf Hr Hne Hsz Hp Hq Hid Hat Hch.
  { exists t, pg, q. cbn [length copy_n_loop]. rewrite Nat.add_0_r, app_nil_r. split_and!; auto using same_tree_refl. split; set_solver. }
  cbn [length copy_n_loop].
  erewrite bind_ok by (eapply (step_read as_internal _ _ _ _ _ pid f); [exact HS | exact Hf | by rewrite Hp]).
  erewrite bind_ok by (eapply (step_read as_internal _ _ _ _ _ new r); [exact HS | exact Hr | by rewrite Hq]).
  replace (start + (i - 0))%nat with (start + i + 0)%nat by lia. rewrite (Hat 0%nat x eq_refl).
  set (q1 := Internal.set_at i x q).
  destruct (w_write t pg H L new r nr (InternalImage q1) HS Hr) as (t1 & E1 & H1 & S1).
  unfold put_internal, write_internal. rewrite (bind_ok _ _ _ _ _ E1).
  erewrite bind_ok by (eapply (step_read as_internal _ _ _ _ _ new r); [exact H1 | exact Hr | by rewrite fn_lookup_insert]).
  assert (Hx : Internal.at_ i q1 = x) by (unfold q1, Internal.at_, Internal.set_at; simpl; by rewrite load_store_eq).
  change (page_id_ (Internal.header q1)) with (page_id_ (Internal.header q)). rewrite Hx, Hid.
  pose proof (children_ok_insert _ _ new (InternalImage q1) pid Hch) as Hch1.
  destruct (Hch1 x.2) as (Hc0 & Hcn & Hcne); [simpl; set_solver|].
  assert (Hs1 : slots t1 = slots t) by (by destruct (same_conf _ _ S1) as [(_ & _ & _ & ?) _]).
  destruct (w_update_parent t1 _ H L x.2 new H1 ltac:(lia) Hc0 Hcn) as (t2 & E2 & H2 & S2).
  rewrite (bind_ok _ _ _ _ _ E2).
  assert (Hs2 : slots t2 = slots t1) by (by destruct (same_conf _ _ S2) as [(_ & _ & _ & ?) _]).
  destruct (IH (S i) t2 _ H L pid f nf new r nr p q1 start H2 Hf Hr Hne) as (t3 & pg' & q' & E3 & H3 & S3 & P1 & P2 & P3 & P4 & R1 & R2); auto.
  { lia. }
  { rewrite !fn_lookup_insert_ne by set_solver. done. }
  { rewrite fn_lookup_insert_ne by set_solver. by rewrite fn_lookup_insert. }
  { intros j y Hj. rewrite <- (Hat (S j) y Hj). f_equal. lia. }
  { apply children_ok_parent. intros c Hc. apply Hch1. simpl. set_solver. }
  exists t3, pg', q'. split_and!; auto.
  - by eapply same_tree_trans; [|eapply same_tree_trans].
  - rewrite <- Nat.add_succ_comm, P4. change (Internal.array_ q1) with (store Internal.zero_item i x (Internal.array_ q)). rewrite cells_store_end, <- app_assoc. done.
  - assert (Hcne' : x.2 <> new) by set_solver. split.
    + intros c Hc. destruct (decide (c ∈ items.*2)) as [Hin|Hin].
      * rewrite R1 by done. assert (c <> new) by (destruct (Hch c Hc) as (_ & _ & ?); set_solver).
        destruct (decide (c = x.2)) as [->|Hcx].
        -- rewrite fn_lookup_insert, fn_lookup_insert_ne by done. apply with_parent_idem.
        -- by rewrite !fn_lookup_insert_ne by done.
      * assert (c = x.2) as -> by (simpl in Hc; set_solver). rewrite R2 by set_solver.
        rewrite fn_lookup_insert, fn_lookup_insert_ne by done. done.
    + intros c Hc Hex. simpl in Hc. rewrite R2 by set_solver. rewrite !fn_lookup_insert_ne by set_solver. done.
Qed.

Lemma internal_at_drop p n j x : 0 <= Internal.GetSize p -> drop n (internal_entries p) !! j = Some x ->
  Internal.at_ (n + j) p = x.
Proof.
  intros Hs. rewrite lookup_drop, internal_lookup by done. case_decide; [|done]. by intros [= <-].
Qed.

(** [MoveHalfTo] between internal pages, the recipient empty. *)
Lemma move_half_ok t pg H L pid f nf new r nr p q :
  whold t pg H L -> H !! pid = Some (f, nf) -> H !! new = Some (r, nr) -> pid <> new -> (size H < slots t)%nat ->
  pg pid = InternalImage p -> pg new = InternalImage q -> page_id_ (Internal.header q) = new ->
  Internal.GetSize q = 0 -> 0 <= Internal.GetSize p ->
  let n := (Internal.GetSize p + 1) / 2 in
  let l2 := drop (Z.to_nat n) (internal_entries p) in
  children_ok pg [new; pid] l2.*2 ->
  exists t' pg' p' q', Internal_MoveHalfTo f r t = (Ok tt, t') /\ whold t' pg' H L /\ same_tree t t' /\
    pg' pid = InternalImage p' /\ pg' new = InternalImage q' /\
    Internal.header p' = SetSize n (Internal.header p) /\
    Internal.header q' = SetSize (Internal.GetSize p - n) (Internal.header q) /\
    internal_entries p' = take (Z.to_nat n) (internal_entries p) /\ internal_entries q' = l2 /\
    reparented new l2.*2 [new; pid] pg pg'.
Proof.
  intros HS Hf Hr Hne Hsz Hp Hq Hid Hq0 Hp0 n l2 Hch.
  assert (Hlen : Z.of_nat (length l2) = Internal.GetSize p - n).
  { unfold l2. rewrite length_drop. pose proof (length_internal p Hp0). subst n. div_lia. }
  unfold Internal_MoveHalfTo.
  erewrite bind_ok by (eapply (step_read as_internal _ _ _ _ _ pid f); [exact HS | exact Hf | by rewrite Hp]).
  unfold Internal_CopyNFrom.
  destruct (copy_n_ok l2 0 t pg H L pid f nf new r nr p q (Z.to_nat n) HS Hf Hr Hne Hsz Hp Hq Hid) as
    (t1 & pg1 & q1 & E1 & H1 & S1 & P1 & P2 & P3 & P4 & R1 & R2).
  { intros j x Hj. rewrite Nat.add_0_r. by apply internal_at_drop. }
  { done. }
  fold n. erewrite bind_ok; cycle 1.
  { erewrite bind_ok by (eapply (step_read as_internal _ _ _ _ _ new r); [exact HS | exact Hr | by rewrite Hq]).
    rewrite Hq0, Z.sub_0_r. replace (Z.to_nat (Internal.GetSize p - n)) with (length l2) by lia. exact E1. }
  erewrite bind_ok by (eapply (step_read as_internal _ _ _ _ _ new r); [exact H1 | exact Hr | by rewrite P2]).
  destruct (w_write t1 pg1 H L new r nr (InternalImage (Internal.on_header (SetSize (Internal.GetSize p - n)) q1)) H1 Hr) as (t2 & E2 & H2 & S2).
  unfold put_internal, write_internal. rewrite (bind_ok _ _ _ _ _ E2).
  erewrite bind_ok by (eapply (step_read as_internal _ _ _ _ _ pid f); [exact H2 | exact Hf | by rewrite fn_lookup_insert_ne, P1]).
  replace (Internal.GetSize p - (Internal.GetSize p - n)) with n by lia.
  destruct (w_write t2 _ H L pid f nf (InternalImage (Internal.on_header (SetSize n) p)) H2 Hf) as (t3 & E3 & H3 & S3).
  eexists t3, _, _, _. split; [exact E3|]. split; [exact H3|].
  split; [by eapply same_tree_trans; [|eapply same_tree_trans]|].
  split; [by rewrite fn_lookup_insert|]. split; [by rewrite fn_lookup_insert_ne, fn_lookup_insert|].
  split; [done|]. split; [by rewrite <- P3|]. split_and!.
  - unfold internal_entries. simpl. apply cells_prefix. subst n. unfold Internal.GetSize in *. div_lia.
  - change (cells Internal.zero_item (Z.to_nat (Internal.GetSize p - n)) (Internal.array_ q1) = l2).
    replace (Z.to_nat (Internal.GetSize p - n)) with (0 + length l2)%nat by lia. by rewrite P4.
  - split.
    + intros c Hc. destruct (Hch c Hc) as (_ & _ & Hn). rewrite !fn_lookup_insert_ne by set_solver. by apply R1.
    + intros c Hc Hn. rewrite !fn_lookup_insert_ne by set_solver. by apply R2.
Qed.

Context (lmax imax : Z).

(** The maximal sizes a tree is built with. *)
Record sizes_ok t : Prop := {
  so_lmax : leaf_max_size_ t = lmax;
  so_imax : internal_max_size_ t = imax;
  so_leaf : 2 <= lmax < 2 ^ 31;
  so_internal : 3 <= imax < 2 ^ 31 - 1;
}.

Lemma sizes_conf t t' : sizes_ok t -> conf t t' -> sizes_ok t'.
Proof. intros [A B C D] (_ & ? & ? & _). split; [congruence..|done|done]. Qed.

Abbreviation owns := (own lmax imax).

Lemma split_leaf_ok t pg H L pid f nf p parent lo hi :
  whold t pg H L -> H !! pid = Some (f, nf) -> (size H < slots t)%nat -> allocated t < MAX_PAGES -> sizes_ok t ->
  pg pid = LeafImage p -> 0 <= pid -> node_hdr LeafPage (Leaf.header p) parent pid -> leaf_ok p ->
  Leaf.GetSize p = lmax -> max_size_ (Leaf.header p) = lmax -> (forall x, x ∈ leaf_entries p -> lo <= key_num x.1 < hi) ->
  let new := allocated t in
  exists r t' pg' q m1 m2, Split f t = (Ok r, t') /\ whold t' pg' (<[new := (r, 1)]> H) L /\
    H !! new = None /\ L !! r = None /\ conf t t' /\ allocated t' = new + 1 /\
    pg' new = LeafImage q /\ key_wf (Leaf.KeyAt 0 q) /\ (lo < key_num (Leaf.KeyAt 0 q) < hi) /\
    m1 ++ m2 = leaf_entries p /\
    owns pg' 0 parent pid lo (key_num (Leaf.KeyAt 0 q)) m1 [pid] pid new /\
    owns pg' 0 parent new (key_num (Leaf.KeyAt 0 q)) hi m2 [new] new (Leaf.next_page_id_ p) /\
    (forall q, q <> pid -> q <> new -> pg' q = pg q).
Proof.
  intros HS Hf Hsz Hmax [Hlm0 Him0 HL2 HI1] Hp H0 Hh Hok Hn Hms Hr new.
  destruct (w_new t pg H L HS Hsz Hmax) as (r & t1 & E1 & H1 & Hz & HHn & HLr & C1 & A1). fold new in H1, Hz, HHn, A1.
  assert (Hne : new <> pid) by (intros E; rewrite E in HHn; congruence).
  assert (Hrn : <[new := (r, 1)]> H !! new = Some (r, 1)) by apply lookup_insert_eq.
  assert (Hrp : <[new := (r, 1)]> H !! pid = Some (f, nf)) by (by rewrite lookup_insert_ne).
  assert (Hnew0 : 0 <= new) by (destruct (hold_frame _ _ _ _ _ _ _ _ _ H1 Hrn) as (_ & ? & _); lia).
  unfold Split. rewrite (bind_ok _ _ _ _ _ E1).
  erewrite bind_ok by (eapply (step_page_id _ _ _ _ _ new r 1); [exact H1 | exact Hrn]).
  rewrite (bind_ok get _ t1 t1 t1) by done.
  erewrite bind_ok by (eapply (step_read as_header _ _ _ _ _ pid f); [exact H1 | exact Hrp | by rewrite Hp]).
  destruct Hh as (Ht & Hi & Hpar). unfold IsLeafPage. rewrite Ht, bool_decide_eq_true_2 by done.
  erewrite bind_ok by (eapply (step_read as_leaf _ _ _ _ _ pid f); [exact H1 | exact Hrp | by rewrite Hp]).
  erewrite bind_ok by (eapply (step_read as_leaf _ _ _ _ _ new r); [exact H1 | exact Hrn | by rewrite Hz]).
  pose proof C1 as (_ & Hlm & _ & _). rewrite Hlm, Hlm0, i32_small, Hpar by lia.
  set (z := Leaf.mkLeaf zero_header 0 []).
  destruct (split_full_leaf p z new parent lmax) as (p' & q & Em & Op & Oq & Ecat & Esz & Elt & Ege & Eq1 & Esum & v & Ev);
    [done | done | lia |].
  destruct (MoveHalfTo_header _ _ _ _ Em) as [Hhp Hhq].
  destruct (w_write t1 pg _ L new r 1 (LeafImage (Leaf.Init new parent lmax z)) H1 Hrn) as (t2 & E2 & H2 & S2).
  unfold put_leaf, write_leaf. rewrite (bind_ok _ _ _ _ _ E2). rewrite Em. rewrite (bind_ok _ _ t2 (p', q) t2) by done.
  destruct (w_write t2 _ _ L new r 1 (LeafImage (Leaf.SetNextPageId (Leaf.next_page_id_ p') q)) H2 Hrn) as (t3 & E3 & H3 & S3).
  rewrite (bind_ok _ _ _ _ _ E3).
  destruct (w_write t3 _ _ L pid f nf (LeafImage (Leaf.SetNextPageId new p')) H3 Hrp) as (t4 & E4 & H4 & S4).
  rewrite (bind_ok _ _ _ _ _ E4).
  destruct (same_conf _ _ (same_tree_trans _ _ _ S2 (same_tree_trans _ _ _ S3 S4))) as [C4 A4].
  assert (Hk0 : (Leaf.KeyAt 0 q, v) ∈ leaf_entries p) by (rewrite <- Ecat; apply elem_of_app; right; by eapply list_elem_of_lookup_2).
  assert (Hnext : Leaf.next_page_id_ p' = Leaf.next_page_id_ p).
  { unfold Leaf.MoveHalfTo, Leaf.CopyNFrom in Em. case_match; [done|]. simpl in Em. by injection Em as <- _. }
  assert (Hp1 : exists x, x ∈ leaf_entries p').
  { pose proof (leaf_lookup p' 0 ltac:(lia)) as Hl. rewrite decide_True in Hl by lia. eexists. by eapply list_elem_of_lookup_2. }
  set (q4 := Leaf.SetNextPageId (Leaf.next_page_id_ p') q) in *. set (p4 := Leaf.SetNextPageId new p') in *.
  match type of H4 with whold _ ?g _ _ => set (pg4 := g) in * end.
  assert (Hq4 : pg4 new = LeafImage q4) by (unfold pg4; rewrite fn_lookup_insert_ne by done; by rewrite fn_lookup_insert).
  assert (Hp4 : pg4 pid = LeafImage p4) by (unfold pg4; by rewrite fn_lookup_insert).
  exists r, t4, pg4, q4, (leaf_entries p'), (leaf_entries q). change (Leaf.KeyAt 0 q4) with (Leaf.KeyAt 0 q).
  assert (Hlo : lo < key_num (Leaf.KeyAt 0 q) < hi).
  { split; [|apply (Hr _ Hk0)]. destruct Hp1 as [x Hx]. specialize (Elt x Hx).
    specialize (Hr x). rewrite <- Ecat in Hr at 1. specialize (Hr ltac:(set_solver)). lia. }
  split; [done|]. split; [exact H4|]. split; [done|]. split; [done|]. split; [by eapply conf_trans|]. split; [lia|].
  split; [done|]. split; [exact (entries_wf _ _ (leaf_entries_ok _ Hok) Hk0)|]. split; [done|]. split; [done|].
  split; [|split].
  - split; [done|]. exists p4. split; [done|]. split; [unfold p4; simpl; by rewrite Hhp|].
    split; [by destruct Op|]. split; [change (Leaf.GetSize p4) with (Leaf.GetSize p'); split; [lia | unfold p4; simpl; by rewrite Hhp]|]. split_and!; try done.
    intros x Hx. split; [|by apply Elt]. apply Hr. rewrite <- Ecat. set_solver.
  - split; [done|]. exists q4. split; [done|]. split; [unfold q4; simpl; by rewrite Hhq|].
    split; [by destruct Oq|]. split; [change (Leaf.GetSize q4) with (Leaf.GetSize q); split; [lia | unfold q4; simpl; by rewrite Hhq]|]. split_and!; try done.
    intros x Hx. split; [by apply Ege|]. apply Hr. rewrite <- Ecat. set_solver.
  - intros x Hx1 Hx2. unfold pg4. by rewrite !fn_lookup_insert_ne by done.
Qed.

Lemma seg_children pg h r hi nx es m F fst : seg (owns pg h r) hi nx es m F fst -> forall c, c ∈ es.*2 -> c ∈ F.
Proof.
  intros Hs c ([b c'] & -> & Hc)%list_elem_of_fmap.
  destruct (seg_child _ _ _ _ _ _ _ _ _ Hs Hc) as (? & ? & F1 & ? & ? & Ho & Hsub). apply Hsub. exact (proj2 (own_pid _ _ _ _ _ _ _ _ _ _ _ _ Ho)).
Qed.

Lemma seg_nodes pg h r hi nx es m F fst : seg (owns pg h r) hi nx es m F fst -> forall q, q ∈ F -> 0 <= q /\ is_node (pg q).
Proof.
  intros Hs q Hq. destruct (seg_pages _ _ _ _ _ _ _ _ Hs Hq) as (? & ? & ? & ? & ? & ? & ? & Ho & Hq'). by eapply own_pages.
Qed.

(** The children of an overfull node, divided at the separator that moves up. *)
Lemma seg_halves pg h r lo hi nx p m F fst : internal_ok p -> 2 <= Internal.GetSize p ->
  seg (owns pg h r) hi nx (bounds lo (internal_entries p)) m F fst ->
  let n := Z.to_nat ((Internal.GetSize p + 1) / 2) in
  exists x l2 m1 m2 F1 F2 mid, drop n (internal_entries p) = x :: l2 /\ key_wf x.1 /\ (lo < key_num x.1 < hi) /\
    m = m1 ++ m2 /\ F = F1 ++ F2 /\
    seg (owns pg h r) (key_num x.1) mid (bounds lo (take n (internal_entries p))) m1 F1 fst /\
    seg (owns pg h r) hi nx (bounds (key_num x.1) (x :: l2)) m2 F2 mid.
Proof.
  intros Hok Hsz Hs n. pose proof (length_internal p ltac:(lia)) as Hlen.
  destruct (drop n (internal_entries p)) as [|x l2] eqn:Ed.
  { apply (f_equal length) in Ed. rewrite length_drop in Ed. simpl in Ed. subst n. div_lia. }
  pose proof (take_drop n (internal_entries p)) as Hcat. rewrite Ed in Hcat. rewrite <- Hcat, bounds_app in Hs.
  assert (Hne : take n (internal_entries p) <> []).
  { intros E. apply (f_equal length) in E. rewrite length_take in E. simpl in E. subst n. div_lia. }
  rewrite decide_False in Hs by done.
  apply seg_app in Hs as (m1 & m2 & F1 & F2 & mid & -> & -> & Hs1 & Hs2). cbn [next] in Hs1.
  exists x, l2, m1, m2, F1, F2, mid. split_and!; auto.
  - destruct Hok as [_ [Hwf _]]. rewrite <- Hcat in Hwf. destruct (take n _) as [|y l1]; [done|].
    simpl in Hwf. rewrite Forall_app, Forall_cons in Hwf. apply Hwf.
  - destruct (take n _) as [|y l1]; [done|]. by apply seg_lt in Hs1.
  - by apply seg_lt in Hs2.
Qed.

Lemma bounds_ok pg h r lo hi nx l m F fst p : seg (owns pg h r) hi nx (bounds lo l) m F fst ->
  Forall (fun x => key_wf x.1) (tail l) -> internal_entries p = l -> 1 <= Internal.GetSize p -> internal_ok p.
Proof. intros Hs Hwf <- Hsz. split; [done|]. by eapply seg_entries_ok. Qed.

Lemma split_internal_ok t pg H L pid f nf p parent lo hi h nx m F fst :
  whold t pg H L -> H !! pid = Some (f, nf) -> (size H + 1 < slots t)%nat -> allocated t < MAX_PAGES -> sizes_ok t ->
  pg pid = InternalImage p -> 0 <= pid -> node_hdr InternalPage (Internal.header p) parent pid -> internal_ok p ->
  Internal.GetSize p = imax + 1 -> NoDup (pid :: F) ->
  seg (owns pg h pid) hi nx (bounds lo (internal_entries p)) m F fst ->
  let new := allocated t in
  exists r t' pg' q k m1 m2 F1 F2 mid, Split f t = (Ok r, t') /\ whold t' pg' (<[new := (r, 1)]> H) L /\
    H !! new = None /\ L !! r = None /\ conf t t' /\ allocated t' = new + 1 /\
    pg' new = InternalImage q /\ Internal.KeyAt 0 q = Ok k /\ key_wf k /\ (lo < key_num k < hi) /\
    m = m1 ++ m2 /\ F = F1 ++ F2 /\
    owns pg' (S h) parent pid lo (key_num k) m1 (pid :: F1) fst mid /\
    owns pg' (S h) parent new (key_num k) hi m2 (new :: F2) mid nx /\
    (forall q, q <> pid -> q <> new -> q ∉ F -> pg' q = pg q).
Proof.
  intros HS Hf Hsz Hmax [Hlm0 Him0 HL2 HI1] Hp H0 Hh Hok Hn Hnd Hs new.
  destruct (w_new t pg H L HS ltac:(lia) Hmax) as (r & t1 & E1 & H1 & Hz & HHn & HLr & C1 & A1). fold new in H1, Hz, HHn, A1.
  assert (Hrn : <[new := (r, 1)]> H !! new = Some (r, 1)) by apply lookup_insert_eq.
  assert (Hne : pid <> new) by (intros E; rewrite E in Hf; congruence).
  assert (Hrp : <[new := (r, 1)]> H !! pid = Some (f, nf)) by (by rewrite lookup_insert_ne).
  assert (Hnew0 : 0 <= new) by (destruct (hold_frame _ _ _ _ _ _ _ _ _ H1 Hrn) as (_ & ? & _); lia).
  apply NoDup_cons in Hnd as [HpF HndF].
  assert (HnF : new ∉ F) by (intros Hin; destruct (seg_nodes _ _ _ _ _ _ _ _ _ Hs new Hin) as [_ Hnode]; by rewrite Hz in Hnode).
  unfold Split. rewrite (bind_ok _ _ _ _ _ E1).
  erewrite bind_ok by (eapply (step_page_id _ _ _ _ _ new r 1); [exact H1 | exact Hrn]).
  rewrite (bind_ok get _ t1 t1 t1) by done.
  erewrite bind_ok by (eapply (step_read as_header _ _ _ _ _ pid f); [exact H1 | exact Hrp | by rewrite Hp]).
  destruct Hh as (Ht & Hi & Hpar). unfold IsLeafPage. rewrite Ht, bool_decide_eq_false_2 by done.
  erewrite bind_ok by (eapply (step_read as_internal _ _ _ _ _ new r); [exact H1 | exact Hrn | by rewrite Hz]).
  pose proof C1 as (_ & _ & Him & Hsl). rewrite Him, Him0, i32_small, Hpar by lia.
  set (q0 := Internal.Init new parent imax (Internal.mkInternal zero_header [])).
  destruct (w_write t1 pg _ L new r 1 (InternalImage q0) H1 Hrn) as (t2 & E2 & H2 & S2).
  unfold put_internal, write_internal. rewrite (bind_ok _ _ _ _ _ E2).
  destruct (same_conf _ _ S2) as [C2 A2].
  destruct (seg_halves pg h pid lo hi nx p m F fst Hok ltac:(lia) Hs) as (x & l2 & m1 & m2 & F1 & F2 & mid & Ed & Hxw & Hxr & -> & -> & Hs1 & Hs2).
  set (n := (Internal.GetSize p + 1) / 2) in *.
  assert (Hch : children_ok (<[new := InternalImage q0]> pg) [new; pid] (drop (Z.to_nat n) (internal_entries p)).*2).
  { apply children_ok_insert. intros c Hc. rewrite Ed, <- (bounds_children (key_num x.1)) in Hc.
    pose proof (seg_children _ _ _ _ _ _ _ _ _ Hs2 c Hc) as HcF. destruct (seg_nodes _ _ _ _ _ _ _ _ _ Hs2 c HcF).
    split_and!; auto. set_solver. }
  destruct (move_half_ok t2 _ _ L pid f nf new r 1 p q0 H2 Hrp Hrn Hne) as
    (t3 & pg3 & p' & q & E3 & H3 & S3 & P1 & P2 & P3 & P4 & P5 & P6 & R1 & R2); auto.
  { rewrite map_size_insert_None by done. destruct C2 as (_ & _ & _ & C2). lia. }
  { by rewrite fn_lookup_insert_ne by done. }
  { by rewrite fn_lookup_insert. }
  { lia. }
  fold n in P3, P4, P5, P6, R1, R2. rewrite (bind_ok _ _ _ _ _ E3). rewrite Ed in P6, R1, R2.
  destruct (same_conf _ _ S3) as [C3 A3].
  assert (Hq1 : 1 <= Internal.GetSize q) by (unfold Internal.GetSize; rewrite P4; simpl; subst n; div_lia).
  assert (Hp1 : 1 <= Internal.GetSize p') by (unfold Internal.GetSize; rewrite P3; simpl; subst n; div_lia).
  assert (Hwf : Forall (fun x => key_wf x.1) (tail (internal_entries p))) by apply Hok.
  pose proof (take_drop (Z.to_nat n) (internal_entries p)) as Hcat. rewrite Ed in Hcat.
  assert (Hwf2 : Forall (fun x => key_wf x.1) (tail (take (Z.to_nat n) (internal_entries p))) /\ Forall (fun x => key_wf x.1) l2).
  { rewrite <- Hcat in Hwf. destruct (take _ _) as [|y l1]; simpl in *; [by split|]. rewrite Forall_app, Forall_cons in Hwf. tauto. }
  assert (Hs1' : seg (owns pg3 h pid) (key_num x.1) mid (bounds lo (internal_entries p')) m1 F1 fst).
  { rewrite P5. eapply seg_frame; [|exact Hs1]. apply NoDup_app in HndF as (_ & Hdis & _). intros c Hc. rewrite R2.
    - rewrite fn_lookup_insert_ne; [done|set_solver].
    - intros Hin. rewrite <- (bounds_children (key_num x.1)) in Hin. apply (Hdis c Hc). by eapply seg_children.
    - set_solver. }
  assert (Hs2' : seg (owns pg3 h new) hi nx (bounds (key_num x.1) (internal_entries q)) m2 F2 mid).
  { rewrite P6. apply NoDup_app in HndF as (_ & _ & Hnd2). eapply seg_parent; [done | | | exact Hs2].
    - intros c Hc. pose proof (seg_children _ _ _ _ _ _ _ _ _ Hs2 c Hc). rewrite bounds_children in Hc. rewrite R1 by done.
      rewrite fn_lookup_insert_ne; [done|set_solver].
    - intros c Hc Hni. rewrite bounds_children in Hni. rewrite R2 by set_solver. rewrite fn_lookup_insert_ne; [done|set_solver]. }
  exists r, t3, pg3, q, x.1, m1, m2, F1, F2, mid.
  split; [done|]. split; [exact H3|]. split; [done|]. split; [done|].
  split; [by eapply conf_trans; [|eapply conf_trans]|]. split; [lia|]. split; [done|].
  split; [|split; [done|]; split; [done|]; split; [done|]; split; [done|]; split; [|split]].
  - pose proof (internal_lookup q 0 ltac:(lia)) as Hl. rewrite decide_True, P6 in Hl by lia. injection Hl as ->. done.
  - split; [done|]. exists p', F1. split; [done|]. split; [by rewrite P3|].
    split; [eapply bounds_ok; [exact Hs1' | rewrite P5; apply Hwf2 | done | done]|].
    split; [|by split]. unfold Internal.GetSize. rewrite P3. simpl. subst n. div_lia.
  - split; [done|]. exists q, F2. split; [done|]. split; [by rewrite P4|].
    split; [eapply bounds_ok; [exact Hs2' | rewrite P6; apply Hwf2 | done | done]|].
    split; [|by split]. unfold Internal.GetSize. rewrite P4. simpl. subst n. div_lia.
  - intros c Hc1 Hc2 HcF. rewrite R2; [by rewrite fn_lookup_insert_ne | | set_solver].
    intros Hin. rewrite <- (bounds_children (key_num x.1)) in Hin. apply HcF. apply elem_of_app. right. exact (seg_children _ _ _ _ _ _ _ _ _ Hs2 c Hin).
Qed.

End Split.

(** ** The separators climb *)

Lemma Permutation_middle_swap {A} (l1 l2 : list A) x l3 : l1 ++ l2 ++ x :: l3 ≡ₚ x :: l1 ++ l2 ++ l3.
Proof. solve_Permutation. Qed.

Section Climb.

Context (lmax imax : Z).
Abbreviation owns := (own lmax imax).
Abbreviation pins_map := (gmap Z (Z * Z)).
Abbreviation latch_map := (gmap Z Latch.ReaderWriterLatch).
Implicit Types (t : BPlusTree) (pg : Z -> page_image) (H : pins_map) (L : latch_map).

(** The nodes a split may reach are pinned: the parent, and above every full
    node its parent. *)
Fixpoint climb pg (path : list Z) H : Prop :=
  match path with
  | [] => True
  | q :: path => is_Some (H !! q) /\
      forall p, pg q = InternalImage p -> Internal.GetSize p = imax -> climb pg path H
  end.

Lemma climb_mono pg pg' path H H' : (forall q, q ∈ path -> pg' q = pg q) ->
  (forall q, is_Some (H !! q) -> is_Some (H' !! q)) -> climb pg path H -> climb pg' path H'.
Proof.
  intros Hpg HH. induction path as [|q path IH]; simpl; [done|]. intros [Hq Hc]. split; [auto|].
  intros p Hp Hs. rewrite Hpg in Hp by set_solver. apply IH; [set_solver | by eapply Hc].
Qed.

(** What an insertion makes of the tree: a tree on the pages [F0] and new ones,
    with the contents [m]; other pages are untouched. *)
Definition grown t pg t' pg' (F0 : list Z) m (steps : nat) : Prop :=
  exists h fst F', owns pg' h INVALID_PAGE_ID (tree_root t') (-1) key_top m F' fst INVALID_PAGE_ID /\
    NoDup F' /\ F0 ⊆ F' /\ (forall q, q ∈ F' -> q ∈ F0 \/ allocated t <= q) /\
    (forall q, q ∉ F0 -> q < allocated t -> pg' q = pg q) /\
    leaf_max_size_ t' = leaf_max_size_ t /\ internal_max_size_ t' = internal_max_size_ t /\ slots t' = slots t /\
    (allocated t <= allocated t' <= allocated t + Z.of_nat steps).

Lemma fresh_page t pg H L (F : list Z) : whold t pg H L -> (forall q, q ∈ F -> 0 <= q /\ is_node (pg q)) ->
  forall q, q ∈ F -> q < allocated t.
Proof.
  intros HS HF q Hq. destruct (HF q Hq) as [H0 Hn]. eapply thold_allocated; [exact HS | done|]. by destruct (pg q).
Qed.

(** A new root above the two halves. *)
Lemma new_root_ok t pg H L old fo no new fn nn key h m1 m2 F1 F2 f g fuel :
  whold t pg H L -> H !! old = Some (fo, no) -> H !! new = Some (fn, nn) -> sizes_ok lmax imax t ->
  owns pg h INVALID_PAGE_ID old (-1) (key_num key) m1 F1 f g ->
  owns pg h INVALID_PAGE_ID new (key_num key) key_top m2 F2 g INVALID_PAGE_ID ->
  key_wf key -> (-1 < key_num key < key_top) -> old < new -> NoDup (F1 ++ F2) ->
  (size H < slots t)%nat -> allocated t < MAX_PAGES ->
  exists t' pg', insert_into_parent (S fuel) fo key fn t = (Ok tt, t') /\ whold t' pg' H L /\
    grown t pg t' pg' (F1 ++ F2) (m1 ++ m2) 1.
Proof.
  intros HS Ho Hn Hso O1 O2 Hk Hkr Hlt Hnd Hsz Hmax. cbn [insert_into_parent].
  destruct (own_header _ _ _ _ _ _ _ _ _ _ _ _ O1) as (h1 & Eh1 & Ei1 & Ep1).
  destruct (own_header _ _ _ _ _ _ _ _ _ _ _ _ O2) as (h2 & Eh2 & Ei2 & Ep2).
  erewrite bind_ok by (eapply (step_read as_header _ _ _ _ _ old fo); [exact HS | exact Ho | exact Eh1]).
  erewrite bind_ok by (eapply (step_read as_header _ _ _ _ _ new fn); [exact HS | exact Hn | exact Eh2]).
  unfold IsRootPage. rewrite Ep1, Z.eqb_refl.
  destruct (w_new t pg H L HS Hsz Hmax) as (r & t1 & E1 & H1 & Hz & HHn & HLr & C1 & A1). set (rp := allocated t) in *.
  rewrite (bind_ok _ _ _ _ _ E1).
  assert (Hrp : <[rp := (r, 1)]> H !! rp = Some (r, 1)) by apply lookup_insert_eq.
  assert (Hon : old <> rp) by (intros E; rewrite E in Ho; congruence).
  assert (Hnn : new <> rp) by (intros E; rewrite E in Hn; congruence).
  assert (Hrp0 : 0 <= rp) by (destruct (hold_frame _ _ _ _ _ _ _ _ _ H1 Hrp) as (_ & ? & _); lia).
  erewrite bind_ok by (eapply (step_page_id _ _ _ _ _ rp r 1); [exact H1 | exact Hrp]).
  set (t1' := SetRootPageId rp t1). rewrite (bind_ok (modify _) _ t1 tt t1') by done.
  assert (H1' : whold t1' pg (<[rp := (r, 1)]> H) L) by exact H1.
  rewrite (bind_ok get _ t1' t1' t1') by done.
  erewrite bind_ok by (eapply (step_read as_internal _ _ _ _ _ rp r); [exact H1' | exact Hrp | by rewrite Hz]).
  assert (Him : internal_max_size_ t1' = imax) by (destruct C1 as (_ & _ & C1 & _); simpl; by rewrite C1, (so_imax _ _ _ Hso)).
  pose proof (so_internal _ _ _ Hso) as Hib. rewrite Him, i32_small, Ei1, Ei2 by lia.
  set (z := Internal.Init rp INVALID_PAGE_ID imax (Internal.mkInternal zero_header [])).
  set (rt := Internal.PopulateNewRoot old key new z).
  assert (Hre : internal_entries rt = [((Internal.at_ 0 z).1, old); (key, new)]) by (apply PopulateNewRoot_entries; lia).
  assert (Hrh : Internal.header rt = SetSize 2 (Internal.header z)) by (unfold rt, Internal.PopulateNewRoot; by case_match).
  destruct (w_write t1' pg _ L rp r 1 (InternalImage rt) H1' Hrp) as (t2 & E2 & H2 & S2).
  unfold put_internal, write_internal. rewrite (bind_ok _ _ _ _ _ E2).
  destruct (own_pages _ _ _ _ _ _ _ _ _ _ _ _ O1 old (proj2 (own_pid _ _ _ _ _ _ _ _ _ _ _ _ O1))) as [Hold0 Hon1].
  destruct (own_pages _ _ _ _ _ _ _ _ _ _ _ _ O2 new (proj2 (own_pid _ _ _ _ _ _ _ _ _ _ _ _ O2))) as [Hnew0 Hnn1].
  destruct (w_header t2 _ _ L old fo no (SetParentPageId rp) (with_parent rp (pg old)) H2) as (t3 & E3 & H3 & S3);
    [by rewrite lookup_insert_ne | rewrite fn_lookup_insert_ne by done; by apply with_parent_header |].
  rewrite (bind_ok _ _ _ _ _ E3).
  destruct (w_header t3 _ _ L new fn nn (SetParentPageId rp) (with_parent rp (pg new)) H3) as (t4 & E4 & H4 & S4);
    [by rewrite lookup_insert_ne | rewrite !fn_lookup_insert_ne by lia; by apply with_parent_header |].
  rewrite (bind_ok _ _ _ _ _ E4).
  destruct (w_unpin t4 _ _ L rp r 1 H4 Hrp) as (t5 & E5 & H5 & S5); [done|].
  rewrite decide_True, delete_insert_id in H5 by done. exists t5. eexists. split; [exact E5|]. split; [exact H5|].
  match type of H5 with whold _ ?x _ _ => set (pg5 := x) in * end.
  destruct (same_conf _ _ (same_tree_trans _ _ _ S2 (same_tree_trans _ _ _ S3 (same_tree_trans _ _ _ S4 S5)))) as [(C5 & C6 & C7 & C8) A5].
  assert (Hrf : rp ∉ F1 ++ F2).
  { intros [Hin|Hin]%elem_of_app; [destruct (own_pages _ _ _ _ _ _ _ _ _ _ _ _ O1 _ Hin) as [_ Hx] |
      destruct (own_pages _ _ _ _ _ _ _ _ _ _ _ _ O2 _ Hin) as [_ Hx]]; by rewrite Hz in Hx. }
  assert (Hin1 : old ∈ F1) by exact (proj2 (own_pid _ _ _ _ _ _ _ _ _ _ _ _ O1)).
  assert (Hin2 : new ∈ F2) by exact (proj2 (own_pid _ _ _ _ _ _ _ _ _ _ _ _ O2)).
  pose proof Hnd as Hnd'. apply NoDup_app in Hnd' as (N1 & Nd & N2).
  assert (P1 : pg5 rp = InternalImage rt) by (unfold pg5; rewrite !fn_lookup_insert_ne by done; by rewrite fn_lookup_insert).
  assert (P2 : pg5 old = with_parent rp (pg old)) by (unfold pg5; rewrite fn_lookup_insert_ne by lia; by rewrite fn_lookup_insert).
  assert (P3 : pg5 new = with_parent rp (pg new)) by (unfold pg5; by rewrite fn_lookup_insert).
  assert (P4 : forall q, q <> rp -> q <> old -> q <> new -> pg5 q = pg q) by (intros q ? ? ?; unfold pg5; by rewrite !fn_lookup_insert_ne).
  exists (S h), f, (rp :: F1 ++ F2). split.
  { replace (tree_root t5) with rp by (by rewrite C5). split; [done|]. exists rt, (F1 ++ F2).
    split; [done|]. split; [by rewrite Hrh|]. split; [|split; [|split; [done|]]].
    - split; [unfold Internal.GetSize; rewrite Hrh; simpl; lia|]. rewrite Hre. by apply entries_single.
    - unfold Internal.GetSize. rewrite Hrh. simpl. lia.
    - rewrite Hre. simpl. exists m1, m2, F1, F2, g. split_and!; auto; [lia | |].
      + eapply own_parent; [exact N1 | exact P2 | | exact O1]. intros q Hq Hne. apply P4; [set_solver.. |].
        intros ->. by apply (Nd new).
      + exists m2, [], F2, [], INVALID_PAGE_ID. rewrite !app_nil_r. split_and!; auto; [lia|].
        eapply own_parent; [exact N2 | exact P3 | | exact O2]. intros q Hq Hne. apply P4; [set_solver | | done].
        intros ->. by apply (Nd old). }
  split; [by constructor|]. split; [set_solver|]. split.
  { intros q [->|Hq]%elem_of_cons; [right; lia | by left]. }
  destruct C1 as (_ & D2 & D3 & D4). change (slots t1') with (slots t1) in C8. change (allocated t1') with (allocated t1) in A5.
  split; [intros q Hq Hlt'; apply P4; [lia | set_solver | set_solver]|]. simpl in C6, C7.
  split_and!; try congruence; unfold rp in *; lia.
Qed.

Lemma grown_weaken t pg t1 pg1 t' pg' F0 F1 m n n' : grown t1 pg1 t' pg' F1 m n ->
  conf t t1 \/ (leaf_max_size_ t1 = leaf_max_size_ t /\ internal_max_size_ t1 = internal_max_size_ t /\ slots t1 = slots t) ->
  (allocated t <= allocated t1) -> (allocated t1 + Z.of_nat n <= allocated t + Z.of_nat n') ->
  F0 ⊆ F1 -> (forall q, q ∈ F1 -> q ∈ F0 \/ allocated t <= q) ->
  (forall q, q ∉ F0 -> q < allocated t -> pg1 q = pg q) -> grown t pg t' pg' F0 m n'.
Proof.
  intros (h & fst & F' & Ho & Hnd & Hsub & Hnew & Hpg & A & B & C & D) Hc Ha Hn Hs Hf Hp.
  assert (leaf_max_size_ t1 = leaf_max_size_ t /\ internal_max_size_ t1 = internal_max_size_ t /\ slots t1 = slots t) as (A1 & B1 & C1)
    by (destruct Hc as [(_ & ? & ? & ?)|?]; auto).
  exists h, fst, F'. split; [done|]. split; [done|]. split; [set_solver|]. split.
  { intros q Hq. destruct (Hnew q Hq) as [Hq1|Hq1]; [auto | right; lia]. }
  split; [|split_and!; try congruence; lia].
  intros q Hq Hlt. rewrite Hpg; [auto | | lia]. intros Hin. destruct (Hf q Hin); [done | lia].
Qed.

(** One node further up: the separator enters the parent. *)
Lemma parent_insert pg h q parent p lo hi l1 k old l2 ml mr Fl Fr f fst n nx b key new m1 m2 F1 F2 g :
  node_hdr InternalPage (Internal.header p) parent q -> internal_ok p ->
  internal_entries p = l1 ++ (k, old) :: l2 -> b = (if decide (l1 = []) then lo else key_num k) ->
  seg (owns pg h q) b f (bounds lo l1) ml Fl fst -> seg (owns pg h q) hi nx (bnd <$> l2) mr Fr n ->
  owns pg h q old b (key_num key) m1 F1 f g -> owns pg h q new (key_num key) (next hi (bnd <$> l2)) m2 F2 g n ->
  key_wf key -> (b < key_num key < next hi (bnd <$> l2)) -> NoDup (F1 ++ F2 ++ q :: Fl ++ Fr) ->
  let p1 := Internal.InsertNodeAfter old key new p in
  let pg1 := <[q := InternalImage p1]> pg in
  node_hdr InternalPage (Internal.header p1) parent q /\ internal_ok p1 /\ Internal.GetSize p1 = Internal.GetSize p + 1 /\
  seg (owns pg1 h q) hi nx (bounds lo (internal_entries p1)) (ml ++ (m1 ++ m2) ++ mr) (Fl ++ (F1 ++ F2) ++ Fr) fst.
Proof.
  intros Hh Hok He Hb Hl Hr O1 O2 Hk Hkr Hnd p1 pg1.
  assert (Hq : forall x, x ∈ F1 ++ F2 ++ Fl ++ Fr -> pg1 x = pg x).
  { intros x Hx. unfold pg1. rewrite fn_lookup_insert_ne; [done|]. intros E. rewrite <- E in Hx. clear E x.
    rewrite (Permutation_middle_swap F1 F2 q (Fl ++ Fr)) in Hnd. apply NoDup_cons in Hnd as [Hnd _]. set_solver. }
  assert (Hold : old ∉ l1.*2).
  { rewrite <- (bounds_children lo). intros Hin. pose proof (seg_children _ _ _ _ _ _ _ _ _ _ _ Hl old Hin) as HF.
    pose proof (proj2 (own_pid _ _ _ _ _ _ _ _ _ _ _ _ O1)) as HF1. apply NoDup_app in Hnd as (_ & Hd & _). apply (Hd old HF1). set_solver. }
  destruct (InsertNodeAfter_entries p l1 l2 k old key new) as [Ee Es]; [pose proof (internal_size p Hok); lia | done | done|].
  fold p1 in Ee, Es.
  assert (Hs : seg (owns pg1 h q) hi nx (bounds lo (internal_entries p1)) (ml ++ (m1 ++ m2) ++ mr) (Fl ++ (F1 ++ F2) ++ Fr) fst).
  { rewrite Ee, bounds_app. apply seg_app. exists ml, ((m1 ++ m2) ++ mr), Fl, ((F1 ++ F2) ++ Fr), f. split; [done|]. split; [done|].
    rewrite <- !app_assoc. cbn [next Datatypes.fst Datatypes.snd]. split; [rewrite <- Hb; eapply seg_frame; [|exact Hl]; set_solver|].
    simpl. exists m1, (m2 ++ mr), F1, (F2 ++ Fr), g. rewrite <- Hb. split_and!; auto; [lia | |].
    - eapply own_frame; [|exact O1]. set_solver.
    - exists m2, mr, F2, Fr, n. split_and!; auto; [apply Hkr | |].
      + eapply own_frame; [|exact O2]. set_solver.
      + eapply seg_frame; [|exact Hr]. set_solver. }
  split; [by destruct Hh as (A & B & C)|]. split; [|by split].
  eapply bounds_ok; [exact Hs | | done | pose proof (internal_size p Hok); lia].
  destruct Hok as [_ [Hwf _]]. rewrite He in Hwf. rewrite Ee. destruct l1 as [|x l1]; simpl in *; [by constructor|].
  rewrite Forall_app in Hwf |- *. destruct Hwf as [W1 W2]. apply Forall_cons in W2 as [W2 W3]. split; [done|]. by repeat constructor.
Qed.

(** Releasing the extra pin on a parent that stays pinned. *)
Lemma w_release t pg H L q f n : whold t pg (<[q := (f, n + 1)]> H) L -> H !! q = Some (f, n) -> 0 < n ->
  exists t', unpin q true t = (Ok tt, t') /\ whold t' pg H L /\ same_tree t t'.
Proof.
  intros HS Hq Hn. destruct (w_unpin t pg _ L q f (n + 1) HS (lookup_insert_eq _ _ _)) as (t' & E & H' & S); [lia|].
  rewrite decide_False, insert_insert_eq in H' by lia. replace (n + 1 - 1) with n in H' by lia.
  rewrite insert_id in H' by done. eauto.
Qed.

Lemma MaxSize_internal hd t : sizes_ok lmax imax t -> page_type_ hd = InternalPage -> MaxSize hd t = imax.
Proof.
  intros [_ Hi _ Hb] Hty. unfold MaxSize, IsLeafPage. rewrite Hty, bool_decide_eq_false_2, Hi by done. apply i32_small. lia.
Qed.

Lemma MaxSize_leaf hd t : sizes_ok lmax imax t -> page_type_ hd = LeafPage -> MaxSize hd t = lmax - 1.
Proof.
  intros [Hl _ Hb _] Hty. unfold MaxSize, IsLeafPage. rewrite Hty, bool_decide_eq_true_2, Hl by done.
  rewrite u64_small by lia. apply i32_small. lia.
Qed.

Lemma grown_same t pg t1 pg1 t2 F0 m n : grown t pg t1 pg1 F0 m n -> same_tree t1 t2 -> grown t pg t2 pg1 F0 m n.
Proof.
  intros (h & fs & F & G1 & G2 & G3 & G4 & G5 & G6 & G7 & G8 & G9) S. destruct (same_conf _ _ S) as [(D1 & D2 & D3 & D4) D5].
  exists h, fs, F. rewrite D1, D2, D3, D4, D5. repeat (split; [done|]). done.
Qed.

(** The climb ends at a node with room. *)
Lemma grown_plug t pg t' pg' h parent q lo hi ML MR Fc path f n HT m F F0 steps :
  own_ctx lmax imax pg' h parent q lo hi ML MR Fc path f n (tree_root t') HT ->
  owns pg' h parent q lo hi m F f n -> NoDup (F ++ Fc) -> (F ++ Fc ≡ₚ F0) -> same_tree t t' ->
  (forall x, x ∉ F0 -> pg' x = pg x) -> grown t pg t' pg' F0 (ML ++ m ++ MR) steps.
Proof.
  intros Hc Ho Hnd HP S Hpg. destruct (plug _ _ _ _ _ _ _ _ _ _ _ _ _ _ _ _ _ _ Hc Ho) as (fst' & F' & Hown & HP').
  destruct (same_conf _ _ S) as [(D1 & D2 & D3 & D4) D5].
  exists HT, fst', F'. split; [done|]. split; [by rewrite HP'|]. split; [rewrite HP', HP; done|].
  split; [intros x Hx; left; by rewrite <- HP, <- HP'|]. split; [auto|]. split_and!; try done; lia.
Qed.

Lemma insert_into_parent_ok path : forall fuel t pg H L old fo no new fn nn key h parent lo hi ML MR Fc f n root HT m1 m2 F1 F2 g,
  whold t pg H L -> H !! old = Some (fo, no) -> H !! new = Some (fn, nn) -> sizes_ok lmax imax t -> tree_root t = root ->
  own_ctx lmax imax pg h parent old lo hi ML MR Fc path f n root HT ->
  owns pg h parent old lo (key_num key) m1 F1 f g -> owns pg h parent new (key_num key) hi m2 F2 g n ->
  key_wf key -> (lo < key_num key < hi) -> old < new -> NoDup (F1 ++ F2 ++ Fc) -> climb pg path H ->
  (size H + length path + 1 <= slots t)%nat -> allocated t + Z.of_nat (length path) < MAX_PAGES -> (length path < fuel)%nat ->
  exists t' pg', insert_into_parent fuel fo key fn t = (Ok tt, t') /\ whold t' pg' H L /\
    grown t pg t' pg' (F1 ++ F2 ++ Fc) (ML ++ (m1 ++ m2) ++ MR) (S (length path)).
Proof.
  induction path as [|q path IH]; intros fuel t pg H L old fo no new fn nn key h parent lo hi ML MR Fc f n root HT m1 m2 F1 F2 g
    HS Ho Hn Hso Hroot Hctx O1 O2 Hk Hkr Hlt Hnd Hcl Hsz Hmax Hfuel; (destruct fuel as [|fuel]; [simpl in Hfuel; lia|]).
  { inversion Hctx; subst. simpl in Hsz, Hmax. rewrite ?app_nil_r, ?app_nil_l in *.
    eapply new_root_ok; eauto; lia. }
  cbn [insert_into_parent]. inversion Hctx as [|h' parent' q' p lo' hi' l1 k c l2 b ml mr Fl Fr f' fst' n' nx' ML' MR' F' path' root' H'
    Hp Hq0 Hh Hok Hpsz He Hb Hblt Hsl Hsr Hc']; subst h' parent q' c hi path' f' n' root' H' ML MR Fc b. clear Hctx.
  destruct (own_header _ _ _ _ _ _ _ _ _ _ _ _ O1) as (h1 & Eh1 & Ei1 & Ep1).
  destruct (own_header _ _ _ _ _ _ _ _ _ _ _ _ O2) as (h2 & Eh2 & Ei2 & Ep2).
  erewrite bind_ok by (eapply (step_read as_header _ _ _ _ _ old fo); [exact HS | exact Ho | exact Eh1]).
  erewrite bind_ok by (eapply (step_read as_header _ _ _ _ _ new fn); [exact HS | exact Hn | exact Eh2]).
  unfold IsRootPage. rewrite Ep1. destruct (Z.eqb_spec q INVALID_PAGE_ID) as [E|_]; [unfold INVALID_PAGE_ID in E; lia|].
  destruct Hcl as [[[fq nq] Hq] Hcl]. destruct (w_refetch t pg H L q fq nq HS Hq) as (t1 & E1 & H1 & S1).
  pose proof (w_count _ _ _ _ _ _ _ HS Hq) as Hnq.
  rewrite (bind_ok _ _ t fq t1) by (unfold fetch_deref; rewrite (bind_ok _ _ _ _ _ E1); reflexivity).
  set (H1m := <[q := (fq, nq + 1)]> H) in *.
  assert (Hq1 : H1m !! q = Some (fq, nq + 1)) by apply lookup_insert_eq.
  erewrite bind_ok by (eapply (step_read as_internal _ _ _ _ _ q fq); [exact H1 | exact Hq1 | by rewrite Hp]).
  rewrite Ei1, Ei2. set (p1 := Internal.InsertNodeAfter old key new p).
  destruct (w_write t1 pg _ L q fq (nq + 1) (InternalImage p1) H1 Hq1) as (t2 & E2 & H2 & S2).
  unfold put_internal, write_internal. rewrite (bind_ok _ _ _ _ _ E2).
  set (pg2 := <[q := InternalImage p1]> pg) in *.
  assert (Hp2 : pg2 q = InternalImage p1) by apply fn_lookup_insert.
  assert (Hnd1 : NoDup (F1 ++ F2 ++ q :: Fl ++ Fr) /\ NoDup (F1 ++ F2 ++ Fl ++ Fr) /\ (q ∉ F1 ++ F2 ++ Fl ++ Fr) /\
    (forall x, x ∈ q :: F1 ++ F2 ++ Fl ++ Fr -> x ∉ F') /\ NoDup F').
  { assert (Hp' : F1 ++ F2 ++ q :: Fl ++ Fr ++ F' ≡ₚ (F1 ++ F2 ++ q :: Fl ++ Fr) ++ F') by solve_Permutation.
    rewrite Hp' in Hnd. apply NoDup_app in Hnd as (N1 & Nd & N2). split_and!; [done | | | | done].
    - rewrite Permutation_middle_swap in N1. by apply NoDup_cons in N1 as [_ N1].
    - rewrite Permutation_middle_swap in N1. by apply NoDup_cons in N1 as [N1 _].
    - intros x Hx. apply Nd. set_solver. }
  destruct Hnd1 as (ND1 & ND2 & ND3 & ND4 & ND5).
  destruct (parent_insert pg h q parent' p lo' hi' l1 k old l2 ml mr Fl Fr f fst' n nx' lo key new m1 m2 F1 F2 g) as (Hh1 & Hok1 & Hsz1 & Hseg); auto.
  fold p1 pg2 in Hh1, Hok1, Hsz1, Hseg.
  assert (Hq2 : forall x, x ∈ F' -> pg2 x = pg x).
  { intros x Hx. unfold pg2. rewrite fn_lookup_insert_ne; [done|]. intros E. apply (ND4 x); [rewrite E; set_solver | done]. }
  pose proof (ctx_frame _ _ pg pg2 _ _ _ _ _ _ _ _ _ _ _ _ _ Hq2 Hc') as Hc2.
  erewrite bind_ok by (eapply (step_read as_header _ _ _ _ _ q fq); [exact H2 | exact Hq1 | by rewrite Hp2]).
  destruct (same_conf _ _ (same_tree_trans _ _ _ S1 S2)) as [C2 A2]. pose proof (sizes_conf _ _ _ _ Hso C2) as Hso2.
  rewrite (bind_ok (gets _) _ t2 imax t2) by (unfold gets; rewrite MaxSize_internal by (done || apply Hh1); done).
  assert (HPF : F1 ++ F2 ++ q :: Fl ++ Fr ++ F' ≡ₚ (q :: Fl ++ (F1 ++ F2) ++ Fr) ++ F') by solve_Permutation.
  assert (Hm : (ML' ++ ml) ++ (m1 ++ m2) ++ mr ++ MR' = ML' ++ (ml ++ (m1 ++ m2) ++ mr) ++ MR') by (by rewrite <- !app_assoc).
  rewrite Hm. clear Hm. fold (Internal.GetSize p1). rewrite Hsz1.
  destruct (Z.eqb_spec (Internal.GetSize p + 1) (imax + 1)) as [Efull|Enot]; cbn [when].
  - set (mm := ml ++ (m1 ++ m2) ++ mr) in *. set (FF := Fl ++ (F1 ++ F2) ++ Fr) in *.
    assert (NDF : NoDup ((q :: FF) ++ F')) by (by rewrite <- HPF).
    destruct (split_internal_ok lmax imax t2 pg2 H1m L q fq (nq + 1) p1 parent' lo' hi' h nx' mm FF fst' H2 Hq1) as
      (r & t3 & pg3 & nq2 & k2 & n1 & n2 & G1 & G2 & mid & E3 & H3 & Hno & HLr & C3 & A3 & Hnp & Hk2 & Hkw & Hkr2 & Em & EF & Oq & Onew & Hpg3); auto.
    { unfold H1m. rewrite map_size_insert_Some by (by eexists). destruct C2 as (_ & _ & _ & C2). simpl in Hsz. lia. }
    { simpl in Hmax. lia. }
    { by apply NoDup_app in NDF as [? _]. }
    set (new2 := allocated t2) in *. set (H3m := <[new2 := (r, 1)]> H1m) in *.
    assert (Hn2 : H3m !! new2 = Some (r, 1)) by apply lookup_insert_eq.
    assert (Hnq2 : new2 <> q) by (intros E; rewrite E in Hno; congruence).
    assert (Hq3 : H3m !! q = Some (fq, nq + 1)) by (unfold H3m; by rewrite lookup_insert_ne).
    assert (Hfr : forall x, x ∈ (q :: FF) ++ F' -> x < new2).
    { eapply fresh_page; [exact H2|]. intros x [[->|Hx]%elem_of_cons|Hx]%elem_of_app; [by rewrite Hp2 | |].
      - by eapply seg_nodes.
      - by eapply ctx_pages. }
    assert (Hpg3' : forall x, x ∈ F' -> pg3 x = pg2 x).
    { intros x Hx. apply NoDup_app in NDF as (_ & Hd & _). apply Hpg3; [| | intros Hx'; apply (Hd x); set_solver].
      - intros ->. apply (Hd q); set_solver.
      - intros ->. specialize (Hfr new2). lia || (assert (new2 < new2) by (apply Hfr; set_solver); lia). }
    pose proof (ctx_frame _ _ pg2 pg3 _ _ _ _ _ _ _ _ _ _ _ _ _ Hpg3' Hc2) as Hc3.
    assert (ND3' : NoDup ((q :: G1) ++ (new2 :: G2) ++ F')).
    { rewrite EF in NDF. assert (HPn : (q :: G1) ++ (new2 :: G2) ++ F' ≡ₚ new2 :: (q :: G1 ++ G2) ++ F') by solve_Permutation.
      rewrite HPn. constructor; [|done]. intros Hin. rewrite <- EF in Hin. specialize (Hfr _ Hin). lia. }
    destruct (IH fuel t3 pg3 H3m L q fq (nq + 1) new2 r 1 k2 (S h) parent' lo' hi' ML' MR' F' fst' nx' root HT n1 n2 (q :: G1) (new2 :: G2) mid)
      as (t4 & pg4 & E4 & H4 & Hgr); auto.
    { by eapply sizes_conf. }
    { destruct C2 as [C2 _], C3 as [C3 _]. congruence. }
    { specialize (Hfr q ltac:(set_solver)). lia. }
    { eapply (climb_mono pg); [| |exact (Hcl p Hp ltac:(lia))].
      - intros x Hx. pose proof (ctx_path_sub _ _ _ _ _ _ _ _ _ _ _ _ _ _ _ _ Hc3 x Hx). by rewrite Hpg3', Hq2.
      - intros x [y Hx]. unfold H3m, H1m. destruct (decide (x = new2)) as [->|]; [rewrite lookup_insert_eq; eauto|].
        rewrite lookup_insert_ne by done. destruct (decide (x = q)) as [->|]; [rewrite lookup_insert_eq; eauto|].
        rewrite lookup_insert_ne; eauto. }
    { unfold H3m, H1m. rewrite map_size_insert_None by done. rewrite map_size_insert_Some by (by eexists).
      destruct C2 as (_ & _ & _ & C2), C3 as (_ & _ & _ & C3). simpl in Hsz. lia. }
    { simpl in Hmax. lia. }
    { simpl in Hfuel. lia. }
    pose proof Hgr as Hgr0. destruct Hgr as (hr & fr & FR & W1 & W2 & W3 & W4 & W5 & W6 & W7 & W8 & W9).
    assert (Hid : forall x, x ∈ (q :: G1) ++ (new2 :: G2) ++ F' -> exists hd, as_header (pg4 x) = Ok hd /\ page_id_ hd = x)
      by (intros x Hx; eapply own_page_id; [exact W1 | by apply W3]).
    destruct (Hid new2) as (hn & Ehn & Ein); [set_solver|]. destruct (Hid q) as (hq & Ehq & Eiq); [set_solver|].
    assert (Hgr : grown t pg t4 pg4 (F1 ++ F2 ++ q :: Fl ++ Fr ++ F') (ML' ++ mm ++ MR') (S (length (q :: path)))).
    { rewrite Em. eapply (grown_weaken t pg t3 pg3); [exact Hgr0 | left; by eapply conf_trans | lia | simpl; lia | | |].
      - rewrite HPF, EF. set_solver.
      - intros x Hx. destruct (decide (x = new2)) as [->|Hne]; [right; lia | left]. rewrite HPF, EF. set_solver.
      - intros x Hx Hxl. rewrite HPF in Hx. rewrite Hpg3; [| set_solver | lia | set_solver].
        unfold pg2. rewrite fn_lookup_insert_ne; [done|set_solver]. }
    destruct (w_unpin t4 pg4 H3m L new2 r 1 H4 Hn2) as (t5 & E5 & H5 & S5); [done|].
    unfold H3m in H5. rewrite decide_True, delete_insert_id in H5 by done.
    destruct (w_release t5 pg4 H L q fq nq H5 Hq Hnq) as (t6 & E6 & H6 & S6).
    exists t6, pg4. split; [|split; [exact H6|]; eapply grown_same; [exact Hgr | by eapply same_tree_trans]].
    erewrite bind_ok; cycle 1.
    { rewrite (bind_ok _ _ _ _ _ E3).
      erewrite bind_ok by (eapply (step_read as_internal _ _ _ _ _ new2 r); [exact H3 | exact Hn2 | by rewrite Hnp]).
      rewrite Hk2, (bind_ok (lift _) _ t3 k2 t3), (bind_ok _ _ _ _ _ E4) by done.
      erewrite bind_ok by (eapply (step_read as_header _ _ _ _ _ new2 r); [exact H4 | exact Hn2 | exact Ehn]).
      rewrite Ein. exact E5. }
    erewrite bind_ok by (eapply (step_read as_header _ _ _ _ _ q fq); [exact H5 | exact Hq1 | exact Ehq]).
    rewrite Eiq. exact E6.
  - rewrite (bind_ok (ret tt) _ t2 tt t2) by done.
    erewrite bind_ok by (eapply (step_read as_header _ _ _ _ _ q fq); [exact H2 | exact Hq1 | by rewrite Hp2]).
    destruct Hh1 as (T1 & T2 & T3). rewrite T2.
    destruct (w_release t2 pg2 H L q fq nq H2 Hq Hnq) as (t3 & E3 & H3 & S3). exists t3, pg2. split; [exact E3|]. split; [exact H3|].
    eapply grown_same; [|exact S3]. assert (Hr2 : root = tree_root t2) by (destruct C2 as [C2 _]; congruence).
    eapply grown_plug; [rewrite <- Hr2; exact Hc2 | | | | by eapply same_tree_trans |].
    + split; [done|]. exists p1, (Fl ++ (F1 ++ F2) ++ Fr). repeat (split; [done|]). split; [lia|]. split; [done | exact Hseg].
    + rewrite <- HPF. exact Hnd.
    + by rewrite <- HPF.
    + intros x Hx. unfold pg2. rewrite fn_lookup_insert_ne; [done|]. intros E. apply Hx. rewrite <- E. set_solver.
Qed.

End Climb.

(** ** The descent of a writer *)
Section Descent.

Context (lmax imax : Z).
Abbreviation owns := (own lmax imax).
Abbreviation pins_map := (gmap Z (Z * Z)).
Abbreviation latch_map := (gmap Z Latch.ReaderWriterLatch).
Implicit Types (t : BPlusTree) (pg : Z -> page_image) (H : pins_map) (L : latch_map) (ps : list (Z * Z)).

Lemma pin_all_insert ps H q x : q ∉ ps.*1 -> <[q := x]> (pin_all ps H) = pin_all ps (<[q := x]> H).
Proof.
  induction ps as [|[p g] ps IH]; simpl; [done|]. intros Hq. rewrite insert_insert_ne by set_solver. rewrite IH by set_solver. done.
Qed.

Lemma pin_all_app ps ps' H : pin_all (ps ++ ps') H = pin_all ps (pin_all ps' H).
Proof. unfold pin_all. by rewrite foldr_app. Qed.

Lemma latch_all_app op ps ps' L : latch_all op (ps ++ ps') L = latch_all op ps (latch_all op ps' L).
Proof. unfold latch_all. by rewrite foldr_app. Qed.

Lemma pin_all_is_Some ps H q : is_Some (pin_all ps H !! q) <-> q ∈ ps.*1 \/ is_Some (H !! q).
Proof.
  induction ps as [|[p g] ps IH]; simpl; [set_solver|]. destruct (decide (q = p)) as [->|Hne].
  - rewrite lookup_insert_eq. split; [intros _; left; set_solver | eauto].
  - rewrite lookup_insert_ne, IH by done. set_solver.
Qed.

Lemma dom_pin_all ps H : dom (pin_all ps H) ∖ list_to_set ps.*1 ⊆ dom H.
Proof.
  intros q. rewrite elem_of_difference, elem_of_list_to_set, !elem_of_dom, pin_all_is_Some. tauto.
Qed.

Lemma latch_all_None op ps f : latch_all op ps ∅ !! f = None -> f ∉ ps.*2.
Proof.
  induction ps as [|[p g] ps IH]; simpl; [set_solver|]. rewrite lookup_insert_None. intros [HL Hne]. specialize (IH HL). set_solver.
Qed.

Lemma size_pin_all ps : (size (pin_all ps ∅) <= length ps)%nat.
Proof.
  induction ps as [|[p g] ps IH]; [done|]. change (pin_all ((p, g) :: ps) ∅) with (<[p := (g, 1)]> (pin_all ps ∅)).
  rewrite map_size_insert. case_match; simpl; lia.
Qed.

Lemma nodup_sub_length (l l' : list Z) : NoDup l -> l ⊆ l' -> (length l <= length l')%nat.
Proof. intros Hn Hs. by apply submseteq_length, NoDup_submseteq. Qed.

(** A writer gives back the pages of its page set. *)
Lemma w_unlatch op ps t pg H L : op <> OpRead -> NoDup ps.*1 -> NoDup ps.*2 -> (forall q, q ∈ ps.*1 -> H !! q = None) ->
  (forall f, f ∈ ps.*2 -> L !! f = None) -> whold t pg (pin_all ps H) (latch_all op ps L) ->
  exists t', UnlatchAndUnpin op ps.*2 t = (Ok tt, t') /\ whold t' pg H L /\ same_tree t t'.
Proof.
  intros Hop N1 N2 HH HL HS. destruct (unlatch_unpin op ps t pg H _ L N1 N2 HH HL ltac:(done) HS) as (t' & E & H' & S).
  exists t'. split_and!; auto. eapply hold_weaken; [exact H'|]. destruct op; [done | apply dom_pin_all..].
Qed.

(** The page set [ps] of a descent that stands at a node with path [path]. *)
Record pageset ps (path : list Z) : Prop := {
  ps_pids : NoDup ps.*1;
  ps_frames : NoDup ps.*2;
  ps_path : ps.*1 ⊆ path;
}.

(** The nodes of a path, bottom up, whose latches the descent still has. *)
Definition page_safe (op : OpType) t (x : page_image) : bool := match as_header x with Ok h => IsSafe h op t | Fail _ => true end.

Fixpoint kept (op : OpType) t pg (path : list Z) : list Z :=
  match path with
  | [] => []
  | q :: path => q :: (if page_safe op t (pg q) then [] else kept op t pg path)
  end.

Lemma IsSafe_same op h t t' : same_tree t t' -> IsSafe h op t' = IsSafe h op t.
Proof. intros (_ & E1 & E2 & _). unfold IsSafe, MaxSize, MinSize. by rewrite E1, E2. Qed.

Lemma kept_same op t t' pg path : same_tree t t' -> kept op t' pg path = kept op t pg path.
Proof.
  intros S. induction path as [|q path IH]; [done|]. simpl. rewrite IH. unfold page_safe. destruct (as_header (pg q)); [|done].
  by rewrite (IsSafe_same _ _ _ _ S).
Qed.

(** Latch a node; release its ancestors if no change can pass it. *)
Lemma enter_ok op t pg ps path pid f hd : op <> OpRead -> pageset ps path -> pid ∉ ps.*1 -> f ∉ ps.*2 -> as_header (pg pid) = Ok hd ->
  whold t pg (pin_all (ps ++ [(pid, f)]) ∅) (latch_all op ps ∅) ->
  exists t' ps', (on_pool (WLatch f);;; let* node := node_header f in let* safe := gets (IsSafe node op) in
      if safe then UnlatchAndUnpin op ps.*2;;; ret [] else ret ps.*2) t = (Ok ps'.*2, t') /\
    whold t' pg (pin_all (ps' ++ [(pid, f)]) ∅) (latch_all op (ps' ++ [(pid, f)]) ∅) /\ same_tree t t' /\
    pageset (ps' ++ [(pid, f)]) (pid :: path) /\ ps' = (if IsSafe hd op t then [] else ps).
Proof.
  intros Hop [N1 N2 Hsub] Hp Hf Hhd HS. rewrite pin_all_app in HS.
  assert (Hin : pin_all ps (pin_all [(pid, f)] ∅) !! pid = Some (f, 1)) by (rewrite lookup_pin_all_ne by done; apply lookup_insert_eq).
  destruct (step_latch t pg _ _ _ pid f 1 Latch.WLock (op_latch op) HS Hin) as (t1 & E1 & H1 & S1);
    [rewrite lookup_latch_all_ne by done; by destruct op|].
  rewrite latch_all_insert in H1 by done. change (<[f := op_latch op]> ∅) with (latch_all op [(pid, f)] ∅) in H1.
  unfold WLatch. rewrite (bind_ok _ _ _ _ _ E1).
  erewrite bind_ok by (eapply (step_read as_header _ _ _ _ _ pid f); [exact H1 | exact Hin | exact Hhd]).
  rewrite (bind_ok (gets _) _ t1 (IsSafe hd op t1) t1) by done. rewrite (IsSafe_same _ _ _ _ S1).
  destruct (IsSafe hd op t).
  - destruct (w_unlatch op ps t1 pg (pin_all [(pid, f)] ∅) (latch_all op [(pid, f)] ∅) Hop N1 N2) as (t2 & E2 & H2 & S2); auto.
    { intros q Hq. simpl. rewrite lookup_insert_ne; [done|]. intros ->. done. }
    { intros g Hg. simpl. rewrite lookup_insert_ne; [done|]. intros ->. done. }
    exists t2, []. rewrite (bind_ok _ _ _ _ _ E2). split; [done|]. split; [exact H2|]. split; [by eapply same_tree_trans|].
    split; [|done]. split; simpl; [apply NoDup_singleton.. | set_solver].
  - exists t1, ps. split; [done|]. split; [rewrite pin_all_app, latch_all_app; exact H1|]. split; [done|]. split; [|done].
    split; rewrite fmap_app.
    + apply NoDup_app. split_and!; [done | set_solver | apply NoDup_singleton].
    + apply NoDup_app. split_and!; [done | set_solver | apply NoDup_singleton].
    + simpl. set_solver.
Qed.

Lemma find_leaf_step op fuel key left_most f page_set : op <> OpRead ->
  find_leaf_loop (S fuel) key left_most op (Some f) page_set =
  (let* page_set := (on_pool (WLatch f);;; let* node := node_header f in let* safe := gets (IsSafe node op) in
     if safe then UnlatchAndUnpin op page_set;;; ret [] else ret page_set) in
   let page_set := page_set ++ [f] in
   let* node := node_header f in
   if IsLeafPage node then ret (f, page_set) else
   let* internal := internal_at f in
   let* child := lift (if left_most then Internal.ValueAt 0 internal else Internal.Lookup key internal) in
   let* page := fetch child in
   find_leaf_loop fuel key left_most op page page_set).
Proof. by destruct op. Qed.

(** Where a descent for [key] ends: at a leaf, with what the operation may
    change above it pinned and latched. *)
Definition at_leaf op t pg key m (F : list Z) root HT fl ps : Prop :=
  exists pl ps0 p parent lo hi ML MR Fc path nx, ps = ps0 ++ [(pl, fl)] /\
    whold t pg (pin_all ps ∅) (latch_all op ps ∅) /\ pageset ps (pl :: path) /\
    pg pl = LeafImage p /\ (lo <= key_num key < hi) /\
    owns pg 0 parent pl lo hi (leaf_entries p) [pl] pl nx /\
    own_ctx lmax imax pg 0 parent pl lo hi ML MR Fc path pl nx root HT /\
    m = ML ++ leaf_entries p ++ MR /\ (pl :: Fc ≡ₚ F) /\
    ps.*1 = reverse (kept op t pg (pl :: path)).

Lemma find_leaf_write op h : op <> OpRead -> forall fuel t pg ps pid f parent lo hi m F fst nx ML MR Fc path root HT key,
  (h < fuel)%nat -> key_wf key -> (lo <= key_num key < hi) ->
  owns pg h parent pid lo hi m F fst nx -> own_ctx lmax imax pg h parent pid lo hi ML MR Fc path fst nx root HT ->
  NoDup (F ++ Fc) -> pageset ps path -> f ∉ ps.*2 ->
  whold t pg (pin_all (ps ++ [(pid, f)]) ∅) (latch_all op ps ∅) ->
  ps.*1 = reverse (kept op t pg path) -> (length path + h < slots t)%nat ->
  exists fl ps' t', find_leaf_loop fuel key false op (Some f) ps.*2 t = (Ok (fl, ps'.*2), t') /\ same_tree t t' /\
    at_leaf op t' pg key (ML ++ m ++ MR) (F ++ Fc) root HT fl ps'.
Proof.
  intros Hop.
  induction h as [|h IH]; intros fuel t pg ps pid f parent lo hi m F fst nx ML MR Fc path root HT key Hfuel Hk Hkr Ho Hc Hnd Hps Hf HS Hkp Hsl;
    (destruct fuel as [|fuel]; [lia|]); rewrite find_leaf_step by done.
  all: destruct (own_header _ _ _ _ _ _ _ _ _ _ _ _ Ho) as (hd & Ehd & _ & _).
  all: assert (Hpid : pid ∉ path)
    by (intros Hin; apply NoDup_app in Hnd as (_ & Hd & _); apply (Hd pid (proj2 (own_pid _ _ _ _ _ _ _ _ _ _ _ _ Ho)));
        exact (ctx_path_sub _ _ _ _ _ _ _ _ _ _ _ _ _ _ _ _ Hc pid Hin)).
  all: destruct (enter_ok op t pg ps path pid f hd Hop Hps ltac:(destruct Hps; set_solver) Hf Ehd HS) as (t1 & ps1 & E1 & H1 & S1 & Hps1 & Hkeep).
  all: rewrite (bind_ok _ _ _ _ _ E1).
  all: assert (Hin1 : pin_all (ps1 ++ [(pid, f)]) ∅ !! pid = Some (f, 1)).
  1, 3: rewrite pin_all_app, lookup_pin_all_ne; [apply lookup_insert_eq|]; destruct Hps1 as [N1 _ _];
    rewrite fmap_app in N1; apply NoDup_app in N1 as (_ & Hd & _); intros Hin; apply (Hd pid Hin); set_solver.
  all: assert (Hkp1 : (ps1 ++ [(pid, f)]).*1 = reverse (kept op t1 pg (pid :: path))).
  1, 3: rewrite (kept_same _ _ _ _ _ S1), fmap_app, Hkeep; simpl; unfold page_safe; rewrite Ehd, reverse_cons;
    destruct (IsSafe hd op t); simpl; [done | by rewrite Hkp].
  all: erewrite bind_ok by (eapply (step_read as_header _ _ _ _ _ pid f); [exact H1 | exact Hin1 | exact Ehd]).
  - pose proof Ho as [H0 (p & Hp & (Ht & Hi & Hpar) & Hok & Hsz & <- & Hx & -> & -> & <-)]. rewrite Hp in Ehd. injection Ehd as <-.
    unfold IsLeafPage. rewrite Ht, bool_decide_eq_true_2 by done.
    exists f, (ps1 ++ [(pid, f)]), t1. rewrite fmap_app. split; [done|]. split; [done|].
    exists pid, ps1, p, parent, lo, hi, ML, MR, Fc, path, (Leaf.next_page_id_ p).
    repeat (split; [done|]). exact Hkp1.
  - destruct (own_descend _ _ _ _ _ _ _ _ _ _ _ _ key Ho Hk Hkr _ _ _ _ _ _ Hc) as
      (p & c & lo' & hi' & ml & m' & mr & F1 & F2 & f' & n' & Hp & (Ht & Hi & Hpar) & Hsz & Hlk & Hkr' & Ho' & Hc' & -> & HP).
    rewrite Hp in Ehd. injection Ehd as <-. unfold IsLeafPage. rewrite Ht, bool_decide_eq_false_2 by done.
    erewrite bind_ok by (eapply (step_read as_internal _ _ _ _ _ pid f); [exact H1 | exact Hin1 | by rewrite Hp]).
    rewrite Hlk, (bind_ok (lift _) _ t1 c t1) by done.
    assert (Hnd' : NoDup (F1 ++ F2)) by (by rewrite HP).
    assert (Hc0 : c ∉ pid :: path).
    { intros Hin. apply NoDup_app in Hnd' as (_ & Hd & _). apply (Hd c (proj2 (own_pid _ _ _ _ _ _ _ _ _ _ _ _ Ho'))).
      exact (ctx_path_sub _ _ _ _ _ _ _ _ _ _ _ _ _ _ _ _ Hc' c Hin). }
    assert (Hcps : c ∉ (ps1 ++ [(pid, f)]).*1) by (destruct Hps1; set_solver).
    assert (Hlen : (length (ps1 ++ [(pid, f)]) <= S (length path))%nat).
    { rewrite <- (length_fmap Datatypes.fst). apply (nodup_sub_length _ (pid :: path)); apply Hps1. }
    pose proof (size_pin_all (ps1 ++ [(pid, f)])) as Hsp.
    destruct (same_conf _ _ S1) as [(_ & _ & _ & C1) _].
    destruct (own_pages _ _ _ _ _ _ _ _ _ _ _ _ Ho' c (proj2 (own_pid _ _ _ _ _ _ _ _ _ _ _ _ Ho'))) as [Hcpos Hcn].
    destruct (w_fetch t1 pg _ _ c H1) as (fc & t2 & E2 & H2 & S2 & HL); [rewrite lookup_pin_all_ne by done; done | lia | done | done |].
    rewrite (bind_ok _ _ _ _ _ E2). rewrite pin_all_insert in H2 by done.
    change (<[c := (fc, 1)]> ∅) with (pin_all [(c, fc)] ∅) in H2. rewrite <- pin_all_app in H2. apply latch_all_None in HL.
    destruct (same_conf _ _ S2) as [(_ & _ & _ & C2) _].
    destruct (IH fuel t2 pg (ps1 ++ [(pid, f)]) c fc pid lo' hi' m' F1 f' n' (ML ++ ml) (mr ++ MR) F2 (pid :: path) root HT key) as
      (fl & ps' & t3 & E3 & S3 & Hat); auto.
    { lia. }
    { by rewrite (kept_same _ _ _ _ _ S2). }
    { simpl. lia. }
    exists fl, ps', t3. rewrite fmap_app in E3. split; [exact E3|]. split; [by eapply same_tree_trans; [|eapply same_tree_trans]|].
    destruct Hat as (pl & ps0 & pp & par & l0 & h0 & ML0 & MR0 & Fc0 & pa & nx0 & A1 & A2 & A3 & A4 & A5 & A6 & A7 & A8 & A9 & A10).
    exists pl, ps0, pp, par, l0, h0, ML0, MR0, Fc0, pa, nx0. rewrite <- HP. repeat (split; [done|]).
    split; [|by split]. rewrite <- A8, <- !app_assoc. done.
Qed.

(** From the root. *)
Lemma find_leaf_page op t pg h m F fst key : op <> OpRead -> tidle t pg -> key_wf key -> (h < slots t)%nat ->
  owns pg h INVALID_PAGE_ID (tree_root t) (-1) key_top m F fst INVALID_PAGE_ID -> NoDup F ->
  exists fl ps t', FindLeafPageRW key false op t = (Ok (fl, ps.*2), t') /\ same_tree t t' /\
    at_leaf op t' pg key m F (tree_root t) h fl ps.
Proof.
  intros Hop HS Hk Hsl Ho Hnd. destruct (own_pid _ _ _ _ _ _ _ _ _ _ _ _ Ho) as [Hr0 HrF].
  assert (HS' : whold t pg ∅ ∅) by (unfold whold; by rewrite dom_empty_L).
  destruct (w_fetch t pg ∅ ∅ (tree_root t) HS') as (f & t1 & E1 & H1 & S1 & _);
    [done | rewrite map_size_empty; lia | done | by apply (own_pages _ _ _ _ _ _ _ _ _ _ _ _ Ho) |].
  destruct (same_conf _ _ S1) as [(R1 & _ & _ & Sl1) _].
  pose proof (tree_fuel_enough t _ _ _ _ _ _ _ _ HS (own_rep _ _ _ _ _ _ _ _ _ _ _ _ Ho)) as Hfuel.
  destruct (find_leaf_write op h Hop (tree_fuel t) t1 pg [] (tree_root t) f INVALID_PAGE_ID (-1) key_top m F fst INVALID_PAGE_ID [] [] [] []
    (tree_root t) h key) as (fl & ps & t2 & E2 & S2 & Hat); auto.
  { pose proof (key_num_range key Hk). lia. }
  { constructor. }
  { by rewrite app_nil_r. }
  { split; [constructor.. | done]. }
  { set_solver. }
  { simpl. lia. }
  rewrite !app_nil_r, app_nil_l in Hat. exists fl, ps, t2. split; [|split; [by eapply same_tree_trans | done]].
  unfold FindLeafPageRW. rewrite (bind_ok get _ t t t), (bind_ok _ _ _ _ _ E1) by done. exact E2.
Qed.

(** An insertion has what a split may reach. *)
Lemma kept_climb t pg path H : sizes_ok lmax imax t -> (forall q, q ∈ kept OpInsert t pg path -> is_Some (H !! q)) ->
  (forall q p, q ∈ path -> pg q = InternalImage p -> page_type_ (Internal.header p) = InternalPage) -> climb imax pg path H.
Proof.
  intros Hso. induction path as [|q path IH]; intros HK Hty; [done|]. simpl in *. split; [apply HK; set_solver|].
  intros p Hp Hfull. apply IH; [|set_solver]. intros x Hx. apply HK. unfold page_safe. rewrite Hp. simpl.
  rewrite (MaxSize_internal lmax imax) by (done || (eapply Hty; [|done]; set_solver)).
  unfold Internal.GetSize in Hfull. destruct (Z.ltb_spec (size_ (Internal.header p)) imax); [lia | set_solver].
Qed.

End Descent.

(** ** Insert *)
Section InsertOk.

Context (lmax imax : Z).
Abbreviation owns := (own lmax imax).
Implicit Types (t : BPlusTree) (pg : Z -> page_image) (ps : list (Z * Z)).

(** The tree object [t] has a tree of height [h] with contents [m] on the pages
    [F] (an empty tree has no pages). *)
Definition tree_own t pg (h : nat) (m : list (bytes * RID)) (F : list Z) : Prop :=
  (tree_root t = INVALID_PAGE_ID /\ m = [] /\ F = [] /\ h = 0%nat) \/
  (NoDup F /\ exists fst, owns pg h INVALID_PAGE_ID (tree_root t) (-1) key_top m F fst INVALID_PAGE_ID).

Lemma tree_own_has t pg h m F : tree_own t pg h m F -> tree_has t pg m.
Proof. intros [(? & -> & _)|(_ & fst & Ho)]; [by left | right; exists h; by eapply own_rep]. Qed.

Lemma tree_own_ok t pg h m F : tree_own t pg h m F -> entries_ok m.
Proof. intros [(_ & -> & _)|(_ & fst & Ho)]; [apply entries_nil | by eapply tree_rep_ok, own_rep]. Qed.

(** The outcome of an insertion: new contents, pages allocated by this call
    only, and no other page touched. *)
Definition inserted t pg (h : nat) m F key v t' pg' : Prop :=
  exists h' m' F', tree_own t' pg' h' m' F' /\ to_map m' = <[key := v]> (to_map m) /\
    F ⊆ F' /\ (forall q, q ∈ F' -> q ∈ F \/ allocated t <= q) /\
    (forall q, q ∉ F -> q < allocated t -> pg' q = pg q) /\ sizes_ok lmax imax t' /\ slots t' = slots t /\
    (allocated t <= allocated t' <= allocated t + Z.of_nat h + 2).

Lemma grown_inserted t pg t' pg' F m m' n h key v : grown lmax imax t pg t' pg' F m' n -> sizes_ok lmax imax t -> (n <= S (S h))%nat ->
  to_map m' = <[key := v]> (to_map m) -> inserted t pg h m F key v t' pg'.
Proof.
  intros (h' & fst & F' & Ho & Hnd & Hsub & Hnew & Hpg & A & B & C & D) [S1 S2 S3 S4] Hn Hm.
  exists h', m', F'. split; [right; by split; [|eauto]|]. repeat (split; [done|]). split; [split; [congruence..|done|done]|]. split; [done|lia].
Qed.

(** The first entry makes a leaf the root. *)
Lemma start_new_tree_ok t pg key v : tidle t pg -> sizes_ok lmax imax t -> key_wf key -> (1 <= slots t)%nat -> allocated t < MAX_PAGES ->
  exists t' pg', StartNewTree key v t = (Ok tt, t') /\ tidle t' pg' /\ inserted t pg 0 [] [] key v t' pg'.
Proof.
  intros HS Hso Hk Hsl Hmax. assert (HS' : whold t pg ∅ ∅) by (unfold whold; by rewrite dom_empty_L).
  destruct (w_new t pg ∅ ∅ HS' ltac:(rewrite map_size_empty; lia) Hmax) as (f & t1 & E1 & H1 & Hz & _ & HL & C1 & A1).
  set (r := allocated t) in *. assert (Hr : (<[r := (f, 1)]> ∅ : gmap Z (Z * Z)) !! r = Some (f, 1)) by apply lookup_insert_eq.
  unfold StartNewTree. rewrite (bind_ok _ _ _ _ _ E1).
  erewrite bind_ok by (eapply (step_page_id _ _ _ _ _ r f 1); [exact H1 | exact Hr]).
  set (t1' := SetRootPageId r t1). rewrite (bind_ok (modify _) _ t1 tt t1') by done.
  assert (H1' : whold t1' pg (<[r := (f, 1)]> ∅) ∅) by exact H1.
  rewrite (bind_ok get _ t1' t1' t1') by done.
  erewrite bind_ok by (eapply (step_read as_leaf _ _ _ _ _ r f); [exact H1' | exact Hr | by rewrite Hz]).
  set (z := Leaf.Init r INVALID_PAGE_ID (i32 (leaf_max_size_ t1')) (Leaf.mkLeaf zero_header 0 [])).
  destruct (Init_ok r INVALID_PAGE_ID (i32 (leaf_max_size_ t1')) (Leaf.mkLeaf zero_header 0 [])) as [Hzo Hze]. fold z in Hzo, Hze.
  destruct (Insert_ok z key v Hzo Hk) as [Ho Hm]; [by rewrite Hze|]. destruct (Insert_entries z key v Hzo Hk) as [Hs He].
  rewrite Hze, take_nil, drop_nil in He. rewrite Hze in Hm.
  destruct (w_write t1' pg _ ∅ r f 1 (LeafImage (Leaf.Insert key v z)) H1' Hr) as (t2 & E2 & H2 & S2).
  unfold put_leaf, write_leaf. rewrite (bind_ok _ _ _ _ _ E2).
  destruct (w_unpin t2 _ _ ∅ r f 1 H2 Hr) as (t3 & E3 & H3 & S3); [done|]. rewrite decide_True, delete_insert_id in H3 by done.
  exists t3. eexists. split; [exact E3|]. split; [unfold tidle, idle; unfold whold in H3; by rewrite dom_empty_L in H3|].
  destruct (same_conf _ _ (same_tree_trans _ _ _ S2 S3)) as [C3 A3]. change (allocated t1') with (allocated t1) in A3.
  assert (Hr0 : 0 <= r) by (destruct (hold_frame _ _ _ _ _ _ _ _ _ H1 Hr) as (_ & ? & _); lia).
  exists 0%nat, [(key, v)], [r]. split; [|split; [done|]].
  { right. split; [apply NoDup_singleton|]. exists r. replace (tree_root t3) with r by (by destruct C3 as [-> _]). split; [done|].
    exists (Leaf.Insert key v z). split; [by rewrite fn_lookup_insert|]. split; [done|]. split; [done|].
    split; [rewrite Hs; change (Leaf.GetSize z) with 0; destruct Hso as [So1 _ So3 _]; split; [lia|];
      simpl; destruct C1 as (_ & C1 & _); rewrite C1, So1; apply i32_small; lia|]. split; [done|]. split; [|done].
    intros x ->%list_elem_of_singleton. simpl. pose proof (key_num_range key Hk). lia. }
  split; [set_solver|]. split; [intros q Hq%list_elem_of_singleton; right; lia|]. split; [intros q _ Hq; rewrite fn_lookup_insert_ne; [done | lia]|].
  split; [eapply (sizes_conf _ _ t1'); [|exact C3]; destruct Hso, C1 as (_ & ? & ? & _); split; simpl; congruence || done|].
  destruct C1 as (_ & _ & _ & C1), C3 as (_ & _ & _ & C3). change (slots t1') with (slots t1) in C3. lia.
Qed.

Lemma path_fuel t pg H L h parent pid lo hi ML MR Fc path f n root HT : whold t pg H L ->
  own_ctx lmax imax pg h parent pid lo hi ML MR Fc path f n root HT -> NoDup Fc -> (length path < tree_fuel t)%nat.
Proof.
  intros HS Hc Hnd. enough (length path <= Z.to_nat (allocated t))%nat by (unfold tree_fuel, allocated in *; lia).
  apply NoDup_bounded; [by eapply ctx_path_nodup|]. intros q Hq.
  pose proof (ctx_path_sub _ _ _ _ _ _ _ _ _ _ _ _ _ _ _ _ Hc q Hq) as HqF.
  pose proof (fresh_page _ _ _ _ Fc HS (ctx_pages _ _ _ _ _ _ _ _ _ _ _ _ _ _ _ _ Hc) q HqF).
  destruct (ctx_pages _ _ _ _ _ _ _ _ _ _ _ _ _ _ _ _ Hc q HqF). lia.
Qed.

(** The leaf found is where the key is, or where it belongs. *)
Lemma at_leaf_lookup op t pg key m F root HT fl ps : key_wf key -> at_leaf lmax imax op t pg key m F root HT fl ps ->
  exists pl p, pg pl = LeafImage p /\ leaf_ok p /\ pin_all ps ∅ !! pl = Some (fl, 1) /\ entries_ok m /\
    to_map m !! key = to_map (leaf_entries p) !! key.
Proof.
  intros Hk (pl & ps0 & p & parent & lo & hi & ML & MR & Fc & path & nx & -> & HS & Hps & Hp & Hkr & Ho & Hc & -> & HP & _).
  exists pl, p. pose proof Ho as [_ (p' & Hp' & _ & Hok & _)]. assert (p' = p) as -> by congruence.
  destruct (plug _ _ _ _ _ _ _ _ _ _ _ _ _ _ _ _ _ _ Hc Ho) as (fst & F' & Hown & _). apply own_rep, tree_rep_ok in Hown.
  destruct (ctx_range _ _ _ _ _ _ _ _ _ _ _ _ _ _ _ _ Hc) as [R1 R2].
  split; [done|]. split; [done|]. split; [|split; [done|]].
  - rewrite pin_all_app, lookup_pin_all_ne; [apply lookup_insert_eq|]. destruct Hps as [N1 _ _].
    rewrite fmap_app in N1. apply NoDup_app in N1 as (_ & Hd & _). intros Hin. apply (Hd pl Hin). set_solver.
  - apply to_map_middle; [done | |]; intros ([k v] & -> & Hin)%list_elem_of_fmap; [specialize (R1 _ Hin) | specialize (R2 _ Hin)]; simpl in *; lia.
Qed.

(** Writing the entry into the leaf and, when the leaf is full, splitting it. *)
Lemma insert_at_leaf t pg key v m F root HT fl ps p : at_leaf lmax imax OpInsert t pg key m F root HT fl ps ->
  key_wf key -> sizes_ok lmax imax t -> tree_root t = root -> NoDup F -> to_map m !! key = None ->
  on_pool (read_as as_leaf fl) t = (Ok p, t) ->
  (2 * HT + 4 <= slots t)%nat -> allocated t + Z.of_nat HT + 1 < MAX_PAGES ->
  exists t' pg', (put_leaf fl (Leaf.Insert key v p);;;
      let* h := node_header fl in let* max_size := gets (MaxSize h) in
      when (size_ h =? max_size + 1)
        (let* new_leaf_page := Split fl in let* new_leaf := leaf_at new_leaf_page in
         InsertIntoParent fl (Leaf.KeyAt 0 new_leaf) new_leaf_page;;;
         let* nh := node_header new_leaf_page in unpin (page_id_ nh) true)) t = (Ok tt, t') /\
    whold t' pg' (pin_all ps ∅) (latch_all OpInsert ps ∅) /\
    inserted t pg HT m F key v t' pg'.
Proof.
  intros Hat Hk Hso Hroot Hnd Hno Hread Hsl Hmax. destruct (at_leaf_lookup _ _ _ _ _ _ _ _ _ _ Hk Hat) as (pl0 & p0 & Hp0 & Hok & Hpin0 & Hmok & Hlk).
  destruct Hat as (pl & ps0 & p' & parent & lo & hi & ML & MR & Fc & path & nx & Eps & HS & Hps & Hp & Hkr & Ho & Hc & Hm & HP & Hcl).
  assert (Hpl : pin_all ps ∅ !! pl = Some (fl, 1)).
  { rewrite Eps, pin_all_app, lookup_pin_all_ne; [apply lookup_insert_eq|]. destruct Hps as [N1 _ _]. rewrite Eps, fmap_app in N1.
    apply NoDup_app in N1 as (_ & Hd & _). intros Hin. apply (Hd pl Hin). set_solver. }
  assert (pl0 = pl) as -> by (by eapply (hold_frame_inj Zeroed); [exact HS|..]).
  assert (p0 = p') as -> by congruence.
  assert (p = p') as ->.
  { erewrite (step_read as_leaf _ _ _ _ _ pl fl) in Hread; [|exact HS|exact Hpl|by rewrite Hp]. by injection Hread. }
  set (H := pin_all ps ∅) in *. set (L := latch_all OpInsert ps ∅) in *.
  pose proof (ctx_length _ _ _ _ _ _ _ _ _ _ _ _ _ _ _ _ Hc) as HHT. simpl in HHT.
  pose proof Ho as [Hpl0 (p0 & Hp0' & Hh & _ & Hsz & _ & Hx & _ & _ & Hnx)]. assert (p0 = p') as -> by congruence. clear Hp0' Hp0.
  set (p1 := Leaf.Insert key v p') in *.
  assert (Hno' : to_map (leaf_entries p') !! key = None) by congruence.
  destruct (Insert_ok p' key v Hok Hk Hno') as [Hok1 Hm1]. destruct (Insert_entries p' key v Hok Hk) as [Hs1 He1]. fold p1 in Hok1, Hm1, Hs1, He1.
  assert (Hx1 : forall x, x ∈ leaf_entries p1 -> lo <= key_num x.1 < hi).
  { intros x. rewrite He1, elem_of_app, elem_of_cons. intros Hin. destruct Hin as [Hin|[->|Hin]]; [|exact Hkr|];
      apply Hx; rewrite <- (take_drop (Leaf.KeyIndex key p') (leaf_entries p')); apply elem_of_app; auto. }
  assert (Hh1 : node_hdr LeafPage (Leaf.header p1) parent pl) by exact Hh.
  destruct (w_write t pg H L pl fl 1 (LeafImage p1) HS Hpl) as (t1 & E1 & H1 & S1). set (pg1 := <[pl := LeafImage p1]> pg) in *.
  assert (Hp1 : pg1 pl = LeafImage p1) by apply fn_lookup_insert.
  unfold put_leaf, write_leaf. rewrite (bind_ok _ _ _ _ _ E1).
  erewrite bind_ok by (eapply (step_read as_header _ _ _ _ _ pl fl); [exact H1 | exact Hpl | by rewrite Hp1]).
  destruct (same_conf _ _ S1) as [C1 A1]. pose proof (sizes_conf _ _ _ _ Hso C1) as Hso1.
  rewrite (bind_ok (gets _) _ t1 (lmax - 1) t1) by (unfold gets; rewrite (MaxSize_leaf lmax imax) by (done || apply Hh1); done).
  rewrite <- HP in Hnd. pose proof Hnd as [HplF HndF]%NoDup_cons.
  assert (HcF : forall q, q ∈ Fc -> pg1 q = pg q) by (intros q Hq; unfold pg1; rewrite fn_lookup_insert_ne; [done|intros ->; done]).
  pose proof (ctx_frame _ _ pg pg1 _ _ _ _ _ _ _ _ _ _ _ _ _ HcF Hc) as Hc1.
  assert (Hroot1 : root = tree_root t1) by (destruct C1 as [C1 _]; congruence).
  fold (Leaf.GetSize p1). rewrite Hs1.
  destruct (Z.eqb_spec (Leaf.GetSize p' + 1) (lmax - 1 + 1)) as [Efull|Enot]; cbn [when].
  - assert (Hcl' : climb imax pg path H).
    { apply (kept_climb lmax imax t pg path H Hso).
      - intros q Hq. apply pin_all_is_Some. left. rewrite Hcl, elem_of_reverse. simpl. apply elem_of_cons. right.
        unfold page_safe. rewrite Hp. simpl. rewrite (MaxSize_leaf lmax imax) by (done || apply Hh). fold (Leaf.GetSize p').
        destruct (Z.ltb_spec (Leaf.GetSize p') (lmax - 1)); [lia | done].
      - intros q p0 Hq Hp0. exact (ctx_path_type _ _ _ _ _ _ _ _ _ _ _ _ _ _ _ _ _ _ Hc Hq Hp0). }
    assert (HszH : (size H <= S HT)%nat).
    { pose proof (size_pin_all ps). pose proof (nodup_sub_length _ _ (ps_pids _ _ Hps) (ps_path _ _ Hps)) as Hl.
      rewrite length_fmap in Hl. simpl in Hl. unfold H. lia. }
    pose proof C1 as (_ & _ & _ & C1s).
    destruct (split_leaf_ok lmax imax t1 pg1 H L pl fl 1 p1 parent lo hi H1 Hpl) as
      (r & t2 & pg2 & q & m1 & m2 & E2 & H2 & Hno2 & HLr & C2 & A2 & Hq & Hkw & Hkr2 & Ecat & O1 & O2 & Hpg2); auto; [lia | lia | lia | apply Hsz |].
    set (new := allocated t1) in *. pose proof C2 as (C2r & _ & _ & C2s).
    assert (Hnew : <[new := (r, 1)]> H !! new = Some (r, 1)) by apply lookup_insert_eq.
    assert (Hnpl : new <> pl) by (intros E; rewrite E in Hno2; congruence).
    assert (Hfr : forall x, x ∈ pl :: Fc -> x < new).
    { eapply fresh_page; [exact H1|]. intros x [->|Hx']%elem_of_cons; [by rewrite Hp1 | by eapply ctx_pages]. }
    assert (HcF2 : forall x, x ∈ Fc -> pg2 x = pg1 x).
    { intros x Hx'. apply Hpg2; [intros ->; done|]. specialize (Hfr x ltac:(set_solver)). lia. }
    pose proof (ctx_frame _ _ pg1 pg2 _ _ _ _ _ _ _ _ _ _ _ _ _ HcF2 Hc1) as Hc2.
    destruct (insert_into_parent_ok lmax imax path (tree_fuel t2) t2 pg2 (<[new := (r, 1)]> H) L pl fl 1 new r 1 (Leaf.KeyAt 0 q) 0%nat parent lo hi
      ML MR Fc pl nx root HT m1 m2 [pl] [new] new) as (t3 & pg3 & E3 & H3 & Hgr); auto.
    { by rewrite lookup_insert_ne. }
    { by eapply sizes_conf. }
    { congruence. }
    { rewrite <- Hnx. exact O2. }
    { specialize (Hfr pl ltac:(set_solver)). lia. }
    { simpl. constructor; [|constructor; [|done]]; [set_solver|]. intros Hin. specialize (Hfr new ltac:(set_solver)). lia. }
    { eapply (climb_mono _ pg); [| |exact Hcl'].
      - intros x Hx'. pose proof (ctx_path_sub _ _ _ _ _ _ _ _ _ _ _ _ _ _ _ _ Hc x Hx'). by rewrite HcF2, HcF.
      - intros x [y Hx']. destruct (decide (x = new)) as [->|]; [rewrite lookup_insert_eq; eauto | rewrite lookup_insert_ne; eauto]. }
    { rewrite map_size_insert_None by done. lia. }
    { lia. }
    { by eapply path_fuel. }
    pose proof Hgr as (hr & fr & FR & W1 & _ & W3 & _).
    destruct (own_page_id _ _ _ _ _ _ _ _ _ _ _ _ W1 new) as (hn & Ehn & Ein); [apply W3; set_solver|].
    destruct (w_unpin t3 pg3 _ L new r 1 H3 Hnew) as (t4 & E4 & H4 & S4); [done|].
    rewrite decide_True, delete_insert_id in H4 by done. exists t4, pg3. split; [|split; [exact H4|]].
    { rewrite (bind_ok _ _ _ _ _ E2).
      erewrite bind_ok by (eapply (step_read as_leaf _ _ _ _ _ new r); [exact H2 | exact Hnew | by rewrite Hq]).
      erewrite bind_ok by (unfold InsertIntoParent; rewrite (bind_ok get _ t2 t2 t2) by done; exact E3).
      erewrite bind_ok by (eapply (step_read as_header _ _ _ _ _ new r); [exact H3 | exact Hnew | exact Ehn]).
      rewrite Ein. exact E4. }
    rewrite Ecat in *. pose proof (tree_rep_ok _ _ _ _ _ (own_rep _ _ _ _ _ _ _ _ _ _ _ _ W1)) as Hok3.
    eapply (grown_inserted _ _ _ _ _ _ (ML ++ leaf_entries p1 ++ MR)); [|done|reflexivity|rewrite Hm in *; by apply to_map_replace].
    rewrite HHT.
    eapply grown_same; [|exact S4].
    eapply (grown_weaken _ _ t pg t2 pg2 _ _ _ _ _ _ (S (S (length path))) Hgr); [left; by eapply conf_trans | lia | lia | | |].
    + rewrite <- HP. set_solver.
    + intros x Hx'. destruct (decide (x = new)) as [->|]; [right; lia | left]. rewrite <- HP. set_solver.
    + intros x Hx' Hlt. rewrite <- HP in Hx'. rewrite Hpg2; [|set_solver|lia]. unfold pg1. rewrite fn_lookup_insert_ne; [done|set_solver].
  - exists t1, pg1. split; [done|]. split; [exact H1|].
    assert (Ho1 : owns pg1 0 parent pl lo hi (leaf_entries p1) [pl] pl nx).
    { split; [done|]. exists p1. repeat (split; [done|]). split; [split; [lia | apply Hsz]|]. repeat (split; [done|]). exact Hnx. }
    destruct (plug _ _ _ _ _ _ _ _ _ _ _ _ _ _ _ _ _ _ Hc1 Ho1) as (fst & F' & Hown & _). apply own_rep, tree_rep_ok in Hown.
    eapply (grown_inserted _ _ _ _ _ _ (ML ++ leaf_entries p1 ++ MR) 0); [|done|lia|].
    + eapply grown_plug; [rewrite <- Hroot1; exact Hc1 | exact Ho1 | done | done | done |].
      intros x Hx'. unfold pg1. rewrite fn_lookup_insert_ne; [done|]. intros E. apply Hx'. rewrite <- HP, E. set_solver.
    + rewrite Hm in *. by apply to_map_replace.
Qed.

(** Three steps and a last one, then the rest. *)
Lemma bind_prefix {S A B C D E} (m1 : M S A) (m2 : A -> M S B) (m3 : A -> B -> M S C) (m4 : A -> B -> C -> M S D) (k : D -> M S E) s d s' :
  bind m1 (fun a => bind (m2 a) (fun b => bind (m3 a b) (fun c => m4 a b c))) s = (Ok d, s') ->
  bind m1 (fun a => bind (m2 a) (fun b => bind (m3 a b) (fun c => bind (m4 a b c) k))) s = k d s'.
Proof.
  unfold bind. destruct (m1 s) as [[a|e] s1]; [|done]. destruct (m2 a s1) as [[b|e] s2]; [|done].
  destruct (m3 a b s2) as [[c|e] s3]; [|done]. by intros ->.
Qed.

Lemma w_release_all op t pg ps path : op <> OpRead -> pageset ps path -> whold t pg (pin_all ps ∅) (latch_all op ps ∅) ->
  exists t', UnlatchAndUnpin op ps.*2 t = (Ok tt, t') /\ tidle t' pg /\ same_tree t t'.
Proof.
  intros Hop [N1 N2 _] HS. destruct (w_unlatch op ps t pg ∅ ∅ Hop N1 N2) as (t' & E & H' & S); auto.
  exists t'. by split_and!.
Qed.

Lemma inserted_same t pg h m F key v t1 t2 pg' : inserted t pg h m F key v t1 pg' -> same_tree t1 t2 -> inserted t pg h m F key v t2 pg'.
Proof.
  intros (h' & m' & F' & Ho & Hm & A & B & C & D & E & G) S. destruct (same_conf _ _ S) as [C' A']. pose proof C' as (R & _ & _ & Sl).
  exists h', m', F'. split; [unfold tree_own in *; by rewrite R|]. repeat (split; [done|]). split; [by eapply sizes_conf|]. lia.
Qed.

Lemma insert_ok t pg h m F key v : tidle t pg -> sizes_ok lmax imax t -> tree_own t pg h m F -> key_wf key ->
  (2 * h + 4 <= slots t)%nat -> allocated t + Z.of_nat h + 1 < MAX_PAGES ->
  exists t' pg', Insert key v t = (Ok (bool_decide (to_map m !! key = None)), t') /\ tidle t' pg' /\
    match to_map m !! key with
    | Some _ => pg' = pg /\ same_tree t t'
    | None => inserted t pg h m F key v t' pg'
    end.
Proof.
  intros HS Hso Hown Hk Hsl Hmax. unfold Insert, InsertIntoLeaf. rewrite (bind_ok get _ t t t) by done. unfold IsEmpty.
  destruct Hown as [(Hr & -> & -> & ->)|(Hnd & fst & Ho)].
  { rewrite Hr, Z.eqb_refl. change (to_map [] !! key) with (None (A := RID)).
    destruct (start_new_tree_ok t pg key v HS Hso Hk ltac:(lia) ltac:(lia)) as (t' & pg' & E & HS' & Hin).
    exists t', pg'. rewrite (bind_ok _ _ _ _ _ E). by split_and!. }
  destruct (own_pid _ _ _ _ _ _ _ _ _ _ _ _ Ho) as [Hr0 HrF].
  destruct (Z.eqb_spec (tree_root t) INVALID_PAGE_ID) as [E|_]; [unfold INVALID_PAGE_ID in E; lia|].
  destruct (find_leaf_page lmax imax OpInsert t pg h m F fst key) as (fl & ps & t2 & E2 & S2 & Hat); auto; [lia|].
  destruct (same_conf _ _ S2) as [C2 A2]. pose proof C2 as (R2 & _ & _ & Sl2).
  rewrite (bind_ok _ _ _ _ _ E2). cbv beta iota.
  destruct (at_leaf_lookup _ _ _ _ _ _ _ _ _ _ Hk Hat) as (pl & p & Hp & Hok & Hpin & Hmok & Hlk).
  pose proof Hat as (pl' & ps0 & p' & _ & _ & _ & _ & _ & _ & path & _ & _ & H2 & Hps & _).
  assert (Hread : on_pool (read_as as_leaf fl) t2 = (Ok p, t2)) by (eapply step_read; [exact H2 | exact Hpin | by rewrite Hp]).
  unfold leaf_at. rewrite (bind_ok _ _ _ _ _ Hread), Lookup_map, <- Hlk by done.
  destruct (to_map m !! key) as [v'|] eqn:Em.
  - destruct (w_release_all OpInsert t2 pg ps _ ltac:(done) Hps H2) as (t3 & E3 & H3 & S3). exists t3, pg. rewrite (bind_ok _ _ _ _ _ E3).
    split_and!; [done | done | done |]. by eapply same_tree_trans.
  - destruct (insert_at_leaf t2 pg key v m F (tree_root t) h fl ps p Hat Hk) as (t3 & pg3 & E3 & H3 & Hins); auto.
    { by eapply sizes_conf. }
    { lia. }
    { lia. }
    destruct (w_release_all OpInsert t3 pg3 ps _ ltac:(done) Hps H3) as (t4 & E4 & H4 & S4). exists t4, pg3. split; [|split; [done|]].
    + rewrite (bind_prefix _ _ _ _ _ _ _ _ E3), (bind_ok _ _ _ _ _ E4). done.
    + eapply inserted_same; [|exact S4]. destruct Hins as (h' & m' & F' & O & M' & G1 & G2 & G3 & G4 & G5 & G6).
      exists h', m', F'. split; [done|]. split; [done|]. split; [done|]. rewrite A2 in *. repeat (split; [done|]). split; [congruence | lia].
Qed.

End InsertOk.

(** ** Properties *)


(** A root of three full leaves: the next insertion splits a leaf and the root. *)
Definition linked_leaf (pid parent next : Z) (l : list (bytes * RID)) : page_image :=
  LeafImage (Leaf.mkLeaf (mkHeader LeafPage (Z.of_nat (length l)) 3 parent pid) next l).

Definition full_file : list page_image :=
  [linked_leaf 0 3 1 [entry 1; entry 2]; linked_leaf 1 3 2 [entry 3; entry 4]; linked_leaf 2 3 (-1) [entry 6; entry 7];
   internal_of 3 (-1) [(zero_key, 0); (KeyEncoder_int64 3, 1); (KeyEncoder_int64 6, 2)]].
Definition full_tree : BPlusTree := mkTree (Pool_new 6 full_file) 3 3 3.
Definition full_pages (q : Z) : page_image := load Zeroed (Z.to_nat q) full_file.
Definition full_entries : list (bytes * RID) := [entry 1; entry 2; entry 3; entry 4; entry 6; entry 7].

Lemma linked_leaf_own (pg : Z -> page_image) pid next l lo hi : 0 <= pid -> pg pid = linked_leaf pid 3 next l -> entries_ok l -> (length l <= 2)%nat ->
  (forall x, x ∈ l -> lo <= key_num x.1 < hi) -> own 3 3 pg 0 3 pid lo hi l [pid] pid next.
Proof.
  intros H0 Hp Hok Hlen Hx. split; [done|].
  exists (Leaf.mkLeaf (mkHeader LeafPage (Z.of_nat (length l)) 3 3 pid) next l). split; [exact Hp|].
  assert (He : leaf_entries (Leaf.mkLeaf (mkHeader LeafPage (Z.of_nat (length l)) 3 3 pid) next l) = l).
  { unfold leaf_entries, Leaf.GetSize. simpl. rewrite Nat2Z.id, cells_take, take_ge by lia. done. }
  split; [done|]. split; [split; [unfold Leaf.GetSize; simpl; lia | by rewrite He]|].
  split; [unfold Leaf.GetSize; simpl; lia|]. by repeat (split; [done|]).
Qed.

Ltac concrete_entries := constructor; repeat constructor.
Ltac concrete_range := intros x Hx; apply list_elem_of_In in Hx; simpl in Hx;
  repeat (destruct Hx as [<-|Hx]; [split; vm_compute; congruence|]); destruct Hx.

Lemma full_tree_own : tree_own 3 3 full_tree full_pages 1 full_entries [3; 0; 1; 2].
Proof.
  right. split; [apply (bool_decide_eq_true_1 _); vm_compute; reflexivity|]. exists 0. split; [done|].
  eexists _, [0; 1; 2]. split; [reflexivity|]. split; [done|].
  split; [split; [vm_compute; discriminate | concrete_entries]|]. split; [split; vm_compute; discriminate|]. split; [done|].
  exists [entry 1; entry 2], [entry 3; entry 4; entry 6; entry 7], [0], [1; 2], 1.
  split; [done|]. split; [done|]. split; [vm_compute; reflexivity|].
  split; [apply linked_leaf_own; [done | reflexivity | concrete_entries | simpl; lia | concrete_range]|].
  exists [entry 3; entry 4], [entry 6; entry 7], [1], [2], 2.
  split; [done|]. split; [done|]. split; [vm_compute; reflexivity|].
  split; [apply linked_leaf_own; [done | reflexivity | concrete_entries | simpl; lia | concrete_range]|].
  exists [entry 6; entry 7], [], [2], [], (-1).
  split; [done|]. split; [done|]. split; [vm_compute; reflexivity|].
  split; [apply linked_leaf_own; [done | reflexivity | concrete_entries | simpl; lia | concrete_range] | done].
Qed.

