(* ===== verification/BPlusTreeRemove.v ===== *)
(** * Removal from whole trees

    [Remove] descends like [Insert], takes the record out of its leaf and, when
    the leaf is left too small, merges it with a sibling. [local_removal] tells
    from the pages whether a removal ends there: it does not borrow (which leaks
    a pin), does not leave an inner node too small (where it can wait for its own
    latch) and does not make the last child the root (which frees a pinned
    frame). For these, [Remove] is deletion from a finite map. *)

From Stdlib Require Import Sorting.Sorted.
From stdpp Require Import functions.
From S2P Require Import Prelude KeyCodec Replacer BufferPool BufferPoolSpec PoolHold TreePages TreePagesSpec PageImage BPlusTree BPlusTreeSpec TreeOwn BPlusTreeInsert.
Open Scope Z_scope.

(** ** Steps of a thread that may latch what it does not pin *)
Section Steps.

Abbreviation pins_map := (gmap Z (Z * Z)).
Abbreviation latch_map := (gmap Z Latch.ReaderWriterLatch).
Implicit Types (t : BPlusTree) (pg : Z -> page_image) (H : pins_map) (L : latch_map).

Definition khold t pg H L : Prop := holding Zeroed (buffer_pool_manager_ t) pg H (dom H) L.
Definition tsits t (f q : Z) : Prop := sits (buffer_pool_manager_ t) f q.

(** The tree object is the same, and every frame holds the page it did. *)
Definition still t t' : Prop := same_tree t t' /\ forall f q, tsits t f q -> tsits t' f q.

Lemma still_trans t1 t2 t3 : still t1 t2 -> still t2 t3 -> still t1 t3.
Proof. intros [S1 K1] [S2 K2]. split; [by eapply same_tree_trans | auto]. Qed.

Lemma holding_weaken s pg H W W' L : holding Zeroed s pg H W L -> W ⊆ W' -> holding Zeroed s pg H W' L.
Proof. intros [I Hl Hv Hh Hf Hc HL] Hsub. constructor; auto. intros q p Hq. apply Hc. set_solver. Qed.

Lemma k_of_w t pg H L : whold t pg H L -> khold t pg H L.
Proof. by intros [HS _]. Qed.

Lemma still_step {A} (m : M Pool A) t a s' : keeps page_ids m -> m (buffer_pool_manager_ t) = (Ok a, s') ->
  same_dims (buffer_pool_manager_ t) s' -> still t (set_pool s' t).
Proof. intros K E D. split; [by apply same_tree_set|]. intros f q. by apply (sits_keeps m _ _ _ f q K E). Qed.

Lemma k_read {A} (cast : page_image -> result A) t pg H L pid f n x :
  khold t pg H L -> H !! pid = Some (f, n) -> cast (pg pid) = Ok x -> on_pool (read_as cast f) t = (Ok x, t).
Proof.
  intros HS Hin Hc. destruct (holding_get Zeroed _ _ _ _ _ _ _ _ HS Hin) as [E _].
  erewrite on_pool_ok; cycle 1; [unfold read_as; rewrite (bind_ok _ _ _ _ _ E), Hc; reflexivity|]. by destruct t.
Qed.

Lemma k_page_id t f q : tsits t f q -> on_pool (GetPageId f) t = (Ok q, t).
Proof. intros Hs. erewrite on_pool_ok by (by apply sits_page_id). by destruct t. Qed.

Lemma k_write t pg H L pid f n x : khold t pg H L -> H !! pid = Some (f, n) ->
  exists t', on_pool (write_data f x) t = (Ok tt, t') /\ khold t' (<[pid := x]> pg) H L /\ still t t'.
Proof.
  intros HS Hin. destruct (holding_write Zeroed _ _ _ _ _ _ _ _ x HS Hin) as (s' & E & HS' & D).
  exists (set_pool s' t). split; [by apply on_pool_ok|]. split.
  - eapply holding_weaken; [exact HS'|]. apply elem_of_dom_2 in Hin. set_solver.
  - eapply still_step; [apply (write_data_page_ids f x) | exact E | exact D].
Qed.

Lemma k_unpin t pg H L pid f n : khold t pg H L -> H !! pid = Some (f, n) ->
  exists t', unpin pid true t = (Ok tt, t') /\
    khold t' pg (if decide (n = 1) then delete pid H else <[pid := (f, n - 1)]> H) L /\ still t t'.
Proof.
  intros HS Hin. destruct (holding_unpin Zeroed _ _ _ _ _ _ _ _ true HS Hin) as (s' & E & HS' & D); [by left|].
  exists (set_pool s' t). unfold unpin. rewrite (bind_ok _ _ _ _ _ (on_pool_ok _ _ _ _ E)). split; [done|]. split.
  - eapply holding_weaken; [exact HS'|]. case_decide; set_solver.
  - eapply still_step; [apply (unpin_page_ids pid true) | exact E | exact D].
Qed.

Lemma k_unpin_again t pg H L pid : khold t pg H L -> H !! pid = None ->
  exists t', unpin pid true t = (Ok tt, t') /\ khold t' pg H L /\ still t t'.
Proof.
  intros HS Hno. destruct (holding_unpin_again Zeroed _ _ _ _ _ pid HS Hno) as (s' & E & HS' & D).
  exists (set_pool s' t). unfold unpin. rewrite (bind_ok _ _ _ _ _ (on_pool_ok _ _ _ _ E)). split; [done|]. split; [exact HS'|].
  eapply still_step; [apply (unpin_page_ids pid true) | exact E | exact D].
Qed.

Lemma k_unlatch t pg H L f q : khold t pg H L -> tsits t f q -> L !! f = Some (Latch.mkLatch 0 true) ->
  exists t', on_pool (WUnlatch f) t = (Ok tt, t') /\ khold t' pg H (delete f L) /\ still t t'.
Proof.
  intros HS Hs HL. destruct (holding_unlatch Zeroed _ _ _ _ _ f q HS Hs HL) as (s' & E & HS' & D).
  exists (set_pool s' t). split; [by apply on_pool_ok|]. split; [exact HS'|].
  eapply still_step; [apply on_latch_page_ids | exact E | exact D].
Qed.

Lemma k_sits t pg H L pid f n : khold t pg H L -> H !! pid = Some (f, n) -> tsits t f pid.
Proof. apply holding_sits. Qed.

Lemma k_frame_ne t pg H L q1 q2 f1 f2 n1 n2 : khold t pg H L -> H !! q1 = Some (f1, n1) -> H !! q2 = Some (f2, n2) -> q1 <> q2 -> f1 <> f2.
Proof. intros HS H1 H2 Hne ->. apply Hne. by eapply (holding_frame_inj Zeroed). Qed.

(** Unpin a page for the last time, read its header and delete it. *)
Lemma k_drop t pg H L pid f hd : khold t pg H L -> H !! pid = Some (f, 1) -> as_header (pg pid) = Ok hd ->
  exists t1 t2 x, unpin pid true t = (Ok tt, t1) /\ node_header f t1 = (Ok hd, t1) /\ delete_page pid t1 = (Ok tt, t2) /\
    khold t2 (<[pid := x]> pg) (delete pid H) L /\ same_tree t t2 /\ tsits t2 f INVALID_PAGE_ID /\
    (forall g q, g <> f -> tsits t g q -> tsits t2 g q).
Proof.
  intros HS Hin Eh. destruct (holding_drop Zeroed _ _ _ _ _ _ _ HS Hin) as (s1 & s2 & x & E1 & E2 & E3 & H3 & Hs & D & K).
  exists (set_pool s1 t), (set_pool s2 t), x. split; [|split; [|split; [|split; [|split; [by apply same_tree_set | done]]]]].
  - unfold unpin. by rewrite (bind_ok _ _ _ _ _ (on_pool_ok _ _ _ _ E1)).
  - unfold node_header, on_pool, read_as. simpl. by rewrite (bind_ok _ _ _ _ _ E2), Eh.
  - unfold delete_page. rewrite (bind_ok (on_pool _) _ (set_pool s1 t) true (set_pool s2 t)); [done|]. unfold on_pool. simpl. by rewrite E3.
  - eapply holding_weaken; [exact H3|]. set_solver.
Qed.

End Steps.

(** ** The pages of a removal *)
Section Pages.

Context (lmax imax : Z).
Abbreviation owns := (own lmax imax).
Implicit Types (pg : Z -> page_image).

(** A leaf keeps its links and its header, the size aside. *)
Lemma RemoveAndDeleteRecord_page p k : leaf_ok p -> key_wf k ->
  let p1 := Leaf.RemoveAndDeleteRecord k p in
  Leaf.next_page_id_ p1 = Leaf.next_page_id_ p /\ Leaf.header p1 = SetSize (Leaf.GetSize p1) (Leaf.header p) /\
  (0 <= Leaf.GetSize p1 /\ Leaf.GetSize p - 1 <= Leaf.GetSize p1 <= Leaf.GetSize p) /\ leaf_entries p1 ⊆ leaf_entries p.
Proof.
  intros Hp Hk p1. pose proof (Remove_ok p k Hp Hk) as [[Hs1 Hok1] Hm]. fold p1 in Hs1, Hok1, Hm.
  assert (Hsub : leaf_entries p1 ⊆ leaf_entries p).
  { intros [k' v] Hin. apply to_map_Some in Hin; [|done]. rewrite Hm, lookup_delete_Some in Hin. apply to_map_Some; [apply Hp | apply Hin]. }
  unfold p1 in *. unfold Leaf.RemoveAndDeleteRecord in *. destruct (_ && _); [|destruct p as [[] ? ?]; split_and!; try done; unfold Leaf.GetSize in *; simpl in *; lia].
  unfold Leaf.GetSize in *. simpl in *. split_and!; try done; lia.
Qed.

Lemma own_remove pg parent pl lo hi p nx k : owns pg 0 parent pl lo hi (leaf_entries p) [pl] pl nx -> pg pl = LeafImage p -> key_wf k ->
  let p1 := Leaf.RemoveAndDeleteRecord k p in
  owns (<[pl := LeafImage p1]> pg) 0 parent pl lo hi (leaf_entries p1) [pl] pl nx.
Proof.
  intros [H0 (p' & Hp' & Hh & Hok & [Hsz Hmax] & _ & Hx & _ & _ & Hnx)] Hp Hk p1. assert (p' = p) as -> by congruence.
  destruct (RemoveAndDeleteRecord_page p k Hok Hk) as (En & Eh & Es & Esub). fold p1 in En, Eh, Es, Esub.
  split; [done|]. exists p1. split; [apply fn_lookup_insert|]. split; [by rewrite Eh|].
  split; [by apply Remove_ok|]. split; [rewrite Eh; split; [lia | done]|]. split; [done|].
  split; [intros x Hin; by apply Hx, Esub|]. split_and!; [done | done | congruence].
Qed.

Lemma MoveAllTo_header p r p' r' : Leaf.MoveAllTo p r = Ok (p', r') ->
  Leaf.header p' = SetSize (Leaf.GetSize p') (Leaf.header p) /\ Leaf.header r' = SetSize (Leaf.GetSize r') (Leaf.header r).
Proof. unfold Leaf.MoveAllTo, Leaf.CopyNFrom. case_match; [done|]. simpl. by intros [= <- <-]. Qed.

(** Going one node up: the subtree of the parent. *)
Lemma ctx_up pg h parent pid lo hi ML MR Fc q path f n root H m F :
  own_ctx lmax imax pg h parent pid lo hi ML MR Fc (q :: path) f n root H -> owns pg h parent pid lo hi m F f n ->
  parent = q /\ exists gp lo' hi' ML' MR' m' F' Fc' f' n' p l1 k l2,
    owns pg (S h) gp q lo' hi' m' F' f' n' /\ own_ctx lmax imax pg (S h) gp q lo' hi' ML' MR' Fc' path f' n' root H /\
    ML ++ m ++ MR = ML' ++ m' ++ MR' /\ (F' ++ Fc' ≡ₚ F ++ Fc) /\
    pg q = InternalImage p /\ internal_entries p = l1 ++ (k, pid) :: l2.
Proof.
  intros Hc Ho. inversion Hc; simplify_eq.
  match goal with
  | Hp : pg q = InternalImage ?p, He : internal_entries ?p = ?l1 ++ (?k, pid) :: ?l2, Hsz : 2 <= Internal.GetSize ?p <= imax,
    Hl : seg _ _ _ (bounds ?lo ?l1) ?ml ?Fl ?fst, Hr : seg _ ?hi ?nx (bnd <$> ?l2) ?mr ?Fr _,
    Hc' : own_ctx _ _ _ _ ?gp q _ _ ?ML ?MR ?F2 path _ _ _ _ |- _ =>
      split; [done|]; exists gp, lo, hi, ML, MR, (ml ++ m ++ mr), (q :: Fl ++ F ++ Fr), F2, fst, nx, p, l1, k, l2;
      split; [|split; [exact Hc'|]];
      [split; [done|]; exists p, (Fl ++ F ++ Fr); repeat (split; [done|]); rewrite He, bounds_app;
       apply seg_app; exists ml, (m ++ mr), Fl, (F ++ Fr), f; repeat (split; [done|]); exists m, mr, F, Fr, n; by split_and!|]
  end.
  split; [by rewrite <- !app_assoc|]. split; [|by split]. simpl. solve_Permutation.
Qed.

Lemma entries_drop {V} (l1 : list (bytes * V)) x l2 : entries_ok (l1 ++ x :: l2) -> entries_ok (l1 ++ l2).
Proof.
  intros (O1 & O2 & O3)%entries_app. apply (entries_app [x]) in O2 as (_ & O2 & _). apply entries_app.
  split_and!; [done..|]. intros y z Hy Hz. apply O3; [done|]. apply elem_of_cons. by right.
Qed.

(** Two adjacent leaves [a] and [b] below [q] become one. *)
Definition merged pg pg' (q a b : Z) : Prop :=
  exists p p' pa pb pa' l1 ka kb l2,
    (pg q = InternalImage p /\ internal_entries p = l1 ++ (ka, a) :: (kb, b) :: l2 /\ 3 <= Internal.GetSize p) /\
    (pg a = LeafImage pa /\ pg b = LeafImage pb) /\
    (pg' q = InternalImage p' /\ internal_entries p' = l1 ++ (ka, a) :: l2 /\ Internal.GetSize p' = Internal.GetSize p - 1 /\
      Internal.header p' = SetSize (Internal.GetSize p') (Internal.header p)) /\
    (pg' a = LeafImage pa' /\ leaf_entries pa' = leaf_entries pa ++ leaf_entries pb /\ 0 <= Leaf.GetSize pa' <= lmax - 1 /\
      Leaf.header pa' = SetSize (Leaf.GetSize pa') (Leaf.header pa) /\ Leaf.next_page_id_ pa' = Leaf.next_page_id_ pb) /\
    (forall r, r ∉ [a; b; q] -> pg' r = pg r).

Lemma merge_own pg pg' parent q lo hi m F fst nx a b :
  owns pg 1 parent q lo hi m F fst nx -> NoDup F -> merged pg pg' q a b ->
  exists F', owns pg' 1 parent q lo hi m F' fst nx /\ (F ≡ₚ b :: F').
Proof.
  intros [H0 (p & F0 & Hp & Hh & Hok & Hsz & -> & Hs)] Hnd
    (p0 & p' & pa & pb & pa' & l1 & ka & kb & l2 & (Hp0 & He & H3) & (Hpa & Hpb) & (Hp' & He' & Hs' & Hh') & (Hpa' & Hea & Hsa & Hha & Hna) & Hpg).
  assert (p0 = p) as -> by congruence. rewrite He, bounds_app in Hs.
  apply seg_app in Hs as (ml & mr & Fl & Fr & f & -> & -> & Hl & Hr). cbn [seg fmap list_fmap bnd Datatypes.fst Datatypes.snd next] in Hr.
  destruct Hr as (m1 & m2 & F1 & F2 & mid & -> & -> & Hb1 & Oa & (m3 & mr' & F3 & Fr' & mid' & -> & -> & Hb2 & Ob & Hr)).
  destruct Oa as [A0 (pa0 & Hpa0 & Ah & Aok & Asz & <- & Ax & -> & -> & <-)]. assert (pa0 = pa) as -> by congruence.
  destruct Ob as [B0 (pb0 & Hpb0 & Bh & Bok & Bsz & <- & Bx & -> & Bf & <-)]. assert (pb0 = pb) as -> by congruence.
  set (ba := if decide (l1 = []) then lo else key_num ka) in *.
  simpl in Hnd. apply NoDup_cons in Hnd as [Hq Hnd].
  assert (Hfr : forall r, r ∈ Fl ++ Fr' -> pg' r = pg r).
  { assert (Hperm : Fl ++ [a] ++ [b] ++ Fr' ≡ₚ a :: b :: Fl ++ Fr') by (simpl; solve_Permutation).
    rewrite Hperm in Hnd, Hq. apply NoDup_cons in Hnd as [Na [Nb _]%NoDup_cons]. intros r Hr'. apply Hpg. intros [->|[->|[->|[]%elem_of_nil]%elem_of_cons]%elem_of_cons]%elem_of_cons.
    - apply Na, elem_of_cons. by right.
    - by apply Nb.
    - apply Hq. by do 2 (apply elem_of_cons; right). }
  assert (Hab : entries_ok (leaf_entries pa')).
  { rewrite Hea. apply entries_app. split; [apply Aok|]. split; [apply Bok|]. intros x y Hx Hy. unfold entry_lt.
    specialize (Ax x Hx). specialize (Bx y Hy). lia. }
  exists (q :: Fl ++ [a] ++ Fr'). split; [|simpl; solve_Permutation]. split; [done|]. exists p', (Fl ++ [a] ++ Fr').
  split; [done|]. split; [by rewrite Hh'|]. split; [split; [lia|]|].
  - destruct Hok as [_ Hok]. rewrite He in Hok. rewrite He'. destruct l1 as [|x l1]; simpl in *.
    + by apply (entries_drop []) in Hok.
    + change (l1 ++ (ka, a) :: l2) with (l1 ++ [(ka, a)] ++ l2). rewrite app_assoc. apply (entries_drop _ (kb, b)).
      by rewrite <- app_assoc.
  - split; [lia|]. split; [done|]. rewrite He', bounds_app. fold ba. apply seg_app.
    exists ml, (leaf_entries pa ++ leaf_entries pb ++ mr'), Fl, ([a] ++ Fr'), a. split; [done|]. split; [done|]. split.
    { eapply seg_frame; [|exact Hl]. intros r Hr'. apply Hfr, elem_of_app. by left. }
    cbn [seg Datatypes.fst Datatypes.snd]. exists (leaf_entries pa'), mr', [a], Fr', (Leaf.next_page_id_ pb). rewrite Hea.
    split; [by rewrite app_assoc|]. split; [done|]. split; [lia|]. split; [|eapply seg_frame; [|exact Hr]; intros r Hr'; apply Hfr, elem_of_app; by right].
    split; [done|]. exists pa'. split; [done|]. split; [by rewrite Hha|]. split; [split; [lia | done]|].
    split; [rewrite Hha; split; [lia | apply Asz]|]. split; [done|]. split; [|by split_and!].
    intros x. pose proof (seg_next_le _ _ _ _ _ _ _ Hr). intros [Hx|Hx]%elem_of_app; [specialize (Ax x Hx) | specialize (Bx x Hx)]; lia.
Qed.

End Pages.

(** ** Merging two leaves *)
Section Merge.

Context (lmax imax : Z).
Abbreviation owns := (own lmax imax).
Abbreviation pins_map := (gmap Z (Z * Z)).
Abbreviation latch_map := (gmap Z Latch.ReaderWriterLatch).
Implicit Types (t : BPlusTree) (pg : Z -> page_image) (H : pins_map) (L : latch_map).

(** An inner node that keeps enough children when it loses one: its latch is
    the topmost one of the page set. *)
Definition roomy (h : BPlusTreePage) : bool :=
  if IsRootPage h then 2 <? size_ h else (imax + 1) / 2 <? size_ h.

Lemma MinSize_internal h t : sizes_ok lmax imax t -> page_type_ h = InternalPage -> MinSize h t = (imax + 1) / 2.
Proof.
  intros [_ Hi _ Hb] Hty. unfold MinSize, IsLeafPage. rewrite Hty, bool_decide_eq_false_2, Hi, u64_small by (done || lia).
  apply i32_small. div_lia.
Qed.

Lemma MinSize_leaf h t : sizes_ok lmax imax t -> page_type_ h = LeafPage -> MinSize h t = lmax / 2.
Proof.
  intros [Hl _ Hb _] Hty. unfold MinSize, IsLeafPage. rewrite Hty, bool_decide_eq_true_2, Hl by done. apply i32_small. div_lia.
Qed.

Lemma IsSafe_internal h t : sizes_ok lmax imax t -> page_type_ h = InternalPage -> IsSafe h OpRemove t = roomy h.
Proof.
  intros Hso Hty. unfold IsSafe, roomy. rewrite (MinSize_internal h t) by done. unfold IsLeafPage. by rewrite Hty, bool_decide_eq_false_2.
Qed.

Lemma IsSafe_leaf h t : sizes_ok lmax imax t -> page_type_ h = LeafPage -> IsSafe h OpRemove t = IsRootPage h || (lmax / 2 <? size_ h).
Proof.
  intros Hso Hty. unfold IsSafe. rewrite (MinSize_leaf h t) by done. unfold IsLeafPage. rewrite Hty, bool_decide_eq_true_2 by done.
  by destruct (IsRootPage h).
Qed.

(** A roomy parent that lost a child needs no rebalancing. *)
Lemma roomy_stop fuel t pg H L q f n p p' : khold t pg H L -> sizes_ok lmax imax t -> H !! q = Some (f, n) -> pg q = InternalImage p' ->
  page_type_ (Internal.header p) = InternalPage -> Internal.header p' = SetSize (Internal.GetSize p - 1) (Internal.header p) ->
  roomy (Internal.header p) = true ->
  (let* ph := node_header f in let* min_size := gets (MinSize ph) in
   if size_ ph <? min_size then coalesce_or_redistribute (S fuel) f else ret false) t = (Ok false, t).
Proof.
  intros HS Hso Hq Hp' Hty Hh Hroom.
  assert (Er : on_pool (read_as as_header f) t = (Ok (Internal.header p'), t)) by (eapply k_read; [exact HS | exact Hq | by rewrite Hp']).
  unfold node_header at 1. rewrite (bind_ok _ _ _ _ _ Er).
  rewrite (bind_ok (gets _) _ t ((imax + 1) / 2) t) by (unfold gets; rewrite (MinSize_internal (Internal.header p') t) by (done || by rewrite Hh); done).
  assert (Esz : size_ (Internal.header p') = Internal.GetSize p - 1) by (by rewrite Hh).
  rewrite Esz. unfold roomy in Hroom. destruct (Z.ltb_spec (Internal.GetSize p - 1) ((imax + 1) / 2)) as [Hlt|]; [|done].
  fold (Internal.GetSize p) in Hroom. cbn [coalesce_or_redistribute]. unfold node_header at 1. rewrite (bind_ok _ _ _ _ _ Er).
  assert (Eroot : IsRootPage (Internal.header p') = IsRootPage (Internal.header p)) by (by rewrite Hh).
  rewrite Eroot. destruct (IsRootPage (Internal.header p)); [|lia]. apply Z.ltb_lt in Hroom.
  rewrite Esz. destruct (Z.leb_spec (Internal.GetSize p - 1) 1); [lia|]. done.
Qed.

Lemma coalesce_leaf fuel t pg H L a fa na b fb q fq nq pa pb p l1 ka kb l2 :
  khold t pg H L -> sizes_ok lmax imax t -> a <> b ->
  H !! a = Some (fa, na) -> H !! b = Some (fb, 1) -> H !! q = Some (fq, nq) ->
  pg a = LeafImage pa -> pg b = LeafImage pb -> pg q = InternalImage p ->
  node_hdr LeafPage (Leaf.header pa) q a -> node_hdr LeafPage (Leaf.header pb) q b -> page_type_ (Internal.header p) = InternalPage ->
  leaf_ok pa -> leaf_ok pb -> Leaf.GetSize pa + Leaf.GetSize pb <= lmax - 1 -> max_size_ (Leaf.header pa) = lmax ->
  internal_entries p = l1 ++ (ka, a) :: (kb, b) :: l2 -> 3 <= Internal.GetSize p -> roomy (Internal.header p) = true ->
  exists t' pg', Coalesce (coalesce_or_redistribute (S fuel)) fa fb fq (Z.of_nat (S (length l1))) t = (Ok false, t') /\
    khold t' pg' (delete b H) L /\ same_tree t t' /\ tsits t' fb INVALID_PAGE_ID /\
    (forall g x, g <> fb -> tsits t g x -> tsits t' g x) /\
    merged lmax pg pg' q a b.
Proof.
  intros HS Hso Hab Ha Hb Hq Hpa Hpb Hp (At & Ai & Ap) (Bt & Bi & Bp) Hty Aok Bok Hfit Hmax He H3 Hroom.
  pose proof (leaf_size _ Aok) as As. pose proof (leaf_size _ Bok) as Bs.
  assert (Hqa : a <> q) by (intros ->; congruence). assert (Hqb : b <> q) by (intros ->; congruence).
  destruct (MoveAllTo_entries pb pa) as (pb' & pa' & Em & Eb' & Ea' & En' & Es'); [done | done | unfold GetMaxSize, IsLeafPage; rewrite At, bool_decide_eq_true_2 by done; lia |].
  destruct (MoveAllTo_header _ _ _ _ Em) as [Hhb Hha].
  destruct (k_write t pg H L b fb 1 (LeafImage pb') HS Hb) as (t1 & E1 & H1 & K1).
  set (pa2 := Leaf.SetNextPageId (Leaf.next_page_id_ pb') pa').
  destruct (k_write t1 _ H L a fa na (LeafImage pa2) H1 Ha) as (t2 & E2 & H2 & K2).
  set (pg2 := <[a := LeafImage pa2]> (<[b := LeafImage pb']> pg)) in *.
  assert (Hpb2 : pg2 b = LeafImage pb') by (unfold pg2; rewrite fn_lookup_insert_ne by done; apply fn_lookup_insert).
  assert (Enb : Leaf.next_page_id_ pb' = Leaf.next_page_id_ pb).
  { unfold Leaf.MoveAllTo, Leaf.CopyNFrom in Em. case_match; [done|]. simpl in Em. by injection Em as <- _. }
  unfold Coalesce. unfold node_header at 1.
  erewrite bind_ok by (eapply (k_read as_header); [exact HS | exact Hb | by rewrite Hpb]).
  unfold IsLeafPage. rewrite Bt, bool_decide_eq_true_2 by done.
  rewrite (bind_ok (bind _ _) _ t tt t2).
  2: { unfold leaf_at. erewrite bind_ok by (eapply (k_read as_leaf); [exact HS | exact Hb | by rewrite Hpb]).
       erewrite bind_ok by (eapply (k_read as_leaf); [exact HS | exact Ha | by rewrite Hpa]).
       rewrite Em, (bind_ok (lift _) _ t (pb', pa') t) by done. unfold put_leaf, write_leaf. by rewrite (bind_ok _ _ _ _ _ E1). }
  unfold node_header at 1. erewrite bind_ok by (eapply (k_read as_header); [exact H2 | exact Hb | by rewrite Hpb2]).
  destruct (k_drop t2 pg2 H L b fb (Leaf.header pb') H2 Hb) as (t2' & t3 & x & E2' & Eh & E3 & H3' & S3 & Hsit & Hk3); [by rewrite Hpb2|].
  assert (Ei' : page_id_ (Leaf.header pb') = b) by (by rewrite Hhb).
  rewrite Ei', (bind_ok _ _ _ _ _ E2'), (bind_ok _ _ _ _ _ Eh), Ei', (bind_ok _ _ _ _ _ E3). clear Eh Ei'. set (pg3 := <[b := x]> pg2) in *.
  assert (Hq3 : delete b H !! q = Some (fq, nq)) by (by rewrite lookup_delete_ne).
  assert (Hp3 : pg3 q = InternalImage p) by (unfold pg3, pg2; by rewrite !fn_lookup_insert_ne).
  unfold internal_at. erewrite bind_ok by (eapply (k_read as_internal); [exact H3' | exact Hq3 | by rewrite Hp3]).
  pose proof (length_internal p ltac:(lia)) as Hlen. rewrite He, length_app in Hlen. simpl in Hlen.
  destruct (Remove_entries p (Z.of_nat (S (length l1)))) as (p' & Er & Es & Ee); [lia|].
  assert (Hhp : Internal.header p' = SetSize (Internal.GetSize p - 1) (Internal.header p)).
  { unfold Internal.Remove in Er. case_match; [done|]. by injection Er as <-. }
  rewrite Er, (bind_ok (lift _) _ t3 p' t3) by done.
  destruct (k_write t3 pg3 _ L q fq nq (InternalImage p') H3' Hq3) as (t4 & E4 & H4 & K4).
  unfold put_internal, write_internal. rewrite (bind_ok _ _ _ _ _ E4).
  set (pg4 := <[q := InternalImage p']> pg3) in *.
  pose proof (same_tree_trans _ _ _ (proj1 K1) (same_tree_trans _ _ _ (proj1 K2) (same_tree_trans _ _ _ S3 (proj1 K4)))) as S4.
  exists t4, pg4. split; [|split; [exact H4|split; [exact S4|split; [by apply K4|split]]]].
  - eapply (roomy_stop fuel t4 pg4 _ L q fq nq p p' H4); [eapply sizes_conf; [exact Hso | by apply same_conf] | exact Hq3 | apply fn_lookup_insert | done..].
  - intros g y Hg Hy. apply K4, Hk3; [done|]. by apply K2, K1.
  - exists p, p', pa, pb, pa2, l1, ka, kb, l2. split; [done|]. split; [done|]. split; [|split].
    + split; [apply fn_lookup_insert|]. split; [|split; [lia | by rewrite Es]].
      rewrite Ee, He, Nat2Z.id. change (l1 ++ (ka, a) :: (kb, b) :: l2) with (l1 ++ [(ka, a)] ++ (kb, b) :: l2).
      rewrite app_assoc. replace (S (length l1)) with (length (l1 ++ [(ka, a)])) by (rewrite length_app; simpl; lia).
      rewrite take_app_length, <- (Nat.add_1_r (length (l1 ++ _))), <- drop_drop, drop_app_length. by rewrite <- app_assoc.
    + split; [unfold pg4, pg3, pg2; rewrite !fn_lookup_insert_ne by done; apply fn_lookup_insert|].
      change (leaf_entries pa2) with (leaf_entries pa'). change (Leaf.GetSize pa2) with (Leaf.GetSize pa').
      split; [done|]. split; [lia|]. split; [exact Hha|exact Enb].
    + intros r Hr. unfold pg4, pg3, pg2. rewrite !fn_lookup_insert_ne; [done|intros ->; apply Hr; set_solver..].
Qed.

(** A leaf below [q]. *)
Definition leaf_below pg (q c : Z) (s : Leaf.BPlusTreeLeafPage) : Prop :=
  pg c = LeafImage s /\ node_hdr LeafPage (Leaf.header s) q c /\ leaf_ok s /\
  Leaf.GetSize s <= lmax - 1 /\ max_size_ (Leaf.header s) = lmax.

Lemma FitOne_leaf t pg q a b pa pb : sizes_ok lmax imax t -> leaf_below pg q a pa -> leaf_below pg q b pb ->
  FitOne (Leaf.header pa) (Leaf.header pb) t = (Leaf.GetSize pa + Leaf.GetSize pb <=? lmax - 1).
Proof.
  intros [Hl _ Hb _] (_ & (At & _) & [A0 _] & As & _) (_ & _ & [B0 _] & Bs & _).
  unfold FitOne, IsLeafPage, Leaf.GetSize in *. rewrite At, bool_decide_eq_true_2, Hl, !u64_small by (done || lia). done.
Qed.

(** Fetching and latching a sibling, and giving it back as it was. *)
Lemma sibling_enter t pg H L sib : whold t pg H L -> H !! sib = None -> (size H < slots t)%nat -> 0 <= sib -> is_node (pg sib) ->
  exists f t', (forall A (body : Z -> M BPlusTree A), with_sibling sib body t = body f t') /\
    thold t' pg (<[sib := (f, 1)]> H) (dom H) (<[f := op_latch OpRemove]> L) /\ same_tree t t' /\ L !! f = None.
Proof.
  intros HS Hno Hsz H0 Hn. destruct (step_fetch t pg H (dom H) L sib HS Hno Hsz) as (f & t1 & E1 & H1 & S1 & HL).
  { split; [done|]. eapply thold_allocated; [exact HS | done|]. by destruct (pg sib). }
  destruct (step_latch t1 pg _ _ _ sib f 1 Latch.WLock (op_latch OpRemove) H1 (lookup_insert_eq _ _ _)) as (t2 & E2 & H2 & S2); [by rewrite HL|].
  exists f, t2. split; [|split; [exact H2|split; [by eapply same_tree_trans | done]]].
  intros A body. unfold with_sibling, fetch_deref. rewrite (bind_ok _ _ t f t1) by (by rewrite (bind_ok _ _ _ _ _ E1)).
  unfold WLatch. by rewrite (bind_ok _ _ _ _ _ E2).
Qed.

Lemma sibling_leave t pg H L sib f : thold t pg (<[sib := (f, 1)]> H) (dom H) (<[f := op_latch OpRemove]> L) ->
  H !! sib = None -> L !! f = None ->
  exists t', (on_pool (WUnlatch f);;; unpin sib false;;; ret false) t = (Ok false, t') /\ whold t' pg H L /\ same_tree t t'.
Proof.
  intros HS Hno HL. destruct (step_unlatch t pg _ _ _ sib f 1 (fun l => Ok (Latch.WUnlock l)) HS (lookup_insert_eq _ _ _)) as (t1 & E1 & H1 & S1);
    [by rewrite lookup_insert_eq|]. rewrite delete_insert_id in H1 by done.
  destruct (step_unpin t1 pg _ _ _ sib f 1 false H1 (lookup_insert_eq _ _ _)) as (t2 & E2 & H2 & S2).
  { right; left. by apply not_elem_of_dom. }
  { done. }
  rewrite decide_True, delete_insert_id in H2 by done. exists t2. split; [|split; [exact H2 | by eapply same_tree_trans]].
  unfold WUnlatch. by rewrite (bind_ok _ _ _ _ _ E1), (bind_ok _ _ _ _ _ E2).
Qed.

(** What both merges of [coalesce_or_redistribute] do with the sibling in frame [f]. *)
Definition merge_body (again : Z -> M BPlusTree bool) (f recipient victim parent : Z) (h : BPlusTreePage)
    (parent_page_id sib_id index : Z) (tail : M BPlusTree bool -> M BPlusTree bool) : M BPlusTree bool :=
  let* sh := node_header f in
  let* fits := gets (FitOne sh h) in
  if fits then
    let* del_parent := Coalesce again recipient victim parent index in
    on_pool (WUnlatch f);;;
    unpin parent_page_id true;;;
    tail (when del_parent (delete_page parent_page_id);;; ret true)
  else
    on_pool (WUnlatch f);;;
    unpin sib_id false;;;
    ret false.

Lemma merge_body_no again t pg H L sib f recipient victim parent pid index tail q c s p :
  thold t pg (<[sib := (f, 1)]> H) (dom H) (<[f := op_latch OpRemove]> L) -> H !! sib = None -> L !! f = None ->
  sizes_ok lmax imax t -> leaf_below pg q sib s -> leaf_below pg q c p -> lmax - 1 < Leaf.GetSize s + Leaf.GetSize p ->
  exists t', merge_body again f recipient victim parent (Leaf.header p) pid sib index tail t = (Ok false, t') /\ whold t' pg H L /\ same_tree t t'.
Proof.
  intros HS Hno HL Hso Hs Hp Hbig. destruct (sibling_leave t pg H L sib f HS Hno HL) as (t' & E & H' & S). exists t'. split; [|by split].
  unfold merge_body, node_header. erewrite bind_ok by (eapply (step_read as_header); [exact HS | apply lookup_insert_eq | by rewrite (proj1 Hs)]).
  rewrite (bind_ok (gets _) _ t false t); [exact E|]. unfold gets. rewrite (FitOne_leaf t pg q sib c) by done.
  by rewrite (proj2 (Z.leb_gt _ _)) by lia.
Qed.

Lemma merge_body_ok fuel t pg H L q fq nq pl fl sib f a fa b fb pa pb s p pp l1 ka kb l2 tail :
  thold t pg (<[sib := (f, 1)]> (<[q := (fq, nq + 1)]> H)) (dom (<[q := (fq, nq + 1)]> H)) (<[f := op_latch OpRemove]> L) ->
  H !! sib = None -> L !! f = None -> H !! q = Some (fq, nq) -> 0 < nq -> H !! pl = Some (fl, 1) -> sizes_ok lmax imax t ->
  (a, fa, b, fb) = (sib, f, pl, fl) \/ (a, fa, b, fb) = (pl, fl, sib, f) ->
  leaf_below pg q a pa -> leaf_below pg q b pb -> leaf_below pg q sib s -> leaf_below pg q pl p ->
  pg q = InternalImage pp -> page_type_ (Internal.header pp) = InternalPage -> internal_entries pp = l1 ++ (ka, a) :: (kb, b) :: l2 ->
  3 <= Internal.GetSize pp -> roomy (Internal.header pp) = true -> Leaf.GetSize s + Leaf.GetSize p <= lmax - 1 ->
  (forall t pg' H L k, khold t pg' H L -> H !! a = Some (fa, 1) -> (exists x, pg' a = LeafImage x /\ page_id_ (Leaf.header x) = a) ->
    exists t', tail k t = k t' /\ khold t' pg' (delete a H) L /\ still t t') ->
  exists t' pg' x, merge_body (coalesce_or_redistribute (S fuel)) f fa fb fq (Leaf.header p) q sib (Z.of_nat (S (length l1))) tail t = (Ok true, t') /\
    khold t' pg' (delete pl H) L /\ same_tree t t' /\ tsits t' fl x /\ x ∈ [INVALID_PAGE_ID; pl] /\ merged lmax pg pg' q a b.
Proof.
  intros HS Hno HL Hq Hnq Hpl Hso Hcase Ha Hb Hs Hp Hpp Hty He H3 Hroom Hfit Htail.
  set (Hs' := <[sib := (f, 1)]> (<[q := (fq, nq + 1)]> H)) in *.
  assert (Hsq : sib <> q) by congruence. assert (Hsl : sib <> pl) by congruence.
  assert (Hlq : pl <> q). { intros ->. destruct Hp as [Hp _]. congruence. }
  assert (Lsib : Hs' !! sib = Some (f, 1)) by apply lookup_insert_eq.
  assert (Lq : Hs' !! q = Some (fq, nq + 1)) by (unfold Hs'; rewrite lookup_insert_ne by done; apply lookup_insert_eq).
  assert (Lpl : Hs' !! pl = Some (fl, 1)) by (unfold Hs'; rewrite !lookup_insert_ne by done; exact Hpl).
  assert (HSk : khold t pg Hs' (<[f := op_latch OpRemove]> L)).
  { destruct HS as [HS _]. eapply holding_weaken; [exact HS|]. unfold Hs'. rewrite (dom_insert_L (<[q := _]> H) sib). set_solver. }
  assert (Hff : f <> fl) by (eapply k_frame_ne; [exact HSk | exact Lsib | exact Lpl | done]).
  assert (Hfit' : Leaf.GetSize pa + Leaf.GetSize pb <= lmax - 1).
  { destruct Hcase as [[= -> -> -> ->]|[= -> -> -> ->]]; destruct Ha as [Ha _], Hb as [Hb _], Hs as [Hs _], Hp as [Hp _]; rewrite Ha in *; rewrite Hb in *; simplify_eq; lia. }
  assert (Hab : a <> b) by (destruct Hcase as [[= -> -> -> ->]|[= -> -> -> ->]]; congruence).
  assert (Laq : a <> q /\ b <> q) by (destruct Hcase as [[= -> -> -> ->]|[= -> -> -> ->]]; done).
  assert (La : Hs' !! a = Some (fa, 1)) by (destruct Hcase as [[= -> -> -> ->]|[= -> -> -> ->]]; done).
  assert (Lb : Hs' !! b = Some (fb, 1)) by (destruct Hcase as [[= -> -> -> ->]|[= -> -> -> ->]]; done).
  unfold merge_body. unfold node_header at 1.
  erewrite bind_ok by (eapply (step_read as_header); [exact HS | exact Lsib | by rewrite (proj1 Hs)]).
  rewrite (bind_ok (gets _) _ t true t); [|unfold gets; rewrite (FitOne_leaf t pg q sib pl) by done; by rewrite (proj2 (Z.leb_le _ _)) by lia].
  pose proof Ha as (Pa & Nha & Oka & _ & Ma). pose proof Hb as (Pb & Nhb & Okb & _ & Mb).
  destruct (coalesce_leaf fuel t pg Hs' _ a fa 1 b fb q fq (nq + 1) pa pb pp l1 ka kb l2 HSk Hso) as
    (t1 & pg' & E1 & H1 & S1 & Hinv & Hkeep & Hmer); auto.
  rewrite (bind_ok _ _ _ _ _ E1).
  assert (Hsf : exists y, tsits t1 f y).
  { destruct (decide (f = fb)) as [->|Hne]; [eauto|]. exists sib. apply Hkeep; [done|]. by eapply k_sits. }
  assert (Hsl1 : exists x, tsits t1 fl x /\ x ∈ [INVALID_PAGE_ID; pl]).
  { destruct (decide (fl = fb)) as [->|Hne]; [exists INVALID_PAGE_ID; split; [done | set_solver]|].
    exists pl. split; [|set_solver]. apply Hkeep; [done|]. by eapply k_sits. }
  destruct Hsf as [y Hsf]. destruct Hsl1 as (x & Hsx & Hx).
  destruct (k_unlatch t1 pg' _ _ f y H1 Hsf (lookup_insert_eq _ _ _)) as (t2 & E2 & H2 & [S2 K2]).
  rewrite (bind_ok _ _ _ _ _ E2). rewrite delete_insert_id in H2 by done.
  destruct (k_unpin t2 pg' _ _ q fq (nq + 1) H2) as (t3 & E3 & H3' & [S3 K3]); [rewrite lookup_delete_ne by (by destruct Laq); exact Lq|].
  rewrite (bind_ok _ _ _ _ _ E3). rewrite decide_False in H3' by lia. replace (nq + 1 - 1) with nq in H3' by lia.
  destruct (Htail t3 pg' _ L (when false (delete_page q);;; ret true) H3') as (t4 & E4 & H4 & [S4 K4]).
  { rewrite lookup_insert_ne by (destruct Laq; done). by rewrite lookup_delete_ne. }
  { destruct Hmer as (? & ? & pa0 & ? & pa' & ? & ? & ? & ? & _ & (Pa0 & _) & _ & (Pa' & _ & _ & Hh & _) & _).
    exists pa'. split; [done|]. assert (pa0 = pa) as -> by congruence. rewrite Hh. apply Nha. }
  exists t4, pg', x. split; [rewrite E4; reflexivity|]. split; [|split; [|split; [by apply K4, K3, K2 | by split]]].
  - replace (delete pl H) with (delete a (<[q := (fq, nq)]> (delete b Hs'))); [done|].
    apply map_eq. intros r. destruct Laq as [Lq1 Lq2]. unfold Hs'. destruct Hcase as [[= -> -> -> ->]|[= -> -> -> ->]];
      destruct (decide (q = r)), (decide (sib = r)), (decide (pl = r)); simplify_map_eq; try done; congruence.
  - do 3 (eapply same_tree_trans; [eassumption|]). done.
Qed.

Lemma coalesce_merges fuel node : coalesce_or_redistribute (S fuel) node =
  (let* h := node_header node in
   if IsRootPage h then
     when (size_ h <=? 1)
       (let* del_root := AdjustRoot node in
        when del_root (let* h := node_header node in unpin (page_id_ h) true;;; let* h := node_header node in delete_page (page_id_ h)));;;
     ret false
   else
   let parent_page_id := parent_page_id_ h in
   let* parent := fetch_deref parent_page_id in
   let* p := internal_at parent in
   let index := Internal.ValueIndex (page_id_ h) p in
   let* merged := if 0 <=? index - 1 then
       let* sib_id := lift (Internal.ValueAt (index - 1) p) in
       with_sibling sib_id (fun f => merge_body (coalesce_or_redistribute fuel) f f node parent h parent_page_id sib_id index
         (fun k => unpin sib_id true;;; k))
     else ret false in
   if (merged : bool) then ret false else
   let* merged := if index + 1 <? Internal.GetSize p then
       let* sib_id := lift (Internal.ValueAt (index + 1) p) in
       with_sibling sib_id (fun f => merge_body (coalesce_or_redistribute fuel) f node f parent h parent_page_id sib_id (index + 1)
         (fun k => let* nh := node_header node in unpin (page_id_ nh) true;;; k))
     else ret false in
   if (merged : bool) then ret false else
   let borrow (index : Z) (right : bool) : M BPlusTree bool :=
     let* sib_id := lift (Internal.ValueAt index p) in
     with_sibling sib_id (fun f =>
       let* sh := node_header f in
       let* min_size := gets (MinSize sh) in
       if min_size <? size_ sh then
         Redistribute f node right;;;
         on_pool (WUnlatch f);;;
         unpin parent_page_id true;;;
         let* nh := node_header node in
         unpin (page_id_ nh) true;;;
         unpin sib_id true;;;
         ret true
       else
         on_pool (WUnlatch f);;;
         unpin sib_id false;;;
         ret false) in
   let* done := if 0 <=? index - 1 then borrow (index - 1) false else ret false in
   if (done : bool) then ret false else
   let* done := if index + 1 <? Internal.GetSize p then borrow (index + 1) true else ret false in
   if (done : bool) then ret false else
   throw runtime_error "Not root, cannot merge, cannot redistribute? This shouldn't happen").
Proof. reflexivity. Qed.

(** A sibling leaf at [c] that takes [n] more entries. *)
Definition leaf_fits pg (n c : Z) : bool :=
  match pg c with LeafImage s => Leaf.GetSize s + n <=? lmax - 1 | _ => false end.

Definition sibling_fits pg (p : Internal.BPlusTreeInternalPage) (n pid : Z) : bool :=
  let i := Internal.ValueIndex pid p in
  ((0 <=? i - 1) && leaf_fits pg n (Internal.at_ (Z.to_nat (i - 1)) p).2) ||
  ((i + 1 <? Internal.GetSize p) && leaf_fits pg n (Internal.at_ (Z.to_nat (i + 1)) p).2).

(** The parent of an underfull leaf and its children, none of them pinned but the leaf. *)
Record family pg H (q pl : Z) (p : Leaf.BPlusTreeLeafPage) (pp : Internal.BPlusTreeInternalPage) (l1 : list (bytes * Z)) kp l2 : Prop := {
  fam_leaf : leaf_below pg q pl p;
  fam_parent : pg q = InternalImage pp;
  fam_type : page_type_ (Internal.header pp) = InternalPage;
  fam_entries : internal_entries pp = l1 ++ (kp, pl) :: l2;
  fam_nodup : NoDup (internal_entries pp).*2;
  fam_pid : 0 <= q;
  fam_children : forall c, c ∈ (internal_entries pp).*2 -> c <> pl -> H !! c = None /\ 0 <= c /\ exists s, leaf_below pg q c s;
}.

Definition merge_done t pg H L (q pl fl : Z) (a b : Z) t' : Prop :=
  exists pg' x, khold t' pg' (delete pl H) L /\ same_tree t t' /\ tsits t' fl x /\ x ∈ [INVALID_PAGE_ID; pl] /\ merged lmax pg pg' q a b.

Lemma merge_done_same t1 t pg H L q pl fl a b t' : same_tree t1 t -> merge_done t pg H L q pl fl a b t' -> merge_done t1 pg H L q pl fl a b t'.
Proof. intros S (pg' & x & A & B & C). exists pg', x. split; [done|]. split; [by eapply same_tree_trans | done]. Qed.

(** One attempt to merge, with the sibling that [pick] says. *)
Lemma try_merge fuel t pg H L q fq nq pl fl p pp l1 kp l2 a b ka kb m1 m2 sib (right : bool) :
  whold t pg (<[q := (fq, nq + 1)]> H) L -> sizes_ok lmax imax t -> H !! q = Some (fq, nq) -> 0 < nq -> H !! pl = Some (fl, 1) ->
  (size H < slots t)%nat -> family pg H q pl p pp l1 kp l2 -> (a, b, sib) = (if right then (pl, sib, sib) else (sib, pl, sib)) ->
  internal_entries pp = m1 ++ (ka, a) :: (kb, b) :: m2 -> 3 <= Internal.GetSize pp -> roomy (Internal.header pp) = true ->
  exists t', with_sibling sib (fun f => merge_body (coalesce_or_redistribute (S fuel)) f (if right then fl else f) (if right then f else fl) fq
      (Leaf.header p) q sib (Z.of_nat (S (length m1)))
      (if right then (fun k => let* nh := node_header fl in unpin (page_id_ nh) true;;; k) else (fun k => unpin sib true;;; k))) t =
      (Ok (leaf_fits pg (Leaf.GetSize p) sib), t') /\
    (if leaf_fits pg (Leaf.GetSize p) sib then merge_done t pg H L q pl fl a b t'
     else whold t' pg (<[q := (fq, nq + 1)]> H) L /\ same_tree t t').
Proof.
  intros HS Hso Hq Hnq Hpl Hsz [Fl Fp Ft Fe Fnd F0 Fc] Hpick He H3 Hroom.
  assert (Hsib : sib ∈ (internal_entries pp).*2 /\ sib <> pl).
  { assert (Hab : a <> b). { rewrite He, fmap_app in Fnd. apply NoDup_app in Fnd as (_ & _ & Fnd). simpl in Fnd. apply NoDup_cons in Fnd as [Fnd _]. set_solver. }
    rewrite He, fmap_app. simpl. destruct right; injection Hpick as -> ->; split; [|done| |done]; set_solver. }
  destruct Hsib as [Hin Hne]. destruct (Fc sib Hin Hne) as (Hno & Hs0 & s & Hs).
  assert (Hsq : sib <> q) by congruence.
  assert (Hno' : <[q := (fq, nq + 1)]> H !! sib = None) by (by rewrite lookup_insert_ne).
  destruct (sibling_enter t pg _ L sib HS Hno') as (f & t1 & E1 & H1 & S1 & HL).
  { rewrite map_size_insert_Some by eauto. done. }
  { done. }
  { by rewrite (proj1 Hs). }
  rewrite E1. clear E1. pose proof (sizes_conf _ _ _ _ Hso (proj1 (same_conf _ _ S1))) as Hso1.
  assert (Efit : leaf_fits pg (Leaf.GetSize p) sib = (Leaf.GetSize s + Leaf.GetSize p <=? lmax - 1)) by (unfold leaf_fits; by rewrite (proj1 Hs)).
  rewrite Efit. destruct (Z.leb_spec (Leaf.GetSize s + Leaf.GetSize p) (lmax - 1)) as [Hfit|Hbig].
  - assert (exists fa fb pa pb, (a, fa, b, fb) = (if right then (pl, fl, sib, f) else (sib, f, pl, fl)) /\
      leaf_below pg q a pa /\ leaf_below pg q b pb) as (fa & fb & pa & pb & Ecase & Ha & Hb).
    { destruct right; injection Hpick as -> ->; eauto 10. }
    destruct (merge_body_ok fuel t1 pg H L q fq nq pl fl sib f a fa b fb pa pb s p pp m1 ka kb m2
      (if right then (fun k => let* nh := node_header fl in unpin (page_id_ nh) true;;; k) else (fun k => unpin sib true;;; k)))
      as (t2 & pg' & x & E2 & H2 & S2 & Hsit & Hx & Hmer); auto.
    { destruct right; [by right | by left]. }
    { intros t0 pg0 H0 L0 k HS0 Ha0 (x & Hx & Ei). destruct (k_unpin t0 pg0 H0 L0 a fa 1 HS0 Ha0) as (t0' & E0 & H0' & S0).
      rewrite decide_True in H0' by done. exists t0'. split; [|by split].
      destruct right; injection Ecase as -> -> -> ->; [|by rewrite (bind_ok _ _ _ _ _ E0)].
      unfold node_header. erewrite bind_ok by (eapply (k_read as_header); [exact HS0 | exact Ha0 | by rewrite Hx]).
      rewrite Ei. by rewrite (bind_ok _ _ _ _ _ E0). }
    exists t2. split.
    + destruct right; injection Ecase as -> -> -> ->; exact E2.
    + eapply merge_done_same; [exact S1|]. exists pg', x. by repeat (split; [done|]).
  - destruct (merge_body_no (coalesce_or_redistribute (S fuel)) t1 pg _ L sib f (if right then fl else f) (if right then f else fl) fq q
      (Z.of_nat (S (length m1))) (if right then (fun k => let* nh := node_header fl in unpin (page_id_ nh) true;;; k) else (fun k => unpin sib true;;; k))
      q pl s p H1 Hno' HL Hso1 Hs Fl Hbig) as (t2 & E2 & H2 & S2).
    exists t2. split; [exact E2|]. split; [exact H2 | by eapply same_tree_trans].
Qed.

Lemma entry_at pp l1 k c l2 : 0 <= Internal.GetSize pp -> internal_entries pp = l1 ++ (k, c) :: l2 ->
  Internal.at_ (length l1) pp = (k, c).
Proof.
  intros H0 He. pose proof (internal_lookup pp (length l1) H0) as Hl. rewrite He, lookup_app_r, Nat.sub_diag in Hl by done.
  simpl in Hl. case_decide; by simplify_eq.
Qed.

(** An underfull leaf whose sibling has room. *)
Lemma merge_underfull fuel t pg H L q fq nq pl fl p pp l1 kp l2 :
  whold t pg H L -> sizes_ok lmax imax t -> H !! q = Some (fq, nq) -> 0 < nq -> H !! pl = Some (fl, 1) ->
  (size H < slots t)%nat -> family pg H q pl p pp l1 kp l2 -> 3 <= Internal.GetSize pp -> roomy (Internal.header pp) = true ->
  sibling_fits pg pp (Leaf.GetSize p) pl = true ->
  exists a b t', coalesce_or_redistribute (S (S fuel)) fl t = (Ok false, t') /\ merge_done t pg H L q pl fl a b t'.
Proof.
  intros HS Hso Hq Hnq Hpl Hsz Hf H3 Hroom Hfits. pose proof Hf as [[Pl [[Lt [Li Lp]] _]] Fp Ft Fe Fnd F0 Fc].
  assert (Hidx : Internal.ValueIndex pl pp = Z.of_nat (length l1)).
  { apply (ValueIndex_ok pp l1 l2 kp); [lia | done|]. rewrite Fe, fmap_app in Fnd. apply NoDup_app in Fnd as (_ & Fnd & _).
    intros Hin. apply (Fnd pl Hin). simpl. set_solver. }
  pose proof (length_internal pp ltac:(lia)) as Hlen. rewrite Fe, length_app in Hlen. simpl in Hlen.
  rewrite coalesce_merges. unfold node_header at 1.
  erewrite bind_ok by (eapply (step_read as_header); [exact HS | exact Hpl | by rewrite Pl]).
  unfold IsRootPage. rewrite Lp. destruct (Z.eqb_spec q INVALID_PAGE_ID) as [E|_]; [unfold INVALID_PAGE_ID in E; lia|]. cbv zeta.
  destruct (w_refetch t pg H L q fq nq HS Hq) as (t1 & E1 & H1 & S1).
  rewrite (bind_ok (fetch_deref q) _ t fq t1) by (unfold fetch_deref; by rewrite (bind_ok _ _ _ _ _ E1)).
  unfold internal_at at 1. erewrite bind_ok by (eapply (step_read as_internal); [exact H1 | apply lookup_insert_eq | by rewrite Fp]).
  rewrite Li, Hidx. unfold sibling_fits in Hfits. rewrite Hidx in Hfits.
  destruct (same_conf _ _ S1) as [C1 _]. pose proof (sizes_conf _ _ _ _ Hso C1) as Hso1. pose proof C1 as (_ & _ & _ & Sl1).
  assert (Hleft : exists r t2, (if 0 <=? Z.of_nat (length l1) - 1 then
      let* sib_id := lift (Internal.ValueAt (Z.of_nat (length l1) - 1) pp) in
      with_sibling sib_id (fun f => merge_body (coalesce_or_redistribute (S fuel)) f f fl fq (Leaf.header p) q sib_id (Z.of_nat (length l1))
         (fun k => unpin sib_id true;;; k))
      else ret false) t1 = (Ok r, t2) /\
    if r then exists a b, merge_done t1 pg H L q pl fl a b t2
    else whold t2 pg (<[q := (fq, nq + 1)]> H) L /\ same_tree t1 t2 /\
      (Z.of_nat (length l1) + 1 <? Internal.GetSize pp) && leaf_fits pg (Leaf.GetSize p) (Internal.at_ (Z.to_nat (Z.of_nat (length l1) + 1)) pp).2 = true).
  { destruct (Z.leb_spec 0 (Z.of_nat (length l1) - 1)) as [Hpos|Hneg]; [|exists false, t1; split; [done|]; by split_and!].
    destruct l1 as [|[ka a] l1' _] using rev_ind; [simpl in Hpos; lia|]. rewrite length_app in *. simpl in Hlen, Hpos, Hfits |- *.
    assert (Fe' : internal_entries pp = l1' ++ (ka, a) :: (kp, pl) :: l2) by (by rewrite Fe, <- app_assoc).
    replace (Z.of_nat (length l1' + 1)) with (Z.of_nat (S (length l1'))) in * by lia.
    replace (Z.of_nat (S (length l1')) - 1) with (Z.of_nat (length l1')) in * by lia.
    rewrite Nat2Z.id, (entry_at pp l1' ka a ((kp, pl) :: l2)) in Hfits by (done || lia). simpl in Hfits.
    destruct (try_merge fuel t1 pg H L q fq nq pl fl p pp (l1' ++ [(ka, a)]) kp l2 a pl ka kp l1' l2 a false) as (t2 & E2 & H2); auto; [lia|].
    exists (leaf_fits pg (Leaf.GetSize p) a), t2. split.
    - unfold Internal.ValueAt. destruct (Z.ltb_spec (Z.of_nat (length l1')) 0); [lia|].
      rewrite Nat2Z.id, (entry_at pp l1' ka a ((kp, pl) :: l2)) by (done || lia). rewrite (bind_ok (lift _) _ t1 a t1) by done. exact E2.
    - destruct (leaf_fits pg (Leaf.GetSize p) a); [by eauto|]. destruct H2 as [H2 S2]. simpl in Hfits. by split_and!. }
  destruct Hleft as (r & t2 & E2 & Hr). rewrite (bind_ok _ _ _ _ _ E2). clear E2. destruct r.
  { destruct Hr as (a & b & Hr). exists a, b, t2. split; [done|]. by eapply merge_done_same. }
  destruct Hr as (H2 & S2 & [Hlt Hfit]%andb_true_iff). rewrite Hlt. apply Z.ltb_lt in Hlt.
  destruct l2 as [|[kb b] l2']; [simpl in Hlen; lia|].
  assert (Fe' : internal_entries pp = (l1 ++ [(kp, pl)]) ++ (kb, b) :: l2') by (by rewrite Fe, <- app_assoc).
  pose proof (entry_at pp _ kb b l2' ltac:(lia) Fe') as Eb. rewrite length_app in Eb. simpl in Eb.
  replace (Z.to_nat (Z.of_nat (length l1) + 1)) with (length l1 + 1)%nat in Hfit by lia. rewrite Eb in Hfit. simpl in Hfit.
  destruct (same_conf _ _ S2) as [C2 _]. pose proof C2 as (_ & _ & _ & Sl2).
  destruct (try_merge fuel t2 pg H L q fq nq pl fl p pp l1 kp ((kb, b) :: l2') pl b kp kb l1 l2' b true) as (t3 & E3 & H3'); auto.
  { by eapply sizes_conf. }
  { lia. }
  rewrite Hfit in *. exists pl, b, t3. split; [|eapply merge_done_same; [|exact H3']; by eapply same_tree_trans].
  rewrite (bind_ok (bind (lift _) _) _ t2 true t3); [done|].
  unfold Internal.ValueAt. destruct (Z.ltb_spec (Z.of_nat (length l1) + 1) 0); [lia|].
  replace (Z.to_nat (Z.of_nat (length l1) + 1)) with (length l1 + 1)%nat by lia. rewrite Eb.
  rewrite (bind_ok (lift _) _ t2 b t2) by done. simpl. replace (Z.of_nat (length l1) + 1) with (Z.of_nat (S (length l1))) by lia. exact E3.
Qed.

End Merge.

(** ** Remove *)
Section RemoveOk.

Context (lmax imax : Z).
Abbreviation owns := (own lmax imax).
Abbreviation pins_map := (gmap Z (Z * Z)).
Abbreviation latch_map := (gmap Z Latch.ReaderWriterLatch).
Implicit Types (t : BPlusTree) (pg : Z -> page_image) (H : pins_map) (L : latch_map) (ps : list (Z * Z)).

(** Removing the key from this leaf leaves it large enough, or it is the root,
    or a sibling takes what is left and the parent can lose a child. *)
Definition leaf_removal pg (above : option Internal.BPlusTreeInternalPage) (p : Leaf.BPlusTreeLeafPage) (pid : Z) (key : bytes) : bool :=
  let n := Leaf.GetSize (Leaf.RemoveAndDeleteRecord key p) in
  (lmax / 2 <=? n) ||
  match above with None => true | Some pp => roomy imax (Internal.header pp) && sibling_fits lmax pg pp n pid end.

(** The leaf for [key] below [pid], whose parent is [above]. *)
Fixpoint local_removal pg (fuel : nat) (above : option Internal.BPlusTreeInternalPage) (pid : Z) (key : bytes) : bool :=
  match fuel with
  | O => false
  | S fuel =>
      match pg pid with
      | LeafImage p => leaf_removal pg above p pid key
      | InternalImage p => match Internal.Lookup key p with Ok c => local_removal pg fuel (Some p) c key | Fail _ => false end
      | _ => false
      end
  end.

Lemma to_map_delete {V} (l1 l l' l2 : list (bytes * V)) k : entries_ok (l1 ++ l ++ l2) -> entries_ok (l1 ++ l' ++ l2) ->
  to_map l' = delete k (to_map l) -> k ∉ l1.*1 -> k ∉ l2.*1 ->
  to_map (l1 ++ l' ++ l2) = delete k (to_map (l1 ++ l ++ l2)).
Proof.
  intros Hok Hok' Hl' H1 H2. pose proof Hok as (_ & (Hl & _)%entries_app & _)%entries_app.
  pose proof Hok' as (_ & (Hlo' & _)%entries_app & _)%entries_app.
  assert (Hin : forall k' v', (k', v') ∈ l' <-> (delete k (to_map l)) !! k' = Some v') by (intros; by rewrite <- to_map_Some, Hl').
  apply map_eq. intros k'. apply option_eq. intros v'. rewrite to_map_Some, !elem_of_app, Hin by done.
  rewrite !lookup_delete_Some, !to_map_Some, !elem_of_app by done. split; [|tauto].
  intros [Hx|[Hx|Hx]]; [|tauto|]; (split; [|tauto]); intros <-; [apply H1 | apply H2]; by apply (list_elem_of_fmap_2 fst _ (k, v')).
Qed.

(** The child a key is routed to is the one whose bounds it respects. *)
Lemma Lookup_between p key l1 k c l2 lo hi : internal_ok p -> key_wf key -> internal_entries p = l1 ++ (k, c) :: l2 ->
  (if decide (l1 = []) then lo else key_num k) <= key_num key < next hi (bnd <$> l2) -> Internal.Lookup key p = Ok c.
Proof.
  intros Hok Hk He [Hlo Hhi]. destruct (Lookup_routes p key Hok Hk) as (i & c' & -> & (k' & Hi & Hlk) & Hgt). f_equal.
  assert (Hmid : internal_entries p !! length l1 = Some (k, c)) by (by rewrite He, lookup_app_r, Nat.sub_diag).
  destruct (lt_eq_lt_dec i (length l1)) as [[Hlt| ->]|Hlt]; [| by rewrite Hmid in Hi; simplify_eq |]; exfalso.
  - specialize (Hgt _ _ Hlt Hmid). rewrite decide_False in Hlo by (intros ->; simpl in Hlt; lia). simpl in Hgt. lia.
  - destruct l2 as [|[k2 c2] l2]; [apply lookup_lt_Some in Hi; rewrite He, length_app in Hi; simpl in Hi; lia|]. simpl in Hhi.
    specialize (Hlk ltac:(lia)). enough (key_num k2 <= key_num k') by lia.
    assert (Hn : internal_entries p !! S (length l1) = Some (k2, c2)).
    { rewrite He, lookup_app_r by lia. by replace (S (length l1) - length l1)%nat with 1%nat by lia. }
    destruct (decide (i = S (length l1))) as [->|Hne]; [by rewrite Hn in Hi; simplify_eq|].
    assert (Htl : forall j, tail (internal_entries p) !! j = internal_entries p !! S j) by (intros j; by destruct (internal_entries p)).
    destruct i as [|i]; [lia|].
    pose proof (entries_lookup_lt _ (length l1) i (k2, c2) (k', c') (internal_entries_ok p Hok) ltac:(lia)) as Hent.
    rewrite !Htl in Hent. specialize (Hent Hn Hi). unfold entry_lt in Hent. simpl in Hent. lia.
Qed.

Definition above_of pg (path : list Z) : option Internal.BPlusTreeInternalPage :=
  match path with [] => None | q :: _ => match pg q with InternalImage p => Some p | _ => None end end.

Lemma ctx_local pg h parent pid lo hi ML MR Fc path f n root HT key : own_ctx lmax imax pg h parent pid lo hi ML MR Fc path f n root HT ->
  key_wf key -> (lo <= key_num key < hi) -> forall fuel, local_removal pg fuel None root key = true ->
  exists fuel', local_removal pg fuel' (above_of pg path) pid key = true.
Proof.
  intros Hc Hk. induction Hc as [|h parent pid p lo hi l1 k c l2 b ml mr Fl Fr f fst n nx ML MR F' path root HT
    Hp H0 Hh Hok Hsz He Hb Hlt Hl Hr Hc IH]; intros Hkr fuel Hrem; [by exists fuel|].
  destruct (IH ltac:(pose proof (seg_next_le _ _ _ _ _ _ _ Hr);
    split; [|lia]; subst b; case_decide as Hd; [lia|]; destruct l1 as [|x l1]; [done|]; apply seg_lt in Hl; lia) fuel Hrem) as (fuel' & Hf).
  destruct fuel' as [|fuel']; [done|]. cbn [local_removal] in Hf. rewrite Hp, (Lookup_between p key l1 k c l2 lo hi) in Hf by (done || by subst b).
  exists fuel'. simpl. by rewrite Hp.
Qed.

Lemma seg_nodup pg h r hi nx es m F fst : seg (owns pg h r) hi nx es m F fst -> NoDup F -> NoDup es.*2.
Proof.
  revert m F fst. induction es as [|[b c] es IH]; intros m F fst; simpl; [constructor|].
  intros (m1 & m2 & F1 & F2 & mid & -> & -> & _ & Ht & Hs) (_ & Hd & N2)%NoDup_app. constructor; [|by eapply IH].
  intros Hin. apply (Hd c); [exact (proj2 (own_pid _ _ _ _ _ _ _ _ _ _ _ _ Ht)) | by eapply seg_children].
Qed.

(** The leaves below the lowest inner node. *)
Lemma own_children pg parent q lo hi m F fst nx p : owns pg 1 parent q lo hi m F fst nx -> NoDup F -> pg q = InternalImage p ->
  NoDup (internal_entries p).*2 /\ page_type_ (Internal.header p) = InternalPage /\
  forall c, c ∈ (internal_entries p).*2 -> c ∈ F /\ 0 <= c /\ exists s, leaf_below lmax pg q c s.
Proof.
  intros [H0 (p0 & F0 & Hp & Hh & Hok & Hsz & -> & Hs)] Hnd Hp0. assert (p0 = p) as -> by congruence.
  apply NoDup_cons in Hnd as [_ Hnd]. rewrite <- (bounds_children lo). split; [by eapply seg_nodup|]. split; [apply Hh|].
  intros c ([b c'] & -> & Hc)%list_elem_of_fmap. destruct (seg_child _ _ _ _ _ _ _ _ _ Hs Hc) as (hi' & m1 & F1 & f & n & Ho & Hsub).
  pose proof (own_pid _ _ _ _ _ _ _ _ _ _ _ _ Ho) as [Hc0 Hin]. split; [apply elem_of_cons; right; by apply Hsub|]. split; [done|].
  destruct Ho as [_ (s & Hps & Hhs & Hoks & [Hss Hms] & _)]. exists s. by repeat (split; [done|]).
Qed.

(** Whether a sibling fits does not depend on the leaf itself. *)
Lemma sibling_fits_same pg x p n pid l1 k l2 : 0 <= Internal.GetSize p -> internal_entries p = l1 ++ (k, pid) :: l2 ->
  NoDup (internal_entries p).*2 -> sibling_fits lmax (<[pid := x]> pg) p n pid = sibling_fits lmax pg p n pid.
Proof.
  intros H0 He Hnd. pose proof (length_internal p H0) as Hlen. rewrite He, length_app in Hlen. simpl in Hlen.
  rewrite He, fmap_app in Hnd. apply NoDup_app in Hnd as (_ & Hd & [Hnd _]%NoDup_cons).
  unfold sibling_fits. rewrite (ValueIndex_ok p l1 l2 k) by (done || (intros Hin; apply (Hd pid Hin); simpl; set_solver)).
  assert (Hfit : forall c, c <> pid -> leaf_fits lmax (<[pid := x]> pg) n c = leaf_fits lmax pg n c)
    by (intros c Hc; unfold leaf_fits; by rewrite fn_lookup_insert_ne).
  f_equal.
  - destruct (Z.leb_spec 0 (Z.of_nat (length l1) - 1)) as [Hpos|]; [|done]. simpl. apply Hfit.
    destruct l1 as [|[ka a] l1 _] using rev_ind; [simpl in Hpos; lia|]. rewrite length_app in *. simpl.
    replace (Z.to_nat (Z.of_nat (length l1 + 1) - 1)) with (length l1) by lia.
    rewrite (entry_at p l1 ka a ((k, pid) :: l2)) by (done || by rewrite He, <- app_assoc). simpl. intros ->. apply (Hd pid); simpl; [|set_solver].
    rewrite fmap_app. simpl. set_solver.
  - destruct (Z.ltb_spec (Z.of_nat (length l1) + 1) (Internal.GetSize p)) as [Hpos|]; [|done]. simpl. apply Hfit.
    destruct l2 as [|[kb b] l2]; [simpl in Hlen; lia|].
    pose proof (entry_at p (l1 ++ [(k, pid)]) kb b l2 H0 ltac:(by rewrite He, <- app_assoc)) as Eb. rewrite length_app in Eb. simpl in Eb.
    replace (Z.to_nat (Z.of_nat (length l1) + 1)) with (length l1 + 1)%nat by lia. rewrite Eb. simpl in *. set_solver.
Qed.

(** The outcome of a removal: nothing is allocated, and only pages of the
    tree are written or freed. *)
Definition removed t pg (h : nat) m F key t' pg' : Prop :=
  exists h' m' F', tree_own lmax imax t' pg' h' m' F' /\ to_map m' = delete key (to_map m) /\ (h' <= h)%nat /\ F' ⊆ F /\
    (forall q, q ∉ F -> pg' q = pg q) /\ sizes_ok lmax imax t' /\ slots t' = slots t /\ allocated t' = allocated t.

(** Giving back the leaf, whose pin is gone already. *)
Lemma release_leaf t pg fl x : khold t pg ∅ {[fl := op_latch OpRemove]} -> tsits t fl x ->
  exists t', UnlatchAndUnpin OpRemove [fl] t = (Ok tt, t') /\ tidle t' pg /\ same_tree t t'.
Proof.
  intros HS Hs. destruct (k_unlatch t pg _ _ fl x HS Hs (lookup_insert_eq _ _ _)) as (t1 & E1 & H1 & [S1 K1]).
  rewrite delete_singleton_eq in H1. destruct (k_unpin_again t1 pg _ _ x H1 ltac:(done)) as (t2 & E2 & H2 & [S2 _]).
  exists t2. split; [|split; [apply holding_idle; unfold khold in H2; by rewrite dom_empty_L in H2 | by eapply same_tree_trans]].
  cbn [UnlatchAndUnpin]. rewrite (bind_ok _ _ _ _ _ (k_page_id _ _ _ Hs)).
  rewrite (bind_ok (bind _ _) _ t tt t2); [done|]. by rewrite (bind_ok _ _ _ _ _ E1).
Qed.

Lemma release_two t pg q fq fl x : khold t pg {[q := (fq, 1)]} (<[fq := op_latch OpRemove]> {[fl := op_latch OpRemove]}) -> fq <> fl ->
  tsits t fl x -> exists t', UnlatchAndUnpin OpRemove [fq; fl] t = (Ok tt, t') /\ tidle t' pg /\ same_tree t t'.
Proof.
  intros HS Hne Hs. pose proof (k_sits _ _ _ _ _ _ _ HS (lookup_insert_eq _ _ _)) as Hsq.
  destruct (k_unlatch t pg _ _ fq q HS Hsq (lookup_insert_eq _ _ _)) as (t1 & E1 & H1 & [S1 K1]).
  rewrite delete_insert_id in H1 by (by rewrite lookup_singleton_ne).
  destruct (k_unpin t1 pg _ _ q fq 1 H1 (lookup_insert_eq _ _ _)) as (t2 & E2 & H2 & [S2 K2]).
  rewrite decide_True, delete_singleton_eq in H2 by done.
  destruct (release_leaf t2 pg fl x H2 (K2 _ _ (K1 _ _ Hs))) as (t3 & E3 & H3 & S3).
  exists t3. split; [|split; [done|by eapply same_tree_trans; [|eapply same_tree_trans]]].
  change (UnlatchAndUnpin OpRemove [fq; fl]) with (let* page_id := on_pool (GetPageId fq) in
    (on_pool (WUnlatch fq);;; unpin page_id true);;; UnlatchAndUnpin OpRemove [fl]).
  rewrite (bind_ok _ _ _ _ _ (k_page_id _ _ _ Hsq)).
  rewrite (bind_ok (bind _ _) _ t tt t2); [exact E3|]. by rewrite (bind_ok _ _ _ _ _ E1).
Qed.

(** A root leaf that is too small: when it is empty the tree is. *)
Lemma root_underfull fuel t pg pl fl p : whold t pg {[pl := (fl, 1)]} {[fl := op_latch OpRemove]} ->
  pg pl = LeafImage p -> node_hdr LeafPage (Leaf.header p) INVALID_PAGE_ID pl -> leaf_ok p ->
  exists t', coalesce_or_redistribute (S fuel) fl t = (Ok false, t') /\
    if Leaf.GetSize p =? 0
    then exists x, khold t' (<[pl := x]> pg) ∅ {[fl := op_latch OpRemove]} /\ tsits t' fl INVALID_PAGE_ID /\
           same_tree (SetRootPageId INVALID_PAGE_ID t) t'
    else t' = t.
Proof.
  intros HS Hp (Ht & Hi & Hpar) Hok. pose proof (leaf_size _ Hok) as Hs0.
  assert (Er : node_header fl t = (Ok (Leaf.header p), t)) by (eapply (step_read as_header); [exact HS | apply lookup_insert_eq | by rewrite Hp]).
  cbn [coalesce_or_redistribute]. rewrite (bind_ok _ _ _ _ _ Er). unfold IsRootPage. rewrite Hpar, Z.eqb_refl.
  fold (Leaf.GetSize p). destruct (Z.leb_spec (Leaf.GetSize p) 1) as [Hle|Hgt].
  2: { exists t. split; [done|]. destruct (Z.eqb_spec (Leaf.GetSize p) 0); [lia|done]. }
  assert (Ea : AdjustRoot fl t = (if Leaf.GetSize p =? 0 then (Ok true, SetRootPageId INVALID_PAGE_ID t) else (Ok false, t))).
  { unfold AdjustRoot. rewrite (bind_ok _ _ _ _ _ Er). unfold IsLeafPage. rewrite Ht, bool_decide_eq_true_2 by done. simpl.
    unfold Leaf.GetSize. by destruct (size_ (Leaf.header p) =? 0). }
  destruct (Leaf.GetSize p =? 0) eqn:E0.
  - assert (HS1 : khold (SetRootPageId INVALID_PAGE_ID t) pg {[pl := (fl, 1)]} {[fl := op_latch OpRemove]}) by apply HS.
    destruct (k_drop _ _ _ _ pl fl (Leaf.header p) HS1 (lookup_insert_eq _ _ _)) as (t1 & t2 & x & E1 & Eh & E2 & H2 & S2 & Hsit & _); [by rewrite Hp|].
    rewrite delete_singleton_eq in H2.
    exists t2. split; [|by exists x].
    rewrite (bind_ok (when _ _) _ t tt t2); [done|]. cbn [when]. rewrite (bind_ok _ _ _ _ _ Ea). cbn [when].
    assert (Er' : node_header fl (SetRootPageId INVALID_PAGE_ID t) = (Ok (Leaf.header p), SetRootPageId INVALID_PAGE_ID t))
      by (eapply (k_read as_header); [exact HS1 | apply lookup_insert_eq | by rewrite Hp]).
    rewrite (bind_ok _ _ _ _ _ Er'), Hi, (bind_ok _ _ _ _ _ E1), (bind_ok _ _ _ _ _ Eh), Hi. exact E2.
  - exists t. split; [|done]. rewrite (bind_ok (when _ _) _ t tt t); [done|]. cbn [when]. by rewrite (bind_ok _ _ _ _ _ Ea).
Qed.

(** The whole tree after a leaf was merged into another below [q]. *)
Lemma merged_plug pg pg' parent pl lo hi ML MR Fc q path f n root HT m F a b :
  own_ctx lmax imax pg 0 parent pl lo hi ML MR Fc (q :: path) f n root HT -> owns pg 0 parent pl lo hi m F f n -> NoDup (F ++ Fc) ->
  merged lmax pg pg' q a b ->
  exists fst F', owns pg' HT INVALID_PAGE_ID root (-1) key_top (ML ++ m ++ MR) F' fst INVALID_PAGE_ID /\ NoDup F' /\ F' ⊆ F ++ Fc /\
    (forall r, r ∉ F ++ Fc -> pg' r = pg r).
Proof.
  intros Hc Ho Hnd Hm. destruct (ctx_up _ _ _ _ _ _ _ _ _ _ _ _ _ _ _ _ _ _ _ Hc Ho) as
    (-> & gp & lo' & hi' & ML' & MR' & m' & F1 & Fc' & f' & n' & p & l1 & k & l2 & Ho' & Hc' & -> & HP & Hp & He).
  rewrite <- HP in Hnd. apply NoDup_app in Hnd as (N1 & Nd & N2).
  assert (Hfr : forall r, r ∉ F1 -> pg' r = pg r).
  { intros r Hr. destruct (own_children _ _ _ _ _ _ _ _ _ _ Ho' N1 Hp) as (_ & _ & Hch).
    destruct Hm as (p0 & _ & _ & _ & _ & m1 & ka & kb & m2 & (Hp0 & Hpe & _) & _ & _ & _ & Hpg). assert (p0 = p) as -> by congruence.
    pose proof (own_pid _ _ _ _ _ _ _ _ _ _ _ _ Ho') as [_ Hq].
    assert (Hab : forall c, c ∈ [a; b] -> c ∈ F1).
    { intros c Hc0. apply Hch. rewrite Hpe, fmap_app. simpl. clear -Hc0. set_solver. }
    apply Hpg. intros Hin. apply Hr. clear -Hin Hab Hq. set_solver. }
  destruct (merge_own _ _ _ _ _ _ _ _ _ _ _ _ _ _ Ho' N1 Hm) as (F2 & Ho2 & HP2).
  assert (Hc2 : own_ctx lmax imax pg' 1 gp q lo' hi' ML' MR' Fc' path f' n' root HT).
  { eapply ctx_frame; [|exact Hc']. intros r Hr. apply Hfr. intros Hr'. by apply (Nd r). }
  destruct (plug _ _ _ _ _ _ _ _ _ _ _ _ _ _ _ _ _ _ Hc2 Ho2) as (fst & F' & Hown & HP3).
  assert (Hsub : F2 ⊆ F1) by (rewrite HP2; clear; set_solver).
  exists fst, F'. split; [done|]. split; [|split].
  - rewrite HP3. rewrite HP2 in N1. apply NoDup_cons in N1 as [_ N1]. apply NoDup_app. split_and!; [done | | done]. intros x Hx. by apply Nd, Hsub.
  - rewrite HP3, <- HP. clear -Hsub. set_solver.
  - intros r Hr. apply Hfr. intros Hr'. apply Hr. rewrite <- HP. apply elem_of_app. by left.
Qed.

Lemma underfull_inner fuel t pg pl fl q fq p pp parent lo hi ML MR Fc path f nx root HT :
  whold t pg (pin_all [(q, fq); (pl, fl)] ∅) (latch_all OpRemove [(q, fq); (pl, fl)] ∅) -> sizes_ok lmax imax t -> (3 <= slots t)%nat ->
  q <> pl -> fq <> fl -> owns pg 0 parent pl lo hi (leaf_entries p) [pl] f nx -> pg pl = LeafImage p ->
  own_ctx lmax imax pg 0 parent pl lo hi ML MR Fc (q :: path) f nx root HT -> NoDup (pl :: Fc) ->
  pg q = InternalImage pp -> roomy imax (Internal.header pp) = true -> sibling_fits lmax pg pp (Leaf.GetSize p) pl = true ->
  exists t1 t' pg' fst F', coalesce_or_redistribute (S (S fuel)) fl t = (Ok false, t1) /\ UnlatchAndUnpin OpRemove [fq; fl] t1 = (Ok tt, t') /\
    tidle t' pg' /\ same_tree t t' /\ owns pg' HT INVALID_PAGE_ID root (-1) key_top (ML ++ leaf_entries p ++ MR) F' fst INVALID_PAGE_ID /\
    NoDup F' /\ F' ⊆ pl :: Fc /\ (forall r, r ∉ pl :: Fc -> pg' r = pg r).
Proof.
  intros HS Hso Hsl Hne Hfe Ho Hp Hc Hnd Hpp Hroom Hfit.
  destruct (ctx_up _ _ _ _ _ _ _ _ _ _ _ _ _ _ _ _ _ _ _ Hc Ho) as
    (-> & gp & lo' & hi' & ML' & MR' & m' & F1 & Fc' & f' & n' & p0 & l1 & k & l2 & Ho' & Hc' & _ & HP & Hp0 & He).
  assert (p0 = pp) as -> by congruence.
  assert (N1 : NoDup F1) by (change (pl :: Fc) with ([pl] ++ Fc) in Hnd; rewrite <- HP in Hnd; by apply NoDup_app in Hnd as [? _]).
  destruct (own_children _ _ _ _ _ _ _ _ _ _ Ho' N1 Hpp) as (Nc & Hty & Hch).
  assert (Hpl : pl ∈ (internal_entries pp).*2) by (rewrite He, fmap_app; simpl; clear; set_solver).
  assert (Hroom3 : 3 <= Internal.GetSize pp).
  { unfold roomy in Hroom. fold (Internal.GetSize pp) in Hroom. pose proof (so_internal _ _ _ Hso). destruct (IsRootPage _); [lia|].
    apply Z.ltb_lt in Hroom. div_lia. }
  assert (Hfam : family lmax pg (pin_all [(q, fq); (pl, fl)] ∅) q pl p pp l1 k l2).
  { constructor; auto.
    - destruct (Hch pl Hpl) as (_ & _ & s & Hs). pose proof Hs as [Hs' _]. by assert (s = p) as -> by congruence.
    - exact (proj1 (own_pid _ _ _ _ _ _ _ _ _ _ _ _ Ho')).
    - intros c Hcin Hcne. destruct (Hch c Hcin) as (_ & Hc0 & s & Hs). split; [|by eauto].
      simpl. rewrite !lookup_insert_ne; [done | done |]. intros ->. destruct Hs as [Hs _]. congruence. }
  assert (Hq1 : pin_all [(q, fq); (pl, fl)] ∅ !! q = Some (fq, 1)) by apply lookup_insert_eq.
  assert (Hpl1 : pin_all [(q, fq); (pl, fl)] ∅ !! pl = Some (fl, 1)) by (simpl; rewrite lookup_insert_ne by done; apply lookup_insert_eq).
  pose proof (size_pin_all [(q, fq); (pl, fl)]) as Hsz. simpl in Hsz.
  destruct (merge_underfull lmax imax fuel t pg _ _ q fq 1 pl fl p pp l1 k l2 HS Hso Hq1 ltac:(lia) Hpl1 ltac:(simpl; lia) Hfam Hroom3 Hroom Hfit)
    as (a & b & t1 & E1 & pg' & x & H1 & S1 & Hsx & Hx & Hm).
  assert (EH : delete pl (pin_all [(q, fq); (pl, fl)] ∅) = {[q := (fq, 1)]}).
  { simpl. rewrite delete_insert_ne by done. by rewrite delete_insert_id. }
  rewrite EH in H1. destruct (release_two t1 pg' q fq fl x H1 Hfe Hsx) as (t2 & E2 & H2 & S2).
  destruct (merged_plug pg pg' _ _ _ _ _ _ _ _ _ _ _ _ _ _ _ _ _ Hc Ho Hnd Hm) as (fst & F' & Hown & Hnd' & Hsub & Hpg).
  exists t1, t2, pg', fst, F'. repeat (split; [done|]). split; [by eapply same_tree_trans|]. by repeat (split; [done|]).
Qed.

(** What the write of the leaf leaves to do. *)
Definition rest (fl pl : Z) (page_set : list Z) : M BPlusTree unit :=
  let* h := node_header fl in
  let* min_size := gets (MinSize h) in
  when (size_ h <? min_size)
    (let* delete_leaf := CoalesceOrRedistribute fl in
     when delete_leaf (delete_page pl));;;
  UnlatchAndUnpin OpRemove page_set.

Lemma rest_large t pg pl fl p ps path : whold t pg (pin_all ps ∅) (latch_all OpRemove ps ∅) -> sizes_ok lmax imax t -> pageset ps path ->
  pin_all ps ∅ !! pl = Some (fl, 1) -> pg pl = LeafImage p -> page_type_ (Leaf.header p) = LeafPage -> lmax / 2 <= Leaf.GetSize p ->
  exists t', rest fl pl ps.*2 t = (Ok tt, t') /\ tidle t' pg /\ same_tree t t'.
Proof.
  intros HS Hso Hps Hpl Hp Hty Hsz. destruct (w_release_all OpRemove t pg ps path ltac:(done) Hps HS) as (t' & E & H' & S).
  exists t'. split; [|by split]. unfold rest, node_header.
  erewrite bind_ok by (eapply (step_read as_header); [exact HS | exact Hpl | by rewrite Hp]).
  rewrite (bind_ok (gets _) _ t (lmax / 2) t) by (unfold gets; by rewrite (MinSize_leaf lmax imax)).
  fold (Leaf.GetSize p). destruct (Z.ltb_spec (Leaf.GetSize p) (lmax / 2)); [lia|]. by rewrite (bind_ok (when _ _) _ t tt t).
Qed.

Lemma rest_small t pg H L pl fl p page_set t1 t2 : whold t pg H L -> sizes_ok lmax imax t ->
  H !! pl = Some (fl, 1) -> pg pl = LeafImage p -> page_type_ (Leaf.header p) = LeafPage -> Leaf.GetSize p < lmax / 2 ->
  CoalesceOrRedistribute fl t = (Ok false, t1) -> UnlatchAndUnpin OpRemove page_set t1 = (Ok tt, t2) ->
  rest fl pl page_set t = (Ok tt, t2).
Proof.
  intros HS Hso Hpl Hp Hty Hsz E1 E2. unfold rest, node_header.
  erewrite bind_ok by (eapply (step_read as_header); [exact HS | exact Hpl | by rewrite Hp]).
  rewrite (bind_ok (gets _) _ t (lmax / 2) t) by (unfold gets; by rewrite (MinSize_leaf lmax imax)).
  fold (Leaf.GetSize p). destruct (Z.ltb_spec (Leaf.GetSize p) (lmax / 2)); [|lia]. cbn [when].
  rewrite (bind_ok (bind _ _) _ t tt t1); [done|]. by rewrite (bind_ok _ _ _ _ _ E1).
Qed.

(** *** After the write of the leaf *)

(** From the tree [t] with pages [pg] the descent for [key] reached the leaf [pl],
    below [path], and wrote [p1] for [p]; this made [t1] and [pg1]. *)
Record written t pg key m F HT fl ps pl ps0 p p1 parent lo hi ML MR Fc path nx t1 pg1 : Prop := {
  wr_ps : ps = ps0 ++ [(pl, fl)];
  wr_pageset : pageset ps (pl :: path);
  wr_kept : ps.*1 = reverse (kept OpRemove t pg (pl :: path));
  wr_pin : pin_all ps ∅ !! pl = Some (fl, 1);
  wr_hold : whold t1 pg1 (pin_all ps ∅) (latch_all OpRemove ps ∅);
  wr_same : same_tree t t1;
  wr_sizes : sizes_ok lmax imax t;
  wr_page : pg pl = LeafImage p;
  wr_pages : pg1 = <[pl := LeafImage p1]> pg;
  wr_hdr : node_hdr LeafPage (Leaf.header p) parent pl;
  wr_hdr1 : Leaf.header p1 = SetSize (Leaf.GetSize p1) (Leaf.header p);
  wr_size : Leaf.GetSize p - 1 <= Leaf.GetSize p1;
  wr_ok : leaf_ok p1;
  wr_own : owns pg1 0 parent pl lo hi (leaf_entries p1) [pl] pl nx;
  wr_ctx : own_ctx lmax imax pg1 0 parent pl lo hi ML MR Fc path pl nx (tree_root t) HT;
  wr_map : to_map (ML ++ leaf_entries p1 ++ MR) = delete key (to_map m);
  wr_perm : pl :: Fc ≡ₚ F;
  wr_nodup : NoDup (pl :: Fc);
}.

Lemma write_leaf_ok t pg key m F HT fl ps p fuel : at_leaf lmax imax OpRemove t pg key m F (tree_root t) HT fl ps ->
  key_wf key -> sizes_ok lmax imax t -> NoDup F -> on_pool (read_as as_leaf fl) t = (Ok p, t) ->
  local_removal pg fuel None (tree_root t) key = true ->
  let p1 := Leaf.RemoveAndDeleteRecord key p in
  exists pl ps0 parent lo hi ML MR Fc path nx t1 pg1, page_id_ (Leaf.header p) = pl /\ put_leaf fl p1 t = (Ok tt, t1) /\
    leaf_removal pg (above_of pg path) p pl key = true /\
    written t pg key m F HT fl ps pl ps0 p p1 parent lo hi ML MR Fc path nx t1 pg1.
Proof.
  intros Hat Hk Hso Hnd Hread Hloc p1. destruct (at_leaf_lookup _ _ _ _ _ _ _ _ _ _ _ _ Hk Hat) as (_ & _ & _ & _ & _ & Hmok & _).
  destruct Hat as (pl & ps0 & p' & parent & lo & hi & ML & MR & Fc & path & nx & Eps & HS & Hps & Hp & Hkr & Ho & Hc & Hm & HP & Hkp).
  assert (Hpl : pin_all ps ∅ !! pl = Some (fl, 1)).
  { rewrite Eps, pin_all_app, lookup_pin_all_ne; [apply lookup_insert_eq|]. destruct Hps as [N1 _ _]. rewrite Eps, fmap_app in N1.
    apply NoDup_app in N1 as (_ & Hd & _). intros Hin. apply (Hd pl Hin). set_solver. }
  assert (p' = p) as ->.
  { pose proof (step_read as_leaf _ _ _ _ _ pl fl 1 p' HS Hpl ltac:(by rewrite Hp)) as Hr. rewrite Hread in Hr. by simplify_eq. }
  pose proof Ho as [_ (p0 & Hp0 & Hh & Hok & _)]. assert (p0 = p) as -> by congruence. clear Hp0.
  destruct (ctx_local _ _ _ _ _ _ _ _ _ _ _ _ _ _ key Hc Hk Hkr fuel Hloc) as ([|fuel'] & Hlr); [done|].
  cbn [local_removal] in Hlr. rewrite Hp in Hlr.
  destruct (RemoveAndDeleteRecord_page p key Hok Hk) as (_ & Eh1 & [_ [Hs1 _]] & _).
  pose proof (own_remove lmax imax pg parent pl lo hi p nx key Ho Hp Hk) as Ho1.
  rewrite <- HP in Hnd. pose proof Hnd as [HplF HndF]%NoDup_cons.
  assert (Hc1 : own_ctx lmax imax (<[pl := LeafImage p1]> pg) 0 parent pl lo hi ML MR Fc path pl nx (tree_root t) HT).
  { eapply ctx_frame; [|exact Hc]. intros q Hq. rewrite fn_lookup_insert_ne; [done|intros ->; done]. }
  destruct (plug _ _ _ _ _ _ _ _ _ _ _ _ _ _ _ _ _ _ Hc1 Ho1) as (fst1 & F1 & Hown1 & _).
  destruct (w_write t pg _ _ pl fl 1 (LeafImage p1) HS Hpl) as (t1 & E1 & H1 & S1).
  exists pl, ps0, parent, lo, hi, ML, MR, Fc, path, nx, t1, (<[pl := LeafImage p1]> pg).
  split; [apply Hh|]. split; [exact E1|]. split; [exact Hlr|]. constructor; try done; [by apply Remove_ok|].
  destruct (ctx_range _ _ _ _ _ _ _ _ _ _ _ _ _ _ _ _ Hc) as [R1 R2]. rewrite Hm in *.
  apply to_map_delete; [done | by eapply tree_rep_ok, own_rep | by apply Remove_ok | |];
    intros ([k0 v0] & -> & Hin)%list_elem_of_fmap; [specialize (R1 _ Hin) | specialize (R2 _ Hin)]; simpl in *; lia.
Qed.

Section Written.

Context t pg key m F HT fl ps pl ps0 p p1 parent lo hi ML MR Fc path nx t1 pg1
  (W : written t pg key m F HT fl ps pl ps0 p p1 parent lo hi ML MR Fc path nx t1 pg1).

Lemma written_page : pg1 pl = LeafImage p1.
Proof using W. rewrite (wr_pages _ _ _ _ _ _ _ _ _ _ _ _ _ _ _ _ _ _ _ _ _ _ W). apply fn_lookup_insert. Qed.

Lemma written_type : page_type_ (Leaf.header p1) = LeafPage.
Proof using W. destruct W as [_ _ _ _ _ _ _ _ _ [Ht _] -> _ _ _ _ _ _ _]. done. Qed.

Lemma written_sizes : sizes_ok lmax imax t1.
Proof using W. destruct W as [_ _ _ _ _ S Hso _ _ _ _ _ _ _ _ _ _ _]. exact (sizes_conf _ _ _ _ Hso (proj1 (same_conf _ _ S))). Qed.

(** Any outcome that is a tree with the right contents will do. *)
Lemma written_done t' pg' F' fst : same_tree t1 t' ->
  owns pg' HT INVALID_PAGE_ID (tree_root t) (-1) key_top (ML ++ leaf_entries p1 ++ MR) F' fst INVALID_PAGE_ID ->
  NoDup F' -> F' ⊆ pl :: Fc -> (forall r, r ∉ pl :: Fc -> pg' r = pg1 r) -> removed t pg HT m F key t' pg'.
Proof using W.
  destruct W as [_ _ _ _ _ S Hso _ Epg _ _ _ _ _ _ Hm HP Hnd]. intros S' Hown' Hnd' Hsub Hpg'.
  destruct (same_conf _ _ (same_tree_trans _ _ _ S S')) as [C' A']. pose proof C' as (R' & _ & _ & Sl').
  exists HT, (ML ++ leaf_entries p1 ++ MR), F'. split; [right; split; [done|]; exists fst; by rewrite R'|]. split; [done|]. split; [done|].
  split; [by rewrite <- HP|]. split; [|split; [exact (sizes_conf _ _ _ _ Hso C') | by split]].
  intros r Hr. rewrite <- HP in Hr. rewrite Hpg', Epg by done. rewrite fn_lookup_insert_ne; [done|]. intros ->. apply Hr, elem_of_cons. by left.
Qed.

(** Nothing else was changed. *)
Lemma written_only t' : same_tree t1 t' -> removed t pg HT m F key t' pg1.
Proof using W.
  intros S'. pose proof W as [_ _ _ _ _ _ _ _ _ _ _ _ _ Ho Hc _ _ Hnd].
  destruct (plug _ _ _ _ _ _ _ _ _ _ _ _ _ _ _ _ _ _ Hc Ho) as (fst1 & F1 & Hown1 & HP1).
  apply (written_done t' pg1 F1 fst1); [done | done | by rewrite HP1 | by rewrite HP1 | done].
Qed.

Lemma written_large : lmax / 2 <= Leaf.GetSize p1 ->
  exists t' pg', rest fl pl ps.*2 t1 = (Ok tt, t') /\ tidle t' pg' /\ removed t pg HT m F key t' pg'.
Proof using W.
  intros Hlarge. pose proof W as [_ Hps _ Hpl H1 _ _ _ _ _ _ _ _ _ _ _ _ _].
  destruct (rest_large t1 pg1 pl fl p1 ps _ H1 written_sizes Hps Hpl written_page written_type Hlarge) as (t2 & E2 & H2 & S2).
  exists t2, pg1. split; [done|]. split; [done|]. by apply written_only.
Qed.

Lemma written_small t2 t3 : Leaf.GetSize p1 < lmax / 2 -> coalesce_or_redistribute (tree_fuel t1) fl t1 = (Ok false, t2) ->
  UnlatchAndUnpin OpRemove ps.*2 t2 = (Ok tt, t3) -> rest fl pl ps.*2 t1 = (Ok tt, t3).
Proof using W.
  intros Hsmall E2 E3. pose proof W as [_ _ _ Hpl H1 _ _ _ _ _ _ _ _ _ _ _ _ _].
  eapply rest_small; [exact H1 | apply written_sizes | exact Hpl | apply written_page | apply written_type | done | | exact E3].
  unfold CoalesceOrRedistribute. by rewrite (bind_ok get _ t1 t1 t1).
Qed.

Lemma written_root : path = [] -> Leaf.GetSize p1 < lmax / 2 ->
  exists t' pg', rest fl pl ps.*2 t1 = (Ok tt, t') /\ tidle t' pg' /\ removed t pg HT m F key t' pg'.
Proof using W.
  intros Hpath Hsmall. pose proof W as [Eps Hps Hkp _ H1 S1 Hso _ Epg Hh Eh1 _ Hok1 _ Hc Hm HP _].
  rewrite Hpath in Hps, Hkp, Hc. destruct (ctx_root _ _ _ _ _ _ _ _ _ _ _ _ _ _ _ _ Hc) as [Hpar _]. rewrite Hpar in Hh.
  assert (Eps' : ps = [(pl, fl)]).
  { assert (Hk1 : kept OpRemove t pg [pl] = [pl]) by (simpl; by destruct (page_safe _ _ _)).
    rewrite Eps, fmap_app, Hk1 in Hkp. apply (f_equal length) in Hkp. rewrite length_app, length_fmap, length_reverse in Hkp. simpl in Hkp.
    destruct ps0; [done | simpl in Hkp; lia]. }
  rewrite Eps' in H1, Hps. assert (Hhdr1 : node_hdr LeafPage (Leaf.header p1) INVALID_PAGE_ID pl) by (rewrite Eh1; exact Hh).
  destruct (root_underfull (pred (tree_fuel t1)) t1 pg1 pl fl p1 H1 written_page Hhdr1 Hok1) as (t2 & E2 & Hcase).
  change (S (pred (tree_fuel t1))) with (tree_fuel t1) in E2.
  destruct (Z.eqb_spec (Leaf.GetSize p1) 0) as [Hz|Hnz].
  - destruct Hcase as (x & H2 & Hsx & S2). destruct (release_leaf t2 _ fl _ H2 Hsx) as (t3 & E3 & H3 & S3).
    exists t3, (<[pl := x]> pg1). split; [eapply written_small; [done | exact E2 | by rewrite Eps']|]. split; [done|].
    pose proof (same_tree_trans _ _ _ S2 S3) as (R3 & L3 & I3 & Sl3 & A3). pose proof S1 as (_ & L1 & I1 & Sl1' & A1').
    exists 0%nat, [], []. split; [left; by split_and!|]. split.
    { rewrite <- Hm. inversion Hc; subst. rewrite !app_nil_l, app_nil_r. unfold leaf_entries. rewrite Hz. reflexivity. }
    split; [lia|]. split; [apply list_subseteq_nil|]. split.
    { intros r Hr. rewrite <- HP in Hr. rewrite Epg. rewrite !fn_lookup_insert_ne; [done|intros ->; apply Hr, elem_of_cons; by left..]. }
    destruct Hso as [o1 o2 o3 o4]. split; [constructor; simpl in *; congruence || lia|]. unfold slots, allocated in *. simpl in *. split; congruence.
  - subst t2. destruct (w_release_all OpRemove t1 pg1 [(pl, fl)] _ ltac:(done) Hps H1) as (t3 & E3 & H3 & S3).
    exists t3, pg1. split; [eapply written_small; [done | exact E2 | by rewrite Eps']|]. split; [done|]. by apply written_only.
Qed.

(** The page set of an unsafe leaf below a node that can lose a child. *)
Lemma written_two q path' pp : path = q :: path' -> Leaf.GetSize p1 < lmax / 2 -> 0 <= q -> pg q = InternalImage pp ->
  page_type_ (Internal.header pp) = InternalPage -> roomy imax (Internal.header pp) = true -> exists fq, ps = [(q, fq); (pl, fl)] /\ fq <> fl.
Proof using W.
  intros Hpath Hsmall Hq0 Hpp Hppt Hroom. pose proof W as [Eps Hps Hkp _ _ _ Hso Hp _ (Lt & Li & Lp) _ Hs1 _ _ Hc _ _ _].
  rewrite Hpath in Hkp, Hc. destruct (ctx_root _ _ _ _ _ _ _ _ _ _ _ _ _ _ _ _ Hc) as [Hpar _].
  assert (Hk2 : kept OpRemove t pg (pl :: q :: path') = [pl; q]).
  { cbn [kept]. unfold page_safe. rewrite Hp, Hpp. cbn [as_header]. rewrite (IsSafe_leaf lmax imax), (IsSafe_internal lmax imax), Hroom by done.
    unfold IsRootPage. rewrite Lp, Hpar. destruct (Z.eqb_spec q INVALID_PAGE_ID) as [E|_]; [unfold INVALID_PAGE_ID in E; lia|].
    fold (Leaf.GetSize p). destruct (Z.ltb_spec (lmax / 2) (Leaf.GetSize p)); [lia | done]. }
  assert (exists fq, ps = [(q, fq); (pl, fl)]) as [fq Eps'].
  { clear - Eps Hkp Hk2. rewrite Eps, fmap_app, Hk2 in Hkp. destruct ps0 as [|[a fa] [|[b fb] ps1]]; [done | | ].
    - simpl in Hkp. injection Hkp as ->. exists fa. exact Eps.
    - apply (f_equal length) in Hkp. rewrite length_app in Hkp. simpl in Hkp. lia. }
  exists fq. split; [done|]. destruct Hps as [_ Nf _]. rewrite Eps' in Nf. simpl in Nf. apply NoDup_cons in Nf as [Nf _].
  intros ->. by apply Nf, list_elem_of_singleton.
Qed.

Lemma written_inner q path' pp : path = q :: path' -> Leaf.GetSize p1 < lmax / 2 -> (3 <= slots t1)%nat -> pg q = InternalImage pp ->
  roomy imax (Internal.header pp) = true -> sibling_fits lmax pg pp (Leaf.GetSize p1) pl = true ->
  exists t' pg', rest fl pl ps.*2 t1 = (Ok tt, t') /\ tidle t' pg' /\ removed t pg HT m F key t' pg'.
Proof using W.
  intros Hpath Hsmall Hsl Hpp Hroom Hfits. pose proof W as [_ _ _ _ H1 _ _ _ Epg _ _ _ _ Ho Hc _ _ Hnd]. rewrite Hpath in Hc.
  destruct (ctx_up _ _ _ _ _ _ _ _ _ _ _ _ _ _ _ _ _ _ _ Hc Ho) as
    (Hqp & gp & lo' & hi' & ML' & MR' & m' & F2 & Fc' & f' & n' & pp' & l1 & k & l2 & Ho' & _ & _ & HP2 & Hpp1 & He). rewrite Hqp in Ho, Hc.
  pose proof Hnd as [HplF HndF]%NoDup_cons.
  assert (HqF : q ∈ Fc) by (exact (ctx_path_sub _ _ _ _ _ _ _ _ _ _ _ _ _ _ _ _ Hc q ltac:(apply elem_of_cons; by left))).
  assert (Hqne : q <> pl) by (intros ->; done).
  assert (pp' = pp) as ->. { rewrite Epg, fn_lookup_insert_ne in Hpp1 by done. congruence. }
  assert (N2 : NoDup F2) by (change (pl :: Fc) with ([pl] ++ Fc) in Hnd; rewrite <- HP2 in Hnd; by apply NoDup_app in Hnd as [? _]).
  destruct (own_children _ _ _ _ _ _ _ _ _ _ Ho' N2 Hpp1) as (Nc & Hppt & _).
  pose proof (proj1 (own_pid _ _ _ _ _ _ _ _ _ _ _ _ Ho')) as Hq0.
  assert (Hsz0 : 0 <= Internal.GetSize pp).
  { destruct Ho' as [_ (p0 & _ & Hp0 & _ & Hokp & _)]. assert (p0 = pp) as -> by congruence. destruct Hokp. lia. }
  rewrite <- (sibling_fits_same pg (LeafImage p1) pp _ pl l1 k l2 Hsz0 He Nc), <- Epg in Hfits.
  destruct (written_two q path' pp Hpath Hsmall Hq0 Hpp Hppt Hroom) as (fq & Eps' & Hfe). rewrite Eps' in H1.
  destruct (underfull_inner (tree_fuel t1 - 2) t1 pg1 pl fl q fq p1 pp q lo hi ML MR Fc path' pl nx (tree_root t) HT
    H1 written_sizes Hsl Hqne Hfe Ho written_page Hc Hnd Hpp1 Hroom Hfits) as (t2 & t3 & pg3 & fst & F3 & E2 & E3 & H3 & S3 & Hown3 & Hnd3 & Hsub3 & Hpg3).
  pose proof (path_fuel lmax imax _ _ _ _ _ _ _ _ _ _ _ _ _ _ _ _ _ H1 Hc HndF) as Hfuel. simpl in Hfuel.
  replace (S (S (tree_fuel t1 - 2))) with (tree_fuel t1) in E2 by lia.
  exists t3, pg3. split; [eapply written_small; [done | exact E2 | by rewrite Eps']|]. split; [done|].
  by apply (written_done t3 pg3 F3 fst).
Qed.

End Written.

Lemma remove_at_leaf t pg key m F HT fl ps p fuel : at_leaf lmax imax OpRemove t pg key m F (tree_root t) HT fl ps ->
  key_wf key -> sizes_ok lmax imax t -> NoDup F -> on_pool (read_as as_leaf fl) t = (Ok p, t) ->
  (3 <= slots t)%nat -> local_removal pg fuel None (tree_root t) key = true ->
  exists t' pg', (put_leaf fl (Leaf.RemoveAndDeleteRecord key p);;; rest fl (page_id_ (Leaf.header p)) ps.*2) t = (Ok tt, t') /\
    tidle t' pg' /\ removed t pg HT m F key t' pg'.
Proof.
  intros Hat Hk Hso Hnd Hread Hsl Hloc.
  destruct (write_leaf_ok t pg key m F HT fl ps p fuel Hat Hk Hso Hnd Hread Hloc) as
    (pl & ps0 & parent & lo & hi & ML & MR & Fc & path & nx & t1 & pg1 & -> & E1 & Hlr & W).
  rewrite (bind_ok _ _ _ _ _ E1). unfold leaf_removal in Hlr.
  destruct (Z.leb_spec (lmax / 2) (Leaf.GetSize (Leaf.RemoveAndDeleteRecord key p))) as [Hlarge|Hsmall]; [by eapply written_large|].
  simpl in Hlr. destruct path as [|q path]; [by eapply written_root|].
  pose proof W as [_ _ _ _ _ S _ _ Epg _ _ _ _ Ho Hc _ _ Hnd']. unfold above_of in Hlr.
  destruct (ctx_up _ _ _ _ _ _ _ _ _ _ _ _ _ _ _ _ _ _ _ Hc Ho) as
    (_ & _ & _ & _ & _ & _ & _ & _ & _ & _ & _ & pp & _ & _ & _ & _ & _ & _ & _ & Hpp & _).
  assert (Hqne : q <> pl).
  { intros ->. apply NoDup_cons in Hnd' as [Hn _]. apply Hn. apply (ctx_path_sub _ _ _ _ _ _ _ _ _ _ _ _ _ _ _ _ Hc), elem_of_cons. by left. }
  rewrite Epg, fn_lookup_insert_ne in Hpp by done. rewrite Hpp in Hlr. apply andb_true_iff in Hlr as [Hroom Hfits].
  eapply written_inner; [exact W | done | done | | exact Hpp | done | done].
  destruct (same_conf _ _ S) as [(_ & _ & _ & Sl) _]. lia.
Qed.

Lemma remove_ok t pg h m F key fuel : tidle t pg -> sizes_ok lmax imax t -> tree_own lmax imax t pg h m F -> key_wf key ->
  (h + 3 <= slots t)%nat ->
  if IsEmpty t then Remove key t = (Fail (Throw runtime_error "Empty tree"), t)
  else local_removal pg fuel None (tree_root t) key = true ->
    exists t' pg', Remove key t = (Ok tt, t') /\ tidle t' pg' /\ removed t pg h m F key t' pg'.
Proof.
  intros HS Hso Hown Hk Hsl. destruct (IsEmpty t) eqn:Ee; [unfold Remove; rewrite (bind_ok get _ t t t) by done; by rewrite Ee|].
  intros Hloc. destruct Hown as [(Hr & _)|(Hnd & fst & Ho)]; [unfold IsEmpty in Ee; by rewrite Hr, Z.eqb_refl in Ee|].
  destruct (find_leaf_page lmax imax OpRemove t pg h m F fst key) as (fl & ps & t2 & E2 & S2 & Hat); auto; [lia|].
  destruct (same_conf _ _ S2) as [C2 A2]. pose proof C2 as (R2 & _ & _ & Sl2).
  unfold Remove. rewrite (bind_ok get _ t t t), Ee, (bind_ok _ _ _ _ _ E2) by done. cbv beta iota.
  destruct (at_leaf_lookup _ _ _ _ _ _ _ _ _ _ _ _ Hk Hat) as (pl & p & Hp & Hok & Hpin & _).
  pose proof Hat as (_ & _ & _ & _ & _ & _ & _ & _ & _ & _ & _ & _ & H2 & _).
  assert (Hread : on_pool (read_as as_leaf fl) t2 = (Ok p, t2)) by (eapply step_read; [exact H2 | exact Hpin | by rewrite Hp]).
  unfold leaf_at. rewrite (bind_ok _ _ _ _ _ Hread). rewrite <- R2 in Hat, Hloc.
  destruct (remove_at_leaf t2 pg key m F h fl ps p fuel Hat Hk (sizes_conf _ _ _ _ Hso C2) Hnd Hread ltac:(lia) Hloc) as (t3 & pg3 & E3 & H3 & Hrem).
  exists t3, pg3. split; [exact E3|]. split; [done|].
  destruct Hrem as (h' & m' & F' & B1 & B2 & B3 & B4 & B5 & B6 & B7 & B8). exists h', m', F'. repeat (split; [done|]). split; congruence.
Qed.

End RemoveOk.

(** ** Properties *)


(** A root of three leaves, the first with one entry: without it, that leaf is
    merged with the second. *)
Definition thin_file : list page_image :=
  [linked_leaf 0 3 1 [entry 1]; linked_leaf 1 3 2 [entry 3; entry 4]; linked_leaf 2 3 (-1) [entry 6; entry 7];
   internal_of 3 (-1) [(zero_key, 0); (KeyEncoder_int64 3, 1); (KeyEncoder_int64 6, 2)]].
Definition thin_tree : BPlusTree := mkTree (Pool_new 6 thin_file) 3 3 3.
Definition thin_pages (q : Z) : page_image := load Zeroed (Z.to_nat q) thin_file.
Definition thin_entries : list (bytes * RID) := [entry 1; entry 3; entry 4; entry 6; entry 7].

Lemma thin_tree_own : tree_own 3 3 thin_tree thin_pages 1 thin_entries [3; 0; 1; 2].
Proof.
  right. split; [apply (bool_decide_eq_true_1 _); vm_compute; reflexivity|]. exists 0. split; [done|].
  eexists _, [0; 1; 2]. split; [reflexivity|]. split; [done|].
  split; [split; [vm_compute; discriminate | concrete_entries]|]. split; [split; vm_compute; discriminate|]. split; [done|].
  exists [entry 1], [entry 3; entry 4; entry 6; entry 7], [0], [1; 2], 1.
  split; [done|]. split; [done|]. split; [vm_compute; reflexivity|].
  split; [apply linked_leaf_own; [done | reflexivity | concrete_entries | simpl; lia | concrete_range]|].
  exists [entry 3; entry 4], [entry 6; entry 7], [1], [2], 2.
  split; [done|]. split; [done|]. split; [vm_compute; reflexivity|].
  split; [apply linked_leaf_own; [done | reflexivity | concrete_entries | simpl; lia | concrete_range]|].
  exists [entry 6; entry 7], [], [2], [], (-1).
  split; [done|]. split; [done|]. split; [vm_compute; reflexivity|].
  split; [apply linked_leaf_own; [done | reflexivity | concrete_entries | simpl; lia | concrete_range] | done].
Qed.


(** *** A freed frame that stays pinned

    When the root loses its last separator, [AdjustRoot] makes its only child
    the root; the old root, which the page set and the fetch of the parent pin,
    is unpinned once less than it was pinned before its page is deleted. *)
Definition pair_file : list page_image :=
  [linked_leaf 0 2 1 [entry 1]; linked_leaf 1 2 (-1) [entry 3];
   internal_of 2 (-1) [(zero_key, 0); (KeyEncoder_int64 3, 1)]].
Definition pair_tree : BPlusTree := mkTree (Pool_new 6 pair_file) 2 3 3.

Lemma collapse_leaves_pin : let (r, t) := Remove (KeyEncoder_int64 1) pair_tree in
  r = Ok tt /\ tree_root t = 0 /\ 5 ∈ free_list (buffer_pool_manager_ t) /\
  option_map (fun p => (page_id p, pin_count p)) (pages (buffer_pool_manager_ t) !! 5%nat) = Some (INVALID_PAGE_ID, 1).
Proof.
  destruct (Remove (KeyEncoder_int64 1) pair_tree) as [r t] eqn:E. vm_compute in E. injection E as <- <-.
  split; [done|]. split; [done|]. split; [simpl; set_solver | done].
Qed.
