(* ===== verification/TupleStore.v ===== *)
(** * The tuple store

    Models [Storage/TupleStore]: values in slotted pages, byte for byte. A
    value page starts with a 12-byte header, followed by a directory of 8-byte
    slots growing up, while the values fill the page from its end down. *)

From S2P Require Import Prelude KeyCodec Replacer BufferPool PageImage.

(** ** The page layout *)

Definition sizeof_ValuePageHeader : nat := 12.
Definition sizeof_ValueSlot : nat := 8.
Definition kTombstone : Z := 0xFFFFFFFF.

(** Little-endian 32-bit fields at a byte offset. *)
Definition get32 (off : nat) (b : bytes) : Z := le_value (slice off 4 b).
Definition put32 (off : nat) (v : Z) (b : bytes) : bytes := patch off (le_bytes 4 v) b.

Record ValuePageHeader := mkVHeader { vp_next_page_id : Z; num_slots : Z; free_ptr : Z }.
Record ValueSlot := mkSlot { offset : Z; length_ : Z }.

Definition Header (b : bytes) : ValuePageHeader :=
  mkVHeader (i32 (get32 0 b)) (get32 4 b) (get32 8 b).

Definition slot_off (idx : Z) : nat := (sizeof_ValuePageHeader + sizeof_ValueSlot * Z.to_nat idx)%nat.
Definition Slots (idx : Z) (b : bytes) : ValueSlot :=
  mkSlot (get32 (slot_off idx) b) (get32 (slot_off idx + 4) b).

(** [size_t] arithmetic: it wraps when the directory passes [free_ptr]. *)
Definition FreeSpace (hdr : ValuePageHeader) : Z :=
  let slot_dir_end := Z.of_nat sizeof_ValuePageHeader + num_slots hdr * Z.of_nat sizeof_ValueSlot in
  u64 (free_ptr hdr - slot_dir_end).

Definition InitValuePage (next : Z) (b : bytes) : bytes :=
  put32 8 PAGE_SIZE (put32 4 0 (put32 0 (u32 next) b)).

Definition MaxValueSize : Z := PAGE_SIZE - Z.of_nat sizeof_ValuePageHeader - Z.of_nat sizeof_ValueSlot.

(** [memcpy] into the page and out of it: outside the page is undefined. *)
Definition copy_to (off : Z) (v b : bytes) : result bytes :=
  if (off <? 0) || (PAGE_SIZE <? off + Z.of_nat (length v))
  then Fail (Undefined "memcpy past the page") else Ok (patch (Z.to_nat off) v b).
Definition copy_from (off len : Z) (b : bytes) : result bytes :=
  if (off <? 0) || (PAGE_SIZE <? off + len)
  then Fail (Undefined "memcpy past the page") else Ok (slice (Z.to_nat off) (Z.to_nat len) b).

(** What [Put] does to the page it found: the slot index and the page. *)
Definition page_put (value b : bytes) : result (Z * bytes) :=
  let hdr := Header b in
  let size := u32 (Z.of_nat (length value)) in
  let data_off := u32 (free_ptr hdr - size) in
  let? b := copy_to data_off value b in
  let b := put32 8 data_off b in
  let idx := num_slots (Header b) in
  let? b := copy_to (Z.of_nat (slot_off idx)) (le_bytes 4 data_off ++ le_bytes 4 size) b in
  let b := put32 4 (u32 (num_slots (Header b) + 1)) b in
  Ok (idx, b).

Definition page_get (idx : Z) (b : bytes) : result (option bytes) :=
  if idx <? num_slots (Header b) then
    let slot := Slots idx b in
    if length_ slot =? kTombstone then Ok None
    else let? v := copy_from (offset slot) (length_ slot) b in Ok (Some v)
  else Ok None.

(** [None] when there is no live value in the slot. *)
Definition page_delete (idx : Z) (b : bytes) : option bytes :=
  if (idx <? num_slots (Header b)) && negb (length_ (Slots idx b) =? kTombstone)
  then Some (put32 (slot_off idx + 4) kTombstone b) else None.

(** [None] when the value does not fit in place. *)
Definition page_update (idx : Z) (value b : bytes) : result (option bytes) :=
  if (idx <? num_slots (Header b)) && negb (length_ (Slots idx b) =? kTombstone) &&
     (Z.of_nat (length value) <=? length_ (Slots idx b))
  then let? b' := copy_to (offset (Slots idx b)) value b in
       Ok (Some (put32 (slot_off idx + 4) (u32 (Z.of_nat (length value))) b'))
  else Ok None.

(** ** The store *)

Record TupleStore := mkStore { ts_pool : Pool; first_page_id : Z }.

Definition set_ts_pool (s : Pool) (t : TupleStore) : TupleStore := mkStore s (first_page_id t).
Definition set_first_page (pid : Z) (t : TupleStore) : TupleStore := mkStore (ts_pool t) pid.

Definition on_ts_pool {A} (m : M Pool A) : M TupleStore A := fun t =>
  let (a, s) := m (ts_pool t) in (a, set_ts_pool s t).

Definition value_page (f : Z) : M TupleStore bytes := on_ts_pool (read_as as_value_page f).
Definition put_value_page (f : Z) (b : bytes) : M TupleStore unit := on_ts_pool (write_data f (ValueImage b)).
Definition ts_unpin (pid : Z) (dirty : bool) : M TupleStore unit :=
  let* _ := on_ts_pool (UnpinPage pid dirty) in ret tt.

(** The walk along the chain: a page with room, still pinned, with its id. *)
Fixpoint find_page_with_space (fuel : nat) (need pid : Z) : M TupleStore (option (Z * Z)) :=
  if pid =? INVALID_PAGE_ID then ret None else
  match fuel with
  | O => fail OutOfFuel
  | S fuel =>
      let* page := on_ts_pool (FetchPage Zeroed pid) in
      let* f := deref page in
      let* b := value_page f in
      if need <=? FreeSpace (Header b) then ret (Some (f, pid))
      else ts_unpin pid false;;; find_page_with_space fuel need (vp_next_page_id (Header b))
  end.

(** A new page at the head of the chain, still pinned. *)
Definition create_value_page : M TupleStore (Z * Z) :=
  let* page := on_ts_pool (NewPage Zeroed) in
  match page with
  | None => throw runtime_error "TupleStore: buffer pool full, cannot allocate value page"
  | Some f =>
      let* new_pid := on_ts_pool (GetPageId f) in
      let* b := value_page f in
      let* t := get in
      put_value_page f (InitValuePage (first_page_id t) b);;;
      modify (set_first_page new_pid);;;
      ret (f, new_pid)
  end.

Definition FindOrCreatePageWithSpace (need : Z) : M TupleStore (Z * Z) :=
  let* t := get in
  let fuel := S (Z.to_nat (next_page_id (disk_manager (ts_pool t)))) in
  let* found := find_page_with_space fuel need (first_page_id t) in
  match found with
  | Some fp => ret fp
  | None => create_value_page
  end.

Definition Put (value : bytes) : M TupleStore RID :=
  if MaxValueSize <? Z.of_nat (length value)
  then throw runtime_error "TupleStore: value too large for a single page" else
  let need := Z.of_nat sizeof_ValueSlot + Z.of_nat (length value) in
  let* (f, pid) := FindOrCreatePageWithSpace need in
  let* b := value_page f in
  let* (idx, b) := lift (page_put value b) in
  put_value_page f b;;;
  ts_unpin pid true;;;
  ret (mkRID pid idx).

(** [Get] hands back the value, or [None] for [false]. *)
Definition Get (rid : RID) : M TupleStore (option bytes) :=
  let pid := rid_page rid in
  let* page := on_ts_pool (FetchPage Zeroed pid) in
  match page with
  | None => ret None
  | Some f =>
      let* b := value_page f in
      let* v := lift (page_get (rid_slot rid) b) in
      ts_unpin pid false;;;
      ret v
  end.

Definition Delete (rid : RID) : M TupleStore bool :=
  let pid := rid_page rid in
  let* page := on_ts_pool (FetchPage Zeroed pid) in
  match page with
  | None => ret false
  | Some f =>
      let* b := value_page f in
      match page_delete (rid_slot rid) b with
      | Some b' => put_value_page f b';;; ts_unpin pid true;;; ret true
      | None => ts_unpin pid false;;; ret false
      end
  end.

(** The block of [Update] that overwrites the value where it is: [true] when
    it did, so that [Update] returns the same rid. *)
Definition try_in_place (rid : RID) (value : bytes) : M TupleStore bool :=
  let pid := rid_page rid in
  let* page := on_ts_pool (FetchPage Zeroed pid) in
  match page with
  | None => ret false
  | Some f =>
      let* b := value_page f in
      let* u := lift (page_update (rid_slot rid) value b) in
      match u with
      | Some b' => put_value_page f b';;; ts_unpin pid true;;; ret true
      | None => ts_unpin pid false;;; ret false
      end
  end.

Definition Update (rid : RID) (value : bytes) : M TupleStore RID :=
  let* in_place := try_in_place rid value in
  if (in_place : bool) then ret rid
  else let* _ := Delete rid in Put value.
