(* ===== verification/TupleStoreSpec.v ===== *)
(** * The tuple store keeps its values

    The invariant of a slotted page (directory and values never overlap, live
    values are disjoint), what each page operation does to the values of the
    other slots, and the store-level contracts of [Put], [Get], [Delete] and
    [Update] over the buffer pool. *)

From stdpp Require Import functions.
From S2P Require Import Prelude KeyCodec Replacer BufferPool BufferPoolSpec PoolHold PageImage TupleStore.
Open Scope Z_scope.

(** ** Fields *)

Lemma get32_range off b : 0 <= get32 off b < 2 ^ 32.
Proof.
  unfold get32. pose proof (le_value_range (slice off 4 b)) as Hr.
  assert (Hl : (length (slice off 4 b) <= 4)%nat) by (unfold slice; rewrite length_take; lia).
  assert (256 ^ Z.of_nat (length (slice off 4 b)) <= 256 ^ 4) by (apply Z.pow_le_mono_r; lia). lia.
Qed.

Lemma length_put32 off v b : (off + 4 <= length b)%nat -> length (put32 off v b) = length b.
Proof. intros. unfold put32. apply length_patch. rewrite length_le_bytes. lia. Qed.

Lemma get32_put32 off v b : (off + 4 <= length b)%nat -> 0 <= v < 2 ^ 32 -> get32 off (put32 off v b) = v.
Proof.
  intros Hb Hv. unfold get32, put32.
  pose proof (slice_patch_eq off (le_bytes 4 v) b) as Hs. rewrite length_le_bytes in Hs.
  rewrite Hs by lia. by apply le_bytes_small.
Qed.

Lemma slice_put32_ne off v b o n : (off + 4 <= length b)%nat ->
  (o + n <= off \/ off + 4 <= o)%nat -> slice o n (put32 off v b) = slice o n b.
Proof. intros Hb Hd. unfold put32. apply slice_patch_ne; rewrite length_le_bytes; lia. Qed.

Lemma get32_slice_eq o b b' : slice o 4 b' = slice o 4 b -> get32 o b' = get32 o b.
Proof. unfold get32. by intros ->. Qed.

(** ** The page invariant *)

Definition live (i : Z) (b : bytes) : Prop :=
  0 <= i < num_slots (Header b) /\ length_ (Slots i b) <> kTombstone.

Record vpage_ok (b : bytes) : Prop := {
  vp_len : length b = Z.to_nat PAGE_SIZE;
  vp_dir : 12 + 8 * num_slots (Header b) <= free_ptr (Header b) <= PAGE_SIZE;
  vp_slot : forall i, live i b ->
    free_ptr (Header b) <= offset (Slots i b) /\ offset (Slots i b) + length_ (Slots i b) <= PAGE_SIZE;
  vp_disjoint : forall i j, live i b -> live j b -> i <> j ->
    offset (Slots i b) + length_ (Slots i b) <= offset (Slots j b) \/
    offset (Slots j b) + length_ (Slots j b) <= offset (Slots i b);
}.

Lemma slot_range i b : 0 <= offset (Slots i b) /\ 0 <= length_ (Slots i b).
Proof. pose proof (get32_range (slot_off i) b). pose proof (get32_range (slot_off i + 4) b). cbn [Slots offset length_]. lia. Qed.

Lemma num_slots_range b : 0 <= num_slots (Header b).
Proof. simpl. pose proof (get32_range 4 b). lia. Qed.

(** On a good page [page_get] never leaves the page. *)
Definition slot_value (i : Z) (b : bytes) : option bytes :=
  if (i <? num_slots (Header b)) && negb (length_ (Slots i b) =? kTombstone)
  then Some (slice (Z.to_nat (offset (Slots i b))) (Z.to_nat (length_ (Slots i b))) b) else None.

Lemma page_get_ok i b : vpage_ok b -> 0 <= i -> page_get i b = Ok (slot_value i b).
Proof.
  intros Hb Hi. unfold page_get, slot_value. destruct (Z.ltb_spec i (num_slots (Header b))) as [Hn|]; [|done].
  destruct (Z.eqb_spec (length_ (Slots i b)) kTombstone) as [|Ht]; [done|]. simpl negb. simpl andb. cbv iota.
  destruct (vp_slot b Hb i) as [H1 H2]; [by split|]. pose proof (slot_range i b). pose proof (vp_dir b Hb).
  unfold copy_from. destruct (Z.ltb_spec (offset (Slots i b)) 0); [lia|].
  destruct (Z.ltb_spec PAGE_SIZE (offset (Slots i b) + length_ (Slots i b))); [lia|]. done.
Qed.

Lemma init_page_ok next b : length b = Z.to_nat PAGE_SIZE -> - 2 ^ 31 <= next < 2 ^ 31 ->
  vpage_ok (InitValuePage next b) /\ vp_next_page_id (Header (InitValuePage next b)) = next /\
  num_slots (Header (InitValuePage next b)) = 0 /\ free_ptr (Header (InitValuePage next b)) = PAGE_SIZE.
Proof.
  intros Hb Hn. assert (Hl : (20 <= length b)%nat) by (unfold PAGE_SIZE in Hb; lia).
  set (b1 := put32 0 (u32 next) b). assert (L1 : length b1 = length b) by (apply length_put32; lia).
  set (b2 := put32 4 0 b1). assert (L2 : length b2 = length b) by (unfold b2; rewrite length_put32; lia).
  set (b3 := put32 8 PAGE_SIZE b2). assert (L3 : length b3 = length b) by (unfold b3; rewrite length_put32; lia).
  change (InitValuePage next b) with b3.
  assert (H0 : get32 0 b3 = u32 next).
  { unfold get32, b3. rewrite slice_put32_ne by lia. unfold b2. rewrite slice_put32_ne by lia.
    apply get32_put32; [lia | apply u32_range]. }
  assert (H4 : get32 4 b3 = 0).
  { unfold get32, b3. rewrite slice_put32_ne by lia. apply get32_put32; lia. }
  assert (H8 : get32 8 b3 = PAGE_SIZE) by (apply get32_put32; unfold PAGE_SIZE; lia).
  unfold Header. cbn [vp_next_page_id num_slots free_ptr]. rewrite H0, H4, H8, i32_u32, i32_small by done.
  split; [|done]. assert (Hz : num_slots (Header b3) = 0) by exact H4.
  constructor.
  - by rewrite L3.
  - rewrite Hz. cbn [Header free_ptr]. rewrite H8. unfold PAGE_SIZE. lia.
  - intros i [Hi _]. lia.
  - intros i j [Hi _]. lia.
Qed.

(** Pages that agree on a slot's entry and on its bytes agree on its value. *)
Lemma slot_value_same i b b' :
  (i < num_slots (Header b) <-> i < num_slots (Header b')) ->
  Slots i b' = Slots i b ->
  (live i b -> 0 <= i -> slice (Z.to_nat (offset (Slots i b))) (Z.to_nat (length_ (Slots i b))) b' =
           slice (Z.to_nat (offset (Slots i b))) (Z.to_nat (length_ (Slots i b))) b) ->
  0 <= i -> slot_value i b' = slot_value i b.
Proof.
  intros Hn Hs Hv Hi. unfold slot_value. rewrite Hs.
  destruct (Z.ltb_spec i (num_slots (Header b))), (Z.ltb_spec i (num_slots (Header b'))); try (exfalso; lia); [|done].
  destruct (Z.eqb_spec (length_ (Slots i b)) kTombstone); [done|]. simpl andb. cbv iota. f_equal. apply Hv; [by split|done].
Qed.

(** ** Put *)

Lemma FreeSpace_ok b : vpage_ok b ->
  FreeSpace (Header b) = free_ptr (Header b) - (12 + 8 * num_slots (Header b)).
Proof.
  intros Hb. pose proof (vp_dir b Hb). pose proof (num_slots_range b). unfold FreeSpace, sizeof_ValuePageHeader, sizeof_ValueSlot.
  unfold PAGE_SIZE in *. rewrite u64_small; lia.
Qed.

(** The page after [page_put]: one more slot, whose entry points at the bytes
    of [v] just below the old [free_ptr]; nothing else moved. *)
Record put_layout (v b b' : bytes) : Prop := {
  pl_len : length b' = length b;
  pl_num : num_slots (Header b') = num_slots (Header b) + 1;
  pl_free : free_ptr (Header b') = free_ptr (Header b) - Z.of_nat (length v);
  pl_next : vp_next_page_id (Header b') = vp_next_page_id (Header b);
  pl_old : forall i, 0 <= i < num_slots (Header b) -> Slots i b' = Slots i b;
  pl_new : Slots (num_slots (Header b)) b' =
    mkSlot (free_ptr (Header b) - Z.of_nat (length v)) (Z.of_nat (length v));
  pl_data : slice (Z.to_nat (free_ptr (Header b) - Z.of_nat (length v))) (length v) b' = v;
  pl_far : forall o k, (Z.to_nat (free_ptr (Header b)) <= o)%nat -> slice o k b' = slice o k b;
}.

Lemma page_put_layout v b : vpage_ok b -> 8 + Z.of_nat (length v) <= FreeSpace (Header b) ->
  exists b', page_put v b = Ok (num_slots (Header b), b') /\ put_layout v b b'.
Proof.
  intros Hb Hroom. rewrite FreeSpace_ok in Hroom by done. pose proof (vp_dir b Hb) as Hdir.
  pose proof (num_slots_range b) as Hn0. pose proof (vp_len b Hb) as Hlen. unfold PAGE_SIZE in *.
  set (n := num_slots (Header b)) in *. set (fp := free_ptr (Header b)) in *.
  set (len := Z.of_nat (length v)) in *. set (d := fp - len). set (dir := (12 + 8 * Z.to_nat n)%nat).
  assert (Hd : 20 + 8 * n <= d) by lia.
  set (entry := le_bytes 4 d ++ le_bytes 4 len).
  assert (Le : length entry = 8%nat) by (unfold entry; by rewrite length_app, !length_le_bytes).
  set (b1 := patch (Z.to_nat d) v b). assert (L1 : length b1 = length b) by (apply length_patch; lia).
  set (b2 := put32 8 d b1). assert (L2 : length b2 = length b) by (unfold b2; rewrite length_put32; lia).
  set (b3 := patch dir entry b2). assert (L3 : length b3 = length b) by (unfold b3; rewrite length_patch; lia).
  set (b4 := put32 4 (n + 1) b3). assert (L4 : length b4 = length b) by (unfold b4; rewrite length_put32; lia).
  assert (S12 : forall o k, (o + k <= 8 \/ 12 <= o)%nat -> (o + k <= Z.to_nat d \/ Z.to_nat d + length v <= o)%nat ->
            slice o k b2 = slice o k b).
  { intros o k H1 H2. unfold b2. rewrite slice_put32_ne by lia. apply slice_patch_ne; lia. }
  assert (S34 : forall o k, (o + k <= 4 \/ 8 <= o)%nat -> (o + k <= dir \/ dir + 8 <= o)%nat ->
            slice o k b4 = slice o k b2).
  { intros o k H1 H2. unfold b4. rewrite slice_put32_ne by lia. apply slice_patch_ne; lia. }
  exists b4. split.
  - unfold page_put. fold fp len. rewrite (u32_small len), (u32_small (fp - len)) by lia. fold d.
    unfold copy_to at 1. destruct (Z.ltb_spec d 0); [lia|]. unfold PAGE_SIZE. fold len.
    destruct (Z.ltb_spec 16384 (d + len)); [lia|]. cbn [orb result_bind]. fold b1 b2.
    assert (N2 : num_slots (Header b2) = n) by (apply get32_slice_eq, S12; lia).
    assert (N3 : num_slots (Header b3) = n) by (rewrite <- N2; apply get32_slice_eq, slice_patch_ne; lia).
    rewrite N2. unfold copy_to. fold entry. rewrite Le. change (slot_off n) with dir. rewrite Nat2Z.id. unfold PAGE_SIZE.
    destruct (Z.ltb_spec (Z.of_nat dir) 0); [lia|]. destruct (Z.ltb_spec 16384 (Z.of_nat dir + Z.of_nat 8)); [lia|].
    cbn [orb result_bind]. fold b3. rewrite N3, u32_small by lia. done.
  - constructor; fold n fp len d.
    + done.
    + apply get32_put32; lia.
    + change (get32 8 b4 = d). unfold get32. rewrite S34 by lia. apply get32_put32; lia.
    + cbn [Header vp_next_page_id]. f_equal. apply get32_slice_eq. rewrite S34, S12 by lia. done.
    + intros i Hi. unfold Slots, slot_off, sizeof_ValuePageHeader, sizeof_ValueSlot.
      f_equal; apply get32_slice_eq; rewrite S34, S12 by lia; done.
    + unfold Slots. change (slot_off n) with dir. unfold get32, b4. rewrite !slice_put32_ne by lia.
      unfold b3. rewrite !slice_patch_in by lia. unfold entry.
      rewrite Nat.sub_diag, slice_app_l, slice_app_r by (rewrite ?length_le_bytes; lia). rewrite length_le_bytes.
      replace (dir + 4 - dir - 4)%nat with 0%nat by lia.
      pose proof (slice_all (le_bytes 4 d)) as E1. pose proof (slice_all (le_bytes 4 len)) as E2.
      rewrite length_le_bytes in E1, E2. rewrite E1, E2. f_equal; apply le_bytes_small; lia.
    + rewrite S34 by lia. unfold b2. rewrite slice_put32_ne by lia. apply slice_patch_eq. lia.
    + intros o k Ho. rewrite S34, S12 by lia. done.
Qed.

Lemma page_put_ok v b : vpage_ok b -> 8 + Z.of_nat (length v) <= FreeSpace (Header b) ->
  exists b', page_put v b = Ok (num_slots (Header b), b') /\ vpage_ok b' /\
    vp_next_page_id (Header b') = vp_next_page_id (Header b) /\
    slot_value (num_slots (Header b)) b' = Some v /\
    forall i, 0 <= i -> i <> num_slots (Header b) -> slot_value i b' = slot_value i b.
Proof.
  intros Hb Hroom. destruct (page_put_layout v b Hb Hroom) as (b' & E & [P1 P2 P3 P4 P5 P6 P7 P8]).
  exists b'. split; [done|]. rewrite FreeSpace_ok in Hroom by done. pose proof (vp_dir b Hb) as Hdir.
  pose proof (num_slots_range b) as Hn0. pose proof (vp_len b Hb) as Hlen. unfold PAGE_SIZE in *.
  set (n := num_slots (Header b)) in *. set (fp := free_ptr (Header b)) in *.
  assert (Hold : forall i, live i b' -> i <> n -> live i b /\ Slots i b' = Slots i b /\ fp <= offset (Slots i b)).
  { intros i [Hi Ht] Hne. rewrite P2 in Hi. rewrite P5 in Ht |- * by lia.
    assert (Hl : live i b) by (split; [fold n; lia | done]). by destruct (vp_slot b Hb i Hl). }
  split_and!; auto.
  - constructor.
    + by rewrite P1.
    + rewrite P2, P3. unfold PAGE_SIZE. lia.
    + intros i Hi. rewrite P3. destruct (decide (i = n)) as [->|Hne]; [rewrite P6; cbn [offset length_]; unfold PAGE_SIZE; lia|].
      destruct (Hold i Hi Hne) as (Hl & -> & _). destruct (vp_slot b Hb i Hl) as [H1 H2]. fold fp in H1. lia.
    + intros i j Hi Hj Hne. destruct (decide (i = n)) as [->|Hin]; [|destruct (decide (j = n)) as [->|Hjn]].
      * destruct (Hold j Hj ltac:(lia)) as (_ & -> & ?). rewrite P6. cbn [offset length_]. lia.
      * destruct (Hold i Hi Hin) as (_ & -> & ?). rewrite P6. cbn [offset length_]. lia.
      * destruct (Hold i Hi Hin) as (? & -> & _). destruct (Hold j Hj Hjn) as (? & -> & _). by apply (vp_disjoint b Hb).
  - unfold slot_value. rewrite P2, P6. cbn [offset length_]. rewrite Nat2Z.id.
    destruct (Z.ltb_spec n (n + 1)); [|lia].
    destruct (Z.eqb_spec (Z.of_nat (length v)) kTombstone) as [Et|]; [unfold kTombstone in Et; lia|]. cbn [andb negb]. f_equal. exact P7.
  - intros i Hi Hne. destruct (decide (i < n)) as [Hlt|Hge].
    + apply slot_value_same; [rewrite P2; fold n; lia | apply P5; lia | | done].
      intros Hli _. destruct (vp_slot b Hb i Hli) as [H1 H2]. fold fp in H1. apply P8. lia.
    + unfold slot_value. rewrite P2. fold n.
      destruct (Z.ltb_spec i (n + 1)); [lia|]. destruct (Z.ltb_spec i n); [lia|]. done.
Qed.

(** ** Delete and in-place Update

    Both rewrite the length field of one slot, to a tombstone or to a shorter
    length; an update first overwrites the start of the slot's bytes. *)

Lemma Header_same b b' : (forall o, (o + 4 <= 12)%nat -> slice o 4 b' = slice o 4 b) -> Header b' = Header b.
Proof.
  intros H. unfold Header. rewrite (get32_slice_eq 0 b b'), (get32_slice_eq 4 b b'), (get32_slice_eq 8 b b');
    [done | apply H; lia..].
Qed.

Lemma Slots_same i b b' :
  (forall o, (12 + 8 * Z.to_nat i <= o)%nat -> (o + 4 <= 20 + 8 * Z.to_nat i)%nat -> slice o 4 b' = slice o 4 b) ->
  Slots i b' = Slots i b.
Proof.
  intros H. unfold Slots, slot_off, sizeof_ValuePageHeader, sizeof_ValueSlot.
  f_equal; apply get32_slice_eq, H; lia.
Qed.

Lemma slot_len_layout i l b : vpage_ok b -> 0 <= i < num_slots (Header b) -> 0 <= l < 2 ^ 32 ->
  let b' := put32 (slot_off i + 4) l b in
  length b' = length b /\ Header b' = Header b /\ Slots i b' = mkSlot (offset (Slots i b)) l /\
  (forall j, 0 <= j -> j <> i -> Slots j b' = Slots j b) /\
  (forall o k, (Z.to_nat (free_ptr (Header b)) <= o)%nat -> slice o k b' = slice o k b).
Proof.
  intros Hb Hi Hl b'. pose proof (vp_dir b Hb) as Hdir. pose proof (vp_len b Hb) as Hlen. unfold PAGE_SIZE in *.
  assert (Ho : (slot_off i = 12 + 8 * Z.to_nat i)%nat) by done.
  assert (Hne : forall o k, (o + k <= slot_off i + 4 \/ slot_off i + 8 <= o)%nat -> slice o k b' = slice o k b)
    by (intros o k Hk; apply slice_put32_ne; lia).
  split_and!.
  - apply length_put32. lia.
  - apply Header_same. intros o Ho'. apply Hne. lia.
  - unfold Slots. cbn [offset]. f_equal; [apply get32_slice_eq, Hne; lia | apply get32_put32; lia].
  - intros j Hj Hji. apply Slots_same. intros o H1 H2. apply Hne. lia.
  - intros o k Hk. apply Hne. lia.
Qed.

(** The page stays good and the other slots keep their values. *)
Lemma slot_len_ok i l b : vpage_ok b -> live i b -> l = kTombstone \/ 0 <= l <= length_ (Slots i b) ->
  let b' := put32 (slot_off i + 4) l b in
  vpage_ok b' /\ Header b' = Header b /\
  slot_value i b' = (if l =? kTombstone then None else Some (slice (Z.to_nat (offset (Slots i b))) (Z.to_nat l) b)) /\
  forall j, 0 <= j -> j <> i -> slot_value j b' = slot_value j b.
Proof.
  intros Hb Hli Hl b'. pose proof Hli as [Hi Ht]. destruct (vp_slot b Hb i Hli) as [H1 H2].
  pose proof (vp_dir b Hb) as Hdir. pose proof (slot_range i b) as Hr. pose proof (num_slots_range b).
  unfold PAGE_SIZE in *.
  destruct (slot_len_layout i l b Hb Hi) as (L1 & L2 & L3 & L4 & L5); [unfold kTombstone in *; lia|]. fold b' in L1, L2, L3, L4, L5.
  assert (Hold : forall j, live j b' -> j <> i -> live j b /\ Slots j b' = Slots j b).
  { intros j [Hj Hjt] Hne. rewrite L2 in Hj. rewrite L4 in Hjt |- * by lia. done. }
  assert (Hi' : live i b' -> 0 <= l <= length_ (Slots i b)).
  { intros [_ Hlt]. rewrite L3 in Hlt. cbn [length_] in Hlt. destruct Hl as [->|]; done. }
  split_and!; [| done | |].
  - constructor; rewrite ?L1, ?L2; [apply Hb.. | |]; unfold PAGE_SIZE.
    + intros j Hj. destruct (decide (j = i)) as [->|Hne]; [rewrite L3; cbn [offset length_]; specialize (Hi' Hj); lia|].
      destruct (Hold j Hj Hne) as [Hl' ->]. by apply (vp_slot b Hb).
    + intros j k Hj Hk Hjk. destruct (decide (j = i)) as [->|Hji]; [|destruct (decide (k = i)) as [->|Hki]].
      * destruct (Hold k Hk ltac:(done)) as [Hl' ->]. rewrite L3. cbn [offset length_]. specialize (Hi' Hj).
        destruct (vp_disjoint b Hb i k Hli Hl' Hjk); lia.
      * destruct (Hold j Hj Hji) as [Hl' ->]. rewrite L3. cbn [offset length_]. specialize (Hi' Hk).
        destruct (vp_disjoint b Hb j i Hl' Hli Hjk); lia.
      * destruct (Hold j Hj Hji) as [? ->]. destruct (Hold k Hk Hki) as [? ->]. by apply (vp_disjoint b Hb).
  - unfold slot_value. rewrite L2, L3. cbn [offset length_]. destruct (Z.ltb_spec i (num_slots (Header b))); [|lia].
    destruct (Z.eqb_spec l kTombstone); [done|]. cbn [andb negb]. f_equal. apply L5. lia.
  - intros j Hj Hji. apply slot_value_same; [by rewrite L2 | by apply L4 | | done].
    intros Hl' _. destruct (vp_slot b Hb j Hl'). apply L5. lia.
Qed.

(** The guard the operations test decides whether the slot has a value. *)
Lemma slot_guard i b : 0 <= i ->
  if (i <? num_slots (Header b)) && negb (length_ (Slots i b) =? kTombstone)
  then live i b /\ slot_value i b = Some (slice (Z.to_nat (offset (Slots i b))) (Z.to_nat (length_ (Slots i b))) b)
  else slot_value i b = None.
Proof.
  intros Hi. unfold slot_value, live. destruct (Z.ltb_spec i (num_slots (Header b))) as [Hn|]; [|done].
  by destruct (Z.eqb_spec (length_ (Slots i b)) kTombstone).
Qed.

Lemma page_delete_ok i b : vpage_ok b -> 0 <= i ->
  match page_delete i b with
  | Some b' => is_Some (slot_value i b) /\ vpage_ok b' /\ Header b' = Header b /\ slot_value i b' = None /\
      forall j, 0 <= j -> j <> i -> slot_value j b' = slot_value j b
  | None => slot_value i b = None
  end.
Proof.
  intros Hb Hi. unfold page_delete. pose proof (slot_guard i b Hi) as Hg.
  destruct (_ && _); [|done]. destruct Hg as [Hli ->].
  destruct (slot_len_ok i kTombstone b Hb Hli) as (P1 & P2 & P3 & P4); [by left|].
  split_and!; [eauto | done | done | | done]. by rewrite P3.
Qed.

(** Overwriting the start of a live value's bytes. *)
Lemma patch_value_ok i v b : vpage_ok b -> live i b -> Z.of_nat (length v) <= length_ (Slots i b) ->
  let b' := patch (Z.to_nat (offset (Slots i b))) v b in
  vpage_ok b' /\ Header b' = Header b /\ Slots i b' = Slots i b /\
  slice (Z.to_nat (offset (Slots i b))) (length v) b' = v /\
  forall j, 0 <= j -> j <> i -> slot_value j b' = slot_value j b.
Proof.
  intros Hb Hli Hfit b'. pose proof Hli as [Hi Ht]. destruct (vp_slot b Hb i Hli) as [H1 H2].
  pose proof (vp_dir b Hb) as Hdir. pose proof (vp_len b Hb) as Hlen. pose proof (slot_range i b) as [Ho0 Hl0].
  unfold PAGE_SIZE in *. set (off := offset (Slots i b)) in *.
  assert (L0 : length b' = length b) by (apply length_patch; lia).
  assert (S1 : forall o k, (o + k <= Z.to_nat off \/ Z.to_nat off + length v <= o)%nat -> slice o k b' = slice o k b)
    by (intros o k Hk; apply slice_patch_ne; lia).
  assert (Hh : Header b' = Header b) by (apply Header_same; intros o Ho; apply S1; lia).
  assert (Hs : forall j, 0 <= j < num_slots (Header b) -> Slots j b' = Slots j b)
    by (intros j Hj; apply Slots_same; intros o Ho1 Ho2; apply S1; lia).
  split_and!; [| done | by apply Hs | apply slice_patch_eq; lia |].
  - constructor; rewrite ?Hh, ?L0; [apply Hb.. | |].
    + intros j [Hj Hjt]. rewrite Hh in Hj. rewrite Hs in * by done. by apply (vp_slot b Hb).
    + intros j k [Hj Hjt] [Hk Hkt] Hjk. rewrite Hh in Hj, Hk. rewrite Hs in Hjt |- * by done.
      rewrite Hs in Hkt |- * by done. by apply (vp_disjoint b Hb).
  - intros j Hj Hji. destruct (decide (j < num_slots (Header b))) as [Hlt|]; cycle 1.
    { unfold slot_value. rewrite Hh. by destruct (Z.ltb_spec j (num_slots (Header b))); [lia|]. }
    apply slot_value_same; [by rewrite Hh | by apply Hs | | done].
    intros Hl _. destruct (vp_slot b Hb j Hl). apply S1. pose proof (slot_range j b).
    destruct (vp_disjoint b Hb i j Hli Hl ltac:(done)) as [Hd|Hd]; fold off in Hd; lia.
Qed.

Lemma page_update_ok i v b : vpage_ok b -> 0 <= i ->
  exists r, page_update i v b = Ok r /\
  match r with
  | Some b' => (exists old, slot_value i b = Some old /\ (length v <= length old)%nat) /\ vpage_ok b' /\
      Header b' = Header b /\ slot_value i b' = Some v /\
      forall j, 0 <= j -> j <> i -> slot_value j b' = slot_value j b
  | None => forall old, slot_value i b = Some old -> (length old < length v)%nat
  end.
Proof.
  intros Hb Hi. unfold page_update. pose proof (slot_guard i b Hi) as Hg.
  destruct ((_ <? _) && _); [|exists None; split; [done|]; by rewrite Hg].
  destruct Hg as [Hli ->]. destruct (vp_slot b Hb i Hli) as [H1 H2]. pose proof Hli as [Hi' Ht].
  pose proof (vp_dir b Hb) as Hdir. pose proof (vp_len b Hb) as Hlen. pose proof (slot_range i b) as [Ho0 Hl0].
  unfold PAGE_SIZE in *. set (off := offset (Slots i b)) in *.
  assert (Hold : length (slice (Z.to_nat off) (Z.to_nat (length_ (Slots i b))) b) = Z.to_nat (length_ (Slots i b)))
    by (apply length_slice; lia).
  destruct (Z.leb_spec (Z.of_nat (length v)) (length_ (Slots i b))) as [Hfit|Hbig]; cycle 1.
  { exists None. split; [done|]. intros old Eo. assert (Hl : length old = Z.to_nat (length_ (Slots i b))) by congruence. lia. }
  unfold copy_to, PAGE_SIZE. destruct (Z.ltb_spec off 0); [lia|].
  destruct (Z.ltb_spec 16384 (off + Z.of_nat (length v))); [lia|]. cbn [orb result_bind].
  destruct (patch_value_ok i v b Hb Hli Hfit) as (P1 & P2 & P3 & P4 & P5). fold off in P1, P2, P3, P4, P5.
  set (b1 := patch _ _ _) in *. rewrite u32_small by lia.
  destruct (slot_len_ok i (Z.of_nat (length v)) b1 P1) as (Q1 & Q2 & Q3 & Q4).
  { split; [by rewrite P2 | by rewrite P3]. }
  { right. rewrite P3. lia. }
  eexists. split; [reflexivity|]. split; [eexists; split; [done|]; rewrite Hold; lia|].
  split_and!; [done | by rewrite Q2 | | intros j Hj Hji; rewrite Q4 by done; by apply P5].
  rewrite Q3, P3, Nat2Z.id. fold off. rewrite P4.
  destruct (Z.eqb_spec (Z.of_nat (length v)) kTombstone) as [Et|]; [unfold kTombstone in Et; lia | done].
Qed.

(** ** The store over the pool *)

Section Store.

Implicit Types (t : TupleStore) (pg : Z -> page_image) (H : gmap Z (Z * Z)) (W : gset Z) (cs : list Z).

Definition shold t pg H W : Prop := hold Zeroed (ts_pool t) pg H W ∅.
Definition sidle t pg : Prop := shold t pg ∅ ∅.
Definition ts_allocated t : Z := next_page_id (disk_manager (ts_pool t)).
Definition ts_slots t : nat := slot_num (ts_pool t).

(** Only the pool changed, and not its dimensions. *)
Definition same_store t t' : Prop := first_page_id t' = first_page_id t /\ same_dims (ts_pool t) (ts_pool t').

Lemma same_store_trans t1 t2 t3 : same_store t1 t2 -> same_store t2 t3 -> same_store t1 t3.
Proof. intros [? ?] [? ?]. split; [congruence | by eapply same_dims_trans]. Qed.

Lemma on_ts_pool_ok {A} (m : M Pool A) t a s' :
  m (ts_pool t) = (Ok a, s') -> on_ts_pool m t = (Ok a, set_ts_pool s' t).
Proof. unfold on_ts_pool. by intros ->. Qed.

(** Fetch a page, read it as a value page. *)
Lemma ts_fetch t pg pid b : sidle t pg -> 0 <= pid -> pg pid = ValueImage b -> (1 <= ts_slots t)%nat ->
  exists f t', on_ts_pool (FetchPage Zeroed pid) t = (Ok (Some f), t') /\ shold t' pg {[pid := (f, 1)]} ∅ /\
    same_store t t' /\ value_page f t' = (Ok b, t').
Proof.
  intros HS H0 Hp Hs.
  destruct (hold_fetch Zeroed _ _ _ _ _ pid HS (lookup_empty _)) as (f & s' & E & HS' & D & _).
  { rewrite map_size_empty. unfold ts_slots in Hs. lia. }
  { split; [done|]. eapply hold_nonzero; [exact HS | done | by rewrite Hp]. }
  exists f, (set_ts_pool s' t). split_and!; [by apply on_ts_pool_ok | exact HS' | by split |].
  destruct (hold_get Zeroed _ _ _ _ _ pid f 1 HS') as [G _]; [apply lookup_insert_eq|].
  unfold value_page. erewrite on_ts_pool_ok; [reflexivity|].
  unfold read_as. cbn [ts_pool set_ts_pool]. rewrite (bind_ok _ _ _ _ _ G), Hp. done.
Qed.

Lemma ts_release t pg pid f W dirty : shold t pg {[pid := (f, 1)]} W -> dirty = true \/ pid ∉ W ->
  exists t', ts_unpin pid dirty t = (Ok tt, t') /\ shold t' pg ∅ (if dirty then W ∖ {[pid]} else W) /\ same_store t t'.
Proof.
  intros HS HW. destruct (hold_unpin Zeroed _ _ _ _ _ pid f 1 dirty HS (lookup_insert_eq _ _ _)) as (s' & E & HS' & D);
    [naive_solver | done |].
  exists (set_ts_pool s' t). unfold ts_unpin. rewrite (bind_ok _ _ _ _ _ (on_ts_pool_ok _ _ _ _ E)).
  split_and!; [done | | by split]. rewrite decide_True in HS' by done. unfold singletonM, map_singleton in HS'.
  by rewrite delete_insert_id in HS' by apply lookup_empty.
Qed.

Lemma ts_write t pg pid f W b : shold t pg {[pid := (f, 1)]} W ->
  exists t', put_value_page f b t = (Ok tt, t') /\
    shold t' (<[pid := ValueImage b]> pg) {[pid := (f, 1)]} ({[pid]} ∪ W) /\ same_store t t'.
Proof.
  intros HS. destruct (hold_write Zeroed _ _ _ _ _ pid f 1 (ValueImage b) HS (lookup_insert_eq _ _ _)) as (s' & E & HS' & D).
  exists (set_ts_pool s' t). split_and!; [by apply on_ts_pool_ok | exact HS' | by split].
Qed.

(** The write and the release the three updating operations end with. *)
Lemma ts_write_release t pg pid f b W : shold t pg {[pid := (f, 1)]} W -> W ⊆ {[pid]} ->
  exists t1 t2, put_value_page f b t = (Ok tt, t1) /\ ts_unpin pid true t1 = (Ok tt, t2) /\
    sidle t2 (<[pid := ValueImage b]> pg) /\ same_store t t2.
Proof.
  intros HS HW. destruct (ts_write _ _ _ _ _ b HS) as (t1 & E1 & H1 & S1).
  destruct (ts_release _ _ _ _ _ true H1) as (t2 & E2 & H2 & S2); [by left|].
  exists t1, t2. split_and!; [done | done | | by eapply same_store_trans].
  by replace (({[pid]} ∪ W) ∖ {[pid]} : gset Z) with (∅ : gset Z) in H2 by set_solver.
Qed.

(** *** The chain of value pages and the value under a rid *)

Fixpoint chain pg (pid : Z) cs : Prop :=
  match cs with
  | [] => pid = INVALID_PAGE_ID
  | c :: cs' => pid = c /\ 0 <= c < 2 ^ 31 /\
      exists b, pg c = ValueImage b /\ vpage_ok b /\ chain pg (vp_next_page_id (Header b)) cs'
  end.

Record store_ok t pg cs : Prop := {
  so_idle : sidle t pg;
  so_slots : (1 <= ts_slots t)%nat;
  so_chain : chain pg (first_page_id t) cs;
  so_nodup : NoDup cs;
}.

Definition rid_value pg (rid : RID) : option bytes :=
  match pg (rid_page rid) with ValueImage b => slot_value (rid_slot rid) b | _ => None end.

Lemma chain_in pg pid cs q : chain pg pid cs -> q ∈ cs -> 0 <= q < 2 ^ 31 /\ exists b, pg q = ValueImage b /\ vpage_ok b.
Proof.
  revert pid. induction cs as [|c cs IH]; intros pid Hc Hq; [set_solver|].
  destruct Hc as (-> & H0 & b & Hb & Hok & Hc). apply elem_of_cons in Hq as [->|Hq]; [eauto | by eapply IH].
Qed.

(** Rewriting one page of the chain, keeping its next pointer. *)
Lemma chain_update pg pid cs q b b' : chain pg pid cs -> pg q = ValueImage b -> vpage_ok b' ->
  vp_next_page_id (Header b') = vp_next_page_id (Header b) -> chain (<[q := ValueImage b']> pg) pid cs.
Proof.
  intros Hc Hq Hok Hn. revert pid Hc. induction cs as [|c cs IH]; intros pid Hc; [done|].
  destruct Hc as (-> & H0 & b0 & Hb & Hok0 & Hc). split; [done|]. split; [done|]. destruct (decide (c = q)) as [->|Hne].
  - exists b'. rewrite fn_lookup_insert. split_and!; [done..|]. rewrite Hn. apply IH. congruence.
  - exists b0. rewrite fn_lookup_insert_ne by done. auto.
Qed.

Lemma chain_fresh pg pid cs q x : chain pg pid cs -> q ∉ cs -> chain (<[q := x]> pg) pid cs.
Proof.
  revert pid. induction cs as [|c cs IH]; intros pid Hc Hq; [done|].
  destruct Hc as (-> & H0 & b & Hb & Hok & Hc). apply not_elem_of_cons in Hq as [Hne Hq].
  split; [done|]. split; [done|]. exists b. rewrite fn_lookup_insert_ne by done. auto.
Qed.

Lemma chain_first pg pid cs : chain pg pid cs -> - 2 ^ 31 <= pid < 2 ^ 31.
Proof. destruct cs as [|c cs]; [intros ->; done | intros (-> & ? & _); lia]. Qed.

Lemma store_length t pg cs : store_ok t pg cs -> (length cs <= Z.to_nat (ts_allocated t))%nat.
Proof.
  intros [HS _ Hc Hnd]. rewrite <- (length_seqZ 0). apply submseteq_length, NoDup_submseteq; [done|].
  intros q Hq. apply elem_of_seqZ. destruct (chain_in _ _ _ _ Hc Hq) as (H0 & b & Hb & _).
  split; [lia|]. eapply hold_nonzero; [exact HS | lia | by rewrite Hb].
Qed.

(** The walk ends, at a page with room or past the last one. *)
Lemma find_page_ok fuel need pid cs t pg : sidle t pg -> (1 <= ts_slots t)%nat -> chain pg pid cs -> (length cs <= fuel)%nat ->
  exists r t', find_page_with_space fuel need pid t = (Ok r, t') /\ same_store t t' /\
  match r with
  | None => sidle t' pg
  | Some (f, q) => q ∈ cs /\ shold t' pg {[q := (f, 1)]} ∅ /\
      exists b, pg q = ValueImage b /\ vpage_ok b /\ need <= FreeSpace (Header b) /\ value_page f t' = (Ok b, t')
  end.
Proof.
  revert fuel pid t. induction cs as [|c cs IH]; intros fuel pid t HS Hs Hc Hf.
  { simpl in Hc. subst pid. exists None, t. by destruct fuel. }
  destruct Hc as (-> & H0 & b & Hb & Hok & Hc). destruct fuel as [|fuel]; [simpl in Hf; lia|].
  cbn [find_page_with_space]. destruct (Z.eqb_spec c INVALID_PAGE_ID) as [Ei|_]; [unfold INVALID_PAGE_ID in Ei; lia|].
  destruct (ts_fetch t pg c b HS) as (f & t1 & E1 & H1 & S1 & R1); [lia | done | done |].
  rewrite (bind_ok _ _ _ _ _ E1). cbn [deref]. rewrite (bind_ok _ _ t1 f t1) by done.
  rewrite (bind_ok _ _ _ _ _ R1). destruct (Z.leb_spec need (FreeSpace (Header b))) as [Hroom|_].
  { exists (Some (f, c)), t1. split_and!; [done | done | set_solver | done | eauto 10]. }
  destruct (ts_release _ _ _ _ _ false H1) as (t2 & E2 & H2 & S2); [right; set_solver|].
  rewrite (bind_ok _ _ _ _ _ E2).
  destruct (IH fuel (vp_next_page_id (Header b)) t2) as (r & t3 & E3 & S3 & Hr).
  { done. } { destruct S1 as [_ [_ D1]], S2 as [_ [_ D2]]. unfold ts_slots in *. congruence. } { done. } { simpl in Hf. lia. }
  exists r, t3. split_and!; [done | by eapply same_store_trans; [|eapply same_store_trans] |].
  destruct r as [[g q]|]; [|done]. destruct Hr as (Hq & Hr). split; [set_solver | done].
Qed.

(** What the two ways to a page with room have in common: the page [q], pinned
    in frame [f], is on the chain and has the room; no value changed. *)
Record page_found (need : Z) t pg cs (f q : Z) t' pg' cs' b W : Prop := {
  pf_hold : shold t' pg' {[q := (f, 1)]} W;
  pf_written : W ⊆ {[q]};
  pf_slots : ts_slots t' = ts_slots t;
  pf_alloc : ts_allocated t' <= ts_allocated t + 1;
  pf_chain : chain pg' (first_page_id t') cs';
  pf_nodup : NoDup cs';
  pf_in : q ∈ cs';
  pf_mono : forall c, c ∈ cs -> c ∈ cs';
  pf_page : pg' q = ValueImage b;
  pf_ok : vpage_ok b;
  pf_room : need <= FreeSpace (Header b);
  pf_read : value_page f t' = (Ok b, t');
  pf_values : forall rid, 0 <= rid_slot rid -> rid_value pg' rid = rid_value pg rid;
  pf_others : forall q', q' ∉ cs' -> pg' q' = pg q';
  pf_new : forall q', q' ∈ cs' -> q' ∈ cs \/ pg q' = Zeroed;
}.

Lemma hold_value_page t pg q f W b : shold t pg {[q := (f, 1)]} W -> as_value_page (pg q) = Ok b ->
  value_page f t = (Ok b, t).
Proof.
  intros HS Hb. destruct (hold_get Zeroed _ _ _ _ _ q f 1 HS) as [G _]; [apply lookup_insert_eq|].
  unfold value_page. rewrite (on_ts_pool_ok _ t b (ts_pool t)); [by destruct t|]. unfold read_as. rewrite (bind_ok _ _ _ _ _ G), Hb. done.
Qed.

Lemma create_page_ok need t pg cs : sidle t pg -> (1 <= ts_slots t)%nat -> chain pg (first_page_id t) cs -> NoDup cs ->
  need <= PAGE_SIZE - 12 -> ts_allocated t < MAX_PAGES ->
  exists f q t' pg' cs' b W, create_value_page t = (Ok (f, q), t') /\ page_found need t pg cs f q t' pg' cs' b W.
Proof.
  intros HS Hs Hc Hnd Hneed Hmax. unfold ts_slots, ts_allocated in *.
  destruct (hold_new Zeroed _ _ _ _ _ HS) as (f & s' & E & HS' & Hz & N & D & _ & _).
  { rewrite map_size_empty. lia. } { done. }
  set (q := next_page_id (disk_manager (ts_pool t))) in *.
  unfold create_value_page. rewrite (bind_ok _ _ _ _ _ (on_ts_pool_ok _ _ _ _ E)). set (t2 := set_ts_pool s' t).
  assert (H2 : shold t2 pg {[q := (f, 1)]} ({[q]} ∪ ∅)) by exact HS'.
  destruct (hold_get Zeroed _ _ _ _ _ q f 1 HS') as [_ G2]; [apply lookup_insert_eq|].
  rewrite (bind_ok _ _ t2 q t2) by (by apply (on_ts_pool_ok _ t2)).
  rewrite (bind_ok _ _ t2 zero_page t2) by (eapply hold_value_page; [done | by rewrite Hz]).
  rewrite (bind_ok get _ t2 t2 t2) by done. change (first_page_id t2) with (first_page_id t).
  set (b := InitValuePage (first_page_id t) zero_page).
  destruct (init_page_ok (first_page_id t) zero_page) as (Hok & Hn & Hns & Hfp);
    [apply length_replicate | by eapply chain_first |]. fold b in Hok, Hn, Hns, Hfp.
  destruct (ts_write t2 pg q f ({[q]} ∪ ∅) b HS') as (t3 & E3 & H3 & S3). rewrite (bind_ok _ _ _ _ _ E3).
  destruct S3 as (_ & D3 & D4). cbn [t2 ts_pool set_ts_pool] in D3, D4.
  assert (Hqc : q ∉ cs).
  { intros Hq. destruct (chain_in _ _ _ _ Hc Hq) as (_ & b0 & Hb0 & _). congruence. }
  assert (0 <= q) by (pose proof (inv_disk _ _ (hold_inv _ _ _ _ _ _ HS)); subst q; lia).
  assert (MAX_PAGES < 2 ^ 31) by done.
  eexists f, q, (set_first_page q t3), (<[q := ValueImage b]> pg), (q :: cs), b, ({[q]} ∪ ({[q]} ∪ ∅)).
  split; [done|]. constructor; auto.
  - set_solver.
  - unfold ts_slots. cbn [set_first_page ts_pool]. lia.
  - unfold ts_allocated. cbn [set_first_page ts_pool]. subst q. lia.
  - cbn [set_first_page first_page_id]. split; [done|]. split; [lia|]. exists b. rewrite fn_lookup_insert, Hn.
    split_and!; [done..|]. by apply chain_fresh.
  - by constructor.
  - set_solver.
  - set_solver.
  - by rewrite fn_lookup_insert.
  - eapply hold_value_page; [exact H3 | by rewrite fn_lookup_insert].
  - intros rid Hrid. unfold rid_value. destruct (decide (rid_page rid = q)) as [->|Hne].
    + rewrite fn_lookup_insert, Hz. unfold slot_value. rewrite Hns. destruct (Z.ltb_spec (rid_slot rid) 0); [lia | done].
    + by rewrite fn_lookup_insert_ne.
  - intros q' Hq'. apply not_elem_of_cons in Hq' as [Hne _]. by rewrite fn_lookup_insert_ne.
  - intros q' Hq'. apply elem_of_cons in Hq' as [->|]; [by right | by left].
Qed.

Lemma find_or_create_ok need t pg cs : store_ok t pg cs -> need <= PAGE_SIZE - 12 -> ts_allocated t < MAX_PAGES ->
  exists f q t' pg' cs' b W, FindOrCreatePageWithSpace need t = (Ok (f, q), t') /\
    page_found need t pg cs f q t' pg' cs' b W.
Proof.
  intros Hst Hneed Hmax. pose proof (store_length _ _ _ Hst) as Hlen. destruct Hst as [HS Hs Hc Hnd].
  unfold FindOrCreatePageWithSpace. rewrite (bind_ok get _ t t t) by done.
  destruct (find_page_ok (S (Z.to_nat (ts_allocated t))) need (first_page_id t) cs t pg HS Hs Hc ltac:(lia))
    as (r & t1 & E1 & S1 & Hr). rewrite (bind_ok _ _ _ _ _ E1).
  destruct S1 as (F1 & D1 & D2). unfold ts_slots, ts_allocated in *.
  destruct r as [[f q]|].
  { destruct Hr as (Hq & Hh & b & Hb & Hok & Hroom & Hv).
    exists f, q, t1, pg, cs, b, ∅. split; [done|]. constructor; auto; [set_solver | unfold ts_allocated; lia | by rewrite F1]. }
  rewrite <- F1 in Hc.
  destruct (create_page_ok need t1 pg cs Hr) as (f & q & t' & pg' & cs' & b & W & E & P);
    [unfold ts_slots; lia | done | done | done | unfold ts_allocated; lia |].
  exists f, q, t', pg', cs', b, W. split; [done|].
  destruct P; constructor; auto; [unfold ts_slots in *; lia | unfold ts_allocated in *; lia].
Qed.

(** *** The contracts

    [other_pages]: the pages that are not the store's are as they were, and a
    page the store took was an unused one. *)

Record other_pages pg pg' cs cs' : Prop := {
  op_same : forall q, q ∉ cs' -> pg' q = pg q;
  op_new : forall q, q ∈ cs' -> q ∈ cs \/ pg q = Zeroed;
  op_mono : forall q, q ∈ cs -> q ∈ cs';
}.

Lemma other_pages_trans pg1 pg2 pg3 cs1 cs2 cs3 :
  other_pages pg1 pg2 cs1 cs2 -> other_pages pg2 pg3 cs2 cs3 -> other_pages pg1 pg3 cs1 cs3.
Proof.
  intros [A1 A2 A3] [B1 B2 B3]. constructor.
  - intros q Hq. rewrite B1 by done. apply A1. intros Hq'. by apply Hq, B3.
  - intros q Hq. destruct (decide (q ∈ cs2)) as [Hq2|Hq2]; [auto|]. rewrite <- A1 by done. destruct (B2 q Hq); [done | by right].
  - auto.
Qed.

Lemma rid_value_update pg q b b' : pg q = ValueImage b ->
  forall rid, rid_page rid <> q \/ slot_value (rid_slot rid) b' = slot_value (rid_slot rid) b ->
  rid_value (<[q := ValueImage b']> pg) rid = rid_value pg rid.
Proof.
  intros Hb rid Hr. unfold rid_value. destruct (decide (rid_page rid = q)) as [Eq|Hne].
  - rewrite Eq, fn_lookup_insert, Hb. by destruct Hr.
  - by rewrite fn_lookup_insert_ne.
Qed.

(** Rewriting one value page of the chain. *)
Lemma store_update t t' pg cs q b b' : chain pg (first_page_id t) cs -> NoDup cs -> q ∈ cs -> pg q = ValueImage b ->
  vpage_ok b' -> vp_next_page_id (Header b') = vp_next_page_id (Header b) ->
  (1 <= ts_slots t)%nat -> sidle t' (<[q := ValueImage b']> pg) -> same_store t t' ->
  store_ok t' (<[q := ValueImage b']> pg) cs /\ other_pages pg (<[q := ValueImage b']> pg) cs cs.
Proof.
  intros Hc Hnd Hq Hb Hok Hn Hs HS [F [_ D]]. split; constructor; auto.
  - unfold ts_slots in *. lia.
  - rewrite F. by eapply chain_update.
  - intros q' Hq'. rewrite fn_lookup_insert_ne; [done | by intros ->].
Qed.

Lemma put_ok v t pg cs : store_ok t pg cs -> Z.of_nat (length v) <= MaxValueSize -> ts_allocated t < MAX_PAGES ->
  exists rid t' pg' cs', Put v t = (Ok rid, t') /\ store_ok t' pg' cs' /\ other_pages pg pg' cs cs' /\
    ts_slots t' = ts_slots t /\ ts_allocated t' <= ts_allocated t + 1 /\
    rid_page rid ∈ cs' /\ 0 <= rid_slot rid /\ rid_value pg rid = None /\ rid_value pg' rid = Some v /\
    forall rid', 0 <= rid_slot rid' -> rid' <> rid -> rid_value pg' rid' = rid_value pg rid'.
Proof.
  intros Hst Hv Hmax. unfold Put. destruct (Z.ltb_spec MaxValueSize (Z.of_nat (length v))); [lia|].
  assert (Hneed : Z.of_nat sizeof_ValueSlot + Z.of_nat (length v) <= PAGE_SIZE - 12)
    by (unfold MaxValueSize, sizeof_ValuePageHeader, sizeof_ValueSlot in *; lia).
  destruct (find_or_create_ok _ t pg cs Hst Hneed Hmax) as (f & q & t1 & pg1 & cs1 & b & W & E & P). destruct P.
  rewrite (bind_ok _ _ _ _ _ E), (bind_ok _ _ _ _ _ pf_read0).
  destruct (page_put_ok v b pf_ok0 pf_room0) as (b' & Ep & Hok & Hnext & Hnew & Hold).
  rewrite Ep, (bind_ok _ _ t1 (num_slots (Header b), b') t1) by done.
  destruct (ts_write_release t1 pg1 q f b' W pf_hold0 pf_written0) as (t2 & t3 & E2 & E3 & H3 & S3).
  rewrite (bind_ok _ _ _ _ _ E2), (bind_ok _ _ _ _ _ E3).
  pose proof (so_slots _ _ _ Hst) as Hs. pose proof S3 as [_ [D1 D2]].
  destruct (store_update t1 t3 pg1 cs1 q b b') as [Hst' Hop]; try done; [lia|].
  exists (mkRID q (num_slots (Header b))), t3, (<[q := ValueImage b']> pg1), cs1.
  split_and!; [done | done | eapply other_pages_trans; [|exact Hop]; by constructor | unfold ts_slots in *; lia | unfold ts_allocated in *; lia | done | apply num_slots_range | | |].
  - rewrite <- pf_values0 by apply num_slots_range. unfold rid_value, slot_value. cbn [rid_page rid_slot].
    rewrite pf_page0. destruct (Z.ltb_spec (num_slots (Header b)) (num_slots (Header b))); [lia | done].
  - unfold rid_value. cbn [rid_page rid_slot]. by rewrite fn_lookup_insert.
  - intros [q' i] H0 Hne. rewrite <- pf_values0 by done. apply (rid_value_update pg1 q b b'); [done|].
    cbn [rid_page rid_slot] in *. destruct (decide (q' = q)) as [->|]; [right; apply Hold; congruence | by left].
Qed.

Lemma get_ok rid t pg cs : store_ok t pg cs -> rid_page rid ∈ cs -> 0 <= rid_slot rid ->
  exists t', Get rid t = (Ok (rid_value pg rid), t') /\ store_ok t' pg cs /\ same_store t t'.
Proof.
  intros [HS Hs Hc Hnd] Hq H0. destruct (chain_in _ _ _ _ Hc Hq) as (Hr & b & Hb & Hok). unfold Get.
  destruct (ts_fetch t pg (rid_page rid) b HS) as (f & t1 & E1 & H1 & S1 & R1); [lia | done | done |].
  rewrite (bind_ok _ _ _ _ _ E1), (bind_ok _ _ _ _ _ R1), page_get_ok by done.
  rewrite (bind_ok _ _ t1 (slot_value (rid_slot rid) b) t1) by done.
  destruct (ts_release _ _ _ _ _ false H1) as (t2 & E2 & H2 & S2); [right; set_solver|].
  rewrite (bind_ok _ _ _ _ _ E2). pose proof (same_store_trans _ _ _ S1 S2) as SS. exists t2. split_and!; [| |done].
  - unfold rid_value. by rewrite Hb.
  - destruct SS as [F [_ D]]. constructor; [done | unfold ts_slots in *; lia | by rewrite F | done].
Qed.

Lemma ts_delete_ok rid t pg cs : store_ok t pg cs -> rid_page rid ∈ cs -> 0 <= rid_slot rid ->
  exists t' pg', Delete rid t = (Ok (bool_decide (is_Some (rid_value pg rid))), t') /\ store_ok t' pg' cs /\
    other_pages pg pg' cs cs /\ same_store t t' /\ rid_value pg' rid = None /\
    forall rid', 0 <= rid_slot rid' -> rid' <> rid -> rid_value pg' rid' = rid_value pg rid'.
Proof.
  intros [HS Hs Hc Hnd] Hq H0. destruct (chain_in _ _ _ _ Hc Hq) as (Hr & b & Hb & Hok). unfold Delete.
  destruct (ts_fetch t pg (rid_page rid) b HS) as (f & t1 & E1 & H1 & S1 & R1); [lia | done | done |].
  rewrite (bind_ok _ _ _ _ _ E1), (bind_ok _ _ _ _ _ R1). pose proof (page_delete_ok (rid_slot rid) b Hok H0) as Hd.
  destruct (page_delete (rid_slot rid) b) as [b'|].
  - destruct Hd as (Hl & Hok' & Hh & Hn & Ho).
    destruct (ts_write_release t1 pg _ f b' ∅ H1) as (t2 & t3 & E2 & E3 & H3 & S3); [set_solver|].
    rewrite (bind_ok _ _ _ _ _ E2), (bind_ok _ _ _ _ _ E3). pose proof (same_store_trans _ _ _ S1 S3) as SS.
    destruct (store_update t t3 pg cs (rid_page rid) b b') as [Hst' Hop]; try done; [by rewrite Hh|].
    exists t3, (<[rid_page rid := ValueImage b']> pg). split_and!; try done.
    + rewrite bool_decide_true; [done|]. unfold rid_value. by rewrite Hb.
    + unfold rid_value. by rewrite fn_lookup_insert.
    + intros [q i] Hi Hne. apply (rid_value_update pg (rid_page rid) b b'); [done|]. cbn [rid_page rid_slot] in *.
      destruct (decide (q = rid_page rid)) as [->|]; [right; apply Ho; [done | intros ->; apply Hne; by destruct rid] | by left].
  - destruct (ts_release _ _ _ _ _ false H1) as (t2 & E2 & H2 & S2); [right; set_solver|].
    rewrite (bind_ok _ _ _ _ _ E2). pose proof (same_store_trans _ _ _ S1 S2) as SS.
    assert (Hnone : rid_value pg rid = None) by (unfold rid_value; by rewrite Hb).
    exists t2, pg. destruct SS as [F [D1 D2]]. split_and!; try done.
    + rewrite bool_decide_false; [done|]. rewrite Hnone. by intros [? ?].
    + constructor; [done | unfold ts_slots in *; lia | by rewrite F | done].
    + by constructor; auto.
Qed.

Lemma try_in_place_ok rid v t pg cs : store_ok t pg cs -> rid_page rid ∈ cs -> 0 <= rid_slot rid ->
  exists r t' pg', try_in_place rid v t = (Ok r, t') /\ store_ok t' pg' cs /\ other_pages pg pg' cs cs /\ same_store t t' /\
    (if (r : bool) then rid_value pg' rid = Some v /\
        forall rid', 0 <= rid_slot rid' -> rid' <> rid -> rid_value pg' rid' = rid_value pg rid'
     else pg' = pg /\ forall old, rid_value pg rid = Some old -> (length old < length v)%nat).
Proof.
  intros [HS Hs Hc Hnd] Hq H0. destruct (chain_in _ _ _ _ Hc Hq) as (Hr & b & Hb & Hok). unfold try_in_place.
  destruct (ts_fetch t pg (rid_page rid) b HS) as (f & t1 & E1 & H1 & S1 & R1); [lia | done | done |].
  rewrite (bind_ok _ _ _ _ _ E1), (bind_ok _ _ _ _ _ R1).
  destruct (page_update_ok (rid_slot rid) v b Hok H0) as (r & Er & Hu). rewrite Er, (bind_ok _ _ t1 r t1) by done.
  destruct r as [b'|].
  - destruct Hu as (Hl & Hok' & Hh & Hn & Ho).
    destruct (ts_write_release t1 pg _ f b' ∅ H1) as (t2 & t3 & E2 & E3 & H3 & S3); [set_solver|].
    rewrite (bind_ok _ _ _ _ _ E2), (bind_ok _ _ _ _ _ E3). pose proof (same_store_trans _ _ _ S1 S3) as SS.
    destruct (store_update t t3 pg cs (rid_page rid) b b') as [Hst' Hop]; try done; [by rewrite Hh|].
    exists true, t3, (<[rid_page rid := ValueImage b']> pg). split_and!; try done.
    + unfold rid_value. by rewrite fn_lookup_insert.
    + intros [q i] Hi Hne. apply (rid_value_update pg (rid_page rid) b b'); [done|]. cbn [rid_page rid_slot] in *.
      destruct (decide (q = rid_page rid)) as [->|]; [right; apply Ho; [done | intros ->; apply Hne; by destruct rid] | by left].
  - destruct (ts_release _ _ _ _ _ false H1) as (t2 & E2 & H2 & S2); [right; set_solver|].
    rewrite (bind_ok _ _ _ _ _ E2). pose proof (same_store_trans _ _ _ S1 S2) as SS.
    exists false, t2, pg. destruct SS as [F [D1 D2]]. split_and!; try done.
    + constructor; [done | unfold ts_slots in *; lia | by rewrite F | done].
    + by constructor; auto.
    + unfold rid_value. by rewrite Hb.
Qed.

Lemma update_ok rid v t pg cs : store_ok t pg cs -> rid_page rid ∈ cs -> 0 <= rid_slot rid ->
  Z.of_nat (length v) <= MaxValueSize -> ts_allocated t < MAX_PAGES ->
  exists rid' t' pg' cs', Update rid v t = (Ok rid', t') /\ store_ok t' pg' cs' /\ other_pages pg pg' cs cs' /\
    ts_slots t' = ts_slots t /\ ts_allocated t' <= ts_allocated t + 1 /\
    rid_page rid' ∈ cs' /\ 0 <= rid_slot rid' /\ rid_value pg' rid' = Some v /\
    (rid' <> rid -> rid_value pg rid' = None /\ rid_value pg' rid = None) /\
    forall r, 0 <= rid_slot r -> r <> rid -> r <> rid' -> rid_value pg' r = rid_value pg r.
Proof.
  intros Hst Hq H0 Hv Hmax. unfold Update.
  destruct (try_in_place_ok rid v t pg cs Hst Hq H0) as (r & t1 & pg1 & E1 & Hst1 & Hop1 & S1 & Hr).
  rewrite (bind_ok _ _ _ _ _ E1). destruct r.
  { destruct Hr as [Hr1 Hr2]. destruct S1 as [_ [N1 M1]]. exists rid, t1, pg1, cs.
    split_and!; auto; [unfold ts_allocated; lia | done]. }
  destruct Hr as [-> Hbig]. destruct (ts_delete_ok rid t1 pg cs Hst1 Hq H0) as (t2 & pg2 & E2 & Hst2 & Hop2 & S2 & Hnone & Ho2).
  rewrite (bind_ok _ _ _ _ _ E2). destruct S1 as [_ [N1 M1]], S2 as [_ [N2 M2]]. unfold ts_allocated in *.
  destruct (put_ok v t2 pg2 cs Hst2 Hv) as (rid' & t3 & pg3 & cs3 & E3 & Hst3 & Hop3 & Q1 & Q2 & P1 & P2 & P3 & P4 & P5); [unfold ts_allocated; lia|].
  exists rid', t3, pg3, cs3. unfold ts_slots, ts_allocated in *.
  split_and!; auto; [by eapply other_pages_trans | congruence | lia | |].
  - intros Hne. rewrite P5 by done. by rewrite <- Ho2.
  - intros q Hq0 Hn1 Hn2. by rewrite P5, Ho2.
Qed.

(** No stored value is longer than [MaxValueSize]. *)
Lemma rid_value_small t pg cs rid v : store_ok t pg cs -> rid_page rid ∈ cs -> 0 <= rid_slot rid ->
  rid_value pg rid = Some v -> Z.of_nat (length v) <= MaxValueSize.
Proof.
  intros [_ _ Hc _] Hq H0 Hv. destruct (chain_in _ _ _ _ Hc Hq) as (_ & b & Hb & Hok). unfold rid_value in Hv. rewrite Hb in Hv.
  pose proof (slot_guard (rid_slot rid) b H0) as Hg. destruct (_ && _); [|congruence]. destruct Hg as [Hl Hg].
  destruct (vp_slot b Hok _ Hl) as [H1 H2]. pose proof (vp_dir b Hok). pose proof Hl as [Hi _]. pose proof (slot_range (rid_slot rid) b).
  assert (Z.of_nat (length v) <= length_ (Slots (rid_slot rid) b)).
  { rewrite Hg in Hv. assert (v = slice (Z.to_nat (offset (Slots (rid_slot rid) b))) (Z.to_nat (length_ (Slots (rid_slot rid) b))) b) as -> by congruence.
    unfold slice. rewrite length_take. lia. }
  unfold MaxValueSize, sizeof_ValuePageHeader, sizeof_ValueSlot, PAGE_SIZE in *. lia.
Qed.

Lemma put_too_large v t : MaxValueSize < Z.of_nat (length v) ->
  Put v t = (Fail (Throw runtime_error "TupleStore: value too large for a single page"), t).
Proof. intros Hv. unfold Put. by destruct (Z.ltb_spec MaxValueSize (Z.of_nat (length v))); [|lia]. Qed.

End Store.

(** ** Properties *)

(** C31. [TupleStore::Put] of a value that fits in a page succeeds whenever the
    file can take one more page: it returns a rid under which nothing was
    stored, the value is stored there, every other stored value and every page
    outside the store is unchanged, and the store invariant holds again. *)
Theorem Put_stores v t pg cs :
  store_ok t pg cs -> Z.of_nat (length v) <= MaxValueSize -> ts_allocated t < MAX_PAGES ->
  exists rid t' pg' cs', Put v t = (Ok rid, t') /\ store_ok t' pg' cs' /\ other_pages pg pg' cs cs' /\
    ts_slots t' = ts_slots t /\ ts_allocated t' <= ts_allocated t + 1 /\
    rid_page rid ∈ cs' /\ 0 <= rid_slot rid /\ rid_value pg rid = None /\ rid_value pg' rid = Some v /\
    forall rid', 0 <= rid_slot rid' -> rid' <> rid -> rid_value pg' rid' = rid_value pg rid'.
Proof. apply put_ok. Qed.

(** What [Put] stored, [Get] returns, byte for byte, also after any further
    [Put]. *)
Theorem Put_Get_roundtrip v w t pg cs :
  store_ok t pg cs -> Z.of_nat (length v) <= MaxValueSize -> Z.of_nat (length w) <= MaxValueSize ->
  ts_allocated t + 1 < MAX_PAGES ->
  exists rid t1 rid2 t2 t3 pg' cs', Put v t = (Ok rid, t1) /\ Put w t1 = (Ok rid2, t2) /\ rid2 <> rid /\
    Get rid t2 = (Ok (Some v), t3) /\ store_ok t3 pg' cs'.
Proof.
  intros Hst Hv Hw Hmax.
  destruct (put_ok v t pg cs Hst Hv) as (r1 & t1 & pg1 & cs1 & E1 & Hst1 & _ & _ & Ha & A1 & A2 & A3 & A4 & _); [lia|].
  destruct (put_ok w t1 pg1 cs1 Hst1 Hw) as (r2 & t2 & pg2 & cs2 & E2 & Hst2 & Hop & _ & _ & B1 & B2 & B3 & B4 & B5); [lia|].
  assert (Hne : r1 <> r2) by congruence.
  destruct (get_ok r1 t2 pg2 cs2 Hst2) as (t3 & E3 & Hst3 & _); [by eapply op_mono | done |].
  rewrite B5, A4 in E3 by done. exists r1, t1, r2, t2, t3, pg2, cs2. eauto 10.
Qed.

(** [TupleStore::Delete] answers whether a value was stored under the rid,
    and erases that one and no other. *)
Theorem Delete_erases rid t pg cs : store_ok t pg cs -> rid_page rid ∈ cs -> 0 <= rid_slot rid ->
  exists t' pg', Delete rid t = (Ok (bool_decide (is_Some (rid_value pg rid))), t') /\ store_ok t' pg' cs /\
    other_pages pg pg' cs cs /\ same_store t t' /\ rid_value pg' rid = None /\
    forall rid', 0 <= rid_slot rid' -> rid' <> rid -> rid_value pg' rid' = rid_value pg rid'.
Proof. apply ts_delete_ok. Qed.

(** C32. [TupleStore::Update] stores the new value under the rid it returns; when
    that is not the old rid, it was unused before and the old one is empty
    after; every other value is unchanged. *)
Theorem Update_replaces rid v t pg cs : store_ok t pg cs -> rid_page rid ∈ cs -> 0 <= rid_slot rid ->
  Z.of_nat (length v) <= MaxValueSize -> ts_allocated t < MAX_PAGES ->
  exists rid' t' pg' cs', Update rid v t = (Ok rid', t') /\ store_ok t' pg' cs' /\ other_pages pg pg' cs cs' /\
    ts_slots t' = ts_slots t /\ ts_allocated t' <= ts_allocated t + 1 /\
    rid_page rid' ∈ cs' /\ 0 <= rid_slot rid' /\ rid_value pg' rid' = Some v /\
    (rid' <> rid -> rid_value pg rid' = None /\ rid_value pg' rid = None) /\
    forall r, 0 <= rid_slot r -> r <> rid -> r <> rid' -> rid_value pg' r = rid_value pg r.
Proof. apply update_ok. Qed.

(** An [Update] with a value too large for a page throws after it has
    already deleted the old value: the caller's rid is left without a value. *)
Theorem Update_too_large_loses rid v t pg cs : store_ok t pg cs -> rid_page rid ∈ cs -> 0 <= rid_slot rid ->
  MaxValueSize < Z.of_nat (length v) ->
  exists t' pg', Update rid v t = (Fail (Throw runtime_error "TupleStore: value too large for a single page"), t') /\
    store_ok t' pg' cs /\ rid_value pg' rid = None.
Proof.
  intros Hst Hq H0 Hv. unfold Update.
  destruct (try_in_place_ok rid v t pg cs Hst Hq H0) as (r & t1 & pg1 & E1 & Hst1 & _ & _ & Hr).
  rewrite (bind_ok _ _ _ _ _ E1). destruct r.
  { destruct Hr as [Hr _]. pose proof (rid_value_small _ _ _ _ _ Hst1 Hq H0 Hr). lia. }
  destruct (ts_delete_ok rid t1 pg1 cs Hst1 Hq H0) as (t2 & pg2 & E2 & Hst2 & _ & _ & Hnone & _).
  rewrite (bind_ok _ _ _ _ _ E2), put_too_large by done. eauto.
Qed.

(** ** A concrete store: a pool of two frames on a file whose one page holds a
    seven-byte value, the row encoding of a three-letter string. *)

Definition demo_value : bytes := [Byte.x03; Byte.x00; Byte.x00; Byte.x00; Byte.x61; Byte.x62; Byte.x63].
Definition demo_page : bytes :=
  match page_put demo_value (InitValuePage INVALID_PAGE_ID zero_page) with Ok (_, b) => b | Fail _ => [] end.
Definition demo_store : TupleStore := mkStore (Pool_new 2 [ValueImage demo_page]) 0.
Definition demo_pages : Z -> page_image := fun q => load Zeroed (Z.to_nat q) [ValueImage demo_page].

Lemma demo_page_ok : vpage_ok demo_page /\ vp_next_page_id (Header demo_page) = INVALID_PAGE_ID.
Proof.
  destruct (init_page_ok INVALID_PAGE_ID zero_page) as (H1 & H2 & H3 & H4); [apply length_replicate | done |].
  destruct (page_put_ok demo_value _ H1) as (b & E & Hok & Hn & _).
  { rewrite FreeSpace_ok, H3, H4 by done. done. }
  unfold demo_page. rewrite E. split; [done | congruence].
Qed.

Lemma demo_store_ok : store_ok demo_store demo_pages [0].
Proof.
  destruct demo_page_ok as [H1 H2]. constructor.
  - by apply idle_open.
  - unfold ts_slots. simpl. lia.
  - split; [done|]. split; [done|]. exists demo_page. split_and!; [done | done | exact H2].
  - apply NoDup_singleton.
Qed.

Definition demo_rid : RID := mkRID 0 0.
Definition huge_value : bytes := replicate (Z.to_nat (MaxValueSize + 1)) Byte.x7a.

Lemma demo_in : rid_page demo_rid ∈ [0].
Proof. apply list_elem_of_here. Qed.

Lemma Put_stores_witness : exists rid t' pg' cs', Put demo_value demo_store = (Ok rid, t') /\ store_ok t' pg' cs' /\
  rid_value demo_pages rid = None /\ rid_value pg' rid = Some demo_value.
Proof.
  destruct (Put_stores demo_value demo_store demo_pages [0] demo_store_ok)
    as (rid & t' & pg' & cs' & E & Hst & _ & _ & _ & _ & _ & Hn & Hv & _); [done | done |].
  exists rid, t', pg', cs'. auto.
Defined.

Lemma Put_Get_roundtrip_witness : exists rid t1 rid2 t2 t3, Put demo_value demo_store = (Ok rid, t1) /\
  Put [] t1 = (Ok rid2, t2) /\ Get rid t2 = (Ok (Some demo_value), t3).
Proof.
  destruct (Put_Get_roundtrip demo_value [] demo_store demo_pages [0] demo_store_ok)
    as (rid & t1 & rid2 & t2 & t3 & pg' & cs' & E1 & E2 & _ & E3 & _); [done | done | done |].
  exists rid, t1, rid2, t2, t3. auto.
Defined.

Lemma Delete_erases_witness : exists b t' pg', Delete demo_rid demo_store = (Ok b, t') /\ store_ok t' pg' [0] /\
  rid_value pg' demo_rid = None.
Proof.
  destruct (Delete_erases demo_rid demo_store demo_pages [0] demo_store_ok demo_in) as (t' & pg' & E & Hst & _ & _ & Hn & _);
    [done|]. eexists _, t', pg'. split_and!; [exact E | done | done].
Defined.

Lemma Update_replaces_witness : exists rid' t' pg' cs', Update demo_rid demo_value demo_store = (Ok rid', t') /\
  store_ok t' pg' cs' /\ rid_value pg' rid' = Some demo_value.
Proof.
  destruct (Update_replaces demo_rid demo_value demo_store demo_pages [0] demo_store_ok demo_in)
    as (rid' & t' & pg' & cs' & E & Hst & _ & _ & _ & _ & _ & Hv & _); [done | done | done |].
  exists rid', t', pg', cs'. auto.
Defined.

Lemma Update_too_large_loses_witness : exists t' pg', rid_value demo_pages demo_rid = Some demo_value /\
  (Update demo_rid huge_value demo_store).1 = Fail (Throw runtime_error "TupleStore: value too large for a single page") /\
  store_ok t' pg' [0] /\ rid_value pg' demo_rid = None.
Proof.
  destruct (Update_too_large_loses demo_rid huge_value demo_store demo_pages [0] demo_store_ok demo_in)
    as (t' & pg' & E & Hst & Hn); [done | unfold huge_value; by rewrite length_replicate |].
  exists t', pg'. split_and!; [by vm_compute | by rewrite E | done | done].
Defined.
