(* ===== verification/Engine.v ===== *)
(** * The storage engine and the key-value store

    Models [Storage/BPlusTreeEngine] with its cursor, and [Core/MiniKV]. The
    index and the tuple store share one buffer pool: the engine keeps the pool
    inside the tree object and lends it to the tuple store for each call. *)

From S2P Require Import Prelude KeyCodec Replacer BufferPool TreePages PageImage BPlusTree TupleStore.

(** ** The engine *)

Record Engine := mkEngine {
  index_ : BPlusTree;
  tuples_first : Z;
  key_type_ : Z;
  value_type_ : Z;
}.

Definition set_index (t : BPlusTree) (e : Engine) : Engine :=
  mkEngine t (tuples_first e) (key_type_ e) (value_type_ e).
Definition engine_pool (e : Engine) : Pool := buffer_pool_manager_ (index_ e).
Definition tuples_ (e : Engine) : TupleStore := mkStore (engine_pool e) (tuples_first e).
Definition set_tuples (ts : TupleStore) (e : Engine) : Engine :=
  mkEngine (set_pool (ts_pool ts) (index_ e)) (first_page_id ts) (key_type_ e) (value_type_ e).

Definition on_index {A} (m : M BPlusTree A) : M Engine A := fun e =>
  let (a, t) := m (index_ e) in (a, set_index t e).
Definition on_tuples {A} (m : M TupleStore A) : M Engine A := fun e =>
  let (a, ts) := m (tuples_ e) in (a, set_tuples ts e).
Definition on_engine_pool {A} (m : M Pool A) : M Engine A := on_index (on_pool m).

Definition ToKey (key : bytes) : result bytes :=
  if negb (length key =? kKeyLen)%nat
  then Fail (Throw invalid_argument "BPlusTreeEngine: key must be a kKeyLen-byte encoded key")
  else EncodedKeyFromSlice key.

(** *** Opening

    The two branches of the constructor, as operations on the pool: what they
    leave in the locals and members [root_page_id], [tuple_first_page_id],
    [key_type_] and [value_type_]. *)

Definition create_meta (key_type value_type : DType) : M Pool MetaPage :=
  let* meta_page := NewPage Zeroed in
  let failure := throw runtime_error "BPlusTreeEngine: could not reserve the meta page (HEADER_PAGE_ID)" in
  match meta_page with
  | None => failure
  | Some f =>
      let* pid := GetPageId f in
      if negb (pid =? HEADER_PAGE_ID) then failure else
      let* _ := read_as as_meta f in
      let m := mkMeta kMetaMagic kMetaVersion (DType_u8 key_type) (DType_u8 value_type) INVALID_PAGE_ID INVALID_PAGE_ID in
      write_data f (MetaImage m);;;
      let* _ := UnpinPage HEADER_PAGE_ID true in
      ret m
  end.

Definition open_meta : M Pool MetaPage :=
  let* meta_page := FetchPage Zeroed HEADER_PAGE_ID in
  match meta_page with
  | None => throw runtime_error "BPlusTreeEngine: could not read the meta page"
  | Some f =>
      let* m := read_as as_meta f in
      if negb (magic m =? kMetaMagic) then
        let* _ := UnpinPage HEADER_PAGE_ID false in
        throw runtime_error "BPlusTreeEngine: not a dbplayground file (bad magic)"
      else let* _ := UnpinPage HEADER_PAGE_ID false in ret m
  end.

Definition Engine_new (is_new : bool) (kt vt : DType) (s : Pool) : result Engine :=
  let (r, s) := (if is_new then create_meta kt vt else open_meta) s in
  let? m := r in
  Ok (mkEngine (SetRootPageId (root_page_id m) (BPlusTree_new s Leaf.LEAF_PAGE_SIZE Internal.INTERNAL_PAGE_SIZE))
        (tuple_first_page_id m) (key_type m) (value_type m)).

(** *** The operations *)

Definition Engine_Insert (key value : bytes) : M Engine bool :=
  let* ek := lift (ToKey key) in
  let* existing := on_index (GetValue ek) in
  match existing with
  | Some _ => ret false
  | None =>
      let* rid := on_tuples (Put value) in
      let* inserted := on_index (BPlusTree.Insert ek rid) in
      if (inserted : bool) then ret true
      else let* _ := on_tuples (Delete rid) in ret false
  end.

(** [None] for [false]; on success the value. *)
Definition Engine_Get (key : bytes) : M Engine (option bytes) :=
  let* ek := lift (ToKey key) in
  let* rid := on_index (GetValue ek) in
  match rid with
  | None => ret None
  | Some rid => on_tuples (Get rid)
  end.

Definition Engine_Remove (key : bytes) : M Engine bool :=
  let* ek := lift (ToKey key) in
  let* rid := on_index (GetValue ek) in
  match rid with
  | None => ret false
  | Some rid =>
      on_index (BPlusTree.Remove ek);;;
      let* _ := on_tuples (Delete rid) in
      ret true
  end.

Definition update_meta (root first : Z) (m : MetaPage) : MetaPage :=
  mkMeta (magic m) (version m) (key_type m) (value_type m) root first.

Definition Flush : M Engine unit :=
  let* meta_page := on_engine_pool (FetchPage Zeroed HEADER_PAGE_ID) in
  (match meta_page with
   | None => ret tt
   | Some f =>
       let* m := on_engine_pool (read_as as_meta f) in
       let* e := get in
       on_engine_pool (write_data f (MetaImage (update_meta (tree_root (index_ e)) (tuples_first e) m)));;;
       let* _ := on_engine_pool (UnpinPage HEADER_PAGE_ID true) in
       ret tt
   end);;;
  on_engine_pool (FlushAllPages Zeroed).

(** ** The cursor *)

Record BPlusTreeKvCursor := mkCursor {
  entries_ : list (bytes * RID);
  pos_ : nat;
  next_leaf_ : Z;
  key_ : bytes;
  value_ : bytes;
  valid_ : bool;
}.

Definition cursor_init : BPlusTreeKvCursor := mkCursor [] 0 INVALID_PAGE_ID [] [] false.

Definition Materialize (c : BPlusTreeKvCursor) : M Engine BPlusTreeKvCursor :=
  match entries_ c !! pos_ c with
  | None => fail (Undefined "vector index out of range")
  | Some (k, rid) =>
      let* v := on_tuples (Get rid) in
      ret (mkCursor (entries_ c) (pos_ c) (next_leaf_ c) (take kKeyLen k) (default [] v) (valid_ c))
  end.

Definition leaf_items (leaf : Leaf.BPlusTreeLeafPage) : list (bytes * RID) :=
  (fun i => Leaf.GetItem i leaf) <$> seq 0 (Z.to_nat (Leaf.GetSize leaf)).

Fixpoint load_leaf_loop (fuel : nat) (pid : Z) (c : BPlusTreeKvCursor) : M Engine BPlusTreeKvCursor :=
  if pid =? INVALID_PAGE_ID
  then ret (mkCursor (entries_ c) (pos_ c) (next_leaf_ c) (key_ c) (value_ c) false) else
  match fuel with
  | O => fail OutOfFuel
  | S fuel =>
      let* page := on_engine_pool (FetchPage Zeroed pid) in
      let* f := deref page in
      let* leaf := on_engine_pool (read_as as_leaf f) in
      let next_leaf := Leaf.next_page_id_ leaf in
      let entries := entries_ c ++ leaf_items leaf in
      let* _ := on_engine_pool (UnpinPage pid false) in
      if negb (bool_decide (entries = []))
      then Materialize (mkCursor entries (pos_ c) next_leaf (key_ c) (value_ c) true)
      else load_leaf_loop fuel next_leaf (mkCursor entries (pos_ c) next_leaf (key_ c) (value_ c) (valid_ c))
  end.

(** The chain has at most as many leaves as there are pages. *)
Definition LoadLeaf (pid : Z) (c : BPlusTreeKvCursor) : M Engine BPlusTreeKvCursor :=
  let* e := get in
  load_leaf_loop (tree_fuel (index_ e)) pid
    (mkCursor [] 0 (next_leaf_ c) (key_ c) (value_ c) (valid_ c)).

Definition NewCursor : M Engine BPlusTreeKvCursor :=
  let* first := on_index FirstLeafPageId in
  LoadLeaf first cursor_init.

Definition Next (c : BPlusTreeKvCursor) : M Engine BPlusTreeKvCursor :=
  if negb (valid_ c) then ret c else
  let c := mkCursor (entries_ c) (S (pos_ c)) (next_leaf_ c) (key_ c) (value_ c) (valid_ c) in
  if (length (entries_ c) <=? pos_ c)%nat then LoadLeaf (next_leaf_ c) c
  else Materialize c.

(** ** MiniKV *)

Record MiniKV := mkMiniKV { engine_ : Engine; closed_ : bool }.

Definition on_engine {A} (m : M Engine A) : M MiniKV A := fun kv =>
  let (a, e) := m (engine_ kv) in (a, mkMiniKV e (closed_ kv)).

(** The constructor on a file: a file with no page is a new database. *)
Definition MiniKV_open (f : list page_image) (key_type value_type : DType) : result MiniKV :=
  let s := Pool_new (Z.to_nat BUFFER_POOL_SIZE) f in
  let is_new := next_page_id (disk_manager s) =? 0 in
  let? e := Engine_new is_new key_type value_type s in
  Ok (mkMiniKV e false).

Definition Close : M MiniKV unit :=
  let* kv := get in
  if (closed_ kv : bool) then ret tt else
  on_engine Flush;;;
  modify (fun kv => mkMiniKV (engine_ kv) true).

Definition MiniKV_Insert (key value : bytes) : M MiniKV bool := on_engine (Engine_Insert key value).
Definition MiniKV_Get (key : bytes) : M MiniKV (option bytes) := on_engine (Engine_Get key).
Definition MiniKV_Remove (key : bytes) : M MiniKV bool := on_engine (Engine_Remove key).
