(* ===== verification/EngineSpec.v ===== *)
(** * The engine as a map

    The index, the tuple store and the meta page share one pool: [engine_ok]
    says what they hold together, as a map from keys to values. Reading through
    the engine, scanning it in order with a cursor, and closing and reopening
    it all agree with that map. *)

From stdpp Require Import functions.
From S2P Require Import Prelude KeyCodec Replacer BufferPool BufferPoolSpec PoolHold TreePages TreePagesSpec PageImage BPlusTree BPlusTreeSpec TupleStore TupleStoreSpec Engine.
Open Scope Z_scope.

Section EngineSpec.

Implicit Types (e : Engine) (pg : Z -> page_image) (m : list (bytes * RID)) (cs : list Z).

(** The index holds the entries [m], the tuple store the value of each. *)
Record engine_ok e pg cs m : Prop := {
  eo_idle : idle Zeroed (engine_pool e) pg;
  eo_slots : (2 <= slot_num (engine_pool e))%nat;
  eo_tree : tree_has (index_ e) pg m;
  eo_chain : chain pg (tuples_first e) cs;
  eo_nodup : NoDup cs;
  eo_rids : forall k rid, (k, rid) ∈ m -> rid_page rid ∈ cs /\ 0 <= rid_slot rid /\ is_Some (rid_value pg rid);
}.

Definition value_of pg m (key : bytes) : option bytes := to_map m !! key ≫= rid_value pg.

(** Only the pool changed, and not its dimensions. *)
Definition same_engine e e' : Prop :=
  same_tree (index_ e) (index_ e') /\ tuples_first e' = tuples_first e /\ key_type_ e' = key_type_ e /\
  value_type_ e' = value_type_ e.

Lemma same_engine_refl e : same_engine e e.
Proof. split_and!; [apply same_tree_refl | done..]. Qed.

Lemma same_engine_trans e1 e2 e3 : same_engine e1 e2 -> same_engine e2 e3 -> same_engine e1 e3.
Proof. intros (? & ? & ? & ?) (? & ? & ? & ?). split_and!; try congruence. by eapply same_tree_trans. Qed.

Lemma engine_ok_same e e' pg cs m : engine_ok e pg cs m -> same_engine e e' -> idle Zeroed (engine_pool e') pg ->
  engine_ok e' pg cs m.
Proof.
  intros [H1 H2 H3 H4 H5 H6] ((R & _ & _ & [_ D]) & F & _) HS. constructor; auto.
  - unfold engine_pool in *. lia.
  - unfold tree_has in *. by rewrite R.
  - by rewrite F.
Qed.

(** *** Calls into the index and into the tuple store *)

Lemma engine_store e pg cs m : engine_ok e pg cs m -> store_ok (tuples_ e) pg cs.
Proof. intros [H1 H2 H3 H4 H5 H6]. constructor; auto. unfold ts_slots. simpl. lia. Qed.

Lemma on_index_ok {A} (c : M BPlusTree A) e a t' : c (index_ e) = (Ok a, t') -> on_index c e = (Ok a, set_index t' e).
Proof. unfold on_index. by intros ->. Qed.

Lemma on_tuples_ok {A} (c : M TupleStore A) e a ts : c (tuples_ e) = (Ok a, ts) -> on_tuples c e = (Ok a, set_tuples ts e).
Proof. unfold on_tuples. by intros ->. Qed.

Lemma index_get e pg cs m key : engine_ok e pg cs m -> key_wf key ->
  exists e', on_index (GetValue key) e = (Ok (to_map m !! key), e') /\ engine_ok e' pg cs m /\ same_engine e e'.
Proof.
  intros He Hk. destruct (get_value_ok (index_ e) pg m key) as (t' & E & HS & S); [apply He | apply He | apply He | done |].
  assert (SE : same_engine e (set_index t' e)) by (by split_and!). exists (set_index t' e). split_and!; [by apply on_index_ok | | done].
  by eapply engine_ok_same.
Qed.

Lemma tuples_get e pg cs m rid : engine_ok e pg cs m -> rid_page rid ∈ cs -> 0 <= rid_slot rid ->
  exists e', on_tuples (Get rid) e = (Ok (rid_value pg rid), e') /\ engine_ok e' pg cs m /\ same_engine e e'.
Proof.
  intros He Hq H0. destruct (get_ok rid (tuples_ e) pg cs (engine_store _ _ _ _ He) Hq H0) as (ts & E & Hst & [F D]).
  assert (SE : same_engine e (set_tuples ts e)) by (split_and!; [apply same_tree_set; exact D | exact F | done | done]).
  exists (set_tuples ts e). split_and!; [by apply on_tuples_ok | | done].
  eapply engine_ok_same; [done | done | apply Hst].
Qed.

Lemma ToKey_ok key : key_wf key -> ToKey key = Ok key.
Proof.
  intros Hk. pose proof Hk as Hl. unfold key_wf in Hl. unfold ToKey, EncodedKeyFromSlice. rewrite Hl, Nat.eqb_refl, take_key by done. done.
Qed.

Lemma ToKey_bad key : length key <> kKeyLen ->
  ToKey key = Fail (Throw invalid_argument "BPlusTreeEngine: key must be a kKeyLen-byte encoded key").
Proof. intros Hk. unfold ToKey. by destruct (Nat.eqb_spec (length key) kKeyLen). Qed.

Lemma to_map_elem m k rid : entries_ok m -> to_map m !! k = Some rid -> (k, rid) ∈ m.
Proof. intros Hm. by apply to_map_Some. Qed.

Lemma tree_has_ok t pg m : tree_has t pg m -> entries_ok m.
Proof. intros [[_ ->]|[h Ht]]; [apply entries_nil | by eapply tree_rep_ok]. Qed.

Lemma engine_get_ok e pg cs m key : engine_ok e pg cs m -> key_wf key ->
  exists e', Engine_Get key e = (Ok (value_of pg m key), e') /\ engine_ok e' pg cs m /\ same_engine e e'.
Proof.
  intros He Hk. unfold Engine_Get, value_of. rewrite ToKey_ok by done. rewrite (bind_ok _ _ e key e) by done.
  destruct (index_get e pg cs m key He Hk) as (e1 & E1 & He1 & S1). rewrite (bind_ok _ _ _ _ _ E1).
  destruct (to_map m !! key) as [rid|] eqn:Em; simpl; [|by exists e1].
  apply to_map_elem in Em; [|by eapply tree_has_ok, He].
  destruct (eo_rids _ _ _ _ He1 _ _ Em) as (Hq & H0 & _).
  destruct (tuples_get e1 pg cs m rid He1 Hq H0) as (e2 & E2 & He2 & S2). exists e2. split_and!; auto.
  by eapply same_engine_trans.
Qed.

(** *** The meta page, flushing and reopening *)

Lemma chain_meta pg pid cs mt mt' : chain pg pid cs -> pg HEADER_PAGE_ID = MetaImage mt ->
  chain (<[HEADER_PAGE_ID := MetaImage mt']> pg) pid cs.
Proof.
  intros Hc Hm. apply chain_fresh; [done|]. intros Hin. destruct (chain_in _ _ _ _ Hc Hin) as (_ & b & Hb & _). congruence.
Qed.

Lemma tree_rep_meta pg mt mt' h : pg HEADER_PAGE_ID = MetaImage mt ->
  forall parent pid m, tree_rep pg h parent pid m -> tree_rep (<[HEADER_PAGE_ID := MetaImage mt']> pg) h parent pid m.
Proof.
  intros Hm. induction h as [|h IH]; intros parent pid m [Hpid Ht]; (split; [done|]).
  - destruct Ht as (p & Hp & Ht). exists p. rewrite fn_lookup_insert_ne by congruence. done.
  - destruct Ht as (p & ms & Hp & H1 & H2 & H3 & H4 & H5 & H6 & Hch). exists p, ms.
    rewrite fn_lookup_insert_ne by congruence. split_and!; auto. intros i k c mi Hi Hmi.
    destruct (Hch i k c mi Hi Hmi) as [Hc Hx]. auto.
Qed.

Lemma rid_value_meta pg mt mt' rid : pg HEADER_PAGE_ID = MetaImage mt ->
  rid_value (<[HEADER_PAGE_ID := MetaImage mt']> pg) rid = rid_value pg rid.
Proof.
  intros Hm. unfold rid_value. destruct (decide (rid_page rid = HEADER_PAGE_ID)) as [->|Hne].
  - by rewrite fn_lookup_insert, Hm.
  - by rewrite fn_lookup_insert_ne.
Qed.

Lemma tree_has_meta t t' pg mt mt' m : tree_has t pg m -> pg HEADER_PAGE_ID = MetaImage mt ->
  tree_root t' = tree_root t -> tree_has t' (<[HEADER_PAGE_ID := MetaImage mt']> pg) m.
Proof.
  intros [[? ->]|[h Ht]] Hm Er; [left; split; congruence|].
  right. exists h. rewrite Er. by eapply tree_rep_meta.
Qed.

Lemma value_of_meta pg mt mt' m key : pg HEADER_PAGE_ID = MetaImage mt ->
  value_of (<[HEADER_PAGE_ID := MetaImage mt']> pg) m key = value_of pg m key.
Proof. intros Hm. unfold value_of. destruct (to_map m !! key); simpl; [by eapply rid_value_meta | done]. Qed.

Lemma on_engine_pool_ok {A} (c : M Pool A) e a s' : c (engine_pool e) = (Ok a, s') ->
  on_engine_pool c e = (Ok a, set_index (set_pool s' (index_ e)) e).
Proof. intros E. apply on_index_ok, on_pool_ok, E. Qed.

(** Fetch the meta page, read it and release it again. *)
Lemma meta_fetch (s : Pool) pg mt : idle Zeroed s pg -> (1 <= slot_num s)%nat -> pg HEADER_PAGE_ID = MetaImage mt ->
  exists f s', FetchPage Zeroed HEADER_PAGE_ID s = (Ok (Some f), s') /\ hold Zeroed s' pg {[HEADER_PAGE_ID := (f, 1)]} ∅ ∅ /\
    same_dims s s' /\ read_as as_meta f s' = (Ok mt, s').
Proof.
  intros HS Hs Hm. destruct (hold_fetch Zeroed s pg ∅ ∅ ∅ HEADER_PAGE_ID HS (lookup_empty _)) as (f & s' & E & HS' & D & _).
  { rewrite map_size_empty. lia. }
  { split; [done|]. eapply hold_nonzero; [exact HS | done | by rewrite Hm]. }
  exists f, s'. split_and!; auto. destruct (hold_get Zeroed _ _ _ _ _ HEADER_PAGE_ID f 1 HS') as [G _]; [apply lookup_insert_eq|].
  unfold read_as. by rewrite (bind_ok _ _ _ _ _ G), Hm.
Qed.

Lemma meta_release (s : Pool) pg f W dirty : hold Zeroed s pg {[HEADER_PAGE_ID := (f, 1)]} W ∅ ->
  W = (if dirty : bool then {[HEADER_PAGE_ID]} else ∅) ->
  exists s', UnpinPage HEADER_PAGE_ID dirty s = (Ok true, s') /\ idle Zeroed s' pg /\ same_dims s s'.
Proof.
  intros HS ->. destruct (hold_unpin Zeroed s pg _ _ ∅ HEADER_PAGE_ID f 1 dirty HS (lookup_insert_eq _ _ _)) as (s' & E & HS' & D);
    [destruct dirty; set_solver | done |].
  exists s'. split_and!; auto. rewrite decide_True in HS' by done. unfold singletonM, map_singleton in HS'.
  rewrite delete_insert_id in HS' by apply lookup_empty.
  destruct dirty; [by rewrite difference_diag_L in HS' | done].
Qed.

Definition flushed_meta e (mt : MetaPage) : MetaPage := update_meta (tree_root (index_ e)) (tuples_first e) mt.

Lemma flush_ok e pg cs m mt : engine_ok e pg cs m -> pg HEADER_PAGE_ID = MetaImage mt ->
  let pg' := <[HEADER_PAGE_ID := MetaImage (flushed_meta e mt)]> pg in
  exists e', Flush e = (Ok tt, e') /\ engine_ok e' pg' cs m /\ same_engine e e' /\
    forall q, 0 <= q -> disk_page Zeroed (disk_manager (engine_pool e')) q = pg' q.
Proof.
  intros He Hm pg'. pose proof (eo_slots _ _ _ _ He) as Hs.
  destruct (meta_fetch (engine_pool e) pg mt) as (f & s1 & E1 & H1 & D1 & R1); [apply He | lia | done |].
  unfold Flush. rewrite (bind_ok _ _ _ _ _ (on_engine_pool_ok _ _ _ _ E1)). set (e1 := set_index _ e).
  destruct (hold_write Zeroed s1 pg _ _ _ HEADER_PAGE_ID f 1 (MetaImage (flushed_meta e mt)) H1 (lookup_insert_eq _ _ _))
    as (s2 & E2 & H2 & D2). rewrite union_empty_r_L in H2. fold pg' in H2.
  destruct (meta_release s2 pg' f _ true H2 eq_refl) as (s3 & E3 & H3 & D3).
  destruct (idle_flush Zeroed s3 pg' H3) as (s4 & E4 & H4 & D4 & Hd).
  set (e2 := set_index (set_pool s2 (index_ e1)) e1). set (e3 := set_index (set_pool s3 (index_ e2)) e2).
  erewrite bind_ok; cycle 1.
  { rewrite (bind_ok _ _ e1 mt e1) by (rewrite (on_engine_pool_ok _ e1 mt s1 R1); done).
    rewrite (bind_ok get _ e1 e1 e1) by done.
    rewrite (bind_ok _ _ e1 tt e2) by exact (on_engine_pool_ok _ e1 tt s2 E2).
    rewrite (bind_ok _ _ e2 true e3) by exact (on_engine_pool_ok _ e2 true s3 E3). reflexivity. }
  rewrite (on_engine_pool_ok _ e3 tt s4 E4). set (e4 := set_index (set_pool s4 (index_ e3)) e3).
  assert (SE : same_engine e e4).
  { split_and!; try done. split_and!; try done. eapply same_dims_trans; [exact D1|]. eapply same_dims_trans; [exact D2|].
    eapply same_dims_trans; [exact D3 | exact D4]. }
  exists e4. split_and!; [done | | done | exact Hd].
  pose proof SE as ((R & _ & _ & [_ Dn]) & F & _). destruct He as [A1 A2 A3 A4 A5 A6]. constructor; auto.
  - unfold engine_pool. rewrite Dn. exact A2.
  - by eapply tree_has_meta.
  - rewrite F. by eapply chain_meta.
  - intros k rid Hin. unfold pg'. erewrite rid_value_meta by done. by eapply A6.
Qed.

(** Opening a file that holds the pages [pg']. *)
Lemma reopen_ok n f pg cs m mt kt vt : Z.of_nat (length f) <= MAX_PAGES -> (2 <= n)%nat ->
  (forall q, 0 <= q -> load Zeroed (Z.to_nat q) f = pg q) ->
  pg HEADER_PAGE_ID = MetaImage mt -> magic mt = kMetaMagic ->
  tree_has (SetRootPageId (root_page_id mt) (BPlusTree_new (Pool_new n f) 0 0)) pg m ->
  chain pg (tuple_first_page_id mt) cs -> NoDup cs ->
  (forall k rid, (k, rid) ∈ m -> rid_page rid ∈ cs /\ 0 <= rid_slot rid /\ is_Some (rid_value pg rid)) ->
  exists e, Engine_new false kt vt (Pool_new n f) = Ok e /\ engine_ok e pg cs m /\
    key_type_ e = key_type mt /\ value_type_ e = value_type mt /\
    exists s, index_ e = SetRootPageId (root_page_id mt) (BPlusTree_new s Leaf.LEAF_PAGE_SIZE Internal.INTERNAL_PAGE_SIZE) /\
      same_dims (Pool_new n f) s.
Proof.
  intros Hlen Hn Hf Hm Hmg Ht Hc Hnd Hr.
  pose proof (hold_ext Zeroed _ _ pg _ _ _ (idle_open Zeroed n f Hlen) Hf) as HS.
  destruct (meta_fetch (Pool_new n f) pg mt HS) as (fr & s1 & E1 & H1 & D1 & R1); [simpl; lia | done |].
  destruct (meta_release s1 pg fr ∅ false H1 eq_refl) as (s2 & E2 & H2 & D2).
  unfold Engine_new, open_meta. rewrite (bind_ok _ _ _ _ _ E1), (bind_ok _ _ _ _ _ R1), Hmg, Z.eqb_refl. cbn [negb].
  rewrite (bind_ok _ _ _ _ _ E2). unfold ret. cbn [result_bind]. eexists. split; [done|].
  split; [|split_and!; try done; exists s2; split; [done | by eapply same_dims_trans]].
  constructor; auto. unfold engine_pool. cbn [index_ SetRootPageId BPlusTree_new buffer_pool_manager_].
  destruct D2 as [_ ->], D1 as [_ ->]. simpl. lia.
Qed.

(** *** The cursor *)

(** From [pid] on, the leaves linked by [next_page_id_] hold [ms]. *)
Fixpoint leaf_chain pg (pid : Z) (ms : list (list (bytes * RID))) : Prop :=
  match ms with
  | [] => pid = INVALID_PAGE_ID
  | m :: ms => 0 <= pid /\ exists p, pg pid = LeafImage p /\ leaf_ok p /\ leaf_entries p = m /\
      leaf_chain pg (Leaf.next_page_id_ p) ms
  end.

(** The leaves of the tree, linked from its leftmost one, spell its contents. *)
Definition tree_linked t pg m : Prop :=
  (tree_root t = INVALID_PAGE_ID /\ m = []) \/
  exists h ms, tree_rep pg h INVALID_PAGE_ID (tree_root t) m /\
    leaf_chain pg (leftmost pg h (tree_root t)) ms /\ concat ms = m.

(** A chain that ends does not come back to a page. *)
Lemma leaf_chain_det pg pid l1 l2 : leaf_chain pg pid l1 -> leaf_chain pg pid l2 -> l1 = l2.
Proof.
  revert pid l2. induction l1 as [|m1 l1 IH]; intros pid [|m2 l2] H1 H2; simpl in *; [done | | |].
  - destruct H2 as [H2 _]. subst. unfold INVALID_PAGE_ID in *. lia.
  - destruct H1 as [H1 _]. subst. unfold INVALID_PAGE_ID in *. lia.
  - destruct H1 as (_ & p1 & E1 & _ & <- & C1), H2 as (_ & p2 & E2 & _ & <- & C2).
    assert (p2 = p1) as -> by congruence. f_equal. by eapply IH.
Qed.

Lemma leaf_chain_pages pg pid ms : leaf_chain pg pid ms ->
  exists ps : list Z, length ps = length ms /\ NoDup ps /\
    forall q, q ∈ ps -> 0 <= q /\ pg q <> Zeroed /\ exists ms', (length ms' <= length ms)%nat /\ leaf_chain pg q ms'.
Proof.
  revert pid. induction ms as [|m ms IH]; intros pid Hc; [exists []; split_and!; [done | constructor | set_solver]|].
  pose proof Hc as (H0 & p & E & _ & _ & Hc'). destruct (IH _ Hc') as (ps & Hl & Hnd & Hq).
  exists (pid :: ps). split_and!; [simpl; lia | |].
  - constructor; [|done]. intros Hin. destruct (Hq _ Hin) as (_ & _ & ms' & Hle & Hm').
    pose proof (leaf_chain_det _ _ _ _ Hc Hm') as <-. simpl in Hle. lia.
  - intros q [->|Hin]%elem_of_cons; [split_and!; [done | by rewrite E | by exists (m :: ms)]|].
    destruct (Hq _ Hin) as (? & ? & ms' & ? & ?). split_and!; [done | done | exists ms'; simpl; auto with lia].
Qed.

Lemma leaf_chain_fuel e pg pid ms : idle Zeroed (engine_pool e) pg -> leaf_chain pg pid ms ->
  (length ms <= tree_fuel (index_ e))%nat.
Proof.
  intros HS Hc. destruct (leaf_chain_pages _ _ _ Hc) as (ps & <- & Hnd & Hq).
  enough (length ps <= Z.to_nat (next_page_id (disk_manager (engine_pool e))))%nat by (unfold tree_fuel, engine_pool in *; lia).
  apply NoDup_bounded; [done|]. intros q Hin. destruct (Hq q Hin) as (H0 & Hz & _).
  pose proof (hold_nonzero Zeroed _ _ _ _ _ q HS H0 Hz). lia.
Qed.

(** What a scan yields for an entry. *)
Definition shown pg (x : bytes * RID) : bytes * bytes := (x.1, default [] (rid_value pg x.2)).

(** The cursor stands at the first of the entries [rest], or at the end. *)
Definition cursor_rem pg (c : BPlusTreeKvCursor) (rest : list (bytes * RID)) : Prop :=
  if valid_ c then exists x l ms, entries_ c !! pos_ c = Some x /\ drop (S (pos_ c)) (entries_ c) = l /\
    leaf_chain pg (next_leaf_ c) ms /\ rest = x :: l ++ concat ms /\ (key_ c, value_ c) = shown pg x
  else rest = [].

Definition rids_in (cs : list Z) (l : list (bytes * RID)) : Prop :=
  forall k rid, (k, rid) ∈ l -> key_wf k /\ rid_page rid ∈ cs /\ 0 <= rid_slot rid.

Lemma materialize_ok e pg cs m c x : engine_ok e pg cs m -> entries_ c !! pos_ c = Some x -> rids_in cs [x] ->
  exists c' e', Materialize c e = (Ok c', e') /\ engine_ok e' pg cs m /\ same_engine e e' /\
    c' = mkCursor (entries_ c) (pos_ c) (next_leaf_ c) x.1 (default [] (rid_value pg x.2)) (valid_ c).
Proof.
  intros He Hx Hr. destruct x as [k rid]. destruct (Hr k rid) as (Hk & Hq & H0); [set_solver|].
  unfold Materialize. rewrite Hx. destruct (tuples_get e pg cs m rid He Hq H0) as (e1 & E1 & He1 & S1).
  rewrite (bind_ok _ _ _ _ _ E1), take_key by done. eexists _, e1. split_and!; done.
Qed.

Lemma leaf_fetch e pg cs m pid p : engine_ok e pg cs m -> 0 <= pid -> pg pid = LeafImage p ->
  exists f e1 e2, on_engine_pool (FetchPage Zeroed pid) e = (Ok (Some f), e1) /\
    on_engine_pool (read_as as_leaf f) e1 = (Ok p, e1) /\ on_engine_pool (UnpinPage pid false) e1 = (Ok true, e2) /\
    engine_ok e2 pg cs m /\ same_engine e e2.
Proof.
  intros He H0 Hp. pose proof (eo_slots _ _ _ _ He).
  destruct (hold_fetch Zeroed _ pg ∅ ∅ ∅ pid (eo_idle _ _ _ _ He) (lookup_empty _)) as (f & s1 & E1 & H1 & D1 & _).
  { rewrite map_size_empty. lia. }
  { split; [done|]. eapply hold_nonzero; [apply He | done | by rewrite Hp]. }
  destruct (hold_get Zeroed _ _ _ _ _ pid f 1 H1) as [G _]; [apply lookup_insert_eq|].
  destruct (hold_unpin Zeroed s1 pg _ _ ∅ pid f 1 false H1 (lookup_insert_eq _ _ _)) as (s2 & E2 & H2 & D2);
    [set_solver | done |].
  rewrite decide_True, delete_insert_id in H2 by first [done | apply lookup_empty].
  set (e1 := set_index (set_pool s1 (index_ e)) e). set (e2 := set_index (set_pool s2 (index_ e1)) e1).
  assert (SE : same_engine e e2) by (split_and!; try done; split_and!; try done; by eapply same_dims_trans).
  exists f, e1, e2. split_and!; auto.
  - exact (on_engine_pool_ok _ e _ s1 E1).
  - apply (on_engine_pool_ok _ e1 p s1). unfold read_as. cbn [e1 engine_pool index_ set_index set_pool buffer_pool_manager_].
    by rewrite (bind_ok _ _ _ _ _ G), Hp.
  - exact (on_engine_pool_ok _ e1 _ s2 E2).
  - by eapply engine_ok_same.
Qed.

Lemma load_leaf_ok e pg cs m c pid ms fuel : engine_ok e pg cs m -> leaf_chain pg pid ms -> (length ms <= fuel)%nat ->
  rids_in cs (concat ms) -> entries_ c = [] -> pos_ c = 0%nat ->
  exists c' e', load_leaf_loop fuel pid c e = (Ok c', e') /\ engine_ok e' pg cs m /\ same_engine e e' /\
    cursor_rem pg c' (concat ms).
Proof.
  revert e c pid fuel. induction ms as [|mi ms IH]; intros e c pid fuel He Hc Hf Hr Hn Hp.
  { simpl in Hc. subst pid. eexists _, e. destruct fuel; (split; [reflexivity|]); split_and!; auto using same_engine_refl; done. }
  destruct Hc as (H0 & p & Hpg & Hok & Hmi & Hc). destruct fuel as [|fuel]; [simpl in Hf; lia|].
  cbn [load_leaf_loop]. destruct (Z.eqb_spec pid INVALID_PAGE_ID) as [Ei|_]; [unfold INVALID_PAGE_ID in Ei; lia|].
  destruct (leaf_fetch e pg cs m pid p He H0 Hpg) as (f & e1 & e2 & E1 & R1 & E2 & He2 & S2).
  rewrite (bind_ok _ _ _ _ _ E1). cbn [deref]. rewrite (bind_ok _ _ e1 f e1) by done.
  rewrite (bind_ok _ _ _ _ _ R1), (bind_ok _ _ _ _ _ E2), Hn. cbn [app].
  change (leaf_items p) with (leaf_entries p). rewrite Hmi. destruct mi as [|x mi].
  - rewrite bool_decide_true by done. cbn [negb].
    destruct (IH e2 (mkCursor [] (pos_ c) (Leaf.next_page_id_ p) (key_ c) (value_ c) (valid_ c)) (Leaf.next_page_id_ p) fuel)
      as (c' & e3 & E3 & He3 & S3 & Hrem); [done | done | simpl in Hf; lia | done | done | done |].
    exists c', e3. split_and!; [exact E3 | done | by eapply same_engine_trans | done].
  - rewrite bool_decide_false by done. cbn [negb].
    destruct (materialize_ok e2 pg cs m (mkCursor (x :: mi) (pos_ c) (Leaf.next_page_id_ p) (key_ c) (value_ c) true) x)
      as (c' & e3 & E3 & He3 & S3 & ->); [done | by rewrite Hp | |].
    { intros k rid Hin. apply Hr. simpl. set_solver. }
    eexists _, e3. split_and!; [exact E3 | done | by eapply same_engine_trans |].
    rewrite Hp. exists x, mi, ms. split_and!; auto; done.
Qed.

Lemma next_ok e pg cs m c x rest : engine_ok e pg cs m -> cursor_rem pg c (x :: rest) -> rids_in cs rest ->
  valid_ c = true /\ (key_ c, value_ c) = shown pg x /\
  exists c' e', Next c e = (Ok c', e') /\ engine_ok e' pg cs m /\ same_engine e e' /\ cursor_rem pg c' rest.
Proof.
  intros He Hc Hr. unfold cursor_rem in Hc. destruct (valid_ c) eqn:Ev; [|done].
  destruct Hc as (y & l & ms & Hy & Hl & Hms & Heq & Hkv). injection Heq as <- ->.
  split_and!; [done | done |]. unfold Next. rewrite Ev. cbn [negb entries_ pos_ next_leaf_].
  destruct (Nat.leb_spec (length (entries_ c)) (S (pos_ c))) as [Hend|Hmore].
  - rewrite drop_ge in Hl by done. subst l. unfold LoadLeaf. rewrite (bind_ok get _ e e e) by done.
    eapply load_leaf_ok; eauto. eapply leaf_chain_fuel; [apply He | done].
  - destruct (lookup_lt_is_Some_2 (entries_ c) (S (pos_ c))) as [z Hz]; [lia|].
    rewrite (drop_S _ z) in Hl by done. subst l.
    destruct (materialize_ok e pg cs m (mkCursor (entries_ c) (S (pos_ c)) (next_leaf_ c) (key_ c) (value_ c) (valid_ c)) z)
      as (c' & e1 & E1 & He1 & S1 & ->); [done | done | |].
    { intros k rid Hin. apply Hr. simpl. set_solver. }
    rewrite Ev in E1. eexists _, e1. split_and!; [exact E1 | done | done |].
    unfold cursor_rem. cbn [valid_ entries_ pos_ next_leaf_ key_ value_]. rewrite ?Ev. exists z, (drop (S (S (pos_ c))) (entries_ c)), ms. by split_and!.
Qed.

End EngineSpec.

(** A client that drains a cursor, with fuel for [n] steps. *)
Fixpoint drain (n : nat) (c : BPlusTreeKvCursor) : M Engine (list (bytes * bytes)) :=
  if negb (valid_ c) then ret [] else
  match n with
  | O => fail OutOfFuel
  | S n => let* c' := Next c in let* l := drain n c' in ret ((key_ c, value_ c) :: l)
  end.

Lemma drain_ok e pg cs m c rest : engine_ok e pg cs m -> cursor_rem pg c rest -> rids_in cs rest ->
  exists e', drain (length rest) c e = (Ok (shown pg <$> rest), e') /\ engine_ok e' pg cs m /\ same_engine e e'.
Proof.
  revert e c. induction rest as [|x rest IH]; intros e c He Hc Hr.
  - exists e. unfold cursor_rem in Hc. destruct (valid_ c) eqn:Ev; [by destruct Hc as (? & ? & ? & _ & _ & _ & ? & _)|].
    cbn [drain length]. rewrite Ev. split_and!; [done | done | apply same_engine_refl].
  - assert (Hr' : rids_in cs rest) by (intros k rid Hin; apply Hr; set_solver).
    destruct (next_ok e pg cs m c x rest He Hc Hr') as (Ev & Hkv & c' & e1 & E1 & He1 & S1 & Hc1).
    destruct (IH e1 c' He1 Hc1 Hr') as (e2 & E2 & He2 & S2). exists e2. cbn [drain length]. rewrite Ev. cbn [negb].
    rewrite (bind_ok _ _ _ _ _ E1), (bind_ok _ _ _ _ _ E2), Hkv. split_and!; [done | done | by eapply same_engine_trans].
Qed.

Lemma engine_rids e pg cs m : engine_ok e pg cs m -> rids_in cs m.
Proof.
  intros He k rid Hin. destruct (eo_rids _ _ _ _ He k rid Hin) as (? & ? & _). split_and!; auto.
  pose proof (tree_has_ok _ _ _ (eo_tree _ _ _ _ He)) as [Hk _]. rewrite Forall_forall in Hk. by apply (Hk (k, rid)).
Qed.

Lemma new_cursor_ok e pg cs m : engine_ok e pg cs m -> tree_linked (index_ e) pg m ->
  exists c e', NewCursor e = (Ok c, e') /\ engine_ok e' pg cs m /\ same_engine e e' /\ cursor_rem pg c m.
Proof.
  intros He Hl. unfold NewCursor.
  assert (exists e1 pid ms, on_index FirstLeafPageId e = (Ok pid, e1) /\ engine_ok e1 pg cs m /\ same_engine e e1 /\
            leaf_chain pg pid ms /\ concat ms = m) as (e1 & pid & ms & E1 & He1 & S1 & Hc & <-).
  { destruct Hl as [[Hr ->]|(h & ms & Ht & Hc & Hm)].
    - exists e, INVALID_PAGE_ID, []. split_and!; auto using same_engine_refl; [|done].
      rewrite (on_index_ok _ e INVALID_PAGE_ID (index_ e)); [by destruct e|].
      unfold FirstLeafPageId. rewrite (bind_ok get _ (index_ e) (index_ e) (index_ e)) by done. by rewrite Hr.
    - destruct (tree_rep_nonzero _ _ _ _ _ Ht) as [H0 _]. pose proof (eo_slots _ _ _ _ He) as Hs.
      destruct (first_leaf_ok h (tree_fuel (index_ e)) (index_ e) pg (tree_root (index_ e)) INVALID_PAGE_ID m) as (t' & E & HS & SS);
        [eapply tree_fuel_enough; [apply He | done] | unfold slots, engine_pool in *; lia | done | apply He |].
      assert (SE : same_engine e (set_index t' e)) by (by split_and!).
      exists (set_index t' e), (leftmost pg h (tree_root (index_ e))), ms. split_and!; auto.
      + apply on_index_ok. unfold FirstLeafPageId. rewrite (bind_ok get _ (index_ e) (index_ e) (index_ e)) by done.
        destruct (Z.eqb_spec (tree_root (index_ e)) INVALID_PAGE_ID) as [Er|_]; [rewrite Er in H0; unfold INVALID_PAGE_ID in H0; lia | done].
      + by eapply engine_ok_same. }
  rewrite (bind_ok _ _ _ _ _ E1). unfold LoadLeaf. rewrite (bind_ok get _ e1 e1 e1) by done.
  destruct (load_leaf_ok e1 pg cs (concat ms) (mkCursor [] 0 (next_leaf_ cursor_init) (key_ cursor_init) (value_ cursor_init) (valid_ cursor_init))
    pid ms (tree_fuel (index_ e1))) as (c & e2 & E2 & He2 & S2 & Hrem); auto.
  - eapply leaf_chain_fuel; [apply He1 | done].
  - by eapply engine_rids.
  - exists c, e2. split_and!; auto. by eapply same_engine_trans.
Qed.

(** Closing and opening again: the pages are the same but for the meta page. *)
Lemma restart_ok kv pg cs m mt kt vt : closed_ kv = false -> engine_ok (engine_ kv) pg cs m ->
  pg HEADER_PAGE_ID = MetaImage mt -> magic mt = kMetaMagic ->
  exists e1 e2, Close kv = (Ok tt, mkMiniKV e1 true) /\
    MiniKV_open (file (disk_manager (engine_pool e1))) kt vt = Ok (mkMiniKV e2 false) /\
    engine_ok e2 (<[HEADER_PAGE_ID := MetaImage (flushed_meta (engine_ kv) mt)]> pg) cs m /\
    key_type_ e2 = key_type mt /\ value_type_ e2 = value_type mt /\
    exists s, index_ e2 = SetRootPageId (tree_root (index_ (engine_ kv))) (BPlusTree_new s Leaf.LEAF_PAGE_SIZE Internal.INTERNAL_PAGE_SIZE) /\
      slot_num s = Z.to_nat BUFFER_POOL_SIZE /\ next_page_id (disk_manager s) <= next_page_id (disk_manager (engine_pool (engine_ kv))).
Proof.
  intros Hcl He Hm Hmg. destruct (flush_ok (engine_ kv) pg cs m mt He Hm) as (e1 & E1 & He1 & S1 & Hd).
  set (pg' := <[HEADER_PAGE_ID := _]> pg) in *.
  assert (Hm' : pg' HEADER_PAGE_ID = MetaImage (flushed_meta (engine_ kv) mt)) by apply fn_lookup_insert.
  set (f := file (disk_manager (engine_pool e1))).
  pose proof (inv_disk _ _ (hold_inv _ _ _ _ _ _ (eo_idle _ _ _ _ He1))) as Hdisk. fold f in Hdisk.
  assert (Hlen : Z.of_nat (length f) <= MAX_PAGES) by lia.
  destruct He1 as [A1 A2 A3 A4 A5 A6]. pose proof S1 as ((R & _ & _ & Dn & _) & F & _).
  destruct (reopen_ok (Z.to_nat BUFFER_POOL_SIZE) f pg' cs m (flushed_meta (engine_ kv) mt) kt vt) as (e2 & E2 & He2 & T1 & T2 & s & Es & Ds1 & Ds2); auto.
  { unfold BUFFER_POOL_SIZE. lia. }
  { destruct A3 as [[A3 ->]|[h A3]]; [left | right; exists h]; cbn [flushed_meta update_meta root_page_id SetRootPageId tree_root];
      rewrite <- R; done. }
  { cbn [flushed_meta update_meta tuple_first_page_id]. by rewrite <- F. }
  exists e1, e2. split_and!; auto.
  - unfold Close. rewrite (bind_ok get _ kv kv kv) by done. rewrite Hcl. unfold bind, on_engine. by rewrite E1.
  - unfold MiniKV_open. fold f. destruct (Z.eqb_spec (next_page_id (disk_manager (Pool_new (Z.to_nat BUFFER_POOL_SIZE) f))) 0) as [E0|_];
      [|by rewrite E2].
    exfalso. pose proof (idle_open Zeroed (Z.to_nat BUFFER_POOL_SIZE) f Hlen) as HS.
    pose proof (hold_nonzero Zeroed _ _ _ _ _ HEADER_PAGE_ID HS ltac:(done)) as Hnz. unfold Pool_new in E0. rewrite E0 in Hnz.
    enough (HEADER_PAGE_ID < 0) by done. apply Hnz. pose proof (Hd HEADER_PAGE_ID ltac:(done)) as Hd0. unfold disk_page in Hd0.
    fold f in Hd0. rewrite Hd0, Hm'. done.
  - exists s. split_and!; [exact Es | exact Ds2|]. rewrite Ds1.
    change (next_page_id (DiskManager_open f) <= next_page_id (disk_manager (engine_pool (engine_ kv)))).
    destruct (open_inv Zeroed 0 f Hlen) as (_ & -> & _). unfold engine_pool in *. lia.
Qed.

(** ** Properties *)

(** [BPlusTreeEngine::Get] is lookup in the map the engine holds: for every
    well-formed engine it returns the stored bytes of the key, or [false] when
    the key is absent; it changes nothing the client can see. *)
Theorem Engine_Get_correct (e : Engine) (pg : Z -> page_image) (cs : list Z) (m : list (bytes * RID)) (key : bytes) :
  engine_ok e pg cs m -> key_wf key ->
  exists e', Engine_Get key e = (Ok (value_of pg m key), e') /\ engine_ok e' pg cs m /\ same_engine e e'.
Proof. apply engine_get_ok. Qed.

(** C33. A cursor visits every entry of the engine exactly once, in the order of
    the keys, with its value, and then is invalid; each page it needs is pinned
    only while it is read. *)
Theorem cursor_scans_in_order (e : Engine) (pg : Z -> page_image) (cs : list Z) (m : list (bytes * RID)) :
  engine_ok e pg cs m -> tree_linked (index_ e) pg m ->
  entries_ok m /\
  exists e', (let* c := NewCursor in drain (length m) c) e = (Ok (shown pg <$> m), e') /\
    engine_ok e' pg cs m /\ same_engine e e'.
Proof.
  intros He Hl. split; [by eapply tree_has_ok, He|].
  destruct (new_cursor_ok e pg cs m He Hl) as (c & e1 & E1 & He1 & S1 & Hc). rewrite (bind_ok _ _ _ _ _ E1).
  destruct (drain_ok e1 pg cs m c m He1 Hc (engine_rids _ _ _ _ He)) as (e2 & E2 & He2 & S2).
  exists e2. split_and!; auto. by eapply same_engine_trans.
Qed.

(** C12. Closing and reopening a database loses nothing: after [Close], opening
    the file again succeeds, with the declared types of the meta page, and every
    [Get] answers as it would have before. *)
Theorem MiniKV_reopen (kv : MiniKV) (pg : Z -> page_image) (cs : list Z) (m : list (bytes * RID)) (mt : MetaPage) (kt vt : DType) :
  closed_ kv = false -> engine_ok (engine_ kv) pg cs m ->
  pg HEADER_PAGE_ID = MetaImage mt -> magic mt = kMetaMagic ->
  exists kv1 kv2, Close kv = (Ok tt, kv1) /\ closed_ kv1 = true /\
    MiniKV_open (file (disk_manager (engine_pool (engine_ kv1)))) kt vt = Ok kv2 /\
    key_type_ (engine_ kv2) = key_type mt /\ value_type_ (engine_ kv2) = value_type mt /\
    forall key, key_wf key -> exists kv3, MiniKV_Get key kv2 = (Ok (value_of pg m key), kv3).
Proof.
  intros Hcl He Hm Hmg. destruct (restart_ok kv pg cs m mt kt vt Hcl He Hm Hmg) as (e1 & e2 & E1 & E2 & He2 & T1 & T2 & _).
  exists (mkMiniKV e1 true), (mkMiniKV e2 false). split_and!; auto. intros key Hk.
  destruct (engine_get_ok e2 _ cs m key He2 Hk) as (e3 & E3 & _ & _).
  exists (mkMiniKV e3 false). unfold MiniKV_Get, on_engine. cbn [engine_ closed_]. rewrite E3. by erewrite value_of_meta.
Qed.

(** ** A concrete database: meta page, one leaf as root, one value page. *)

Definition demo_meta : MetaPage := mkMeta kMetaMagic kMetaVersion (DType_u8 Int64) (DType_u8 Blob) 1 2.
Definition demo_entries : list (bytes * RID) := [(KeyEncoder_int64 5, mkRID 2 0)].
Definition demo_file : list page_image := [MetaImage demo_meta; leaf_of 1 INVALID_PAGE_ID demo_entries; ValueImage demo_page].
Definition demo_view (q : Z) : page_image := load Zeroed (Z.to_nat q) demo_file.

Lemma demo_leaf : tree_rep demo_view 0 INVALID_PAGE_ID 1 demo_entries.
Proof.
  split; [lia|]. eexists. split; [reflexivity|]. split_and!; try done.
  constructor; [vm_compute; discriminate|]. constructor; repeat constructor.
Qed.

Lemma demo_chain : chain demo_view 2 [2].
Proof. destruct demo_page_ok as [H1 H2]. split; [done|]. split; [done|]. exists demo_page. by split_and!. Qed.

Lemma demo_engine : exists e, Engine_new false Int32 Int32 (Pool_new 4 demo_file) = Ok e /\ engine_ok e demo_view [2] demo_entries.
Proof.
  destruct (reopen_ok 4 demo_file demo_view [2] demo_entries demo_meta Int32 Int32) as (e & E & He & _); try done.
  - lia.
  - right. exists 0%nat. apply demo_leaf.
  - apply demo_chain.
  - apply NoDup_singleton.
  - intros k rid [= -> ->]%list_elem_of_singleton. split_and!; [apply list_elem_of_here | done | by vm_compute; eexists].
  - eauto.
Qed.

Lemma demo_linked e : Engine_new false Int32 Int32 (Pool_new 4 demo_file) = Ok e -> tree_linked (index_ e) demo_view demo_entries.
Proof.
  intros E. assert (Hr : tree_root (index_ e) = 1).
  { revert E. unfold Engine_new. destruct (open_meta (Pool_new 4 demo_file)) as [r s] eqn:Eo.
    assert (Hr : r = Ok demo_meta) by (change r with ((r, s).1); rewrite <- Eo; vm_compute; reflexivity).
    rewrite Hr. by intros [= <-]. }
  right. exists 0%nat, [demo_entries]. rewrite Hr. split_and!; [apply demo_leaf | | done].
  split; [done|]. eexists. split; [reflexivity|]. split_and!; [|done..].
  constructor; [vm_compute; discriminate|]. constructor; repeat constructor.
Qed.

Lemma Engine_Get_correct_witness : exists e e', engine_ok e demo_view [2] demo_entries /\
  Engine_Get (KeyEncoder_int64 5) e = (Ok (value_of demo_view demo_entries (KeyEncoder_int64 5)), e').
Proof.
  destruct demo_engine as (e & _ & He).
  destruct (Engine_Get_correct e demo_view [2] demo_entries (KeyEncoder_int64 5) He) as (e' & E & _ & _); [done|].
  exists e, e'. auto.
Defined.

Lemma cursor_scans_in_order_witness : exists e e', engine_ok e demo_view [2] demo_entries /\
  (let* c := NewCursor in drain (length demo_entries) c) e = (Ok (shown demo_view <$> demo_entries), e').
Proof.
  destruct demo_engine as (e & E & He).
  destruct (cursor_scans_in_order e demo_view [2] demo_entries He (demo_linked e E)) as (_ & e' & E' & _ & _).
  exists e, e'. auto.
Defined.

Lemma MiniKV_reopen_witness : exists kv kv1 kv2 kv3, Close kv = (Ok tt, kv1) /\
  MiniKV_open (file (disk_manager (engine_pool (engine_ kv1)))) Int32 Int32 = Ok kv2 /\
  MiniKV_Get (KeyEncoder_int64 5) kv2 = (Ok (value_of demo_view demo_entries (KeyEncoder_int64 5)), kv3).
Proof.
  destruct demo_engine as (e & _ & He).
  destruct (MiniKV_reopen (mkMiniKV e false) demo_view [2] demo_entries demo_meta Int32 Int32 eq_refl He eq_refl eq_refl)
    as (kv1 & kv2 & E1 & _ & E2 & _ & _ & HG).
  destruct (HG (KeyEncoder_int64 5)) as (kv3 & E3); [done|].
  exists (mkMiniKV e false), kv1, kv2, kv3. auto.
Defined.
