(* ===== verification/KvMap.v ===== *)
(** * The key-value store is a finite map

    The engine's insertion and removal on top of the tree's and the tuple
    store's, and the store as a whole: from an empty file, every run of
    insertions, removals, lookups and restarts answers as a finite map from keys
    to values does. *)

From stdpp Require Import functions.
From S2P Require Import Prelude KeyCodec Replacer BufferPool BufferPoolSpec PoolHold TreePages TreePagesSpec PageImage BPlusTree BPlusTreeSpec TreeOwn BPlusTreeInsert BPlusTreeRemove TupleStore TupleStoreSpec Engine EngineSpec.
Open Scope Z_scope.

Abbreviation LMAX := Leaf.LEAF_PAGE_SIZE.
Abbreviation IMAX := Internal.INTERNAL_PAGE_SIZE.

Section KvMap.

Implicit Types (e : Engine) (pg : Z -> page_image) (m : list (bytes * RID)) (cs F : list Z).

(** ** Owned trees inside the engine *)

(** The links of an owned tree are a chain of its leaves. *)
Lemma own_chain lmax imax pg h : forall parent pid lo hi m F fst nx ms', own lmax imax pg h parent pid lo hi m F fst nx ->
  leaf_chain pg nx ms' -> exists ms, leaf_chain pg fst (ms ++ ms') /\ concat ms = m.
Proof.
  induction h as [|h IH]; intros parent pid lo hi m F fst nx ms' [H0 Hm] Hc.
  - destruct Hm as (p & Hp & _ & Hok & _ & <- & _ & _ & -> & <-). exists [leaf_entries p]. split; [|by rewrite concat_cons, app_nil_r].
    split; [done|]. exists p. by split_and!.
  - destruct Hm as (p & F' & _ & _ & _ & _ & _ & Hs). revert m F' fst Hs.
    induction (bounds lo (internal_entries p)) as [|[b c] es IHes]; intros m F' fst; simpl.
    + intros (-> & _ & ->). by exists [].
    + intros (m1 & m2 & F1 & F2 & mid & -> & _ & _ & Ht & Hs). destruct (IHes _ _ _ Hs) as (ms2 & Hc2 & <-).
      destruct (IH _ _ _ _ _ _ _ _ _ Ht Hc2) as (ms1 & Hc1 & <-). exists (ms1 ++ ms2). by rewrite <- app_assoc, concat_app.
Qed.

Lemma tree_own_linked lmax imax t pg h m F : tree_own lmax imax t pg h m F -> tree_linked t pg m.
Proof.
  intros [(? & -> & _)|(_ & fst & Ho)]; [by left|]. right.
  destruct (own_chain _ _ _ _ _ _ _ _ _ _ _ _ [] Ho eq_refl) as (ms & Hc & Hm). rewrite app_nil_r in Hc.
  exists h, ms. split_and!; [by eapply own_rep | by rewrite (own_leftmost _ _ _ _ _ _ _ _ _ _ _ _ Ho) | done].
Qed.

Lemma tree_own_frame lmax imax t t' pg pg' h m F : tree_own lmax imax t pg h m F -> tree_root t' = tree_root t ->
  (forall q, q ∈ F -> pg' q = pg q) -> tree_own lmax imax t' pg' h m F.
Proof.
  intros [?|(Hnd & fst & Ho)] Hr HF; [left; by rewrite Hr | right]. split; [done|]. exists fst. rewrite Hr. by eapply own_frame.
Qed.

Lemma tree_own_nodes lmax imax t pg h m F : tree_own lmax imax t pg h m F -> forall q, q ∈ F -> 0 <= q /\ is_node (pg q).
Proof. intros [(_ & _ & -> & _)|(_ & fst & Ho)]; [set_solver | by eapply own_pages]. Qed.

(** A tree whose pages fit in the file is at most 16 levels above its leaves. *)
Lemma tree_own_height lmax imax t pg h m F : tidle t pg -> tree_own lmax imax t pg h m F -> (h <= 16)%nat.
Proof.
  intros HS [(_ & _ & _ & ->)|(Hnd & fst & Ho)]; [lia|].
  assert (Hlen : (length F <= Z.to_nat (allocated t))%nat).
  { apply NoDup_bounded; [done|]. intros q Hq. destruct (own_pages _ _ _ _ _ _ _ _ _ _ _ _ Ho q Hq) as [H0 Hn].
    enough (q < allocated t) by lia. eapply thold_allocated; [exact HS | done|]. by destruct (pg q). }
  pose proof (inv_disk _ _ (hold_inv _ _ _ _ _ _ HS)) as Hd. unfold allocated in Hlen.
  pose proof (own_height _ _ _ _ _ _ _ _ _ _ _ _ Ho) as Hh. assert (MAX_PAGES < 2 ^ 17) by done.
  assert (Z.of_nat h < 17); [|lia]. apply (Z.pow_lt_mono_r_iff 2); lia.
Qed.

(** ** The engine's invariant *)

(** What is stored: the map from keys to values. *)
Definition contents pg m : gmap bytes bytes := omap (rid_value pg) (to_map m).

Lemma contents_lookup pg m key : contents pg m !! key = value_of pg m key.
Proof. unfold contents, value_of. by rewrite lookup_omap. Qed.

Record kv_ok e pg cs m F (h : nat) : Prop := {
  ko_engine : engine_ok e pg cs m;
  ko_tree : tree_own LMAX IMAX (index_ e) pg h m F;
  ko_sizes : sizes_ok LMAX IMAX (index_ e);
  ko_slots : (36 <= slots (index_ e))%nat;
  ko_meta : exists mt, pg HEADER_PAGE_ID = MetaImage mt /\ magic mt = kMetaMagic;
  ko_inj : forall k1 k2 rid, (k1, rid) ∈ m -> (k2, rid) ∈ m -> k1 = k2;
}.

Lemma kv_same e e' pg cs m F h : kv_ok e pg cs m F h -> same_engine e e' -> engine_ok e' pg cs m -> kv_ok e' pg cs m F h.
Proof.
  intros [A B C D G J] ((R & L1 & L2 & _ & Sl) & _) He. constructor; auto.
  - by eapply tree_own_frame.
  - destruct C as [C1 C2 C3 C4]. split; congruence || done.
  - unfold slots in *. lia.
Qed.

Lemma chain_agree pg pg' cs : forall pid, chain pg pid cs -> (forall q, q ∈ cs -> pg' q = pg q) -> chain pg' pid cs.
Proof.
  induction cs as [|c cs IH]; intros pid; [done|]. intros (-> & H0 & b & Hb & Hok & Hc) Hq. split; [done|]. split; [done|].
  exists b. rewrite Hq by set_solver. split_and!; auto. apply IH; [done|]. intros q Hq'. apply Hq. set_solver.
Qed.

Lemma rid_value_agree pg pg' rid : pg' (rid_page rid) = pg (rid_page rid) -> rid_value pg' rid = rid_value pg rid.
Proof. unfold rid_value. by intros ->. Qed.

(** ** Insert *)

(** The tuple store's [Put] inside the engine: the index does not notice. *)
Lemma put_step e pg cs m F h value : kv_ok e pg cs m F h -> Z.of_nat (length value) <= MaxValueSize ->
  allocated (index_ e) < MAX_PAGES ->
  exists rid e' pg' cs', on_tuples (Put value) e = (Ok rid, e') /\ kv_ok e' pg' cs' m F h /\
    tree_root (index_ e') = tree_root (index_ e) /\ allocated (index_ e') <= allocated (index_ e) + 1 /\
    rid_page rid ∈ cs' /\ 0 <= rid_slot rid /\ rid_value pg rid = None /\ rid_value pg' rid = Some value /\
    (forall rid', 0 <= rid_slot rid' -> rid' <> rid -> rid_value pg' rid' = rid_value pg rid').
Proof.
  intros [He Ht Hs Hsl (mt & Hm & Hmg) Hinj] Hv Hmax.
  destruct (put_ok value (tuples_ e) pg cs (engine_store _ _ _ _ He) Hv Hmax) as
    (rid & ts & pg' & cs' & E & Hst & [O1 O2 O3] & Dsl & Dal & Hin & H0 & Hnone & Hsome & Hoth).
  exists rid, (set_tuples ts e), pg', cs'. split; [by apply on_tuples_ok|].
  assert (HF : forall q, (is_node (pg q) \/ q = HEADER_PAGE_ID) -> pg' q = pg q).
  { intros q Hq. apply O1. intros Hq'. destruct (O2 q Hq') as [Hc|Hz].
    - destruct (chain_in _ _ _ _ (eo_chain _ _ _ _ He) Hc) as (_ & b & Hb & _). destruct Hq as [Hq| ->]; [by rewrite Hb in Hq | congruence].
    - destruct Hq as [Hq| ->]; [by rewrite Hz in Hq | congruence]. }
  assert (Ht' : tree_own LMAX IMAX (index_ (set_tuples ts e)) pg' h m F).
  { eapply tree_own_frame; [exact Ht | done|]. intros q Hq. apply HF. left. by eapply tree_own_nodes. }
  assert (Hsn : slot_num (ts_pool ts) = slot_num (engine_pool e)) by exact Dsl.
  split_and!; auto. destruct Hst as [S1 S2 S3 S4]. constructor; auto.
  - constructor; auto.
    + change (2 <= slot_num (ts_pool ts))%nat. rewrite Hsn. apply He.
    + by eapply tree_own_has.
    + intros k r Hk. destruct (eo_rids _ _ _ _ He k r Hk) as (R1 & R2 & R3). split_and!; auto.
      rewrite Hoth; auto. intros ->. rewrite Hnone in R3. by destruct R3.
  - by destruct Hs.
  - change (36 <= slot_num (ts_pool ts))%nat. by rewrite Hsn.
  - exists mt. rewrite HF; auto.
Qed.

(** The index's [Insert] inside the engine: the tuple store does not notice. *)
Lemma index_insert_step e pg cs m F h key rid : kv_ok e pg cs m F h -> key_wf key -> to_map m !! key = None ->
  rid_page rid ∈ cs -> 0 <= rid_slot rid -> is_Some (rid_value pg rid) -> (forall k, (k, rid) ∉ m) -> allocated (index_ e) + 17 < MAX_PAGES ->
  exists e' pg' m' F' h', on_index (Insert key rid) e = (Ok true, e') /\ kv_ok e' pg' cs m' F' h' /\
    to_map m' = <[key := rid]> (to_map m) /\ allocated (index_ e') <= allocated (index_ e) + 18 /\
    (forall r, rid_page r ∈ cs -> rid_value pg' r = rid_value pg r).
Proof.
  intros [He Ht Hs Hsl (mt & Hm & Hmg) Hinj] Hk Hno Hin H0 Hval Hfresh Hmax.
  assert (HS : tidle (index_ e) pg) by apply He. pose proof (tree_own_height _ _ _ _ _ _ _ HS Ht) as Hh.
  destruct (insert_ok LMAX IMAX (index_ e) pg h m F key rid HS Hs Ht Hk) as (t' & pg' & E & HS' & Hins); [lia | lia |].
  rewrite Hno in Hins. rewrite bool_decide_eq_true_2 in E by done.
  destruct Hins as (h' & m' & F' & Ht' & Hm' & Hsub & Hnew & Hpg & Hs' & Hsl' & Hal).
  exists (set_index t' e), pg', m', F', h'. split; [by apply on_index_ok|].
  assert (Hfor : forall q, 0 <= q -> ~ is_node (pg q) -> pg q <> Zeroed -> pg' q = pg q).
  { intros q Hq0 Hn Hz. apply Hpg; [intros HqF; apply Hn; by eapply tree_own_nodes|]. by eapply thold_allocated; [exact HS|..]. }
  assert (Hcs : forall q, q ∈ cs -> pg' q = pg q).
  { intros q Hq. destruct (chain_in _ _ _ _ (eo_chain _ _ _ _ He) Hq) as (Hq0 & b & Hb & _). apply Hfor; rewrite ?Hb; [lia | by intros [] | done]. }
  assert (Hrv : forall r, rid_page r ∈ cs -> rid_value pg' r = rid_value pg r) by (intros r Hr; by apply rid_value_agree, Hcs).
  split_and!; auto; [|simpl; lia]. constructor; auto.
  - constructor; auto.
    + unfold engine_pool, slots in *. simpl. lia.
    + by eapply tree_own_has.
    + eapply chain_agree; [apply He | done].
    + apply He.
    + intros k r Hkr. apply (to_map_Some m' k r) in Hkr; [|by eapply tree_own_ok]. rewrite Hm' in Hkr.
      apply lookup_insert_Some in Hkr as [[<- <-]|[_ Hkr]]; [rewrite Hrv by done; auto|].
      apply to_map_Some in Hkr; [|by eapply tree_own_ok]. destruct (eo_rids _ _ _ _ He k r Hkr) as (R1 & R2 & R3).
      rewrite Hrv by done. auto.
  - simpl. lia.
  - exists mt. rewrite Hfor; rewrite ?Hm; [done | done | by intros [] | done].
  - assert (Hm0 : entries_ok m) by (by eapply tree_own_ok). assert (Hm1 : entries_ok m') by (by eapply tree_own_ok).
    intros k1 k2 r H1 H2. apply (to_map_Some m' k1 r Hm1) in H1. apply (to_map_Some m' k2 r Hm1) in H2. rewrite Hm' in H1, H2.
    apply lookup_insert_Some in H1 as [[<- <-]|[_ H1]], H2 as [[<- E2]|[_ H2]]; [done | | |];
      rewrite ?(to_map_Some m _ _ Hm0) in *; [by destruct (Hfresh k2) | subst r; by destruct (Hfresh k1) | by eapply Hinj].
Qed.

(** What the run of operations relates: the engine and the map it stands for. *)
Definition holds (e : Engine) (σ : gmap bytes bytes) (used : Z) : Prop :=
  exists pg cs m F h, kv_ok e pg cs m F h /\ contents pg m = σ /\ allocated (index_ e) <= used.

Lemma contents_insert pg pg' m m' key rid v : rid_value pg' rid = Some v -> to_map m' = <[key := rid]> (to_map m) ->
  (forall k r, to_map m !! k = Some r -> rid_value pg' r = rid_value pg r) -> contents pg' m' = <[key := v]> (contents pg m).
Proof.
  intros Hv Hm Hr. apply map_eq. intros k. rewrite contents_lookup. unfold value_of. rewrite Hm.
  destruct (decide (k = key)) as [->|Hne]; [by rewrite !lookup_insert_eq|].
  rewrite !lookup_insert_ne, contents_lookup by done. unfold value_of. destruct (to_map m !! k) eqn:E; simpl; eauto.
Qed.

(** A new entry: the value goes to the tuple store, its rid to the index. *)
Lemma add_step e pg cs m F h key v : kv_ok e pg cs m F h -> key_wf key -> to_map m !! key = None ->
  Z.of_nat (length v) <= MaxValueSize -> allocated (index_ e) + 19 <= MAX_PAGES ->
  exists rid e1 e2, on_tuples (Put v) e = (Ok rid, e1) /\ on_index (Insert key rid) e1 = (Ok true, e2) /\
    holds e2 (<[key := v]> (contents pg m)) (allocated (index_ e) + 19).
Proof.
  intros Hk Hkey Hno Hv Hmax.
  destruct (put_step e pg cs m F h v Hk Hv) as (rid & e1 & pg1 & cs1 & E1 & K1 & _ & A1 & Hin & H0 & Hn & Hs & Ho); [lia|].
  destruct (index_insert_step e1 pg1 cs1 m F h key rid K1) as (e2 & pg2 & m2 & F2 & h2 & E2 & K2 & Hm & A2 & Hr); auto; [| lia |].
  { intros k Hkr. destruct (eo_rids _ _ _ _ (ko_engine _ _ _ _ _ _ Hk) k rid Hkr) as (_ & _ & R3). rewrite Hn in R3. by destruct R3. }
  exists rid, e1, e2. split_and!; auto. exists pg2, cs1, m2, F2, h2. split_and!; [done | | lia].
  eapply contents_insert; [by rewrite Hr | done|]. intros k r Hkr.
  apply to_map_elem in Hkr; [|eapply tree_own_ok, Hk].
  destruct (eo_rids _ _ _ _ (ko_engine _ _ _ _ _ _ Hk) k r Hkr) as (_ & R2 & R3).
  destruct (eo_rids _ _ _ _ (ko_engine _ _ _ _ _ _ K1) k r Hkr) as (R1 & _ & _).
  rewrite Hr by done. apply Ho; [done|]. intros ->. rewrite Hn in R3. by destruct R3.
Qed.

(** Looking a key up in the index and finding what the map says. *)
Lemma probe_step e pg cs m F h key : kv_ok e pg cs m F h -> key_wf key ->
  exists e', on_index (GetValue key) e = (Ok (to_map m !! key), e') /\ kv_ok e' pg cs m F h /\
    allocated (index_ e') = allocated (index_ e).
Proof.
  intros Hk Hkey. destruct (index_get e pg cs m key (ko_engine _ _ _ _ _ _ Hk) Hkey) as (e' & E & He & S).
  exists e'. split_and!; [done | by eapply kv_same|]. destruct S as ((_ & _ & _ & A & _) & _). exact A.
Qed.

(** An entry of the index has a value: the index and the contents agree on
    which keys are present. *)
Lemma present_iff e pg cs m F h key : kv_ok e pg cs m F h -> to_map m !! key = None <-> contents pg m !! key = None.
Proof.
  intros Hk. rewrite contents_lookup. unfold value_of. destruct (to_map m !! key) as [rid|] eqn:E; simpl; [|done].
  apply to_map_elem in E; [|eapply tree_own_ok, Hk].
  destruct (eo_rids _ _ _ _ (ko_engine _ _ _ _ _ _ Hk) key rid E) as (_ & _ & v & ->). done.
Qed.

(** [Insert] with every outcome: a key of the wrong length, a key that is
    present, a value that does not fit in a page, a new entry. *)
Definition insert_answer (key value : bytes) (σ : gmap bytes bytes) : result bool :=
  if negb (length key =? kKeyLen)%nat
  then Fail (Throw invalid_argument "BPlusTreeEngine: key must be a kKeyLen-byte encoded key") else
  match σ !! key with
  | Some _ => Ok false
  | None => if MaxValueSize <? Z.of_nat (length value)
            then Fail (Throw runtime_error "TupleStore: value too large for a single page") else Ok true
  end.

Definition insert_map (key value : bytes) (σ : gmap bytes bytes) : gmap bytes bytes :=
  match insert_answer key value σ with Ok true => <[key := value]> σ | _ => σ end.

Lemma engine_insert_ok e σ used key v : holds e σ used -> used + 19 <= MAX_PAGES ->
  exists e', Engine_Insert key v e = (insert_answer key v σ, e') /\ holds e' (insert_map key v σ) (used + 19).
Proof.
  intros (pg & cs & m & F & h & Hk & <- & Hu) Hmax. unfold Engine_Insert, insert_map, insert_answer.
  destruct (Nat.eqb_spec (length key) kKeyLen) as [Hkey|Hkey]; cbn [negb]; cycle 1.
  { rewrite ToKey_bad by done. exists e. split; [done|]. exists pg, cs, m, F, h. auto with lia. }
  rewrite ToKey_ok by done. rewrite (bind_ok _ _ e key e) by done.
  destruct (probe_step e pg cs m F h key Hk Hkey) as (e1 & E1 & K1 & A1). rewrite (bind_ok _ _ _ _ _ E1).
  pose proof (present_iff _ _ _ _ _ _ key Hk) as Hp.
  destruct (to_map m !! key) as [r|] eqn:Em, (contents pg m !! key) as [w|] eqn:Ec;
    [| by destruct Hp as [_ Hp]; specialize (Hp eq_refl) | by destruct Hp as [Hp _]; specialize (Hp eq_refl) |].
  { exists e1. split; [done|]. exists pg, cs, m, F, h. auto with lia. }
  destruct (Z.ltb_spec MaxValueSize (Z.of_nat (length v))) as [Hbig|Hv].
  - exists (set_tuples (tuples_ e1) e1). split; [unfold bind, on_tuples; by rewrite put_too_large|].
    exists pg, cs, m, F, h. split_and!; [by destruct e1 as [[]] | done|]. change (allocated (index_ e1) <= used + 19). lia.
  - destruct (add_step e1 pg cs m F h key v K1 Hkey Em Hv) as (rid & e2 & e3 & E2 & E3 & (pg' & cs' & m' & F' & h' & Hk' & Hc' & Ha')); [lia|].
    rewrite (bind_ok _ _ _ _ _ E2), (bind_ok _ _ _ _ _ E3). exists e3. split; [done|]. exists pg', cs', m', F', h'. auto with lia.
Qed.

Definition get_answer (key : bytes) (σ : gmap bytes bytes) : result (option bytes) :=
  if negb (length key =? kKeyLen)%nat
  then Fail (Throw invalid_argument "BPlusTreeEngine: key must be a kKeyLen-byte encoded key") else Ok (σ !! key).

Lemma engine_lookup_ok e σ used key : holds e σ used ->
  exists e', Engine_Get key e = (get_answer key σ, e') /\ holds e' σ used.
Proof.
  intros (pg & cs & m & F & h & Hk & <- & Hu). unfold get_answer.
  destruct (Nat.eqb_spec (length key) kKeyLen) as [Hkey|Hkey]; cbn [negb]; cycle 1.
  { exists e. unfold Engine_Get. rewrite ToKey_bad by done. split; [done|]. exists pg, cs, m, F, h. auto. }
  destruct (engine_get_ok e pg cs m key (ko_engine _ _ _ _ _ _ Hk) Hkey) as (e1 & E1 & He1 & S1).
  exists e1. rewrite contents_lookup. split; [done|]. exists pg, cs, m, F, h. split_and!; [by eapply kv_same | done|].
  destruct S1 as ((_ & _ & _ & A & _) & _). unfold allocated in *. lia.
Qed.

(** ** Remove *)

(** Whether the index's [Remove] ends at a leaf and its sibling, by the pages as
    a client of the pool sees them. *)
Definition tree_removal (key : bytes) (t : BPlusTree) : bool :=
  local_removal LMAX IMAX (view Zeroed (buffer_pool_manager_ t)) (tree_fuel t) None (tree_root t) key.

(** The index's [Remove] inside the engine: the tuple store does not notice. *)
Lemma index_remove_step e pg cs m F h key rid : kv_ok e pg cs m F h -> key_wf key -> to_map m !! key = Some rid ->
  tree_removal key (index_ e) = true ->
  exists e' pg' m' F' h', on_index (BPlusTree.Remove key) e = (Ok tt, e') /\ kv_ok e' pg' cs m' F' h' /\
    to_map m' = delete key (to_map m) /\ allocated (index_ e') = allocated (index_ e) /\
    (forall r, rid_page r ∈ cs -> rid_value pg' r = rid_value pg r).
Proof.
  intros [He Ht Hs Hsl (mt & Hm & Hmg) Hinj] Hk Hin Hloc.
  pose proof (tree_own_height _ _ _ _ _ _ _ (eo_idle _ _ _ _ He : tidle (index_ e) pg) Ht) as Hh.
  set (vw := view Zeroed (buffer_pool_manager_ (index_ e))).
  assert (Hvw : forall q, 0 <= q -> vw q = pg q) by apply (hold_view _ _ _ _ _ _ (eo_idle _ _ _ _ He)).
  assert (HS : tidle (index_ e) vw) by (eapply hold_ext; [apply He | intros q Hq; symmetry; by apply Hvw]).
  assert (Htv : tree_own LMAX IMAX (index_ e) vw h m F).
  { eapply tree_own_frame; [exact Ht | done|]. intros q Hq. apply Hvw. by eapply tree_own_nodes. }
  pose proof (remove_ok LMAX IMAX (index_ e) vw h m F key (tree_fuel (index_ e)) HS Hs Htv Hk ltac:(lia)) as Hrem.
  destruct (IsEmpty (index_ e)) eqn:Ee.
  { destruct Ht as [(_ & -> & _)|(_ & fst & Ho)]; [done|]. apply Z.eqb_eq in Ee. rewrite Ee in Ho. destruct (own_pid _ _ _ _ _ _ _ _ _ _ _ _ Ho) as [H0 _].
    unfold INVALID_PAGE_ID in H0. lia. }
  destruct (Hrem Hloc) as (t' & pg' & E & HS' & (h' & m' & F' & Ht' & Hm' & Hhh & Hsub & Hpg & Hs' & Hsl' & Hal)).
  exists (set_index t' e), pg', m', F', h'. split; [by apply on_index_ok|].
  assert (Hfor : forall q, 0 <= q -> ~ is_node (pg q) -> pg' q = pg q).
  { intros q Hq0 Hn. rewrite <- Hvw by done. apply Hpg. intros HqF. apply Hn. by eapply tree_own_nodes. }
  assert (Hcs : forall q, q ∈ cs -> pg' q = pg q).
  { intros q Hq. destruct (chain_in _ _ _ _ (eo_chain _ _ _ _ He) Hq) as (Hq0 & b & Hb & _). apply Hfor; rewrite ?Hb; [lia | by intros []]. }
  assert (Hrv : forall r, rid_page r ∈ cs -> rid_value pg' r = rid_value pg r) by (intros r Hr; by apply rid_value_agree, Hcs).
  assert (Hm0 : entries_ok m) by (by eapply tree_own_ok). assert (Hm1 : entries_ok m') by (by eapply tree_own_ok).
  assert (Hsubm : forall k r, (k, r) ∈ m' -> (k, r) ∈ m).
  { intros k r Hkr. apply (to_map_Some m' k r Hm1) in Hkr. rewrite Hm' in Hkr. apply lookup_delete_Some in Hkr as [_ Hkr]. by apply to_map_Some. }
  split_and!; auto. constructor; auto.
  - constructor; auto.
    + unfold engine_pool, slots in *. simpl. lia.
    + by eapply tree_own_has.
    + eapply chain_agree; [apply He | done].
    + apply He.
    + intros k r Hkr. destruct (eo_rids _ _ _ _ He k r (Hsubm k r Hkr)) as (R1 & R2 & R3). rewrite Hrv by done. auto.
  - simpl. lia.
  - exists mt. rewrite Hfor; rewrite ?Hm; [done | done | by intros []].
  - intros k1 k2 r H1 H2. eapply Hinj; eauto.
Qed.

(** The tuple store's [Delete] of a rid the index no longer has. *)
Lemma delete_step e pg cs m F h rid : kv_ok e pg cs m F h -> rid_page rid ∈ cs -> 0 <= rid_slot rid -> (forall k, (k, rid) ∉ m) ->
  exists b e' pg', on_tuples (Delete rid) e = (Ok b, e') /\ kv_ok e' pg' cs m F h /\ allocated (index_ e') = allocated (index_ e) /\
    (forall rid', 0 <= rid_slot rid' -> rid' <> rid -> rid_value pg' rid' = rid_value pg rid').
Proof.
  intros [He Ht Hs Hsl (mt & Hm & Hmg) Hinj] Hin H0 Hno.
  destruct (ts_delete_ok rid (tuples_ e) pg cs (engine_store _ _ _ _ He) Hin H0) as (ts & pg' & E & [S1 S2 S3 S4] & [O1 O2 O3] & [F' [D1 D2]] & _ & Hoth).
  eexists _, (set_tuples ts e), pg'. split; [by apply on_tuples_ok|].
  assert (HF : forall q, (is_node (pg q) \/ q = HEADER_PAGE_ID) -> pg' q = pg q).
  { intros q Hq. apply O1. intros Hc. destruct (chain_in _ _ _ _ (eo_chain _ _ _ _ He) Hc) as (_ & b & Hb & _).
    destruct Hq as [Hq| ->]; [by rewrite Hb in Hq | congruence]. }
  assert (Ht' : tree_own LMAX IMAX (index_ (set_tuples ts e)) pg' h m F).
  { eapply tree_own_frame; [exact Ht | done|]. intros q Hq. apply HF. left. by eapply tree_own_nodes. }
  split; [|split; [exact D1 | done]]. assert (Hsn : slot_num (ts_pool ts) = slot_num (engine_pool e)) by exact D2. constructor; auto.
  - constructor; auto.
    + change (2 <= slot_num (ts_pool ts))%nat. rewrite Hsn. apply He.
    + by eapply tree_own_has.
    + intros k r Hk. destruct (eo_rids _ _ _ _ He k r Hk) as (R1 & R2 & R3). split_and!; auto.
      rewrite Hoth; auto. intros ->. by eapply Hno.
  - by destruct Hs.
  - change (36 <= slot_num (ts_pool ts))%nat. by rewrite Hsn.
  - exists mt. rewrite HF; auto.
Qed.

(** Both: the key is gone from the contents. *)
Lemma drop_step e pg cs m F h key rid : kv_ok e pg cs m F h -> key_wf key -> to_map m !! key = Some rid -> tree_removal key (index_ e) = true ->
  exists b e1 e2, on_index (BPlusTree.Remove key) e = (Ok tt, e1) /\ on_tuples (Delete rid) e1 = (Ok b, e2) /\
    holds e2 (delete key (contents pg m)) (allocated (index_ e)).
Proof.
  intros Hk Hkey Hin Hloc. destruct (index_remove_step e pg cs m F h key rid Hk Hkey Hin Hloc) as (e1 & pg1 & m1 & F1 & h1 & E1 & K1 & Hm & A1 & Hr).
  assert (Hm0 : entries_ok m) by (eapply tree_own_ok, Hk). assert (Hm1 : entries_ok m1) by (eapply tree_own_ok, K1).
  destruct (eo_rids _ _ _ _ (ko_engine _ _ _ _ _ _ Hk) key rid) as (R1 & R2 & R3); [by apply to_map_elem|].
  assert (Hother : forall k r, to_map m1 !! k = Some r -> k <> key /\ to_map m !! k = Some r /\ r <> rid).
  { intros k r Hkr. rewrite Hm in Hkr. apply lookup_delete_Some in Hkr as [Hne Hkr]. split; [done|]. split; [done|].
    intros ->. apply Hne. eapply (ko_inj _ _ _ _ _ _ Hk); by apply to_map_elem. }
  destruct (delete_step e1 pg1 cs m1 F1 h1 rid K1 R1 R2) as (b & e2 & pg2 & E2 & K2 & A2 & Ho).
  { intros k Hkr. apply (to_map_Some m1 k rid Hm1) in Hkr. by destruct (Hother k rid Hkr) as (_ & _ & []). }
  exists b, e1, e2. split_and!; auto. exists pg2, cs, m1, F1, h1. split_and!; [done | | lia].
  apply map_eq. intros k. rewrite contents_lookup. unfold value_of. destruct (to_map m1 !! k) as [r|] eqn:Ek; simpl.
  - destruct (Hother k r Ek) as (Hne & Hk0 & Hr0). rewrite lookup_delete_ne, contents_lookup by done. unfold value_of. rewrite Hk0. simpl.
    destruct (eo_rids _ _ _ _ (ko_engine _ _ _ _ _ _ Hk) k r) as (Q1 & Q2 & _); [by apply to_map_elem|]. by rewrite Ho, Hr.
  - rewrite Hm in Ek. symmetry. apply lookup_delete_None. apply lookup_delete_None in Ek as [->|Ek]; [by left|]. right.
    rewrite contents_lookup. unfold value_of. by rewrite Ek.
Qed.

Definition remove_answer (key : bytes) (σ : gmap bytes bytes) : result bool :=
  if negb (length key =? kKeyLen)%nat
  then Fail (Throw invalid_argument "BPlusTreeEngine: key must be a kKeyLen-byte encoded key")
  else Ok (bool_decide (is_Some (σ !! key))).

Definition remove_map (key : bytes) (σ : gmap bytes bytes) : gmap bytes bytes :=
  match remove_answer key σ with Ok _ => delete key σ | Fail _ => σ end.

(** The condition for a key that is present, evaluated on the engine. *)
Definition engine_removal (key : bytes) (e : Engine) : bool :=
  let (found, e) := on_index (GetValue key) e in
  match found with Ok (Some _) => tree_removal key (index_ e) | _ => true end.

Lemma engine_remove_ok e σ used key : holds e σ used -> engine_removal key e = true ->
  exists e', Engine_Remove key e = (remove_answer key σ, e') /\ holds e' (remove_map key σ) used.
Proof.
  intros (pg & cs & m & F & h & Hk & <- & Hu) Hloc. unfold Engine_Remove, remove_map, remove_answer.
  destruct (Nat.eqb_spec (length key) kKeyLen) as [Hkey|Hkey]; cbn [negb]; cycle 1.
  { rewrite ToKey_bad by done. exists e. split; [done|]. exists pg, cs, m, F, h. auto. }
  rewrite ToKey_ok by done. rewrite (bind_ok _ _ e key e) by done.
  destruct (probe_step e pg cs m F h key Hk Hkey) as (e1 & E1 & K1 & A1). rewrite (bind_ok _ _ _ _ _ E1).
  unfold engine_removal in Hloc. rewrite E1 in Hloc.
  pose proof (present_iff _ _ _ _ _ _ key Hk) as Hp. destruct (to_map m !! key) as [rid|] eqn:Em.
  - destruct (drop_step e1 pg cs m F h key rid K1 Hkey Em Hloc) as (b & e2 & e3 & E2 & E3 & H3).
    rewrite (bind_ok _ _ _ _ _ E2), (bind_ok _ _ _ _ _ E3). exists e3. destruct (contents pg m !! key) eqn:Ec; [|by destruct Hp as [_ Hp]; specialize (Hp eq_refl)].
    split; [by rewrite bool_decide_eq_true_2 by eauto|]. destruct H3 as (pg' & cs' & m' & F' & h' & K3 & C3 & A3).
    exists pg', cs', m', F', h'. split_and!; [done | done | lia].
  - rewrite (proj1 Hp eq_refl), bool_decide_eq_false_2 by (by intros []). exists e1. split; [done|].
    exists pg, cs, m, F, h. split_and!; [done | | lia]. rewrite delete_id; [done|]. by apply Hp.
Qed.

(** *** Opening a new file and opening again *)

Lemma sizes_new s root : sizes_ok LMAX IMAX (SetRootPageId root (BPlusTree_new s LMAX IMAX)).
Proof. split; [done | done | split; vm_compute; congruence..]. Qed.

(** The meta page of a new database, on an empty file. *)
Lemma create_meta_ok n kt vt : (1 <= n)%nat ->
  let mt := mkMeta kMetaMagic kMetaVersion (DType_u8 kt) (DType_u8 vt) INVALID_PAGE_ID INVALID_PAGE_ID in
  exists s, create_meta kt vt (Pool_new n []) = (Ok mt, s) /\ idle Zeroed s (<[HEADER_PAGE_ID := MetaImage mt]> (const Zeroed)) /\
    next_page_id (disk_manager s) = 1 /\ slot_num s = n.
Proof.
  intros Hn mt. assert (HS : idle Zeroed (Pool_new n []) (const Zeroed)).
  { eapply hold_ext; [apply (idle_open Zeroed n []); done | done]. }
  destruct (hold_new Zeroed _ _ _ _ _ HS) as (f & s1 & E1 & H1 & _ & N1 & L1 & _); [rewrite map_size_empty; simpl; lia | done|].
  change (next_page_id (disk_manager (Pool_new n []))) with HEADER_PAGE_ID in *.
  pose proof (lookup_insert_eq (∅ : gmap Z (Z * Z)) HEADER_PAGE_ID (f, 1)) as Hl.
  destruct (hold_get Zeroed _ _ _ _ _ HEADER_PAGE_ID f 1 H1 Hl) as [G1 P1].
  destruct (hold_write Zeroed s1 _ _ _ _ HEADER_PAGE_ID f 1 (MetaImage mt) H1 Hl) as (s2 & E2 & H2 & D2a & D2b).
  destruct (meta_release s2 _ f _ true H2) as (s3 & E3 & H3 & D3a & D3b); [set_solver|].
  exists s3. unfold create_meta. rewrite (bind_ok _ _ _ _ _ E1), (bind_ok _ _ _ _ _ P1). cbv zeta. rewrite Z.eqb_refl. cbn [negb].
  unfold read_as. rewrite (bind_ok _ _ s1 (mkMeta 0 0 0 0 0 0) s1) by (rewrite (bind_ok _ _ _ _ _ G1); done).
  rewrite (bind_ok _ _ _ _ _ E2), (bind_ok _ _ _ _ _ E3). split_and!; [done | done | unfold HEADER_PAGE_ID in N1; lia | by rewrite D3b, D2b, L1].
Qed.

Lemma open_fresh kt vt : exists e, MiniKV_open [] kt vt = Ok (mkMiniKV e false) /\ holds e ∅ 1.
Proof.
  destruct (create_meta_ok (Z.to_nat BUFFER_POOL_SIZE) kt vt) as (s & E & HS & Hn & Hsl); [vm_compute; lia|].
  unfold MiniKV_open, Engine_new. change (_ =? 0) with true. cbv iota. rewrite E. eexists. split; [done|].
  eexists _, [], [], [], 0%nat. split_and!; [|done|]; cycle 1.
  { unfold allocated. simpl. lia. }
  assert (36 <= slot_num s)%nat by (rewrite Hsl; vm_compute; lia). constructor; [constructor | | | | |].
  - exact HS.
  - unfold engine_pool. simpl. lia.
  - by left.
  - done.
  - constructor.
  - set_solver.
  - left. by split_and!.
  - apply sizes_new.
  - done.
  - eexists. by rewrite fn_lookup_insert.
  - set_solver.
Qed.

Lemma restart_step e σ used kt vt : holds e σ used ->
  exists e1 e2, Close (mkMiniKV e false) = (Ok tt, mkMiniKV e1 true) /\
    MiniKV_open (file (disk_manager (engine_pool e1))) kt vt = Ok (mkMiniKV e2 false) /\ holds e2 σ used.
Proof.
  intros (pg & cs & m & F & h & [He Ht Hs Hsl (mt & Hm & Hmg) Hinj] & <- & Hu).
  destruct (restart_ok (mkMiniKV e false) pg cs m mt kt vt) as (e1 & e2 & E1 & E2 & He2 & _ & _ & s & Es & Hn & Ha); auto.
  exists e1, e2. split_and!; auto. set (mt' := flushed_meta _ _) in *.
  eexists _, cs, m, F, h. split_and!; cycle 1.
  { apply map_eq. intros k. rewrite !contents_lookup. by eapply value_of_meta. }
  { unfold allocated. rewrite Es. cbn [SetRootPageId BPlusTree_new buffer_pool_manager_]. etrans; [exact Ha | exact Hu]. }
  constructor; [exact He2 | | rewrite Es; apply sizes_new | | | exact Hinj].
  - eapply tree_own_frame; [exact Ht | by rewrite Es|]. intros q Hq.
    destruct (tree_own_nodes _ _ _ _ _ _ _ Ht q Hq) as [_ Hnode]. apply fn_lookup_insert_ne. intros <-. by rewrite Hm in Hnode.
  - unfold slots. rewrite Es. cbn [SetRootPageId BPlusTree_new buffer_pool_manager_]. rewrite Hn. vm_compute. lia.
  - exists mt'. by rewrite fn_lookup_insert.
Qed.

(** *** A scan is the contents in order *)

Lemma shown_ok pg m : entries_ok m -> entries_ok (shown pg <$> m).
Proof.
  intros [Hw Hs]. split; [by rewrite Forall_fmap|]. clear Hw. induction Hs as [|x l Hs IH Hx]; simpl; constructor; [done|].
  rewrite Forall_fmap. exact Hx.
Qed.

Lemma shown_map pg m : entries_ok m -> (forall k rid, (k, rid) ∈ m -> is_Some (rid_value pg rid)) ->
  to_map (shown pg <$> m) = contents pg m.
Proof.
  intros Hm Hr. apply map_eq. intros k. apply option_eq. intros v.
  rewrite (to_map_Some _ k v) by (by apply shown_ok). rewrite contents_lookup. unfold value_of. rewrite bind_Some, list_elem_of_fmap. split.
  - intros ([k' rid] & [= -> ->] & Hin). exists rid. destruct (Hr _ _ Hin) as [w Hw].
    rewrite to_map_Some by done. by rewrite Hw.
  - intros (rid & Hin & Hv). rewrite to_map_Some in Hin by done. exists (k, rid). unfold shown. simpl. by rewrite Hv.
Qed.

Lemma scan_step e σ used : holds e σ used ->
  exists l e', (let* c := NewCursor in drain (length l) c) e = (Ok l, e') /\ entries_ok l /\ to_map l = σ.
Proof.
  intros (pg & cs & m & F & h & [He Ht _ _ _ _] & <- & _).
  destruct (new_cursor_ok e pg cs m He) as (c & e1 & E1 & He1 & S1 & Hc); [by eapply tree_own_linked|].
  destruct (drain_ok e1 pg cs m c m He1 Hc (engine_rids _ _ _ _ He)) as (e2 & E2 & _ & _).
  assert (Hm : entries_ok m) by (by eapply tree_own_ok).
  exists (shown pg <$> m), e2. rewrite length_fmap, (bind_ok _ _ _ _ _ E1). split_and!; [done | by apply shown_ok|].
  apply shown_map; [done|]. intros k rid Hin. by eapply He.
Qed.

End KvMap.

(** ** Runs of the store *)

Inductive kv_op :=
| OpInsert (key value : bytes)
| OpGet (key : bytes)
| OpRemove (key : bytes)
| OpRestart (key_type value_type : DType).

Inductive kv_answer :=
| Inserted (r : result bool)
| Got (r : result (option bytes))
| Removed (r : result bool)
| Restarted (r : result unit).

(** One call on a [MiniKV]; a restart destroys the object, whose destructor
    closes it, and constructs one on the same file. *)
Definition run_op (o : kv_op) (kv : MiniKV) : kv_answer * MiniKV :=
  match o with
  | OpInsert key value => let (r, kv) := MiniKV_Insert key value kv in (Inserted r, kv)
  | OpGet key => let (r, kv) := MiniKV_Get key kv in (Got r, kv)
  | OpRemove key => let (r, kv) := MiniKV_Remove key kv in (Removed r, kv)
  | OpRestart kt vt =>
      let (r, kv) := Close kv in
      match r with
      | Fail x => (Restarted (Fail x), kv)
      | Ok _ => match MiniKV_open (file (disk_manager (engine_pool (engine_ kv)))) kt vt with
                | Ok kv' => (Restarted (Ok tt), kv')
                | Fail x => (Restarted (Fail x), kv)
                end
      end
  end.

Fixpoint run_ops (ops : list kv_op) (kv : MiniKV) : list kv_answer * MiniKV :=
  match ops with
  | [] => ([], kv)
  | o :: ops => let (a, kv) := run_op o kv in let (l, kv) := run_ops ops kv in (a :: l, kv)
  end.

(** The same calls on a finite map. *)
Definition map_op (o : kv_op) (σ : gmap bytes bytes) : kv_answer * gmap bytes bytes :=
  match o with
  | OpInsert key value => (Inserted (insert_answer key value σ), insert_map key value σ)
  | OpGet key => (Got (get_answer key σ), σ)
  | OpRemove key => (Removed (remove_answer key σ), remove_map key σ)
  | OpRestart _ _ => (Restarted (Ok tt), σ)
  end.

Fixpoint map_ops (ops : list kv_op) (σ : gmap bytes bytes) : list kv_answer * gmap bytes bytes :=
  match ops with
  | [] => ([], σ)
  | o :: ops => let (a, σ) := map_op o σ in let (l, σ) := map_ops ops σ in (a :: l, σ)
  end.

(** Every removal of the run is local where it is made. *)
Definition op_local (o : kv_op) (kv : MiniKV) : bool :=
  match o with OpRemove key => engine_removal key (engine_ kv) | _ => true end.

Fixpoint ops_local (ops : list kv_op) (kv : MiniKV) : bool :=
  match ops with
  | [] => true
  | o :: ops => op_local o kv && ops_local ops (run_op o kv).2
  end.

Lemma run_op_ok o e σ used : holds e σ used -> op_local o (mkMiniKV e false) = true -> used + 19 <= MAX_PAGES ->
  exists e', run_op o (mkMiniKV e false) = ((map_op o σ).1, mkMiniKV e' false) /\ holds e' (map_op o σ).2 (used + 19).
Proof.
  assert (Hmore : forall e σ, holds e σ used -> holds e σ (used + 19)).
  { intros e0 σ0 (pg & cs & m & F & h & H' & Hc & Ha). exists pg, cs, m, F, h. auto with lia. }
  intros Hh Hloc Hmax. destruct o as [key v|key|key|kt vt]; cbn [run_op map_op].
  - destruct (engine_insert_ok e σ used key v Hh Hmax) as (e' & E & H'). exists e'.
    unfold MiniKV_Insert, on_engine. simpl. by rewrite E.
  - destruct (engine_lookup_ok e σ used key Hh) as (e' & E & H'). exists e'.
    unfold MiniKV_Get, on_engine. simpl. rewrite E. auto.
  - destruct (engine_remove_ok e σ used key Hh Hloc) as (e' & E & H'). exists e'.
    unfold MiniKV_Remove, on_engine. simpl. rewrite E. auto.
  - destruct (restart_step e σ used kt vt Hh) as (e1 & e2 & E1 & E2 & H'). exists e2.
    rewrite E1. cbn [engine_]. rewrite E2. auto.
Qed.

Lemma run_ops_ok ops : forall e σ used, holds e σ used -> ops_local ops (mkMiniKV e false) = true ->
  used + 19 * Z.of_nat (length ops) <= MAX_PAGES ->
  exists e' used', run_ops ops (mkMiniKV e false) = ((map_ops ops σ).1, mkMiniKV e' false) /\ holds e' (map_ops ops σ).2 used'.
Proof.
  induction ops as [|o ops IH]; intros e σ used Hh Hloc Hmax; [by exists e, used|]. simpl length in Hmax.
  cbn [ops_local] in Hloc. apply andb_true_iff in Hloc as [Hl Hloc].
  destruct (run_op_ok o e σ used Hh Hl) as (e1 & E1 & H1); [lia|]. rewrite E1 in Hloc. simpl in Hloc.
  destruct (map_op o σ) as [a σ1] eqn:Eo. simpl in E1, H1.
  destruct (IH e1 σ1 (used + 19) H1 Hloc) as (e2 & u2 & E2 & H2); [lia|]. exists e2, u2.
  cbn [run_ops map_ops]. rewrite E1, Eo, E2. by destruct (map_ops ops σ1).
Qed.

(** ** Properties *)


Definition demo_ops : list kv_op :=
  [OpInsert (KeyEncoder_int64 5) [Byte.x61]; OpInsert (KeyEncoder_int64 (-2)) [Byte.x62]; OpRestart Int32 Int32;
   OpInsert (KeyEncoder_int64 5) [Byte.x63]; OpRemove (KeyEncoder_int64 (-2)); OpGet (KeyEncoder_int64 5); OpGet [Byte.x00];
   OpInsert (KeyEncoder_int64 6) huge_value; OpRemove (KeyEncoder_int64 (-2)); OpRemove (KeyEncoder_int64 5);
   OpInsert (KeyEncoder_int64 5) [Byte.x63]; OpGet (KeyEncoder_int64 5)].

