(* ===== verification/Table.v ===== *)
(** * Rows, columns and the row-to-column scan

    Models [Table/Value], [Table/Column], [Table/Schema], [Table/Chunk],
    [Table/RowCodec], [Table/RowTableSource] and [Execution/ScanExecutor], with
    the interfaces [IKvCursor] and [ITableSource]/[IBatchCursor] as type
    classes, so that the executor is independent of the source. *)

From S2P Require Import Prelude KeyCodec.

(** ** float and double

    A floating-point number is its bit pattern. The two conversions C++ makes:
    [float] to [double] is exact; [double] to [float] rounds to the nearest,
    ties to even; a NaN comes out quiet. *)

Definition sign32 (f : Z) : Z := f / 2 ^ 31.
Definition exp32 (f : Z) : Z := (f / 2 ^ 23) mod 2 ^ 8.
Definition frac32 (f : Z) : Z := f mod 2 ^ 23.
Definition is_nan32 (f : Z) : bool := (exp32 f =? 255) && negb (frac32 f =? 0).

Definition float_to_double (f : Z) : Z :=
  sign32 f * 2 ^ 63 +
  (if exp32 f =? 255 then 2047 * 2 ^ 52 + (if frac32 f =? 0 then 0 else Z.lor (frac32 f * 2 ^ 29) (2 ^ 51))
   else if exp32 f =? 0 then
     (if frac32 f =? 0 then 0
      else let k := Z.log2 (frac32 f) in (k + 874) * 2 ^ 52 + (frac32 f - 2 ^ k) * 2 ^ (52 - k))
   else (exp32 f + 896) * 2 ^ 52 + frac32 f * 2 ^ 29).

(** [x / 2^k], to the nearest, ties to even. *)
Definition round_shift (x k : Z) : Z :=
  let q := x / 2 ^ k in
  let r := x mod 2 ^ k in
  if r <? 2 ^ (k - 1) then q else if 2 ^ (k - 1) <? r then q + 1 else q + q mod 2.

Definition double_to_float (d : Z) : Z :=
  let s := d / 2 ^ 63 in
  let e := (d / 2 ^ 52) mod 2 ^ 11 in
  let m := d mod 2 ^ 52 in
  s * 2 ^ 31 +
  (if e =? 2047 then 255 * 2 ^ 23 + (if m =? 0 then 0 else Z.lor (m / 2 ^ 29) (2 ^ 22))
   else if 897 <=? e then Z.min (round_shift ((e - 896) * 2 ^ 52 + m) 29) (255 * 2 ^ 23)
   else round_shift (if e =? 0 then m else 2 ^ 52 + m) (926 - Z.max e 1)).

(** ** Value *)

Record Value := mkValue { v_type : DType; int_val : Z; dbl_val : Z; bytes_val : bytes }.

Definition Value_Int32 (v : Z) : Value := mkValue Int32 v 0 [].
Definition Value_Int64 (v : Z) : Value := mkValue Int64 v 0 [].
Definition Value_Bool (v : bool) : Value := mkValue Bool (if v then 1 else 0) 0 [].
Definition Value_Float (f : Z) : Value := mkValue Float 0 (float_to_double f) [].
Definition Value_Double (d : Z) : Value := mkValue Double 0 d [].
Definition Value_String (b : bytes) : Value := mkValue String_ 0 0 b.

Definition AsInt32 (v : Value) : Z := i32 (int_val v).
Definition AsInt64 (v : Value) : Z := int_val v.
Definition AsBool (v : Value) : bool := negb (int_val v =? 0).
Definition AsFloat (v : Value) : Z := double_to_float (dbl_val v).
Definition AsDouble (v : Value) : Z := dbl_val v.
Definition AsString (v : Value) : bytes := bytes_val v.

Record Field := mkField { f_name : string; f_type : DType }.
Abbreviation Schema := (list Field).

(** ** Column

    [Append<T>] and [Get<T>] copy the object representation of a [T]: in the
    model, bytes; reading a byte other than 0 and 1 as a [bool] is undefined. *)

Record Column := mkColumn {
  c_type : DType;
  c_size : nat;
  fixed_ : bytes;
  offsets_ : list Z;
  var_bytes_ : bytes;
}.

Definition Column_new (t : DType) : Column := mkColumn t 0 [] [0] [].

Definition Append (p : bytes) (c : Column) : Column :=
  mkColumn (c_type c) (S (c_size c)) (fixed_ c ++ p) (offsets_ c) (var_bytes_ c).

Definition AppendBytes (s : bytes) (c : Column) : Column :=
  let var := var_bytes_ c ++ s in
  mkColumn (c_type c) (S (c_size c)) (fixed_ c) (offsets_ c ++ [u32 (Z.of_nat (length var))]) var.

(** The width of the C++ type that holds a fixed-width value; 0 for the rest. *)
Definition FixedWidth (t : DType) : nat :=
  match t with Int32 | Float => 4 | Int64 | Double => 8 | Bool => 1 | _ => 0 end%nat.

Definition bool_rep (raw : bytes) : bool := (le_value raw =? 0) || (le_value raw =? 1).

(** [Get<T>], [T] the type of values of [t]. *)
Definition Column_Get (t : DType) (i : nat) (c : Column) : result bytes :=
  let w := FixedWidth t in
  if (length (fixed_ c) <? i * w + w)%nat then Fail (Undefined "memcpy past the column") else
  let raw := slice (i * w) w (fixed_ c) in
  if bool_decide (t = Bool) && negb (bool_rep raw) then Fail (Undefined "not a bool") else Ok raw.

Definition Column_GetBytes (i : nat) (c : Column) : result bytes :=
  match offsets_ c !! i, offsets_ c !! S i with
  | Some s, Some e =>
      let len := u32 (e - s) in
      if Z.of_nat (length (var_bytes_ c)) <? s + len then Fail (Undefined "slice past the column")
      else Ok (slice (Z.to_nat s) (Z.to_nat len) (var_bytes_ c))
  | _, _ => Fail (Undefined "vector index out of range")
  end.

Record Chunk := mkChunk { column_ids : list Z; columns : list Column; row_count : nat }.

(** ** RowCodec *)

(** The bytes [Encode] writes for a cell, without a length prefix. *)
Definition raw_of (t : DType) (v : Value) : bytes :=
  match t with
  | Int32 => le_bytes 4 (u32 (AsInt32 v))
  | Int64 => le_bytes 8 (u64 (AsInt64 v))
  | Float => le_bytes 4 (AsFloat v)
  | Double => le_bytes 8 (AsDouble v)
  | Bool => le_bytes 1 (if AsBool v then 1 else 0)
  | _ => AsString v
  end.

Definition encode_cell (t : DType) (v : Value) : result bytes :=
  match t with
  | Int32 | Int64 | Float | Double | Bool => Ok (raw_of t v)
  | String_ | Blob => Ok (le_bytes 4 (u32 (Z.of_nat (length (AsString v)))) ++ AsString v)
  | Invalid => Fail (Throw invalid_argument "RowCodec::Encode: invalid field type")
  end.

Fixpoint encode_cells (fs : Schema) (row : list Value) : result bytes :=
  match fs, row with
  | f :: fs, v :: row =>
      let? b := encode_cell (f_type f) v in
      let? rest := encode_cells fs row in
      Ok (b ++ rest)
  | _, _ => Ok []
  end.

Definition RowCodec_Encode (schema : Schema) (row : list Value) : result bytes :=
  if negb (length row =? length schema)%nat
  then Fail (Throw invalid_argument "RowCodec::Encode: row arity does not match schema")
  else encode_cells schema row.

(** [size_t] arithmetic. *)
Definition RequireBytes (off need size : Z) (where_ : string) : result unit :=
  if (u64 (off + need) <? off) || (size <? u64 (off + need))
  then Fail (Throw runtime_error ("RowCodec: truncated row blob in " ++ where_)) else Ok tt.

(** [ReadPod], and the bytes of a string: a read outside the blob is undefined. *)
Definition ReadPod (off len : Z) (blob : bytes) : result bytes :=
  if (off <? 0) || (len <? 0) || (Z.of_nat (length blob) <? off + len) then Fail (Undefined "read past the blob")
  else Ok (slice (Z.to_nat off) (Z.to_nat len) blob).

(** What both decoders do to reach a field: its bytes and the next offset. *)
Definition read_field (where_ : string) (t : DType) (off : Z) (blob : bytes) : result (bytes * Z) :=
  let size := Z.of_nat (length blob) in
  match t with
  | Int32 | Int64 | Float | Double | Bool =>
      let w := Z.of_nat (FixedWidth t) in
      let? _ := RequireBytes off w size where_ in
      let? raw := ReadPod off w blob in
      Ok (raw, off + w)
  | String_ | Blob =>
      let? _ := RequireBytes off 4 size where_ in
      let? prefix := ReadPod off 4 blob in
      let len := le_value prefix in
      let off := off + 4 in
      let? _ := RequireBytes off len size where_ in
      let? raw := ReadPod off len blob in
      Ok (raw, off + len)
  | Invalid => Fail (Throw invalid_argument ("RowCodec::" ++ where_ ++ ": invalid field type"))
  end.

(** A [Value] from the bytes of a field. *)
Definition value_of_raw (t : DType) (raw : bytes) : Value :=
  match t with
  | Int32 => Value_Int32 (i32 (le_value raw))
  | Int64 => Value_Int64 (i64 (le_value raw))
  | Float => Value_Float (le_value raw)
  | Double => Value_Double (le_value raw)
  | Bool => Value_Bool (negb (le_value raw =? 0))
  | _ => Value_String raw
  end.

Fixpoint decode_fields (fs : Schema) (off : Z) (blob : bytes) : result (list Value) :=
  match fs with
  | [] => Ok []
  | f :: fs =>
      let? (raw, off) := read_field "Decode" (f_type f) off blob in
      let? row := decode_fields fs off blob in
      Ok (value_of_raw (f_type f) raw :: row)
  end.

Definition RowCodec_Decode (schema : Schema) (blob : bytes) : result (list Value) := decode_fields schema 0 blob.

(** A field's bytes onto the end of a column: a [bool] is normalised. *)
Definition append_field (t : DType) (raw : bytes) (c : Column) : Column :=
  match t with
  | Int32 | Int64 | Float | Double => Append raw c
  | Bool => Append (le_bytes 1 (if le_value raw =? 0 then 0 else 1)) c
  | _ => AppendBytes raw c
  end.

(** [out_pos]: which output column a schema field goes to, -1 for none; the
    last position wins when a field is projected twice. *)
Fixpoint fill_out_pos (k : Z) (projection : list Z) (out_pos : list Z) : result (list Z) :=
  match projection with
  | [] => Ok out_pos
  | f :: projection =>
      if (f <? 0) || (Z.of_nat (length out_pos) <=? f) then Fail (Undefined "vector index out of range")
      else fill_out_pos (k + 1) projection (<[Z.to_nat f := k]> out_pos)
  end.

Fixpoint decode_into_loop (fs : Schema) (out_pos : list Z) (off : Z) (blob : bytes) (cols : list Column)
  : result (list Column) :=
  match fs, out_pos with
  | f :: fs, k :: out_pos =>
      let? (raw, off) := read_field "DecodeInto" (f_type f) off blob in
      if 0 <=? k then
        match cols !! Z.to_nat k with
        | None => Fail (Undefined "vector index out of range")
        | Some c => decode_into_loop fs out_pos off blob (<[Z.to_nat k := append_field (f_type f) raw c]> cols)
        end
      else decode_into_loop fs out_pos off blob cols
  | _, _ => Ok cols
  end.

Definition DecodeInto (schema : Schema) (blob : bytes) (projection : list Z) (cols : list Column) : result (list Column) :=
  let? out_pos := fill_out_pos 0 projection (replicate (length schema) (-1)) in
  decode_into_loop schema out_pos 0 blob cols.

(** ** The interfaces *)

(** [IKvCursor]: an ordered cursor [C] over a store with state [S]. *)
Class IKvCursor (S C : Type) := {
  kv_Valid : C -> bool;
  kv_Key : C -> bytes;
  kv_Value : C -> bytes;
  kv_Next : C -> M S C;
}.

(** [IBatchCursor::Next]: the next batch, or [None] for [false]. *)
Class IBatchCursor (S C : Type) := {
  Batch_Next : C -> M S (option Chunk * C);
}.

(** ** RowTableSource *)

Section RowSource.

Context {S C : Type} `{!IKvCursor S C}.

Record RowBatchCursor := mkRowCursor { kv_ : C; row_schema : Schema; row_projection : list Z; batch_rows_ : nat }.

(** The inner loop: at most [n] more rows; the rows taken, the cursor and the
    columns. *)
Fixpoint fill_batch (n : nat) (schema : Schema) (projection : list Z) (kv : C) (cols : list Column)
  : M S (nat * C * list Column) :=
  match n with
  | O => ret (0%nat, kv, cols)
  | Datatypes.S n =>
      if kv_Valid kv then
        let* cols := lift (DecodeInto schema (kv_Value kv) projection cols) in
        let* kv := kv_Next kv in
        let* (k, kv, cols) := fill_batch n schema projection kv cols in
        ret (Datatypes.S k, kv, cols)
      else ret (0%nat, kv, cols)
  end.

Fixpoint new_columns (schema : Schema) (projection : list Z) : result (list Column) :=
  match projection with
  | [] => Ok []
  | f :: projection =>
      match (if f <? 0 then None else schema !! Z.to_nat f) with
      | None => Fail (Undefined "vector index out of range")
      | Some fd => let? cols := new_columns schema projection in Ok (Column_new (f_type fd) :: cols)
      end
  end.

Definition RowBatch_Next (c : RowBatchCursor) : M S (option Chunk * RowBatchCursor) :=
  if negb (kv_Valid (kv_ c)) then ret (None, c) else
  let* cols := lift (new_columns (row_schema c) (row_projection c)) in
  let* (n, kv, cols) := fill_batch (batch_rows_ c) (row_schema c) (row_projection c) (kv_ c) cols in
  ret (Some (mkChunk (row_projection c) cols n), mkRowCursor kv (row_schema c) (row_projection c) (batch_rows_ c)).

(** [RowTableSource::Scan] over the engine's [NewCursor]. *)
Definition Row_Scan (NewCursor : M S C) (schema : Schema) (batch_rows : nat) (projection : list Z) : M S RowBatchCursor :=
  let* kv := NewCursor in ret (mkRowCursor kv schema projection batch_rows).

#[export] Instance RowBatch_cursor : IBatchCursor S RowBatchCursor := {| Batch_Next := RowBatch_Next |}.

End RowSource.
Arguments RowBatchCursor : clear implicits.

(** ** ScanExecutor *)

Definition ReadCell (col : Column) (row : nat) : result Value :=
  match c_type col with
  | Int32 | Int64 | Float | Double | Bool =>
      let? raw := Column_Get (c_type col) row col in Ok (value_of_raw (c_type col) raw)
  | String_ | Blob => let? b := Column_GetBytes row col in Ok (Value_String b)
  | Invalid => Fail (Throw invalid_argument "ReadCell: invalid column type")
  end.

Fixpoint read_row (cols : list Column) (r : nat) : result (list Value) :=
  match cols with
  | [] => Ok []
  | col :: cols => let? v := ReadCell col r in let? row := read_row cols r in Ok (v :: row)
  end.

Fixpoint read_rows (n r : nat) (cols : list Column) : result (list (list Value)) :=
  match n with
  | O => Ok []
  | S n => let? row := read_row cols r in let? rows := read_rows n (S r) cols in Ok (row :: rows)
  end.

Section Executor.

Context {S C : Type} `{!IBatchCursor S C}.

(** The loop over batches, with fuel for [n] of them. *)
Fixpoint collect (n : nat) (c : C) : M S (list (list Value)) :=
  match n with
  | O => fail OutOfFuel
  | Datatypes.S n =>
      let* (o, c) := Batch_Next c in
      match o with
      | None => ret []
      | Some chunk =>
          let* rows := lift (read_rows (row_count chunk) 0 (columns chunk)) in
          let* rest := collect n c in
          ret (rows ++ rest)
      end
  end.

Definition CollectProjected (fuel : nat) (Scan : list Z -> M S C) (projection : list Z) : M S (list (list Value)) :=
  let* cursor := Scan projection in collect fuel cursor.

End Executor.
