(* ===== verification/TableSpec.v ===== *)
(** * Rows survive encoding, and scans project them

    Every cell is determined by its bytes; encoding a row and decoding it gives
    it back, decoding never reads outside the blob, and a projected scan of a
    row source yields the projected cells in order, whatever the batch size. *)

From S2P Require Import Prelude KeyCodec Table.

(** ** float -> double -> float *)

Lemma split32 f : 0 <= f < 2 ^ 32 ->
  f = sign32 f * 2 ^ 31 + exp32 f * 2 ^ 23 + frac32 f /\ 0 <= sign32 f <= 1 /\ 0 <= exp32 f < 256 /\ 0 <= frac32 f < 2 ^ 23.
Proof. intros Hf. unfold sign32, exp32, frac32. div_lia. Qed.

Lemma round_shift_exact q k : 0 < k -> round_shift (q * 2 ^ k) k = q.
Proof.
  intros Hk. unfold round_shift. rewrite Z.div_mul, Z.mod_mul by (apply Z.pow_nonzero; lia).
  destruct (Z.ltb_spec 0 (2 ^ (k - 1))) as [|H]; [done|]. pose proof (Z.pow_pos_nonneg 2 (k - 1)). lia.
Qed.

Lemma float_double_float f : 0 <= f < 2 ^ 32 -> is_nan32 f = false -> double_to_float (float_to_double f) = f.
Proof.
  intros Hf Hn. destruct (split32 f Hf) as (Ef & Hs & He & Hm). unfold is_nan32 in Hn.
  unfold float_to_double. set (s := sign32 f) in *. set (e := exp32 f) in *. set (m := frac32 f) in *.
  assert (Hd : forall E M, 0 <= E < 2048 -> 0 <= M < 2 ^ 52 ->
    (s * 2 ^ 63 + (E * 2 ^ 52 + M)) / 2 ^ 63 = s /\ ((s * 2 ^ 63 + (E * 2 ^ 52 + M)) / 2 ^ 52) mod 2 ^ 11 = E /\
    (s * 2 ^ 63 + (E * 2 ^ 52 + M)) mod 2 ^ 52 = M) by (intros E M HE HM; div_lia).
  unfold double_to_float. destruct (Z.eqb_spec e 255) as [E255|Hne].
  - destruct (Z.eqb_spec m 0) as [Em|]; [|done]. destruct (Hd 2047 0) as (-> & -> & ->); [lia | lia |].
    rewrite !Z.eqb_refl. lia.
  - destruct (Z.eqb_spec e 0) as [E0|H0]; cycle 1.
    + destruct (Hd (e + 896) (m * 2 ^ 29)) as (-> & -> & ->); [lia | lia |].
      destruct (Z.eqb_spec (e + 896) 2047); [lia|]. destruct (Z.leb_spec 897 (e + 896)); [|lia].
      replace ((e + 896 - 896) * 2 ^ 52 + m * 2 ^ 29) with ((e * 2 ^ 23 + m) * 2 ^ 29) by lia.
      rewrite round_shift_exact by lia. lia.
    + destruct (Z.eqb_spec m 0) as [Em|Hm0].
      { destruct (Hd 0 0) as (H1 & H2 & H3); [lia | lia |]. rewrite Z.mul_0_l, Z.add_0_l in H1, H2, H3. rewrite H1, H2, H3.
        destruct (Z.eqb_spec 0 2047); [lia|]. destruct (Z.leb_spec 897 0); [lia|]. rewrite Z.eqb_refl.
        pose proof (round_shift_exact 0 (926 - Z.max 0 1) ltac:(lia)) as Hr. rewrite Z.mul_0_l in Hr. rewrite Hr. lia. }
      set (k := Z.log2 m). destruct (Z.log2_spec m) as [Hk1 Hk2]; [lia|]. fold k in Hk1, Hk2.
      assert (Hk0 : 0 <= k) by apply Z.log2_nonneg.
      assert (Hk : k < 23) by (apply Z.log2_lt_pow2; lia).
      assert (Hp : 2 ^ 52 = 2 ^ k * 2 ^ (52 - k)) by (rewrite <- Z.pow_add_r by lia; f_equal; lia).
      rewrite Z.pow_succ_r in Hk2 by done. pose proof (Z.pow_pos_nonneg 2 (52 - k)) as Hpp.
      destruct (Hd (k + 874) ((m - 2 ^ k) * 2 ^ (52 - k))) as (-> & -> & ->); [lia | rewrite Hp; nia |].
      destruct (Z.eqb_spec (k + 874) 2047); [lia|]. destruct (Z.leb_spec 897 (k + 874)); [lia|].
      destruct (Z.eqb_spec (k + 874) 0); [lia|]. rewrite Z.max_l by lia.
      replace (926 - (k + 874)) with (52 - k) by lia.
      replace (2 ^ 52 + (m - 2 ^ k) * 2 ^ (52 - k)) with (m * 2 ^ (52 - k)) by (rewrite Hp; ring).
      rewrite round_shift_exact by lia. lia.
Qed.

(** ** Cells and their bytes *)

(** The byte strings that are the representation of a value of type [t]. *)
Definition wf_raw (t : DType) (raw : bytes) : Prop :=
  match t with
  | Invalid => False
  | String_ | Blob => Z.of_nat (length raw) < 2 ^ 32
  | _ => length raw = FixedWidth t /\ (t = Bool -> bool_rep raw = true) /\ (t = Float -> is_nan32 (le_value raw) = false)
  end.

(** The values a field of type [t] can hold, NaNs of type [float] aside. *)
Definition cell_ok (t : DType) (v : Value) : Prop :=
  match t with
  | Invalid => False
  | Int32 => exists z, - 2 ^ 31 <= z < 2 ^ 31 /\ v = Value_Int32 z
  | Int64 => exists z, - 2 ^ 63 <= z < 2 ^ 63 /\ v = Value_Int64 z
  | Float => exists f, 0 <= f < 2 ^ 32 /\ is_nan32 f = false /\ v = Value_Float f
  | Double => exists d, 0 <= d < 2 ^ 64 /\ v = Value_Double d
  | Bool => exists b, v = Value_Bool b
  | String_ | Blob => exists s, Z.of_nat (length s) < 2 ^ 32 /\ v = Value_String s
  end.

Lemma cell_raw t v : cell_ok t v -> wf_raw t (raw_of t v) /\ value_of_raw t (raw_of t v) = v.
Proof.
  destruct t; cbn [cell_ok wf_raw raw_of value_of_raw FixedWidth]; [done | intros (z & Hz & ->) | intros (z & Hz & ->) | intros (f & Hf & Hn & ->) |
    intros (d & Hd & ->) | intros (b & ->) | intros (s & Hs & ->) | intros (s & Hs & ->)].
  - unfold AsInt32. simpl int_val. rewrite length_le_bytes, le_bytes_small by (pose proof (u32_range (i32 z)); lia).
    rewrite i32_u32, !i32_small by (rewrite ?i32_small by lia; lia). done.
  - unfold AsInt64. simpl int_val. rewrite length_le_bytes, le_bytes_small by (pose proof (u64_range z); lia). by rewrite i64_u64, i64_small by lia.
  - unfold AsFloat. simpl dbl_val. rewrite float_double_float, length_le_bytes, le_bytes_small by (done || lia). done.
  - unfold AsDouble. simpl dbl_val. rewrite length_le_bytes, le_bytes_small by lia. done.
  - unfold AsBool. destruct b; simpl; split_and!; done.
  - done.
  - done.
Qed.

Lemma wf_raw_valid t raw : wf_raw t raw -> t <> Invalid.
Proof. by intros H ->. Qed.

(** ** The wire form of a row *)

Definition is_var (t : DType) : bool := match t with String_ | Blob => true | _ => false end.
Definition wire (t : DType) (raw : bytes) : bytes :=
  if is_var t then le_bytes 4 (Z.of_nat (length raw)) ++ raw else raw.

Fixpoint wire_row (fs : Schema) (raws : list bytes) : bytes :=
  match fs, raws with f :: fs, r :: raws => wire (f_type f) r ++ wire_row fs raws | _, _ => [] end.

Abbreviation wf_row fs raws := (Forall2 (fun f raw => wf_raw (f_type f) raw) fs raws).
Abbreviation row_ok fs row := (Forall2 (fun f v => cell_ok (f_type f) v) fs row).

Definition raws_of (fs : Schema) (row : list Value) : list bytes := zip_with (fun f v => raw_of (f_type f) v) fs row.
Definition values_of (fs : Schema) (raws : list bytes) : list Value := zip_with (fun f r => value_of_raw (f_type f) r) fs raws.

Lemma row_raws fs row : row_ok fs row -> wf_row fs (raws_of fs row) /\ values_of fs (raws_of fs row) = row.
Proof.
  induction 1 as [|f v fs row Hv _ [IH1 IH2]]; [done|]. destruct (cell_raw _ _ Hv) as [H1 H2]. split; [by constructor|].
  unfold values_of in *. simpl. by rewrite H2, IH2.
Qed.

Lemma encode_cell_wire t v : cell_ok t v -> encode_cell t v = Ok (wire t (raw_of t v)).
Proof.
  intros Hv. destruct (cell_raw t v Hv) as [Hw _]. destruct t; try done; unfold wire; simpl in *; rewrite u32_small by lia; done.
Qed.

Lemma encode_row_ok fs row : row_ok fs row -> RowCodec_Encode fs row = Ok (wire_row fs (raws_of fs row)).
Proof.
  intros Hr. unfold RowCodec_Encode. rewrite (Forall2_length _ _ _ Hr), Nat.eqb_refl. simpl negb. cbv iota.
  induction Hr as [|f v fs row Hv _ IH]; [done|]. cbn [encode_cells]. rewrite encode_cell_wire, IH by done. done.
Qed.

Lemma length_wire t raw : (length raw <= length (wire t raw))%nat.
Proof. unfold wire. destruct (is_var t); rewrite ?length_app; lia. Qed.

(** ** Reading a field back *)

Lemma RequireBytes_ok off need size w : 0 <= off -> 0 <= need -> off + need <= size -> size < 2 ^ 64 ->
  RequireBytes off need size w = Ok tt.
Proof.
  intros. unfold RequireBytes. rewrite u64_small by lia.
  destruct (Z.ltb_spec (off + need) off); [lia|]. destruct (Z.ltb_spec size (off + need)); [lia | done].
Qed.

Lemma ReadPod_at pre raw post : ReadPod (Z.of_nat (length pre)) (Z.of_nat (length raw)) (pre ++ raw ++ post) = Ok raw.
Proof.
  unfold ReadPod. rewrite !length_app. destruct (Z.ltb_spec (Z.of_nat (length pre)) 0); [lia|].
  destruct (Z.ltb_spec (Z.of_nat (length raw)) 0); [lia|].
  destruct (Z.ltb_spec (Z.of_nat (length pre + (length raw + length post))) (Z.of_nat (length pre) + Z.of_nat (length raw))); [lia|].
  simpl. rewrite !Nat2Z.id, slice_app_r by lia. rewrite Nat.sub_diag, slice_app_l by lia. by rewrite slice_all.
Qed.

Lemma read_field_ok w t raw pre post : wf_raw t raw -> Z.of_nat (length (pre ++ wire t raw ++ post)) < 2 ^ 64 ->
  read_field w t (Z.of_nat (length pre)) (pre ++ wire t raw ++ post) =
    Ok (raw, Z.of_nat (length pre) + Z.of_nat (length (wire t raw))).
Proof.
  intros Hw Hsz. unfold read_field.
  assert (Hfix : forall t, length raw = FixedWidth t -> wire t raw = raw -> Z.of_nat (length (pre ++ raw ++ post)) < 2 ^ 64 ->
    (let? _ := RequireBytes (Z.of_nat (length pre)) (Z.of_nat (FixedWidth t)) (Z.of_nat (length (pre ++ raw ++ post))) w in
     let? r := ReadPod (Z.of_nat (length pre)) (Z.of_nat (FixedWidth t)) (pre ++ raw ++ post) in
     Ok (r, Z.of_nat (length pre) + Z.of_nat (FixedWidth t))) = Ok (raw, Z.of_nat (length pre) + Z.of_nat (length raw))).
  { intros t' Hl _ Hs. rewrite <- Hl. rewrite !length_app in *. rewrite RequireBytes_ok by lia. cbn [result_bind].
    by rewrite ReadPod_at. }
  assert (Hvar : Z.of_nat (length raw) < 2 ^ 32 -> Z.of_nat (length (pre ++ (le_bytes 4 (Z.of_nat (length raw)) ++ raw) ++ post)) < 2 ^ 64 ->
    let blob := pre ++ (le_bytes 4 (Z.of_nat (length raw)) ++ raw) ++ post in
    (let? _ := RequireBytes (Z.of_nat (length pre)) 4 (Z.of_nat (length blob)) w in
     let? prefix := ReadPod (Z.of_nat (length pre)) 4 blob in
     let? _ := RequireBytes (Z.of_nat (length pre) + 4) (le_value prefix) (Z.of_nat (length blob)) w in
     let? r := ReadPod (Z.of_nat (length pre) + 4) (le_value prefix) blob in
     Ok (r, Z.of_nat (length pre) + 4 + le_value prefix)) = Ok (raw, Z.of_nat (length pre) + Z.of_nat (4 + length raw))).
  { intros Hl Hs blob. set (p4 := le_bytes 4 (Z.of_nat (length raw))) in *.
    assert (L4 : length p4 = 4%nat) by apply length_le_bytes.
    assert (Lb : Z.of_nat (length blob) = Z.of_nat (length pre) + 4 + Z.of_nat (length raw) + Z.of_nat (length post))
      by (unfold blob; rewrite !length_app, L4; lia).
    rewrite RequireBytes_ok by (fold blob in Hs; lia). cbn [result_bind].
    assert (E1 : ReadPod (Z.of_nat (length pre)) 4 blob = Ok p4).
    { unfold blob. rewrite <- app_assoc. pose proof (ReadPod_at pre p4 (raw ++ post)) as H. by rewrite L4 in H. }
    rewrite E1. cbn [result_bind]. assert (Ev : le_value p4 = Z.of_nat (length raw)) by (apply le_bytes_small; lia).
    rewrite Ev, RequireBytes_ok by (fold blob in Hs; lia). cbn [result_bind].
    assert (E2 : ReadPod (Z.of_nat (length pre) + 4) (Z.of_nat (length raw)) blob = Ok raw).
    { unfold blob. pose proof (ReadPod_at (pre ++ p4) raw post) as H. rewrite length_app, L4, <- !app_assoc in H.
      rewrite <- !app_assoc. rewrite Nat2Z.inj_add in H. exact H. }
    rewrite E2. cbn [result_bind]. do 2 f_equal. lia. }
  destruct t; simpl in Hw; [done | apply (Hfix Int32) | apply (Hfix Int64) | apply (Hfix Float) | apply (Hfix Double) |
    apply (Hfix Bool) | by apply Hvar | by apply Hvar]; try done; apply Hw.
Qed.

Lemma decode_fields_ok fs raws : wf_row fs raws ->
  forall pre, Z.of_nat (length (pre ++ wire_row fs raws)) < 2 ^ 64 ->
  decode_fields fs (Z.of_nat (length pre)) (pre ++ wire_row fs raws) = Ok (values_of fs raws).
Proof.
  induction 1 as [|f raw fs raws Hw _ IH]; intros pre Hs; [done|]. cbn [decode_fields wire_row] in *.
  rewrite read_field_ok by done. cbn [result_bind].
  rewrite app_assoc in Hs |- *. rewrite <- Nat2Z.inj_add, <- length_app, IH by done. done.
Qed.

(** Decoding is safe on every input: a check guards every read. *)
Lemma read_field_safe w t off blob : 0 <= off -> Z.of_nat (length blob) < 2 ^ 63 -> off <= Z.of_nat (length blob) ->
  match read_field w t off blob with
  | Ok (_, off') => off <= off' <= Z.of_nat (length blob)
  | Fail (Throw _ _) => True
  | Fail _ => False
  end.
Proof.
  intros H0 Hl Ho.
  assert (HR : forall o need, 0 <= o <= Z.of_nat (length blob) -> 0 <= need < 2 ^ 32 ->
    match RequireBytes o need (Z.of_nat (length blob)) w with
    | Ok _ => o + need <= Z.of_nat (length blob) | Fail (Throw _ _) => True | Fail _ => False end).
  { intros o need Hof Hn. unfold RequireBytes. rewrite u64_small by lia.
    destruct (Z.ltb_spec (o + need) o); [done|]. destruct (Z.ltb_spec (Z.of_nat (length blob)) (o + need)); done. }
  assert (HP : forall o len, 0 <= o -> 0 <= len -> o + len <= Z.of_nat (length blob) ->
    ReadPod o len blob = Ok (slice (Z.to_nat o) (Z.to_nat len) blob)).
  { intros o len ? ? ?. unfold ReadPod. destruct (Z.ltb_spec o 0); [lia|]. destruct (Z.ltb_spec len 0); [lia|].
    destruct (Z.ltb_spec (Z.of_nat (length blob)) (o + len)); [lia | done]. }
  assert (Hfix : forall n : Z, 0 <= n < 2 ^ 32 ->
    match (let? _ := RequireBytes off n (Z.of_nat (length blob)) w in
           let? raw := ReadPod off n blob in Ok (raw, off + n)) with
    | Ok (_, off') => off <= off' <= Z.of_nat (length blob) | Fail (Throw _ _) => True | Fail _ => False end).
  { intros n Hn. pose proof (HR off n ltac:(lia) Hn) as H1. destruct (RequireBytes _ _ _ _) as [[]|[]]; try done.
    cbn [result_bind]. rewrite HP by lia. cbn [result_bind]. lia. }
  unfold read_field. destruct t; try done; try (apply Hfix; simpl; lia).
  all: pose proof (HR off 4 ltac:(lia) ltac:(lia)) as H1; destruct (RequireBytes off 4 _ _) as [[]|[]]; try done;
    cbn [result_bind]; rewrite HP by lia; cbn [result_bind]; set (p4 := slice _ _ _);
    assert (Hp : 0 <= le_value p4 < 2 ^ 32) by
      (pose proof (le_value_range p4) as Hr; assert (Hl4 : length p4 = 4%nat) by (apply length_slice; lia);
       rewrite Hl4 in Hr; change (256 ^ Z.of_nat 4) with (2 ^ 32) in Hr; lia);
    pose proof (HR (off + 4) (le_value p4) ltac:(lia) Hp) as H2; destruct (RequireBytes (off + 4) _ _ _) as [[]|[]]; try done;
    cbn [result_bind]; rewrite HP by lia; cbn [result_bind]; lia.
Qed.

(** The values of type [t], NaNs included. *)
Definition cell_typed (t : DType) (v : Value) : Prop :=
  match t with
  | Float => exists f, 0 <= f < 2 ^ 32 /\ v = Value_Float f
  | _ => cell_ok t v
  end.
Abbreviation row_typed fs row := (Forall2 (fun f v => cell_typed (f_type f) v) fs row).

Lemma ReadPod_length off len blob raw : ReadPod off len blob = Ok raw -> Z.of_nat (length raw) = len.
Proof.
  unfold ReadPod. destruct (Z.ltb_spec off 0), (Z.ltb_spec len 0), (Z.ltb_spec (Z.of_nat (length blob)) (off + len)); try done.
  simpl. intros [= <-]. rewrite length_slice; lia.
Qed.

(** A field that is read holds the bytes of a value of its type. *)
Lemma read_field_typed w t off blob raw off' : read_field w t off blob = Ok (raw, off') -> cell_typed t (value_of_raw t raw).
Proof.
  unfold read_field. intros H.
  assert (Hv : forall n, length raw = n -> 0 <= le_value raw < 256 ^ Z.of_nat n) by (intros n <-; apply le_value_range).
  destruct t; [done | ..]; cbv zeta in H;
    repeat match type of H with context [result_bind ?m _] => destruct m eqn:?; [cbn [result_bind] in H | done] end;
    injection H as -> _;
    repeat match goal with E : ReadPod _ _ _ = Ok _ |- _ => apply ReadPod_length in E end; cbn [FixedWidth] in *.
  - exists (i32 (le_value raw)). split; [apply i32_range | done].
  - exists (i64 (le_value raw)). split; [apply i64_range | done].
  - exists (le_value raw). split; [apply (Hv 4%nat); lia | done].
  - exists (le_value raw). split; [apply (Hv 8%nat); lia | done].
  - by eexists.
  - match goal with E : Z.of_nat (length raw) = le_value ?p |- _ => exists raw; pose proof (le_value_range p) as Hp end.
    replace (length _) with 4%nat in Hp by lia. split; [lia | done].
  - match goal with E : Z.of_nat (length raw) = le_value ?p |- _ => exists raw; pose proof (le_value_range p) as Hp end.
    replace (length _) with 4%nat in Hp by lia. split; [lia | done].
Qed.

Lemma decode_fields_typed fs off blob : 0 <= off <= Z.of_nat (length blob) -> Z.of_nat (length blob) < 2 ^ 63 ->
  match decode_fields fs off blob with Ok row => row_typed fs row | Fail (Throw _ _) => True | Fail _ => False end.
Proof.
  revert off. induction fs as [|f fs IH]; intros off Ho Hl; [by constructor|]. cbn [decode_fields].
  pose proof (read_field_safe "Decode" (f_type f) off blob ltac:(lia) Hl ltac:(lia)) as Hr.
  destruct (read_field _ _ _ _) as [[raw off']|[]] eqn:E; try done. apply read_field_typed in E. cbn [result_bind].
  specialize (IH off' ltac:(lia) Hl). destruct (decode_fields fs off' blob) as [row|[]]; try done. by constructor.
Qed.

(** ** Columns as lists of byte strings *)

Fixpoint offsets_from (acc : Z) (raws : list bytes) : list Z :=
  u32 acc :: match raws with [] => [] | r :: raws => offsets_from (acc + Z.of_nat (length r)) raws end.

(** The column that holds [raws], in either layout. *)
Definition column_of (t : DType) (raws : list bytes) : Column :=
  if is_var t then mkColumn t (length raws) [] (offsets_from 0 raws) (concat raws)
  else mkColumn t (length raws) (concat raws) [0] [].

Lemma c_type_of t raws : c_type (column_of t raws) = t.
Proof. unfold column_of. by destruct (is_var t). Qed.

Lemma c_size_of t raws : c_size (column_of t raws) = length raws.
Proof. unfold column_of. by destruct (is_var t). Qed.

Lemma column_of_nil t : column_of t [] = Column_new t.
Proof. unfold column_of. by destruct (is_var t). Qed.

Lemma offsets_snoc raws r acc :
  offsets_from acc (raws ++ [r]) = offsets_from acc raws ++ [u32 (acc + Z.of_nat (length (concat raws ++ r)))].
Proof.
  revert acc. induction raws as [|a raws IH]; intros acc; simpl; [done|]. rewrite IH. do 4 f_equal.
  rewrite !length_app. lia.
Qed.

Lemma offsets_lookup raws i acc : (i <= length raws)%nat ->
  offsets_from acc raws !! i = Some (u32 (acc + Z.of_nat (length (concat (take i raws))))).
Proof.
  revert i acc. induction raws as [|a raws IH]; intros [|i] acc Hi; simpl in *; try lia.
  - by rewrite Z.add_0_r.
  - by rewrite Z.add_0_r.
  - rewrite IH by lia. do 2 f_equal. rewrite length_app. lia.
Qed.

Lemma concat_snoc {A} (ls : list (list A)) l : concat (ls ++ [l]) = concat ls ++ l.
Proof. rewrite concat_app. simpl. by rewrite app_nil_r. Qed.

Lemma Append_of t raws r : is_var t = false -> Append r (column_of t raws) = column_of t (raws ++ [r]).
Proof.
  intros Ht. unfold column_of. rewrite Ht. unfold Append. simpl. rewrite length_app, concat_snoc. simpl. f_equal. lia.
Qed.

Lemma AppendBytes_of t raws r : is_var t = true -> AppendBytes r (column_of t raws) = column_of t (raws ++ [r]).
Proof.
  intros Ht. unfold column_of. rewrite Ht. unfold AppendBytes. simpl. rewrite concat_snoc, offsets_snoc, !length_app. simpl.
  f_equal. lia.
Qed.

Lemma bool_raw raw : length raw = 1%nat -> bool_rep raw = true -> le_bytes 1 (if le_value raw =? 0 then 0 else 1) = raw.
Proof.
  intros Hl Hb. rewrite <- (le_bytes_value raw) at 2. rewrite Hl. unfold bool_rep in Hb. f_equal.
  destruct (Z.eqb_spec (le_value raw) 0), (Z.eqb_spec (le_value raw) 1); try done; lia.
Qed.

Lemma append_field_of t raws r : wf_raw t r -> append_field t r (column_of t raws) = column_of t (raws ++ [r]).
Proof.
  destruct t; cbn [append_field wf_raw FixedWidth]; try done; try (intros _; by apply AppendBytes_of); try (intros _; by apply Append_of).
  intros (Hl & Hb & _). rewrite bool_raw by auto. by apply Append_of.
Qed.

(** *** Reading a cell *)

Lemma slice_concat {A} (ls : list (list A)) i l : ls !! i = Some l ->
  slice (length (concat (take i ls))) (length l) (concat ls) = l /\
  (length (concat (take i ls)) + length l <= length (concat ls))%nat.
Proof.
  intros Hi. assert (E : concat ls = concat (take i ls) ++ l ++ concat (drop (S i) ls)).
  { rewrite <- (take_drop_middle ls i l Hi) at 1. by rewrite concat_app. }
  rewrite E, !length_app. rewrite slice_app_r by lia. rewrite Nat.sub_diag, slice_app_l, slice_all by lia. split; [done | lia].
Qed.

Lemma length_concat_fixed (raws : list bytes) w : Forall (fun r => length r = w) raws -> length (concat raws) = (length raws * w)%nat.
Proof. induction 1 as [|r raws Hr _ IH]; simpl; [done|]. rewrite length_app, IH, Hr. lia. Qed.

Lemma Column_Get_of t raws i raw : is_var t = false -> Forall (wf_raw t) raws -> raws !! i = Some raw ->
  Column_Get t i (column_of t raws) = Ok raw.
Proof.
  intros Ht Hw Hi. unfold Column_Get, column_of. rewrite Ht. cbn [fixed_].
  assert (Hraw : wf_raw t raw) by (eapply Forall_lookup_1; eauto).
  assert (Hlen : Forall (fun r => length r = FixedWidth t) raws).
  { eapply Forall_impl; [exact Hw|]. intros r Hr. destruct t; simpl in *; try done; apply Hr. }
  assert (Hl : length raw = FixedWidth t) by (eapply (Forall_lookup_1 _ _ _ _ Hlen Hi)).
  destruct (slice_concat raws i raw Hi) as [Hs Hle].
  rewrite length_concat_fixed with (w := FixedWidth t) in Hs, Hle by (by apply Forall_take).
  pose proof (lookup_lt_Some _ _ _ Hi). rewrite length_take, Nat.min_l in Hs, Hle by lia. rewrite Hl in Hs, Hle.
  destruct (Nat.ltb_spec (length (concat raws)) (i * FixedWidth t + FixedWidth t)); [lia|]. rewrite Hs.
  destruct (bool_decide (t = Bool)) eqn:Eb; [|done]. apply bool_decide_eq_true in Eb. subst t. destruct Hraw as (_ & Hb & _).
  by rewrite Hb.
Qed.

Lemma Column_GetBytes_of t raws i raw : is_var t = true -> Z.of_nat (length (concat raws)) < 2 ^ 32 -> raws !! i = Some raw ->
  Column_GetBytes i (column_of t raws) = Ok raw.
Proof.
  intros Ht Hb Hi. unfold Column_GetBytes, column_of. rewrite Ht. cbn [offsets_ var_bytes_].
  pose proof (lookup_lt_Some _ _ _ Hi). rewrite !offsets_lookup by lia. cbv zeta.
  destruct (slice_concat raws i raw Hi) as [Hs Hle].
  assert (Hn : length (concat (take (S i) raws)) = (length (concat (take i raws)) + length raw)%nat)
    by (rewrite (take_S_r _ _ raw) by done; rewrite concat_snoc, length_app; done).
  rewrite Hn. rewrite !(u32_small (0 + _)) by lia. rewrite u32_small by lia.
  destruct (Z.ltb_spec (Z.of_nat (length (concat raws))) (0 + Z.of_nat (length (concat (take i raws))) +
    (0 + Z.of_nat (length (concat (take i raws)) + length raw) - (0 + Z.of_nat (length (concat (take i raws))))))); [lia|].
  f_equal. etransitivity; [|exact Hs]. f_equal; lia.
Qed.

Lemma ReadCell_of t raws i raw : Forall (wf_raw t) raws -> Z.of_nat (length (concat raws)) < 2 ^ 32 -> raws !! i = Some raw ->
  ReadCell (column_of t raws) i = Ok (value_of_raw t raw).
Proof.
  intros Hw Hb Hi. pose proof (Forall_lookup_1 _ _ _ _ Hw Hi) as Hr. unfold ReadCell. rewrite c_type_of.
  destruct t; try done; first [rewrite Column_Get_of with (raw := raw) | rewrite Column_GetBytes_of with (raw := raw)]; try done.
Qed.

(** ** Projection *)

Definition type_at (fs : Schema) (p : Z) : DType := match fs !! Z.to_nat p with Some f => f_type f | None => Invalid end.
Definition cell_at (p : Z) (raws : list bytes) : bytes := default [] (raws !! Z.to_nat p).

(** The output columns of a projection after the rows [rows]. *)
Definition cols_of (fs : Schema) (projection : list Z) (rows : list (list bytes)) : list Column :=
  (fun p => column_of (type_at fs p) (cell_at p <$> rows)) <$> projection.

Definition in_schema (fs : Schema) (projection : list Z) : Prop := Forall (fun p => 0 <= p < Z.of_nat (length fs)) projection.

Lemma new_columns_ok fs projection : in_schema fs projection -> new_columns fs projection = Ok (cols_of fs projection []).
Proof.
  induction 1 as [|p projection Hp _ IH]; [done|]. cbn [new_columns]. destruct (Z.ltb_spec p 0); [lia|].
  destruct (lookup_lt_is_Some_2 fs (Z.to_nat p)) as [f Hf]; [lia|]. unfold cols_of. rewrite fmap_cons, Hf, IH. cbn [result_bind].
  assert (Ht : type_at fs p = f_type f) by (unfold type_at; by rewrite Hf). by rewrite Ht, column_of_nil.
Qed.

(** [out_pos] inverts a projection without repetitions. *)
Lemma fill_out_pos_ok projection : forall k out_pos, NoDup projection -> 0 <= k ->
  Forall (fun p => 0 <= p < Z.of_nat (length out_pos)) projection ->
  exists op, fill_out_pos k projection out_pos = Ok op /\ length op = length out_pos /\
    (forall j p, projection !! j = Some p -> op !! Z.to_nat p = Some (k + Z.of_nat j)) /\
    (forall i, Z.of_nat i ∉ projection -> op !! i = out_pos !! i).
Proof.
  induction projection as [|p projection IH]; intros k out_pos Hnd Hk Hr.
  { exists out_pos. split_and!; auto; intros; set_solver. }
  apply NoDup_cons in Hnd as [Hnp Hnd]. apply Forall_cons in Hr as [Hp Hr]. cbn [fill_out_pos].
  destruct (Z.ltb_spec p 0); [lia|]. destruct (Z.leb_spec (Z.of_nat (length out_pos)) p); [lia|]. cbn [orb].
  destruct (IH (k + 1) (<[Z.to_nat p := k]> out_pos) Hnd ltac:(lia)) as (op & E & Hl & H1 & H2); [by rewrite length_insert|].
  rewrite length_insert in Hl. exists op. split_and!; auto.
  - intros [|j] q Hj; simpl in Hj.
    + injection Hj as <-. rewrite H2, list_lookup_insert_eq by (rewrite ?Z2Nat.id by lia; done || lia). f_equal. lia.
    + rewrite (H1 j q Hj). f_equal. lia.
  - intros i Hi. apply not_elem_of_cons in Hi as [Hne Hi]. rewrite H2 by done.
    apply list_lookup_insert_ne. lia.
Qed.

(** What decoding a row does to the output columns, each written at most once. *)
Lemma decode_into_loop_ok fs raws : wf_row fs raws -> forall out_pos pre cols,
  length out_pos = length fs -> Z.of_nat (length (pre ++ wire_row fs raws)) < 2 ^ 64 ->
  (forall i k, out_pos !! i = Some k -> k < Z.of_nat (length cols)) ->
  (forall i j k, out_pos !! i = Some k -> out_pos !! j = Some k -> 0 <= k -> i = j) ->
  exists cols', decode_into_loop fs out_pos (Z.of_nat (length pre)) (pre ++ wire_row fs raws) cols = Ok cols' /\
    length cols' = length cols /\
    forall k c, cols !! k = Some c ->
      (forall i f r, out_pos !! i = Some (Z.of_nat k) -> fs !! i = Some f -> raws !! i = Some r ->
         cols' !! k = Some (append_field (f_type f) r c)) /\
      ((forall i, out_pos !! i <> Some (Z.of_nat k)) -> cols' !! k = Some c).
Proof.
  induction 1 as [|f raw fs raws Hw _ IH]; intros out_pos pre cols Hlen Hs Hlt Hinj.
  { exists cols. split_and!; [by destruct out_pos | done |]. intros k c Hc. split; [intros i f r _ Hf; done | done]. }
  destruct out_pos as [|k0 out_pos]; [done|]. simpl in Hlen. cbn [decode_into_loop wire_row] in *.
  rewrite read_field_ok by done. cbn [result_bind]. rewrite app_assoc in Hs |- *.
  rewrite <- Nat2Z.inj_add, <- length_app.
  assert (Hinj' : forall i j k, out_pos !! i = Some k -> out_pos !! j = Some k -> 0 <= k -> i = j).
  { intros i j k Hi Hj H0. specialize (Hinj (S i) (S j) k Hi Hj H0). lia. }
  destruct (Z.leb_spec 0 k0) as [H0|Hneg].
  - pose proof (Hlt 0%nat k0 eq_refl). destruct (lookup_lt_is_Some_2 cols (Z.to_nat k0)) as [c0 Hc0]; [lia|]. rewrite Hc0.
    destruct (IH out_pos (pre ++ wire (f_type f) raw) (<[Z.to_nat k0 := append_field (f_type f) raw c0]> cols))
      as (cols' & E & Hl & Hk); [lia | done | intros i k Hi; rewrite length_insert; by apply (Hlt (S i)) | done |].
    rewrite length_insert in Hl. exists cols'. split_and!; auto. intros k c Hc.
    destruct (decide (k = Z.to_nat k0)) as [->|Hne].
    + assert (c0 = c) as -> by congruence.
      destruct (Hk (Z.to_nat k0) (append_field (f_type f) raw c)) as [_ Hold]; [apply list_lookup_insert_eq; by eapply lookup_lt_Some|].
      rewrite Z2Nat.id in * by done.
      assert (Hno : forall i, out_pos !! i <> Some k0).
      { intros i Hi. specialize (Hinj 0%nat (S i) k0 eq_refl Hi H0). lia. }
      split; [|intros Hn; by destruct (Hn 0%nat)]. intros [|i] f' r Hi Hf Hr; [|by destruct (Hno i)].
      simpl in Hf, Hr. injection Hf as <-. injection Hr as <-. by apply Hold.
    + destruct (Hk k c) as [Hnew Hold]; [by rewrite list_lookup_insert_ne|]. split.
      * intros [|i] f' r Hi Hf Hr; [simpl in Hi; injection Hi as Hi; lia | by eapply Hnew].
      * intros Hn. apply Hold. intros i. apply (Hn (S i)).
  - destruct (IH out_pos (pre ++ wire (f_type f) raw) cols) as (cols' & E & Hl & Hk);
      [lia | done | intros i k Hi; by apply (Hlt (S i)) | done |].
    exists cols'. split_and!; auto. intros k c Hc. destruct (Hk k c Hc) as [Hnew Hold]. split.
    + intros [|i] f' r Hi Hf Hr; [simpl in Hi; injection Hi as Hi; lia | by eapply Hnew].
    + intros Hn. apply Hold. intros i. apply (Hn (S i)).
Qed.

Lemma decode_into_ok fs raws projection rows : wf_row fs raws -> NoDup projection -> in_schema fs projection ->
  Z.of_nat (length (wire_row fs raws)) < 2 ^ 64 ->
  DecodeInto fs (wire_row fs raws) projection (cols_of fs projection rows) = Ok (cols_of fs projection (rows ++ [raws])).
Proof.
  intros Hw Hnd Hin Hs. unfold DecodeInto.
  destruct (fill_out_pos_ok projection 0 (replicate (length fs) (-1)) Hnd ltac:(lia)) as (op & E & Hl & H1 & H2).
  { rewrite length_replicate. exact Hin. }
  rewrite E. cbn [result_bind]. rewrite length_replicate in Hl.
  assert (Hinv : forall i k, op !! i = Some k -> 0 <= k -> projection !! Z.to_nat k = Some (Z.of_nat i)).
  { intros i k Hi H0. destruct (decide (Z.of_nat i ∈ projection)) as [Hp|Hp].
    - apply list_elem_of_lookup in Hp as [j Hj]. pose proof (H1 j _ Hj) as Hop. rewrite Nat2Z.id, Z.add_0_l in Hop.
      assert (k = Z.of_nat j) as -> by congruence. by rewrite Nat2Z.id.
    - rewrite H2 in Hi by done. apply lookup_replicate in Hi as [-> _]. lia. }
  destruct (decode_into_loop_ok fs raws Hw op [] (cols_of fs projection rows)) as (cols' & Ec & Hlc & Hk); auto.
  { intros i k Hi. unfold cols_of. rewrite length_fmap. destruct (decide (0 <= k)) as [H0|]; [|lia].
    pose proof (lookup_lt_Some _ _ _ (Hinv i k Hi H0)). lia. }
  { intros i j k Hi Hj H0. pose proof (Hinv i k Hi H0). pose proof (Hinv j k Hj H0). assert (Z.of_nat i = Z.of_nat j) by congruence. lia. }
  change (decode_into_loop fs op 0 (wire_row fs raws) (cols_of fs projection rows) = Ok cols') in Ec. rewrite Ec. f_equal. apply list_eq. intros k.
  destruct (projection !! k) as [p|] eqn:Hp; cycle 1.
  { apply lookup_ge_None in Hp. rewrite !lookup_ge_None_2; [done | |]; rewrite ?Hlc; unfold cols_of; rewrite length_fmap; lia. }
  assert (Hr : 0 <= p < Z.of_nat (length fs)) by (eapply (Forall_lookup_1 _ _ _ _ Hin Hp)).
  destruct (lookup_lt_is_Some_2 fs (Z.to_nat p)) as [f Hf]; [lia|].
  destruct (Forall2_lookup_l _ _ _ _ _ Hw Hf) as (r & Hraw & Hwf).
  destruct (Hk k (column_of (type_at fs p) (cell_at p <$> rows))) as [Hnew _]; [unfold cols_of; by rewrite list_lookup_fmap, Hp|].
  rewrite (Hnew (Z.to_nat p) f r); [| by rewrite (H1 k p Hp) | done | done].
  unfold cols_of. rewrite list_lookup_fmap, Hp. cbn [fmap option_fmap option_map]. f_equal.
  unfold type_at. rewrite Hf, append_field_of, fmap_app by done. do 2 f_equal. unfold cell_at. simpl. by rewrite Hraw.
Qed.

(** *** Reading the rows of a batch back *)

Definition project (fs : Schema) (projection : list Z) (raws : list bytes) : list Value :=
  (fun p => value_of_raw (type_at fs p) (cell_at p raws)) <$> projection.

Lemma cell_at_wf fs raws p : wf_row fs raws -> 0 <= p < Z.of_nat (length fs) ->
  wf_raw (type_at fs p) (cell_at p raws) /\ (length (cell_at p raws) <= length (wire_row fs raws))%nat.
Proof.
  intros Hw Hp. destruct (lookup_lt_is_Some_2 fs (Z.to_nat p)) as [f Hf]; [lia|].
  destruct (Forall2_lookup_l _ _ _ _ _ Hw Hf) as (r & Hr & Hwr). unfold type_at, cell_at. rewrite Hf, Hr. split; [done|]. simpl.
  clear Hp. revert Hf Hr. generalize (Z.to_nat p). induction Hw as [|f' r' fs raws _ _ IH]; intros [|i] Hf Hr; simpl in *; try done.
  - injection Hr as ->. rewrite length_app. pose proof (length_wire (f_type f') r). lia.
  - specialize (IH i Hf Hr). rewrite length_app. lia.
Qed.

(** The bytes of all rows together stay below 4 GB, so that offsets fit. *)
Definition rows_fit (fs : Schema) (rows : list (list bytes)) : Prop :=
  Z.of_nat (length (concat (wire_row fs <$> rows))) < 2 ^ 32.

Lemma cells_fit fs rows p : Forall (fun raws => wf_row fs raws) rows -> 0 <= p < Z.of_nat (length fs) ->
  Forall (wf_raw (type_at fs p)) (cell_at p <$> rows) /\
  (length (concat (cell_at p <$> rows)) <= length (concat (wire_row fs <$> rows)))%nat.
Proof.
  intros Hrows Hp. induction Hrows as [|raws rows Hr _ [IH1 IH2]]; [by split|]. destruct (cell_at_wf fs raws p Hr Hp) as [H1 H2].
  rewrite !fmap_cons. split; [by constructor|]. simpl. rewrite !length_app. lia.
Qed.

Lemma read_row_ok fs projection rows i raws : Forall (fun raws => wf_row fs raws) rows -> rows_fit fs rows ->
  in_schema fs projection -> rows !! i = Some raws ->
  read_row (cols_of fs projection rows) i = Ok (project fs projection raws).
Proof.
  intros Hw Hfit Hin Hi. induction Hin as [|p projection Hp _ IH]; [done|].
  unfold cols_of in *. rewrite fmap_cons. cbn [read_row]. destruct (cells_fit fs rows p Hw Hp) as [H1 H2].
  rewrite ReadCell_of with (raw := cell_at p raws).
  - cbn [result_bind]. rewrite IH. done.
  - done.
  - unfold rows_fit in Hfit. lia.
  - by rewrite list_lookup_fmap, Hi.
Qed.

Lemma read_rows_ok fs projection rows : Forall (fun raws => wf_row fs raws) rows -> rows_fit fs rows ->
  in_schema fs projection ->
  read_rows (length rows) 0 (cols_of fs projection rows) = Ok (project fs projection <$> rows).
Proof.
  intros Hw Hfit Hin.
  enough (forall n r, (n + r = length rows)%nat ->
    read_rows n r (cols_of fs projection rows) = Ok (project fs projection <$> drop r rows)) as H by (rewrite H by lia; done).
  induction n as [|n IH]; intros r Hr; cbn [read_rows].
  - by rewrite drop_ge by lia.
  - destruct (lookup_lt_is_Some_2 rows r) as [raws Hi]; [lia|]. rewrite (read_row_ok _ _ _ _ raws) by done. cbn [result_bind].
    rewrite IH by lia. cbn [result_bind]. rewrite (drop_S _ raws _ Hi). done.
Qed.

(** The cells of a row that a projection asks for, in its order. *)
Definition pick (projection : list Z) (row : list Value) : list Value :=
  (fun p => default (mkValue Invalid 0 0 []) (row !! Z.to_nat p)) <$> projection.

Lemma project_pick fs projection row : row_ok fs row -> in_schema fs projection ->
  project fs projection (raws_of fs row) = pick projection row.
Proof.
  intros Hr Hin. unfold project, pick. apply list_fmap_ext. intros i p Hp. pose proof (Forall_lookup_1 _ _ _ _ Hin Hp) as Hpr.
  simpl in Hpr. destruct (lookup_lt_is_Some_2 fs (Z.to_nat p)) as [f Hf]; [lia|].
  destruct (Forall2_lookup_l _ _ _ _ _ Hr Hf) as (v & Hv & Hok). unfold type_at, cell_at, raws_of.
  rewrite lookup_zip_with, Hf, Hv. simpl. by destruct (cell_raw _ _ Hok).
Qed.

Lemma project_rows fs projection rows : Forall (fun row => row_ok fs row) rows -> in_schema fs projection ->
  project fs projection <$> (raws_of fs <$> rows) = pick projection <$> rows.
Proof.
  intros Hrows Hin. rewrite <- list_fmap_compose. apply list_fmap_ext. intros i row Hi. apply project_pick; [|done].
  by eapply (Forall_lookup_1 _ _ _ _ Hrows).
Qed.

Lemma raws_rows fs rows : Forall (fun row => row_ok fs row) rows -> Forall (fun raws => wf_row fs raws) (raws_of fs <$> rows).
Proof. intros Hrows. apply Forall_fmap. eapply Forall_impl; [exact Hrows|]. intros row Hr. by destruct (row_raws fs row Hr). Qed.

(** ** What the interfaces promise *)

(** The values a key-value cursor has still to show. *)
Class KvCursorSpec (S C : Type) `{!IKvCursor S C} := {
  kv_at : S -> C -> list bytes -> Prop;
  kv_valid_spec : forall s c l, kv_at s c l -> kv_Valid c = bool_decide (l <> []);
  kv_value_spec : forall s c v l, kv_at s c (v :: l) -> kv_Value c = v;
  kv_next_spec : forall s c v l, kv_at s c (v :: l) -> exists c' s', kv_Next c s = (Ok c', s') /\ kv_at s' c' l;
}.

(** The rows a batch cursor has still to yield. *)
Class BatchCursorSpec (S C : Type) `{!IBatchCursor S C} := {
  batch_at : S -> C -> list (list Value) -> Prop;
  batch_end_spec : forall s c, batch_at s c [] -> exists c' s', Batch_Next c s = (Ok (None, c'), s') /\ batch_at s' c' [];
  batch_next_spec : forall s c rows, batch_at s c rows -> rows <> [] ->
    exists chunk c' s' rows1 rows2, Batch_Next c s = (Ok (Some chunk, c'), s') /\ rows = rows1 ++ rows2 /\ rows1 <> [] /\
      read_rows (row_count chunk) 0 (columns chunk) = Ok rows1 /\ batch_at s' c' rows2;
}.

(** The executor, against the interface. *)
Lemma collect_ok {S C} `{BatchCursorSpec S C} (s : S) (c : C) rows n : batch_at s c rows -> (length rows < n)%nat ->
  exists c' s', collect n c s = (Ok rows, s') /\ batch_at s' c' [].
Proof.
  revert s c rows. induction n as [|n IH]; intros s c rows Hb Hn; [lia|]. cbn [collect].
  destruct (decide (rows = [])) as [->|Hne].
  - destruct (batch_end_spec s c Hb) as (c' & s' & E & Hb'). rewrite (bind_ok _ _ _ _ _ E). eauto.
  - destruct (batch_next_spec s c rows Hb Hne) as (chunk & c1 & s1 & r1 & r2 & E & -> & Hne1 & Hr & Hb1).
    rewrite (bind_ok _ _ _ _ _ E), Hr. rewrite (bind_ok _ _ s1 r1 s1) by done.
    destruct (IH s1 c1 r2 Hb1) as (c' & s' & E' & Hb'). { destruct r1; [done|]. rewrite length_app in Hn. simpl in Hn. lia. }
    rewrite (bind_ok _ _ _ _ _ E'). eauto.
Qed.

(** *** The row source keeps its promise *)
Section RowSpec.

Context {S C : Type} `{KvCursorSpec S C} (fs : Schema) (projection : list Z).
Hypothesis proj_nodup : NoDup projection.
Hypothesis proj_in : in_schema fs projection.

Lemma rows_fit_app rows1 rows2 : rows_fit fs (rows1 ++ rows2) -> rows_fit fs rows1 /\ rows_fit fs rows2.
Proof. unfold rows_fit. rewrite fmap_app, concat_app, length_app. lia. Qed.

Lemma fill_batch_ok n : forall rows done_ s kv, Forall (fun raws => wf_row fs raws) (done_ ++ rows) -> rows_fit fs (done_ ++ rows) ->
  kv_at s kv (wire_row fs <$> rows) ->
  exists kv' s', fill_batch n fs projection kv (cols_of fs projection done_) s =
      (Ok (Nat.min n (length rows), kv', cols_of fs projection (done_ ++ take n rows)), s') /\
    kv_at s' kv' (wire_row fs <$> drop n rows).
Proof using All.
  induction n as [|n IH]; intros rows done_ s kv Hw Hfit Hk; cbn [fill_batch].
  { exists kv, s. rewrite take_0, app_nil_r, drop_0. done. }
  rewrite (kv_valid_spec s kv _ Hk). destruct rows as [|raws rows].
  { rewrite bool_decide_false by (by intros ?). exists kv, s. rewrite app_nil_r. done. }
  rewrite bool_decide_true by done. rewrite fmap_cons in Hk. rewrite (kv_value_spec s kv _ _ Hk).
  assert (Hraws : wf_row fs raws) by (apply Forall_app in Hw as [_ Hw]; by apply Forall_cons in Hw as [? _]).
  rewrite decode_into_ok; auto; cycle 1.
  { apply rows_fit_app in Hfit as [_ Hfit]. unfold rows_fit in Hfit. rewrite fmap_cons in Hfit. simpl in Hfit. rewrite length_app in Hfit. lia. }
  rewrite (bind_ok _ _ s (cols_of fs projection (done_ ++ [raws])) s) by done.
  destruct (kv_next_spec s kv _ _ Hk) as (kv1 & s1 & E1 & Hk1). rewrite (bind_ok _ _ _ _ _ E1).
  destruct (IH rows (done_ ++ [raws]) s1 kv1) as (kv2 & s2 & E2 & Hk2); [by rewrite <- app_assoc.. | done |].
  rewrite (bind_ok _ _ _ _ _ E2). exists kv2, s2. split; [|done]. by rewrite <- app_assoc.
Qed.

Definition row_batch_at (b : nat) (s : S) (c : RowBatchCursor C) (out : list (list Value)) : Prop :=
  exists rows, c = mkRowCursor (kv_ c) fs projection b /\ (0 < b)%nat /\ kv_at s (kv_ c) (wire_row fs <$> rows) /\
    Forall (fun raws => wf_row fs raws) rows /\ rows_fit fs rows /\ out = project fs projection <$> rows.

#[global] Program Instance row_batch_spec (b : nat) : BatchCursorSpec S (RowBatchCursor C) := {| batch_at := row_batch_at b |}.
Next Obligation.
  intros b s c (rows & Ec & Hb & Hk & Hw & Hfit & E). destruct rows; [|done].
  exists c, s. simpl. unfold RowBatch_Next. rewrite (kv_valid_spec s _ _ Hk), bool_decide_false by (by intros ?). split; [done|].
  exists []. done.
Qed.
Next Obligation.
  intros b s c out (rows & Ec & Hb & Hk & Hw & Hfit & ->) Hne. simpl. unfold RowBatch_Next.
  assert (Hnr : rows <> []) by (by intros ->). rewrite Ec. cbn [kv_ row_schema row_projection batch_rows_].
  rewrite (kv_valid_spec s _ _ Hk), bool_decide_true by (destruct rows; [done | by intros ?]). cbn [negb].
  rewrite new_columns_ok by done. rewrite (bind_ok _ _ s (cols_of fs projection []) s) by done.
  destruct (fill_batch_ok b rows [] s (kv_ c)) as (kv' & s' & E & Hk'); [done | done | done |].
  rewrite (bind_ok _ _ _ _ _ E). cbn [app] in *.
  pose proof Hw as Hw'. rewrite <- (take_drop b rows) in Hfit, Hw'. apply rows_fit_app in Hfit as [Hf1 Hf2].
  apply Forall_app in Hw' as [Hw1 Hw2].
  eexists _, _, s', (project fs projection <$> take b rows), (project fs projection <$> drop b rows). split; [done|].
  split_and!.
  - by rewrite <- fmap_app, take_drop.
  - destruct b; [lia|]. by destruct rows.
  - cbn [row_count columns]. rewrite <- length_take. by apply read_rows_ok.
  - exists (drop b rows). by split_and!.
Qed.

End RowSpec.

(** ** Properties *)

(** C35. A row comes back from its encoding: for every row whose cells fit the
    schema's types (a [float] not NaN, a string under 4 GB), [RowCodec::Encode]
    succeeds and [RowCodec::Decode] of the blob is the row. *)
Theorem RowCodec_roundtrip (fs : Schema) (row : list Value) :
  row_ok fs row -> Z.of_nat (length (wire_row fs (raws_of fs row))) < 2 ^ 64 ->
  exists blob, RowCodec_Encode fs row = Ok blob /\ RowCodec_Decode fs blob = Ok row.
Proof.
  intros Hr Hs. destruct (row_raws fs row Hr) as [Hw Hv]. exists (wire_row fs (raws_of fs row)).
  split; [by apply encode_row_ok|]. pose proof (decode_fields_ok fs _ Hw [] Hs) as E. rewrite Hv in E. exact E.
Qed.

Lemma RowCodec_roundtrip_witness :
  let fs := [mkField "id" Int32; mkField "x" Float; mkField "name" String_; mkField "ok" Bool] in
  let row := [Value_Int32 (-7); Value_Float 0x3FC00000; Value_String [Byte.x68; Byte.x69]; Value_Bool true] in
  exists blob, RowCodec_Encode fs row = Ok blob /\ RowCodec_Decode fs blob = Ok row.
Proof.
  apply (RowCodec_roundtrip [mkField "id" Int32; mkField "x" Float; mkField "name" String_; mkField "ok" Bool]
    [Value_Int32 (-7); Value_Float 0x3FC00000; Value_String [Byte.x68; Byte.x69]; Value_Bool true]); [|done].
  repeat constructor; simpl; [by exists (-7) | by exists 0x3FC00000 | by exists [Byte.x68; Byte.x69] | by exists true].
Defined.

(** C36. Decoding is typed and memory-safe: on every blob, however truncated or
    crafted, [RowCodec::Decode] returns a row whose cells have the schema's
    types, in range, or throws; it never reads outside the blob. *)
Theorem RowCodec_Decode_typed (fs : Schema) (blob : bytes) : Z.of_nat (length blob) < 2 ^ 63 ->
  match RowCodec_Decode fs blob with
  | Ok row => row_typed fs row
  | Fail (Throw _ _) => True
  | Fail _ => False
  end.
Proof. intros Hl. apply decode_fields_typed; lia. Qed.

(** A NaN and a string decode; a length prefix past the end is refused. *)
Lemma RowCodec_Decode_typed_witness :
  let fs := [mkField "x" Float; mkField "name" String_] in
  let nan := [Byte.x00; Byte.x00; Byte.xc0; Byte.x7f] in
  row_typed fs [Value_Float 0x7fc00000; Value_String [Byte.x68]] /\
  match RowCodec_Decode fs (nan ++ [Byte.xff; Byte.xff; Byte.xff; Byte.xff; Byte.x00]) with
  | Fail (Throw _ _) => True
  | _ => False
  end.
Proof.
  split; [|vm_compute; exact I].
  pose proof (RowCodec_Decode_typed [mkField "x" Float; mkField "name" String_]
    [Byte.x00; Byte.x00; Byte.xc0; Byte.x7f; Byte.x01; Byte.x00; Byte.x00; Byte.x00; Byte.x68] eq_refl) as H.
  vm_compute RowCodec_Decode in H. exact H.
Defined.

(** With [batch_rows] 0 a scan of a non-empty row source never ends: every
    call of [Next] returns [true] with an empty batch, although its comment
    claims at least one row. *)
Theorem zero_batch_never_ends {S C : Type} `{!IKvCursor S C} (fs : Schema) (projection : list Z) (kv : C) (s : S) (n : nat) :
  kv_Valid kv = true -> in_schema fs projection ->
  collect n (mkRowCursor kv fs projection 0) s = (Fail OutOfFuel, s).
Proof.
  intros Hv Hin. induction n as [|n IH]; [done|]. cbn [collect]. unfold bind at 1. simpl Batch_Next. unfold RowBatch_Next.
  cbn [kv_ row_schema row_projection batch_rows_]. rewrite Hv. cbn [negb]. rewrite new_columns_ok by done.
  cbn [fill_batch]. unfold bind at 1, lift, ret. unfold bind at 1. unfold bind at 1. cbn [read_rows row_count].
  unfold bind. rewrite IH. done.
Qed.

(** A list of blobs as a cursor. *)
#[export] Instance list_kv : IKvCursor unit (list bytes) :=
  {| kv_Valid := fun l => bool_decide (l <> []); kv_Key := fun _ => []; kv_Value := fun l => default [] (head l); kv_Next := fun l => ret (tail l) |}.

Lemma zero_batch_never_ends_witness :
  collect 5 (mkRowCursor [[Byte.x01]] [mkField "ok" Bool] [0] 0) tt = (Fail OutOfFuel, tt).
Proof. apply (zero_batch_never_ends [mkField "ok" Bool] [0] [[Byte.x01]] tt 5); [done | repeat constructor; done]. Defined.

(** A projection that names a field twice breaks the row source: only the
    last of the two columns is filled, and reading a row of the batch then reads
    past the other one. *)
Theorem repeated_projection_undefined :
  (CollectProjected 3 (Row_Scan (ret [[Byte.x01]]) [mkField "ok" Bool] 8) [0; 0] tt).1 =
    Fail (Undefined "memcpy past the column") /\
  (CollectProjected 3 (Row_Scan (ret [[Byte.x01]]) [mkField "ok" Bool] 8) [0] tt).1 = Ok [[Value_Bool true]].
Proof. vm_compute. split; reflexivity. Qed.
