(* ===== verification/RowScan.v ===== *)
(** * Scanning the storage engine as a table

    The engine's cursor implements [IKvCursor], so that [RowTableSource] over
    the engine is a table: the executor's projected scan of it is proved end to
    end, from the bytes of the pages to the cells. *)

From stdpp Require Import functions.
From S2P Require Import Prelude KeyCodec Replacer BufferPool BufferPoolSpec PoolHold TreePages TreePagesSpec PageImage BPlusTree BPlusTreeSpec TupleStore TupleStoreSpec Engine EngineSpec Table TableSpec.
Open Scope Z_scope.

#[export] Instance engine_kv : IKvCursor Engine BPlusTreeKvCursor :=
  {| kv_Valid := valid_; kv_Key := key_; kv_Value := value_; kv_Next := Next |}.

Definition engine_kv_at pg cs m (e : Engine) (c : BPlusTreeKvCursor) (l : list bytes) : Prop :=
  exists rest, engine_ok e pg cs m /\ cursor_rem pg c rest /\ rids_in cs rest /\ l = (shown pg <$> rest).*2.

Program Definition engine_kv_spec pg cs m : KvCursorSpec Engine BPlusTreeKvCursor := {| kv_at := engine_kv_at pg cs m |}.
Next Obligation.
  intros pg cs m e c l (rest & He & Hc & Hr & ->). simpl. unfold cursor_rem in Hc. destruct (valid_ c).
  - destruct Hc as (x & l' & ms & _ & _ & _ & -> & _). by rewrite bool_decide_true.
  - subst rest. by rewrite bool_decide_false by (by intros ?).
Qed.
Next Obligation.
  intros pg cs m e c v l (rest & He & Hc & Hr & El). destruct rest as [|x rest]; [done|].
  assert (Hr' : rids_in cs rest) by (intros k rid Hin; apply Hr; set_solver).
  destruct (next_ok e pg cs m c x rest He Hc Hr') as (_ & Hkv & _). simpl in El. injection El as -> _. simpl.
  unfold shown in Hkv. by injection Hkv as _ ->.
Qed.
Next Obligation.
  intros pg cs m e c v l (rest & He & Hc & Hr & El). destruct rest as [|x rest]; [done|].
  assert (Hr' : rids_in cs rest) by (intros k rid Hin; apply Hr; set_solver).
  destruct (next_ok e pg cs m c x rest He Hc Hr') as (_ & _ & c' & e' & E & He' & _ & Hc'). exists c', e'. split; [done|].
  exists rest. split_and!; auto. simpl in El. by injection El as _ ->.
Qed.

(** C25. A table in the key-value engine, read by the query layer: if the values
    of the engine are the encodings of rows (in key order), then scanning them
    with any projection of distinct fields and any positive batch size returns
    exactly the projected cells of every row, in key order. *)
Theorem row_scan_correct (e : Engine) (pg : Z -> page_image) (cs : list Z) (m : list (bytes * RID))
    (fs : Schema) (rows : list (list Value)) (blobs : list bytes) (projection : list Z) (b : nat) :
  engine_ok e pg cs m -> tree_linked (index_ e) pg m ->
  (shown pg <$> m).*2 = blobs -> Forall (fun row => row_ok fs row) rows ->
  Forall2 (fun row blob => RowCodec_Encode fs row = Ok blob) rows blobs ->
  Z.of_nat (length (concat blobs)) < 2 ^ 32 -> NoDup projection -> in_schema fs projection -> (0 < b)%nat ->
  exists e', CollectProjected (S (length rows)) (Row_Scan NewCursor fs b) projection e = (Ok (pick projection <$> rows), e') /\
    engine_ok e' pg cs m.
Proof.
  intros He Hl Hb Hrows Henc Hsz Hnd Hin Hpos.
  assert (Hblobs : blobs = wire_row fs <$> (raws_of fs <$> rows)).
  { clear Hb Hsz. induction Henc as [|row blob rows blobs E _ IH]; [done|]. apply Forall_cons in Hrows as [Hr Hrows].
    rewrite !fmap_cons, <- IH by done. f_equal. rewrite encode_row_ok in E by done. congruence. }
  destruct (new_cursor_ok e pg cs m He Hl) as (c & e1 & E1 & He1 & _ & Hc).
  unfold CollectProjected, Row_Scan. rewrite (bind_ok _ _ e (mkRowCursor c fs projection b) e1);
    [|by rewrite (bind_ok _ _ _ _ _ E1)].
  pose (KS := engine_kv_spec pg cs m).
  destruct (@collect_ok _ _ _ (row_batch_spec fs projection Hnd Hin b) e1 (mkRowCursor c fs projection b) (pick projection <$> rows) (S (length rows)))
    as (c' & e' & E & rows' & Ec & _ & Hk & _).
  - exists (raws_of fs <$> rows). split_and!; [done | done | | | |].
    + exists m. split_and!; [done | done | by eapply engine_rids | by rewrite <- Hblobs].
    + by apply raws_rows.
    + unfold rows_fit. by rewrite <- Hblobs.
    + by rewrite project_rows.
  - rewrite length_fmap. lia.
  - exists e'. split; [exact E|]. by destruct Hk as (rest & He' & _).
Qed.

Lemma row_scan_correct_witness :
  exists e e', engine_ok e demo_view [2] demo_entries /\
    CollectProjected 2 (Row_Scan NewCursor [mkField "name" String_] 16) [0] e =
      (Ok [[Value_String [Byte.x61; Byte.x62; Byte.x63]]], e').
Proof.
  destruct demo_engine as (e & E & He).
  destruct (row_scan_correct e demo_view [2] demo_entries [mkField "name" String_]
    [[Value_String [Byte.x61; Byte.x62; Byte.x63]]] [demo_value] [0] 16 He (demo_linked e E)) as (e' & E' & _).
  - by vm_compute.
  - repeat constructor. simpl. by exists [Byte.x61; Byte.x62; Byte.x63].
  - repeat constructor.
  - done.
  - apply NoDup_singleton.
  - repeat constructor; done.
  - lia.
  - exists e, e'. auto.
Defined.
