(* ===== verification/Storage.v ===== *)
(** * Byte storage and metadata storage

    Models the interface [Storage/File/IStorage], its in-memory implementation
    [Storage/File/MemStorage], and [Metadata/MemMetadataStore]. A path is a
    string; a file is its bytes. *)

From stdpp Require Import strings pretty.
From S2P Require Import Prelude.
Open Scope Z_scope.

Inductive CreateFileResult := Created | AlreadyExists | RetryableConflict.

(** ** The interface

    [S] is the store, [F] an [IInputFile], [O] an [IOutputStream]. *)
Class IStorage (S F O : Type) := {
  OpenInput : string -> M S (option F);
  OpenOutput : string -> M S O;
  CreateIfAbsent : string -> bytes -> M S CreateFileResult;
  Exists : string -> M S bool;
  List_ : string -> M S (list string);
  Storage_Delete : string -> M S unit;
  File_Size : F -> Z;
  ReadAt : F -> Z -> Z -> option bytes;
  Stream_Append : bytes -> O -> M S O;
  Stream_Close : O -> M S O;
}.

(** ** MemStorage *)

Module MemStorage.

Abbreviation files_ := (gmap string bytes).

(** [MemInputFile]: a snapshot of the bytes. *)
Record MemInputFile := mkInput { bytes_ : bytes }.
Record MemOutputStream := mkOutput { path_ : string; buf_ : bytes; closed_ : bool }.

Definition Size (f : MemInputFile) : Z := Z.of_nat (length (bytes_ f)).

Definition ReadAt (f : MemInputFile) (offset len : Z) : option bytes :=
  if (Size f <? offset) || (Size f - offset <? len) then None
  else Some (slice (Z.to_nat offset) (Z.to_nat len) (bytes_ f)).

Definition Put (path : string) (b : bytes) : M files_ unit := modify <[path := b]>.

Definition OpenInput (path : string) : M files_ (option MemInputFile) :=
  let* fs := get in ret (mkInput <$> (fs !! path)).

Definition OpenOutput (path : string) : M files_ MemOutputStream := ret (mkOutput path [] false).

Definition CreateIfAbsent (path : string) (b : bytes) : M files_ CreateFileResult :=
  let* fs := get in
  match fs !! path with
  | Some _ => ret AlreadyExists
  | None => put (<[path := b]> fs);;; ret Created
  end.

Definition Exists (path : string) : M files_ bool := let* fs := get in ret (bool_decide (is_Some (fs !! path))).

(** [kv.first.compare(0, prefix.size(), prefix) == 0]; the order is the map's. *)
Definition List_ (pre : string) : M files_ (list string) :=
  let* fs := get in ret (filter (fun p => String.prefix pre p = true) (map_to_list fs).*1).

Definition Delete (path : string) : M files_ unit := modify (delete path).

Definition Append (data : bytes) (o : MemOutputStream) : MemOutputStream :=
  mkOutput (path_ o) (buf_ o ++ data) (closed_ o).

(** [buf_] is moved out by the first [Close]. *)
Definition Close (o : MemOutputStream) : M files_ MemOutputStream :=
  if (closed_ o : bool) then ret o else
  Put (path_ o) (buf_ o);;;
  ret (mkOutput (path_ o) [] true).

End MemStorage.

#[export] Instance mem_storage : IStorage MemStorage.files_ MemStorage.MemInputFile MemStorage.MemOutputStream := {|
  OpenInput := MemStorage.OpenInput;
  OpenOutput := MemStorage.OpenOutput;
  CreateIfAbsent := MemStorage.CreateIfAbsent;
  Exists := MemStorage.Exists;
  List_ := MemStorage.List_;
  Storage_Delete := MemStorage.Delete;
  File_Size := MemStorage.Size;
  ReadAt := MemStorage.ReadAt;
  Stream_Append := fun d o => ret (MemStorage.Append d o);
  Stream_Close := MemStorage.Close;
|}.

(** ** What the interface promises

    [stored s] are the committed files; [stream_of o] is the path, the bytes
    written and whether the stream is closed. *)
Class StorageSpec (S F O : Type) `{!IStorage S F O} := {
  stored : S -> gmap string bytes;
  file_bytes : F -> bytes;
  stream_of : O -> string * bytes * bool;
  open_input_spec : forall s p, exists o s', OpenInput p s = (Ok o, s') /\ stored s' = stored s /\
    match stored s !! p, o with Some b, Some f => file_bytes f = b | None, None => True | _, _ => False end;
  size_spec : forall f, File_Size f = Z.of_nat (length (file_bytes f));
  read_at_spec : forall f off len, 0 <= off -> 0 <= len ->
    ReadAt f off len = if off + len <=? Z.of_nat (length (file_bytes f))
                       then Some (slice (Z.to_nat off) (Z.to_nat len) (file_bytes f)) else None;
  open_output_spec : forall s p, exists o s', OpenOutput p s = (Ok o, s') /\ stored s' = stored s /\ stream_of o = (p, [], false);
  append_spec : forall s o d p b, stream_of o = (p, b, false) ->
    exists o' s', Stream_Append d o s = (Ok o', s') /\ stored s' = stored s /\ stream_of o' = (p, b ++ d, false);
  close_spec : forall s o p b c, stream_of o = (p, b, c) ->
    exists o' s', Stream_Close o s = (Ok o', s') /\ stored s' = (if c then stored s else <[p := b]> (stored s)) /\
      exists b', stream_of o' = (p, b', true);
  create_spec : forall s p b, exists r s', CreateIfAbsent p b s = (Ok r, s') /\
    match r with
    | Created => stored s !! p = None /\ stored s' = <[p := b]> (stored s)
    | AlreadyExists => is_Some (stored s !! p) /\ stored s' = stored s
    | RetryableConflict => stored s' = stored s
    end;
}.

#[export] Program Instance mem_storage_spec : StorageSpec MemStorage.files_ MemStorage.MemInputFile MemStorage.MemOutputStream := {|
  stored := fun s => s;
  file_bytes := MemStorage.bytes_;
  stream_of := fun o => (MemStorage.path_ o, MemStorage.buf_ o, MemStorage.closed_ o);
|}.
Next Obligation.
  intros s p. eexists _, s. split; [reflexivity|]. split; [done|]. by destruct (s !! p).
Qed.
Next Obligation. done. Qed.
Next Obligation.
  intros f off len H0 H1. simpl. unfold MemStorage.ReadAt, MemStorage.Size. set (n := Z.of_nat (length (MemStorage.bytes_ f))).
  destruct (Z.ltb_spec n off), (Z.ltb_spec (n - off) len), (Z.leb_spec (off + len) n); try done; lia.
Qed.
Next Obligation. intros s p. by eexists _, s. Qed.
Next Obligation. intros s o d p b [= <- <- Hc]. eexists _, s. split; [reflexivity|]. split; [done|]. simpl. by rewrite Hc. Qed.
Next Obligation.
  intros s o p b c [= <- <- <-]. simpl. unfold MemStorage.Close. destruct (MemStorage.closed_ o) eqn:E.
  - eexists o, s. split; [done|]. split; [done|]. rewrite E. eauto.
  - eexists _, _. split; [reflexivity|]. split; [done|]. simpl. eauto.
Qed.
Next Obligation.
  intros s p b. simpl. unfold MemStorage.CreateIfAbsent, bind, get. destruct (s !! p) eqn:E.
  - exists AlreadyExists, s. split; [done|]. split; [by eexists | done].
  - exists Created, (<[p := b]> s). done.
Qed.

(** ** MemMetadataStore *)

Module MemMetadataStore.

(** A version is [std::to_string] of a counter. *)
Definition MetadataVersion : Type := string.
Record VersionedValue := mkVersioned { value : bytes; version : MetadataVersion }.
Inductive ConditionalWriteResult := Applied | PreconditionFailed | RetryableConflict.

Record MemMetadataStore := mkMetaStore { entries_ : gmap string VersionedValue; next_version_ : Z }.

Definition Get (key : string) : M MemMetadataStore (option VersionedValue) :=
  let* st := get in ret (entries_ st !! key).

(** [next_version_++] on a [uint64_t]. *)
Definition NextVersionLocked : M MemMetadataStore MetadataVersion :=
  let* st := get in
  put (mkMetaStore (entries_ st) (u64 (next_version_ st + 1)));;;
  ret (pretty (next_version_ st)).

(** The result and, when applied, the version handed out. *)
Definition PutIfAbsent (key : string) (v : bytes) : M MemMetadataStore (ConditionalWriteResult * option MetadataVersion) :=
  let* st := get in
  match entries_ st !! key with
  | Some _ => ret (PreconditionFailed, None)
  | None =>
      let* ver := NextVersionLocked in
      modify (fun st => mkMetaStore (<[key := mkVersioned v ver]> (entries_ st)) (next_version_ st));;;
      ret (Applied, Some ver)
  end.

Definition CompareExchange (key : string) (expected : MetadataVersion) (v : bytes)
  : M MemMetadataStore (ConditionalWriteResult * option MetadataVersion) :=
  let* st := get in
  match entries_ st !! key with
  | None => ret (PreconditionFailed, None)
  | Some e =>
      if bool_decide (version e <> expected) then ret (PreconditionFailed, None) else
      let* ver := NextVersionLocked in
      modify (fun st => mkMetaStore (<[key := mkVersioned v ver]> (entries_ st)) (next_version_ st));;;
      ret (Applied, Some ver)
  end.

Definition DeleteForTest (key : string) : M MemMetadataStore unit :=
  modify (fun st => mkMetaStore (delete key (entries_ st)) (next_version_ st)).

Definition new : MemMetadataStore := mkMetaStore ∅ 1.

End MemMetadataStore.

(** ** Compare-and-exchange is free of ABA

    Operations on the metadata store in any order, as a client or several
    clients interleaved would make them. *)
Module MetaRuns.

Import MemMetadataStore.

Inductive meta_op :=
| MGet (key : string)
| MPut (key : string) (v : bytes)
| MCas (key : string) (expected : MetadataVersion) (v : bytes)
| MDelete (key : string).

Definition meta_exec (o : meta_op) (st : MemMetadataStore) : MemMetadataStore :=
  match o with
  | MGet key => (Get key st).2
  | MPut key v => (PutIfAbsent key v st).2
  | MCas key expected v => (CompareExchange key expected v st).2
  | MDelete key => (DeleteForTest key st).2
  end.

Definition meta_run (ops : list meta_op) (st : MemMetadataStore) : MemMetadataStore := foldl (fun st o => meta_exec o st) st ops.

(** Every version in the store was handed out before: it is below the counter. *)
Definition meta_inv (st : MemMetadataStore) : Prop :=
  0 <= next_version_ st /\
  forall k e, entries_ st !! k = Some e -> exists n, version e = pretty n /\ 0 <= n < next_version_ st.

(** One operation: an entry stays, goes, or gets the next version. *)
Lemma meta_exec_ok o st : meta_inv st -> next_version_ st + 1 < 2 ^ 64 ->
  meta_inv (meta_exec o st) /\ next_version_ st <= next_version_ (meta_exec o st) <= next_version_ st + 1 /\
  forall k e, entries_ (meta_exec o st) !! k = Some e ->
    entries_ st !! k = Some e \/ version e = pretty (next_version_ st).
Proof.
  intros [H0 Hinv] Hmax. set (n := next_version_ st) in *.
  assert (Hsame : forall es, (forall k e, es !! k = Some e -> entries_ st !! k = Some e) ->
    let st' := mkMetaStore es n in meta_inv st' /\ n <= next_version_ st' <= n + 1 /\
    forall k e, entries_ st' !! k = Some e -> entries_ st !! k = Some e \/ version e = pretty n).
  { intros es Hes st'. split; [split; [done | intros k e Hk; apply Hinv with k; by apply Hes]|].
    split; [simpl; lia | intros k e Hk; left; by apply Hes]. }
  assert (Hput : forall key v, let st' := mkMetaStore (<[key := mkVersioned v (pretty n)]> (entries_ st)) (u64 (n + 1)) in
    meta_inv st' /\ n <= next_version_ st' <= n + 1 /\
    forall k e, entries_ st' !! k = Some e -> entries_ st !! k = Some e \/ version e = pretty n).
  { intros key v. cbv zeta. rewrite u64_small by lia. split; [split; [simpl; lia|]|split; [simpl; lia|]]; intros k e;
      simpl; rewrite lookup_insert_Some; intros [[<- <-]|[_ Hk]]; simpl; eauto with lia.
    destruct (Hinv k e Hk) as (i & ? & ?). exists i. split; [done | lia]. }
  assert (Hst : mkMetaStore (entries_ st) n = st) by (by destruct st).
  destruct o as [key|key v|key expected v|key]; cbn [meta_exec].
  - simpl. rewrite <- Hst. by apply Hsame.
  - unfold PutIfAbsent, bind, get. destruct (entries_ st !! key); [simpl; rewrite <- Hst; by apply Hsame | apply Hput].
  - unfold CompareExchange, bind, get. destruct (entries_ st !! key) as [e|]; [|simpl; rewrite <- Hst; by apply Hsame].
    destruct (bool_decide _); [simpl; rewrite <- Hst; by apply Hsame | apply Hput].
  - apply Hsame. intros k e. rewrite lookup_delete_Some. naive_solver.
Qed.

Lemma meta_run_ok ops : forall st, meta_inv st -> next_version_ st + Z.of_nat (length ops) < 2 ^ 64 ->
  meta_inv (meta_run ops st) /\ next_version_ st <= next_version_ (meta_run ops st) <= next_version_ st + Z.of_nat (length ops) /\
  forall k e, entries_ (meta_run ops st) !! k = Some e ->
    entries_ st !! k = Some e \/ exists n, version e = pretty n /\ next_version_ st <= n.
Proof.
  induction ops as [|o ops IH]; intros st Hinv Hmax; [simpl; split; [done|]; split; [lia | auto]|]. simpl in Hmax.
  destruct (meta_exec_ok o st Hinv ltac:(lia)) as (H1 & H2 & H3).
  destruct (IH (meta_exec o st) H1 ltac:(lia)) as (I1 & I2 & I3). change (meta_run (o :: ops) st) with (meta_run ops (meta_exec o st)). cbn [length].
  split; [done|]. split; [lia|]. intros k e He. destruct (I3 k e He) as [Hk|(n & Hn & Hle)].
  - destruct (H3 k e Hk) as [|Hv]; [by left | right; exists (next_version_ st); auto with lia].
  - right. exists n. auto with lia.
Qed.

(** A version identifies one write: if a key carries, after any number of
    operations by anybody (deletions and re-creations included), the version a
    reader saw earlier, then its value is the one that reader saw. So a
    [CompareExchange] that is applied replaces exactly the value its caller
    read: there is no ABA. *)
Theorem version_identifies_write (ops1 ops2 : list meta_op) (key : string) (e e' : VersionedValue) :
  1 + Z.of_nat (length ops1 + length ops2) < 2 ^ 64 ->
  entries_ (meta_run ops1 new) !! key = Some e ->
  entries_ (meta_run ops2 (meta_run ops1 new)) !! key = Some e' ->
  version e' = version e -> e' = e.
Proof.
  intros Hmax He He' Hv.
  assert (Hnew : meta_inv new) by (split; [simpl; lia|]; intros k x Hx; simpl in Hx; by rewrite lookup_empty in Hx).
  destruct (meta_run_ok ops1 new Hnew) as (I1 & Hn & _); [simpl; lia|]. simpl in Hn.
  destruct (meta_run_ok ops2 _ I1) as (_ & _ & H3); [lia|].
  destruct (H3 key e' He') as [Hsame|(n & Hvn & Hle)]; [congruence|].
  destruct I1 as [_ I1]. destruct (I1 key e He) as (i & Hi & Hlt). rewrite Hvn, Hi in Hv. apply (inj pretty) in Hv. lia.
Qed.

Lemma version_identifies_write_witness :
  let ops1 := [MPut "k" [Byte.x01]] in
  let ops2 := [MDelete "k"; MPut "k" [Byte.x01]; MCas "k" "1" [Byte.x02]] in
  (forall e e', entries_ (meta_run ops1 new) !! "k" = Some e ->
     entries_ (meta_run ops2 (meta_run ops1 new)) !! "k" = Some e' -> version e' = version e -> e' = e) /\
  version <$> (entries_ (meta_run ops1 new) !! "k") = Some "1" /\
  version <$> (entries_ (meta_run ops2 (meta_run ops1 new)) !! "k") = Some "2".
Proof.
  split; [|by vm_compute]. intros e e'.
  apply (version_identifies_write [MPut "k" [Byte.x01]] [MDelete "k"; MPut "k" [Byte.x01]; MCas "k" "1" [Byte.x02]] "k" e e').
  done.
Defined.

End MetaRuns.
