(* ===== verification/Columnar.v ===== *)
(** * The native columnar file format

    Models [Storage/Encoding] (the plain codec, the compressions and the
    registry that resolves their persisted ids) and
    [Table/Format/NativeColumnarFileFormat]: the writer, the footer parser, the
    two page accessors, the per-file reader and the scan cursor.

    zlib is code of another project: its two functions are parameters, in the
    class [Zlib]; each returns the bytes it would write, or [None] when its
    return code is not [Z_OK]. *)

From stdpp Require Import strings.
From S2P Require Import Prelude KeyCodec Table Storage.
Open Scope Z_scope.

(** ** Encodings *)

Definition Encoding_Plain : Z := 1.
Definition Compression_None : Z := 1.
Definition Compression_Zlib : Z := 2.

Module PlainCodec.

Fixpoint encode_fixed (t : DType) (n i : nat) (col : Column) : result bytes :=
  match n with
  | O => Ok []
  | S n => let? v := Column_Get t i col in let? rest := encode_fixed t n (S i) col in Ok (v ++ rest)
  end.

Fixpoint encode_var (n i : nat) (col : Column) : result bytes :=
  match n with
  | O => Ok []
  | S n =>
      let? s := Column_GetBytes i col in
      let? rest := encode_var n (S i) col in
      Ok (le_bytes 4 (u32 (Z.of_nat (length s))) ++ s ++ rest)
  end.

(** What [Encode] appends to [*out]. *)
Definition Encode (col : Column) : result bytes :=
  match c_type col with
  | Int32 | Int64 | Float | Double | Bool => encode_fixed (c_type col) (c_size col) 0 col
  | String_ | Blob => encode_var (c_size col) 0 col
  | Invalid => Fail (Throw invalid_argument "PlainCodec::Encode: invalid column type")
  end.

Fixpoint decode_fixed_loop (t : DType) (n i : nat) (b : bytes) (out : Column) : result Column :=
  match n with
  | O => Ok out
  | S n =>
      let w := FixedWidth t in
      if (length b <? i * w + w)%nat then Fail (Undefined "memcpy past the payload") else
      let raw := slice (i * w) w b in
      if bool_decide (t = Bool) && negb (bool_rep raw) then Fail (Undefined "not a bool")
      else decode_fixed_loop t n (S i) b (Append raw out)
  end.

(** [in.size() < n * sizeof(T)] in [size_t] arithmetic. *)
Definition decode_fixed (t : DType) (n : Z) (b : bytes) (out : Column) : result Column :=
  if Z.of_nat (length b) <? u64 (n * Z.of_nat (FixedWidth t))
  then Fail (Throw runtime_error "PlainCodec: truncated fixed-width payload")
  else decode_fixed_loop t (Z.to_nat n) 0 b out.

Fixpoint decode_var (n : nat) (p : nat) (b : bytes) (out : Column) : result Column :=
  match n with
  | O => Ok out
  | S n =>
      if (length b <? p + 4)%nat then Fail (Throw runtime_error "PlainCodec: truncated var-length header") else
      let len := Z.to_nat (le_value (slice p 4 b)) in
      let p := (p + 4)%nat in
      if (length b <? p + len)%nat then Fail (Throw runtime_error "PlainCodec: truncated var-length payload")
      else decode_var n (p + len) b (AppendBytes (slice p len b) out)
  end.

Definition Decode (b : bytes) (value_count : Z) (out : Column) : result Column :=
  match c_type out with
  | Int32 | Int64 | Float | Double | Bool => decode_fixed (c_type out) value_count b out
  | String_ | Blob => decode_var (Z.to_nat value_count) 0 b out
  | Invalid => Fail (Throw invalid_argument "PlainCodec::Decode: invalid column type")
  end.

Definition FixedWidth (t : DType) : nat := Table.FixedWidth t.

End PlainCodec.

(** [ICodec] and [ICompression] as records of operations; the registry. *)
Record ICodec := mkCodec {
  codec_Encode : Column -> result bytes;
  codec_Decode : bytes -> Z -> Column -> result Column;
  codec_FixedWidth : DType -> nat;
}.

Definition kPlain : ICodec := mkCodec PlainCodec.Encode PlainCodec.Decode PlainCodec.FixedWidth.

Definition Registry_GetCodec (id : Z) : result ICodec :=
  if id =? Encoding_Plain then Ok kPlain
  else Fail (Throw invalid_argument "CodecRegistry: unknown EncodingId").

(** ** Compressions *)

Class Zlib := {
  compress2 : bytes -> option bytes;
  uncompress : bytes -> Z -> option bytes;
}.

(** What zlib documents: [uncompress] with room for exactly the original bytes
    restores what [compress2] packed. *)
Class ZlibSpec `{!Zlib} := {
  uncompress_compress2 : forall b z, compress2 b = Some z -> uncompress z (Z.of_nat (length b)) = Some b;
}.

Section Format.

Context `{!Zlib}.

Record ICompression := mkCompression {
  comp_Compress : bytes -> result bytes;
  comp_Decompress : bytes -> Z -> result bytes;
}.

Definition NoCompression : ICompression := mkCompression (fun b => Ok b) (fun b _ => Ok b).

Definition Zlib_Compress (b : bytes) : result bytes :=
  match compress2 b with
  | Some out => Ok out
  | None => Fail (Throw runtime_error "ZlibCompression: compress2 failed")
  end.

Definition Zlib_Decompress (b : bytes) (raw_size : Z) : result bytes :=
  if raw_size =? 0 then Ok [] else
  match uncompress b raw_size with
  | Some out => if Z.of_nat (length out) =? raw_size then Ok out
                else Fail (Throw runtime_error "ZlibCompression: uncompress failed or size mismatch")
  | None => Fail (Throw runtime_error "ZlibCompression: uncompress failed or size mismatch")
  end.

Definition ZlibCompression : ICompression := mkCompression Zlib_Compress Zlib_Decompress.

Definition Registry_GetCompression (id : Z) : result ICompression :=
  if id =? Compression_None then Ok NoCompression
  else if id =? Compression_Zlib then Ok ZlibCompression
  else Fail (Throw invalid_argument "CodecRegistry: unknown CompressionId").

(** ** Ranges of columns *)

Fixpoint append_range_loop (n i : nat) (src dst : Column) : result Column :=
  match n with
  | O => Ok dst
  | S n =>
      let t := c_type dst in
      let? dst :=
        match t with
        | Int32 | Int64 | Float | Double | Bool => let? v := Column_Get t i src in Ok (Append v dst)
        | _ => let? s := Column_GetBytes i src in Ok (AppendBytes s dst)
        end in
      append_range_loop n (S i) src dst
  end.

Definition AppendRange (dst src : Column) (start count : nat) : result Column :=
  match c_type dst with
  | Invalid => Fail (Throw invalid_argument "NativeColumnar: invalid column type")
  | _ => append_range_loop count start src dst
  end.

(** ** The file *)

Definition kMagic : bytes := [Byte.x44; Byte.x42; Byte.x43; Byte.x31].
Definition kWriteEncoding : Z := Encoding_Plain.

Record ColumnMeta := mkColumnMeta {
  encoding : Z; compression : Z; m_offset : Z; stored_size : Z; raw_size : Z; value_count : Z;
}.

Definition PutU8 (v : Z) : bytes := le_bytes 1 v.
Definition PutU64 (v : Z) : bytes := le_bytes 8 v.

(** [GetU8] and [GetU64] advance the pointer; the footer has no more bytes than
    were read, and nothing checks against its end. *)
Definition GetU8 (b : bytes) : result (Z * bytes) :=
  match b with c :: b => Ok (byte_to_Z c, b) | [] => Fail (Undefined "read past the footer") end.
Definition GetU64 (b : bytes) : result (Z * bytes) :=
  if (length b <? 8)%nat then Fail (Undefined "read past the footer") else Ok (le_value (take 8 b), drop 8 b).

Definition put_meta (m : ColumnMeta) : bytes :=
  PutU8 (encoding m) ++ PutU8 (compression m) ++ PutU64 (m_offset m) ++ PutU64 (stored_size m) ++
  PutU64 (raw_size m) ++ PutU64 (value_count m).

Definition get_meta (b : bytes) : result (ColumnMeta * bytes) :=
  let? (enc, b) := GetU8 b in
  let? (comp, b) := GetU8 b in
  let? (off, b) := GetU64 b in
  let? (ss, b) := GetU64 b in
  let? (rs, b) := GetU64 b in
  let? (vc, b) := GetU64 b in
  Ok (mkColumnMeta enc comp off ss rs vc, b).

Fixpoint get_metas (n : nat) (b : bytes) : result (list ColumnMeta) :=
  match n with
  | O => Ok []
  | S n => let? (m, b) := get_meta b in let? ms := get_metas n b in Ok (m :: ms)
  end.

(** ** Reading and writing through a storage *)

Context {St F Out : Type} `{!IStorage St F Out}.

(** [!in.ReadAt(offset, len, &buf)] throws. *)
Definition read_or_throw (f : F) (off len : Z) (msg : string) : result bytes :=
  match ReadAt f off len with Some b => Ok b | None => Fail (Throw runtime_error msg) end.

Definition ReadU64At (f : F) (offset : Z) : result Z :=
  let? buf := read_or_throw f offset 8 "NativeColumnar: read past end of file" in
  Ok (le_value buf).

Definition ParseFooter (f : F) : result (Z * list ColumnMeta) :=
  let size := File_Size f in
  let trailer := 12 in
  if size <? 4 + trailer then Fail (Throw runtime_error "NativeColumnar: file too small / not a native file") else
  let? tail_magic := read_or_throw f (size - 4) 4 "NativeColumnar: bad trailing magic" in
  if negb (bool_decide (tail_magic = kMagic)) then Fail (Throw runtime_error "NativeColumnar: bad trailing magic") else
  let? footer_size := ReadU64At f (size - trailer) in
  let? footer := read_or_throw f (u64 (size - trailer - footer_size)) footer_size "NativeColumnar: truncated footer" in
  let? (row_count, p) := GetU64 footer in
  let? (col_count, p) := GetU64 p in
  let? metas := get_metas (Z.to_nat col_count) p in
  Ok (row_count, metas).

(** *** PageAccessor *)

Inductive PageAccessor :=
| WholePageAccessor (meta : ColumnMeta) (t : DType) (decoded : option Column)
| FixedWidthDirectAccessor (meta : ColumnMeta) (width : nat).

Definition MakeAccessor (m : ColumnMeta) (t : DType) : result PageAccessor :=
  let? codec := Registry_GetCodec (encoding m) in
  let width := codec_FixedWidth codec t in
  if (0 <? width)%nat && (compression m =? Compression_None)
  then Ok (FixedWidthDirectAccessor m width)
  else Ok (WholePageAccessor m t None).

(** The whole page, decoded. *)
Definition decode_page (f : F) (m : ColumnMeta) (t : DType) : result Column :=
  let? stored := read_or_throw f (m_offset m) (stored_size m) "NativeColumnar: truncated column page" in
  let? comp := Registry_GetCompression (compression m) in
  let? encoded := comp_Decompress comp stored (raw_size m) in
  let? codec := Registry_GetCodec (encoding m) in
  codec_Decode codec encoded (value_count m) (Column_new t).

Definition ReadRows (f : F) (a : PageAccessor) (first count : Z) (out : Column) : result (PageAccessor * Column) :=
  match a with
  | WholePageAccessor m t decoded =>
      let? d := match decoded with Some d => Ok d | None => decode_page f m t end in
      let? out := AppendRange out d (Z.to_nat first) (Z.to_nat count) in
      Ok (WholePageAccessor m t (Some d), out)
  | FixedWidthDirectAccessor m w =>
      let? b := read_or_throw f (u64 (m_offset m + first * Z.of_nat w)) (u64 (count * Z.of_nat w))
                  "NativeColumnar: truncated column page (direct)" in
      let? codec := Registry_GetCodec (encoding m) in
      let? out := codec_Decode codec b count out in
      Ok (a, out)
  end.

(** *** NativeColumnarFileReader *)

Record FileReader := mkReader {
  r_in : F;
  r_projection : list Z;
  r_types : list DType;
  r_row_count : Z;
  accessors_ : list PageAccessor;
}.

Fixpoint make_accessors (metas : list ColumnMeta) (types : list DType) : result (list PageAccessor) :=
  match metas, types with
  | m :: metas, t :: types =>
      let? a := MakeAccessor m t in let? rest := make_accessors metas types in Ok (a :: rest)
  | _, _ => Ok []
  end.

Fixpoint read_columns (f : F) (first n : Z) (types : list DType) (accs : list PageAccessor)
  : result (list PageAccessor * list Column) :=
  match types, accs with
  | t :: types, a :: accs =>
      let? (a, col) := ReadRows f a first n (Column_new t) in
      let? (accs, cols) := read_columns f first n types accs in
      Ok (a :: accs, col :: cols)
  | _, _ => Ok ([], [])
  end.

Definition ReadRange (r : FileReader) (first_row num_rows : Z) : result (option Chunk * FileReader) :=
  if r_row_count r <=? first_row then Ok (None, r) else
  let n := Z.min num_rows (r_row_count r - first_row) in
  if n =? 0 then Ok (None, r) else
  let? (accs, cols) := read_columns (r_in r) first_row n (r_types r) (accessors_ r) in
  Ok (Some (mkChunk (r_projection r) cols (Z.to_nat n)), mkReader (r_in r) (r_projection r) (r_types r) (r_row_count r) accs).

(** The loop of [OpenReader] over the projection. *)
Fixpoint project_metas (schema : Schema) (metas : list ColumnMeta) (projection : list Z)
  : result (list DType * list ColumnMeta) :=
  match projection with
  | [] => Ok ([], [])
  | p :: projection =>
      if (p <? 0) || (Z.of_nat (length metas) <=? p)
      then Fail (Throw out_of_range "NativeColumnar: projection index out of range") else
      match schema !! Z.to_nat p, metas !! Z.to_nat p with
      | Some fd, Some m =>
          let? (ts, ms) := project_metas schema metas projection in Ok (f_type fd :: ts, m :: ms)
      | _, _ => Fail (Undefined "vector index out of range")
      end
  end.

Record FileFormat := mkFormat { nf_schema : Schema; write_compression_ : Z; nf_batch_rows : nat }.

Definition OpenReader (fmt : FileFormat) (file : string) (projection : list Z) : M St (option FileReader) :=
  let* o := OpenInput file in
  match o with
  | None => ret None
  | Some f =>
      let* (row_count, metas) := lift (ParseFooter f) in
      let* (types, proj_metas) := lift (project_metas (nf_schema fmt) metas projection) in
      let* accs := lift (make_accessors proj_metas types) in
      ret (Some (mkReader f projection types row_count accs))
  end.

(** *** The scan cursor *)

Record ColumnarCursor := mkColCursor {
  cc_fmt : FileFormat;
  cc_files : list string;
  cc_projection : list Z;
  cc_batch_rows : nat;
  reader_ : option FileReader;
  cc_pos : Z;
  next_file_ : nat;
}.

Definition set_reader (r : option FileReader) (pos : Z) (next : nat) (c : ColumnarCursor) : ColumnarCursor :=
  mkColCursor (cc_fmt c) (cc_files c) (cc_projection c) (cc_batch_rows c) r pos next.

Definition Columnar_Scan (fmt : FileFormat) (files : list string) (projection : list Z) : ColumnarCursor :=
  mkColCursor fmt files projection (if (nf_batch_rows fmt =? 0)%nat then 1%nat else nf_batch_rows fmt) None 0 0.

(** The part of the loop after the reader is there: a batch, or [None] when
    the file is exhausted. *)
Definition read_batch (r : FileReader) (c : ColumnarCursor) : result (option (Chunk * ColumnarCursor)) :=
  if r_row_count r <=? cc_pos c then Ok None else
  let n := Z.min (Z.of_nat (cc_batch_rows c)) (r_row_count r - cc_pos c) in
  let? (chunk, r) := ReadRange r (cc_pos c) n in
  match chunk with
  | Some chunk => Ok (Some (chunk, set_reader (Some r) (u64 (cc_pos c + n)) (next_file_ c) c))
  | None => Fail (Undefined "batch left unset") (* unreachable: [n] is positive and in range *)
  end.

(** Every round but the last drops a reader or a file name. *)
Fixpoint next_loop (fuel : nat) (c : ColumnarCursor) : M St (option Chunk * ColumnarCursor) :=
  match fuel with
  | O => fail OutOfFuel
  | S fuel =>
      let finish (r : FileReader) (c : ColumnarCursor) : M St (option Chunk * ColumnarCursor) :=
        let* o := lift (read_batch r c) in
        match o with
        | Some (chunk, c) => ret (Some chunk, c)
        | None => next_loop fuel (set_reader None (cc_pos c) (next_file_ c) c)
        end in
      match reader_ c with
      | Some r => finish r c
      | None =>
          match cc_files c !! next_file_ c with
          | None => ret (None, c)
          | Some file =>
              let* o := OpenReader (cc_fmt c) file (cc_projection c) in
              match o with
              | None => next_loop fuel (set_reader None (cc_pos c) (S (next_file_ c)) c)
              | Some r => finish r (set_reader (Some r) 0 (S (next_file_ c)) c)
              end
          end
      end
  end.

Definition Columnar_Next (c : ColumnarCursor) : M St (option Chunk * ColumnarCursor) :=
  next_loop (S (S (length (cc_files c)))) c.

#[export] Instance columnar_cursor : IBatchCursor St ColumnarCursor := {| Batch_Next := Columnar_Next |}.

(** *** The writer *)

Record ChunkWriter := mkWriter { w_out : Out; w_compression : Z; cols_ : list Column; w_closed : bool }.

Definition OpenWriter (fmt : FileFormat) (path : string) : M St ChunkWriter :=
  let* out := OpenOutput path in
  ret (mkWriter out (write_compression_ fmt) ((fun f => Column_new (f_type f)) <$> nf_schema fmt) false).

Fixpoint append_columns (dsts srcs : list Column) : result (list Column) :=
  match dsts, srcs with
  | d :: dsts, s :: srcs =>
      let? d := AppendRange d s 0 (c_size s) in let? rest := append_columns dsts srcs in Ok (d :: rest)
  | _, _ => Ok []
  end.

Definition Write (chunk : Chunk) (w : ChunkWriter) : result ChunkWriter :=
  if negb (length (columns chunk) =? length (cols_ w))%nat
  then Fail (Throw invalid_argument "NativeColumnar: writer expects full-schema chunks") else
  let? cols := append_columns (cols_ w) (columns chunk) in
  Ok (mkWriter (w_out w) (w_compression w) cols (w_closed w)).

(** The pages after [body], and their metadata. *)
Fixpoint write_pages (codec : ICodec) (comp : ICompression) (comp_id : Z) (cols : list Column) (body : bytes)
  : result (bytes * list ColumnMeta) :=
  match cols with
  | [] => Ok (body, [])
  | col :: cols =>
      let? encoded := codec_Encode codec col in
      let? stored := comp_Compress comp encoded in
      let m := mkColumnMeta kWriteEncoding comp_id (Z.of_nat (length body)) (Z.of_nat (length stored))
                 (Z.of_nat (length encoded)) (Z.of_nat (c_size col)) in
      let? (body, metas) := write_pages codec comp comp_id cols (body ++ stored) in
      Ok (body, m :: metas)
  end.

(** The bytes of the sealed file. *)
Definition seal (comp_id : Z) (cols : list Column) : result bytes :=
  let? codec := Registry_GetCodec kWriteEncoding in
  let? comp := Registry_GetCompression comp_id in
  let? (body, metas) := write_pages codec comp comp_id cols kMagic in
  let row_count := match cols with [] => 0 | c :: _ => Z.of_nat (c_size c) end in
  let footer := PutU64 row_count ++ PutU64 (Z.of_nat (length cols)) ++ concat (put_meta <$> metas) in
  Ok (body ++ footer ++ PutU64 (Z.of_nat (length footer)) ++ kMagic).

(** A [Close] that throws leaves nothing to observe of the writer but that it
    counts as closed, and nothing in the storage. *)
Definition Writer_Close (w : ChunkWriter) : M St ChunkWriter :=
  if (w_closed w : bool) then ret w else
  let* body := lift (seal (w_compression w) (cols_ w)) in
  let* out := Stream_Append body (w_out w) in
  let* out := Stream_Close out in
  ret (mkWriter out (w_compression w) (cols_ w) true).

End Format.
