(* ===== verification/ColumnarSpec.v ===== *)
(** * A columnar file gives its rows back

    The plain codec and the compressions round-trip; a sealed file parses back
    to its metadata; both page accessors read any row range exactly; so a scan
    of the files that a writer sealed yields the rows that were written, with
    any projection and batch size. *)

From stdpp Require Import strings.
From S2P Require Import Prelude KeyCodec Table TableSpec Storage Columnar.
Open Scope Z_scope.

(** ** The plain codec *)

Lemma encode_fixed_ok t raws : is_var t = false -> Forall (wf_raw t) raws ->
  forall n i, (n + i = length raws)%nat -> PlainCodec.encode_fixed t n i (column_of t raws) = Ok (concat (drop i raws)).
Proof.
  intros Ht Hw. induction n as [|n IH]; intros i Hi; cbn [PlainCodec.encode_fixed]; [by rewrite drop_ge by lia|].
  destruct (lookup_lt_is_Some_2 raws i) as [r Hr]; [lia|]. rewrite (Column_Get_of t raws i r), IH by (done || lia).
  cbn [result_bind]. by rewrite (drop_S _ _ _ Hr).
Qed.

Lemma encode_var_ok t raws : is_var t = true -> Z.of_nat (length (concat raws)) < 2 ^ 32 ->
  forall n i, (n + i = length raws)%nat ->
  PlainCodec.encode_var n i (column_of t raws) = Ok (concat (wire t <$> drop i raws)).
Proof.
  intros Ht Hb. induction n as [|n IH]; intros i Hi; cbn [PlainCodec.encode_var]; [by rewrite drop_ge by lia|].
  destruct (lookup_lt_is_Some_2 raws i) as [r Hr]; [lia|]. rewrite (Column_GetBytes_of t raws i r), IH by (done || lia).
  cbn [result_bind]. rewrite (drop_S _ _ _ Hr), fmap_cons. cbn [concat].
  assert (Ew : wire t r = le_bytes 4 (Z.of_nat (length r)) ++ r) by (unfold wire; by rewrite Ht).
  destruct (slice_concat raws i r Hr) as [_ Hle]. rewrite u32_small, Ew, <- app_assoc by lia. done.
Qed.

(** The encoded page of a column. *)
Definition page_of (t : DType) (raws : list bytes) : bytes := concat (wire t <$> raws).

Lemma page_fixed t raws : is_var t = false -> page_of t raws = concat raws.
Proof.
  intros Ht. unfold page_of. induction raws as [|r raws IH]; [done|]. rewrite fmap_cons. simpl. rewrite IH. unfold wire. by rewrite Ht.
Qed.

Lemma Encode_ok t raws : t <> Invalid -> Forall (wf_raw t) raws -> Z.of_nat (length (concat raws)) < 2 ^ 32 ->
  PlainCodec.Encode (column_of t raws) = Ok (page_of t raws).
Proof.
  intros Ht Hw Hb. unfold PlainCodec.Encode. rewrite c_type_of, c_size_of.
  destruct t; try done; first [rewrite encode_fixed_ok by (done || lia) | rewrite encode_var_ok by (done || lia)];
    rewrite drop_0; try done; by rewrite page_fixed.
Qed.

Lemma decode_fixed_loop_ok t raws : is_var t = false -> Forall (wf_raw t) raws ->
  forall n i pre, (n + i <= length raws)%nat ->
  PlainCodec.decode_fixed_loop t n i (concat raws) (column_of t pre) = Ok (column_of t (pre ++ take n (drop i raws))).
Proof.
  intros Ht Hw. induction n as [|n IH]; intros i pre Hi; cbn [PlainCodec.decode_fixed_loop]; [by rewrite take_0, app_nil_r|].
  destruct (lookup_lt_is_Some_2 raws i) as [r Hr]; [lia|].
  pose proof (Column_Get_of t raws i r Ht Hw Hr) as Hg. unfold Column_Get, column_of in Hg. rewrite Ht in Hg. cbn [fixed_] in Hg.
  destruct (length (concat raws) <? _)%nat; [done|]. destruct (bool_decide (t = Bool) && _); [done|]. injection Hg as ->.
  rewrite Append_of, IH by (done || lia). rewrite (drop_S _ _ _ Hr), <- app_assoc. done.
Qed.

Lemma decode_var_ok t raws : is_var t = true -> Forall (wf_raw t) raws ->
  forall pre_b post pre, PlainCodec.decode_var (length raws) (length pre_b) (pre_b ++ page_of t raws ++ post) (column_of t pre) =
    Ok (column_of t (pre ++ raws)).
Proof.
  intros Ht. induction raws as [|r raws IH]; intros Hw pre_b post pre; cbn [PlainCodec.decode_var length]; [by rewrite app_nil_r|].
  apply Forall_cons in Hw as [Hr Hw]. unfold page_of. rewrite fmap_cons. cbn [concat]. fold (page_of t raws).
  assert (Hl : Z.of_nat (length r) < 2 ^ 32) by (destruct t; done).
  assert (Ew : wire t r = le_bytes 4 (Z.of_nat (length r)) ++ r) by (unfold wire; by rewrite Ht).
  set (p4 := le_bytes 4 (Z.of_nat (length r))) in *. assert (L4 : length p4 = 4%nat) by apply length_le_bytes.
  set (b := pre_b ++ (wire t r ++ page_of t raws) ++ post).
  assert (Eb : b = pre_b ++ p4 ++ r ++ page_of t raws ++ post) by (unfold b; by rewrite Ew, <- !app_assoc).
  assert (Lb : length b = (length pre_b + 4 + length r + length (page_of t raws ++ post))%nat) by (rewrite Eb, !length_app, L4; lia).
  assert (S4 : slice (length pre_b) 4 b = p4).
  { rewrite Eb, slice_app_r, Nat.sub_diag, slice_app_l by lia. rewrite <- L4. apply slice_all. }
  assert (Sr : slice (length pre_b + 4) (length r) b = r).
  { rewrite Eb, slice_app_r by lia. rewrite slice_app_r by lia. replace (length pre_b + 4 - length pre_b - length p4)%nat with 0%nat by lia.
    rewrite slice_app_l by lia. apply slice_all. }
  destruct (Nat.ltb_spec (length b) (length pre_b + 4)); [lia|]. rewrite S4.
  assert (Ev : le_value p4 = Z.of_nat (length r)) by (apply le_bytes_small; lia). rewrite Ev, Nat2Z.id.
  destruct (Nat.ltb_spec (length b) (length pre_b + 4 + length r)); [lia|]. rewrite Sr, AppendBytes_of by done.
  replace (length pre_b + 4 + length r)%nat with (length (pre_b ++ p4 ++ r)) by (rewrite !length_app, L4; lia).
  replace b with ((pre_b ++ p4 ++ r) ++ page_of t raws ++ post) by (rewrite Eb, <- !app_assoc; done).
  rewrite IH by done. by rewrite <- app_assoc.
Qed.

Lemma fixed_width_pos t : t <> Invalid -> is_var t = false -> (0 < FixedWidth t <= 8)%nat.
Proof. destruct t; simpl; try done; lia. Qed.

Lemma wf_fixed_length t raws : is_var t = false -> Forall (wf_raw t) raws -> length (concat raws) = (length raws * FixedWidth t)%nat.
Proof.
  intros Ht Hw. apply length_concat_fixed. eapply Forall_impl; [exact Hw|]. intros r Hr. destruct t; simpl in *; try done; apply Hr.
Qed.

Lemma Decode_ok t raws pre : t <> Invalid -> Forall (wf_raw t) raws -> Z.of_nat (length (page_of t raws)) < 2 ^ 64 ->
  PlainCodec.Decode (page_of t raws) (Z.of_nat (length raws)) (column_of t pre) = Ok (column_of t (pre ++ raws)).
Proof.
  intros Ht Hw Hs. unfold PlainCodec.Decode. rewrite c_type_of. destruct (is_var t) eqn:Ev.
  - pose proof (decode_var_ok t raws Ev Hw [] [] pre) as E. rewrite app_nil_r in E. simpl in E. rewrite Nat2Z.id.
    destruct t; done.
  - rewrite page_fixed in * by done. pose proof (wf_fixed_length t raws Ev Hw) as Hl.
    assert (E : PlainCodec.decode_fixed t (Z.of_nat (length raws)) (concat raws) (column_of t pre) = Ok (column_of t (pre ++ raws))).
    { unfold PlainCodec.decode_fixed. rewrite <- Nat2Z.inj_mul, <- Hl, u64_small by lia.
      destruct (Z.ltb_spec (Z.of_nat (length (concat raws))) (Z.of_nat (length (concat raws)))); [lia|].
      rewrite Nat2Z.id, decode_fixed_loop_ok by (done || lia). rewrite drop_0, firstn_all. done. }
    destruct t; done.
Qed.

(** ** Copying ranges *)

Lemma append_range_loop_ok t raws : t <> Invalid -> Forall (wf_raw t) raws -> Z.of_nat (length (concat raws)) < 2 ^ 32 ->
  forall n i pre, (n + i <= length raws)%nat ->
  append_range_loop n i (column_of t raws) (column_of t pre) = Ok (column_of t (pre ++ take n (drop i raws))).
Proof.
  intros Ht Hw Hb. induction n as [|n IH]; intros i pre Hi; cbn [append_range_loop]; [by rewrite take_0, app_nil_r|].
  destruct (lookup_lt_is_Some_2 raws i) as [r Hr]; [lia|]. rewrite c_type_of, (drop_S _ _ _ Hr).
  assert (E : match t with
              | Int32 | Int64 | Float | Double | Bool => let? v := Column_Get t i (column_of t raws) in Ok (Append v (column_of t pre))
              | _ => let? s := Column_GetBytes i (column_of t raws) in Ok (AppendBytes s (column_of t pre)) end
              = Ok (column_of t (pre ++ [r]))).
  { destruct (is_var t) eqn:Ev; destruct t; try done;
      first [rewrite (Column_Get_of _ raws i r) by done | rewrite (Column_GetBytes_of _ raws i r) by done]; cbn [result_bind];
      first [rewrite Append_of by done | rewrite AppendBytes_of by done]; done. }
  rewrite E. cbn [result_bind]. rewrite IH by lia. by rewrite <- app_assoc.
Qed.

Lemma AppendRange_ok t raws n i pre : t <> Invalid -> Forall (wf_raw t) raws -> Z.of_nat (length (concat raws)) < 2 ^ 32 ->
  (n + i <= length raws)%nat ->
  AppendRange (column_of t pre) (column_of t raws) i n = Ok (column_of t (pre ++ take n (drop i raws))).
Proof.
  intros Ht Hw Hb Hi. unfold AppendRange. rewrite c_type_of. destruct t; try done; by apply append_range_loop_ok.
Qed.

(** ** The metadata records *)

Lemma GetU64_Put v post : 0 <= v < 2 ^ 64 -> GetU64 (PutU64 v ++ post) = Ok (v, post).
Proof.
  intros Hv. unfold GetU64, PutU64. rewrite length_app, length_le_bytes.
  destruct (Nat.ltb_spec (8 + length post) 8); [lia|].
  rewrite take_app_length', drop_app_length' by (by rewrite length_le_bytes). by rewrite le_bytes_small.
Qed.

Lemma GetU8_Put v post : 0 <= v < 2 ^ 8 -> GetU8 (PutU8 v ++ post) = Ok (v, post).
Proof.
  intros Hv. unfold GetU8, PutU8. cbn [le_bytes app]. rewrite byte_to_of_Z. do 2 f_equal. apply Z.mod_small. lia.
Qed.

Definition meta_ok (m : ColumnMeta) : Prop :=
  0 <= encoding m < 2 ^ 8 /\ 0 <= compression m < 2 ^ 8 /\ 0 <= m_offset m < 2 ^ 64 /\ 0 <= stored_size m < 2 ^ 64 /\
  0 <= raw_size m < 2 ^ 64 /\ 0 <= value_count m < 2 ^ 64.

Lemma get_put_meta m post : meta_ok m -> get_meta (put_meta m ++ post) = Ok (m, post).
Proof.
  intros (H1 & H2 & H3 & H4 & H5 & H6). unfold get_meta, put_meta. rewrite <- !app_assoc.
  rewrite GetU8_Put by done. cbn [result_bind]. rewrite GetU8_Put by done. cbn [result_bind].
  do 4 (rewrite GetU64_Put by done; cbn [result_bind]). by destruct m.
Qed.

Lemma get_put_metas ms post : Forall meta_ok ms -> get_metas (length ms) (concat (put_meta <$> ms) ++ post) = Ok ms.
Proof.
  induction 1 as [|m ms Hm _ IH]; [done|]. rewrite fmap_cons. cbn [concat length get_metas]. rewrite <- app_assoc, get_put_meta by done.
  cbn [result_bind]. by rewrite IH.
Qed.

Lemma length_put_metas ms : length (concat (put_meta <$> ms)) = (34 * length ms)%nat.
Proof.
  induction ms as [|m ms IH]; [done|]. rewrite fmap_cons. cbn [concat length]. rewrite length_app, IH.
  assert (length (put_meta m) = 34%nat) by done. lia.
Qed.

(** ** Pages *)
Section Files.

Context `{Zl : !Zlib} {HZ : ZlibSpec}.

Lemma compression_ok id comp : Registry_GetCompression id = Ok comp ->
  (id = 1 \/ id = 2) /\ forall b z, comp_Compress comp b = Ok z -> comp_Decompress comp z (Z.of_nat (length b)) = Ok b.
Proof using All.
  unfold Registry_GetCompression, Compression_None, Compression_Zlib.
  destruct (Z.eqb_spec id 1) as [->|]; [intros [= <-]; split; [by left|]; by intros b z [= ->]|].
  destruct (Z.eqb_spec id 2) as [->|]; [|done]. intros [= <-]. split; [by right|]. intros b z. simpl. unfold Zlib_Compress, Zlib_Decompress.
  destruct (compress2 b) as [z'|] eqn:E; [|done]. intros [= ->]. destruct (Z.eqb_spec (Z.of_nat (length b)) 0) as [E0|].
  { by destruct b. }
  by rewrite (uncompress_compress2 _ _ E), Z.eqb_refl.
Qed.

(** The typed contents of a column, and when it can be written. *)
Abbreviation tcol := (DType * list bytes)%type.
Definition tcol_ok (x : tcol) : Prop := x.1 <> Invalid /\ Forall (wf_raw x.1) x.2 /\ Z.of_nat (length (concat x.2)) < 2 ^ 32.
Definition col_of (x : tcol) : Column := column_of x.1 x.2.

(** Column [k] of the metadata describes a page of [fb] that unpacks to [x]. *)
Definition described (comp : ICompression) (id : Z) (fb : bytes) (m : ColumnMeta) (x : tcol) : Prop :=
  encoding m = kWriteEncoding /\ compression m = id /\ 0 <= m_offset m /\ 0 <= stored_size m /\
  raw_size m = Z.of_nat (length (page_of x.1 x.2)) /\ value_count m = Z.of_nat (length x.2) /\
  m_offset m + stored_size m <= Z.of_nat (length fb) /\
  comp_Compress comp (page_of x.1 x.2) = Ok (slice (Z.to_nat (m_offset m)) (Z.to_nat (stored_size m)) fb).

Lemma described_app comp id fb post m x : described comp id fb m x -> described comp id (fb ++ post) m x.
Proof.
  intros (H1 & H2 & H3 & H4 & H5 & H6 & H7 & H8). split_and!; auto; [rewrite length_app; lia|]. by rewrite slice_app_l by lia.
Qed.

Lemma write_pages_ok comp id tcs : Forall tcol_ok tcs -> forall body body' ms,
  write_pages kPlain comp id (col_of <$> tcs) body = Ok (body', ms) ->
  (exists post, body' = body ++ post) /\ Forall2 (described comp id body') ms tcs.
Proof.
  induction 1 as [|[t raws] tcs (Ht & Hw & Hb) _ IH]; intros body body' ms E.
  { injection E as <- <-. split; [exists []; by rewrite app_nil_r | constructor]. }
  rewrite fmap_cons in E. cbn [write_pages] in E. change (codec_Encode kPlain) with PlainCodec.Encode in E.
  unfold col_of at 1 in E. cbn [fst snd] in *. rewrite Encode_ok in E by done. cbn [result_bind] in E.
  destruct (comp_Compress comp (page_of t raws)) as [st|] eqn:Ec; [|done]. cbn [result_bind] in E.
  destruct (write_pages kPlain comp id (col_of <$> tcs) (body ++ st)) as [[b2 ms2]|] eqn:E2; [|done]. cbn [result_bind] in E.
  injection E as <- <-. destruct (IH _ _ _ E2) as [[post ->] HF]. split; [exists (st ++ post); by rewrite app_assoc|].
  constructor; [|done]. unfold col_of. cbn [fst snd].
  split_and!; cbn [encoding compression m_offset stored_size raw_size value_count]; try done; try lia.
  - by rewrite c_size_of.
  - rewrite !length_app. lia.
  - cbn [fst snd]. rewrite Ec, !Nat2Z.id. f_equal. rewrite <- app_assoc, slice_app_r by lia. rewrite Nat.sub_diag, slice_app_l by lia. symmetry. apply slice_all.
Qed.

(** ** The sealed file *)

Context {St F Out : Type} `{IS : !IStorage St F Out} {HSt : StorageSpec St F Out}.

Lemma described_meta_ok comp id fb m x : described comp id fb m x -> (id = 1 \/ id = 2) -> Z.of_nat (length fb) < 2 ^ 63 ->
  Z.of_nat (length (page_of x.1 x.2)) < 2 ^ 63 -> Z.of_nat (length x.2) < 2 ^ 63 -> meta_ok m.
Proof.
  intros (H1 & H2 & H3 & H4 & H5 & H6 & H7 & _) Hid Hl Hp Hx. unfold kWriteEncoding, Encoding_Plain in H1.
  split_and!; rewrite ?H1, ?H2, ?H5, ?H6; lia.
Qed.

Definition tcol_small (x : tcol) : Prop := Z.of_nat (length (page_of x.1 x.2)) < 2 ^ 63 /\ Z.of_nat (length x.2) < 2 ^ 63.

Definition first_count (tcs : list tcol) : Z := match tcs with [] => 0 | x :: _ => Z.of_nat (length x.2) end.

Lemma seal_inv id tcs fb : seal id (col_of <$> tcs) = Ok fb -> Forall tcol_ok tcs ->
  exists comp body ms post, Registry_GetCompression id = Ok comp /\ Forall2 (described comp id body) ms tcs /\
    let footer := PutU64 (first_count tcs) ++ PutU64 (Z.of_nat (length tcs)) ++ concat (put_meta <$> ms) in
    body = kMagic ++ post /\ fb = body ++ footer ++ PutU64 (Z.of_nat (length footer)) ++ kMagic.
Proof using All.
  intros E Hok. unfold seal in E. change (Registry_GetCodec kWriteEncoding) with (Ok kPlain) in E. cbn [result_bind] in E.
  destruct (Registry_GetCompression id) as [comp|] eqn:Ec; [|done]. cbn [result_bind] in E.
  destruct (write_pages kPlain comp id (col_of <$> tcs) kMagic) as [[body ms]|] eqn:Ew; [|done]. cbn [result_bind] in E.
  destruct (write_pages_ok comp id tcs Hok _ _ _ Ew) as [[post ->] HF]. injection E as <-.
  exists comp, (kMagic ++ post), ms, post. split_and!; auto. rewrite length_fmap.
  replace (match col_of <$> tcs with [] => 0 | c :: _ => Z.of_nat (c_size c) end) with (first_count tcs); [done|].
  destruct tcs as [|[t raws] tcs]; [done|]. unfold col_of. simpl. by rewrite c_size_of.
Qed.

Lemma read_or_throw_ok (f : F) pre b post msg : file_bytes f = pre ++ b ++ post ->
  read_or_throw f (Z.of_nat (length pre)) (Z.of_nat (length b)) msg = Ok b.
Proof using All.
  intros E. unfold read_or_throw. rewrite read_at_spec by lia. rewrite E, !length_app.
  destruct (Z.leb_spec (Z.of_nat (length pre) + Z.of_nat (length b)) (Z.of_nat (length pre + (length b + length post)))); [|lia].
  rewrite !Nat2Z.id, slice_app_r by lia. rewrite Nat.sub_diag, slice_app_l by lia. by rewrite slice_all.
Qed.

(** Parsing the footer of a sealed file. *)
Lemma parse_footer_ok (f : F) id tcs : seal id (col_of <$> tcs) = Ok (file_bytes f) -> Forall tcol_ok tcs -> Forall tcol_small tcs ->
  Z.of_nat (length (file_bytes f)) < 2 ^ 63 ->
  exists comp ms, Registry_GetCompression id = Ok comp /\ ParseFooter f = Ok (first_count tcs, ms) /\
    Forall2 (described comp id (file_bytes f)) ms tcs.
Proof using All.
  intros E Hok Hsm Hlen. destruct (seal_inv id tcs _ E Hok) as (comp & body & ms & post & Ec & HF & Hb & Efb).
  set (footer := PutU64 (first_count tcs) ++ _) in Efb. exists comp, ms.
  assert (HF' : Forall2 (described comp id (file_bytes f)) ms tcs).
  { rewrite Efb. eapply Forall2_impl; [exact HF|]. intros m x. apply described_app. }
  split_and!; auto. destruct (compression_ok id comp Ec) as [Hid _].
  assert (Hmeta : Forall meta_ok ms).
  { apply Forall_lookup. intros i m Hm. destruct (Forall2_lookup_l _ _ _ _ _ HF' Hm) as (x & Hx & Hd).
    destruct (Forall_lookup_1 _ _ _ _ Hsm Hx) as [S1 S2]. by eapply described_meta_ok. }
  assert (Hlm : length ms = length tcs) by (by eapply Forall2_length).
  assert (Lf : length footer = (16 + 34 * length ms)%nat).
  { unfold footer. rewrite !length_app, length_put_metas. unfold PutU64. rewrite !length_le_bytes. lia. }
  assert (Lb : (4 <= length body)%nat) by (rewrite Hb, length_app; simpl; lia).
  assert (Ls : length (file_bytes f) = (length body + length footer + 12)%nat).
  { rewrite Efb, !length_app. unfold PutU64. rewrite length_le_bytes. simpl length. lia. }
  unfold ParseFooter. rewrite size_spec. set (size := Z.of_nat (length (file_bytes f))) in *. cbv zeta.
  destruct (Z.ltb_spec size (4 + 12)); [lia|].
  set (fs8 := PutU64 (Z.of_nat (length footer))) in Efb. assert (L8 : length fs8 = 8%nat) by apply length_le_bytes.
  replace (size - 4) with (Z.of_nat (length (body ++ footer ++ fs8))) by (rewrite !length_app, L8; lia).
  rewrite (read_or_throw_ok f (body ++ footer ++ fs8) kMagic []) by (rewrite Efb, <- !app_assoc, app_nil_r; done).
  cbn [result_bind]. rewrite bool_decide_true by done. cbn [negb]. unfold ReadU64At.
  replace (size - 12) with (Z.of_nat (length (body ++ footer))) by (rewrite !length_app; lia).
  pose proof (read_or_throw_ok f (body ++ footer) fs8 kMagic "NativeColumnar: read past end of file") as R8. rewrite L8 in R8. change (Z.of_nat 8) with 8 in R8.
  rewrite R8 by (rewrite Efb, <- !app_assoc; done). cbn [result_bind].
  assert (Ev : le_value fs8 = Z.of_nat (length footer)) by (apply le_bytes_small; lia). rewrite Ev.
  replace (Z.of_nat (length (body ++ footer)) - Z.of_nat (length footer)) with (Z.of_nat (length body)) by (rewrite length_app; lia).
  rewrite u64_small by lia. rewrite (read_or_throw_ok f body footer (fs8 ++ kMagic)) by done. cbn [result_bind].
  assert (Hc : 0 <= first_count tcs < 2 ^ 63).
  { destruct tcs as [|x tcs]; [simpl; lia|]. apply Forall_cons in Hsm as [[_ S2] _]. simpl. lia. }
  unfold footer. rewrite GetU64_Put by lia. cbn [result_bind].
  rewrite GetU64_Put by lia. cbn [result_bind]. rewrite Nat2Z.id, <- Hlm.
  pose proof (get_put_metas ms [] Hmeta) as Hg. rewrite app_nil_r in Hg. by rewrite Hg.
Qed.
(** ** Page accessors *)

Definition acc_ok (f : F) (comp : ICompression) (id : Z) (a : PageAccessor) (x : tcol) : Prop :=
  match a with
  | WholePageAccessor m t decoded => t = x.1 /\ described comp id (file_bytes f) m x /\ (decoded = None \/ decoded = Some (col_of x))
  | FixedWidthDirectAccessor m w => described comp id (file_bytes f) m x /\ id = 1 /\ w = FixedWidth x.1 /\ (0 < w)%nat
  end.

Lemma make_accessor_ok f comp id m x : described comp id (file_bytes f) m x ->
  exists a, MakeAccessor m x.1 = Ok a /\ acc_ok f comp id a x.
Proof.
  intros Hd. pose proof Hd as (H1 & H2 & _). unfold MakeAccessor. rewrite H1. change (Registry_GetCodec kWriteEncoding) with (Ok kPlain).
  cbn [result_bind]. change (codec_FixedWidth kPlain x.1) with (FixedWidth x.1). rewrite H2. unfold Compression_None.
  destruct (Nat.ltb_spec 0 (FixedWidth x.1)), (Z.eqb_spec id 1); simpl; eexists; (split; [reflexivity|]); simpl; auto.
Qed.

Lemma slice_slice {A} o L a n (l : list A) : (a + n <= L)%nat -> slice a n (slice o L l) = slice (o + a) n l.
Proof.
  intros Hle. apply list_eq. intros i. rewrite !lookup_slice. repeat case_decide; try lia; [|done]. f_equal. lia.
Qed.

Lemma concat_range (raws : list bytes) w i n : Forall (fun r => length r = w) raws -> (n + i <= length raws)%nat ->
  slice (i * w) (n * w) (concat raws) = concat (take n (drop i raws)).
Proof.
  intros Hw Hi. assert (E : concat raws = concat (take i raws) ++ concat (take n (drop i raws)) ++ concat (drop n (drop i raws))).
  { rewrite <- !concat_app, take_drop, take_drop. done. }
  assert (L1 : length (concat (take i raws)) = (i * w)%nat)
    by (rewrite (length_concat_fixed _ w) by (by apply Forall_take); rewrite length_take, Nat.min_l by lia; done).
  assert (L2 : length (concat (take n (drop i raws))) = (n * w)%nat)
    by (rewrite (length_concat_fixed _ w) by (by apply Forall_take, Forall_drop); rewrite length_take, length_drop, Nat.min_l by lia; done).
  rewrite E, slice_app_r by lia. rewrite L1, Nat.sub_diag, slice_app_l by lia. rewrite <- L2. apply slice_all.
Qed.

Lemma read_page_ok f comp id m x msg : Registry_GetCompression id = Ok comp -> described comp id (file_bytes f) m x ->
  exists st, read_or_throw f (m_offset m) (stored_size m) msg = Ok st /\ comp_Compress comp (page_of x.1 x.2) = Ok st /\
    st = slice (Z.to_nat (m_offset m)) (Z.to_nat (stored_size m)) (file_bytes f) /\
    Z.of_nat (length st) = stored_size m /\ comp_Decompress comp st (raw_size m) = Ok (page_of x.1 x.2).
Proof using All.
  intros Hc (H1 & H2 & H3 & H4 & H5 & H6 & H7 & H8). eexists. split.
  - unfold read_or_throw. rewrite read_at_spec by done.
    destruct (Z.leb_spec (m_offset m + stored_size m) (Z.of_nat (length (file_bytes f)))); [done | lia].
  - split_and!; [done | done | rewrite length_slice by lia; lia |]. rewrite H5. by apply (compression_ok id comp Hc).
Qed.

Lemma read_rows_whole f comp id m t decoded x first n : Registry_GetCompression id = Ok comp -> acc_ok f comp id (WholePageAccessor m t decoded) x -> tcol_ok x -> tcol_small x ->
  Z.of_nat (length (file_bytes f)) < 2 ^ 63 -> (n + first <= length x.2)%nat ->
  exists a', ReadRows f (WholePageAccessor m t decoded) (Z.of_nat first) (Z.of_nat n) (Column_new x.1) = Ok (a', column_of x.1 (take n (drop first x.2))) /\
    acc_ok f comp id a' x.
Proof using All.
  intros Hc Ha (Ht & Hw & Hb) [Hs1 Hs2] Hlen Hn. simpl in Ha |- *; rewrite <- column_of_nil.
  destruct Ha as (-> & Hd & Hdec). pose proof Hd as (He & Hcm & _ & _ & _ & Hvc & _ & _).
  assert (Ed : match decoded with Some d => Ok d | None => decode_page f m x.1 end = Ok (col_of x)).
  { destruct Hdec as [-> | ->]; [|done]. unfold decode_page.
    destruct (read_page_ok f comp id m x "NativeColumnar: truncated column page" Hc Hd) as (st & R & _ & _ & _ & Dc).
    rewrite R, Hcm, Hc, He. cbn [result_bind]. rewrite Dc. cbn [result_bind].
    change (Registry_GetCodec kWriteEncoding) with (Ok kPlain). cbn [result_bind].
    change (codec_Decode kPlain) with PlainCodec.Decode. rewrite Hvc, <- column_of_nil, Decode_ok by (done || lia). done. }
  rewrite Ed. cbn [result_bind]. unfold col_of at 1. rewrite !Nat2Z.id, AppendRange_ok by done. cbn [result_bind].
  eexists. split; [done|]. simpl. auto.
Qed.

Lemma read_rows_direct f comp id m w x first n : Registry_GetCompression id = Ok comp -> acc_ok f comp id (FixedWidthDirectAccessor m w) x -> tcol_ok x -> tcol_small x ->
  Z.of_nat (length (file_bytes f)) < 2 ^ 63 -> (n + first <= length x.2)%nat ->
  exists a', ReadRows f (FixedWidthDirectAccessor m w) (Z.of_nat first) (Z.of_nat n) (Column_new x.1) = Ok (a', column_of x.1 (take n (drop first x.2))) /\
    acc_ok f comp id a' x.
Proof using All.
  intros Hc Ha (Ht & Hw & Hb) [Hs1 Hs2] Hlen Hn. simpl in Ha |- *; rewrite <- column_of_nil.
  destruct Ha as (Hd & Hid & Hwd & Hwp). pose proof Hd as (He & Hcm & Ho & _ & _ & Hvc & Hfit & _).
  assert (Ev : is_var x.1 = false) by (destruct x.1; simpl in *; done || lia).
  destruct (read_page_ok f comp id m x "" Hc Hd) as (st & _ & Hst & Est & Lst & _).
  assert (st = concat x.2) as Hcat.
  { rewrite Hid in Hc. injection Hc as <-. simpl in Hst. injection Hst as <-. by apply page_fixed. }
  assert (Lc : length (concat x.2) = (length x.2 * w)%nat) by (rewrite Hwd; by apply wf_fixed_length).
  assert (Hbnd : (n * w + first * w <= length x.2 * w)%nat) by nia.
  assert (Hlx : Forall (fun r => length r = w) x.2).
  { eapply Forall_impl; [exact Hw|]. intros r Hr. rewrite Hwd. destruct x.1; simpl in *; try done; apply Hr. }
  set (part := take n (drop first x.2)).
  assert (Hpart : Forall (wf_raw x.1) part) by (by apply Forall_take, Forall_drop).
  assert (Epart : slice (Z.to_nat (m_offset m) + first * w) (n * w) (file_bytes f) = page_of x.1 part).
  { rewrite page_fixed by done. unfold part. rewrite <- (concat_range x.2 w first n) by done. rewrite <- Hcat, Est, slice_slice; [done|].
    rewrite Hcat in Lst. lia. }
  assert (Lp : length (page_of x.1 part) = (n * w)%nat).
  { rewrite page_fixed by done. rewrite (wf_fixed_length x.1 part), <- Hwd by done. unfold part. rewrite length_take, length_drop. nia. }
  rewrite Hcat in Lst. rewrite <- !Nat2Z.inj_mul, !u64_small by lia.
  unfold read_or_throw. rewrite read_at_spec by lia.
  destruct (Z.leb_spec (m_offset m + Z.of_nat (first * w) + Z.of_nat (n * w)) (Z.of_nat (length (file_bytes f)))); [|lia].
  cbn [result_bind]. rewrite He. change (Registry_GetCodec kWriteEncoding) with (Ok kPlain). cbn [result_bind].
  change (codec_Decode kPlain) with PlainCodec.Decode.
  replace (slice (Z.to_nat (m_offset m + Z.of_nat (first * w))) (Z.to_nat (Z.of_nat (n * w))) (file_bytes f)) with (page_of x.1 part)
    by (rewrite <- Epart; f_equal; lia).
  assert (Lpart : length part = n) by (unfold part; rewrite length_take, length_drop; lia).
  replace (Z.of_nat n) with (Z.of_nat (length part)) by lia. rewrite Decode_ok by (done || lia). cbn [result_bind app]. eexists. split; [done|]. simpl. auto.
Qed.

Lemma read_rows_acc f comp id a x first n : Registry_GetCompression id = Ok comp -> acc_ok f comp id a x -> tcol_ok x -> tcol_small x ->
  Z.of_nat (length (file_bytes f)) < 2 ^ 63 -> (n + first <= length x.2)%nat ->
  exists a', ReadRows f a (Z.of_nat first) (Z.of_nat n) (Column_new x.1) = Ok (a', column_of x.1 (take n (drop first x.2))) /\
    acc_ok f comp id a' x.
Proof using All.
  destruct a; [apply read_rows_whole | apply read_rows_direct].
Qed.

(** ** Tables *)

Context (fs : Schema).
Implicit Types (rows : list (list bytes)) (projection : list Z).

Definition tcol_at rows (p : Z) : tcol := (type_at fs p, cell_at p <$> rows).
Definition all_fields : list Z := seqZ 0 (Z.of_nat (length fs)).

Definition table_ok rows : Prop :=
  Forall (fun f => f_type f <> Invalid) fs /\ Forall (fun raws => wf_row fs raws) rows /\ rows_fit fs rows.

(** [fb] is what a writer seals after the rows [rows]. *)
Definition sealed (fb : bytes) rows : Prop :=
  table_ok rows /\ Z.of_nat (length fb) < 2 ^ 63 /\ exists id, seal id (col_of <$> (tcol_at rows <$> all_fields)) = Ok fb.

Lemma cols_of_tcols projection rows : cols_of fs projection rows = col_of <$> (tcol_at rows <$> projection).
Proof. unfold cols_of. by rewrite <- list_fmap_compose. Qed.

Lemma all_in_schema : in_schema fs all_fields.
Proof. apply Forall_forall. intros p Hp%elem_of_seqZ. lia. Qed.

Lemma length_wire_pos t raw : wf_raw t raw -> (1 <= length (wire t raw))%nat.
Proof. destruct t; simpl; try done; unfold wire; simpl; try (intros (-> & _)); try lia; intros _; rewrite ?length_app, ?length_le_bytes; lia. Qed.

Lemma cell_wire raws p : wf_row fs raws -> 0 <= p < Z.of_nat (length fs) ->
  (length (wire (type_at fs p) (cell_at p raws)) <= length (wire_row fs raws))%nat.
Proof.
  intros Hw Hp. destruct (lookup_lt_is_Some_2 fs (Z.to_nat p)) as [f Hf]; [lia|].
  destruct (Forall2_lookup_l _ _ _ _ _ Hw Hf) as (r & Hr & Hwr). unfold type_at, cell_at. rewrite Hf, Hr. simpl.
  clear Hp Hwr. revert Hf Hr. generalize (Z.to_nat p). induction Hw as [|f' r' fs' raws _ _ IH]; intros [|i] Hf Hr; simpl in *; try done.
  - injection Hf as ->. injection Hr as ->. rewrite length_app. lia.
  - specialize (IH i Hf Hr). rewrite length_app. lia.
Qed.

Lemma type_at_valid p : Forall (fun f => f_type f <> Invalid) fs -> 0 <= p < Z.of_nat (length fs) -> type_at fs p <> Invalid.
Proof.
  intros Hv Hp. unfold type_at. destruct (lookup_lt_is_Some_2 fs (Z.to_nat p)) as [f Hf]; [lia|]. rewrite Hf.
  by apply (Forall_lookup_1 _ _ _ _ Hv Hf).
Qed.

Lemma page_small rows p : Forall (fun raws => wf_row fs raws) rows -> 0 <= p < Z.of_nat (length fs) ->
  (length rows <= length (page_of (type_at fs p) (cell_at p <$> rows)) <= length (concat (wire_row fs <$> rows)))%nat.
Proof.
  intros Hw Hp. unfold page_of. induction Hw as [|raws rows Hr _ IH]; [simpl; lia|].
  destruct (cell_at_wf fs raws p Hr Hp) as [H1 _]. pose proof (length_wire_pos _ _ H1). pose proof (cell_wire raws p Hr Hp).
  rewrite !fmap_cons. cbn [concat length]. rewrite !length_app. lia.
Qed.

Lemma tcol_at_ok rows p : table_ok rows -> 0 <= p < Z.of_nat (length fs) -> tcol_ok (tcol_at rows p) /\ tcol_small (tcol_at rows p).
Proof.
  intros (Hv & Hw & Hfit) Hp. destruct (cells_fit fs rows p Hw Hp) as [H1 H2]. unfold rows_fit in Hfit.
  pose proof (page_small rows p Hw Hp). split; split_and!; simpl; rewrite ?length_fmap; try lia; [by apply type_at_valid | done].
Qed.

Lemma tcols_ok rows projection : table_ok rows -> in_schema fs projection ->
  Forall tcol_ok (tcol_at rows <$> projection) /\ Forall tcol_small (tcol_at rows <$> projection).
Proof.
  intros Ht Hin. split; apply Forall_fmap; eapply Forall_impl; try exact Hin; intros p Hp; by apply (tcol_at_ok rows p).
Qed.

(** *** Opening a reader *)

Definition reader_ok (r : FileReader) rows projection : Prop :=
  exists comp id, Registry_GetCompression id = Ok comp /\ table_ok rows /\ Z.of_nat (length (file_bytes (r_in r))) < 2 ^ 63 /\
    r_projection r = projection /\ r_types r = type_at fs <$> projection /\ r_row_count r = Z.of_nat (length rows) /\
    Forall2 (acc_ok (r_in r) comp id) (accessors_ r) (tcol_at rows <$> projection).

Lemma project_metas_ok comp id fb metas rows projection : Forall2 (described comp id fb) metas (tcol_at rows <$> all_fields) ->
  in_schema fs projection ->
  exists ms, project_metas fs metas projection = Ok (type_at fs <$> projection, ms) /\
    Forall2 (described comp id fb) ms (tcol_at rows <$> projection).
Proof.
  intros HF Hin. assert (Hl : length metas = length fs).
  { rewrite (Forall2_length _ _ _ HF), length_fmap. unfold all_fields. rewrite length_seqZ. lia. }
  induction Hin as [|p projection Hp _ (ms & E & IH)]; [by exists []|].
  destruct (lookup_lt_is_Some_2 fs (Z.to_nat p)) as [f Hf]; [lia|].
  assert (Hx : (tcol_at rows <$> all_fields) !! Z.to_nat p = Some (tcol_at rows p)).
  { unfold all_fields. rewrite list_lookup_fmap, lookup_seqZ_lt by lia. simpl. do 2 f_equal. lia. }
  destruct (Forall2_lookup_r _ _ _ _ _ HF Hx) as (m & Hm & Hd).
  exists (m :: ms). cbn [project_metas]. rewrite Hl. destruct (Z.ltb_spec p 0); [lia|]. destruct (Z.leb_spec (Z.of_nat (length fs)) p); [lia|].
  cbn [orb]. rewrite Hf, Hm, E. cbn [result_bind]. split; [|by constructor].
  rewrite fmap_cons. do 3 f_equal. unfold type_at. by rewrite Hf.
Qed.

Lemma make_accessors_ok f comp id ms rows projection : Forall2 (described comp id (file_bytes f)) ms (tcol_at rows <$> projection) ->
  exists accs, make_accessors ms (type_at fs <$> projection) = Ok accs /\ Forall2 (acc_ok f comp id) accs (tcol_at rows <$> projection).
Proof.
  revert ms. induction projection as [|p projection IH]; intros ms HF.
  { apply Forall2_nil_inv_r in HF as ->. by exists []. }
  rewrite fmap_cons in HF. apply Forall2_cons_inv_r in HF as (m & ms' & Hd & HF & ->). rewrite !fmap_cons.
  destruct (make_accessor_ok f comp id m _ Hd) as (a & Ea & Ha). destruct (IH ms' HF) as (accs & E & Haccs).
  exists (a :: accs). cbn [make_accessors]. change (type_at fs p) with (tcol_at rows p).1. rewrite Ea. cbn [result_bind].
  rewrite E. split; [done | by constructor].
Qed.

Lemma open_reader_ok s file fb rows projection fmt : stored s !! file = Some fb -> sealed fb rows -> fs <> [] ->
  in_schema fs projection -> nf_schema fmt = fs ->
  exists r s', OpenReader fmt file projection s = (Ok (Some r), s') /\ stored s' = stored s /\ reader_ok r rows projection.
Proof using All.
  intros Hst (Hok & Hlen & id & Hseal) Hne Hin Hfs. unfold OpenReader.
  destruct (open_input_spec s file) as (o & s' & E & Es & Ho). rewrite Hst in Ho. destruct o as [f|]; [|done]. subst fb.
  rewrite (bind_ok _ _ _ _ _ E). destruct (tcols_ok rows all_fields Hok all_in_schema) as [T1 T2].
  destruct (parse_footer_ok f id _ Hseal T1 T2 Hlen) as (comp & ms & Hc & Hp & HF). rewrite Hp.
  rewrite (bind_ok _ _ s' (first_count (tcol_at rows <$> all_fields), ms) s') by done.
  destruct (project_metas_ok comp id _ ms rows projection HF Hin) as (ms' & Em & HF'). rewrite Hfs, Em.
  rewrite (bind_ok _ _ s' (type_at fs <$> projection, ms') s') by done.
  destruct (make_accessors_ok f comp id ms' rows projection HF') as (accs & Ea & Haccs). rewrite Ea.
  rewrite (bind_ok _ _ s' accs s') by done. eexists _, s'. split; [done|]. split; [done|].
  exists comp, id. split_and!; auto. cbn [r_row_count]. unfold all_fields.
  destruct fs as [|f0 fs']; [done|]. rewrite (seqZ_cons 0) by (simpl; lia). simpl. by rewrite length_fmap.
Qed.

Lemma open_reader_missing s file fmt projection : stored s !! file = None ->
  exists s', OpenReader fmt file projection s = (Ok None, s') /\ stored s' = stored s.
Proof using All.
  intros Hst. unfold OpenReader. destruct (open_input_spec s file) as (o & s' & E & Es & Ho). rewrite Hst in Ho.
  destruct o; [done|]. rewrite (bind_ok _ _ _ _ _ E). by exists s'.
Qed.

(** *** Reading a range *)

Lemma read_columns_ok f comp id rows projection accs first n : Registry_GetCompression id = Ok comp -> table_ok rows ->
  Z.of_nat (length (file_bytes f)) < 2 ^ 63 -> in_schema fs projection -> (n + first <= length rows)%nat ->
  Forall2 (acc_ok f comp id) accs (tcol_at rows <$> projection) ->
  exists accs', read_columns f (Z.of_nat first) (Z.of_nat n) (type_at fs <$> projection) accs =
      Ok (accs', cols_of fs projection (take n (drop first rows))) /\
    Forall2 (acc_ok f comp id) accs' (tcol_at rows <$> projection).
Proof using All.
  intros Hc Hok Hlen Hin Hn. revert accs. induction Hin as [|p projection Hp _ IH]; intros accs HF.
  { apply Forall2_nil_inv_r in HF as ->. by exists []. }
  rewrite fmap_cons in HF. apply Forall2_cons_inv_r in HF as (a & accs' & Ha & HF & ->). rewrite !fmap_cons. cbn [read_columns].
  destruct (tcol_at_ok rows p Hok Hp) as [T1 T2].
  destruct (read_rows_acc f comp id a (tcol_at rows p) first n Hc Ha T1 T2 Hlen) as (a2 & E & Ha2); [simpl; by rewrite length_fmap|].
  change (type_at fs p) with (tcol_at rows p).1. rewrite E. cbn [result_bind].
  destruct (IH accs' HF) as (accs2 & E2 & HF2). rewrite E2. cbn [result_bind]. exists (a2 :: accs2). split; [|by constructor].
  unfold cols_of. rewrite fmap_cons. do 4 f_equal. simpl. by rewrite fmap_take, fmap_drop.
Qed.

Lemma read_range_ok r rows projection first n : reader_ok r rows projection -> in_schema fs projection ->
  (0 < n)%nat -> (n + first <= length rows)%nat ->
  exists r', ReadRange r (Z.of_nat first) (Z.of_nat n) =
      Ok (Some (mkChunk projection (cols_of fs projection (take n (drop first rows))) n), r') /\ reader_ok r' rows projection.
Proof using All.
  intros (comp & id & Hc & Hok & Hlen & Hpr & Hty & Hrc & HF) Hin Hpos Hn. unfold ReadRange. rewrite Hrc, Hty, Hpr.
  destruct (Z.leb_spec (Z.of_nat (length rows)) (Z.of_nat first)); [lia|]. rewrite Z.min_l by lia.
  destruct (Z.eqb_spec (Z.of_nat n) 0); [lia|].
  destruct (read_columns_ok (r_in r) comp id rows projection (accessors_ r) first n Hc Hok Hlen Hin Hn HF) as (accs & E & HF').
  rewrite E. cbn [result_bind]. rewrite Nat2Z.id. eexists. split; [done|]. exists comp, id. by split_and!.
Qed.

(** *** The cursor *)

Context (projection : list Z) (proj_in : in_schema fs projection) (fs_nonempty : fs <> []).

(** A file name of the scan and the rows behind it: a missing file has none. *)
Definition file_rows (files : gmap string bytes) (file : string) rows : Prop :=
  match files !! file with Some fb => sealed fb rows | None => rows = [] end.

(** The rows that are left in the open file. *)
Definition current_rows (c : ColumnarCursor) rows : Prop :=
  match reader_ c with
  | None => rows = []
  | Some r => exists all pos, reader_ok r all projection /\ cc_pos c = Z.of_nat pos /\ (pos <= length all)%nat /\ rows = drop pos all
  end.

Definition columnar_at (s : St) (c : ColumnarCursor) (out : list (list Value)) : Prop :=
  nf_schema (cc_fmt c) = fs /\ cc_projection c = projection /\ (0 < cc_batch_rows c)%nat /\
  exists cur tabs, current_rows c cur /\ Forall2 (file_rows (stored s)) (drop (next_file_ c) (cc_files c)) tabs /\
    out = project fs projection <$> (cur ++ concat tabs).

(** A batch from the open file, or the end of it. *)
Lemma read_batch_ok r c all pos : reader_ok r all projection -> cc_pos c = Z.of_nat pos -> (pos <= length all)%nat ->
  (0 < cc_batch_rows c)%nat ->
  exists o, read_batch r c = Ok o /\
  match o with
  | None => drop pos all = []
  | Some (chunk, c') => exists n r', let part := take n (drop pos all) in
      (0 < n)%nat /\ (n + pos <= length all)%nat /\ reader_ok r' all projection /\
      chunk = mkChunk projection (cols_of fs projection part) n /\
      c' = set_reader (Some r') (Z.of_nat (n + pos)) (next_file_ c) c
  end.
Proof using All.
  intros Hr Hpos Hle Hb. pose proof Hr as (comp & id & _ & (_ & Hw & Hfit) & _ & _ & _ & Hrc & _). unfold read_batch.
  rewrite Hrc, Hpos. destruct (Z.leb_spec (Z.of_nat (length all)) (Z.of_nat pos)).
  { exists None. split; [done|]. apply drop_ge. lia. }
  set (n := Nat.min (cc_batch_rows c) (length all - pos)).
  replace (Z.min (Z.of_nat (cc_batch_rows c)) (Z.of_nat (length all) - Z.of_nat pos)) with (Z.of_nat n) by lia.
  destruct (read_range_ok r all projection pos n Hr proj_in) as (r' & E & Hr'); [lia | lia |].
  rewrite E. cbn [result_bind]. eexists. split; [done|]. exists n, r'. split_and!; auto; [lia | lia |].
  f_equal. assert (Hfs : (length all <= length (concat (wire_row fs <$> all)))%nat).
  { assert (0 < length fs)%nat by (clear - fs_nonempty; destruct fs; [done | simpl; lia]).
    pose proof (page_small all 0 Hw ltac:(lia)). lia. }
  unfold rows_fit in Hfit. rewrite u64_small by lia. lia.
Qed.

Lemma part_ok all n pos : table_ok all -> (n + pos <= length all)%nat ->
  read_rows n 0 (cols_of fs projection (take n (drop pos all))) = Ok (project fs projection <$> take n (drop pos all)).
Proof using All.
  intros (_ & Hw & Hfit) Hn. rewrite <- (take_drop pos all) in Hfit. apply rows_fit_app in Hfit as [_ Hfit].
  rewrite <- (take_drop n (drop pos all)) in Hfit. apply rows_fit_app in Hfit as [Hfit _].
  assert (Hl : length (take n (drop pos all)) = n) by (rewrite length_take, length_drop; lia).
  rewrite <- Hl at 1. apply read_rows_ok; [by apply Forall_take, Forall_drop | done | done].
Qed.

(** What [Next] answers when the rows [out] are left. *)
Definition next_result (m : result (option Chunk * ColumnarCursor) * St) (out : list (list Value)) : Prop :=
  exists o c' s', m = (Ok (o, c'), s') /\
  match o with
  | None => out = [] /\ columnar_at s' c' []
  | Some chunk => exists out1 out2, out = out1 ++ out2 /\ out1 <> [] /\
      read_rows (row_count chunk) 0 (columns chunk) = Ok out1 /\ columnar_at s' c' out2
  end.

(** The step with a reader, given that the rest of the loop is right. *)
Lemma finish_ok r c s all pos tabs (next : ColumnarCursor -> M St (option Chunk * ColumnarCursor)) :
  nf_schema (cc_fmt c) = fs -> cc_projection c = projection -> (0 < cc_batch_rows c)%nat ->
  reader_ok r all projection -> cc_pos c = Z.of_nat pos -> (pos <= length all)%nat ->
  Forall2 (file_rows (stored s)) (drop (next_file_ c) (cc_files c)) tabs ->
  (columnar_at s (set_reader None (cc_pos c) (next_file_ c) c) (project fs projection <$> concat tabs) ->
   next_result (next (set_reader None (cc_pos c) (next_file_ c) c) s) (project fs projection <$> concat tabs)) ->
  next_result ((let* o := lift (read_batch r c) in
                match o with
                | Some (chunk, c) => ret (Some chunk, c)
                | None => next (set_reader None (cc_pos c) (next_file_ c) c)
                end) s) (project fs projection <$> (drop pos all ++ concat tabs)).
Proof using All.
  intros Hfs Hpr Hb Hr Hpos Hle HT Hnext.
  destruct (read_batch_ok r c all pos Hr Hpos Hle Hb) as (o & E & Ho). rewrite E, (bind_ok _ _ s o s) by done.
  destruct o as [[chunk c']|].
  - destruct Ho as (n & r' & Hn0 & Hn & Hr' & -> & ->). eexists _, _, s. split; [done|].
    exists (project fs projection <$> take n (drop pos all)), (project fs projection <$> (drop (n + pos) all ++ concat tabs)).
    pose proof Hr as (_ & _ & _ & Hok & _). split_and!.
    + rewrite <- fmap_app, app_assoc. do 2 f_equal. rewrite (Nat.add_comm n pos), <- drop_drop. by rewrite take_drop.
    + destruct (drop pos all) as [|x l] eqn:Ed; [apply (f_equal length) in Ed; rewrite length_drop in Ed; simpl in Ed; lia|].
      by destruct n; [lia|].
    + cbn [row_count columns]. by apply part_ok.
    + split_and!; auto. exists (drop (n + pos) all), tabs. split_and!; auto. exists all, (n + pos)%nat. by split_and!.
  - rewrite Ho. cbn [app]. apply Hnext. split_and!; auto. exists [], tabs. by split_and!.
Qed.

Lemma next_loop_ok fuel : forall s c out, columnar_at s c out ->
  (match reader_ c with Some _ => 1 | None => 0 end + length (drop (next_file_ c) (cc_files c)) < fuel)%nat ->
  next_result (next_loop fuel c s) out.
Proof using All.
  induction fuel as [|fuel IH]; intros s c out (Hfs & Hpr & Hb & cur & tabs & Hcur & HT & ->) Hfuel; [lia|].
  cbn [next_loop]. unfold current_rows in Hcur. destruct (reader_ c) as [r|] eqn:Er.
  - destruct Hcur as (all & pos & Hr & Hpos & Hle & ->). eapply finish_ok; eauto. intros Hat. apply IH; [done|]. simpl. lia.
  - subst cur. cbn [app]. destruct (cc_files c !! next_file_ c) as [file|] eqn:Ef; cycle 1.
    + rewrite drop_ge in HT by (by apply lookup_ge_None). apply Forall2_nil_inv_l in HT as ->.
      exists None, c, s. split; [done|]. split; [done|]. split_and!; auto. exists [], []. split_and!; [|by rewrite drop_ge by (by apply lookup_ge_None) | done].
      unfold current_rows. by rewrite Er.
    + rewrite (drop_S _ _ _ Ef) in HT, Hfuel. cbn [length] in Hfuel. apply Forall2_cons_inv_l in HT as (rows & tabs' & Hrows & HT & ->).
      unfold file_rows in Hrows. destruct (stored s !! file) as [fb|] eqn:Est.
      * destruct (open_reader_ok s file fb rows (cc_projection c) (cc_fmt c) Est Hrows fs_nonempty) as (r & s' & E & Es & Hr);
          [by rewrite Hpr | done |].
        rewrite (bind_ok _ _ _ _ _ E). rewrite Hpr in Hr. cbn [concat]. rewrite <- (drop_0 rows).
        eapply (finish_ok r (set_reader (Some r) 0 (S (next_file_ c)) c) s' rows 0 tabs' (next_loop fuel)); auto; [lia | by rewrite Es |].
        intros Hat. apply IH; [done|]. simpl. lia.
      * subst rows. cbn [concat app]. destruct (open_reader_missing s file (cc_fmt c) (cc_projection c) Est) as (s' & E & Es).
        rewrite (bind_ok _ _ _ _ _ E). apply IH; [|simpl; lia]. split_and!; auto. exists [], tabs'. split_and!; [done | by rewrite Es | done].
Qed.

#[global] Program Instance columnar_spec : BatchCursorSpec St ColumnarCursor := {| batch_at := columnar_at |}.
Next Obligation.
  intros s c Hat. simpl. unfold Columnar_Next.
  destruct (next_loop_ok (S (S (length (cc_files c)))) s c [] Hat) as (o & c' & s' & E & Ho).
  { rewrite length_drop. destruct (reader_ c); lia. }
  destruct o as [chunk|]; [|exists c', s'; split; [done | apply Ho]].
  destruct Ho as (r1 & r2 & Er & Hne & _). by destruct r1.
Qed.
Next Obligation.
  intros s c out Hat Hne. simpl. unfold Columnar_Next.
  destruct (next_loop_ok (S (S (length (cc_files c)))) s c out Hat) as (o & c' & s' & E & Ho).
  { rewrite length_drop. destruct (reader_ c); lia. }
  destruct o as [chunk|]; [|by destruct Ho]. destruct Ho as (r1 & r2 & -> & Hr & Hread & Hat').
  exists chunk, c', s', r1, r2. by split_and!.
Qed.

(** *** The writer *)

Lemma new_columns_of : (fun f => Column_new (f_type f)) <$> fs = cols_of fs all_fields [].
Proof.
  apply list_eq. intros i. unfold cols_of, all_fields. rewrite !list_lookup_fmap.
  destruct (fs !! i) as [f|] eqn:Hf.
  - pose proof (lookup_lt_Some _ _ _ Hf). rewrite lookup_seqZ_lt by lia. simpl. f_equal. unfold type_at.
    replace (Z.to_nat (0 + Z.of_nat i)) with i by lia. by rewrite Hf, column_of_nil.
  - apply lookup_ge_None in Hf. by rewrite lookup_seqZ_ge by lia.
Qed.

Lemma append_columns_ok rows more l : table_ok (rows ++ more) -> in_schema fs l ->
  append_columns (cols_of fs l rows) (cols_of fs l more) = Ok (cols_of fs l (rows ++ more)).
Proof.
  intros (Hv & Hw & Hfit) Hin. apply Forall_app in Hw as [_ Hw]. apply rows_fit_app in Hfit as [_ Hfit].
  induction Hin as [|p l Hp _ IH]; [done|]. unfold cols_of in *. rewrite !fmap_cons. cbn [append_columns].
  destruct (tcol_at_ok more p ltac:(done) Hp) as [(T1 & T2 & T3) _]. rewrite c_size_of.
  rewrite AppendRange_ok by (done || lia). cbn [result_bind]. rewrite IH. cbn [result_bind].
  rewrite drop_0, firstn_all, fmap_app. done.
Qed.

(** A client that writes the batches and closes. *)
Fixpoint write_batches (batches : list (list (list bytes))) (w : @ChunkWriter Out) : result (@ChunkWriter Out) :=
  match batches with
  | [] => Ok w
  | rows :: batches =>
      let? w := Write (mkChunk all_fields (cols_of fs all_fields rows) (length rows)) w in write_batches batches w
  end.

Definition write_file (fmt : FileFormat) (path : string) (batches : list (list (list bytes))) : M St unit :=
  let* w := OpenWriter fmt path in
  let* w := lift (write_batches batches w) in
  let* _ := Writer_Close w in
  ret tt.

Lemma write_batches_ok batches : forall (out : Out) id rows, table_ok (rows ++ concat batches) ->
  write_batches batches (mkWriter out id (cols_of fs all_fields rows) false) =
    Ok (mkWriter out id (cols_of fs all_fields (rows ++ concat batches)) false).
Proof.
  induction batches as [|more batches IH]; intros out id rows Hok; cbn [write_batches concat]; [by rewrite app_nil_r|].
  cbn [concat] in Hok. rewrite app_assoc in Hok. unfold Write. cbn [columns cols_ w_out w_compression w_closed].
  unfold cols_of at 1 2. rewrite !length_fmap, Nat.eqb_refl. cbn [negb].
  assert (Hok1 : table_ok (rows ++ more)).
  { destruct Hok as (Hv & Hw & Hfit). apply Forall_app in Hw as [Hw _]. apply rows_fit_app in Hfit as [Hfit _]. done. }
  rewrite append_columns_ok by (done || apply all_in_schema). cbn [result_bind]. rewrite IH by done. by rewrite app_assoc.
Qed.

Lemma seal_total id rows : table_ok rows -> id = 1 \/ id = 2 -> (forall b, compress2 b <> None) ->
  exists fb, seal id (col_of <$> (tcol_at rows <$> all_fields)) = Ok fb.
Proof.
  intros Hok Hid Hz. unfold seal. change (Registry_GetCodec kWriteEncoding) with (Ok kPlain). cbn [result_bind].
  assert (exists comp, Registry_GetCompression id = Ok comp /\ forall b, exists z, comp_Compress comp b = Ok z) as (comp & -> & Hc).
  { destruct Hid as [-> | ->]; eexists; (split; [reflexivity|]); intros b; simpl; [eauto|]. unfold Zlib_Compress.
    specialize (Hz b). destruct (compress2 b); [eauto | done]. }
  cbn [result_bind]. destruct (tcols_ok rows all_fields Hok all_in_schema) as [HT _].
  assert (forall tcs body, Forall tcol_ok tcs -> exists r, write_pages kPlain comp id (col_of <$> tcs) body = Ok r) as HP.
  { induction tcs as [|[t raws] tcs IH]; intros body Ht; [by eexists|]. apply Forall_cons in Ht as [(T1 & T2 & T3) Ht].
    rewrite fmap_cons. cbn [write_pages]. change (codec_Encode kPlain) with PlainCodec.Encode. unfold col_of at 1.
    rewrite Encode_ok by done. cbn [result_bind]. destruct (Hc (page_of t raws)) as [z Ez]. cbn [fst snd]. rewrite Ez. cbn [result_bind].
    destruct (IH (body ++ z) Ht) as [[b2 ms2] E2]. rewrite E2. by eexists. }
  destruct (HP _ kMagic HT) as [[body ms] E]. rewrite E. by eexists.
Qed.

Lemma write_file_ok fmt path batches s : nf_schema fmt = fs -> table_ok (concat batches) ->
  write_compression_ fmt = 1 \/ write_compression_ fmt = 2 -> (forall b, compress2 b <> None) ->
  exists s' fb, write_file fmt path batches s = (Ok tt, s') /\ stored s' = <[path := fb]> (stored s) /\
    (Z.of_nat (length fb) < 2 ^ 63 -> sealed fb (concat batches)).
Proof using HSt.
  intros Hfs Hok Hid Hz. unfold write_file, OpenWriter.
  destruct (open_output_spec s path) as (o & s1 & E1 & S1 & O1). rewrite (bind_ok _ _ s (mkWriter o (write_compression_ fmt) (cols_of fs all_fields []) false) s1);
    [|rewrite (bind_ok _ _ _ _ _ E1), Hfs, new_columns_of; done].
  pose proof (write_batches_ok batches o (write_compression_ fmt) [] Hok) as Ew. cbn [app] in Ew. rewrite Ew.
  rewrite (bind_ok _ _ s1 (mkWriter o (write_compression_ fmt) (cols_of fs all_fields (concat batches)) false) s1) by done.
  unfold Writer_Close. cbn [w_closed w_compression cols_ w_out].
  destruct (seal_total (write_compression_ fmt) (concat batches) Hok Hid Hz) as [fb Efb].
  destruct (append_spec s1 o fb _ _ O1) as (o2 & s2 & E2 & S2 & O2).
  destruct (close_spec s2 o2 _ _ _ O2) as (o3 & s3 & E3 & S3 & _).
  erewrite bind_ok; cycle 1.
  { rewrite cols_of_tcols, Efb. rewrite (bind_ok _ _ s1 fb s1) by done. rewrite (bind_ok _ _ _ _ _ E2), (bind_ok _ _ _ _ _ E3). reflexivity. }
  exists s3, fb. split_and!; [done | by rewrite S3, S2, S1 |]. intros Hl. split_and!; auto. by exists (write_compression_ fmt).
Qed.

End Files.

Definition batch_raws (fs : Schema) (tabs : list (list (list Value))) : list (list (list bytes)) :=
  map (fun rows : list (list Value) => raws_of fs <$> rows) tabs.

Lemma concat_batch_raws fs tabs : concat (batch_raws fs tabs) = raws_of fs <$> concat tabs.
Proof. induction tabs as [|rows tabs IH]; [done|]. simpl. fold (batch_raws fs tabs). by rewrite IH, fmap_app. Qed.

Lemma scan_files_ok `{Zl : !Zlib} {HZ : ZlibSpec} {St F Out : Type} `{IS : !IStorage St F Out} {HSt : StorageSpec St F Out}
    (fmt : FileFormat) (files : list string) (tabs : list (list (list Value))) (projection : list Z) (s : St) :
  let fs := nf_schema fmt in
  fs <> [] -> in_schema fs projection -> Forall (fun row => row_ok fs row) (concat tabs) ->
  Forall2 (file_rows fs (stored s)) files (batch_raws fs tabs) ->
  exists s', CollectProjected (S (length (concat tabs))) (fun p => ret (Columnar_Scan fmt files p)) projection s =
    (Ok (pick projection <$> concat tabs), s').
Proof.
  intros fs Hne Hin Hrows HT. unfold CollectProjected. rewrite (bind_ok _ _ s (Columnar_Scan fmt files projection) s) by done.
  destruct (@collect_ok _ _ _ (columnar_spec fs projection Hin Hne) s (Columnar_Scan fmt files projection) (pick projection <$> concat tabs)
    (S (length (concat tabs)))) as (c' & s' & E & _); [|rewrite length_fmap; lia | eauto].
  split_and!; [done | done | unfold Columnar_Scan; simpl; destruct (Nat.eqb_spec (nf_batch_rows fmt) 0); lia |].
  exists [], (batch_raws fs tabs). split_and!; [done | done |].
  cbn [app]. by rewrite concat_batch_raws, project_rows.
Qed.

(** ** Properties *)

(** Scanning a set of columnar files returns, file by file, exactly the
    projected cells of the rows sealed in each (a missing file counts as empty),
    whatever the compression of each file, the batch size, and the projection,
    repeated fields included. *)
Theorem columnar_scan_correct `{Zl : !Zlib} {HZ : ZlibSpec} {St F Out : Type} `{IS : !IStorage St F Out} {HSt : StorageSpec St F Out}
    (fmt : FileFormat) (files : list string) (tabs : list (list (list Value))) (projection : list Z) (s : St) :
  let fs := nf_schema fmt in
  fs <> [] -> in_schema fs projection -> Forall (fun row => row_ok fs row) (concat tabs) ->
  Forall2 (file_rows fs (stored s)) files (batch_raws fs tabs) ->
  exists s', CollectProjected (S (length (concat tabs))) (fun p => ret (Columnar_Scan fmt files p)) projection s =
    (Ok (pick projection <$> concat tabs), s').
Proof. apply scan_files_ok. Qed.

(** C24. A columnar file is a faithful copy of the rows written to it: writing
    batches and closing succeeds and publishes one file, and scanning that file
    with any projection gives the projected rows of all batches in order. *)
Theorem columnar_write_then_scan `{Zl : !Zlib} {HZ : ZlibSpec} {St F Out : Type} `{IS : !IStorage St F Out} {HSt : StorageSpec St F Out}
    (fmt : FileFormat) (path : string) (batches : list (list (list Value))) (s : St) :
  let fs := nf_schema fmt in
  fs <> [] -> Forall (fun f => f_type f <> Invalid) fs -> Forall (fun row => row_ok fs row) (concat batches) ->
  rows_fit fs (raws_of fs <$> concat batches) ->
  write_compression_ fmt = Compression_None \/ write_compression_ fmt = Compression_Zlib -> (forall b, compress2 b <> None) ->
  exists s1 fb, write_file fs fmt path (batch_raws fs batches) s = (Ok tt, s1) /\ stored s1 = <[path := fb]> (stored s) /\
    (Z.of_nat (length fb) < 2 ^ 63 -> forall projection, in_schema fs projection ->
      exists s2, CollectProjected (S (length (concat batches))) (fun p => ret (Columnar_Scan fmt [path] p)) projection s1 =
        (Ok (pick projection <$> concat batches), s2)).
Proof.
  intros fs Hne Hv Hrows Hfit Hid Hz.
  assert (Hok : table_ok fs (concat (batch_raws fs batches))).
  { rewrite concat_batch_raws. split_and!; [done | by apply raws_rows | done]. }
  destruct (write_file_ok fs fmt path (batch_raws fs batches) s) as (s1 & fb & E & Es & Hsealed); [done | done | done | done |].
  exists s1, fb. split_and!; [done | done |]. intros Hl projection Hin.
  destruct (scan_files_ok fmt [path] [concat batches] projection s1 Hne Hin) as (s2 & E2).
  { simpl. by rewrite app_nil_r. }
  { constructor; [|constructor]. unfold file_rows. rewrite Es, lookup_insert_eq. rewrite concat_batch_raws in Hsealed. by apply Hsealed. }
  simpl in E2. rewrite app_nil_r in E2. eauto.
Qed.

(** A codec that packs nothing stands in for zlib in the examples. *)
Definition id_zlib : Zlib := {| compress2 := fun b => Some b; uncompress := fun b _ => Some b |}.

Lemma id_zlib_spec : @ZlibSpec id_zlib.
Proof. constructor. by intros b z [= ->]. Qed.

Definition demo_schema : Schema := [mkField "id" Int32; mkField "name" String_].
Definition demo_format (comp : Z) : FileFormat := mkFormat demo_schema comp 2.
Definition demo_rows : list (list Value) :=
  [[Value_Int32 1; Value_String [Byte.x61]]; [Value_Int32 (-2); Value_String []]; [Value_Int32 3; Value_String [Byte.x62; Byte.x63]]].

Lemma demo_rows_ok : Forall (fun row => row_ok demo_schema row) demo_rows.
Proof.
  repeat constructor; simpl; [by exists 1 | by exists [Byte.x61] | by exists (-2) | by exists [] | by exists 3 | by exists [Byte.x62; Byte.x63]].
Qed.

Lemma columnar_write_then_scan_witness :
  exists s1 fb, @write_file id_zlib _ _ _ _ demo_schema (demo_format Compression_Zlib) "t" (batch_raws demo_schema [demo_rows; demo_rows]) ∅ = (Ok tt, s1) /\
    s1 = <["t" := fb]> ∅.
Proof.
  destruct (@columnar_write_then_scan id_zlib id_zlib_spec _ _ _ _ mem_storage_spec (demo_format Compression_Zlib) "t" [demo_rows; demo_rows] ∅)
    as (s1 & fb & E & Es & _).
  - done.
  - repeat constructor; done.
  - apply (Forall_app_2 _ demo_rows (demo_rows ++ [])); [|rewrite app_nil_r]; apply demo_rows_ok.
  - by vm_compute.
  - by right.
  - done.
  - exists s1, fb. split; [exact E | exact Es].
Defined.

(** The file of the three rows, uncompressed. *)
Definition demo_bytes : bytes :=
  match @seal id_zlib Compression_None (cols_of demo_schema (all_fields demo_schema) (raws_of demo_schema <$> demo_rows)) with
  | Ok b => b | Fail _ => [] end.

Lemma demo_sealed : @sealed id_zlib demo_schema demo_bytes (raws_of demo_schema <$> demo_rows).
Proof.
  split; [|split].
  - split_and!; [repeat constructor; done | apply raws_rows, demo_rows_ok | by vm_compute].
  - by vm_compute.
  - exists Compression_None. rewrite <- cols_of_tcols. by vm_compute.
Qed.

Lemma columnar_scan_correct_witness :
  let store : gmap string bytes := {["a" := demo_bytes]} in
  exists s', @CollectProjected _ _ (@columnar_cursor id_zlib _ _ _ _) 4 (fun p => ret (Columnar_Scan (demo_format Compression_None) ["a"; "missing"] p)) [1; 0; 1] store =
    (Ok (pick [1; 0; 1] <$> demo_rows), s').
Proof.
  apply (@columnar_scan_correct id_zlib id_zlib_spec _ _ _ _ mem_storage_spec (demo_format Compression_None) ["a"; "missing"] [demo_rows; []] [1; 0; 1] {["a" := demo_bytes]}).
  - done.
  - repeat constructor; done.
  - apply demo_rows_ok.
  - constructor; [apply demo_sealed|]. constructor; [reflexivity|]. constructor.
Defined.

(** [ParseFooter] does not check that the footer is long enough for what it
    reads from it: a 16-byte file of two magics around a zero footer size makes
    it read past the end. *)
Theorem ParseFooter_reads_past_footer :
  ParseFooter (MemStorage.mkInput (kMagic ++ PutU64 0 ++ kMagic)) = Fail (Undefined "read past the footer").
Proof. vm_compute. reflexivity. Qed.

(** The size check of [DecodeFixed] is done in 64-bit arithmetic: for a
    [value_count] whose byte size is a multiple of 2^64 it passes on an empty
    payload, and the first copy is out of bounds. *)
Theorem DecodeFixed_size_wraps (t : DType) (n : Z) : is_var t = false -> t <> Invalid ->
  0 < n < 2 ^ 64 -> (n * Z.of_nat (FixedWidth t)) mod 2 ^ 64 = 0 ->
  PlainCodec.Decode [] n (Column_new t) = Fail (Undefined "memcpy past the payload").
Proof.
  intros Hv Ht Hn Hm. unfold PlainCodec.Decode. pose proof (fixed_width_pos t Ht Hv) as Hw.
  assert (E : PlainCodec.decode_fixed t n [] (Column_new t) = Fail (Undefined "memcpy past the payload")).
  { unfold PlainCodec.decode_fixed, u64. rewrite Hm. change (Z.of_nat (length []) <? 0) with false. cbv iota.
    destruct (Z.to_nat n) as [|k] eqn:Ek; [lia|]. cbn [PlainCodec.decode_fixed_loop length].
    destruct (Nat.ltb_spec 0 (0 * FixedWidth t + FixedWidth t)); [done | lia]. }
  destruct t; done.
Qed.

Lemma DecodeFixed_size_wraps_witness :
  PlainCodec.Decode [] (2 ^ 61) (Column_new Int64) = Fail (Undefined "memcpy past the payload").
Proof. apply (DecodeFixed_size_wraps Int64 (2 ^ 61)); done. Defined.
