(* ===== verification/SeqCodec.v ===== *)
(** * The wire formats of cloud tables

    Models [Cloud/SequentialProtocol] up to the state store: the byte writer
    and reader, the four object formats (CURRENT, manifest, batch index and
    WAL), the names of WAL objects; and [Cloud/CloudValidation].

    zlib's [crc32] and OpenSSL's [SHA256] are code of other projects: they are
    parameters, in the class [Hashes]. A [std::string] that is text is a
    [string] here, one that is a digest or a payload is [bytes]. *)

From stdpp Require Import strings.
From S2P Require Import Prelude KeyCodec Table Storage.
Open Scope Z_scope.

(** ** CloudTypes: the descriptor of a table *)

Record TableDescriptor := mkTable {
  table_id : string;
  metadata_prefix : string;
  file_prefix : string;
  schema : Schema;
}.

(** ** CloudValidation *)

Fixpoint SchemasEqual (l r : Schema) : bool :=
  match l, r with
  | [], [] => true
  | a :: l, b :: r => bool_decide (f_name a = f_name b) && bool_decide (f_type a = f_type b) && SchemasEqual l r
  | _, _ => false
  end.

(** The loop over the schema, from field [i] on. *)
Fixpoint full_from (i : Z) (n : nat) (ids : list Z) (cols : list Column) (fs : Schema) : bool :=
  match fs, ids, cols with
  | [], _, _ => true
  | f :: fs, id :: ids, c :: cols =>
      (id =? i) && bool_decide (c_type c = f_type f) && (c_size c =? n)%nat && full_from (i + 1) n ids cols fs
  | _, _, _ => false
  end.

Definition IsFullSchemaChunk (chunk : Chunk) (fs : Schema) : bool :=
  if (row_count chunk =? 0)%nat || negb (length (columns chunk) =? length fs)%nat || negb (length (column_ids chunk) =? length fs)%nat
  then false else full_from 0 (row_count chunk) (column_ids chunk) (columns chunk) fs.

(** ** Writer *)

Definition str (b : bytes) : string := String.string_of_list_byte b.

Module Writer.

Definition U8 (n : Z) : bytes := le_bytes 1 n.
Definition U32 (n : Z) : bytes := le_bytes 4 n.
Definition U64 (n : Z) : bytes := le_bytes 8 n.

(** A length-prefixed byte string, for text and for the rows of a chunk. *)
Definition Blob (s : bytes) : result bytes :=
  if UINT32_MAX <? Z.of_nat (length s) then Fail (Throw invalid_argument "sequential: string too large")
  else Ok (U32 (u32 (Z.of_nat (length s))) ++ s).

Definition String_ (s : string) : result bytes := Blob (lit s).

Fixpoint concat_strings (xs : list string) : result bytes :=
  match xs with
  | [] => Ok []
  | x :: xs => let? b := String_ x in let? rest := concat_strings xs in Ok (b ++ rest)
  end.

Definition Strings (xs : list string) : result bytes :=
  if UINT32_MAX <? Z.of_nat (length xs) then Fail (Throw invalid_argument "sequential: list too large")
  else let? rest := concat_strings xs in Ok (U32 (u32 (Z.of_nat (length xs))) ++ rest).

Definition Header (magic : string) : bytes := lit magic ++ U32 2.

End Writer.

(** ** Reader: the state is what lies between [p_] and [end_]. *)

Module Reader.

Definition Remaining : M bytes Z := gets (fun s => Z.of_nat (length s)).

Definition Need (n : Z) : M bytes unit :=
  let* r := Remaining in
  if r <? n then throw invalid_argument "sequential: truncated object" else ret tt.

Definition Raw (n : Z) : M bytes bytes :=
  Need n;;;
  let* s := get in
  put (drop (Z.to_nat n) s);;;
  ret (take (Z.to_nat n) s).

Definition Magic (m : string) : M bytes unit :=
  let* s := Raw 4 in
  if bool_decide (s = lit m) then ret tt else throw invalid_argument "sequential: bad magic".

Definition U8 : M bytes Z := let* s := Raw 1 in ret (le_value s).

(** [n |= U8() << 8 * i] for [i] from 0: the least significant byte first. *)
Fixpoint UN (k : nat) : M bytes Z :=
  match k with
  | O => ret 0
  | S k => let* b := U8 in let* rest := UN k in ret (b + 256 * rest)
  end.

Definition U32 : M bytes Z := UN 4.
Definition U64 : M bytes Z := UN 8.

Definition Blob : M bytes bytes := let* n := U32 in Raw n.
Definition String_ : M bytes string := let* s := Blob in ret (str s).

(** A counted loop that collects what each turn reads. *)
Fixpoint times {A} (n : nat) (m : M bytes A) : M bytes (list A) :=
  match n with
  | O => ret []
  | S n => let* x := m in let* xs := times n m in ret (x :: xs)
  end.

(** A counted list: the count is checked against the bytes left, of which each
    element takes at least [k]. *)
Definition counted {A} (k : Z) (msg : string) (m : M bytes A) : M bytes (list A) :=
  let* count := U32 in
  let* r := Remaining in
  if r / k <? count then throw invalid_argument msg else times (Z.to_nat count) m.

Definition Strings : M bytes (list string) := counted 4 "sequential: bad list count" String_.

Definition End_ : M bytes unit :=
  let* r := Remaining in
  if r =? 0 then ret tt else throw invalid_argument "sequential: trailing bytes".

Definition Header (magic : string) : M bytes unit :=
  Magic magic;;;
  let* v := U32 in
  if v =? 2 then ret tt else throw invalid_argument "sequential: bad version".

End Reader.

(** ** CURRENT *)

Record SequentialState := mkState {
  st_table_id : string;
  state_version : Z;
  st_schema_version : Z;
  writer_epoch : Z;
  indexed_seq : Z;
  published_seq : Z;
  manifest_key : string;
}.

Definition EncodeSequentialState (s : SequentialState) : result bytes :=
  if bool_decide (st_table_id s = "") || negb (String.prefix "manifest/" (manifest_key s)) ||
     (published_seq s <? indexed_seq s) || negb (st_schema_version s =? 1)
  then Fail (Throw invalid_argument "sequential: invalid CURRENT") else
  let? id := Writer.String_ (st_table_id s) in
  let? key := Writer.String_ (manifest_key s) in
  Ok (Writer.Header "DBS2" ++ id ++ Writer.U64 (state_version s) ++ Writer.U64 (st_schema_version s) ++
      Writer.U64 (writer_epoch s) ++ Writer.U64 (indexed_seq s) ++ Writer.U64 (published_seq s) ++ key).

Definition read_state : M bytes SequentialState :=
  Reader.Header "DBS2";;;
  let* id := Reader.String_ in
  let* version := Reader.U64 in
  let* schema := Reader.U64 in
  let* epoch := Reader.U64 in
  let* indexed := Reader.U64 in
  let* published := Reader.U64 in
  let* key := Reader.String_ in
  Reader.End_;;;
  ret (mkState id version schema epoch indexed published key).

Definition DecodeSequentialState (b : bytes) : result SequentialState :=
  let? s := (read_state b).1 in
  let? _ := EncodeSequentialState s in
  Ok s.

(** ** Manifest *)

Record DataFile := mkDataFile { df_path : string; first_seq : Z; last_seq : Z; df_row_count : Z }.

Record SequentialManifest := mkManifest {
  mf_table_id : string;
  covered_through_seq : Z;
  mf_schema_version : Z;
  mf_schema : Schema;
  data_files : list DataFile;
  batch_index_files : list string;
}.

Definition encode_field (f : Field) : result bytes :=
  if bool_decide (f_name f = "") || bool_decide (f_type f = Invalid)
  then Fail (Throw invalid_argument "sequential: invalid schema field")
  else let? b := Writer.String_ (f_name f) in Ok (b ++ Writer.U8 (DType_u8 (f_type f))).

Definition encode_data_file (covered : Z) (f : DataFile) : result bytes :=
  if bool_decide (df_path f = "") || (first_seq f =? 0) || (last_seq f <? first_seq f) || (covered <? last_seq f) ||
     (df_row_count f =? 0)
  then Fail (Throw invalid_argument "sequential: invalid data file") else
  let? b := Writer.String_ (df_path f) in
  Ok (b ++ Writer.U64 (first_seq f) ++ Writer.U64 (last_seq f) ++ Writer.U64 (df_row_count f)).

(** A loop that appends what each element encodes to. *)
Fixpoint encode_all {A} (enc : A -> result bytes) (xs : list A) : result bytes :=
  match xs with
  | [] => Ok []
  | x :: xs => let? b := enc x in let? rest := encode_all enc xs in Ok (b ++ rest)
  end.

Definition EncodeSequentialManifest (m : SequentialManifest) : result bytes :=
  if bool_decide (mf_table_id m = "") || (length (mf_schema m) =? 0)%nat
  then Fail (Throw invalid_argument "sequential: invalid manifest") else
  let? id := Writer.String_ (mf_table_id m) in
  let? fields := encode_all encode_field (mf_schema m) in
  if UINT32_MAX <? Z.of_nat (length (data_files m)) then Fail (Throw invalid_argument "sequential: too many data files") else
  let? files := encode_all (encode_data_file (covered_through_seq m)) (data_files m) in
  if negb (forallb (String.prefix "dedup/") (batch_index_files m))
  then Fail (Throw invalid_argument "sequential: invalid batch index key") else
  let? keys := Writer.Strings (batch_index_files m) in
  Ok (Writer.Header "DBM2" ++ id ++ Writer.U64 (covered_through_seq m) ++ Writer.U64 (mf_schema_version m) ++
      Writer.U32 (u32 (Z.of_nat (length (mf_schema m)))) ++ fields ++
      Writer.U32 (u32 (Z.of_nat (length (data_files m)))) ++ files ++ keys).

(** [static_cast<Type>] of a byte. A byte that names no type is kept as
    [Invalid]: the check by re-encoding, which refuses both alike, is all that
    looks at it. *)
Definition DType_of_u8 (n : Z) : DType :=
  match n with
  | 1 => Int32 | 2 => Int64 | 3 => Float | 4 => Double | 5 => Bool | 6 => String_ | 7 => Blob | _ => Invalid
  end.

Definition read_schema_field : M bytes Field :=
  let* name := Reader.String_ in let* t := Reader.U8 in ret (mkField name (DType_of_u8 t)).

Definition read_data_file : M bytes DataFile :=
  let* path := Reader.String_ in
  let* first := Reader.U64 in
  let* last := Reader.U64 in
  let* rows := Reader.U64 in
  ret (mkDataFile path first last rows).

Definition read_manifest : M bytes SequentialManifest :=
  Reader.Header "DBM2";;;
  let* id := Reader.String_ in
  let* covered := Reader.U64 in
  let* version := Reader.U64 in
  let* n := Reader.U32 in
  if 1024 <? n then throw invalid_argument "sequential: too many columns" else
  let* fields := Reader.times (Z.to_nat n) read_schema_field in
  let* files := Reader.counted (4 + 8 + 8 + 8) "sequential: bad data file count" read_data_file in
  let* keys := Reader.Strings in
  Reader.End_;;;
  ret (mkManifest id covered version fields files keys).

Definition DecodeSequentialManifest (b : bytes) : result SequentialManifest :=
  let? m := (read_manifest b).1 in
  let? _ := EncodeSequentialManifest m in
  Ok m.

(** ** Batch index *)

Definition SHA256_DIGEST_LENGTH : Z := 32.

Record SequentialBatchEntry := mkEntry { batch_id : string; en_seq : Z; en_operation_id : string; en_digest : bytes }.

Definition encode_entry (e : SequentialBatchEntry) : result bytes :=
  if bool_decide (batch_id e = "") || (en_seq e =? 0) || bool_decide (en_operation_id e = "") ||
     negb (Z.of_nat (length (en_digest e)) =? SHA256_DIGEST_LENGTH)
  then Fail (Throw invalid_argument "sequential: invalid batch index entry") else
  let? id := Writer.String_ (batch_id e) in
  let? op := Writer.String_ (en_operation_id e) in
  Ok (id ++ Writer.U64 (en_seq e) ++ op ++ en_digest e).

Definition EncodeSequentialBatchIndex (entries : list SequentialBatchEntry) : result bytes :=
  if UINT32_MAX <? Z.of_nat (length entries) then Fail (Throw invalid_argument "sequential: batch index too large") else
  let? rest := encode_all encode_entry entries in
  Ok (Writer.Header "DBI2" ++ Writer.U32 (u32 (Z.of_nat (length entries))) ++ rest).

Definition read_entry : M bytes SequentialBatchEntry :=
  let* id := Reader.String_ in
  let* seq := Reader.U64 in
  let* op := Reader.String_ in
  let* digest := Reader.Raw SHA256_DIGEST_LENGTH in
  ret (mkEntry id seq op digest).

Definition read_batch_index : M bytes (list SequentialBatchEntry) :=
  Reader.Header "DBI2";;;
  let* entries := Reader.counted (4 + 8 + 4 + SHA256_DIGEST_LENGTH) "sequential: invalid batch index count" read_entry in
  Reader.End_;;;
  ret entries.

Definition DecodeSequentialBatchIndex (b : bytes) : result (list SequentialBatchEntry) :=
  let? entries := (read_batch_index b).1 in
  let? _ := EncodeSequentialBatchIndex entries in
  Ok entries.

(** ** WAL *)

Inductive Kind := KAppend | KFence.
#[global] Instance Kind_eq_dec : EqDecision Kind.
Proof. solve_decision. Defined.

Definition Kind_u8 (k : Kind) : Z := match k with KAppend => 1 | KFence => 2 end.

Record SequentialWal := mkWal {
  kind : Kind;
  wal_table_id : string;
  wal_seq : Z;
  wal_epoch : Z;
  wal_schema_version : Z;
  operation_id : string;
  batch_ids : list string;
  chunks : list Chunk;
  payload_digest : bytes;
}.

Class Hashes := { crc32 : bytes -> Z; SHA256 : bytes -> bytes }.

(** The digest of SHA-256 has 32 bytes. *)
Class HashesSpec `{!Hashes} := { SHA256_length : forall b, Z.of_nat (length (SHA256 b)) = SHA256_DIGEST_LENGTH }.

Section Wal.

Context `{!Hashes}.

(** The length goes to zlib as a 32-bit [uInt]. *)
Definition Crc (b : bytes) : Z := u32 (crc32 (take (Z.to_nat (u32 (Z.of_nat (length b)))) b)).
Definition Digest (b : bytes) : bytes := SHA256 b.

Definition Cell (col : Column) (row : nat) : result Value :=
  match c_type col with
  | Int32 | Int64 | Float | Double | Bool =>
      let? raw := Column_Get (c_type col) row col in Ok (value_of_raw (c_type col) raw)
  | String_ | Blob => let? b := Column_GetBytes row col in Ok (Value_String b)
  | Invalid => Fail (Throw invalid_argument "sequential: invalid cell type")
  end.

Fixpoint row_values (cols : list Column) (row : nat) : result (list Value) :=
  match cols with
  | [] => Ok []
  | c :: cols => let? v := Cell c row in let? vs := row_values cols row in Ok (v :: vs)
  end.

(** The rows of a chunk from [row] on, each length-prefixed. *)
Fixpoint encode_rows (fs : Schema) (cols : list Column) (n row : nat) : result bytes :=
  match n with
  | O => Ok []
  | S n =>
      let? values := row_values cols row in
      let? encoded := RowCodec_Encode fs values in
      let? b := Writer.Blob encoded in
      let? rest := encode_rows fs cols n (S row) in
      Ok (b ++ rest)
  end.

Definition wal_entry (rows size : Z) (payload : bytes) : bytes := Writer.U32 rows ++ Writer.U32 size ++ payload.

Definition encode_chunk (fs : Schema) (chunk : Chunk) : result bytes :=
  if negb (IsFullSchemaChunk chunk fs) || (UINT32_MAX <? Z.of_nat (row_count chunk))
  then Fail (Throw invalid_argument "sequential: invalid WAL chunk") else
  let? payload := encode_rows fs (columns chunk) (row_count chunk) 0 in
  Ok (wal_entry (u32 (Z.of_nat (row_count chunk))) (u32 (Z.of_nat (length payload))) payload).

(** The loop over the chunks: what goes to [w], what goes to [logical], and the
    rows. *)
Fixpoint encode_chunks (fs : Schema) (cs : list Chunk) : result (bytes * bytes * Z) :=
  match cs with
  | [] => Ok ([], [], 0)
  | c :: cs =>
      let? entry := encode_chunk fs c in
      let? (w, logical, total) := encode_chunks fs cs in
      Ok (entry ++ Writer.U32 (Crc entry) ++ w, entry ++ logical, u64 (Z.of_nat (row_count c) + total))
  end.

Definition wal_header (wal : SequentialWal) : result bytes :=
  let? id := Writer.String_ (wal_table_id wal) in
  let? op := Writer.String_ (operation_id wal) in
  let? ids := Writer.Strings (batch_ids wal) in
  Ok (Writer.Header "DBW2" ++ Writer.U8 (Kind_u8 (kind wal)) ++ id ++ Writer.U64 (wal_seq wal) ++
      Writer.U64 (wal_epoch wal) ++ Writer.U64 (wal_schema_version wal) ++ op ++ ids ++
      Writer.U32 (u32 (Z.of_nat (length (chunks wal))))).

(** What the digest covers: the schema version, the batch ids, the chunks. *)
Definition wal_logical (version : Z) (ids : list string) (entries : bytes) : result bytes :=
  let? b := Writer.Strings ids in Ok (Writer.U64 version ++ b ++ entries).

Definition EncodeSequentialWal (wal : SequentialWal) (fs : Schema) : result bytes :=
  if bool_decide (wal_table_id wal = "") || (wal_seq wal =? 0) || (wal_epoch wal =? 0) || bool_decide (operation_id wal = "")
  then Fail (Throw invalid_argument "sequential: invalid WAL header") else
  if bool_decide (kind wal = KAppend) && (bool_decide (batch_ids wal = []) || (length (chunks wal) =? 0)%nat)
  then Fail (Throw invalid_argument "sequential: empty Append WAL") else
  if bool_decide (kind wal = KFence) && (negb (bool_decide (batch_ids wal = [])) || negb (length (chunks wal) =? 0)%nat)
  then Fail (Throw invalid_argument "sequential: nonempty Fence WAL") else
  if negb (wal_schema_version wal =? 1) || (UINT32_MAX <? Z.of_nat (length (chunks wal)))
  then Fail (Throw invalid_argument "sequential: unsupported WAL schema or chunk count") else
  let? header := wal_header wal in
  let? (body, entries, total) := encode_chunks fs (chunks wal) in
  let? logical := wal_logical (wal_schema_version wal) (batch_ids wal) entries in
  let w := header ++ body ++ Writer.U64 total ++ Digest logical in
  Ok (w ++ Writer.U32 (Crc w) ++ lit "DBW2").

(** Decoding the rows of a chunk into its columns. *)
Fixpoint decode_rows (fs : Schema) (projection : list Z) (n : nat) (cols : list Column) : M bytes (list Column) :=
  match n with
  | O => ret cols
  | S n =>
      let* encoded := Reader.Blob in
      let* cols := lift (DecodeInto fs encoded projection cols) in
      decode_rows fs projection n cols
  end.

Definition all_columns (fs : Schema) : list Z := Z.of_nat <$> seq 0 (length fs).

Definition decode_payload (fs : Schema) (rows : Z) : M bytes (list Column) :=
  let* cols := decode_rows fs (all_columns fs) (Z.to_nat rows) ((fun f => Column_new (f_type f)) <$> fs) in
  Reader.End_;;;
  ret cols.

(** A chunk and the entry the digest covers. *)
Definition read_chunk (fs : Schema) : M bytes (Chunk * bytes) :=
  let* rows := Reader.U32 in
  if rows =? 0 then throw invalid_argument "sequential: empty WAL chunk" else
  let* size := Reader.U32 in
  let* payload := Reader.Raw size in
  let entry := wal_entry rows size payload in
  let* crc := Reader.U32 in
  if negb (crc =? Crc entry) then throw invalid_argument "sequential: bad chunk CRC" else
  let* cols := lift (decode_payload fs rows payload).1 in
  ret (mkChunk (all_columns fs) cols (Z.to_nat rows), entry).

Fixpoint read_chunks (fs : Schema) (n : nat) : M bytes (list Chunk * bytes * Z) :=
  match n with
  | O => ret ([], [], 0)
  | S n =>
      let* (c, entry) := read_chunk fs in
      let* (cs, entries, total) := read_chunks fs n in
      ret (c :: cs, entry ++ entries, u64 (Z.of_nat (row_count c) + total))
  end.

Definition read_kind : M bytes Kind :=
  let* k := Reader.U8 in
  if k =? 1 then ret KAppend else if k =? 2 then ret KFence else throw invalid_argument "sequential: bad WAL kind".

Definition read_wal (b : bytes) (fs : Schema) : M bytes SequentialWal :=
  Reader.Header "DBW2";;;
  let* k := read_kind in
  let* id := Reader.String_ in
  let* seq := Reader.U64 in
  let* epoch := Reader.U64 in
  let* version := Reader.U64 in
  let* op := Reader.String_ in
  let* ids := Reader.Strings in
  let* count := Reader.U32 in
  if 1000000 <? count then throw invalid_argument "sequential: too many WAL chunks" else
  let* (cs, entries, total) := read_chunks fs (Z.to_nat count) in
  let* n := Reader.U64 in
  if negb (n =? total) then throw invalid_argument "sequential: row count mismatch" else
  let* digest := Reader.Raw SHA256_DIGEST_LENGTH in
  let* logical := lift (wal_logical version ids entries) in
  if negb (bool_decide (digest = Digest logical)) then throw invalid_argument "sequential: digest mismatch" else
  let* r := Reader.Remaining in
  if negb (r =? 8) then throw invalid_argument "sequential: bad WAL footer" else
  let* crc := Reader.U32 in
  if negb (crc =? Crc (take (length b - 8) b)) then throw invalid_argument "sequential: bad WAL CRC" else
  Reader.Magic "DBW2";;;
  Reader.End_;;;
  ret (mkWal k id seq epoch version op ids cs digest).

Definition DecodeSequentialWal (b : bytes) (fs : Schema) : result SequentialWal :=
  if Z.of_nat (length b) <? 8 then Fail (Throw invalid_argument "sequential: short WAL") else
  let? wal := (read_wal b fs b).1 in
  if bool_decide (wal_table_id wal = "") || (wal_seq wal =? 0) || (wal_epoch wal =? 0) || bool_decide (operation_id wal = "") ||
     (bool_decide (kind wal = KAppend) && (bool_decide (batch_ids wal = []) || (length (chunks wal) =? 0)%nat)) ||
     (bool_decide (kind wal = KFence) && (negb (bool_decide (batch_ids wal = [])) || negb (length (chunks wal) =? 0)%nat))
  then Fail (Throw invalid_argument "sequential: invalid WAL contents") else Ok wal.

End Wal.

(** ** The name of a WAL object *)

Definition digit (n : Z) : Ascii.ascii := Ascii.ascii_of_nat (48 + Z.to_nat n).

(** [%0<k>llu]: [k] decimal digits, the most significant first. *)
Fixpoint dec_digits (k : nat) (n : Z) : string :=
  match k with
  | O => ""
  | S k => String (digit (n / 10 ^ Z.of_nat k mod 10)) (dec_digits k n)
  end.

(** [while (!prefix.empty() && prefix.back() == '/') prefix.pop_back()] *)
Fixpoint strip_slashes (s : string) : string :=
  match s with
  | "" => ""
  | String c s => let r := strip_slashes s in
                  if bool_decide (r = "") && bool_decide (c = Ascii.ascii_of_nat 47) then "" else String c r
  end.

Definition SequentialWalKey (table : TableDescriptor) (seq : Z) : result string :=
  if seq =? 0 then Fail (Throw invalid_argument "sequential: WAL seq is zero") else
  let prefix := strip_slashes (file_prefix table) in
  if bool_decide (prefix = "") then Fail (Throw invalid_argument "sequential: empty file prefix")
  else Ok (prefix +:+ "/wal/" +:+ dec_digits 20 seq +:+ ".wal").
