(* ===== verification/SeqCodecSpec.v ===== *)
(** * The wire formats round-trip

    Every reader is described by an equivalence: it succeeds exactly on the
    encodings of the values it can return. Reading back what was written, and
    refusing everything that no writer wrote, are its two directions. *)

From stdpp Require Import strings.
From S2P Require Import Prelude KeyCodec Table TableSpec Storage SeqCodec.
Open Scope Z_scope.

(** ** Readers *)

(** [m] reads exactly the encodings [enc a] of the values [a] in [P]. *)
Definition reads {A} (m : M bytes A) (enc : A -> bytes) (P : A -> Prop) : Prop :=
  forall s a s', m s = (Ok a, s') <-> P a /\ s = enc a ++ s'.

Lemma bind_iff {S A B} (m : M S A) (f : A -> M S B) s b s' :
  bind m f s = (Ok b, s') <-> exists a s1, m s = (Ok a, s1) /\ f a s1 = (Ok b, s').
Proof. split; [apply bind_inv | intros (a & s1 & E & E'); by rewrite (bind_ok _ _ _ _ _ E)]. Qed.

Lemma ret_iff {S A} (a b : A) (s s' : S) : ret a s = (Ok b, s') <-> a = b /\ s = s'.
Proof. unfold ret. split; [by intros [= -> ->] | by intros [-> ->]]. Qed.

Lemma throw_iff {S A} k msg (b : A) (s s' : S) : throw k msg s = (Ok b, s') <-> False.
Proof. done. Qed.

Lemma rbind_iff {A B} (r : result A) (f : A -> result B) b : result_bind r f = Ok b <-> exists a, r = Ok a /\ f a = Ok b.
Proof. destruct r; simpl; naive_solver. Qed.

Lemma guard_iff {A} (c : bool) e (r : result A) a : (if c then Fail e else r) = Ok a <-> c = false /\ r = Ok a.
Proof. destruct c; naive_solver. Qed.

Lemma throw_guard_iff {S A} (c : bool) k msg (m : M S A) s a s' :
  (if c then throw k msg else m) s = (Ok a, s') <-> c = false /\ m s = (Ok a, s').
Proof. destruct c; unfold throw, fail; naive_solver. Qed.

Lemma reads_ok {A} (m : M bytes A) enc P a rest : reads m enc P -> P a -> m (enc a ++ rest) = (Ok a, rest).
Proof. intros Hm Ha. by apply Hm. Qed.

Definition in_bits (n : Z) (z : Z) : Prop := 0 <= z < 2 ^ n.

Lemma Raw_iff n s a s' : 0 <= n -> Reader.Raw n s = (Ok a, s') <-> Z.of_nat (length a) = n /\ s = a ++ s'.
Proof.
  intros Hn. unfold Reader.Raw, Reader.Need, Reader.Remaining, gets, bind, get, put, ret, throw, fail.
  destruct (Z.ltb_spec (Z.of_nat (length s)) n) as [H|H].
  - split; [done|]. intros [Ha ->]. rewrite length_app in H. lia.
  - split.
    + intros [= <- <-]. rewrite length_take, take_drop. split; [lia | done].
    + intros [<- ->]. by rewrite Nat2Z.id, take_app_length, drop_app_length.
Qed.

Lemma U8_iff s a s' : Reader.U8 s = (Ok a, s') <-> in_bits 8 a /\ s = Writer.U8 a ++ s'.
Proof.
  unfold Reader.U8, Writer.U8, in_bits. rewrite bind_iff. setoid_rewrite Raw_iff; [|lia]. setoid_rewrite ret_iff. split.
  - intros (b & s1 & [Hb ->] & <- & ->). pose proof (le_value_range b) as Hr. assert (length b = 1%nat) as Hl by lia.
    rewrite Hl in Hr. split; [lia|]. f_equal. rewrite <- Hl. symmetry. apply le_bytes_value.
  - intros [Ha ->]. exists (le_bytes 1 a), s'. rewrite length_le_bytes. split_and!; try done. apply le_bytes_small. simpl. lia.
Qed.

Lemma UN_iff k : forall s a s', Reader.UN k s = (Ok a, s') <-> in_bits (8 * Z.of_nat k) a /\ s = le_bytes k a ++ s'.
Proof.
  unfold in_bits. induction k as [|k IH]; intros s a s'.
  - simpl. rewrite ret_iff. split; [intros [<- ->]; by split | intros [Ha ->]; split; [simpl in Ha; lia | done]].
  - cbn [Reader.UN]. rewrite bind_iff. setoid_rewrite U8_iff. setoid_rewrite bind_iff. setoid_rewrite IH. setoid_rewrite ret_iff.
    unfold in_bits. replace (8 * Z.of_nat (S k)) with (8 * Z.of_nat k + 8) by lia. rewrite Z.pow_add_r by lia. change (2 ^ 8) with 256.
    set (p := 2 ^ (8 * Z.of_nat k)). split.
    + intros (b & s1 & [Hb ->] & r & s2 & [Hr ->] & <- & ->). split; [lia|]. cbn [le_bytes].
      replace ((b + 256 * r) / 256) with r by div_lia. unfold Writer.U8. simpl. f_equal.
      apply byte_to_Z_inj. rewrite !byte_to_of_Z. div_lia.
    + intros [Ha ->]. exists (a mod 256), (le_bytes k (a / 256) ++ s'). split; [split; [div_lia|]|].
      * cbn [le_bytes app Writer.U8]. f_equal. apply byte_to_Z_inj. rewrite !byte_to_of_Z. div_lia.
      * exists (a / 256), s'. split; [split; [div_lia | done]|]. split; [div_lia | done].
Qed.

Lemma U32_reads : reads Reader.U32 Writer.U32 (in_bits 32).
Proof. intros s a s'. apply (UN_iff 4). Qed.

Lemma U64_reads : reads Reader.U64 Writer.U64 (in_bits 64).
Proof. intros s a s'. apply (UN_iff 8). Qed.

(** *** Strings *)

Definition enc_blob (b : bytes) : bytes := Writer.U32 (Z.of_nat (length b)) ++ b.
Definition enc_str (s : string) : bytes := enc_blob (lit s).
Definition fits_blob (b : bytes) : Prop := in_bits 32 (Z.of_nat (length b)).
Definition fits_str (s : string) : Prop := fits_blob (lit s).

Lemma Blob_reads : reads Reader.Blob enc_blob fits_blob.
Proof.
  intros s a s'. unfold Reader.Blob, enc_blob, fits_blob. rewrite bind_iff. setoid_rewrite (U32_reads _ _ _). split.
  - intros (n & s1 & [Hn ->] & H). apply Raw_iff in H as [<- ->]; [|unfold in_bits in Hn; lia]. by rewrite app_assoc.
  - intros [Ha ->]. exists (Z.of_nat (length a)), (a ++ s'). rewrite <- app_assoc. split; [done|]. apply Raw_iff; [lia | done].
Qed.

Lemma str_lit s : str (lit s) = s.
Proof. apply String.string_of_list_byte_of_string. Qed.

Lemma lit_str b : lit (str b) = b.
Proof. apply String.list_byte_of_string_of_list_byte. Qed.

Lemma String_reads : reads Reader.String_ enc_str fits_str.
Proof.
  intros s a s'. unfold Reader.String_, enc_str, fits_str. rewrite bind_iff. setoid_rewrite (Blob_reads _ _ _). setoid_rewrite ret_iff. split.
  - intros (b & s1 & [Hb ->] & <- & ->). by rewrite lit_str.
  - intros [Ha ->]. exists (lit a), s'. by rewrite str_lit.
Qed.

Lemma Writer_Blob_iff b w : Writer.Blob b = Ok w <-> fits_blob b /\ w = enc_blob b.
Proof.
  unfold Writer.Blob, fits_blob, in_bits, UINT32_MAX, enc_blob. destruct (Z.ltb_spec (2 ^ 32 - 1) (Z.of_nat (length b))).
  - split; [done | lia].
  - rewrite u32_small by lia. split; [intros [= <-]; split; [lia | done] | by intros [_ ->]].
Qed.

Lemma Writer_String_iff s w : Writer.String_ s = Ok w <-> fits_str s /\ w = enc_str s.
Proof. apply Writer_Blob_iff. Qed.

(** *** Loops *)

Definition enc_list {A} (enc : A -> bytes) (xs : list A) : bytes := concat (enc <$> xs).

Lemma times_iff {A} (m : M bytes A) enc P : reads m enc P -> forall n s xs s',
  Reader.times n m s = (Ok xs, s') <-> length xs = n /\ Forall P xs /\ s = enc_list enc xs ++ s'.
Proof.
  intros Hm. induction n as [|n IH]; intros s xs s'; cbn [Reader.times].
  - rewrite ret_iff. split; [intros [<- ->]; by repeat constructor | intros (Hl & _ & ->); by apply nil_length_inv in Hl as ->].
  - rewrite bind_iff. setoid_rewrite (Hm _ _ _). setoid_rewrite bind_iff. setoid_rewrite IH. setoid_rewrite ret_iff. split.
    + intros (x & s1 & [Hx ->] & ys & s2 & (Hl & Hys & ->) & <- & ->). split; [simpl; lia|]. split; [by constructor|].
      unfold enc_list. simpl. by rewrite app_assoc.
    + intros (Hl & Hxs & ->). destruct xs as [|x xs]; [done|]. apply Forall_cons in Hxs as [Hx Hxs].
      exists x, (enc_list enc xs ++ s'). unfold enc_list. simpl. rewrite <- app_assoc. split; [done|]. exists xs, s'. split_and!; auto; done.
Qed.

Lemma length_enc_list {A} (enc : A -> bytes) k xs : Forall (fun x => (k <= length (enc x))%nat) xs -> (k * length xs <= length (enc_list enc xs))%nat.
Proof.
  unfold enc_list. induction 1 as [|x xs Hx _ IH]; [simpl; lia|].
  rewrite fmap_cons. cbn [concat length]. rewrite length_app, Nat.mul_succ_r. lia.
Qed.

(** A counted list behind a bound on the count that the bytes left imply. *)
Definition enc_counted {A} (enc : A -> bytes) (xs : list A) : bytes := Writer.U32 (Z.of_nat (length xs)) ++ enc_list enc xs.
Definition counted {A} (P : A -> Prop) (xs : list A) : Prop := in_bits 32 (Z.of_nat (length xs)) /\ Forall P xs.

Lemma counted_iff {A} (m : M bytes A) enc P k msg : reads m enc P -> 0 < k -> (forall x, P x -> (Z.to_nat k <= length (enc x))%nat) ->
  reads (Reader.counted k msg m) (enc_counted enc) (counted P).
Proof.
  intros Hm Hk Henc s xs s'. unfold Reader.counted. rewrite bind_iff. setoid_rewrite (U32_reads _ _ _). unfold enc_counted, counted. split.
  - intros (c & s1 & [Hc ->] & H). unfold Reader.Remaining, gets, bind in H. destruct (_ <? _); [done|].
    apply (times_iff m enc P Hm) in H as (Hl & Hxs & ->). unfold in_bits in *. assert (c = Z.of_nat (length xs)) as -> by lia.
    rewrite <- app_assoc. split_and!; auto; lia.
  - intros [[Hc Hxs] ->]. exists (Z.of_nat (length xs)), (enc_list enc xs ++ s'). rewrite <- app_assoc. split; [done|].
    unfold Reader.Remaining, gets, bind. destruct (Z.ltb_spec (Z.of_nat (length (enc_list enc xs ++ s')) / k) (Z.of_nat (length xs))) as [Hlt|_].
    + exfalso. pose proof (length_enc_list enc (Z.to_nat k) xs (Forall_impl _ _ _ Hxs Henc)) as Hlen. rewrite length_app in Hlt.
      enough (Z.of_nat (length xs) <= Z.of_nat (length (enc_list enc xs) + length s') / k) by lia.
      apply Z.div_le_lower_bound; nia.
    + rewrite Nat2Z.id. by apply (times_iff m enc P Hm).
Qed.

Lemma length_enc_str s : (4 <= length (enc_str s))%nat.
Proof. unfold enc_str, enc_blob, Writer.U32. rewrite length_app, length_le_bytes. lia. Qed.

Lemma Strings_reads : reads Reader.Strings (enc_counted enc_str) (counted fits_str).
Proof. apply counted_iff; [apply String_reads | done | intros s _; apply length_enc_str]. Qed.

Lemma encode_all_iff {A} (enc : A -> result bytes) (e : A -> bytes) P : (forall x w, enc x = Ok w <-> P x /\ w = e x) ->
  forall xs w, encode_all enc xs = Ok w <-> Forall P xs /\ w = enc_list e xs.
Proof.
  intros He. induction xs as [|x xs IH]; intros w; cbn [encode_all].
  - split; [intros [= <-]; by split | by intros [_ ->]].
  - destruct (enc x) as [b|f] eqn:E; cbn [result_bind].
    + apply He in E as [Hx ->]. destruct (encode_all enc xs) as [r|f] eqn:Er; cbn [result_bind].
      * destruct (IH r) as [[Hxs ->] _]; [done|]. rewrite Forall_cons. split; [intros [= <-]; by split_and! | by intros [_ ->]].
      * split; [done|]. intros [[_ Hxs]%Forall_cons _]. assert (Fail f = Ok (enc_list e xs)) by (apply IH; auto). done.
    + split; [done|]. intros [[Hx _]%Forall_cons _]. assert (Fail f = Ok (e x)) by (rewrite <- E; apply He; auto). done.
Qed.

Lemma Writer_Strings_iff xs w : Writer.Strings xs = Ok w <-> counted fits_str xs /\ w = enc_counted enc_str xs.
Proof.
  unfold Writer.Strings, counted, in_bits, enc_counted, UINT32_MAX.
  assert (H : forall xs, Writer.concat_strings xs = encode_all Writer.String_ xs) by (intros l; induction l as [|x l IH]; simpl; by rewrite ?IH).
  rewrite H. pose proof (encode_all_iff _ _ _ Writer_String_iff xs) as Hx.
  destruct (Z.ltb_spec (2 ^ 32 - 1) (Z.of_nat (length xs))) as [Hl|Hl]; [split; [done | lia]|].
  destruct (encode_all Writer.String_ xs) as [r|f]; cbn [result_bind].
  - destruct (Hx r) as [[Hxs ->] _]; [done|]. rewrite u32_small by lia. split; [intros [= <-]; split_and!; auto; lia | by intros [_ ->]].
  - split; [done|]. intros [[_ Hxs] _]. assert (Fail f = Ok (enc_list enc_str xs)) by (apply Hx; auto). done.
Qed.

(** *** Framing *)

Lemma Magic_iff m s a s' : length (lit m) = 4%nat -> Reader.Magic m s = (Ok a, s') <-> s = lit m ++ s'.
Proof.
  intros Hm. unfold Reader.Magic. rewrite bind_iff. setoid_rewrite Raw_iff; [|lia]. split.
  - intros (b & s1 & [_ ->] & H). destruct (bool_decide_reflect (b = lit m)) as [->|]; [|done]. by apply ret_iff in H as [_ ->].
  - intros ->. exists (lit m), s'. rewrite Hm, bool_decide_true by done. split; [done|]. by destruct a.
Qed.

Lemma Header_iff m s a s' : length (lit m) = 4%nat -> Reader.Header m s = (Ok a, s') <-> s = Writer.Header m ++ s'.
Proof.
  intros Hm. unfold Reader.Header, Writer.Header. rewrite bind_iff. setoid_rewrite Magic_iff; [|done].
  setoid_rewrite bind_iff. setoid_rewrite (U32_reads _ _ _). rewrite <- app_assoc. split.
  - intros (_ & s1 & -> & v & s2 & [Hv ->] & H). destruct (Z.eqb_spec v 2) as [->|]; [|done]. by apply ret_iff in H as [_ ->].
  - intros ->. exists tt, (Writer.U32 2 ++ s'). split; [done|]. exists 2, s'. split; [done|]. by destruct a.
Qed.

Lemma End_iff s a s' : Reader.End_ s = (Ok a, s') <-> s = [] /\ s' = [].
Proof.
  unfold Reader.End_, Reader.Remaining, gets, bind. destruct (Z.eqb_spec (Z.of_nat (length s)) 0) as [H|H].
  - assert (s = []) as -> by (apply nil_length_inv; lia). rewrite ret_iff. split; [by intros [_ <-] | by intros [_ ->]; destruct a].
  - split; [done|]. by intros [-> _].
Qed.

(** Running a reader forwards over an encoding. *)
Lemma reads_step {A B} (m : M bytes A) enc P (f : A -> M bytes B) a rest : reads m enc P -> P a -> bind m f (enc a ++ rest) = f a rest.
Proof. intros Hm Ha. by rewrite (bind_ok _ _ _ _ _ (reads_ok _ _ _ _ rest Hm Ha)). Qed.

Lemma Header_step {B} m (f : unit -> M bytes B) rest : length (lit m) = 4%nat -> bind (Reader.Header m) f (Writer.Header m ++ rest) = f tt rest.
Proof. intros Hm. apply bind_ok. by apply Header_iff. Qed.

(** ... and taking apart a run that succeeded. *)
Ltac read_inv H :=
  repeat (first
    [ let E := fresh "E" in apply bind_inv in H as (? & ? & E & H); read_case E
    | apply throw_guard_iff in H as [? H]
    | apply ret_iff in H as [<- <-] ])
with read_case E :=
  first
    [ apply Header_iff in E as ->; [|reflexivity]
    | apply String_reads in E as [? ->]
    | apply U64_reads in E as [? ->]
    | apply U32_reads in E as [? ->]
    | apply U8_iff in E as [? ->]
    | apply Strings_reads in E as [? ->]
    | apply End_iff in E as [-> ->]
    | idtac ].

(** A whole object: [m] up to the end of the bytes. *)
Lemma reads_end {A B} (m : M bytes A) enc P (f : A -> B) : reads m enc P -> forall b x s',
  (let* a := m in Reader.End_;;; ret (f a)) b = (Ok x, s') <-> s' = [] /\ exists a, P a /\ x = f a /\ b = enc a.
Proof.
  intros Hm b x s'. rewrite bind_iff. setoid_rewrite bind_iff. setoid_rewrite (Hm _ _ _). setoid_rewrite End_iff. setoid_rewrite ret_iff. split.
  - intros (a & s1 & [Ha ->] & _ & s2 & [-> ->] & <- & <-). split; [done|]. exists a. by rewrite app_nil_r.
  - intros (-> & a & Ha & -> & ->). exists a, []. rewrite app_nil_r. split; [done|]. by exists tt, [].
Qed.

Ltac read_steps := repeat first
  [ rewrite (reads_step _ _ _ _ _ _ String_reads) by done
  | rewrite (reads_step _ _ _ _ _ _ U64_reads) by done
  | rewrite (reads_step _ _ _ _ _ _ U32_reads) by done
  | rewrite (reads_step _ _ _ _ _ _ Strings_reads) by done ].

(** ** CURRENT *)

Definition state_fields_ok (s : SequentialState) : Prop :=
  in_bits 64 (state_version s) /\ in_bits 64 (st_schema_version s) /\ in_bits 64 (writer_epoch s) /\
  in_bits 64 (indexed_seq s) /\ in_bits 64 (published_seq s).

Definition state_valid (s : SequentialState) : Prop :=
  st_table_id s <> "" /\ String.prefix "manifest/" (manifest_key s) = true /\ indexed_seq s <= published_seq s /\
  st_schema_version s = 1 /\ fits_str (st_table_id s) /\ fits_str (manifest_key s).

Definition enc_state (s : SequentialState) : bytes :=
  Writer.Header "DBS2" ++ enc_str (st_table_id s) ++ Writer.U64 (state_version s) ++ Writer.U64 (st_schema_version s) ++
  Writer.U64 (writer_epoch s) ++ Writer.U64 (indexed_seq s) ++ Writer.U64 (published_seq s) ++ enc_str (manifest_key s).

Lemma EncodeSequentialState_iff s w : EncodeSequentialState s = Ok w <-> state_valid s /\ w = enc_state s.
Proof.
  unfold EncodeSequentialState, state_valid, enc_state. rewrite guard_iff, !orb_false_iff, bool_decide_eq_false, !negb_false_iff, Z.ltb_ge, Z.eqb_eq.
  rewrite rbind_iff. setoid_rewrite Writer_String_iff. setoid_rewrite rbind_iff. setoid_rewrite Writer_String_iff. split.
  - intros ((((H1 & H2) & H3) & H4) & ? & [F1 ->] & ? & [F2 ->] & [= <-]). by split_and!.
  - intros [(H1 & H2 & H3 & H4 & F1 & F2) ->]. split_and!; auto. eexists. split; [done|]. eexists. done.
Qed.

Lemma read_state_iff b s s' : read_state b = (Ok s, s') <->
  (state_fields_ok s /\ fits_str (st_table_id s) /\ fits_str (manifest_key s)) /\ s' = [] /\ b = enc_state s.
Proof.
  unfold read_state, state_fields_ok, enc_state. split.
  - intros H. read_inv H. by rewrite app_nil_r.
  - intros (((B1 & B2 & B3 & B4 & B5) & F1 & F2) & -> & ->). rewrite Header_step by done.
    read_steps. rewrite <- (app_nil_r (enc_str _)). read_steps. by destruct s.
Qed.

Lemma DecodeSequentialState_iff b s : DecodeSequentialState b = Ok s <-> state_fields_ok s /\ EncodeSequentialState s = Ok b.
Proof.
  unfold DecodeSequentialState. rewrite rbind_iff. setoid_rewrite rbind_iff. split.
  - intros (s1 & E & w & Ew & [= <-]). destruct (read_state b) as [r s'] eqn:Er. simpl in E. subst r.
    apply read_state_iff in Er as ((Hf & _) & _ & ->). apply EncodeSequentialState_iff in Ew as [Hv ->]. by rewrite EncodeSequentialState_iff.
  - intros [Hf Ew]. pose proof Ew as Ew'. apply EncodeSequentialState_iff in Ew' as [Hv ->]. exists s. split; [|by exists (enc_state s)].
    assert (read_state (enc_state s) = (Ok s, [])) as ->; [|done]. apply read_state_iff. split_and!; try done; apply Hv.
Qed.

(** ** Batch index *)

Definition enc_entry (e : SequentialBatchEntry) : bytes :=
  enc_str (batch_id e) ++ Writer.U64 (en_seq e) ++ enc_str (en_operation_id e) ++ en_digest e.

Definition entry_fields_ok (e : SequentialBatchEntry) : Prop :=
  fits_str (batch_id e) /\ in_bits 64 (en_seq e) /\ fits_str (en_operation_id e) /\ Z.of_nat (length (en_digest e)) = SHA256_DIGEST_LENGTH.

Lemma read_entry_reads : reads read_entry enc_entry entry_fields_ok.
Proof.
  intros s e s'. unfold read_entry, enc_entry, entry_fields_ok. split.
  - intros H. read_inv H. apply Raw_iff in E as [Hl ->]; [|done].
    cbn [batch_id en_seq en_operation_id en_digest]. rewrite <- !app_assoc. by split_and!.
  - intros [(F1 & B & F2 & Hl) ->]. rewrite <- !app_assoc. read_steps. rewrite (bind_ok _ _ _ (en_digest e) s') by (by apply Raw_iff; [unfold SHA256_DIGEST_LENGTH|]).
    by destruct e.
Qed.

(** What [EncodeSequentialBatchIndex] accepts of an entry. *)
Definition entry_valid (e : SequentialBatchEntry) : Prop :=
  batch_id e <> "" /\ en_seq e <> 0 /\ en_operation_id e <> "" /\ Z.of_nat (length (en_digest e)) = SHA256_DIGEST_LENGTH /\
  fits_str (batch_id e) /\ fits_str (en_operation_id e).

Lemma encode_entry_iff e w : encode_entry e = Ok w <-> entry_valid e /\ w = enc_entry e.
Proof.
  unfold encode_entry, entry_valid, enc_entry. rewrite guard_iff, !orb_false_iff, !bool_decide_eq_false, !negb_false_iff, Z.eqb_neq, Z.eqb_eq.
  rewrite rbind_iff. setoid_rewrite Writer_String_iff. setoid_rewrite rbind_iff. setoid_rewrite Writer_String_iff. split.
  - intros ((((H1 & H2) & H3) & H4) & ? & [F1 ->] & ? & [F2 ->] & [= <-]). by split_and!.
  - intros [(H1 & H2 & H3 & H4 & F1 & F2) ->]. split_and!; auto. eexists. split; [done|]. eexists. done.
Qed.

Definition index_valid (es : list SequentialBatchEntry) : Prop := counted entry_valid es.
Definition enc_index (es : list SequentialBatchEntry) : bytes := Writer.Header "DBI2" ++ enc_counted enc_entry es.

Lemma u32_count_iff (n : nat) : (UINT32_MAX <? Z.of_nat n) = false <-> in_bits 32 (Z.of_nat n).
Proof. rewrite Z.ltb_ge. unfold UINT32_MAX, in_bits. lia. Qed.

Lemma u32_count (n : nat) : in_bits 32 (Z.of_nat n) -> u32 (Z.of_nat n) = Z.of_nat n.
Proof. apply u32_small. Qed.

Lemma EncodeSequentialBatchIndex_iff es w : EncodeSequentialBatchIndex es = Ok w <-> index_valid es /\ w = enc_index es.
Proof.
  unfold EncodeSequentialBatchIndex, index_valid, counted, enc_index, enc_counted.
  rewrite guard_iff, u32_count_iff, rbind_iff. setoid_rewrite (encode_all_iff _ _ _ encode_entry_iff). split.
  - intros (Hl & ? & [Hes ->] & [= <-]). by rewrite u32_count.
  - intros [[Hl Hes] ->]. split; [done|]. eexists. split; [done|]. by rewrite u32_count.
Qed.

Lemma length_enc_entry e : entry_fields_ok e -> (48 <= length (enc_entry e))%nat.
Proof.
  intros (_ & _ & _ & Hd). unfold enc_entry, Writer.U64. rewrite !length_app, length_le_bytes. pose proof (length_enc_str (batch_id e)).
  pose proof (length_enc_str (en_operation_id e)). unfold SHA256_DIGEST_LENGTH in Hd. lia.
Qed.

Lemma entries_reads : reads (Reader.counted (4 + 8 + 4 + SHA256_DIGEST_LENGTH) "sequential: invalid batch index count" read_entry)
  (enc_counted enc_entry) (counted entry_fields_ok).
Proof. apply counted_iff; [apply read_entry_reads | done | apply length_enc_entry]. Qed.

Lemma read_batch_index_iff b es s' : read_batch_index b = (Ok es, s') <-> counted entry_fields_ok es /\ s' = [] /\ b = enc_index es.
Proof.
  unfold read_batch_index, enc_index. split.
  - intros H. apply bind_inv in H as (? & s1 & E & H). apply Header_iff in E as ->; [|done].
    by apply (reads_end _ _ _ id entries_reads) in H as (-> & ? & Hc & -> & ->).
  - intros (Hc & -> & ->). rewrite Header_step by done. apply (reads_end _ _ _ id entries_reads). split; [done|]. by exists es.
Qed.

Lemma DecodeSequentialBatchIndex_iff b es : DecodeSequentialBatchIndex b = Ok es <->
  Forall (fun e => in_bits 64 (en_seq e)) es /\ EncodeSequentialBatchIndex es = Ok b.
Proof.
  unfold DecodeSequentialBatchIndex. rewrite rbind_iff. setoid_rewrite rbind_iff. split.
  - intros (s1 & E & w & Ew & [= <-]). destruct (read_batch_index b) as [r s'] eqn:Er. simpl in E. subst r.
    apply read_batch_index_iff in Er as ([_ Hf] & _ & ->). apply EncodeSequentialBatchIndex_iff in Ew as [Hv ->].
    rewrite EncodeSequentialBatchIndex_iff. split; [|done]. eapply Forall_impl; [exact Hf|]. by intros e (_ & ? & _).
  - intros [Hf Ew]. pose proof Ew as Ew'. apply EncodeSequentialBatchIndex_iff in Ew' as [[Hl Hv] ->]. exists es. split; [|by exists (enc_index es)].
    assert (read_batch_index (enc_index es) = (Ok es, [])) as ->; [|done]. apply read_batch_index_iff. split_and!; try done. split; [done|].
    rewrite Forall_forall in Hf, Hv. apply Forall_forall. intros e He. destruct (Hv e He) as (_ & _ & _ & ? & ? & ?). split_and!; auto.
Qed.

(** ** Manifest *)

Definition enc_field (f : Field) : bytes := enc_str (f_name f) ++ Writer.U8 (DType_u8 (f_type f)).
Definition enc_file (f : DataFile) : bytes :=
  enc_str (df_path f) ++ Writer.U64 (first_seq f) ++ Writer.U64 (last_seq f) ++ Writer.U64 (df_row_count f).

Definition file_fields_ok (f : DataFile) : Prop :=
  fits_str (df_path f) /\ in_bits 64 (first_seq f) /\ in_bits 64 (last_seq f) /\ in_bits 64 (df_row_count f).

Lemma read_data_file_reads : reads read_data_file enc_file file_fields_ok.
Proof.
  intros s f s'. unfold read_data_file, enc_file, file_fields_ok. split.
  - intros H. read_inv H. cbn [df_path first_seq last_seq df_row_count]. rewrite <- !app_assoc. by split_and!.
  - intros [(F1 & B1 & B2 & B3) ->]. rewrite <- !app_assoc. read_steps. by destruct f.
Qed.

Lemma DType_of_to t : DType_of_u8 (DType_u8 t) = t.
Proof. by destruct t. Qed.

Lemma DType_to_of n : DType_of_u8 n <> Invalid -> DType_u8 (DType_of_u8 n) = n.
Proof. unfold DType_of_u8. intros H. repeat (case_match; try done). Qed.

Lemma DType_u8_bits t : in_bits 8 (DType_u8 t).
Proof. destruct t; unfold in_bits; simpl; lia. Qed.

(** A field with a type: the byte of an unknown type is not an encoding. *)
Lemma read_field_iff s f s' : f_type f <> Invalid ->
  read_schema_field s = (Ok f, s') <-> fits_str (f_name f) /\ s = enc_field f ++ s'.
Proof.
  intros Ht. unfold read_schema_field, enc_field. split.
  - intros H. read_inv H. cbn [f_name f_type] in *. rewrite DType_to_of, <- app_assoc by done. done.
  - intros [F ->]. rewrite <- app_assoc. read_steps. rewrite (bind_ok _ _ _ (DType_u8 (f_type f)) s').
    + rewrite DType_of_to. by destruct f.
    + apply U8_iff. split; [apply DType_u8_bits | done].
Qed.

Lemma read_fields_iff n : forall s fs s', Forall (fun f => f_type f <> Invalid) fs ->
  Reader.times n read_schema_field s = (Ok fs, s') <-> length fs = n /\ Forall (fun f => fits_str (f_name f)) fs /\ s = enc_list enc_field fs ++ s'.
Proof.
  induction n as [|n IH]; intros s fs s' Hfs; cbn [Reader.times].
  - rewrite ret_iff. split; [intros [<- ->]; by repeat constructor | intros (Hl & _ & ->); by apply nil_length_inv in Hl as ->].
  - rewrite bind_iff. split.
    + intros (f & s1 & E & H). apply bind_inv in H as (fs1 & s2 & E2 & H). apply ret_iff in H as [<- <-].
      apply Forall_cons in Hfs as [Hf Hfs]. apply read_field_iff in E as [F ->]; [|done]. apply IH in E2 as (<- & Hs & ->); [|done].
      unfold enc_list. rewrite fmap_cons. cbn [concat]. rewrite <- app_assoc. split_and!; [done | by constructor | done].
    + intros (Hl & Hs & ->). destruct fs as [|f fs]; [done|]. apply Forall_cons in Hfs as [Hf Hfs], Hs as [Hn Hs].
      exists f, (enc_list enc_field fs ++ s'). split.
      * apply read_field_iff; [done|]. unfold enc_list. rewrite fmap_cons. cbn [concat]. by rewrite <- app_assoc.
      * rewrite (bind_ok _ _ _ fs s'); [done|]. apply IH; [done|]. split_and!; auto.
Qed.

Definition field_valid (f : Field) : Prop := f_name f <> "" /\ f_type f <> Invalid /\ fits_str (f_name f).
Definition file_valid (covered : Z) (f : DataFile) : Prop :=
  df_path f <> "" /\ first_seq f <> 0 /\ first_seq f <= last_seq f /\ last_seq f <= covered /\ df_row_count f <> 0 /\ fits_str (df_path f).

Record manifest_valid (m : SequentialManifest) : Prop := {
  mv_id : mf_table_id m <> "" /\ fits_str (mf_table_id m);
  mv_schema : mf_schema m <> [] /\ Forall field_valid (mf_schema m);
  mv_files : counted (file_valid (covered_through_seq m)) (data_files m);
  mv_index : Forall (fun k => String.prefix "dedup/" k = true) (batch_index_files m) /\ counted fits_str (batch_index_files m);
}.

Definition enc_manifest (m : SequentialManifest) : bytes :=
  Writer.Header "DBM2" ++ enc_str (mf_table_id m) ++ Writer.U64 (covered_through_seq m) ++ Writer.U64 (mf_schema_version m) ++
  Writer.U32 (u32 (Z.of_nat (length (mf_schema m)))) ++ enc_list enc_field (mf_schema m) ++
  enc_counted enc_file (data_files m) ++ enc_counted enc_str (batch_index_files m).

Lemma encode_field_iff f w : encode_field f = Ok w <-> field_valid f /\ w = enc_field f.
Proof.
  unfold encode_field, field_valid, enc_field. rewrite guard_iff, !orb_false_iff, !bool_decide_eq_false, rbind_iff.
  setoid_rewrite Writer_String_iff. split.
  - intros ((H1 & H2) & ? & [F ->] & [= <-]). by split_and!.
  - intros [(H1 & H2 & F) ->]. split_and!; auto. eexists. done.
Qed.

Lemma encode_data_file_iff c f w : encode_data_file c f = Ok w <-> file_valid c f /\ w = enc_file f.
Proof.
  unfold encode_data_file, file_valid, enc_file. rewrite guard_iff, !orb_false_iff, !bool_decide_eq_false, !Z.eqb_neq, !Z.ltb_ge, rbind_iff.
  setoid_rewrite Writer_String_iff. split.
  - intros (((((H1 & H2) & H3) & H4) & H5) & ? & [F ->] & [= <-]). by split_and!.
  - intros [(H1 & H2 & H3 & H4 & H5 & F) ->]. split_and!; auto. eexists. done.
Qed.

Lemma forallb_Forall {A} (p : A -> bool) xs : forallb p xs = true <-> Forall (fun x => p x = true) xs.
Proof. rewrite forallb_forall, Forall_forall. by setoid_rewrite list_elem_of_In. Qed.

Lemma EncodeSequentialManifest_iff m w : EncodeSequentialManifest m = Ok w <-> manifest_valid m /\ w = enc_manifest m.
Proof.
  unfold EncodeSequentialManifest, enc_manifest, enc_counted. rewrite guard_iff, orb_false_iff, bool_decide_eq_false, Nat.eqb_neq, rbind_iff.
  setoid_rewrite Writer_String_iff. split.
  - intros ((H1 & H2) & ? & [F1 ->] & H). apply rbind_iff in H as (? & E & H). apply (encode_all_iff _ _ _ encode_field_iff) in E as [Hfs ->].
    apply guard_iff in H as [Hl H]. apply u32_count_iff in Hl. apply rbind_iff in H as (? & E & H).
    apply (encode_all_iff _ _ _ (encode_data_file_iff _)) in E as [Hdf ->]. apply guard_iff in H as [Hk H].
    apply negb_false_iff, forallb_Forall in Hk. apply rbind_iff in H as (? & E & [= <-]). apply Writer_Strings_iff in E as [Hks ->].
    rewrite (u32_count (length (data_files m))) by done. split; [|by rewrite <- !app_assoc].
    split; [done | | by split | done]. split; [|done]. intros Hn. by rewrite Hn in H2.
  - intros [[[H1 F1] [H2 Hfs] [Hl Hdf] [Hk Hks]] ->]. split; [split; [done | by destruct (mf_schema m)]|].
    eexists. split; [done|]. apply rbind_iff. eexists. split; [by apply (encode_all_iff _ _ _ encode_field_iff)|].
    apply guard_iff. split; [by apply u32_count_iff|]. apply rbind_iff. eexists.
    split; [by apply (encode_all_iff _ _ _ (encode_data_file_iff _))|]. apply guard_iff.
    split; [by apply negb_false_iff, forallb_Forall|]. apply rbind_iff. eexists. split; [by apply Writer_Strings_iff|].
    rewrite (u32_count (length (data_files m))) by done. by rewrite <- !app_assoc.
Qed.

Definition manifest_fields_ok (m : SequentialManifest) : Prop :=
  in_bits 64 (covered_through_seq m) /\ in_bits 64 (mf_schema_version m) /\ (length (mf_schema m) <= 1024)%nat /\
  Forall file_fields_ok (data_files m).

Lemma length_enc_file f : file_fields_ok f -> (28 <= length (enc_file f))%nat.
Proof. intros _. unfold enc_file, Writer.U64. rewrite !length_app, !length_le_bytes. pose proof (length_enc_str (df_path f)). lia. Qed.

Lemma files_reads : reads (Reader.counted (4 + 8 + 8 + 8) "sequential: bad data file count" read_data_file)
  (enc_counted enc_file) (counted file_fields_ok).
Proof. apply counted_iff; [apply read_data_file_reads | done | apply length_enc_file]. Qed.

Lemma read_manifest_iff b m s' : Forall (fun f => f_type f <> Invalid) (mf_schema m) ->
  read_manifest b = (Ok m, s') <->
  (manifest_fields_ok m /\ fits_str (mf_table_id m) /\ Forall (fun f => fits_str (f_name f)) (mf_schema m) /\
   counted file_fields_ok (data_files m) /\ counted fits_str (batch_index_files m)) /\ s' = [] /\ b = enc_manifest m.
Proof.
  intros Hfs. unfold read_manifest, enc_manifest, manifest_fields_ok. split.
  - intros H. read_inv H. apply files_reads in E0 as [Hd ->].
    cbn [mf_schema mf_table_id covered_through_seq mf_schema_version data_files batch_index_files] in *.
    apply read_fields_iff in E as (Hl & Hn & ->); [|done]. rewrite app_nil_r.
    match goal with Hn : in_bits 32 _, Hb : (1024 <? _) = false |- _ => apply Z.ltb_ge in Hb; unfold in_bits in Hn end.
    rewrite u32_small, Hl, Z2Nat.id by lia. split_and!; auto; [lia | apply Hd].
  - intros (((B1 & B2 & Hl & _) & F1 & Hn & Hd & Hk) & -> & ->). rewrite Header_step by done. read_steps.
    rewrite (reads_step _ _ _ _ _ _ U32_reads) by apply u32_range. rewrite u32_small by lia.
    destruct (Z.ltb_spec 1024 (Z.of_nat (length (mf_schema m)))); [lia|]. rewrite Nat2Z.id.
    erewrite bind_ok by (by apply read_fields_iff). rewrite (reads_step _ _ _ _ _ _ files_reads) by done.
    rewrite <- (app_nil_r (enc_counted enc_str _)). read_steps. by destruct m.
Qed.

Lemma DecodeSequentialManifest_iff b m : DecodeSequentialManifest b = Ok m <-> manifest_fields_ok m /\ EncodeSequentialManifest m = Ok b.
Proof.
  assert (Hty : manifest_valid m -> Forall (fun f => f_type f <> Invalid) (mf_schema m)).
  { intros [_ [_ Hfs] _ _]. eapply Forall_impl; [exact Hfs|]. by intros f (_ & ? & _). }
  unfold DecodeSequentialManifest. rewrite rbind_iff. setoid_rewrite rbind_iff. split.
  - intros (s1 & E & w & Ew & [= <-]). destruct (read_manifest b) as [r s'] eqn:Er. simpl in E. subst r.
    apply EncodeSequentialManifest_iff in Ew as [Hv ->]. apply read_manifest_iff in Er as ((Hf & _) & _ & ->); [|auto].
    by rewrite EncodeSequentialManifest_iff.
  - intros [Hf Ew]. pose proof Ew as Ew'. apply EncodeSequentialManifest_iff in Ew' as [Hv ->]. exists m. split; [|by exists (enc_manifest m)].
    assert (read_manifest (enc_manifest m) = (Ok m, [])) as ->; [|done]. apply read_manifest_iff; [auto|].
    destruct Hv as [[? ?] [? Hfs] [? ?] [? ?]], Hf as (? & ? & ? & ?). split_and!; auto; [split_and!; auto| |by split].
    eapply Forall_impl; [exact Hfs|]. by intros f (_ & _ & ?).
Qed.

(** ** Properties *)

(** C22. The three metadata formats are exact: a decoder accepts precisely the
    bytes its encoder produces, and returns the object that was encoded. So
    writing and reading back is the identity, no two objects share an encoding,
    and a truncated, extended or otherwise changed object that is not itself an
    encoding is refused. The side conditions are what the C++ types guarantee
    (64-bit fields) and, for a manifest, the reader's limit of 1024 columns. *)
Theorem metadata_codecs_exact (b : bytes) (s : SequentialState) (m : SequentialManifest) (es : list SequentialBatchEntry) :
  (DecodeSequentialState b = Ok s <-> state_fields_ok s /\ EncodeSequentialState s = Ok b) /\
  (DecodeSequentialManifest b = Ok m <-> manifest_fields_ok m /\ EncodeSequentialManifest m = Ok b) /\
  (DecodeSequentialBatchIndex b = Ok es <-> Forall (fun e => in_bits 64 (en_seq e)) es /\ EncodeSequentialBatchIndex es = Ok b).
Proof. split_and!; [apply DecodeSequentialState_iff | apply DecodeSequentialManifest_iff | apply DecodeSequentialBatchIndex_iff]. Qed.

(** A manifest that can be written but not read: the encoder takes any number
    of columns, the decoder at most 1024. A table with more columns gets its
    initial manifest written, and every later load of it throws. *)
Theorem manifest_too_many_columns (m : SequentialManifest) : manifest_valid m -> 1024 < Z.of_nat (length (mf_schema m)) < 2 ^ 32 ->
  in_bits 64 (covered_through_seq m) -> in_bits 64 (mf_schema_version m) ->
  exists b, EncodeSequentialManifest m = Ok b /\
    DecodeSequentialManifest b = Fail (Throw invalid_argument "sequential: too many columns").
Proof.
  intros Hv Hl B1 B2. exists (enc_manifest m). split; [by apply EncodeSequentialManifest_iff|]. destruct Hv as [[_ Hid] _ _ _].
  unfold DecodeSequentialManifest, read_manifest, enc_manifest. rewrite Header_step by done. read_steps.
  rewrite (reads_step _ _ _ _ _ _ U32_reads) by apply u32_range. rewrite u32_small by lia.
  destruct (Z.ltb_spec 1024 (Z.of_nat (length (mf_schema m)))); [done | lia].
Qed.

Definition wide_manifest : SequentialManifest := mkManifest "t" 0 1 (replicate 1025 (mkField "c" Int64)) [] [].

Lemma manifest_too_many_columns_witness : exists b, EncodeSequentialManifest wide_manifest = Ok b /\
  DecodeSequentialManifest b = Fail (Throw invalid_argument "sequential: too many columns").
Proof.
  apply (manifest_too_many_columns wide_manifest); [|by vm_compute | by split | by split].
  split; [by split | | split; [by split | constructor] | split; [constructor | split; [by split | constructor]]].
  split; [done|]. apply Forall_replicate. by split_and!.
Defined.
