(* ===== verification/WalSpec.v ===== *)
(** * WAL records round-trip

    A WAL record carries chunks of rows; each row is a blob of the row codec.
    What a writer encodes, every reader decodes to the same record, with the
    digest of its contents; the names of the records are distinct. *)

From stdpp Require Import strings.
From S2P Require Import Prelude KeyCodec Table TableSpec Storage SeqCodec SeqCodecSpec.
Open Scope Z_scope.

Section WalSpec.

Context `{!Hashes, !HashesSpec}.
Implicit Types (fs : Schema) (row : list Value) (rows : list (list Value)).

(** ** Chunks of rows *)

Definition chunk_of fs rows : Chunk :=
  mkChunk (all_columns fs) (cols_of fs (all_columns fs) (raws_of fs <$> rows)) (length rows).

Definition enc_row fs row : bytes := enc_blob (wire_row fs (raws_of fs row)).
Definition enc_rows fs rows : bytes := enc_list (enc_row fs) rows.

(** Rows of the schema's types that fill a chunk: at least one, and no more
    than the 32-bit counts of the format can say. *)
Record rows_ok fs rows : Prop := {
  ro_rows : Forall (fun row => row_ok fs row) rows;
  ro_some : rows <> [];
  ro_count : Z.of_nat (length rows) < 2 ^ 32;
  ro_size : Z.of_nat (length (enc_rows fs rows)) < 2 ^ 32;
}.

Lemma length_all_columns fs : length (all_columns fs) = length fs.
Proof. unfold all_columns. by rewrite length_fmap, length_seq. Qed.

Lemma all_columns_nodup fs : NoDup (all_columns fs).
Proof. apply NoDup_fmap_2; [apply _ | apply NoDup_seq]. Qed.

Lemma all_columns_in fs : in_schema fs (all_columns fs).
Proof. apply Forall_fmap, Forall_forall. intros i [_ Hi]%elem_of_seq. simpl. lia. Qed.

Lemma lookup_all_columns fs i : all_columns fs !! i = if decide (i < length fs)%nat then Some (Z.of_nat i) else None.
Proof.
  unfold all_columns. rewrite list_lookup_fmap. case_decide.
  - by rewrite lookup_seq_lt.
  - by rewrite lookup_seq_ge by lia.
Qed.

Lemma cols_of_lookup fs rows i f : fs !! i = Some f ->
  cols_of fs (all_columns fs) (raws_of fs <$> rows) !! i = Some (column_of (f_type f) (cell_at (Z.of_nat i) <$> (raws_of fs <$> rows))).
Proof.
  intros Hf. unfold cols_of. rewrite list_lookup_fmap, lookup_all_columns, decide_True by (by eapply lookup_lt_Some).
  simpl. unfold type_at. by rewrite Nat2Z.id, Hf.
Qed.

Lemma empty_columns fs : cols_of fs (all_columns fs) [] = (fun f => Column_new (f_type f)) <$> fs.
Proof.
  apply list_eq. intros i. rewrite list_lookup_fmap. destruct (fs !! i) as [f|] eqn:Hf; simpl.
  - change [] with (raws_of fs <$> []). rewrite (cols_of_lookup fs [] i f Hf). simpl. by rewrite column_of_nil.
  - apply lookup_ge_None_2. unfold cols_of. rewrite length_fmap, length_all_columns. by apply lookup_ge_None.
Qed.

Lemma pick_all fs row : row_ok fs row -> pick (all_columns fs) row = row.
Proof.
  intros Hr. pose proof (Forall2_length _ _ _ Hr) as Hl. apply list_eq. intros i. unfold pick.
  rewrite list_lookup_fmap, lookup_all_columns. case_decide as Hi; simpl.
  - rewrite Nat2Z.id. destruct (lookup_lt_is_Some_2 row i) as [v Hv]; [lia|]. by rewrite Hv.
  - symmetry. apply lookup_ge_None_2. lia.
Qed.

(** *** The chunk passes the validation *)

Lemma full_from_ok n fs : forall i ids cols, length ids = length fs -> length cols = length fs ->
  (forall j, (j < length fs)%nat -> ids !! j = Some (i + Z.of_nat j)) ->
  (forall j f c, fs !! j = Some f -> cols !! j = Some c -> c_type c = f_type f /\ c_size c = n) ->
  full_from i n ids cols fs = true.
Proof.
  induction fs as [|f fs IH]; intros i [|id ids] [|c cols] Hi Hc Hids Hcols; try done. cbn [full_from].
  pose proof (Hids 0%nat ltac:(simpl; lia)) as Hid. simpl in Hid. injection Hid as ->. destruct (Hcols 0%nat f c eq_refl eq_refl) as [Ht Hs].
  rewrite Z.add_0_r, Z.eqb_refl, bool_decide_true, Hs, Nat.eqb_refl by done. cbn [andb]. apply IH; [by injection Hi | by injection Hc | |].
  - intros j Hj. specialize (Hids (S j) ltac:(simpl; lia)). rewrite lookup_cons in Hids. rewrite Hids. f_equal. lia.
  - intros j g d Hg Hd. apply (Hcols (S j)); done.
Qed.

Lemma chunk_of_full fs rows : rows <> [] -> IsFullSchemaChunk (chunk_of fs rows) fs = true.
Proof.
  intros Hne. unfold IsFullSchemaChunk, chunk_of. cbn [row_count columns column_ids].
  assert (Hl : length (cols_of fs (all_columns fs) (raws_of fs <$> rows)) = length fs) by (unfold cols_of; by rewrite length_fmap, length_all_columns).
  rewrite Hl, length_all_columns, !Nat.eqb_refl. destruct (Nat.eqb_spec (length rows) 0) as [E|_]; [by apply nil_length_inv in E|].
  cbn [orb negb]. apply full_from_ok; auto using length_all_columns.
  - intros j Hj. rewrite lookup_all_columns. by rewrite decide_True.
  - intros j f c Hf. rewrite (cols_of_lookup fs rows j f Hf). intros [= <-]. rewrite c_type_of, c_size_of. by rewrite !length_fmap.
Qed.

(** *** Rows, written and read *)

Lemma Cell_ReadCell col i v : ReadCell col i = Ok v -> Cell col i = Ok v.
Proof. unfold ReadCell, Cell. by destruct (c_type col). Qed.

Lemma row_values_read cols i vs : read_row cols i = Ok vs -> row_values cols i = Ok vs.
Proof.
  revert vs. induction cols as [|c cols IH]; intros vs; [done|]. cbn [read_row row_values]. rewrite !rbind_iff.
  intros (v & Ev & Hx). apply rbind_iff in Hx as (vs' & Evs & [= <-]). exists v. split; [by apply Cell_ReadCell|].
  by rewrite (IH vs').
Qed.

Lemma length_wire_rows fs rows : (length (concat (wire_row fs <$> (raws_of fs <$> rows))) <= length (enc_rows fs rows))%nat.
Proof.
  unfold enc_rows, enc_list, enc_row, enc_blob. induction rows as [|r rows IH]; [done|]. rewrite !fmap_cons. cbn [concat].
  rewrite !length_app. lia.
Qed.

Lemma row_values_ok fs rows i row : rows_ok fs rows -> rows !! i = Some row ->
  row_values (columns (chunk_of fs rows)) i = Ok row.
Proof.
  intros [Hr _ _ Hs] Hi. pose proof (length_wire_rows fs rows) as Hle. apply row_values_read. cbn [chunk_of columns].
  rewrite (read_row_ok fs _ _ i (raws_of fs row)); [| by apply raws_rows | unfold rows_fit; lia | apply all_columns_in | by rewrite list_lookup_fmap, Hi].
  pose proof (Forall_lookup_1 _ _ _ _ Hr Hi) as Hrow. by rewrite project_pick, pick_all by (done || apply all_columns_in).
Qed.

Lemma length_enc_row_le fs rows i row : rows !! i = Some row -> (length (enc_row fs row) <= length (enc_rows fs rows))%nat.
Proof.
  intros Hi. unfold enc_rows, enc_list. rewrite <- (take_drop_middle _ _ _ Hi), fmap_app, fmap_cons, concat_app. cbn [concat].
  rewrite !length_app. lia.
Qed.

Lemma row_fits fs rows i row : rows_ok fs rows -> rows !! i = Some row -> fits_blob (wire_row fs (raws_of fs row)).
Proof.
  intros [_ _ _ Hs] Hi. pose proof (length_enc_row_le fs rows i row Hi) as Hl. unfold enc_row, enc_blob in Hl. rewrite length_app in Hl.
  unfold fits_blob, in_bits. lia.
Qed.

Lemma encode_rows_ok fs rows : rows_ok fs rows -> encode_rows fs (columns (chunk_of fs rows)) (length rows) 0 = Ok (enc_rows fs rows).
Proof.
  intros Hok. enough (Hn : forall n i, (n + i = length rows)%nat ->
    encode_rows fs (columns (chunk_of fs rows)) n i = Ok (enc_rows fs (drop i rows))) by (rewrite Hn; [done | lia]).
  induction n as [|n IH]; intros i Hi; cbn [encode_rows]; [by rewrite drop_ge by lia|].
  destruct (lookup_lt_is_Some_2 rows i) as [row Hrow]; [lia|]. rewrite (row_values_ok _ _ _ row) by done. cbn [result_bind].
  rewrite encode_row_ok by (eapply Forall_lookup_1 in Hrow; [exact Hrow | apply Hok]). cbn [result_bind].
  assert (Writer.Blob (wire_row fs (raws_of fs row)) = Ok (enc_row fs row)) as ->.
  { apply Writer_Blob_iff. split; [by eapply row_fits | done]. }
  cbn [result_bind]. rewrite IH by lia. cbn [result_bind]. by rewrite (drop_S _ row _ Hrow).
Qed.

Lemma decode_rows_ok fs rest : forall rows done_, rows_ok fs (done_ ++ rows) ->
  decode_rows fs (all_columns fs) (length rows) (cols_of fs (all_columns fs) (raws_of fs <$> done_)) (enc_rows fs rows ++ rest) =
    (Ok (cols_of fs (all_columns fs) (raws_of fs <$> (done_ ++ rows))), rest).
Proof.
  induction rows as [|row rows IH]; intros done_ Hok; [by rewrite app_nil_r|]. cbn [decode_rows length].
  assert (Hi : (done_ ++ row :: rows) !! length done_ = Some row) by (by apply list_lookup_middle).
  pose proof (row_fits _ _ _ _ Hok Hi) as Hf. pose proof (Forall_lookup_1 _ _ _ _ (ro_rows _ _ Hok) Hi) as Hr. simpl in Hr.
  unfold enc_rows, enc_list. rewrite fmap_cons. cbn [concat]. unfold enc_row at 1. rewrite <- app_assoc, (reads_step _ _ _ _ _ _ Blob_reads) by done.
  rewrite (bind_ok _ _ _ (cols_of fs (all_columns fs) (raws_of fs <$> (done_ ++ [row]))) (enc_rows fs rows ++ rest)); cycle 1.
  { unfold lift. rewrite decode_into_ok; [by rewrite fmap_app | by apply row_raws | apply all_columns_nodup | apply all_columns_in |].
    unfold fits_blob, in_bits in Hf. lia. }
  rewrite (IH (done_ ++ [row])); by rewrite <- app_assoc.
Qed.

Lemma decode_payload_ok fs rows : rows_ok fs rows ->
  decode_payload fs (Z.of_nat (length rows)) (enc_rows fs rows) = (Ok (columns (chunk_of fs rows)), []).
Proof.
  intros Hok. unfold decode_payload. rewrite Nat2Z.id, <- empty_columns, <- (app_nil_r (enc_rows fs rows)).
  change [] with (raws_of fs <$> []) at 1. by rewrite (bind_ok _ _ _ _ _ (decode_rows_ok fs [] rows [] Hok)).
Qed.

(** *** Chunks *)

Definition chunk_entry fs rows : bytes := wal_entry (Z.of_nat (length rows)) (Z.of_nat (length (enc_rows fs rows))) (enc_rows fs rows).
Definition enc_chunk fs rows : bytes := chunk_entry fs rows ++ Writer.U32 (Crc (chunk_entry fs rows)).

Lemma encode_chunk_ok fs rows : rows_ok fs rows -> encode_chunk fs (chunk_of fs rows) = Ok (chunk_entry fs rows).
Proof.
  intros Hok. pose proof Hok as [_ Hne Hc Hs]. unfold encode_chunk. rewrite chunk_of_full by done. cbn [negb orb chunk_of row_count].
  destruct (Z.ltb_spec UINT32_MAX (Z.of_nat (length rows))); [unfold UINT32_MAX in *; lia|].
  rewrite encode_rows_ok by done. cbn [result_bind]. by rewrite !u32_small by lia.
Qed.

Lemma Crc_bits b : in_bits 32 (Crc b).
Proof. apply u32_range. Qed.

Lemma read_chunk_ok fs rows rest : rows_ok fs rows ->
  read_chunk fs (enc_chunk fs rows ++ rest) = (Ok (chunk_of fs rows, chunk_entry fs rows), rest).
Proof.
  intros Hok. pose proof Hok as [_ Hne Hc Hs]. unfold read_chunk, enc_chunk, chunk_entry, wal_entry. rewrite <- !app_assoc.
  rewrite (reads_step _ _ _ _ _ _ U32_reads) by (unfold in_bits; lia).
  destruct (Z.eqb_spec (Z.of_nat (length rows)) 0) as [E|_]; [destruct rows; [done | simpl in E; lia]|].
  rewrite (reads_step _ _ _ _ _ _ U32_reads) by (unfold in_bits; lia).
  erewrite bind_ok by (apply Raw_iff; [lia | by split]). cbv zeta.
  rewrite (reads_step _ _ _ _ _ _ U32_reads) by apply Crc_bits. unfold wal_entry. rewrite Z.eqb_refl. cbn [negb].
  rewrite decode_payload_ok by done. rewrite (bind_ok _ _ rest (columns (chunk_of fs rows)) rest) by done.
  by rewrite Nat2Z.id.
Qed.

Definition enc_chunks fs (rss : list (list (list Value))) : bytes := enc_list (enc_chunk fs) rss.
Definition chunk_entries fs (rss : list (list (list Value))) : bytes := enc_list (chunk_entry fs) rss.

Fixpoint total_rows (rss : list (list (list Value))) : Z :=
  match rss with [] => 0 | rows :: rss => u64 (Z.of_nat (length rows) + total_rows rss) end.

Lemma total_rows_bits rss : in_bits 64 (total_rows rss).
Proof. destruct rss; [done | apply u64_range]. Qed.

Lemma encode_chunks_ok fs rss : Forall (fun rows => rows_ok fs rows) rss ->
  encode_chunks fs (chunk_of fs <$> rss) = Ok (enc_chunks fs rss, chunk_entries fs rss, total_rows rss).
Proof.
  induction 1 as [|rows rss Hr _ IH]; [done|]. rewrite fmap_cons. cbn [encode_chunks]. rewrite encode_chunk_ok by done. cbn [result_bind].
  rewrite IH. cbn [result_bind]. unfold enc_chunks, chunk_entries, enc_list. rewrite !fmap_cons. cbn [concat]. rewrite app_assoc. done.
Qed.

Lemma read_chunks_ok fs rss rest : Forall (fun rows => rows_ok fs rows) rss ->
  read_chunks fs (length rss) (enc_chunks fs rss ++ rest) = (Ok (chunk_of fs <$> rss, chunk_entries fs rss, total_rows rss), rest).
Proof.
  induction 1 as [|rows rss Hr _ IH]; [done|]. cbn [read_chunks length]. unfold enc_chunks, chunk_entries, enc_list. rewrite !fmap_cons. cbn [concat].
  rewrite <- app_assoc, (bind_ok _ _ _ _ _ (read_chunk_ok fs rows _ Hr)), (bind_ok _ _ _ _ _ IH). done.
Qed.

(** ** Records *)

Record wal_ok fs (wal : SequentialWal) (rss : list (list (list Value))) : Prop := {
  wo_id : wal_table_id wal <> "" /\ fits_str (wal_table_id wal);
  wo_seq : 0 < wal_seq wal < 2 ^ 64;
  wo_epoch : 0 < wal_epoch wal < 2 ^ 64;
  wo_version : wal_schema_version wal = 1;
  wo_op : operation_id wal <> "" /\ fits_str (operation_id wal);
  wo_ids : counted fits_str (batch_ids wal);
  wo_chunks : chunks wal = chunk_of fs <$> rss;
  wo_rows : Forall (fun rows => rows_ok fs rows) rss;
  wo_count : Z.of_nat (length rss) <= 1000000;
  wo_kind : match kind wal with KAppend => batch_ids wal <> [] /\ rss <> [] | KFence => batch_ids wal = [] /\ rss = [] end;
}.

Definition logical_bytes fs (ids : list string) rss : bytes := Writer.U64 1 ++ enc_counted enc_str ids ++ chunk_entries fs rss.
Definition wal_digest fs (ids : list string) rss : bytes := Digest (logical_bytes fs ids rss).

Definition enc_wal_body fs (wal : SequentialWal) rss : bytes :=
  Writer.Header "DBW2" ++ Writer.U8 (Kind_u8 (kind wal)) ++ enc_str (wal_table_id wal) ++ Writer.U64 (wal_seq wal) ++
  Writer.U64 (wal_epoch wal) ++ Writer.U64 1 ++ enc_str (operation_id wal) ++ enc_counted enc_str (batch_ids wal) ++
  Writer.U32 (Z.of_nat (length rss)) ++ enc_chunks fs rss ++ Writer.U64 (total_rows rss) ++ wal_digest fs (batch_ids wal) rss.
Definition enc_wal fs wal rss : bytes := enc_wal_body fs wal rss ++ Writer.U32 (Crc (enc_wal_body fs wal rss)) ++ lit "DBW2".

Definition with_digest (d : bytes) (wal : SequentialWal) : SequentialWal :=
  mkWal (kind wal) (wal_table_id wal) (wal_seq wal) (wal_epoch wal) (wal_schema_version wal) (operation_id wal) (batch_ids wal) (chunks wal) d.

Lemma wal_logical_ok fs ids rss : counted fits_str ids -> wal_logical 1 ids (chunk_entries fs rss) = Ok (logical_bytes fs ids rss).
Proof.
  intros Hi. unfold wal_logical. assert (Writer.Strings ids = Ok (enc_counted enc_str ids)) as -> by (by apply Writer_Strings_iff). done.
Qed.

(** The three checks on the contents, which writer and reader share. *)
Lemma contents_checks fs wal rss : wal_ok fs wal rss ->
  (bool_decide (wal_table_id wal = "") || (wal_seq wal =? 0) || (wal_epoch wal =? 0) || bool_decide (operation_id wal = "")) = false /\
  (bool_decide (kind wal = KAppend) && (bool_decide (batch_ids wal = []) || (length (chunks wal) =? 0)%nat)) = false /\
  (bool_decide (kind wal = KFence) && (negb (bool_decide (batch_ids wal = [])) || negb (length (chunks wal) =? 0)%nat)) = false.
Proof.
  intros [[Hid _] Hs He _ [Hop _] _ Hc _ _ Hk]. rewrite Hc, length_fmap.
  rewrite !bool_decide_false by done. destruct (Z.eqb_spec (wal_seq wal) 0), (Z.eqb_spec (wal_epoch wal) 0); try lia. split; [done|].
  destruct (kind wal), Hk as [Hb Hr]; split; try done.
  - rewrite bool_decide_true, bool_decide_false by done. by destruct rss.
  - by rewrite bool_decide_true, Hb, Hr.
Qed.

Lemma encode_wal_ok fs wal rss : wal_ok fs wal rss -> EncodeSequentialWal wal fs = Ok (enc_wal fs wal rss).
Proof.
  intros Hok. destruct (contents_checks _ _ _ Hok) as (C1 & C2 & C3). destruct Hok as [[_ Hid] _ _ Hv [_ Hop] Hb Hc Hr Hn _].
  unfold EncodeSequentialWal. rewrite C1, C2, C3, Hv, Hc, length_fmap. cbn [Z.eqb negb orb].
  destruct (Z.ltb_spec UINT32_MAX (Z.of_nat (length rss))); [unfold UINT32_MAX in *; lia|].
  unfold wal_header. rewrite (proj2 (Writer_String_iff _ _) (conj Hid eq_refl)). cbn [result_bind].
  rewrite (proj2 (Writer_String_iff _ _) (conj Hop eq_refl)). cbn [result_bind].
  rewrite (proj2 (Writer_Strings_iff _ _) (conj Hb eq_refl)). cbn [result_bind].
  rewrite encode_chunks_ok by done. cbn [result_bind]. rewrite wal_logical_ok by done. cbn [result_bind].
  rewrite Hv, Hc, length_fmap, u32_small by lia. unfold enc_wal, enc_wal_body, wal_digest. by rewrite <- !app_assoc.
Qed.

Lemma read_kind_ok k rest : read_kind (Writer.U8 (Kind_u8 k) ++ rest) = (Ok k, rest).
Proof.
  unfold read_kind. rewrite (bind_ok _ _ _ (Kind_u8 k) rest); [by destruct k|]. apply U8_iff. split; [|done]. destruct k; unfold in_bits; simpl; lia.
Qed.

Lemma read_wal_ok fs wal rss b : wal_ok fs wal rss -> b = enc_wal fs wal rss ->
  read_wal b fs b = (Ok (with_digest (wal_digest fs (batch_ids wal) rss) wal), []).
Proof.
  intros Hok Eb. destruct Hok as [[_ Hid] Hs He Hv [_ Hop] Hb Hc Hr Hn _].
  assert (Hcrc : take (length b - 8) b = enc_wal_body fs wal rss).
  { rewrite Eb. unfold enc_wal. rewrite !length_app. unfold Writer.U32. rewrite length_le_bytes. change (length (lit "DBW2")) with 4%nat.
    rewrite take_app_le, take_ge by lia. done. }
  unfold read_wal. rewrite Hcrc. unfold enc_wal in Eb. pose proof (Crc_bits (enc_wal_body fs wal rss)) as Hbits.
  remember (Crc (enc_wal_body fs wal rss)) as crc eqn:Ec. clear Hcrc Ec. subst b. unfold enc_wal_body. rewrite <- !app_assoc.
  rewrite Header_step by done. rewrite (bind_ok _ _ _ _ _ (read_kind_ok _ _)).
  rewrite (reads_step _ _ _ _ _ _ String_reads) by done. rewrite !(reads_step _ _ _ _ _ _ U64_reads) by (unfold in_bits; lia).
  rewrite (reads_step _ _ _ _ _ _ String_reads), (reads_step _ _ _ _ _ _ Strings_reads) by done.
  rewrite (reads_step _ _ _ _ _ _ U32_reads) by (unfold in_bits; lia).
  destruct (Z.ltb_spec 1000000 (Z.of_nat (length rss))); [lia|]. rewrite Nat2Z.id.
  rewrite (bind_ok _ _ _ _ _ (read_chunks_ok fs rss _ Hr)). cbv beta iota.
  rewrite (reads_step _ _ _ _ _ _ U64_reads) by apply total_rows_bits. rewrite Z.eqb_refl. cbn [negb].
  erewrite bind_ok by (apply Raw_iff; [done | split; [apply SHA256_length | done]]).
  rewrite (bind_ok _ _ _ (logical_bytes fs (batch_ids wal) rss) _) by (unfold lift; by rewrite wal_logical_ok).
  rewrite bool_decide_true by done. cbn [negb]. unfold Reader.Remaining at 1, gets at 1. erewrite bind_ok by done. cbv beta.
  assert (Hlen : Z.of_nat (length (Writer.U32 crc ++ lit "DBW2")) = 8) by (unfold Writer.U32; rewrite length_app, length_le_bytes; done).
  rewrite Hlen, Z.eqb_refl. cbn [negb].
  rewrite (reads_step _ _ _ _ _ _ U32_reads) by done. rewrite Z.eqb_refl. cbn [negb].
  rewrite (bind_ok _ _ _ tt []) by (by apply Magic_iff; [|rewrite app_nil_r]). unfold with_digest. rewrite Hv, Hc. done.
Qed.

Lemma decode_wal_ok fs wal rss : wal_ok fs wal rss ->
  DecodeSequentialWal (enc_wal fs wal rss) fs = Ok (with_digest (wal_digest fs (batch_ids wal) rss) wal).
Proof.
  intros Hok. unfold DecodeSequentialWal. destruct (Z.ltb_spec (Z.of_nat (length (enc_wal fs wal rss))) 8) as [Hl|_].
  { exfalso. unfold enc_wal in Hl. rewrite !length_app in Hl. unfold Writer.U32 in Hl. rewrite length_le_bytes in Hl.
    change (length (lit "DBW2")) with 4%nat in Hl. lia. }
  rewrite (read_wal_ok fs wal rss) by done. cbn [fst result_bind]. destruct (contents_checks _ _ _ Hok) as (C1 & C2 & C3).
  cbn [with_digest wal_table_id wal_seq wal_epoch operation_id kind batch_ids chunks]. by rewrite C1, C2, C3.
Qed.

End WalSpec.

(** ** Names of records *)

Lemma digit_inj a b : 0 <= a < 10 -> 0 <= b < 10 -> digit a = digit b -> a = b.
Proof.
  unfold digit. intros Ha Hb H. apply (f_equal Ascii.nat_of_ascii) in H. rewrite !Ascii.nat_ascii_embedding in H by lia. lia.
Qed.

Lemma dec_digits_inj k : forall a b, 0 <= a < 10 ^ Z.of_nat k -> 0 <= b < 10 ^ Z.of_nat k -> dec_digits k a = dec_digits k b -> a = b.
Proof.
  enough (H : forall a b, dec_digits k a = dec_digits k b -> a mod 10 ^ Z.of_nat k = b mod 10 ^ Z.of_nat k).
  { intros a b Ha Hb E. apply H in E. by rewrite !Z.mod_small in E by lia. }
  induction k as [|k IH]; intros a b H; [by rewrite !Z.mod_1_r|]. cbn [dec_digits] in H. injection H as Hd Hr. apply IH in Hr.
  apply digit_inj in Hd; [|apply Z.mod_pos_bound; lia..]. rewrite Nat2Z.inj_succ, Z.pow_succ_r, Z.mul_comm by lia.
  assert (0 < 10 ^ Z.of_nat k) by (apply Z.pow_pos_nonneg; lia).
  rewrite !Z.rem_mul_r by lia. by rewrite Hd, Hr.
Qed.

Lemma length_dec_digits k n : String.length (dec_digits k n) = k.
Proof. induction k as [|k IH]; simpl; [done | by rewrite IH]. Qed.

Lemma string_app_inv_l a b c : a +:+ b = a +:+ c -> b = c.
Proof. induction a as [|x a IH]; [done|]. intros [= H]. auto. Qed.

Lemma string_app_inv_len a b c d : String.length a = String.length c -> a +:+ b = c +:+ d -> a = c /\ b = d.
Proof.
  revert c. induction a as [|x a IH]; intros [|y c] Hl H; try done. simpl in Hl. injection H as -> H.
  destruct (IH c ltac:(lia) H) as [-> ->]. done.
Qed.

Lemma wal_key_inj t a b k : 0 < a < 2 ^ 64 -> 0 < b < 2 ^ 64 -> SequentialWalKey t a = Ok k -> SequentialWalKey t b = Ok k -> a = b.
Proof.
  intros Ha Hb. unfold SequentialWalKey. destruct (Z.eqb_spec a 0), (Z.eqb_spec b 0); try lia. destruct (bool_decide _); [done|].
  intros <- H. assert (Hinj : forall x y : string, Ok x = Ok y -> x = y) by congruence. apply Hinj, string_app_inv_l in H.
  apply (string_app_inv_l "/wal/") in H.
  apply string_app_inv_len in H as [H _]; [|by rewrite !length_dec_digits]. symmetry.
  assert (2 ^ 64 < 10 ^ Z.of_nat 20) by done. apply dec_digits_inj in H; lia.
Qed.

(** ** Decoding arbitrary bytes

    A reader is safe when it returns or throws: it never reads out of bounds,
    and it only ever moves forward. *)

Definition returns_or_throws {A} (Q : A -> Prop) (r : result A) : Prop :=
  match r with Ok a => Q a | Fail (Throw _ _) => True | Fail _ => False end.

Definition safe_reader {A} (m : M bytes A) (Q : A -> Prop) : Prop :=
  forall s, Z.of_nat (length s) < 2 ^ 63 -> returns_or_throws Q (m s).1 /\ (length (m s).2 <= length s)%nat.

Lemma safe_ret {A} (a : A) (Q : A -> Prop) : Q a -> safe_reader (ret a) Q.
Proof. intros Ha s _. by split. Qed.

Lemma safe_throw {A} k msg (Q : A -> Prop) : safe_reader (throw k msg) Q.
Proof. intros s _. by split. Qed.

Lemma safe_lift {A} (r : result A) (Q : A -> Prop) : returns_or_throws Q r -> safe_reader (lift r) Q.
Proof. intros Hr s _. by split. Qed.

Lemma safe_bind {A B} (m : M bytes A) (f : A -> M bytes B) (P : A -> Prop) (Q : B -> Prop) :
  safe_reader m P -> (forall a, P a -> safe_reader (f a) Q) -> safe_reader (bind m f) Q.
Proof.
  intros Hm Hf s Hs. destruct (Hm s Hs) as [Hr Hl]. unfold bind. destruct (m s) as [[a|[]] s1]; simpl in *; try done.
  destruct (Hf a Hr s1) as [Hq Hl2]; [lia|]. split; [done | lia].
Qed.

Lemma safe_mono {A} (m : M bytes A) (P Q : A -> Prop) : safe_reader m P -> (forall a, P a -> Q a) -> safe_reader m Q.
Proof. intros Hm HPQ s Hs. destruct (Hm s Hs) as [Hr Hl]. split; [|done]. destruct (m s).1 as [a|[]]; simpl in *; auto. Qed.

Lemma safe_if {A} (c : bool) (m1 m2 : M bytes A) Q : safe_reader m1 Q -> safe_reader m2 Q -> safe_reader (if c then m1 else m2) Q.
Proof. by destruct c. Qed.

Lemma safe_Remaining : safe_reader Reader.Remaining (fun _ => True).
Proof. intros s _. by split. Qed.

Lemma safe_Raw n : 0 <= n -> safe_reader (Reader.Raw n) (fun b => Z.of_nat (length b) = n /\ n < 2 ^ 63).
Proof.
  intros Hn s Hs. unfold Reader.Raw, Reader.Need, Reader.Remaining, gets, bind, get, put, ret, throw, fail.
  destruct (Z.ltb_spec (Z.of_nat (length s)) n); [by split|]. split; [split|]; cbn [fst snd]; rewrite ?length_take, ?length_drop; lia.
Qed.

Create HintDb reader.
#[local] Hint Resolve safe_ret safe_throw safe_Remaining : reader.

Lemma safe_U8 : safe_reader Reader.U8 (fun z => 0 <= z).
Proof. eapply safe_bind; [by apply safe_Raw|]. intros b _. apply safe_ret, le_value_range. Qed.

Lemma safe_UN k : safe_reader (Reader.UN k) (fun z => 0 <= z).
Proof.
  induction k as [|k IH]; cbn [Reader.UN]; [by apply safe_ret|]. eapply safe_bind; [apply safe_U8|].
  intros b Hb. eapply safe_bind; [exact IH|]. intros r Hr. apply safe_ret. cbv beta in *. lia.
Qed.

Lemma safe_U32 : safe_reader Reader.U32 (fun z => 0 <= z).
Proof. apply safe_UN. Qed.
Lemma safe_U64 : safe_reader Reader.U64 (fun z => 0 <= z).
Proof. apply safe_UN. Qed.

Lemma safe_Blob : safe_reader Reader.Blob (fun b => Z.of_nat (length b) < 2 ^ 63).
Proof. eapply safe_bind; [apply safe_U32|]. intros n Hn. eapply safe_mono; [by apply safe_Raw|]. intros b [Hb Hn']. cbv beta. lia. Qed.

Lemma safe_String : safe_reader Reader.String_ (fun _ => True).
Proof. eapply safe_bind; [apply safe_Blob|]. auto with reader. Qed.

Lemma safe_times {A} (m : M bytes A) (P : A -> Prop) n : safe_reader m P -> safe_reader (Reader.times n m) (fun xs => length xs = n /\ Forall P xs).
Proof.
  intros Hm. induction n as [|n IH]; cbn [Reader.times]; [by apply safe_ret|].
  eapply safe_bind; [exact Hm|]. intros x Hx. eapply safe_bind; [exact IH|]. intros xs [Hl Hxs]. apply safe_ret. split; [simpl; lia | by constructor].
Qed.

Lemma safe_counted {A} k msg (m : M bytes A) (P : A -> Prop) : safe_reader m P -> safe_reader (Reader.counted k msg m) (Forall P).
Proof.
  intros Hm. eapply safe_bind; [apply safe_U32|]. intros n _. eapply safe_bind; [apply safe_Remaining|]. intros r _.
  apply safe_if; [apply safe_throw|]. eapply safe_mono; [by apply safe_times|]. by intros xs [_ ?].
Qed.

Lemma safe_Magic m : safe_reader (Reader.Magic m) (fun _ => True).
Proof. eapply safe_bind; [by apply safe_Raw|]. intros b _. apply safe_if; auto with reader. Qed.

Lemma safe_Header m : safe_reader (Reader.Header m) (fun _ => True).
Proof.
  eapply safe_bind; [apply safe_Magic|]. intros _ _. eapply safe_bind; [apply safe_U32|]. intros v _. apply safe_if; auto with reader.
Qed.

Lemma safe_End : safe_reader Reader.End_ (fun _ => True).
Proof. eapply safe_bind; [apply safe_Remaining|]. intros r _. apply safe_if; auto with reader. Qed.

(** *** Rows into columns *)

(** The columns of a chunk after [n] rows. *)
Definition shaped (fs : Schema) (n : nat) (cols : list Column) : Prop :=
  Forall2 (fun f c => c_type c = f_type f /\ c_size c = n) fs cols.

Lemma append_field_shape t raw c : c_type (append_field t raw c) = c_type c /\ c_size (append_field t raw c) = S (c_size c).
Proof. by destruct t. Qed.

Lemma decode_full_loop n : forall fs1 fs blob off done_ cols, 0 <= off <= Z.of_nat (length blob) -> Z.of_nat (length blob) < 2 ^ 63 ->
  shaped fs1 (S n) done_ -> shaped fs n cols ->
  returns_or_throws (shaped (fs1 ++ fs) (S n))
    (decode_into_loop fs (Z.of_nat <$> seq (length done_) (length fs)) off blob (done_ ++ cols)).
Proof.
  intros fs1 fs blob. revert fs1. induction fs as [|f fs IH]; intros fs1 off done_ cols Ho Hl Hd Hc.
  - apply Forall2_nil_inv_l in Hc as ->. simpl. by rewrite !app_nil_r.
  - apply Forall2_cons_inv_l in Hc as (c & cols' & [Ht Hs] & Hc & ->). cbn [length seq]. rewrite fmap_cons. cbn [decode_into_loop].
    pose proof (read_field_safe "DecodeInto" (f_type f) off blob ltac:(lia) Hl ltac:(lia)) as Hr.
    destruct (read_field _ _ _ _) as [[raw off']|[]]; try done. cbn [result_bind].
    destruct (Z.leb_spec 0 (Z.of_nat (length done_))); [|lia]. rewrite Nat2Z.id, list_lookup_middle by done.
    assert (<[length done_ := append_field (f_type f) raw c]> (done_ ++ c :: cols') = (done_ ++ [append_field (f_type f) raw c]) ++ cols') as ->.
    { rewrite insert_app_r_alt by lia. by rewrite Nat.sub_diag, <- app_assoc. }
    rewrite (cons_middle f fs1 fs), app_assoc.
    replace (S (length done_)) with (length (done_ ++ [append_field (f_type f) raw c])) by (rewrite length_app; simpl; lia).
    apply IH; [lia | done | | done]. apply Forall2_app; [done|]. constructor; [|constructor].
    destruct (append_field_shape (f_type f) raw c) as [-> ->]. split; [done | lia].
Qed.

Lemma fill_all_columns fs : fill_out_pos 0 (all_columns fs) (replicate (length fs) (-1)) = Ok (all_columns fs).
Proof.
  destruct (fill_out_pos_ok (all_columns fs) 0 (replicate (length fs) (-1))) as (op & E & Hl & Hp & _).
  { apply all_columns_nodup. } { done. } { rewrite length_replicate. apply all_columns_in. }
  rewrite E. f_equal. rewrite length_replicate in Hl. apply list_eq. intros i. rewrite lookup_all_columns. case_decide as Hi.
  - pose proof (Hp i (Z.of_nat i)) as H. rewrite lookup_all_columns, decide_True, Nat2Z.id in H by done. by rewrite H.
  - apply lookup_ge_None_2. lia.
Qed.

Lemma DecodeInto_full_safe fs n blob cols : Z.of_nat (length blob) < 2 ^ 63 -> shaped fs n cols ->
  returns_or_throws (shaped fs (S n)) (DecodeInto fs blob (all_columns fs) cols).
Proof.
  intros Hl Hc. unfold DecodeInto. rewrite fill_all_columns. cbn [result_bind].
  apply (decode_full_loop n [] fs blob 0 [] cols); [lia | done | constructor | done].
Qed.

Lemma safe_decode_rows fs n : forall m cols, shaped fs m cols -> safe_reader (decode_rows fs (all_columns fs) n cols) (shaped fs (n + m)).
Proof.
  induction n as [|n IH]; intros m cols Hc; cbn [decode_rows]; [by apply safe_ret|].
  eapply safe_bind; [apply safe_Blob|]. intros b Hb. eapply safe_bind; [by apply safe_lift, DecodeInto_full_safe|].
  intros cols' Hc'. replace (S n + m)%nat with (n + S m)%nat by lia. by apply IH.
Qed.

(** A decoded chunk has a column for every field, of its type, all as long as
    the row count says. *)
Definition chunk_shaped (fs : Schema) (c : Chunk) : Prop :=
  column_ids c = all_columns fs /\ row_count c <> 0%nat /\ shaped fs (row_count c) (columns c).

Lemma safe_read_chunk `{!Hashes} fs : safe_reader (read_chunk fs) (fun x => chunk_shaped fs x.1).
Proof.
  eapply safe_bind; [apply safe_U32|]. intros rows Hr. destruct (Z.eqb_spec rows 0) as [|Hne]; [apply safe_throw|].
  eapply safe_bind; [apply safe_U32|]. intros size Hs. eapply safe_bind; [by apply safe_Raw|]. intros payload [Hl Hb]. cbv zeta.
  eapply safe_bind; [apply safe_U32|]. intros crc _. apply safe_if; [apply safe_throw|].
  assert (Hp : safe_reader (decode_payload fs rows) (shaped fs (Z.to_nat rows))).
  { eapply safe_bind; [apply (safe_decode_rows fs _ 0)|].
    - rewrite <- empty_columns. unfold cols_of, shaped. apply Forall2_same_length_lookup_2; [by rewrite length_fmap, length_all_columns|].
      intros i f c Hf. change [] with (raws_of fs <$> []). fold (cols_of fs (all_columns fs) (raws_of fs <$> [])).
      rewrite (cols_of_lookup fs [] i f Hf). intros [= <-]. by rewrite c_type_of, c_size_of.
    - intros cols Hc. rewrite Nat.add_0_r in Hc. eapply safe_bind; [apply safe_End|]. intros _ _. by apply safe_ret. }
  eapply safe_bind; [by apply safe_lift, Hp; lia|]. intros cols Hc. apply safe_ret. split; [done|]. split; [cbv beta in Hr; cbn [fst row_count]; lia | done].
Qed.

Lemma safe_read_chunks `{!Hashes} fs n : safe_reader (read_chunks fs n) (fun x => Forall (chunk_shaped fs) x.1.1).
Proof.
  induction n as [|n IH]; cbn [read_chunks]; [by apply safe_ret|]. eapply safe_bind; [apply safe_read_chunk|]. intros [c entry] Hc.
  eapply safe_bind; [exact IH|]. intros [[cs entries] total] Hcs. apply safe_ret. by constructor.
Qed.

(** ** Properties *)

(** C21. A WAL record survives the store: the encoding of a well-formed record
    (non-empty names, a fence without batches or an append with some, chunks of
    rows of the schema's types) exists, and decoding it gives back the same
    record with the digest of its batch ids and chunks; every length prefix,
    count, CRC, the digest and the footer agree on the way. *)
Theorem Wal_roundtrip `{!Hashes, !HashesSpec} (fs : Schema) (wal : SequentialWal) (rss : list (list (list Value))) :
  wal_ok fs wal rss ->
  exists b, EncodeSequentialWal wal fs = Ok b /\
    DecodeSequentialWal b fs = Ok (with_digest (wal_digest fs (batch_ids wal) rss) wal).
Proof. intros Hok. exists (enc_wal fs wal rss). split; [by apply encode_wal_ok | by apply decode_wal_ok]. Qed.

(** C23. Decoding arbitrary bytes as a WAL record is memory-safe: for every input
    and schema it returns or throws, it never reads past the input, and what it
    returns has, in every chunk, one column per field, of the field's type and
    with as many values as the row count says. *)
Theorem DecodeSequentialWal_safe `{!Hashes} (fs : Schema) (b : bytes) : Z.of_nat (length b) < 2 ^ 63 ->
  returns_or_throws (fun wal => Forall (chunk_shaped fs) (chunks wal)) (DecodeSequentialWal b fs).
Proof.
  intros Hl. unfold DecodeSequentialWal. destruct (_ <? 8); [done|].
  assert (Hs : safe_reader (read_wal b fs) (fun wal => Forall (chunk_shaped fs) (chunks wal))).
  { eapply safe_bind; [apply safe_Header|]. intros _ _.
    eapply safe_bind with (P := fun _ => True).
    { eapply safe_bind; [apply safe_U8|]. intros k _. repeat apply safe_if; by (apply safe_ret || apply safe_throw). }
    intros k _. eapply safe_bind; [apply safe_String|]. intros id _. do 3 (eapply safe_bind; [apply safe_U64|]; intros ? _).
    eapply safe_bind; [apply safe_String|]. intros op _. eapply safe_bind; [apply safe_counted, safe_String|]. intros ids _.
    eapply safe_bind; [apply safe_U32|]. intros n _. apply safe_if; [apply safe_throw|].
    eapply safe_bind; [apply safe_read_chunks|]. intros [[cs entries] total] Hcs.
    eapply safe_bind; [apply safe_U64|]. intros r _. apply safe_if; [apply safe_throw|].
    eapply safe_bind; [by apply safe_Raw|]. intros d _. eapply safe_bind with (P := fun _ => True).
    { apply safe_lift. unfold wal_logical, Writer.Strings. destruct (_ <? _); [done|]. clear.
      induction ids as [|x ids IH]; [done|]. cbn [Writer.concat_strings]. unfold Writer.String_, Writer.Blob. destruct (_ <? _); [done|].
      cbn [result_bind]. by destruct (Writer.concat_strings ids) as [|[]]. }
    intros logical _. apply safe_if; [apply safe_throw|]. eapply safe_bind; [apply safe_Remaining|]. intros rem _.
    apply safe_if; [apply safe_throw|]. eapply safe_bind; [apply safe_U32|]. intros crc _. apply safe_if; [apply safe_throw|].
    eapply safe_bind; [apply safe_Magic|]. intros _ _. eapply safe_bind; [apply safe_End|]. intros _ _. by apply safe_ret. }
  destruct (Hs b Hl) as [Hr _]. destruct (read_wal b fs b).1 as [wal|[]]; try done. cbn [result_bind]. by destruct (_ || _).
Qed.

(** A concrete pair of hash functions and a concrete record. *)
Definition demo_hashes : Hashes := {| crc32 := fun b => foldr (fun x acc => byte_to_Z x + 3 * acc) 7 b;
                                      SHA256 := fun b => le_bytes 32 (foldr (fun x acc => byte_to_Z x + 5 * acc) 11 b) |}.
Lemma demo_hashes_spec : @HashesSpec demo_hashes.
Proof. constructor. intros b. unfold SHA256, demo_hashes. by rewrite length_le_bytes. Qed.

Definition demo_fs : Schema := [mkField "id" Int32; mkField "name" String_].
Definition demo_rows : list (list Value) := [[Value_Int32 7; Value_String (lit "a")]; [Value_Int32 (-1); Value_String []]].
Definition demo_wal : SequentialWal :=
  mkWal KAppend "t1" 5 2 1 "b1" ["b1"; "b2"] [chunk_of demo_fs demo_rows] [].

Lemma wal_demo_rows_ok : rows_ok demo_fs demo_rows.
Proof.
  split; [|done | by vm_compute | by vm_compute]. repeat constructor; simpl.
  - exists 7. split; [lia | done].
  - eexists. split; [|done]. by vm_compute.
  - exists (-1). split; [lia | done].
  - eexists. split; [|done]. by vm_compute.
Qed.

Lemma demo_wal_ok : wal_ok demo_fs demo_wal [demo_rows].
Proof.
  split; try done.
  - split; [split; by vm_compute|]. repeat constructor; by vm_compute.
  - constructor; [apply wal_demo_rows_ok | constructor].
Qed.

Lemma Wal_roundtrip_witness : exists b, @EncodeSequentialWal demo_hashes demo_wal demo_fs = Ok b /\
  @DecodeSequentialWal demo_hashes b demo_fs = Ok (with_digest (@wal_digest demo_hashes demo_fs ["b1"; "b2"] [demo_rows]) demo_wal).
Proof. exact (@Wal_roundtrip demo_hashes demo_hashes_spec demo_fs demo_wal [demo_rows] demo_wal_ok). Defined.

Lemma DecodeSequentialWal_safe_witness :
  returns_or_throws (fun wal => Forall (chunk_shaped demo_fs) (chunks wal)) (@DecodeSequentialWal demo_hashes (lit "DBW2garbage") demo_fs).
Proof. apply (@DecodeSequentialWal_safe demo_hashes demo_fs (lit "DBW2garbage")). by vm_compute. Defined.
