(* ===== verification/Cloud.v ===== *)
(** * Cloud tables: the sequential protocol

    Models the rest of [Cloud/SequentialProtocol] (loading a WAL record, the
    state store), [Cloud/CloudTableWriter], [Cloud/CloudWalIndexer],
    [Cloud/TableSnapshotLoader], [Cloud/CloudTable], [Cloud/CloudTableSource]
    and [Cloud/CloudServices].

    Several nodes run these operations at the same time against two shared
    stores, so an operation is a program whose only effects are calls to the
    stores: everything between two calls is private to a node, and programs of
    different nodes interleave at the calls. An exception is a value, [Fail];
    the object of a node (a writer) survives it. *)

From stdpp Require Import strings pretty sorting.
From S2P Require Import Prelude KeyCodec Table Storage SeqCodec.
Import MemMetadataStore.
Open Scope Z_scope.

(** ** Programs *)

(** The operations of [IMetadataStore] and of [IStorage] the protocol uses, the
    writer of a data file (opened, fed and closed) and the key generator. *)
Inductive call : Type -> Type :=
| MetaGet (key : string) : call (option VersionedValue)
| MetaPutIfAbsent (key : string) (v : bytes) : call (ConditionalWriteResult * option MetadataVersion)
| MetaCompareExchange (key : string) (expected : MetadataVersion) (v : bytes) : call (ConditionalWriteResult * option MetadataVersion)
| FileOpenInput (path : string) : call (option MemStorage.MemInputFile)
| FileCreateIfAbsent (path : string) (b : bytes) : call CreateFileResult
| FileWriteData (path : string) (b : bytes) : call unit
| NewDataFileKey (table_id : string) : call string
| NewManifestKey (table_id : string) : call string.

Inductive prog (A : Type) : Type :=
| Return (a : A)
| Call {B : Type} (c : call B) (k : result B -> prog A).
Arguments Return {A} a.
Arguments Call {A B} c k.

Fixpoint prog_bind {A B} (p : prog A) (f : A -> prog B) : prog B :=
  match p with
  | Return a => f a
  | Call c k => Call c (fun r => prog_bind (k r) f)
  end.

(** A step of a node whose object is a [W]. *)
Definition T (W A : Type) : Type := W -> prog (result A * W).

Definition tret {W A} (a : A) : T W A := fun st => Return (Ok a, st).
Definition tlift {W A} (r : result A) : T W A := fun st => Return (r, st).
Definition tthrow {W A} (k : exn_kind) (msg : string) : T W A := tlift (Fail (Throw k msg)).
Definition tcall {W B} (c : call B) : T W B := fun st => Call c (fun r => Return (r, st)).
Definition tget {W} : T W W := fun st => Return (Ok st, st).
Definition tput {W} (st : W) : T W unit := fun _ => Return (Ok tt, st).

Definition tbind {W A B} (m : T W A) (f : A -> T W B) : T W B := fun st =>
  prog_bind (m st) (fun x => match x with (Ok a, st') => f a st' | (Fail e, st') => Return (Fail e, st') end).

Notation "'let!' x ':=' m 'in' k" := (tbind m (fun x => k))
  (at level 10, x pattern, m at level 100, k at level 200, format "'[v' 'let!'  x  ':='  m  'in' '/' k ']'") : dbp_scope.

(** ** Reading WAL records *)

Definition kMaxWalBytes : Z := 256 * 1024 * 1024.

Definition ReadAll (in_ : MemStorage.MemInputFile) : result bytes :=
  if kMaxWalBytes <? MemStorage.Size in_ then Fail (Throw runtime_error "sequential: WAL too large") else
  match MemStorage.ReadAt in_ 0 (MemStorage.Size in_) with
  | Some b => Ok b
  | None => Fail (Throw runtime_error "sequential: short WAL read")
  end.

Record VersionedSequentialState := mkVersionedState { vs_state : SequentialState; vs_version : MetadataVersion }.

Section Protocol.

Context `{!Hashes}.
Context {W : Type}.

Definition LoadSequentialWal (table : TableDescriptor) (seq : Z) : T W (option SequentialWal) :=
  let! key := tlift (SequentialWalKey table seq) in
  let! in_ := tcall (FileOpenInput key) in
  match in_ with
  | None => tret None
  | Some in_ =>
      let! b := tlift (ReadAll in_) in
      let! wal := tlift (DecodeSequentialWal b (schema table)) in
      if negb (wal_seq wal =? seq) || negb (bool_decide (wal_table_id wal = table_id table)) || negb (wal_schema_version wal =? 1)
      then tthrow runtime_error "sequential: WAL identity mismatch" else tret (Some wal)
  end.

(** ** SequentialStateStore

    The store's own copy of the descriptor has its prefix stripped of trailing
    slashes; the constructor refuses an empty one. *)

Definition StateStore_new (table : TableDescriptor) : result TableDescriptor :=
  let prefix := strip_slashes (metadata_prefix table) in
  if bool_decide (prefix = "") then Fail (Throw invalid_argument "sequential: empty metadata prefix")
  else Ok (mkTable (table_id table) prefix (file_prefix table) (schema table)).

Definition meta_key (t : TableDescriptor) (key : string) : string := metadata_prefix t +:+ "/" +:+ key.
Definition current_key (t : TableDescriptor) : string := meta_key t "CURRENT".

Definition Load (t : TableDescriptor) : T W (option VersionedSequentialState) :=
  let! v := tcall (MetaGet (current_key t)) in
  match v with
  | None => tret None
  | Some v =>
      let! state := tlift (DecodeSequentialState (value v)) in
      if negb (bool_decide (st_table_id state = table_id t)) then tthrow runtime_error "sequential: CURRENT table mismatch"
      else tret (Some (mkVersionedState state (version v)))
  end.

Definition LoadManifest (t : TableDescriptor) (state : SequentialState) : T W SequentialManifest :=
  let! v := tcall (MetaGet (meta_key t (manifest_key state))) in
  match v with
  | None => tthrow runtime_error "sequential: manifest missing"
  | Some v =>
      let! m := tlift (DecodeSequentialManifest (value v)) in
      if negb (bool_decide (mf_table_id m = table_id t)) || negb (covered_through_seq m =? indexed_seq state) ||
         negb (mf_schema_version m =? st_schema_version state) || negb (SchemasEqual (mf_schema m) (schema t))
      then tthrow runtime_error "sequential: manifest mismatch" else tret m
  end.

Fixpoint load_index_files (t : TableDescriptor) (keys : list string) : T W (list SequentialBatchEntry) :=
  match keys with
  | [] => tret []
  | key :: keys =>
      let! v := tcall (MetaGet (meta_key t key)) in
      match v with
      | None => tthrow runtime_error "sequential: batch index missing"
      | Some v =>
          let! part := tlift (DecodeSequentialBatchIndex (value v)) in
          let! rest := load_index_files t keys in
          tret (part ++ rest)
      end
  end.

Definition LoadBatchIndex (t : TableDescriptor) (m : SequentialManifest) : T W (list SequentialBatchEntry) :=
  load_index_files t (batch_index_files m).

Definition WriteManifest (t : TableDescriptor) (key : string) (m : SequentialManifest) : T W ConditionalWriteResult :=
  let! b := tlift (EncodeSequentialManifest m) in
  let! (r, _) := tcall (MetaPutIfAbsent (meta_key t key) b) in
  tret r.

Definition WriteBatchIndex (t : TableDescriptor) (key : string) (es : list SequentialBatchEntry) : T W ConditionalWriteResult :=
  let! b := tlift (EncodeSequentialBatchIndex es) in
  let! (r, _) := tcall (MetaPutIfAbsent (meta_key t key) b) in
  tret r.

Definition initial_manifest (t : TableDescriptor) : SequentialManifest := mkManifest (table_id t) 0 1 (schema t) [] [].
Definition initial_key : string := "manifest/initial.meta".
Definition initial_state (t : TableDescriptor) : SequentialState := mkState (table_id t) 0 1 0 0 0 initial_key.

(** The last step of [Initialize]: publish CURRENT. *)
Definition put_current (t : TableDescriptor) : T W ConditionalWriteResult :=
  let! b := tlift (EncodeSequentialState (initial_state t)) in
  let! (r, _) := tcall (MetaPutIfAbsent (current_key t) b) in
  tret r.

Definition Initialize (t : TableDescriptor) : T W ConditionalWriteResult :=
  let! result := WriteManifest t initial_key (initial_manifest t) in
  match result with
  | RetryableConflict => tret RetryableConflict
  | PreconditionFailed =>
      let! existing := tcall (MetaGet (meta_key t initial_key)) in
      let! b := tlift (EncodeSequentialManifest (initial_manifest t)) in
      if bool_decide ((value <$> existing) <> Some b) then tthrow runtime_error "sequential: initial manifest collision"
      else put_current t
  | Applied => put_current t
  end.

(** The result and, when applied, what was written. *)
Definition StateStore_CompareExchange (t : TableDescriptor) (expected : VersionedSequentialState) (next : SequentialState)
  : T W (ConditionalWriteResult * option VersionedSequentialState) :=
  let e := vs_state expected in
  if negb (bool_decide (st_table_id next = table_id t)) || negb (state_version next =? u64 (state_version e + 1)) ||
     (writer_epoch next <? writer_epoch e) || (indexed_seq next <? indexed_seq e) || (published_seq next <? published_seq e) ||
     (published_seq next <? indexed_seq next)
  then tthrow invalid_argument "sequential: invalid CURRENT transition" else
  let! b := tlift (EncodeSequentialState next) in
  let! (r, v) := tcall (MetaCompareExchange (current_key t) (vs_version expected) b) in
  match r, v with
  | Applied, Some v => tret (Applied, Some (mkVersionedState next v))
  | _, _ => tret (r, None)
  end.

End Protocol.

(** ** CloudTableWriter *)

Record CloudImportBatch := mkBatch { b_ids : list string; b_chunks : list Chunk; immediate : bool }.

Inductive CloudImportCode :=
| Committed | Durable | AlreadyCommitted | TableNotFound | NoWriterAvailable | NotStarted | Fenced | ImportConflict | InvalidRequest.
#[global] Instance CloudImportCode_eq_dec : EqDecision CloudImportCode.
Proof. solve_decision. Defined.

Record CloudImportResult := mkImportResult { i_code : CloudImportCode; i_epoch : Z; i_published : Z; i_seq : Z }.

Inductive CloudWriterStartCode := Started | Contended | StartConflict | InvalidTable.
Record CloudWriterStartResult := mkStartResult { s_code : CloudWriterStartCode; s_epoch : Z }.

Record CloudTableWriter := mkWriter {
  w_table : TableDescriptor;
  w_store : TableDescriptor;
  max_publish_attempts_ : nat;
  current_state_ : option VersionedSequentialState;
  next_seq_ : Z;
}.

Definition set_current (cs : option VersionedSequentialState) (w : CloudTableWriter) : CloudTableWriter :=
  mkWriter (w_table w) (w_store w) (max_publish_attempts_ w) cs (next_seq_ w).
Definition set_next (n : Z) (w : CloudTableWriter) : CloudTableWriter :=
  mkWriter (w_table w) (w_store w) (max_publish_attempts_ w) (current_state_ w) n.

Definition Writer_new (table : TableDescriptor) (max_publish_attempts : nat) : result CloudTableWriter :=
  let? store := StateStore_new table in
  if (max_publish_attempts =? 0)%nat then Fail (Throw invalid_argument "CloudTableWriter: invalid dependency")
  else Ok (mkWriter table store max_publish_attempts None 0).

Definition bump_version (s : SequentialState) (epoch indexed published : Z) (key : string) : SequentialState :=
  mkState (st_table_id s) (u64 (state_version s + 1)) (st_schema_version s) epoch indexed published key.

Section Writer.

Context `{!Hashes}.

Abbreviation TW := (T CloudTableWriter).

(** [Result]: the code, with the epoch and watermark the writer knows. *)
Definition Result (code : CloudImportCode) (seq : Z) : TW CloudImportResult :=
  let! w := tget in
  tret (match current_state_ w with
        | Some cs => mkImportResult code (writer_epoch (vs_state cs)) (published_seq (vs_state cs)) seq
        | None => mkImportResult code 0 0 seq
        end).

(** *** Start *)

(** Take the next epoch: at most [n] attempts. [inl] is an early return. *)
Fixpoint acquire_epoch (n : nat) (t : TableDescriptor) (state : VersionedSequentialState)
  : TW (CloudWriterStartResult + VersionedSequentialState) :=
  match n with
  | O => tret (inl (mkStartResult Contended 0))
  | S n =>
      let s := vs_state state in
      if writer_epoch s =? UINT64_MAX then tret (inl (mkStartResult InvalidTable 0)) else
      let next := bump_version s (writer_epoch s + 1) (indexed_seq s) (published_seq s) (manifest_key s) in
      let! (r, written) := StateStore_CompareExchange t state next in
      match r, written with
      | Applied, Some written => tret (inr written)
      | RetryableConflict, _ => tret (inl (mkStartResult StartConflict 0))
      | _, _ =>
          let! state := Load t in
          match state with
          | None => tret (inl (mkStartResult StartConflict 0))
          | Some state => acquire_epoch n t state
          end
      end
  end.

Definition fence_wal (table : TableDescriptor) (epoch seq : Z) : SequentialWal :=
  mkWal KFence (table_id table) seq epoch 1 ("fence-" +:+ pretty epoch) [] [] [].

(** [current_state_ = Load(); ...] after the fence is in place. *)
Definition finish_start (t : TableDescriptor) (epoch seq : Z) : TW CloudWriterStartResult :=
  let! cs := Load t in
  let! w := tget in
  let started := match cs with Some cs => writer_epoch (vs_state cs) =? epoch | None => false end in
  if started then
    let! _ := tput (set_next (u64 (seq + 1)) (set_current cs w)) in
    tret (mkStartResult Started epoch)
  else
    let! _ := tput (set_current None w) in
    tret (mkStartResult Contended 0).

(** The loop that writes the fence at the first free sequence number; [fuel]
    bounds the records it may have to skip. *)
Fixpoint write_fence (fuel : nat) (table t : TableDescriptor) (epoch seq : Z) : TW CloudWriterStartResult :=
  match fuel with
  | O => tlift (Fail OutOfFuel)
  | S fuel =>
      let! latest := Load t in
      match latest with
      | None => tret (mkStartResult StartConflict 0)
      | Some latest =>
          if negb (writer_epoch (vs_state latest) =? epoch) then tret (mkStartResult Contended 0) else
          let seq := if seq <=? indexed_seq (vs_state latest) then u64 (indexed_seq (vs_state latest) + 1) else seq in
          let! existing := LoadSequentialWal table seq in
          match existing with
          | Some _ => write_fence fuel table t epoch (u64 (seq + 1))
          | None =>
              let fence := fence_wal table epoch seq in
              let! b := tlift (EncodeSequentialWal fence (schema table)) in
              let! key := tlift (SequentialWalKey table seq) in
              let! r := tcall (FileCreateIfAbsent key b) in
              match r with
              | AlreadyExists => write_fence fuel table t epoch (u64 (seq + 1))
              | Created => finish_start t epoch seq
              | Storage.RetryableConflict =>
                  let! landed := LoadSequentialWal table seq in
                  match landed with
                  | None => tret (mkStartResult StartConflict 0)
                  | Some landed =>
                      if negb (bool_decide (kind landed = KFence)) || negb (wal_epoch landed =? epoch) ||
                         negb (bool_decide (operation_id landed = operation_id fence))
                      then tret (mkStartResult StartConflict 0) else finish_start t epoch seq
                  end
              end
          end
      end
  end.

(** From a loaded CURRENT: take an epoch, then fence. *)
Definition start_from (fuel : nat) (w : CloudTableWriter) (state : VersionedSequentialState) : TW CloudWriterStartResult :=
  let! acquired := acquire_epoch (max_publish_attempts_ w) (w_store w) state in
  match acquired with
  | inl r => tret r
  | inr state => write_fence fuel (w_table w) (w_store w) (writer_epoch (vs_state state)) (u64 (indexed_seq (vs_state state) + 1))
  end.

Definition Start (fuel : nat) : TW CloudWriterStartResult :=
  let! w := tget in
  match current_state_ w with
  | Some cs => tret (mkStartResult Started (writer_epoch (vs_state cs)))
  | None =>
      let! state := Load (w_store w) in
      match state with
      | Some state => start_from fuel w state
      | None =>
          let! init := Initialize (w_store w) in
          match init with
          | RetryableConflict => tret (mkStartResult StartConflict 0)
          | _ =>
              let! state := Load (w_store w) in
              match state with
              | None => tret (mkStartResult StartConflict 0)
              | Some state => start_from fuel w state
              end
          end
      end
  end.

(** *** Publish *)

(** The attempts of [Publish]; running out of them or finding a newer writer
    ends in the result made before the loop. *)
Fixpoint publish_loop (n : nat) (t : TableDescriptor) (seq epoch : Z) (failed : CloudImportResult) : TW CloudImportResult :=
  match n with
  | O => tret failed
  | S n =>
      let! latest := Load t in
      match latest with
      | None => tret failed
      | Some latest =>
          let s := vs_state latest in
          let! w := tget in
          if seq <=? published_seq s then
            let! _ := tput (set_current (Some latest) w) in
            Result Committed seq
          else if negb (writer_epoch s =? epoch) then tret failed else
          let next := bump_version s (writer_epoch s) (indexed_seq s) seq (manifest_key s) in
          let! (r, written) := StateStore_CompareExchange t latest next in
          match r, written with
          | Applied, Some written =>
              let! _ := tput (set_current (Some written) w) in
              Result Committed seq
          | _, _ => publish_loop n t seq epoch failed
          end
      end
  end.

Definition Publish (seq epoch : Z) : TW CloudImportResult :=
  let! failed := Result ImportConflict seq in
  let! w := tget in
  publish_loop (max_publish_attempts_ w) (w_store w) seq epoch failed.

(** *** Import *)

Fixpoint distinct_ids (seen : gset string) (ids : list string) : bool :=
  match ids with
  | [] => true
  | id :: ids => negb (bool_decide (id = "")) && negb (bool_decide (id ∈ seen)) && distinct_ids ({[id]} ∪ seen) ids
  end.

Definition IsValidBatch (table : TableDescriptor) (batch : CloudImportBatch) : bool :=
  negb (length (b_ids batch) =? 0)%nat && negb (length (b_chunks batch) =? 0)%nat && distinct_ids ∅ (b_ids batch) &&
  forallb (fun c => IsFullSchemaChunk c (schema table)) (b_chunks batch).

Abbreviation known_map := (gmap string SequentialBatchEntry).

(** [unordered_map::emplace]: an id that is present keeps its entry. *)
Definition emplace (e : SequentialBatchEntry) (known : known_map) : known_map :=
  match known !! batch_id e with Some _ => known | None => <[batch_id e := e]> known end.

Definition emplace_all (es : list SequentialBatchEntry) (known : known_map) : known_map := foldl (fun k e => emplace e k) known es.

Definition wal_entries (wal : SequentialWal) (seq : Z) : list SequentialBatchEntry :=
  (fun id => mkEntry id seq (operation_id wal) (payload_digest wal)) <$> batch_ids wal.

(** [while (scan_seq < next_seq_)]: [n] records from [seq] on; [None] when one
    is missing. *)
Fixpoint scan_wals (n : nat) (table : TableDescriptor) (seq : Z) (known : known_map) : TW (option known_map) :=
  match n with
  | O => tret (Some known)
  | S n =>
      let! wal := LoadSequentialWal table seq in
      match wal with
      | None => tret None
      | Some wal => scan_wals n table (u64 (seq + 1)) (emplace_all (wal_entries wal seq) known)
      end
  end.

(** The loop over the ids of a request: how many are known and under which
    sequence number; [None] when a known one was imported differently. *)
Fixpoint check_known (known : known_map) (op : string) (digest : bytes) (ids : list string) (already : nat) (prior : Z)
  : option (nat * Z) :=
  match ids with
  | [] => Some (already, prior)
  | id :: ids =>
      match known !! id with
      | None => check_known known op digest ids already prior
      | Some e =>
          if negb (bool_decide (en_operation_id e = op)) || negb (bool_decide (en_digest e = digest)) ||
             (negb (prior =? 0) && negb (prior =? en_seq e))
          then None else check_known known op digest ids (S already) (en_seq e)
      end
  end.

Definition first_id (batch : CloudImportBatch) : string := default "" (head (b_ids batch)).
Definition import_wal (table : TableDescriptor) (seq epoch : Z) (batch : CloudImportBatch) : SequentialWal :=
  mkWal KAppend (table_id table) seq epoch 1 (first_id batch) (b_ids batch) (b_chunks batch) [].

(** After the record is in place: count it, and publish unless deferred. *)
Definition finish_import (batch : CloudImportBatch) (wal : SequentialWal) : TW CloudImportResult :=
  let! w := tget in
  let! _ := tput (set_next (u64 (next_seq_ w + 1)) w) in
  if immediate batch then Publish (wal_seq wal) (wal_epoch wal) else Result Durable (wal_seq wal).

(** Append a new record at [next_seq_]. *)
Definition append_wal (batch : CloudImportBatch) (epoch : Z) : TW CloudImportResult :=
  let! w := tget in
  if next_seq_ w =? UINT64_MAX then Result InvalidRequest 0 else
  let wal := import_wal (w_table w) (next_seq_ w) epoch batch in
  let! path := tlift (SequentialWalKey (w_table w) (wal_seq wal)) in
  match EncodeSequentialWal wal (schema (w_table w)) with
  | Fail (Throw invalid_argument _) => Result InvalidRequest 0
  | Fail f => tlift (Fail f)
  | Ok b =>
      let! create := tcall (FileCreateIfAbsent path b) in
      match create with
      | Created => finish_import batch wal
      | _ =>
          let! landed := LoadSequentialWal (w_table w) (wal_seq wal) in
          match landed with
          | None => Result ImportConflict 0
          | Some landed =>
              if negb (wal_epoch landed =? wal_epoch wal) then
                let! _ := tput (set_current None w) in
                Result Fenced 0
              else if negb (bool_decide (kind landed = KAppend)) || negb (bool_decide (operation_id landed = operation_id wal))
              then Result ImportConflict 0 else
              let! b' := tlift (EncodeSequentialWal landed (schema (w_table w))) in
              if negb (bool_decide (b' = b)) then Result ImportConflict 0 else finish_import batch wal
          end
      end
  end.

(** The request against what is known: a repetition, an error, or new. *)
Definition import_known (batch : CloudImportBatch) (latest : VersionedSequentialState) (digest : bytes) (known : known_map)
  : TW CloudImportResult :=
  match check_known known (first_id batch) digest (b_ids batch) 0 0 with
  | None => Result InvalidRequest 0
  | Some (already, prior) =>
      if (already =? length (b_ids batch))%nat then
        if prior <=? published_seq (vs_state latest) then Result AlreadyCommitted prior
        else if immediate batch then Publish prior (writer_epoch (vs_state latest)) else Result Durable prior
      else if negb (already =? 0)%nat then Result InvalidRequest 0
      else append_wal batch (writer_epoch (vs_state latest))
  end.

Definition Import (batch : CloudImportBatch) : TW CloudImportResult :=
  let! w := tget in
  match current_state_ w with
  | None => Result NotStarted 0
  | Some cs =>
      if negb (IsValidBatch (w_table w) batch) then Result InvalidRequest 0 else
      let! latest := Load (w_store w) in
      match latest with
      | None => Result ImportConflict 0
      | Some latest =>
          if negb (writer_epoch (vs_state latest) =? writer_epoch (vs_state cs)) then
            let! _ := tput (set_current None w) in
            Result Fenced 0
          else
          let! _ := tput (set_current (Some latest) w) in
          let! request := tlift (EncodeSequentialWal (import_wal (w_table w) 1 1 batch) (schema (w_table w))) in
          let! requested := tlift (DecodeSequentialWal request (schema (w_table w))) in
          let! manifest := LoadManifest (w_store w) (vs_state latest) in
          let! entries := LoadBatchIndex (w_store w) manifest in
          let first := u64 (indexed_seq (vs_state latest) + 1) in
          let! known := scan_wals (Z.to_nat (next_seq_ w - first)) (w_table w) first (emplace_all entries ∅) in
          match known with
          | None => Result ImportConflict 0
          | Some known => import_known batch latest (payload_digest requested) known
          end
      end
  end.

End Writer.

(** ** TableSnapshotLoader *)

Record TableSnapshot := mkSnapshot {
  sn_version : MetadataVersion;
  sn_state_version : Z;
  sn_epoch : Z;
  sn_manifest_key : string;
  sn_data_files : list string;
  sn_wal_files : list string;
  sn_published : Z;
  sn_indexed : Z;
  sn_wal_chunks : list Chunk;
  probed_wal_count : Z;
  probe_limit_reached : bool;
}.

Section Snapshot.

Context `{!Hashes}.
Context {W : Type}.

(** What a record contributes to a snapshot. *)
Definition append_chunks (wal : SequentialWal) : list Chunk := if bool_decide (kind wal = KAppend) then chunks wal else [].

(** [while (seq < published_seq)]: [n] records after [seq], the names and the
    chunks; [None] when a required one is missing. *)
Fixpoint load_required (n : nat) (table : TableDescriptor) (seq : Z) : T W (option (list string * list Chunk)) :=
  match n with
  | O => tret (Some ([], []))
  | S n =>
      let seq := u64 (seq + 1) in
      let! wal := LoadSequentialWal table seq in
      match wal with
      | None => tret None
      | Some wal =>
          let! key := tlift (SequentialWalKey table seq) in
          let! rest := load_required n table seq in
          tret (match rest with Some (ks, cs) => Some (key :: ks, append_chunks wal ++ cs) | None => None end)
      end
  end.

(** The speculative tail: at most [n] records, up to the first gap. *)
Fixpoint probe_wals (n : nat) (table : TableDescriptor) (seq : Z) : T W (Z * list string * list Chunk) :=
  match n with
  | O => tret (0, [], [])
  | S n =>
      if UINT64_MAX <=? seq then tret (0, [], []) else
      let seq := u64 (seq + 1) in
      let! wal := LoadSequentialWal table seq in
      match wal with
      | None => tret (0, [], [])
      | Some wal =>
          let! key := tlift (SequentialWalKey table seq) in
          let! (c, ks, cs) := probe_wals n table seq in
          tret (c + 1, key :: ks, append_chunks wal ++ cs)
      end
  end.

(** One of the two attempts of [TableSnapshotLoader::Load]: [None] is its
    [continue], [Some None] a table that does not exist. *)
Definition load_attempt (table store : TableDescriptor) (probe_limit : nat) : T W (option (option TableSnapshot)) :=
  let! current := Load store in
  match current with
  | None => tret (Some None)
  | Some current =>
      let s := vs_state current in
      let! manifest := LoadManifest store s in
      let! required := load_required (Z.to_nat (published_seq s - indexed_seq s)) table (indexed_seq s) in
      match required with
      | None => tret None
      | Some (ks, cs) =>
          let! (n, pks, pcs) := probe_wals probe_limit table (Z.max (indexed_seq s) (published_seq s)) in
          tret (Some (Some (mkSnapshot (vs_version current) (state_version s) (writer_epoch s) (manifest_key s)
            (df_path <$> data_files manifest) (ks ++ pks) (published_seq s) (indexed_seq s) (cs ++ pcs) n
            ((0 <? Z.of_nat probe_limit) && (n =? Z.of_nat probe_limit)))))
      end
  end.

Fixpoint load_attempts (n : nat) (table store : TableDescriptor) (probe_limit : nat) : T W (option TableSnapshot) :=
  match n with
  | O => tthrow runtime_error "TableSnapshotLoader: published WAL is missing"
  | S n =>
      let! r := load_attempt table store probe_limit in
      match r with
      | None => load_attempts n table store probe_limit
      | Some snapshot => tret snapshot
      end
  end.

Definition Snapshot_Load (table : TableDescriptor) (probe_limit : nat) : T W (option TableSnapshot) :=
  let! store := tlift (StateStore_new table) in
  load_attempts 2 table store probe_limit.

End Snapshot.

(** ** CloudWalIndexer *)

Inductive CloudIndexCode := Indexed | AlreadyPublished | NothingToDo | IndexConflict | InvalidState.
Record CloudIndexResult := mkIndexResult { x_code : CloudIndexCode; x_indexed : Z; x_published : Z }.

(** [IFileFormat]: its schema, and the bytes its writer commits for chunks. *)
Class IFileFormat := { format_schema : Schema; format_file : list Chunk -> result bytes }.

(** [std::string]'s [<]: as unsigned bytes, the shorter first. *)
Definition id_le (a b : SequentialBatchEntry) : Prop := memcmp (lit (batch_id a)) (lit (batch_id b)) <> Gt.
#[global] Instance id_le_dec : RelDecision id_le.
Proof. intros a b. unfold id_le. destruct (memcmp _ _); [left | left | right]; congruence. Defined.

(** [std::unique] by batch id: the first of each run. *)
Fixpoint unique_ids (es : list SequentialBatchEntry) : list SequentialBatchEntry :=
  match es with
  | [] => []
  | e :: es =>
      match unique_ids es with
      | [] => [e]
      | e' :: es' => if bool_decide (batch_id e = batch_id e') then e :: es' else e :: e' :: es'
      end
  end.

Definition sort_entries (es : list SequentialBatchEntry) : list SequentialBatchEntry := unique_ids (merge_sort id_le es).

Section Indexer.

Context `{!Hashes, !IFileFormat}.
Context {W : Type}.

Record CloudWalIndexer := mkIndexer { x_table : TableDescriptor; x_store : TableDescriptor; x_attempts : nat }.

Definition Indexer_new (table : TableDescriptor) (max_publish_attempts : nat) : result CloudWalIndexer :=
  let? store := StateStore_new table in
  if (max_publish_attempts =? 0)%nat || negb (SchemasEqual (schema table) format_schema)
  then Fail (Throw invalid_argument "CloudWalIndexer: invalid dependency") else Ok (mkIndexer table store max_publish_attempts).

Definition kMaxWalPerPass : nat := 256.

(** The records after [end_], at most [n] of them: the last sequence number
    found, the batch entries and the chunks. *)
Fixpoint collect_wals (n : nat) (table : TableDescriptor) (end_ : Z) : T W (Z * list SequentialBatchEntry * list Chunk) :=
  match n with
  | O => tret (end_, [], [])
  | S n =>
      if UINT64_MAX <=? end_ then tret (end_, [], []) else
      let! wal := LoadSequentialWal table (end_ + 1) in
      match wal with
      | None => tret (end_, [], [])
      | Some wal =>
          let! (last, es, cs) := collect_wals n table (end_ + 1) in
          tret (last, (if bool_decide (kind wal = KAppend) then wal_entries wal (wal_seq wal) else []) ++ es, append_chunks wal ++ cs)
      end
  end.

Definition index_result (code : CloudIndexCode) (s : SequentialState) : CloudIndexResult :=
  mkIndexResult code (indexed_seq s) (published_seq s).

Definition rows_of (cs : list Chunk) : Z := u64 (foldr (fun c n => Z.of_nat (row_count c) + n) 0 cs).

(** The data file of a pass, when it has rows: [None] for a bad key. *)
Definition write_data (ix : CloudWalIndexer) (s : SequentialState) (end_ : Z) (cs : list Chunk) (files : list DataFile)
  : T W (option (list DataFile)) :=
  match cs with
  | [] => tret (Some files)
  | _ =>
      let! key := tcall (NewDataFileKey (table_id (x_table ix))) in
      if negb (String.prefix "data/" key) then tret None else
      let path := file_prefix (x_table ix) +:+ "/" +:+ key in
      let! b := tlift (format_file cs) in
      let! _ := tcall (FileWriteData path b) in
      tret (Some (files ++ [mkDataFile path (u64 (indexed_seq s + 1)) end_ (rows_of cs)]))
  end.

(** Publish a pass: the batch index, the manifest, then CURRENT. [None] is the
    [continue] of the retry loop. *)
Definition publish_index (ix : CloudWalIndexer) (current : VersionedSequentialState) (end_ : Z)
  (entries : list SequentialBatchEntry) (manifest : SequentialManifest) (files : list DataFile) : T W (option CloudIndexResult) :=
  let s := vs_state current in
  let! key := tcall (NewManifestKey (table_id (x_table ix))) in
  if negb (String.prefix "manifest/" key) then tret (Some (index_result InvalidState s)) else
  let dedup_key := "dedup/" +:+ String.substring 9 (String.length key - 9) key +:+ ".idx" in
  let! r := WriteBatchIndex (x_store ix) dedup_key (sort_entries entries) in
  match r with
  | Applied =>
      let! r := WriteManifest (x_store ix) key
        (mkManifest (mf_table_id manifest) end_ (mf_schema_version manifest) (mf_schema manifest) files [dedup_key]) in
      match r with
      | Applied =>
          let next := bump_version s (writer_epoch s) end_ (Z.max (published_seq s) end_) key in
          let! (r, written) := StateStore_CompareExchange (x_store ix) current next in
          match r, written with
          | Applied, Some written => tret (Some (index_result Indexed (vs_state written)))
          | _, _ => tret None
          end
      | _ => tret None
      end
  | _ => tret None
  end.

Definition index_attempt (ix : CloudWalIndexer) : T W (option CloudIndexResult) :=
  let! current := Load (x_store ix) in
  match current with
  | None => tret (Some (mkIndexResult NothingToDo 0 0))
  | Some current =>
      let s := vs_state current in
      let! manifest := LoadManifest (x_store ix) s in
      let! entries := LoadBatchIndex (x_store ix) manifest in
      let! (end_, es, cs) := collect_wals kMaxWalPerPass (x_table ix) (indexed_seq s) in
      if end_ =? indexed_seq s then tret (Some (index_result NothingToDo s)) else
      let! files := write_data ix s end_ cs (data_files manifest) in
      match files with
      | None => tret (Some (index_result InvalidState s))
      | Some files => publish_index ix current end_ (entries ++ es) manifest files
      end
  end.

Fixpoint index_attempts (n : nat) (ix : CloudWalIndexer) : T W CloudIndexResult :=
  match n with
  | O =>
      let! current := Load (x_store ix) in
      tret (match current with Some c => index_result IndexConflict (vs_state c) | None => mkIndexResult IndexConflict 0 0 end)
  | S n =>
      let! r := index_attempt ix in
      match r with Some r => tret r | None => index_attempts n ix end
  end.

Definition Index (ix : CloudWalIndexer) : T W CloudIndexResult := index_attempts (x_attempts ix) ix.

End Indexer.

(** ** CloudTable: the adaptive probe limit *)

Record WalProbePolicy := mkPolicy { p_initial : Z; p_minimum : Z; p_maximum : Z }.
Record CloudTable := mkCloudTable { ct_descriptor : TableDescriptor; probe_policy_ : WalProbePolicy; probe_limit_ : Z }.

Definition CloudTable_new `{!IFileFormat} (d : TableDescriptor) (policy : WalProbePolicy) : result CloudTable :=
  if bool_decide (table_id d = "") || bool_decide (metadata_prefix d = "") || bool_decide (file_prefix d = "") ||
     negb (SchemasEqual (schema d) format_schema) || (p_minimum policy =? 0) || (p_maximum policy <? p_minimum policy) ||
     (p_initial policy <? p_minimum policy) || (p_maximum policy <? p_initial policy)
  then Fail (Throw invalid_argument "CloudTable: invalid descriptor or null dependency")
  else Ok (mkCloudTable d policy (p_initial policy)).

(** The limit after a snapshot taken with [limit]. *)
Definition next_limit (policy : WalProbePolicy) (limit : Z) (sn : TableSnapshot) : Z :=
  if probe_limit_reached sn && (limit <? p_maximum policy)
  then (if p_maximum policy / 2 <? limit then p_maximum policy else u64 (limit * 2))
  else if (probed_wal_count sn <? limit / 4) && (p_minimum policy <? limit) then Z.max (p_minimum policy) (limit / 2)
  else limit.

Definition LoadSnapshot `{!Hashes} (probe_unpublished : bool) : T CloudTable (option TableSnapshot) :=
  let! ct := tget in
  let limit := if probe_unpublished then probe_limit_ ct else 0 in
  let! snapshot := Snapshot_Load (ct_descriptor ct) (Z.to_nat limit) in
  match snapshot with
  | Some sn =>
      if probe_unpublished then
        let! _ := tput (mkCloudTable (ct_descriptor ct) (probe_policy_ ct) (next_limit (probe_policy_ ct) limit sn)) in
        tret (Some sn)
      else tret (Some sn)
  | None => tret None
  end.

(** The writer and the indexer of a table. *)
Definition NewWriter (ct : CloudTable) (max_publish_attempts : nat) : result CloudTableWriter :=
  Writer_new (ct_descriptor ct) max_publish_attempts.
Definition NewIndexer `{!IFileFormat} (ct : CloudTable) (max_publish_attempts : nat) : result CloudWalIndexer :=
  Indexer_new (ct_descriptor ct) max_publish_attempts.
