(* ===== verification/CloudLogic.v ===== *)
(** * Interleavings of cloud programs

    The shared world of the cloud nodes, how a call changes it, the runs of any
    number of nodes interleaved call by call, and a program logic for them: a
    program is [safe] when each of its calls preserves the invariant and makes
    only transitions the other nodes tolerate, whatever they did in between.
    The soundness theorem turns safe programs into facts about every run. *)

From stdpp Require Import strings pretty.
From S2P Require Import Prelude KeyCodec Table Storage SeqCodec Cloud.
Import MemMetadataStore.
Open Scope Z_scope.

(** ** The world *)

(** The metadata store, the file store, the keys the generator will hand out
    (any list of strings), and, for the specification only, the data files
    written so far. *)
Record World := mkWorld {
  meta : MemMetadataStore;
  files : MemStorage.files_;
  fresh_keys : list string;
  written : list (string * bytes);
}.

Definition pop_key (w : World) : result string * World :=
  match fresh_keys w with
  | [] => (Fail (Throw runtime_error "no key"), w)
  | k :: ks => (Ok k, mkWorld (meta w) (files w) ks (written w))
  end.

Definition on_meta {A} (m : M MemMetadataStore A) (w : World) : result A * World :=
  let (r, st) := m (meta w) in (r, mkWorld st (files w) (fresh_keys w) (written w)).
Definition on_files {A} (m : M MemStorage.files_ A) (w : World) : result A * World :=
  let (r, fs) := m (files w) in (r, mkWorld (meta w) fs (fresh_keys w) (written w)).
Definition record_write (path : string) (b : bytes) (w : World) : World :=
  mkWorld (meta w) (files w) (fresh_keys w) (written w ++ [(path, b)]).

Definition perform {B} (c : call B) (w : World) : result B * World :=
  match c in call B return result B * World with
  | MetaGet key => on_meta (Get key) w
  | MetaPutIfAbsent key v => on_meta (PutIfAbsent key v) w
  | MetaCompareExchange key expected v => on_meta (CompareExchange key expected v) w
  | FileOpenInput path => on_files (MemStorage.OpenInput path) w
  | FileCreateIfAbsent path b => on_files (MemStorage.CreateIfAbsent path b) w
  | FileWriteData path b => let (r, w') := on_files (MemStorage.Put path b) w in (r, record_write path b w')
  | NewDataFileKey _ => pop_key w
  | NewManifestKey _ => pop_key w
  end.

(** The answer a conditional write gives when the store does not know whether
    it happened. *)
Definition conflict {B} (c : call B) : option (result B) :=
  match c in call B return option (result B) with
  | MetaPutIfAbsent _ _ => Some (Ok (RetryableConflict, None))
  | MetaCompareExchange _ _ _ => Some (Ok (RetryableConflict, None))
  | FileCreateIfAbsent _ _ => Some (Ok Storage.RetryableConflict)
  | _ => None
  end.

(** A call is performed; or it answers with a conflict, or throws, and then it
    may or may not have taken effect, as over a network. *)
Inductive call_step {B} (c : call B) (w : World) : result B -> World -> Prop :=
| call_done : call_step c w (perform c w).1 (perform c w).2
| call_conflict r w' : conflict c = Some r -> w' = w \/ w' = (perform c w).2 -> call_step c w r w'
| call_throws k msg w' : w' = w \/ w' = (perform c w).2 -> call_step c w (Fail (Throw k msg)) w'.

(** Runs are followed as long as the version counter has room and the stores
    have fewer than 2^63 objects. *)
Definition Small (w : World) : Prop := next_version_ (meta w) + 1 < 2 ^ 64 /\ Z.of_nat (size (files w)) < 2 ^ 63.

(** ** Systems of nodes *)

Section System.

Context {A : Type}.

(** What the nodes have left to do. *)
Definition system : Type := World * list (prog A).

Inductive sys_step : system -> system -> Prop :=
| sys_call w ts i B (c : call B) k r w' :
    ts !! i = Some (Call c k) -> Small w -> call_step c w r w' -> sys_step (w, ts) (w', <[i := k r]> ts).

(** ** The logic *)

Context (Inv : World -> Prop) (R : World -> World -> Prop).
Context `{!PreOrder R}.

Fixpoint safe {A} (p : prog A) (Q : A -> World -> Prop) (w : World) : Prop :=
  match p with
  | Return a => Q a w
  | Call c k => forall w1, R w w1 -> Inv w1 -> Small w1 -> forall r w2, call_step c w1 r w2 ->
      Inv w2 /\ R w1 w2 /\ safe (k r) Q w2
  end.

Definition stable {A} (Q : A -> World -> Prop) : Prop := forall a w w', Q a w -> R w w' -> Inv w' -> Q a w'.

Lemma safe_stable {X} (p : prog X) Q w w' : stable Q -> safe p Q w -> R w w' -> Inv w' -> safe p Q w'.
Proof.
  intros HQ. destruct p as [a|B c k]; simpl; intros Hp HR HI; [by eapply HQ|].
  intros w1 HR1. apply Hp. by transitivity w'.
Qed.

Lemma safe_bind_prog {X Y} (p : prog X) (f : X -> prog Y) P Q w :
  safe p P w -> (forall x w', P x w' -> safe (f x) Q w') -> safe (prog_bind p f) Q w.
Proof.
  intros Hp Hf. revert w Hp. induction p as [a|B c k IH]; intros w; simpl; [apply Hf|].
  intros Hp w1 HR HI HS r w2 Hc. destruct (Hp w1 HR HI HS r w2 Hc) as (? & ? & Hk). split_and!; auto.
Qed.

Lemma safe_weaken {X} (p : prog X) (P Q : X -> World -> Prop) w : safe p P w -> (forall x w', P x w' -> Q x w') -> safe p Q w.
Proof.
  intros Hp HPQ. revert w Hp. induction p as [a|B c k IH]; intros w; simpl; [apply HPQ|].
  intros Hp w1 HR HI HS r w2 Hc. destruct (Hp w1 HR HI HS r w2 Hc) as (? & ? & Hk). split_and!; auto.
Qed.

(** Soundness: in every run, the invariant holds, the world evolves within [R],
    and what a node has left is safe. *)
Lemma safe_sound_step (Q : A -> World -> Prop) w ts w' ts' :
  stable Q -> Inv w -> Forall (fun p => safe p Q w) ts -> sys_step (w, ts) (w', ts') ->
  Inv w' /\ R w w' /\ Forall (fun p => safe p Q w') ts'.
Proof.
  intros HQ HI Hts Hstep. inversion Hstep as [w0 ts0 i B c k r w0' Hi HS Hc]; subst.
  pose proof (Forall_lookup_1 _ _ _ _ Hts Hi) as Hp. simpl in Hp. destruct (Hp w (reflexivity w) HI HS r w' Hc) as (HI' & HR & Hk).
  split_and!; auto. apply Forall_insert; [|done]. eapply Forall_impl; [exact Hts|]. intros p Hpw. exact (safe_stable p Q w w' HQ Hpw HR HI').
Qed.

Lemma safe_sound (Q : A -> World -> Prop) (σ σ' : system) : stable Q -> rtc sys_step σ σ' ->
  Inv σ.1 -> Forall (fun p => safe p Q σ.1) σ.2 -> Inv σ'.1 /\ R σ.1 σ'.1 /\ Forall (fun p => safe p Q σ'.1) σ'.2.
Proof.
  intros HQ. induction 1 as [σ|[w ts] [w1 ts1] σ' Hs _ IH]; intros HI Hts; [by split_and!; [|reflexivity|]|].
  destruct (safe_sound_step Q w ts w1 ts1 HQ HI Hts Hs) as (HI1 & HR1 & Hts1).
  destruct (IH HI1 Hts1) as (HI' & HR' & Hts'). split_and!; auto. by transitivity w1.
Qed.

End System.

(** ** Triples for the steps of a node *)

Section Triples.

Context (Inv : World -> Prop) (R : World -> World -> Prop).
Context `{!PreOrder R}.
Context {W : Type}.

(** From object [st] in world [w], [m] is safe, returns with [Q], throws with [E]. *)
Definition runs {X} (m : T W X) (st : W) (w : World) (Q : X -> W -> World -> Prop) (E : W -> World -> Prop) : Prop :=
  safe Inv R (m st) (fun x w' => match x with (Ok a, st') => Q a st' w' | (Fail _, st') => E st' w' end) w.

Lemma runs_ret {X} (a : X) st w (Q : X -> W -> World -> Prop) E : Q a st w -> runs (tret a) st w Q E.
Proof. done. Qed.

Lemma runs_throw {X} k msg st w (Q : X -> W -> World -> Prop) (E : W -> World -> Prop) : E st w -> runs (tthrow k msg) st w Q E.
Proof. done. Qed.

Lemma runs_lift {X} (r : result X) st w (Q : X -> W -> World -> Prop) (E : W -> World -> Prop) :
  (forall a, r = Ok a -> Q a st w) -> (forall e, r = Fail e -> E st w) -> runs (tlift r) st w Q E.
Proof. unfold runs. destruct r; simpl; eauto. Qed.

Lemma runs_get st w (Q : W -> W -> World -> Prop) E : Q st st w -> runs tget st w Q E.
Proof. done. Qed.

Lemma runs_put st' st w (Q : unit -> W -> World -> Prop) E : Q tt st' w -> runs (tput st') st w Q E.
Proof. done. Qed.

Lemma runs_bind {X Y} (m : T W X) (f : X -> T W Y) st w P Q E :
  runs m st w P E -> (forall a st' w', P a st' w' -> runs (f a) st' w' Q E) -> runs (tbind m f) st w Q E.
Proof.
  intros Hm Hf. unfold runs, tbind. eapply safe_bind_prog; [exact Hm|]. intros [[a|e] st'] w'; [apply Hf | done].
Qed.

Lemma runs_weaken {X} (m : T W X) st w (P Q : X -> W -> World -> Prop) (E E' : W -> World -> Prop) :
  runs m st w P E -> (forall a st' w', P a st' w' -> Q a st' w') -> (forall st' w', E st' w' -> E' st' w') -> runs m st w Q E'.
Proof. intros Hm HPQ HE. eapply safe_weaken; [exact Hm|]. intros [[a|e] st'] w'; auto. Qed.

(** One call. *)
Lemma runs_call {B} (c : call B) st w (Q : B -> W -> World -> Prop) (E : W -> World -> Prop) :
  (forall w1, R w w1 -> Inv w1 -> Small w1 -> forall r w2, call_step c w1 r w2 ->
     Inv w2 /\ R w1 w2 /\ match r with Ok b => Q b st w2 | Fail _ => E st w2 end) ->
  runs (tcall c) st w Q E.
Proof.
  intros H w1 HR HI HS r w2 Hc. destruct (H w1 HR HI HS r w2 Hc) as (? & ? & Hr). by split_and!.
Qed.

(** A call that only reads. *)
Lemma runs_read {B} (c : call B) st w (Q : B -> W -> World -> Prop) (E : W -> World -> Prop) : conflict c = None ->
  (forall w1, (perform c w1).2 = w1) ->
  (forall w1, R w w1 -> Inv w1 -> Small w1 -> match (perform c w1).1 with Ok b => Q b st w1 | Fail _ => E st w1 end) ->
  (forall w1, R w w1 -> Inv w1 -> E st w1) ->
  runs (tcall c) st w Q E.
Proof.
  intros Hc Hp HQ HE. apply runs_call. intros w1 HR HI HS r w2 Hstep.
  assert (w2 = w1 /\ match r with Ok b => Q b st w1 | Fail _ => E st w1 end) as [-> Hr]; [|by split_and!; [|reflexivity|]].
  destruct Hstep as [|r w2 Hc'|k msg w2 [-> | ->]]; [|congruence | |].
  - rewrite Hp. split; [done | by apply HQ].
  - split; [done | by apply HE].
  - rewrite Hp. split; [done | by apply HE].
Qed.

End Triples.
