(* ===== verification/CloudInv.v ===== *)
(** * The invariant of the cloud protocol

    What the two stores hold at any time, for one table, whatever the nodes do:
    the WAL is a gapless log of well-formed records with non-decreasing epochs
    and distinct batch ids, CURRENT points into it, and the manifest and batch
    index it names cover exactly the indexed prefix. And what can change: the
    log grows, CURRENT moves forward, everything else is immutable. *)

From stdpp Require Import strings pretty sorting.
From S2P Require Import Prelude KeyCodec Table TableSpec Storage SeqCodec SeqCodecSpec WalSpec Cloud CloudLogic.
Import MemMetadataStore MetaRuns.
Open Scope Z_scope.

(** ** Tables *)

(** A table the protocol can serve: names that fit the formats and a schema
    the readers accept. *)
Record table_wf (tb t : TableDescriptor) : Prop := {
  tw_store : StateStore_new tb = Ok t;
  tw_files : strip_slashes (file_prefix tb) <> "";
  tw_id : table_id tb <> "" /\ Z.of_nat (String.length (table_id tb)) < 2 ^ 20;
  tw_schema : schema tb <> [] /\ Forall field_valid (schema tb) /\ (length (schema tb) <= 1024)%nat;
}.

Lemma length_lit s : length (lit s) = String.length s.
Proof. unfold lit. induction s as [|c s IH]; [done|]. simpl. by rewrite <- IH. Qed.

Section Inv.

Context {hashes : Hashes} {hashes_spec : HashesSpec} {format : IFileFormat}.
Context (tb t : TableDescriptor) (Htb : table_wf tb t).
Implicit Types (w : World) (L : list SequentialWal).

Abbreviation fs := (schema tb).

Lemma store_fields : table_id t = table_id tb /\ schema t = fs.
Proof. destruct Htb as [Hs _ _ _]. unfold StateStore_new in Hs. destruct (bool_decide _); [done|]. by injection Hs as <-. Qed.

(** ** The log *)

Definition wkey (seq : Z) : string := strip_slashes (file_prefix tb) +:+ "/wal/" +:+ dec_digits 20 seq +:+ ".wal".

Lemma wkey_ok seq : seq <> 0 -> SequentialWalKey tb seq = Ok (wkey seq).
Proof.
  intros Hs. unfold SequentialWalKey. destruct (Z.eqb_spec seq 0); [done|]. rewrite bool_decide_false; [done | apply Htb].
Qed.

Lemma wkey_inj a b : 0 < a < 2 ^ 64 -> 0 < b < 2 ^ 64 -> wkey a = wkey b -> a = b.
Proof. intros Ha Hb H. apply (wal_key_inj tb a b (wkey a)); auto; rewrite wkey_ok by lia; [done | by rewrite H]. Qed.

(** [b] is the stored form of the record [wal] of this table. *)
Definition stored_wal (b : bytes) (seq : Z) (wal : SequentialWal) : Prop :=
  exists rss, wal_ok fs wal rss /\ payload_digest wal = wal_digest fs (batch_ids wal) rss /\ b = enc_wal fs wal rss /\
    Z.of_nat (length b) <= kMaxWalBytes /\ wal_seq wal = seq /\ wal_table_id wal = table_id tb /\
    Forall (fun id => id <> "") (batch_ids wal).

Lemma stored_decode b seq wal : stored_wal b seq wal -> DecodeSequentialWal b fs = Ok wal.
Proof.
  intros (rss & Hok & Hd & -> & _). rewrite decode_wal_ok by done. rewrite <- Hd. by destruct wal.
Qed.

Lemma stored_det b s1 s2 x y : stored_wal b s1 x -> stored_wal b s2 y -> x = y.
Proof. intros H1%stored_decode H2%stored_decode. congruence. Qed.

Definition has_wal (w : World) (seq : Z) (wal : SequentialWal) : Prop :=
  0 < seq < 2 ^ 64 /\ exists b, files w !! wkey seq = Some b /\ stored_wal b seq wal.

Lemma has_wal_det w seq x y : has_wal w seq x -> has_wal w seq y -> x = y.
Proof. intros (_ & b1 & E1 & S1) (_ & b2 & E2 & S2). assert (b2 = b1) as -> by congruence. by eapply stored_det. Qed.

(** The records 1, 2, ... are in the store. *)
Definition log_part (w : World) L : Prop := forall i wal, L !! i = Some wal -> has_wal w (Z.of_nat i + 1) wal.

(** ... and there are no others. *)
Definition log_at (w : World) L : Prop :=
  log_part w L /\ forall seq, Z.of_nat (length L) < seq < 2 ^ 64 -> files w !! wkey seq = None.

Lemma log_part_prefix w L L0 : log_part w L -> log_at w L0 -> L `prefix_of` L0.
Proof.
  intros HL [HL0 Hend]. assert (length L <= length L0)%nat.
  { destruct (decide (length L <= length L0)%nat) as [|Hlt]; [done|]. exfalso.
    destruct (lookup_lt_is_Some_2 L (length L0)) as [wal Hw]; [lia|]. destruct (HL _ _ Hw) as (Hr & b & Hb & _).
    rewrite Hend in Hb; [done | lia]. }
  assert (L = take (length L) L0) as Heq; [|rewrite Heq; apply prefix_take].
  apply list_eq. intros i. destruct (decide (i < length L)%nat) as [Hi|Hi].
  - rewrite lookup_take_lt by done. destruct (lookup_lt_is_Some_2 L i Hi) as [x Hx].
    destruct (lookup_lt_is_Some_2 L0 i) as [y Hy]; [lia|]. rewrite Hx, Hy. f_equal. eapply has_wal_det; [by apply HL | by apply HL0].
  - rewrite (lookup_ge_None_2 L i), lookup_take_ge; [done | lia..].
Qed.

Lemma log_part_sub w L L' : log_part w L' -> L `prefix_of` L' -> log_part w L.
Proof. intros HL [k ->] i wal Hi. apply HL. rewrite lookup_app_l; [done|]. by eapply lookup_lt_Some. Qed.

Lemma log_length w L : log_part w L -> Z.of_nat (length L) < 2 ^ 64.
Proof.
  intros HL. destruct (decide (length L = 0)%nat) as [->|Hn]; [done|].
  destruct (lookup_lt_is_Some_2 L (length L - 1)) as [x Hx]; [lia|]. destruct (HL _ _ Hx) as [Hr _]. lia.
Qed.

(** There are fewer records than objects. *)
Lemma log_small w L : log_part w L -> (length L <= size (files w))%nat.
Proof.
  intros HL. pose proof (log_length _ _ HL) as Hl.
  set (ks := (fun i => wkey (Z.of_nat i + 1)) <$> seq 0 (length L)).
  assert (Hks : NoDup ks).
  { apply NoDup_fmap_2_strong; [|apply NoDup_seq]. intros i j [_ Hi]%elem_of_seq [_ Hj]%elem_of_seq E. apply wkey_inj in E; lia. }
  assert (Hsub : list_to_set ks ⊆ dom (files w)).
  { intros k [i [-> [_ Hi]%elem_of_seq]]%elem_of_list_to_set%list_elem_of_fmap. apply elem_of_dom.
    destruct (lookup_lt_is_Some_2 L i) as [x Hx]; [lia|]. destruct (HL _ _ Hx) as (_ & b & -> & _). done. }
  apply subseteq_size in Hsub. rewrite size_dom, size_list_to_set in Hsub by done. unfold ks in Hsub. by rewrite length_fmap, length_seq in Hsub.
Qed.

(** ** CURRENT and what it names *)

Definition cur (w : World) : option VersionedValue := entries_ (meta w) !! current_key t.

(** The batch entries of a log. *)
Definition log_entries L : list SequentialBatchEntry := concat (imap (fun i wal => wal_entries wal (Z.of_nat i + 1)) L).

(** The immutable object [key] of the metadata store. *)
Definition has_meta (w : World) (key : string) (b : bytes) : Prop :=
  key <> "CURRENT" /\ exists e, entries_ (meta w) !! meta_key t key = Some e /\ value e = b.

Definition index_parts (w : World) (keys : list string) (parts : list (list SequentialBatchEntry)) : Prop :=
  Forall2 (fun key part => exists b, has_meta w key b /\ DecodeSequentialBatchIndex b = Ok part) keys parts.

(** The chunks of a stretch of the log. *)
Definition log_chunks L : list Chunk := concat (append_chunks <$> L).

(** The data files of a manifest hold the chunks of the log prefix [L], pass by
    pass, and say which records they cover. *)
Inductive covers (w : World) : list DataFile -> list SequentialWal -> Prop :=
| covers_nil : covers w [] []
| covers_skip dfs L G : covers w dfs L -> log_chunks G = [] -> covers w dfs (L ++ G)
| covers_file dfs L G path b : covers w dfs L -> log_chunks G <> [] -> format_file (log_chunks G) = Ok b -> (path, b) ∈ written w ->
    covers w (dfs ++ [mkDataFile path (Z.of_nat (length L) + 1) (Z.of_nat (length L + length G)) (rows_of (log_chunks G))]) (L ++ G).

(** As long as no data file is written twice, what was written is there. *)
Definition data_inv (w : World) : Prop := forall p b, NoDup (written w).*1 -> (p, b) ∈ written w -> files w !! p = Some b.

(** The manifest a state names, and the log prefix it indexes. *)
Definition manifest_of (w : World) (s : SequentialState) (m : SequentialManifest) (es : list SequentialBatchEntry) L : Prop :=
  (exists b, has_meta w (manifest_key s) b /\ DecodeSequentialManifest b = Ok m) /\
  mf_table_id m = table_id tb /\ covered_through_seq m = indexed_seq s /\ mf_schema_version m = 1 /\ mf_schema m = fs /\
  (exists parts, index_parts w (batch_index_files m) parts /\ es = concat parts) /\
  log_part w L /\ Z.of_nat (length L) = indexed_seq s /\ (forall e, e ∈ es <-> e ∈ log_entries L) /\ covers w (data_files m) L.

(** What holds, for good, of every state CURRENT ever had. *)
Record state_known (w : World) (s : SequentialState) : Prop := {
  sk_id : st_table_id s = table_id tb;
  sk_fields : state_fields_ok s;
  sk_valid : state_valid s;
  sk_published : exists L, log_part w L /\ Z.of_nat (length L) = published_seq s;
  sk_manifest : exists m es L, manifest_of w s m es L;
}.

Definition epochs_sorted L : Prop := StronglySorted (fun a b => wal_epoch a <= wal_epoch b) L.
Definition ids_distinct L : Prop := NoDup (concat (batch_ids <$> L)).

Definition Inv (w : World) : Prop :=
  (meta_inv (meta w) /\ data_inv w) /\ exists L, log_at w L /\ epochs_sorted L /\ ids_distinct L /\
  match cur w with
  | None => L = []
  | Some e => exists s, DecodeSequentialState (value e) = Ok s /\ state_known w s /\ Forall (fun wal => wal_epoch wal <= writer_epoch s) L
  end.

(** ** What can change *)

(** The entry [e'] of CURRENT is [e], or was written later. *)
Definition later (w : World) (e e' : VersionedValue) : Prop :=
  e' = e \/ exists n, version e' = pretty n /\ next_version_ (meta w) <= n.

Definition advances (s s' : SequentialState) : Prop :=
  writer_epoch s <= writer_epoch s' /\ indexed_seq s <= indexed_seq s' /\ published_seq s <= published_seq s'.

Record R (w w' : World) : Prop := {
  R_version : next_version_ (meta w) <= next_version_ (meta w');
  R_written : forall x, x ∈ written w -> x ∈ written w';
  R_meta : forall key b, has_meta w key b -> has_meta w' key b;
  R_files : forall seq b, 0 < seq < 2 ^ 64 -> files w !! wkey seq = Some b -> files w' !! wkey seq = Some b;
  R_cur : forall e s, cur w = Some e -> DecodeSequentialState (value e) = Ok s ->
    exists e' s', cur w' = Some e' /\ DecodeSequentialState (value e') = Ok s' /\ advances s s' /\ later w e e';
}.

#[global] Instance R_preorder : PreOrder R.
Proof.
  split.
  - intros w. split; [lia | done | done | done|]. intros e s He Hs. exists e, s. split_and!; auto; [|by left]. by split_and!.
  - intros w1 w2 w3 [V1 W1 M1 F1 C1] [V2 W2 M2 F2 C2]. split; [lia | eauto | eauto | eauto|]. intros e s He Hs.
    destruct (C1 e s He Hs) as (e2 & s2 & He2 & Hs2 & (A1 & A2 & A3) & L2).
    destruct (C2 e2 s2 He2 Hs2) as (e3 & s3 & He3 & Hs3 & (B1 & B2 & B3) & L3). exists e3, s3. split_and!; auto; [split_and!; lia|].
    destruct L3 as [->|(n & Hn & Hle)]; [exact L2|]. right. exists n. split; [done | lia].
Qed.

(** ** Stability of what a node knows *)

Lemma has_wal_mono w w' seq wal : R w w' -> has_wal w seq wal -> has_wal w' seq wal.
Proof. intros HR (Hr & b & Hb & Hs). split; [done|]. exists b. split; [by apply HR | done]. Qed.

Lemma log_part_mono w w' L : R w w' -> log_part w L -> log_part w' L.
Proof. intros HR HL i wal Hi. eapply has_wal_mono; eauto. Qed.

Lemma index_parts_mono w w' keys parts : R w w' -> index_parts w keys parts -> index_parts w' keys parts.
Proof. intros HR HP. eapply Forall2_impl; [exact HP|]. intros key part (b & Hb & Hd). exists b. split; [by apply (R_meta _ _ HR) | done]. Qed.

Lemma covers_mono w w' dfs L : R w w' -> covers w dfs L -> covers w' dfs L.
Proof. intros HR. induction 1; [apply covers_nil | by apply covers_skip | eapply covers_file; eauto; by apply (R_written _ _ HR)]. Qed.

Lemma manifest_of_mono w w' s m es L : R w w' -> manifest_of w s m es L -> manifest_of w' s m es L.
Proof.
  intros HR ((b & Hb & Hd) & H1 & H2 & H3 & H4 & (parts & Hp & Hes) & HL & Hn & He & Hc). split_and!; auto.
  - exists b. split; [by apply (R_meta _ _ HR) | done].
  - exists parts. split; [by eapply index_parts_mono | done].
  - by eapply log_part_mono.
  - by eapply covers_mono.
Qed.

Lemma state_known_mono w w' s : R w w' -> state_known w s -> state_known w' s.
Proof.
  intros HR [H1 H2 H3 (L & HL & Hn) (m & es & Lm & Hm)]. split; auto.
  - exists L. split; [by eapply log_part_mono | done].
  - exists m, es, Lm. by eapply manifest_of_mono.
Qed.

(** A version of CURRENT that was read: it is not used again for another state. *)
Definition seen (w : World) (vs : VersionedSequentialState) : Prop :=
  state_known w (vs_state vs) /\
  exists e s, cur w = Some e /\ DecodeSequentialState (value e) = Ok s /\ advances (vs_state vs) s /\
    (version e = vs_version vs -> s = vs_state vs) /\
    exists i, vs_version vs = pretty i /\ 0 <= i < next_version_ (meta w).

Lemma seen_mono w w' vs : R w w' -> seen w vs -> seen w' vs.
Proof.
  intros HR (Hk & e & s & He & Hs & (A1 & A2 & A3) & Hsame & i & Hi & Hlt). split; [by eapply state_known_mono|].
  destruct (R_cur _ _ HR e s He Hs) as (e' & s' & He' & Hs' & (B1 & B2 & B3) & HL). exists e', s'. split_and!; auto; [split_and!; lia| |].
  - destruct HL as [->|(n & Hn & Hle)]; [intros Hv; rewrite Hs in Hs'; injection Hs' as <-; auto|].
    intros Hv. rewrite Hv, Hi in Hn. apply (inj pretty) in Hn. lia.
  - exists i. split; [done|]. pose proof (R_version _ _ HR). lia.
Qed.

Lemma Inv_seen w e s : Inv w -> cur w = Some e -> DecodeSequentialState (value e) = Ok s -> seen w (mkVersionedState s (version e)).
Proof.
  intros [[[H0 Hm] _] (L & _ & _ & _ & Hc)] He Hs. rewrite He in Hc. destruct Hc as (s1 & Hs1 & Hk & _). assert (s1 = s) as -> by congruence.
  split; [done|]. exists e, s. split_and!; auto; [by split_and! |]. apply (Hm _ _ He).
Qed.

(** ** The effect of each call *)

Lemma meta_key_inj a b : meta_key t a = meta_key t b -> a = b.
Proof. intros E. apply string_app_inv_l in E. by apply (string_app_inv_l "/") in E. Qed.

(** The invariant only looks at the log, at CURRENT and at what is immutable. *)
Lemma Inv_frame w w' : Inv w -> R w w' -> meta_inv (meta w') -> data_inv w' -> cur w' = cur w ->
  (forall seq, 0 < seq < 2 ^ 64 -> files w' !! wkey seq = files w !! wkey seq) -> Inv w'.
Proof.
  intros [_ (L & [HL Hend] & Hs & Hi & Hc)] HR Hm Hdt Ec Hf. split; [done|]. exists L. split_and!; auto.
  - split; [by eapply log_part_mono|]. intros seq Hseq. rewrite Hf by lia. by apply Hend.
  - rewrite Ec. destruct (cur w) as [e|]; [|done]. destruct Hc as (s & Hd & Hk & He). exists s. split_and!; auto. by eapply state_known_mono.
Qed.

(** The entries after a conditional put that is applied. *)
Definition put_entry (w : World) (k : string) (b : bytes) : World :=
  mkWorld (mkMetaStore (<[k := mkVersioned b (pretty (next_version_ (meta w)))]> (entries_ (meta w))) (next_version_ (meta w) + 1))
    (files w) (fresh_keys w) (written w).

Lemma put_entry_meta w k b : Inv w -> Small w -> meta_inv (meta (put_entry w k b)).
Proof.
  intros [[[H0 Hm] _] _] [HS _]. split; [simpl; lia|]. simpl. intros k' e. rewrite lookup_insert_Some. intros [[<- <-]|[_ He]].
  - exists (next_version_ (meta w)). split; [done | lia].
  - destruct (Hm _ _ He) as (i & Hi & Hlt). exists i. split; [done | lia].
Qed.

Lemma perform_put w k b : Small w -> 0 <= next_version_ (meta w) -> perform (MetaPutIfAbsent k b) w =
  match entries_ (meta w) !! k with
  | Some _ => (Ok (PreconditionFailed, None), w)
  | None => (Ok (Applied, Some (pretty (next_version_ (meta w)))), put_entry w k b)
  end.
Proof.
  intros [HS _] H0. cbn [perform]. unfold on_meta, PutIfAbsent, bind, get. destruct (entries_ (meta w) !! k); [by destruct w|].
  unfold NextVersionLocked, bind, get, put, ret, modify. cbn [entries_ next_version_]. unfold put_entry. rewrite u64_small by lia. done.
Qed.

Lemma perform_cas w k v b : Small w -> 0 <= next_version_ (meta w) -> perform (MetaCompareExchange k v b) w =
  match entries_ (meta w) !! k with
  | Some e => if bool_decide (version e <> v) then (Ok (PreconditionFailed, None), w)
              else (Ok (Applied, Some (pretty (next_version_ (meta w)))), put_entry w k b)
  | None => (Ok (PreconditionFailed, None), w)
  end.
Proof.
  intros [HS _] H0. cbn [perform]. unfold on_meta, CompareExchange, bind, get. destruct (entries_ (meta w) !! k) as [e|]; [|by destruct w].
  destruct (bool_decide _); [by destruct w|].
  unfold NextVersionLocked, bind, get, put, ret, modify. cbn [entries_ next_version_]. unfold put_entry. rewrite u64_small by lia. done.
Qed.

Lemma Inv_version w : Inv w -> 0 <= next_version_ (meta w).
Proof. by intros [[[? _] _] _]. Qed.

(** An immutable object is added. *)
Lemma add_meta w key b : Inv w -> Small w -> key <> "CURRENT" -> entries_ (meta w) !! meta_key t key = None ->
  Inv (put_entry w (meta_key t key) b) /\ R w (put_entry w (meta_key t key) b) /\ has_meta (put_entry w (meta_key t key) b) key b.
Proof.
  intros HI HS Hk Hno. set (w' := put_entry w (meta_key t key) b).
  assert (Hc : cur w' = cur w).
  { unfold cur, w'. simpl. apply lookup_insert_ne. intros E. apply meta_key_inj in E. congruence. }
  assert (HR : R w w').
  { split; [simpl; lia | done | | done |].
    - intros key' b' (Hne & e & He & Hv). split; [done|]. exists e. split; [|done]. unfold w'. simpl. rewrite lookup_insert_ne; [done|]. congruence.
    - intros e s He Hs. rewrite Hc. exists e, s. split_and!; auto; [by split_and! | by left]. }
  split_and!; [|done|].
  - eapply Inv_frame; eauto; [by apply put_entry_meta | apply HI].
  - split; [done|]. exists (mkVersioned b (pretty (next_version_ (meta w)))). split; [|done]. apply lookup_insert_eq.
Qed.

Lemma put_meta_ok w key b : Inv w -> Small w -> key <> "CURRENT" ->
  let x := perform (MetaPutIfAbsent (meta_key t key) b) w in
  Inv x.2 /\ R w x.2 /\ exists r v, x.1 = Ok (r, v) /\
    match r with Applied => has_meta x.2 key b | _ => True end.
Proof.
  intros HI HS Hk x. unfold x. rewrite perform_put by eauto using Inv_version. destruct (entries_ (meta w) !! meta_key t key) eqn:E; simpl.
  - split_and!; [done | reflexivity|]. by eexists _, _.
  - destruct (add_meta w key b HI HS Hk E) as (? & ? & ?). split_and!; auto. by eexists _, _.
Qed.

(** CURRENT moves from a state that was read to one that is known. *)
Lemma cas_ok w vs next b : Inv w -> Small w -> seen w vs -> EncodeSequentialState next = Ok b -> state_known w next ->
  advances (vs_state vs) next ->
  let x := perform (MetaCompareExchange (current_key t) (vs_version vs) b) w in
  Inv x.2 /\ R w x.2 /\ exists r v, x.1 = Ok (r, v) /\
    match r, v with Applied, Some v => cur x.2 = Some (mkVersioned b v) | Applied, None => False | _, _ => v = None end.
Proof.
  intros HI HS Hseen Hb Hk Hadv x. unfold x. rewrite perform_cas by eauto using Inv_version.
  destruct Hseen as (_ & e & s & He & Hs & _ & Hsame & _). pose proof He as He'. unfold cur in He'. rewrite He'.
  destruct (bool_decide_reflect (version e <> vs_version vs)) as [Hne|Heq]; simpl.
  { split_and!; [done | reflexivity|]. by eexists _, _. }
  assert (version e = vs_version vs) as Hv by (destruct (decide (version e = vs_version vs)); tauto). specialize (Hsame Hv). subst s.
  set (w' := put_entry w (current_key t) b).
  assert (Hc : cur w' = Some (mkVersioned b (pretty (next_version_ (meta w))))) by apply lookup_insert_eq.
  assert (Hd : DecodeSequentialState b = Ok next) by (apply DecodeSequentialState_iff; split; [apply Hk | done]).
  assert (HR : R w w').
  { split; [simpl; lia | done | | done |].
    - intros key' b' (Hne & e' & He2 & Hv2). split; [done|]. exists e'. split; [|done]. unfold w'. simpl. rewrite lookup_insert_ne; [done|].
      intros E. apply meta_key_inj in E. congruence.
    - intros e0 s0 He0 Hs0. assert (e0 = e) as -> by congruence. assert (s0 = vs_state vs) as -> by congruence.
      eexists _, next. split_and!; [exact Hc | done | done|]. right. eexists. split; [done | lia]. }
  pose proof HI as [Hm (L & [HL Hend] & Hso & Hi & Hcur)]. rewrite He in Hcur.
  destruct Hcur as (s1 & Hs1 & _ & Hep). assert (s1 = vs_state vs) as -> by congruence.
  split_and!; [|done | by eexists _, _].
  split; [split; [by apply put_entry_meta | apply HI]|]. exists L. split_and!; auto; [split; [by eapply log_part_mono | done]|].
  rewrite Hc. exists next. split_and!; [done | by eapply state_known_mono|]. eapply Forall_impl; [exact Hep|].
  intros wal Hw. simpl in Hw. destruct Hadv as [Ha _]. lia.
Qed.

(** CURRENT is created. *)
Lemma initial_known w b : has_meta w initial_key b -> EncodeSequentialManifest (initial_manifest t) = Ok b -> state_known w (initial_state t).
Proof.
  intros Hb He. destruct store_fields as [Hid Hsc]. destruct Htb as [_ _ [Hne Hlen] (Hs1 & Hs2 & Hs3)]. unfold initial_state. rewrite Hid.
  split; [done | by split_and! | | |].
  - split_and!; try done. unfold fits_str, fits_blob, in_bits. simpl st_table_id. rewrite length_lit. lia.
  - exists []. split; [|done]. intros i wal Hi. done.
  - exists (initial_manifest t), [], []. split_and!; try done.
    + exists b. split; [done|]. apply DecodeSequentialManifest_iff. split; [|done]. split_and!; try done. simpl. by rewrite Hsc.
    + exists []. split; [constructor | done].
    + apply covers_nil.
Qed.

Lemma put_current_ok w bm b : Inv w -> Small w -> has_meta w initial_key bm -> EncodeSequentialManifest (initial_manifest t) = Ok bm ->
  EncodeSequentialState (initial_state t) = Ok b ->
  let x := perform (MetaPutIfAbsent (current_key t) b) w in Inv x.2 /\ R w x.2.
Proof.
  intros HI HS Hbm Hem Hb x. unfold x. rewrite perform_put by eauto using Inv_version.
  destruct (entries_ (meta w) !! current_key t) as [e|] eqn:E; simpl; [split; [done | reflexivity]|].
  set (w' := put_entry w (current_key t) b). pose proof (initial_known w bm Hbm Hem) as Hk.
  assert (HR : R w w').
  { split; [simpl; lia | done | | done |].
    - intros key' b' (Hne & e' & He2 & Hv2). split; [done|]. exists e'. split; [|done]. unfold w'. simpl. rewrite lookup_insert_ne; [done|].
      intros E'. apply meta_key_inj in E'. congruence.
    - intros e0 s0 He0. unfold cur in He0. congruence. }
  split; [|done]. pose proof HI as [Hm (L & [HL Hend] & Hso & Hi & Hcur)]. unfold cur in Hcur. rewrite E in Hcur. subst L.
  split; [split; [by apply put_entry_meta | apply HI]|]. exists []. split; [split; [by eapply log_part_mono | done]|]. split; [done|]. split; [done|].
  assert (cur w' = Some (mkVersioned b (pretty (next_version_ (meta w))))) as -> by apply lookup_insert_eq.
  exists (initial_state t). split_and!.
  - apply DecodeSequentialState_iff. split; [apply Hk | done].
  - by eapply state_known_mono.
  - constructor.
Qed.

(** A record is appended: the next one, by a writer whose epoch is not behind. *)
Record appendable (w : World) (seq : Z) (wal : SequentialWal) L : Prop := {
  ap_log : log_part w L;
  ap_seq : Z.of_nat (length L) = seq - 1;
  ap_epochs : Forall (fun x => wal_epoch x <= wal_epoch wal) L;
  ap_epoch : exists e s, cur w = Some e /\ DecodeSequentialState (value e) = Ok s /\ wal_epoch wal <= writer_epoch s;
  ap_ids : NoDup (batch_ids wal) /\ forall id, id ∈ batch_ids wal -> id ∉ concat (batch_ids <$> L);
}.

Lemma appendable_mono w w' seq wal L : R w w' -> appendable w seq wal L -> appendable w' seq wal L.
Proof.
  intros HR [H1 H2 H3 (e & s & He & Hs & Hle) H5]. split; auto; [by eapply log_part_mono|].
  destruct (R_cur _ _ HR e s He Hs) as (e' & s' & He' & Hs' & (Ha & _) & _). exists e', s'. split_and!; auto. lia.
Qed.

Lemma sorted_snoc L wal : epochs_sorted L -> Forall (fun x => wal_epoch x <= wal_epoch wal) L -> epochs_sorted (L ++ [wal]).
Proof.
  intros HL Hw. induction HL as [|x L HL IH Hx]; simpl; [repeat constructor|]. apply Forall_cons in Hw as [Hxw Hw].
  constructor; [by apply IH|]. apply Forall_app. split; [done|]. by repeat constructor.
Qed.

Lemma create_ok w seq wal L b : Inv w -> Small w -> 0 < seq < 2 ^ 64 -> appendable w seq wal L -> stored_wal b seq wal ->
  let x := perform (FileCreateIfAbsent (wkey seq) b) w in
  Inv x.2 /\ R w x.2 /\ exists r, x.1 = Ok r /\ match r with Created => has_wal x.2 seq wal | _ => x.2 = w end.
Proof.
  intros HI HS Hseq [HL Hlen Hep Hcur Hids] Hst x. unfold x. cbn [perform]. unfold on_files, MemStorage.CreateIfAbsent, bind, get.
  destruct (files w !! wkey seq) as [b'|] eqn:E.
  { simpl. destruct w as [m f k]. simpl. split_and!; [done | reflexivity|]. by eexists. }
  cbn [fst snd put ret]. set (w' := mkWorld _ _ _ _).
  assert (Hother : forall q, 0 < q < 2 ^ 64 -> q <> seq -> files w' !! wkey q = files w !! wkey q).
  { intros q Hq Hne. apply lookup_insert_ne. intros Ek. apply wkey_inj in Ek; [congruence | done | done]. }
  assert (HR : R w w').
  { split; [simpl; lia | done | done | |].
    - intros q bq Hq Hb. rewrite Hother; [done | done|]. intros ->. congruence.
    - intros e s He Hs. exists e, s. split_and!; auto; [by split_and! | by left]. }
  assert (Hw : has_wal w' seq wal) by (split; [done|]; exists b; split; [apply lookup_insert_eq | done]).
  split_and!; [|done | by eexists]. pose proof HI as [Hm (L0 & [HL0 Hend] & Hso & Hi & Hc)].
  assert (L = L0) as <-.
  { destruct (log_part_prefix w L L0 HL (conj HL0 Hend)) as [k ->]. destruct k as [|y k]; [by rewrite app_nil_r|]. exfalso.
    destruct (HL0 (length L) y) as (_ & b1 & Hb1 & _); [by apply list_lookup_middle|].
    replace (Z.of_nat (length L) + 1) with seq in Hb1 by lia. congruence. }
  split.
  { destruct Hm as [Hm Hdt]. split; [done|]. intros p bp Hnd Hp. specialize (Hdt p bp Hnd Hp). simpl. rewrite lookup_insert_ne; [done | congruence]. }
  exists (L ++ [wal]). split_and!.
  - split.
    + intros i x0 Hx0. apply lookup_app_Some in Hx0 as [Hx0|[Hge Hx0]]; [eapply has_wal_mono; eauto|].
      apply list_lookup_singleton_Some in Hx0 as [Hi0 <-]. by replace (Z.of_nat i + 1) with seq by lia.
    + intros q Hq. rewrite length_app in Hq. simpl in Hq. rewrite Hother by lia. apply Hend. lia.
  - by apply sorted_snoc.
  - unfold ids_distinct. rewrite fmap_app, concat_app. simpl. rewrite app_nil_r. apply NoDup_app. split_and!; [done | | apply Hids].
    intros id Hid Hid'. by eapply Hids.
  - change (cur w') with (cur w). destruct Hcur as (e & s & He & Hs & Hle). rewrite He in Hc. rewrite He. destruct Hc as (s1 & Hs1 & Hk & Hf).
    assert (s1 = s) as -> by congruence. exists s. split_and!; [done | by eapply state_known_mono|]. apply Forall_app. split; [done|]. by repeat constructor.
Qed.

(** Data files live beside the log. *)
Lemma data_file_ok w path b : Inv w -> (forall seq, 0 < seq < 2 ^ 64 -> path <> wkey seq) ->
  let x := perform (FileWriteData path b) w in Inv x.2 /\ R w x.2 /\ x.1 = Ok tt /\ (path, b) ∈ written x.2.
Proof.
  intros HI Hp x. unfold x. cbn [perform]. unfold on_files, MemStorage.Put, modify, record_write. cbn [fst snd meta files fresh_keys written].
  set (w' := mkWorld _ _ _ _).
  assert (Hother : forall q, 0 < q < 2 ^ 64 -> files w' !! wkey q = files w !! wkey q) by (intros q Hq; apply lookup_insert_ne; by apply Hp).
  assert (HR : R w w').
  { split; [simpl; lia | simpl; set_solver | done | intros q bq Hq; by rewrite Hother |].
    intros e s He Hs. exists e, s. split_and!; auto; [by split_and! | by left]. }
  split_and!; [|done | done | simpl; set_solver]. eapply Inv_frame; eauto; [apply HI|]. destruct HI as [[_ Hdt] _].
  intros p bp. simpl. rewrite fmap_app, NoDup_app. intros (Hnd & Hdis & _) [Hin|[= -> ->]%list_elem_of_singleton]%elem_of_app; [|apply lookup_insert_eq].
  rewrite lookup_insert_ne; [by apply Hdt|]. intros ->. apply (Hdis p); [|by left]. apply list_elem_of_fmap. by exists (p, bp).
Qed.

Lemma pop_key_ok w : Inv w -> Inv (pop_key w).2 /\ R w (pop_key w).2.
Proof.
  intros HI. unfold pop_key. destruct (fresh_keys w) as [|k ks]; [split; [done | reflexivity]|]. simpl. set (w' := mkWorld _ _ _ _).
  assert (HR : R w w') by (split; [simpl; lia | done | done | done |]; intros e s He Hs; exists e, s; split_and!; auto; [by split_and! | by left]).
  split; [|done]. eapply Inv_frame; eauto; apply HI.
Qed.

End Inv.
