(* ===== verification/CloudProto.v ===== *)
(** * The operations of the cloud protocol keep its invariant

    Each operation of the state store, the writer, the indexer and the snapshot
    loader, under arbitrary interference by other nodes: what it returns, and
    that every call it makes is one the invariant allows. *)

From stdpp Require Import strings pretty sorting.
From S2P Require Import Prelude KeyCodec Table TableSpec Storage SeqCodec SeqCodecSpec WalSpec Cloud CloudLogic CloudInv.
Import MemMetadataStore MetaRuns.
Open Scope Z_scope.

(** A number below [10^k] prints in at most [k] digits. *)
Lemma length_pretty_go k : forall x s, (x < 10 ^ N.of_nat k)%N -> (String.length (pretty_N_go x s) <= k + String.length s)%nat.
Proof.
  induction k as [|k IH]; intros x s Hx.
  - assert (x = 0%N) as -> by (simpl in Hx; lia). by rewrite pretty_N_go_0.
  - destruct (decide (0 < x)%N) as [H0|H0]; cycle 1.
    { assert (x = 0%N) as -> by lia. rewrite pretty_N_go_0. lia. }
    rewrite pretty_N_go_step by done. etrans; [apply IH|].
    + apply N.Div0.div_lt_upper_bound. rewrite Nat2N.inj_succ, N.pow_succ_r' in Hx. lia.
    + simpl. lia.
Qed.

Lemma length_pretty z : 0 < z < 2 ^ 64 -> (String.length (pretty z) <= 20)%nat.
Proof.
  intros Hz. destruct z as [|p|p]; [lia | | lia]. change (pretty (Z.pos p)) with (pretty_N_go (N.pos p) "").
  etrans; [apply (length_pretty_go 20)|]; [|simpl; lia]. assert (2 ^ 64 < 10 ^ 20) by done. simpl N.of_nat. lia.
Qed.

Section Proto.

Context {hashes : Hashes} {hashes_spec : HashesSpec} {format : IFileFormat}.
Context (tb t : TableDescriptor) (Htb : table_wf tb t).

Abbreviation fs := (schema tb).
Abbreviation Inv := (CloudInv.Inv tb t).
Abbreviation R := (CloudInv.R tb t).
Abbreviation cur := (CloudInv.cur t).
Abbreviation has_wal := (CloudInv.has_wal tb).
Abbreviation log_part := (CloudInv.log_part tb).
Abbreviation wkey := (CloudInv.wkey tb).
Abbreviation seen := (CloudInv.seen tb t).
Abbreviation state_known := (CloudInv.state_known tb t).
Abbreviation manifest_of := (CloudInv.manifest_of tb t).

(** ** Triples with interference *)

Section Rules.

Context {W : Type}.
Implicit Types (st : W) (w : World) (E : W -> World -> Prop).

(** From a world of the invariant, [m] is safe, and ends in a later world. *)
Definition triple {X} (m : T W X) st w (Q : X -> W -> World -> Prop) E : Prop :=
  Inv w -> runs Inv R m st w (fun a st' w' => R w w' /\ Inv w' /\ Q a st' w') (fun st' w' => R w w' /\ Inv w' /\ E st' w').

(** The exit [E] is open to a node in state [st] from now on. *)
Definition exits E st w : Prop := forall w', R w w' -> Inv w' -> E st w'.

Lemma exits_mono E st w w' : R w w' -> exits E st w -> exits E st w'.
Proof. intros HR HE w'' HR'. apply HE. by transitivity w'. Qed.

Lemma h_ret {X} (a : X) st w (Q : X -> W -> World -> Prop) E : Q a st w -> triple (tret a) st w Q E.
Proof. intros HQ HI. apply runs_ret. split_and!; [reflexivity | done..]. Qed.

Lemma h_throw {X} k msg st w (Q : X -> W -> World -> Prop) E : exits E st w -> triple (tthrow k msg) st w Q E.
Proof. intros HE HI. apply runs_throw. split_and!; [reflexivity | done | apply HE; [reflexivity | done]]. Qed.

Lemma h_lift {X} (r : result X) st w (Q : X -> W -> World -> Prop) E :
  exits E st w -> (forall a, r = Ok a -> Q a st w) -> triple (tlift r) st w Q E.
Proof.
  intros HE HQ HI. apply runs_lift; [intros a Ha | intros e _]; (split_and!; [reflexivity | done|]); [by apply HQ | apply HE; [reflexivity | done]].
Qed.

Lemma h_get st w (Q : W -> W -> World -> Prop) E : Q st st w -> triple tget st w Q E.
Proof. intros HQ HI. apply runs_get. split_and!; [reflexivity | done..]. Qed.

Lemma h_put st' st w (Q : unit -> W -> World -> Prop) E : Q tt st' w -> triple (tput st') st w Q E.
Proof. intros HQ HI. apply runs_put. split_and!; [reflexivity | done..]. Qed.

Lemma h_bind {X Y} (m : T W X) (f : X -> T W Y) st w (P : X -> W -> World -> Prop) (Q : Y -> W -> World -> Prop) E :
  triple m st w P E -> (forall a st' w', R w w' -> Inv w' -> P a st' w' -> triple (f a) st' w' Q E) -> triple (tbind m f) st w Q E.
Proof.
  intros Hm Hf HI. eapply runs_bind; [by apply Hm|]. intros a st' w' (HR & HI' & HP). eapply runs_weaken; [by apply Hf|..].
  - intros b st'' w'' (HR' & HI'' & HQ). split_and!; auto. by transitivity w'.
  - intros st'' w'' (HR' & HI'' & HE). split_and!; auto. by transitivity w'.
Qed.

Lemma h_weaken {X} (m : T W X) st w (P Q : X -> W -> World -> Prop) E :
  triple m st w P E -> (forall a st' w', R w w' -> Inv w' -> P a st' w' -> Q a st' w') -> triple m st w Q E.
Proof.
  intros Hm HQ HI. eapply runs_weaken; [by apply Hm | |done]. intros a st' w' (? & ? & ?). split_and!; auto.
Qed.

Lemma h_read {B} (c : call B) st w (Q : B -> W -> World -> Prop) E : conflict c = None -> (forall w1, (perform c w1).2 = w1) ->
  exits E st w -> (forall w1, R w w1 -> Inv w1 -> Small w1 -> exists b, (perform c w1).1 = Ok b /\ Q b st w1) -> triple (tcall c) st w Q E.
Proof.
  intros Hc Hp HE HQ HI. apply runs_read; auto.
  - apply _.
  - intros w1 HR HI1 HS. destruct (HQ w1 HR HI1 HS) as (b & -> & Hb). auto.
Qed.

Lemma h_write {B} (c : call B) st w (Q : B -> W -> World -> Prop) E : exits E st w ->
  (forall w1, R w w1 -> Inv w1 -> Small w1 -> let x := perform c w1 in Inv x.2 /\ R w1 x.2 /\
     match x.1 with Ok b => Q b st x.2 | Fail _ => True end /\
     match conflict c with Some (Ok b) => Q b st w1 /\ Q b st x.2 | _ => True end) -> triple (tcall c) st w Q E.
Proof.
  intros HE HQ HI. apply runs_call. intros w1 HR HI1 HS r w2 Hstep. destruct (HQ w1 HR HI1 HS) as (HI2 & HR2 & Hok & Hcon).
  assert (HR' : R w (perform c w1).2) by (by transitivity w1).
  destruct Hstep as [|r w2 Hc Hw|k msg w2 Hw].
  - split_and!; auto. destruct (perform c w1).1; split_and!; auto.
  - rewrite Hc in Hcon. destruct Hw as [-> | ->]; (split_and!; [done | by (reflexivity || done)|]); destruct r; split_and!; auto; apply Hcon.
  - destruct Hw as [-> | ->]; split_and!; auto; reflexivity.
Qed.

(** *** Reading CURRENT and the log *)

Lemma load_ok st w E : exits E st w -> triple (Load t) st w (fun r st' w1 => st' = st /\ Small w1 /\
  match r with
  | None => cur w1 = None
  | Some vs => exists e, cur w1 = Some e /\ version e = vs_version vs /\ DecodeSequentialState (value e) = Ok (vs_state vs)
  end) E.
Proof.
  intros HE. eapply h_bind with (P := fun r st' w1 => st' = st /\ Small w1 /\ r = cur w1).
  { apply h_read; [done | by intros [] | done|]. intros w1 _ _ HS. by eexists. }
  intros r st' w1 HR HI (-> & HS & ->). destruct (cur w1) as [e|] eqn:Hc; [|by apply h_ret].
  pose proof HI as [_ (L & _ & _ & _ & Hcur)]. rewrite Hc in Hcur. destruct Hcur as (s & Hs & Hk & _).
  eapply h_bind with (P := fun s' st' w' => st' = st /\ s' = s /\ w' = w1).
  { apply h_lift; [by eapply exits_mono|]. intros a Ha. split_and!; auto. congruence. }
  intros s' st' w' _ _ (-> & -> & ->). destruct (store_fields _ _ Htb) as [Hid _].
  rewrite Hid, bool_decide_true by apply Hk. cbn [negb]. apply h_ret. split_and!; [done | done|]. by exists e.
Qed.

(** A record in the store is a record of the log. *)
Lemma stored_record w seq b : Inv w -> 0 < seq < 2 ^ 64 -> files w !! wkey seq = Some b ->
  exists wal, CloudInv.stored_wal tb b seq wal.
Proof.
  intros [_ (L & [HL Hend] & _)] Hseq Hb. destruct (decide (Z.of_nat (length L) < seq)) as [Hlt|Hle].
  { rewrite Hend in Hb; [done | lia]. }
  destruct (lookup_lt_is_Some_2 L (Z.to_nat (seq - 1))) as [wal Hw]; [lia|]. destruct (HL _ _ Hw) as (_ & b' & Hb' & Hs).
  replace (Z.of_nat (Z.to_nat (seq - 1)) + 1) with seq in * by lia. exists wal. assert (b' = b) as <- by congruence. done.
Qed.

Lemma ReadAll_ok b : Z.of_nat (length b) <= kMaxWalBytes -> ReadAll (MemStorage.mkInput b) = Ok b.
Proof.
  intros Hl. unfold ReadAll, MemStorage.Size. cbn [MemStorage.bytes_]. destruct (Z.ltb_spec kMaxWalBytes (Z.of_nat (length b))); [lia|].
  unfold MemStorage.ReadAt, MemStorage.Size. cbn [MemStorage.bytes_]. rewrite Z.sub_0_r, Z.ltb_irrefl.
  destruct (Z.ltb_spec (Z.of_nat (length b)) 0); [lia|]. cbn [orb]. rewrite Nat2Z.id. by rewrite slice_all.
Qed.

Lemma load_wal_ok seq st w E : 0 < seq < 2 ^ 64 -> exits E st w -> triple (LoadSequentialWal tb seq) st w (fun r st' w1 => st' = st /\
  match r with None => files w1 !! wkey seq = None | Some wal => has_wal w1 seq wal end) E.
Proof.
  intros Hseq HE. unfold LoadSequentialWal. rewrite (wkey_ok tb t Htb) by lia.
  eapply h_bind with (P := fun k st' w' => st' = st /\ k = wkey seq).
  { apply h_lift; [done|]. by intros a [= <-]. }
  intros k st' w1 HR1 HI1 [-> ->]. eapply h_bind with (P := fun r st' w2 => st' = st /\ r = MemStorage.mkInput <$> (files w2 !! wkey seq)).
  { apply h_read; [done | by intros [] | by eapply exits_mono|]. intros w2 _ _ _. by eexists. }
  intros r st' w2 HR2 HI2 [-> ->]. assert (HE2 : exits E st w2) by (do 2 (eapply exits_mono; [eassumption|]); done).
  destruct (files w2 !! wkey seq) as [b|] eqn:Hb; simpl; [|by apply h_ret].
  destruct (stored_record w2 seq b HI2 Hseq Hb) as (wal & Hst). pose proof Hst as (rss & _ & _ & _ & Hl & Hs & Hid & _).
  pose proof (stored_decode tb b seq wal Hst) as Hd. pose proof Hst as (rss' & Hok & _).
  eapply h_bind with (P := fun x st' w' => st' = st /\ x = b /\ w' = w2).
  { apply h_lift; [done|]. intros a. rewrite ReadAll_ok by done. by intros [= <-]. }
  intros x st' w3 _ _ (-> & -> & ->). eapply h_bind with (P := fun x st' w' => st' = st /\ x = wal /\ w' = w2).
  { apply h_lift; [done|]. intros a. rewrite Hd. by intros [= <-]. }
  intros x st' w4 _ _ (-> & -> & ->). rewrite Hs, Z.eqb_refl, Hid, bool_decide_true, (wo_version _ _ _ Hok) by done. cbn [negb orb Z.eqb].
  apply h_ret. split; [done|]. split; [done|]. by exists b.
Qed.

(** *** The manifest and the batch index of a state *)

Lemma SchemasEqual_refl l : SchemasEqual l l = true.
Proof. induction l as [|f l IH]; [done|]. simpl. by rewrite !bool_decide_true. Qed.

Lemma get_meta_ok key b st w E : exits E st w -> has_meta t w key b ->
  triple (tcall (MetaGet (meta_key t key))) st w (fun r st' w1 => st' = st /\ value <$> r = Some b) E.
Proof.
  intros HE Hm. apply h_read; [done | by intros [] | done|]. intros w1 HR _ _. destruct (R_meta _ _ _ _ HR _ _ Hm) as (_ & e & He & Hv).
  eexists. split; [reflexivity|]. split; [done|]. rewrite He. simpl. by rewrite Hv.
Qed.

Lemma load_manifest_ok s m es L st w E : exits E st w -> state_valid s -> manifest_of w s m es L ->
  triple (LoadManifest t s) st w (fun r st' _ => st' = st /\ r = m) E.
Proof.
  intros HE Hv ((b & Hb & Hd) & Hid & Hcov & Hver & Hsc & _). eapply h_bind; [by eapply get_meta_ok|].
  intros r st' w1 HR HI [-> Hr]. destruct r as [e|]; [|done]. injection Hr as He.
  eapply h_bind with (P := fun x st' w' => st' = st /\ x = m).
  { apply h_lift; [by eapply exits_mono|]. intros a. rewrite He, Hd. by intros [= <-]. }
  intros x st' w2 _ _ [-> ->]. destruct (store_fields _ _ Htb) as [Hti Hts], Hv as (_ & _ & _ & Hsv & _).
  rewrite Hid, Hti, Hts, Hcov, Hver, Hsv, Hsc, bool_decide_true, !Z.eqb_refl, SchemasEqual_refl by done. cbn [negb orb]. by apply h_ret.
Qed.

Lemma load_index_ok keys parts : forall st w E, exits E st w -> index_parts t w keys parts ->
  triple (load_index_files t keys) st w (fun r st' _ => st' = st /\ r = concat parts) E.
Proof.
  revert parts. induction keys as [|key keys IH]; intros parts st w E HE Hp.
  { apply Forall2_nil_inv_l in Hp as ->. by apply h_ret. }
  pose proof Hp as Hp'. apply Forall2_cons_inv_l in Hp' as (part & parts' & (b & Hb & Hd) & Hps & ->). cbn [load_index_files].
  eapply h_bind; [by eapply get_meta_ok|]. intros r st' w1 HR HI [-> Hr]. destruct r as [e|]; [|done]. injection Hr as He.
  eapply h_bind with (P := fun x st' w' => st' = st /\ x = part).
  { apply h_lift; [by eapply exits_mono|]. intros a. rewrite He, Hd. by intros [= <-]. }
  intros x st' w2 HR2 HI2 [-> ->]. assert (HR02 : R w w2) by (by transitivity w1).
  eapply h_bind; [apply (IH parts'); [by eapply exits_mono | by eapply index_parts_mono]|].
  intros y st' w3 _ _ [-> ->]. by apply h_ret.
Qed.

Lemma load_batch_index_ok s m es L st w E : exits E st w -> manifest_of w s m es L ->
  triple (LoadBatchIndex t m) st w (fun r st' _ => st' = st /\ r = es) E.
Proof. intros HE (_ & _ & _ & _ & _ & (parts & Hp & ->) & _). by apply load_index_ok. Qed.

(** *** Writing *)

Lemma write_meta_ok key b st w E : exits E st w -> key <> "CURRENT" ->
  triple (tcall (MetaPutIfAbsent (meta_key t key) b)) st w (fun r st' w1 => st' = st /\
    match r.1 with Applied => has_meta t w1 key b | _ => True end) E.
Proof.
  intros HE Hk. apply h_write; [done|]. intros w1 HR HI HS x. destruct (put_meta_ok tb t w1 key b HI HS Hk) as (HI2 & HR2 & r & v & Ex & Hr).
  fold x in HI2, HR2, Ex, Hr. rewrite Ex. split_and!; auto. by split.
Qed.

Lemma write_manifest_ok key m st w E : exits E st w -> key <> "CURRENT" ->
  triple (WriteManifest t key m) st w (fun r st' w1 => st' = st /\
    match r with Applied => exists b, has_meta t w1 key b /\ EncodeSequentialManifest m = Ok b | _ => True end) E.
Proof.
  intros HE Hk. eapply h_bind with (P := fun b st' w' => st' = st /\ EncodeSequentialManifest m = Ok b); [by apply h_lift|].
  intros b st' w1 HR HI [-> Hb]. eapply h_bind; [by apply write_meta_ok; [eapply exits_mono|]|]. intros [r v] st' w2 HR2 HI2 [-> Hr].
  apply h_ret. split; [done|]. destruct r; [by exists b | done..].
Qed.

Lemma write_index_ok key es st w E : exits E st w -> key <> "CURRENT" ->
  triple (WriteBatchIndex t key es) st w (fun r st' w1 => st' = st /\
    match r with Applied => exists b, has_meta t w1 key b /\ EncodeSequentialBatchIndex es = Ok b | _ => True end) E.
Proof.
  intros HE Hk. eapply h_bind with (P := fun b st' w' => st' = st /\ EncodeSequentialBatchIndex es = Ok b); [by apply h_lift|].
  intros b st' w1 HR HI [-> Hb]. eapply h_bind; [by apply write_meta_ok; [eapply exits_mono|]|]. intros [r v] st' w2 HR2 HI2 [-> Hr].
  apply h_ret. split; [done|]. destruct r; [by exists b | done..].
Qed.

(** CURRENT moves: what was written is what the node will see. *)
Lemma compare_exchange_ok vs next st w E : exits E st w -> seen w vs ->
  (EncodeSequentialState next = Ok (enc_state next) -> state_known w next) ->
  triple (StateStore_CompareExchange t vs next) st w (fun r st' w1 => st' = st /\
    match r with (Applied, Some v) => vs_state v = next /\ seen w1 v | (Applied, None) => False | (_, v) => v = None end) E.
Proof.
  intros HE Hs Hk0. unfold StateStore_CompareExchange. destruct (_ || _) eqn:Hg; [by apply h_throw|].
  repeat match goal with H : _ || _ = false |- _ => apply orb_false_iff in H as [? ?] end.
  repeat match goal with H : (_ <? _) = false |- _ => apply Z.ltb_ge in H end.
  eapply h_bind with (P := fun b st' w' => st' = st /\ EncodeSequentialState next = Ok b); [by apply h_lift|].
  intros b st' w1 HR1 HI1 [-> Hb].
  assert (Hk : state_known w next) by (apply Hk0; pose proof Hb as Hb'; by apply EncodeSequentialState_iff in Hb' as [_ ->]).
  eapply h_bind with (P := fun r st' w2 => st' = st /\ match r with
    | (Applied, Some v) => cur w2 = Some (mkVersioned b v) | (Applied, None) => False | (_, v) => v = None end).
  { apply h_write; [by eapply exits_mono|]. intros w2 HR2 HI2 HS x.
    assert (HR02 : R w w2) by (by transitivity w1).
    destruct (cas_ok tb t w2 vs next b HI2 HS) as (HI3 & HR3 & r & v & Ex & Hr); auto.
    { by eapply seen_mono. } { by eapply state_known_mono. } { by split_and!. }
    fold x in HI3, HR3, Ex, Hr. rewrite Ex. split; [done|]. split; [done|]. split; [|by split_and!]. split; [done|]. by destruct r, v. }
  intros [r v] st' w2 HR2 HI2 [-> Hr]. destruct r; [|by subst; apply h_ret..]. destruct v as [v|]; [|done].
  apply h_ret. split; [done|]. split; [done|].
  assert (Hd : DecodeSequentialState b = Ok next) by (apply DecodeSequentialState_iff; split; [apply Hk | done]).
  exact (Inv_seen tb t w2 _ next HI2 Hr Hd).
Qed.

End Rules.

(** ** The writer *)

Abbreviation advances := CloudInv.advances.

Lemma init_current_ok {W} bm (st : W) w E : exits E st w -> has_meta t w initial_key bm -> EncodeSequentialManifest (initial_manifest t) = Ok bm ->
  triple (put_current t) st w (fun _ st' _ => st' = st) E.
Proof.
  intros HE Hm Hem. eapply h_bind with (P := fun b st' w' => st' = st /\ EncodeSequentialState (initial_state t) = Ok b); [by apply h_lift|].
  intros b st' w1 HR HI [-> Hb]. eapply h_bind with (P := fun _ st' _ => st' = st).
  - apply h_write; [by eapply exits_mono|]. intros w2 HR2 HI2 HS x. assert (HR02 : R w w2) by (by transitivity w1).
    destruct (put_current_ok tb t Htb w2 bm b HI2 HS) as [HI3 HR3]; auto; [by apply (R_meta _ _ _ _ HR02)|].
    fold x in HI3, HR3. split; [done|]. split; [done|]. split; [by destruct x.1 | done].
  - intros [r v] st' w2 _ _ ->. by apply h_ret.
Qed.

Lemma initialize_ok {W} (st : W) w E : exits E st w -> triple (Initialize t) st w (fun _ st' _ => st' = st) E.
Proof.
  intros HE. eapply h_bind; [by apply write_manifest_ok|]. intros r st' w1 HR HI [-> Hr]. destruct r.
  - destruct Hr as (b & Hb & He). eapply init_current_ok; eauto using exits_mono.
  - eapply h_bind with (P := fun r st' w' => st' = st /\ forall b, value <$> r = Some b -> has_meta t w' initial_key b).
    { apply h_read; [done | by intros [] | by eapply exits_mono|]. intros w2 _ _ _. eexists. split; [reflexivity|]. split; [done|].
      intros b Hb. split; [done|]. apply fmap_Some in Hb as (e & He & ->). by exists e. }
    intros r st' w2 HR2 HI2 [-> Hm]. assert (HR02 : R w w2) by (by transitivity w1).
    eapply h_bind with (P := fun b st' w' => st' = st /\ EncodeSequentialManifest (initial_manifest t) = Ok b); [by apply h_lift; [eapply exits_mono|]|].
    intros b st' w3 HR3 HI3 [-> Hb]. assert (HE3 : exits E st w3) by (by eapply exits_mono, exits_mono).
    destruct (bool_decide_reflect (value <$> r <> Some b)) as [|Heq]; [by apply h_throw|].
    assert (value <$> r = Some b) as Hv by (destruct (decide (value <$> r = Some b)); tauto).
    eapply init_current_ok; eauto. apply (R_meta _ _ _ _ HR3). auto.
  - by apply h_ret.
Qed.

(** A started writer: its last record is in the log, and CURRENT is not behind
    the epoch it believes in. *)
Definition writer_ok (st : CloudTableWriter) (w : World) : Prop :=
  w_table st = tb /\ w_store st = t /\
  match current_state_ st with
  | None => True
  | Some cs => seen w cs /\ 1 < next_seq_ st <= 2 ^ 63 + 1 /\
      exists wal, has_wal w (next_seq_ st - 1) wal /\ wal_epoch wal <= writer_epoch (vs_state cs)
  end.

Lemma writer_ok_mono st w w' : R w w' -> writer_ok st w -> writer_ok st w'.
Proof.
  intros HR (H1 & H2 & Hc). split_and!; auto. destruct (current_state_ st) as [cs|]; [|done]. destruct Hc as (Hs & Hn & wal & Hw & He).
  split; [by eapply seen_mono|]. split; [done|]. exists wal. split; [by eapply has_wal_mono | done].
Qed.

Lemma writer_exits st w : writer_ok st w -> exits writer_ok st w.
Proof. intros H w' HR _. by eapply writer_ok_mono. Qed.

(** A state with a new epoch or watermark is still known. *)
Lemma known_bump w s epoch published L : state_known w s -> in_bits 64 epoch -> log_part w L -> Z.of_nat (length L) = published ->
  indexed_seq s <= published -> state_known w (bump_version s epoch (indexed_seq s) published (manifest_key s)).
Proof.
  intros [H1 (F1 & F2 & F3 & F4 & F5) (V1 & V2 & V3 & V4 & V5 & V6) _ (m & es & Lm & Hm)] He HL Hn Hle.
  pose proof (log_length tb w L HL) as Hlen. split; simpl; auto.
  - split_and!; simpl; auto; [apply u64_range | unfold in_bits; lia].
  - by split_and!.
  - by exists L.
  - by exists m, es, Lm.
Qed.

(** Everything a node sees of the log at once is one prefix of it. *)
Lemma log_bound w L : log_part w L -> Small w -> Z.of_nat (length L) < 2 ^ 63.
Proof. intros HL [_ HS]. pose proof (log_small tb t Htb w L HL). lia. Qed.

Lemma indexed_bound w s : state_known w s -> Small w -> indexed_seq s < 2 ^ 63.
Proof.
  intros [_ _ _ _ (m & es & L & _ & _ & _ & _ & _ & _ & HL & Hn & _)] HS. pose proof (log_bound w L HL HS). lia.
Qed.

Lemma acquire_ok n : forall vs st w E, exits E st w -> seen w vs -> indexed_seq (vs_state vs) < 2 ^ 63 ->
  triple (acquire_epoch n t vs) st w (fun r st' w1 => st' = st /\
    match r with inl r => s_code r <> Started | inr vs' => seen w1 vs' /\ indexed_seq (vs_state vs') < 2 ^ 63 /\ 0 < writer_epoch (vs_state vs') < 2 ^ 64 end) E.
Proof.
  induction n as [|n IH]; intros vs st w E HE Hs Hix; cbn [acquire_epoch]; [by apply h_ret|].
  destruct (Z.eqb_spec (writer_epoch (vs_state vs)) UINT64_MAX) as [|Hne]; [by apply h_ret|].
  pose proof Hs as (Hk & _). pose proof (sk_fields _ _ _ _ Hk) as (_ & _ & Fe & _). unfold in_bits, UINT64_MAX in *.
  destruct (sk_published _ _ _ _ Hk) as (L & HL & Hn).
  eapply h_bind; [apply compare_exchange_ok; [done | done|]|].
  { intros _. eapply known_bump; eauto; [unfold in_bits; lia|]. by destruct (sk_valid _ _ _ _ Hk) as (_ & _ & ? & _). }
  intros [r v] st' w1 HR HI [-> Hr].
  assert (Hretry : triple (let! state := Load t in match state with None => tret (inl (mkStartResult StartConflict 0)) | Some state => acquire_epoch n t state end)
    st w1 (fun r st' w1 => st' = st /\ match r with inl r => s_code r <> Started | inr vs' => seen w1 vs' /\ indexed_seq (vs_state vs') < 2 ^ 63 /\ 0 < writer_epoch (vs_state vs') < 2 ^ 64 end) E).
  { eapply h_bind; [by apply load_ok; eapply exits_mono|]. intros [vs'|] st' w2 HR2 HI2 (-> & HS2 & Hc); [|by apply h_ret].
    destruct Hc as (e & He & Hv & Hd). pose proof (Inv_seen tb t w2 e _ HI2 He Hd) as Hseen. rewrite Hv in Hseen.
    apply IH; [by eapply exits_mono, exits_mono | by destruct vs' | by eapply indexed_bound; [apply Hseen|]]. }
  destruct r; [|exact Hretry | by apply h_ret]. destruct v as [v|]; [|done]. destruct Hr as [Hv Hseen]. apply h_ret. split; [done|].
  split; [done|]. rewrite Hv. simpl. split_and!; lia.
Qed.

(** *** Records a writer creates *)

Lemma fits_id : fits_str (table_id tb).
Proof. destruct Htb as [_ _ [_ Hl] _]. unfold fits_str, fits_blob, in_bits. rewrite length_lit. lia. Qed.

Lemma fits_small s : Z.of_nat (String.length s) < 2 ^ 20 -> fits_str s.
Proof. intros Hl. unfold fits_str, fits_blob, in_bits. rewrite length_lit. lia. Qed.

Lemma length_enc_str_eq s : length (enc_str s) = (4 + String.length s)%nat.
Proof. unfold enc_str, enc_blob, Writer.U32. by rewrite length_app, length_le_bytes, length_lit. Qed.

Lemma length_enc_wal wal rss : length (enc_wal fs wal rss) =
  (8 + 1 + (4 + String.length (wal_table_id wal)) + 24 + (4 + String.length (operation_id wal)) + length (enc_counted enc_str (batch_ids wal)) + 4 +
   length (enc_chunks fs rss) + 8 + 32 + 8)%nat.
Proof.
  unfold enc_wal, enc_wal_body. rewrite !length_app, !length_enc_str_eq. unfold Writer.U64, Writer.U32, Writer.U8. rewrite !length_le_bytes.
  change (length (Writer.Header "DBW2")) with 8%nat. change (length (lit "DBW2")) with 4%nat.
  assert (length (wal_digest fs (batch_ids wal) rss) = 32%nat).
  { pose proof (SHA256_length (logical_bytes fs (batch_ids wal) rss)) as Hd. unfold SHA256_DIGEST_LENGTH in Hd.
    unfold wal_digest, Digest. lia. }
  lia.
Qed.

Lemma fence_stored epoch seq : 0 < seq < 2 ^ 64 -> 0 < epoch < 2 ^ 64 ->
  exists b, EncodeSequentialWal (fence_wal tb epoch seq) fs = Ok b /\
    CloudInv.stored_wal tb b seq (with_digest (wal_digest fs [] []) (fence_wal tb epoch seq)).
Proof.
  intros Hs He. pose proof (length_pretty epoch He) as Hp. destruct Htb as [_ _ [Hne Hl] _].
  assert (Hop : Z.of_nat (String.length ("fence-" +:+ pretty epoch)) < 2 ^ 20) by (change (Z.of_nat (6 + String.length (pretty epoch)) < 2 ^ 20); lia).
  assert (Hok : wal_ok fs (fence_wal tb epoch seq) []).
  { split; try done; [split; [done | apply fits_id] | split; [done | by apply fits_small]]. }
  exists (enc_wal fs (fence_wal tb epoch seq) []). split; [by apply encode_wal_ok|]. exists []. split_and!; try done.
  - destruct Hok. by split.
  - rewrite length_enc_wal. cbn [fence_wal wal_table_id operation_id batch_ids]. change (length (enc_counted enc_str [])) with 4%nat.
    change (length (enc_chunks fs [])) with 0%nat. unfold kMaxWalBytes. lia.
Qed.

Lemma create_wal_ok {W} seq wal L b (st : W) w E : exits E st w -> 0 < seq < 2 ^ 64 -> appendable tb t w seq wal L ->
  CloudInv.stored_wal tb b seq wal ->
  triple (tcall (FileCreateIfAbsent (wkey seq) b)) st w (fun r st' w1 => st' = st /\
    match r with
    | Created => has_wal w1 seq wal
    | AlreadyExists => exists wal', has_wal w1 seq wal'
    | Storage.RetryableConflict => True
    end) E.
Proof.
  intros HE Hseq Hap Hst. apply h_write; [done|]. intros w1 HR HI HS x.
  destruct (create_ok tb t Htb w1 seq wal L b HI HS Hseq (appendable_mono _ _ _ _ _ _ _ HR Hap) Hst) as (HI2 & HR2 & r & Er & Hr).
  fold x in HI2, HR2, Er, Hr. rewrite Er. split; [done|]. split; [done|]. split; [|done]. split; [done|].
  destruct r; [done| |done]. rewrite Hr.
  assert (exists b', files w1 !! wkey seq = Some b') as (b' & Hb').
  { unfold x in Er. cbn [perform] in Er. unfold on_files, MemStorage.CreateIfAbsent, bind, get in Er.
    destruct (files w1 !! wkey seq) as [b'|]; [by exists b' | done]. }
  destruct (stored_record w1 seq b' HI Hseq Hb') as (wal' & Hw). exists wal'. split; [done|]. by exists b'.
Qed.

(** *** Start *)

Lemma log_snoc w L seq wal : log_part w L -> Z.of_nat (length L) = seq - 1 -> has_wal w seq wal -> log_part w (L ++ [wal]).
Proof.
  intros HL Hn Hw i x Hx. apply lookup_app_Some in Hx as [Hx|[Hge Hx]]; [by apply HL|].
  apply list_lookup_singleton_Some in Hx as [Hi <-]. by replace (Z.of_nat i + 1) with seq by lia.
Qed.

(** While CURRENT has epoch [e], no record is ahead of it. *)
Lemma epochs_bounded w L e s : Inv w -> log_part w L -> cur w = Some e -> DecodeSequentialState (value e) = Ok s ->
  Forall (fun x => wal_epoch x <= writer_epoch s) L.
Proof.
  intros [_ (L0 & HL0 & _ & _ & Hc)] HL He Hs. rewrite He in Hc. destruct Hc as (s1 & Hs1 & _ & Hf). assert (s1 = s) as -> by congruence.
  destruct (log_part_prefix tb w L L0 HL HL0) as [k ->]. by apply Forall_app in Hf as [? _].
Qed.

Definition fresh_writer (st : CloudTableWriter) : Prop := w_table st = tb /\ w_store st = t /\ current_state_ st = None.

Lemma fresh_exits st w : fresh_writer st -> exits writer_ok st w.
Proof. intros (H1 & H2 & H3) w' _ _. split_and!; auto. by rewrite H3. Qed.

Definition started (r : CloudWriterStartResult) (st : CloudTableWriter) : Prop :=
  s_code r = Started -> exists cs, current_state_ st = Some cs /\ writer_epoch (vs_state cs) = s_epoch r.

Lemma finish_start_ok epoch seq wal st w : fresh_writer st -> 0 < seq <= 2 ^ 63 -> has_wal w seq wal -> wal_epoch wal = epoch ->
  triple (finish_start t epoch seq) st w (fun r st' w1 => writer_ok st' w1 /\ started r st') writer_ok.
Proof.
  intros Hf Hseq Hw Hep. eapply h_bind; [by apply load_ok, fresh_exits|]. intros r st' w1 HR HI (-> & _ & Hr).
  eapply h_bind with (P := fun x st' w' => st' = st /\ x = st /\ w' = w1); [by apply h_get|]. intros x st' w' _ _ (-> & -> & ->).
  pose proof Hf as (Ht & Hs & Hc). destruct r as [vs|]; [|].
  - destruct Hr as (e & He & Hv & Hd). destruct (Z.eqb_spec (writer_epoch (vs_state vs)) epoch) as [Heq|Hne].
    + eapply h_bind with (P := fun _ st' w' => st' = set_next (u64 (seq + 1)) (set_current (Some vs) st) /\ w' = w1); [by apply h_put|].
      intros _ st' w' _ _ [-> ->]. apply h_ret. split; [|intros _; by exists vs]. split_and!; auto. cbn [set_next set_current current_state_ next_seq_].
      rewrite u64_small by lia. split; [pose proof (Inv_seen tb t w1 e _ HI He Hd) as Hx; rewrite Hv in Hx; by destruct vs|].
      split; [lia|]. exists wal. replace (seq + 1 - 1) with seq by lia. split; [by eapply has_wal_mono | lia].
    + eapply h_bind with (P := fun _ st' w' => st' = set_current None st /\ w' = w1); [by apply h_put|].
      intros _ st' w' _ _ [-> ->]. apply h_ret. by split_and!.
  - eapply h_bind with (P := fun _ st' w' => st' = set_current None st /\ w' = w1); [by apply h_put|].
    intros _ st' w' _ _ [-> ->]. apply h_ret. by split_and!.
Qed.

Abbreviation appendable := (CloudInv.appendable tb t).

(** The position the loop looks at is the next one of a log prefix, none of
    whose records is ahead of the epoch. *)
Lemma fence_position w1 seq L s e epoch : Inv w1 -> Small w1 -> cur w1 = Some e -> DecodeSequentialState (value e) = Ok s ->
  writer_epoch s = epoch -> log_part w1 L -> Z.of_nat (length L) = seq - 1 ->
  exists seq1 L1, (if seq <=? indexed_seq s then u64 (indexed_seq s + 1) else seq) = seq1 /\ 0 < seq1 <= 2 ^ 63 /\
    log_part w1 L1 /\ Z.of_nat (length L1) = seq1 - 1 /\ Forall (fun x => wal_epoch x <= epoch) L1.
Proof.
  intros HI HS He Hs Hep HL Hn.
  assert (Hall : forall L', log_part w1 L' -> Z.of_nat (length L') < 2 ^ 63 /\ Forall (fun x => wal_epoch x <= epoch) L').
  { intros L' HL'. split; [by eapply log_bound|]. rewrite <- Hep. by eapply epochs_bounded. }
  destruct (Inv_seen tb t w1 e s HI He Hs) as [[_ _ _ _ (m & es & Lm & Hm)] _]. destruct Hm as (_ & _ & _ & _ & _ & _ & HLm & Hnm & _).
  cbn [vs_state] in Hnm. destruct (Z.leb_spec seq (indexed_seq s)).
  - destruct (Hall Lm HLm) as [Hb Hf]. exists (indexed_seq s + 1), Lm. rewrite u64_small by lia. split_and!; auto; lia.
  - destruct (Hall L HL) as [Hb Hf]. exists seq, L. split_and!; auto; lia.
Qed.

Lemma fence_loop_ok fuel : forall epoch seq L st w, fresh_writer st -> 0 < epoch < 2 ^ 64 -> log_part w L -> Z.of_nat (length L) = seq - 1 ->
  triple (write_fence fuel tb t epoch seq) st w (fun r st' w1 => writer_ok st' w1 /\ started r st') writer_ok.
Proof.
  induction fuel as [|fuel IH]; intros epoch seq L st w Hf He HL Hn; cbn [write_fence].
  { apply h_lift; [by apply fresh_exits | done]. }
  assert (HE : forall w, exits writer_ok st w) by (intros; by apply fresh_exits).
  assert (Hstop : forall c w', c <> Started -> triple (tret (mkStartResult c 0)) st w'
    (fun r st' w1 => writer_ok st' w1 /\ started r st') writer_ok).
  { intros c w' Hc. apply h_ret. pose proof Hf as (H1 & H2 & H3). split; [split_and!; auto; by rewrite H3 | by intros ?]. }
  eapply h_bind; [by apply load_ok|]. intros r st' w1 HR1 HI1 (-> & HS1 & Hr). destruct r as [vs|]; [|by apply Hstop].
  destruct Hr as (e & Hc & _ & Hd). destruct (Z.eqb_spec (writer_epoch (vs_state vs)) epoch) as [Hep|]; [|by apply Hstop]. cbn [negb].
  destruct (fence_position w1 seq L _ e epoch HI1 HS1 Hc Hd Hep (log_part_mono _ _ _ _ _ HR1 HL) Hn) as (q & L1 & -> & Hq & HL1 & Hn1 & Hf1).
  (* the record at [q] exists: go on behind it *)
  assert (Hskip : forall w2 wal', R w1 w2 -> Inv w2 -> has_wal w2 q wal' ->
    triple (write_fence fuel tb t epoch (u64 (q + 1))) st w2 (fun r st' w1 => writer_ok st' w1 /\ started r st') writer_ok).
  { intros w2 wal' HR2 HI2 Hw. rewrite u64_small by lia. apply (IH _ _ (L1 ++ [wal'])); auto.
    - eapply log_snoc; [by eapply log_part_mono | done | done].
    - rewrite length_app. simpl. lia. }
  eapply h_bind; [by apply load_wal_ok; [lia|]|]. intros r st' w2 HR2 HI2 [-> Hw]. destruct r as [wal'|]; [by eapply Hskip|].
  destruct (fence_stored epoch q) as (b & Eb & Hst); [lia | done|]. rewrite Eb.
  eapply h_bind with (P := fun x st' w' => st' = st /\ x = b /\ w' = w2); [apply h_lift; [done | by intros a [= <-]]|].
  intros x st' w' _ _ (-> & -> & ->). rewrite (wkey_ok tb t Htb) by lia.
  eapply h_bind with (P := fun x st' w' => st' = st /\ x = wkey q /\ w' = w2); [apply h_lift; [done | by intros a [= <-]]|].
  intros x st' w' _ _ (-> & -> & ->).
  eapply h_bind; [eapply (create_wal_ok q _ L1); [done | lia | | exact Hst]|].
  { eapply appendable_mono; [exact HR2|]. split; auto; [|split; [by apply NoDup_nil_2 | by intros id Hid%not_elem_of_nil]]. exists e, (vs_state vs). split_and!; auto. simpl. lia. }
  intros r st' w3 HR3 HI3 [-> Hr]. assert (HR13 : R w1 w3) by (by transitivity w2). destruct r.
  - by eapply finish_start_ok.
  - destruct Hr as [wal' Hw']. by eapply Hskip.
  - eapply h_bind; [by apply load_wal_ok; [lia|]|]. intros r st' w4 HR4 HI4 [-> Hw4]. destruct r as [landed|]; [|by apply Hstop].
    destruct (bool_decide_reflect (kind landed = KFence)); [|by apply Hstop].
    destruct (Z.eqb_spec (wal_epoch landed) epoch); [|by apply Hstop].
    destruct (bool_decide_reflect (operation_id landed = operation_id (fence_wal tb epoch q))); [|by apply Hstop].
    by eapply finish_start_ok.
Qed.

Lemma start_from_ok fuel vs st w : fresh_writer st -> seen w vs -> indexed_seq (vs_state vs) < 2 ^ 63 ->
  triple (start_from fuel st vs) st w (fun r st' w1 => writer_ok st' w1 /\ started r st') writer_ok.
Proof.
  intros Hf Hs Hix. pose proof Hf as (Ht & Hst & Hc). unfold start_from. rewrite Ht, Hst.
  eapply h_bind; [by apply acquire_ok; [apply fresh_exits|..]|]. intros [r|vs'] st' w1 HR HI [-> Hr].
  - apply h_ret. split; [split_and!; auto; by rewrite Hc | intros ?; done].
  - destruct Hr as (Hseen & Hix' & Hep). pose proof Hseen as [[_ (_ & _ & _ & Fi & _) _ _ (m & es & L & Hm)] _].
    destruct Hm as (_ & _ & _ & _ & _ & _ & HL & Hn & _). unfold in_bits in Fi. rewrite u64_small by lia.
    apply (fence_loop_ok fuel _ _ L); auto. lia.
Qed.

(** A CURRENT that was just loaded. *)
Lemma loaded_seen w vs e : Inv w -> Small w -> cur w = Some e -> version e = vs_version vs ->
  DecodeSequentialState (value e) = Ok (vs_state vs) -> seen w vs /\ indexed_seq (vs_state vs) < 2 ^ 63.
Proof.
  intros HI HS He Hv Hd. pose proof (Inv_seen tb t w e _ HI He Hd) as Hseen. rewrite Hv in Hseen.
  split; [by destruct vs | by eapply indexed_bound; [apply Hseen|]].
Qed.

(** [Start] takes a writer from any state to a started one, or leaves it
    not started; either way the invariant of the table holds throughout. *)
Lemma start_ok fuel st w : writer_ok st w ->
  triple (Start fuel) st w (fun r st' w1 => writer_ok st' w1 /\ started r st') writer_ok.
Proof.
  intros Hw. eapply h_bind with (P := fun x st' w' => st' = st /\ x = st /\ w' = w); [by apply h_get|]. intros x st' w' _ HI (-> & -> & ->).
  destruct (current_state_ st) as [cs|] eqn:Hc; [apply h_ret; split; [done | intros _; by exists cs]|].
  assert (Hf : fresh_writer st) by (destruct Hw as (? & ? & _); by split_and!). pose proof Hf as (Ht & Hst & _). rewrite Hst.
  assert (Hstop : forall w', triple (tret (mkStartResult StartConflict 0)) st w' (fun r st' w1 => writer_ok st' w1 /\ started r st') writer_ok).
  { intros w'. apply h_ret. split; [split_and!; auto; by rewrite Hc | done]. }
  assert (Hgo : forall w1 vs, Inv w1 -> Small w1 /\ (exists e, cur w1 = Some e /\ version e = vs_version vs /\ DecodeSequentialState (value e) = Ok (vs_state vs)) ->
    triple (start_from fuel st vs) st w1 (fun r st' w1 => writer_ok st' w1 /\ started r st') writer_ok).
  { intros w1 vs HI1 (HS & e & He & Hv & Hd). destruct (loaded_seen w1 vs e HI1 HS He Hv Hd). by apply start_from_ok. }
  eapply h_bind; [by apply load_ok, fresh_exits|]. intros r st' w1 HR1 HI1 (-> & Hr). destruct r as [vs|]; [by apply Hgo|].
  eapply h_bind; [by apply initialize_ok, fresh_exits|]. intros r st' w2 HR2 HI2 ->.
  assert (Hnext : triple (let! state := Load t in match state with None => tret (mkStartResult StartConflict 0) | Some state => start_from fuel st state end)
    st w2 (fun r st' w1 => writer_ok st' w1 /\ started r st') writer_ok).
  { eapply h_bind; [by apply load_ok, fresh_exits|]. intros [vs|] st' w3 HR3 HI3 (-> & Hr3); [by apply Hgo | apply Hstop]. }
  destruct r; [exact Hnext | exact Hnext | apply Hstop].
Qed.

(** *** Publish *)

Definition published_to (w : World) (seq : Z) : Prop :=
  exists e s, cur w = Some e /\ DecodeSequentialState (value e) = Ok s /\ seq <= published_seq s.

Lemma published_mono w w' seq : R w w' -> published_to w seq -> published_to w' seq.
Proof.
  intros HR (e & s & He & Hs & Hle). destruct (R_cur _ _ _ _ HR e s He Hs) as (e' & s' & He' & Hs' & (_ & _ & Hp) & _).
  exists e', s'. split_and!; auto. lia.
Qed.

Lemma result_ok code seq st w E : triple (Result code seq) st w (fun r st' w' => st' = st /\ w' = w /\ i_code r = code /\ i_seq r = seq) E.
Proof.
  eapply h_bind with (P := fun x st' w' => st' = st /\ x = st /\ w' = w); [by apply h_get|]. intros x st' w' _ _ (-> & -> & ->).
  apply h_ret. by destruct (current_state_ st).
Qed.

(** CURRENT read again: the writer stays well-formed with it. *)
Lemma refresh_ok st w cs vs : writer_ok st w -> current_state_ st = Some cs -> seen w vs ->
  writer_epoch (vs_state cs) <= writer_epoch (vs_state vs) -> writer_ok (set_current (Some vs) st) w.
Proof.
  intros (H1 & H2 & Hc) Hcs Hs Hle. rewrite Hcs in Hc. destruct Hc as (_ & Hn & wal & Hw & He). split_and!; auto.
  cbn [set_current current_state_ next_seq_]. split; [done|]. split; [done|]. exists wal. split; [done | lia].
Qed.

(** A state seen earlier is not ahead of one read later. *)
Lemma seen_le w vs e s : seen w vs -> cur w = Some e -> DecodeSequentialState (value e) = Ok s -> advances (vs_state vs) s.
Proof. intros (_ & e1 & s1 & He1 & Hs1 & Ha & _) He Hs. assert (e1 = e) as -> by congruence. assert (s1 = s) as -> by congruence. done. Qed.

Definition publish_post (seq : Z) (r : CloudImportResult) (st' : CloudTableWriter) (w1 : World) : Prop :=
  writer_ok st' w1 /\ i_seq r = seq /\ (i_code r = ImportConflict \/ i_code r = Committed /\ published_to w1 seq).

Lemma publish_loop_ok n : forall seq epoch failed wal st w cs, writer_ok st w -> current_state_ st = Some cs -> has_wal w seq wal ->
  i_code failed = ImportConflict -> i_seq failed = seq ->
  triple (publish_loop n t seq epoch failed) st w (publish_post seq) writer_ok.
Proof.
  induction n as [|n IH]; intros seq epoch failed wal st w cs Hok Hcs Hw Hcode Hseq; cbn [publish_loop].
  { apply h_ret. split_and!; auto. }
  assert (Hfail : forall w', R w w' -> triple (tret failed) st w' (publish_post seq) writer_ok).
  { intros w' HR. apply h_ret. split; [by eapply writer_ok_mono|]. split; [done | by left]. }
  assert (Hcommit : forall w' vs, R w w' -> seen w' vs -> writer_epoch (vs_state cs) <= writer_epoch (vs_state vs) ->
    published_to w' seq -> triple (let! _ := tput (set_current (Some vs) st) in Result Committed seq) st w' (publish_post seq) writer_ok).
  { intros w' vs HR Hs Hle Hp.
    eapply h_bind with (P := fun _ st' w1 => st' = set_current (Some vs) st /\ w1 = w'); [by apply h_put|]. intros _ st' w1 _ _ [-> ->].
    eapply h_weaken; [apply result_ok|]. intros r st' w1 _ _ (-> & -> & Hc & Hq). split; [|split; [done | by right]].
    eapply refresh_ok; eauto. by eapply writer_ok_mono. }
  eapply h_bind; [by apply load_ok, writer_exits|]. intros r st' w1 HR1 HI1 (-> & HS1 & Hr). destruct r as [vs|]; [|by apply Hfail].
  destruct Hr as (e & He & Hv & Hd). destruct (loaded_seen w1 vs e HI1 HS1 He Hv Hd) as [Hseen Hix].
  assert (Hok1 : writer_ok st w1) by (by eapply writer_ok_mono).
  assert (Hle : writer_epoch (vs_state cs) <= writer_epoch (vs_state vs)).
  { destruct Hok1 as (_ & _ & Hx). rewrite Hcs in Hx. destruct Hx as [Hx _]. by destruct (seen_le _ _ _ _ Hx He Hd). }
  eapply h_bind with (P := fun x st' w' => st' = st /\ x = st /\ w' = w1); [by apply h_get|]. intros x st' w' _ _ (-> & -> & ->).
  destruct (Z.leb_spec seq (published_seq (vs_state vs))) as [Hp|Hp].
  { apply Hcommit; auto. exists e, (vs_state vs). split_and!; auto. }
  destruct (Z.eqb_spec (writer_epoch (vs_state vs)) epoch) as [Hep|]; [|by apply Hfail]. cbn [negb].
  assert (HI1' := HI1). destruct HI1' as [_ (L0 & HL0 & _)].
  assert (Hw1 : has_wal w1 seq wal) by (by eapply has_wal_mono). pose proof Hw1 as (Hrange & b1 & Hb1 & _).
  assert (Hlen : seq <= Z.of_nat (length L0)).
  { destruct (decide (seq <= Z.of_nat (length L0))) as [|Hgt]; [done|]. destruct HL0 as [_ Hend]. rewrite Hend in Hb1; [done | lia]. }
  assert (HLp : log_part w1 (take (Z.to_nat seq) L0)) by (eapply log_part_sub; [apply HL0 | apply prefix_take]).
  pose proof Hseen as [Hk _]. pose proof (sk_valid _ _ _ _ Hk) as (_ & _ & Hip & _).
  eapply h_bind; [apply compare_exchange_ok; [by apply writer_exits | done|]|].
  { intros _. eapply (known_bump w1 _ _ seq _ Hk); [apply (sk_fields _ _ _ _ Hk) | exact HLp | rewrite length_take; lia | lia]. }
  intros [r v] st' w2 HR2 HI2 [-> Hr]. assert (HR02 : R w w2) by (by transitivity w1).
  assert (Hretry : triple (publish_loop n t seq epoch failed) st w2 (publish_post seq) writer_ok).
  { eapply IH; eauto; [by eapply writer_ok_mono | by eapply has_wal_mono]. }
  destruct r; [|exact Hretry..]. destruct v as [v|]; [|done]. destruct Hr as [Hv2 Hseen2]. apply Hcommit; auto.
  - rewrite Hv2. simpl. lia.
  - destruct Hseen2 as (_ & e2 & s2 & He2 & Hs2 & (_ & _ & Hp2) & _). exists e2, s2. split_and!; auto. rewrite Hv2 in Hp2. simpl in Hp2. lia.
Qed.

Lemma publish_ok seq epoch wal st w cs : writer_ok st w -> current_state_ st = Some cs -> has_wal w seq wal ->
  triple (Publish seq epoch) st w (publish_post seq) writer_ok.
Proof.
  intros Hok Hcs Hw. eapply h_bind; [apply result_ok|]. intros r st' w' _ _ (-> & -> & Hc & Hs).
  eapply h_bind with (P := fun x st' w' => st' = st /\ x = st /\ w' = w); [by apply h_get|]. intros x st' w' _ _ (-> & -> & ->).
  pose proof Hok as (_ & Hst & _). rewrite Hst. by eapply publish_loop_ok.
Qed.

(** *** What is known of earlier imports *)

Lemma log_entries_snoc L wal : log_entries (L ++ [wal]) = log_entries L ++ wal_entries wal (Z.of_nat (length L) + 1).
Proof. unfold log_entries. rewrite imap_app, concat_app. simpl. rewrite app_nil_r. by rewrite Nat.add_0_r. Qed.

Lemma elem_log_entries L e : e ∈ log_entries L <->
  exists i wal, L !! i = Some wal /\ batch_id e ∈ batch_ids wal /\ en_seq e = Z.of_nat i + 1 /\ en_operation_id e = operation_id wal /\
    en_digest e = payload_digest wal.
Proof.
  induction L as [|wal L IH] using rev_ind; [split; [by intros ?%not_elem_of_nil | by intros (i & wal & Hi & _)]|].
  rewrite log_entries_snoc, elem_of_app, IH. unfold wal_entries. rewrite list_elem_of_fmap. split.
  - intros [(i & x & Hi & Hx)|(id & -> & Hid)].
    + exists i, x. split; [|done]. rewrite lookup_app_l; [done|]. by eapply lookup_lt_Some.
    + exists (length L), wal. split; [by apply list_lookup_middle | done].
  - intros (i & x & Hi & Hid & Hs & Ho & Hd). apply lookup_app_Some in Hi as [Hi|[Hge Hi]]; [left; by exists i, x|].
    apply list_lookup_singleton_Some in Hi as [Hi <-]. right. exists (batch_id e). split; [|done].
    destruct e as [a b c d]. simpl in *. f_equal; [lia | done | done].
Qed.

Lemma in_log_ids L id : id ∈ concat (batch_ids <$> L) <-> exists e, e ∈ log_entries L /\ batch_id e = id.
Proof.
  rewrite list_elem_of_In, in_concat. setoid_rewrite <- list_elem_of_In. split.
  - intros (ids & Hids & Hid). apply list_elem_of_fmap in Hids as (wal & -> & Hw). apply list_elem_of_lookup in Hw as [i Hi].
    exists (mkEntry id (Z.of_nat i + 1) (operation_id wal) (payload_digest wal)). split; [|done]. apply elem_log_entries. exists i, wal. done.
  - intros (e & He & <-). apply elem_log_entries in He as (i & wal & Hi & Hid & _). exists (batch_ids wal). split; [|done].
    apply list_elem_of_fmap. exists wal. split; [done|]. by eapply list_elem_of_lookup_2.
Qed.

(** [known] is an index of the entries of [L]. *)
Definition known_ok (known : gmap string SequentialBatchEntry) (es : list SequentialBatchEntry) : Prop :=
  (forall id e, known !! id = Some e -> batch_id e = id /\ e ∈ es) /\ (forall e, e ∈ es -> is_Some (known !! batch_id e)).

Lemma emplace_ok known es e : known_ok known es -> known_ok (emplace e known) (es ++ [e]).
Proof.
  intros [H1 H2]. unfold emplace. destruct (known !! batch_id e) as [e0|] eqn:E; split.
  - intros id x Hx. destruct (H1 id x Hx). split; [done | set_solver].
  - intros x [Hx| ->%list_elem_of_singleton]%elem_of_app; [by apply H2 | by rewrite E].
  - intros id x [[<- <-]|[Hne Hx]]%lookup_insert_Some; [split; [done | set_solver]|]. destruct (H1 id x Hx). split; [done | set_solver].
  - intros x [Hx| ->%list_elem_of_singleton]%elem_of_app; [|by rewrite lookup_insert_eq].
    destruct (H2 x Hx) as [y Hy]. destruct (decide (batch_id e = batch_id x)) as [->|Hne]; [by rewrite lookup_insert_eq|].
    by rewrite lookup_insert_ne, Hy.
Qed.

Lemma emplace_all_ok es : forall known es0, known_ok known es0 -> known_ok (emplace_all es known) (es0 ++ es).
Proof.
  induction es as [|e es IH]; intros known es0 Hk; [by rewrite app_nil_r|]. rewrite (cons_middle e es0 es), app_assoc.
  by apply (IH (emplace e known)), emplace_ok.
Qed.

Lemma known_ext known es es' : (forall e, e ∈ es <-> e ∈ es') -> known_ok known es -> known_ok known es'.
Proof. intros He [H1 H2]. split; [intros id e Hx; rewrite <- He; auto | intros e Hx; apply H2; by apply He]. Qed.

Lemma scan_ok n : forall seq known L st w E, exits E st w -> 0 < seq -> seq + Z.of_nat n <= 2 ^ 63 + 1 -> known_ok known (log_entries L) ->
  log_part w L -> Z.of_nat (length L) = seq - 1 ->
  triple (scan_wals n tb seq known) st w (fun r st' w1 => st' = st /\
    match r with None => True | Some known' => exists L', known_ok known' (log_entries L') /\ log_part w1 L' /\
      Z.of_nat (length L') = seq - 1 + Z.of_nat n end) E.
Proof.
  induction n as [|n IH]; intros seq known L st w E HE Hs Hb Hk HL Hn; cbn [scan_wals].
  { apply h_ret. split; [done|]. exists L. split_and!; auto. lia. }
  eapply h_bind; [by apply load_wal_ok; [lia|]|]. intros r st' w1 HR HI [-> Hr]. destruct r as [wal|]; [|by apply h_ret].
  rewrite u64_small by lia. eapply h_weaken.
  - apply (IH (seq + 1) _ (L ++ [wal])); [by eapply exits_mono | lia | lia | | |].
    + rewrite log_entries_snoc. replace (Z.of_nat (length L) + 1) with seq by lia. by apply emplace_all_ok.
    + eapply log_snoc; [by eapply log_part_mono | done | done].
    + rewrite length_app. simpl. lia.
  - intros r st' w2 _ _ [-> Hr2]. split; [done|]. destruct r as [known'|]; [|done]. destruct Hr2 as (L' & ? & ? & ?). exists L'. split_and!; auto. lia.
Qed.

(** The loop over the ids of a request. *)
Lemma check_known_ok known op digest ids : forall a p r, check_known known op digest ids a p = Some r ->
  (a <= r.1 <= a + length ids)%nat /\ (r.1 = a -> forall id, id ∈ ids -> known !! id = None) /\
  (r.1 = (a + length ids)%nat -> forall id, id ∈ ids -> exists e, known !! id = Some e /\ en_operation_id e = op /\ en_digest e = digest).
Proof.
  induction ids as [|id ids IH]; intros a p r; cbn [check_known length].
  { intros [= <-]. simpl. split_and!; [lia | lia | by intros _ id ?%not_elem_of_nil | by intros _ id ?%not_elem_of_nil]. }
  destruct (known !! id) as [e|] eqn:E.
  - destruct (bool_decide_reflect (en_operation_id e = op)) as [Ho|]; [|done]. destruct (bool_decide_reflect (en_digest e = digest)) as [Hd|]; [|done].
    cbn [negb orb]. destruct (negb (p =? 0) && negb (p =? en_seq e)); [done|]. intros H. destruct (IH _ _ _ H) as (H1 & _ & H3).
    split_and!; [lia | lia | lia|]. intros Hr x [->|Hx]%elem_of_cons; [by exists e|]. apply H3; [lia | done].
  - intros H. destruct (IH _ _ _ H) as (H1 & H2 & H3). split_and!; [lia | lia | |].
    + intros Hr x [->|Hx]%elem_of_cons; [done | by apply H2].
    + intros Hr. lia.
Qed.

(** The sequence number it answers with is that of every known id. *)
Lemma check_known_seq known op digest ids : (forall id e, known !! id = Some e -> en_seq e <> 0) ->
  forall a p r, check_known known op digest ids a p = Some r ->
  (p <> 0 -> r.2 = p) /\ forall id e, id ∈ ids -> known !! id = Some e -> en_seq e = r.2.
Proof.
  intros Hz. induction ids as [|id ids IH]; intros a p r; cbn [check_known].
  { intros [= <-]. split; [done | by intros id e ?%not_elem_of_nil]. }
  destruct (known !! id) as [e|] eqn:E; cycle 1.
  { intros H. destruct (IH _ _ _ H) as [H1 H2]. split; [done|]. intros x e [->|Hx]%elem_of_cons He; [congruence | by eapply H2]. }
  destruct (_ || _) eqn:Hg; [done|]. apply orb_false_iff in Hg as [_ Hg]. intros H. destruct (IH _ _ _ H) as [H1 H2].
  specialize (H1 (Hz _ _ E)). split.
  - intros Hp. destruct (Z.eqb_spec p 0), (Z.eqb_spec p (en_seq e)); try done. congruence.
  - intros x e' [->|Hx]%elem_of_cons He'; [congruence | by eapply H2].
Qed.

(** *** Import *)

(** A batch the writer accepts has chunks of rows and an encoding that the
    readers' limits allow. *)
Definition batch_wf (batch : CloudImportBatch) (rss : list (list (list Value))) : Prop :=
  wal_ok fs (import_wal tb 1 1 batch) rss /\ Z.of_nat (length (enc_wal fs (import_wal tb 1 1 batch) rss)) <= kMaxWalBytes.

(** The record [seq] of the log carries the batch, whose rows are [rss]. *)
Definition carries (w : World) (batch : CloudImportBatch) (rss : list (list (list Value))) (seq : Z) : Prop :=
  batch_wf batch rss /\ exists wal, has_wal w seq wal /\ kind wal = KAppend /\ operation_id wal = first_id batch /\
    payload_digest wal = wal_digest fs (b_ids batch) rss /\ forall id, id ∈ b_ids batch -> id ∈ batch_ids wal.

Lemma carries_mono w w' batch rss seq : R w w' -> carries w batch rss seq -> carries w' batch rss seq.
Proof. intros HR (Hwf & wal & Hw & H). split; [done|]. exists wal. split; [by eapply has_wal_mono | done]. Qed.

Lemma distinct_ids_ok ids : forall s, distinct_ids s ids = true -> NoDup ids /\ Forall (fun id => id <> "") ids /\ forall id, id ∈ ids -> id ∉ s.
Proof.
  induction ids as [|id ids IH]; intros s; cbn [distinct_ids]; [intros _; split_and!; [constructor | constructor | by intros id ?%not_elem_of_nil]|].
  rewrite !andb_true_iff, !negb_true_iff, !bool_decide_eq_false. intros [[H1 H2] H3]. destruct (IH _ H3) as (Hn & Hf & Hs). split_and!.
  - constructor; [|done]. intros Hin. apply (Hs id Hin). set_solver.
  - by constructor.
  - intros x [->|Hx]%elem_of_cons; [done|]. specialize (Hs x Hx). set_solver.
Qed.

Lemma import_stored batch rss seq epoch : IsValidBatch tb batch = true -> batch_wf batch rss -> 0 < seq < 2 ^ 64 -> 0 < epoch < 2 ^ 64 ->
  exists b, EncodeSequentialWal (import_wal tb seq epoch batch) fs = Ok b /\
    CloudInv.stored_wal tb b seq (with_digest (wal_digest fs (b_ids batch) rss) (import_wal tb seq epoch batch)).
Proof.
  intros Hv [Hok Hl] Hs He. assert (Hok' : wal_ok fs (import_wal tb seq epoch batch) rss).
  { destruct Hok as [A1 _ _ A4 A5 A6 A7 A8 A9 A10]. split; assumption. }
  exists (enc_wal fs (import_wal tb seq epoch batch) rss). split; [by apply encode_wal_ok|]. exists rss.
  split; [destruct Hok' as [A1 A2 A3 A4 A5 A6 A7 A8 A9 A10]; split; assumption|]. split; [reflexivity|]. split; [reflexivity|].
  split; [rewrite length_enc_wal in *; exact Hl|]. split; [reflexivity|]. split; [reflexivity|].
  unfold IsValidBatch in Hv. rewrite !andb_true_iff in Hv. destruct Hv as [[_ Hd] _]. by apply distinct_ids_ok in Hd as (_ & ? & _).
Qed.

Definition import_post (batch : CloudImportBatch) rss (r : CloudImportResult) (st' : CloudTableWriter) (w1 : World) : Prop :=
  writer_ok st' w1 /\
  match i_code r with
  | Committed | AlreadyCommitted => carries w1 batch rss (i_seq r) /\ published_to w1 (i_seq r)
  | Durable => carries w1 batch rss (i_seq r)
  | _ => True
  end.

(** An answer that promises nothing. *)
Lemma refuse_ok batch rss code st w : writer_ok st w -> code <> Committed -> code <> AlreadyCommitted -> code <> Durable ->
  triple (Result code 0) st w (import_post batch rss) writer_ok.
Proof.
  intros Hok H1 H2 H3. eapply h_weaken; [apply result_ok|]. intros r st' w' _ _ (-> & -> & Hc & _). split; [done|]. rewrite Hc. by destruct code.
Qed.

Lemma publish_import_ok batch rss seq epoch st w cs : writer_ok st w -> current_state_ st = Some cs -> carries w batch rss seq ->
  triple (Publish seq epoch) st w (import_post batch rss) writer_ok.
Proof.
  intros Hok Hcs Hc. pose proof Hc as (_ & wal & Hw & _). eapply h_weaken; [by eapply publish_ok|].
  intros r st' w' HR HI (Hok' & Hs & Hr). split; [done|]. rewrite Hs. assert (carries w' batch rss seq) by (by eapply carries_mono).
  by destruct Hr as [-> |[-> Hp]].
Qed.

Lemma durable_ok batch rss seq st w : writer_ok st w -> carries w batch rss seq ->
  triple (Result Durable seq) st w (import_post batch rss) writer_ok.
Proof.
  intros Hok Hc. eapply h_weaken; [apply result_ok|]. intros r st' w' _ _ (-> & -> & Hcode & Hs). split; [done|]. by rewrite Hcode, Hs.
Qed.

Lemma finish_import_ok batch rss wal x st w cs : writer_ok st w -> current_state_ st = Some cs -> next_seq_ st = wal_seq wal ->
  next_seq_ st <= 2 ^ 63 -> has_wal w (wal_seq wal) x -> wal_epoch x <= writer_epoch (vs_state cs) -> carries w batch rss (wal_seq wal) ->
  triple (finish_import batch wal) st w (import_post batch rss) writer_ok.
Proof.
  intros Hok Hcs Hn Hb Hx He Hc.
  eapply h_bind with (P := fun y st' w' => st' = st /\ y = st /\ w' = w); [by apply h_get|]. intros y st' w' _ _ (-> & -> & ->).
  pose proof Hok as (Ht & Hs & Hcur). rewrite Hcs in Hcur. destruct Hcur as (Hseen & Hrange & _).
  assert (Hok' : writer_ok (set_next (u64 (next_seq_ st + 1)) st) w).
  { split_and!; auto. cbn [set_next current_state_ next_seq_]. rewrite Hcs, u64_small by lia. split; [done|]. split; [lia|].
    exists x. replace (next_seq_ st + 1 - 1) with (wal_seq wal) by lia. done. }
  eapply h_bind with (P := fun _ st' w' => st' = set_next (u64 (next_seq_ st + 1)) st /\ w' = w); [by apply h_put|]. intros _ st' w' _ _ [-> ->].
  destruct (immediate batch); [by eapply publish_import_ok | by apply durable_ok].
Qed.

(** The last record bounds the epochs of a sorted log. *)
Lemma sorted_last w L0 L seq x epoch : log_at tb w L0 -> epochs_sorted L0 -> log_part w L -> Z.of_nat (length L) = seq ->
  has_wal w seq x -> wal_epoch x <= epoch -> Forall (fun y => wal_epoch y <= epoch) L.
Proof.
  intros HL0 Hso HL Hn Hx He. destruct (log_part_prefix tb w L L0 HL HL0) as [k ->].
  destruct L as [|y L _] using rev_ind; [constructor|]. rewrite length_app in Hn. simpl in Hn.
  assert (y = x) as ->.
  { eapply (has_wal_det tb w seq); [|exact Hx]. replace seq with (Z.of_nat (length L) + 1) by lia. apply HL. by apply list_lookup_middle. }
  clear -Hso He. unfold epochs_sorted in Hso. rewrite <- app_assoc in Hso. induction L as [|z L IH]; simpl in *; [by repeat constructor|].
  apply StronglySorted_inv in Hso as [Hso Hz]. constructor; [|by apply IH]. rewrite Forall_app, Forall_cons in Hz. lia.
Qed.

Lemma append_ok batch rss known L st w cs : IsValidBatch tb batch = true -> batch_wf batch rss -> writer_ok st w -> current_state_ st = Some cs ->
  next_seq_ st <= 2 ^ 63 -> 0 < writer_epoch (vs_state cs) < 2 ^ 64 -> known_ok known (log_entries L) -> log_part w L ->
  next_seq_ st - 1 <= Z.of_nat (length L) -> (forall id, id ∈ b_ids batch -> known !! id = None) ->
  triple (append_wal batch (writer_epoch (vs_state cs))) st w (import_post batch rss) writer_ok.
Proof.
  intros Hv Hwf Hok Hcs Hb Hep Hk HL Hlen Hno HI.
  pose proof Hok as (Ht & Hs & Hcur). rewrite Hcs in Hcur. destruct Hcur as (Hseen & Hrange & x & Hx & Hxe).
  revert HI. eapply h_bind with (P := fun y st' w' => st' = st /\ y = st /\ w' = w); [by apply h_get|]. intros y st' w' _ HI (-> & -> & ->).
  destruct (Z.eqb_spec (next_seq_ st) UINT64_MAX) as [Hmax|_]; [unfold UINT64_MAX in Hmax; lia|]. rewrite Ht.
  cbn [import_wal wal_seq]. rewrite (wkey_ok tb t Htb) by lia.
  eapply h_bind with (P := fun y st' w' => st' = st /\ y = wkey (next_seq_ st) /\ w' = w);
    [apply h_lift; [by apply writer_exits | by intros a [= <-]]|]. intros y st' w' _ _ (-> & -> & ->).
  set (seq := next_seq_ st) in *. set (epoch := writer_epoch (vs_state cs)) in *.
  destruct (import_stored batch rss seq epoch Hv Hwf) as (b & Eb & Hst); [lia | done|]. fold (import_wal tb seq epoch batch). rewrite Eb.
  set (walD := with_digest (wal_digest fs (b_ids batch) rss) (import_wal tb seq epoch batch)) in *.
  assert (Hcarry : forall w', has_wal w' seq walD -> carries w' batch rss seq) by (intros w' Hw'; split; [done|]; by exists walD).
  assert (Hap : appendable w seq walD (take (Z.to_nat (seq - 1)) L)).
  { assert (HLp : log_part w (take (Z.to_nat (seq - 1)) L)) by (eapply log_part_sub; [exact HL | apply prefix_take]).
    assert (Hln : Z.of_nat (length (take (Z.to_nat (seq - 1)) L)) = seq - 1) by (rewrite length_take; lia).
    pose proof HI as [_ (L0 & HL0 & Hso & _ & _)]. split; auto.
    - by eapply sorted_last.
    - destruct Hseen as (_ & e & s & He & Hd & (Ha & _) & _). exists e, s. by split_and!.
    - unfold IsValidBatch in Hv. rewrite !andb_true_iff in Hv. destruct Hv as [[_ Hd] _]. apply distinct_ids_ok in Hd as (Hnd & _ & _).
      split; [done|]. intros id Hid Hin. specialize (Hno id Hid).
      assert (Hin' : id ∈ concat (batch_ids <$> L)).
      { rewrite <- (take_drop (Z.to_nat (seq - 1)) L), fmap_app, concat_app. apply elem_of_app. by left. }
      apply in_log_ids in Hin' as (e & He & <-). destruct Hk as [_ Hk]. destruct (Hk e He) as [? Hs']. congruence. }
  eapply h_bind; [eapply create_wal_ok; [by apply writer_exits | lia | exact Hap | exact Hst]|].
  intros r st' w1 HR1 HI1 [-> Hr]. assert (Hok1 : writer_ok st w1) by (by eapply writer_ok_mono).
  assert (Hlanded : triple (
      let! landed := LoadSequentialWal tb (wal_seq (import_wal tb seq epoch batch)) in
      match landed with
      | None => Result ImportConflict 0
      | Some landed =>
          if negb (wal_epoch landed =? wal_epoch (import_wal tb seq epoch batch)) then let! _ := tput (set_current None st) in Result Fenced 0
          else if negb (bool_decide (kind landed = KAppend)) || negb (bool_decide (operation_id landed = operation_id (import_wal tb seq epoch batch)))
          then Result ImportConflict 0 else
          let! b' := tlift (EncodeSequentialWal landed fs) in
          if negb (bool_decide (b' = b)) then Result ImportConflict 0 else finish_import batch (import_wal tb seq epoch batch)
      end) st w1 (import_post batch rss) writer_ok).
  { eapply h_bind; [by apply load_wal_ok; [simpl; lia | apply writer_exits]|]. intros r2 st' w2 HR2 HI2 [-> Hr2].
    assert (Hok2 : writer_ok st w2) by (by eapply writer_ok_mono). destruct r2 as [landed|]; [|by apply refuse_ok].
    destruct (negb _) eqn:Hne; [|].
    { eapply h_bind with (P := fun _ st' w' => st' = set_current None st /\ w' = w2); [by apply h_put|]. intros _ st' w' _ _ [-> ->].
      by apply refuse_ok. }
    destruct (_ || _); [by apply refuse_ok|]. cbn [wal_seq import_wal] in Hr2. pose proof Hr2 as (_ & b2 & _ & rss2 & Hok3 & Hd3 & _).
    eapply h_bind with (P := fun y st' w' => st' = st /\ EncodeSequentialWal landed fs = Ok y /\ w' = w2);
      [apply h_lift; [by apply writer_exits | done]|]. intros y st' w' _ _ (-> & Ey & ->).
    destruct (bool_decide_reflect (y = b)) as [->|]; [|by apply refuse_ok]. cbn [negb].
    assert (landed = walD) as ->.
    { rewrite (encode_wal_ok fs landed rss2 Hok3) in Ey. injection Ey as Ey. pose proof (decode_wal_ok fs landed rss2 Hok3) as D1.
      rewrite Ey, (stored_decode tb b seq walD Hst), <- Hd3 in D1.
      transitivity (with_digest (payload_digest landed) landed); [by destruct landed | congruence]. }
    eapply (finish_import_ok batch rss _ walD); eauto. simpl. lia. }
  destruct r; [|exact Hlanded..]. eapply (finish_import_ok batch rss _ walD); eauto. simpl. lia.
Qed.

(** All ids known: one record carries them. *)
Lemma known_carries batch rss known L w prior n : batch_wf batch rss -> b_ids batch <> [] -> known_ok known (log_entries L) -> log_part w L ->
  check_known known (first_id batch) (wal_digest fs (b_ids batch) rss) (b_ids batch) 0 0 = Some (n, prior) ->
  n = length (b_ids batch) -> carries w batch rss prior.
Proof.
  intros Hwf Hne [Hk1 Hk2] HL Hc Hn. destruct (check_known_ok _ _ _ _ _ _ _ Hc) as (_ & _ & Hall). cbn [fst] in Hall. specialize (Hall Hn).
  assert (Hnz : forall id e, known !! id = Some e -> en_seq e <> 0).
  { intros id e He. destruct (Hk1 id e He) as [_ Hin]. apply elem_log_entries in Hin as (i & wal & _ & _ & Hs & _). lia. }
  destruct (check_known_seq _ _ _ _ Hnz _ _ _ Hc) as [_ Hseq]. cbn [snd] in Hseq.
  assert (Hrec : forall id, id ∈ b_ids batch -> exists wal, has_wal w prior wal /\ id ∈ batch_ids wal /\ operation_id wal = first_id batch /\
    payload_digest wal = wal_digest fs (b_ids batch) rss).
  { intros id Hid. destruct (Hall id Hid) as (e & He & Ho & Hd). destruct (Hk1 id e He) as [<- Hin].
    apply elem_log_entries in Hin as (i & wal & Hi & Hb & Hs & Ho' & Hd'). exists wal. split_and!; try congruence.
    pose proof (Hseq _ _ Hid He) as Hp. rewrite <- Hp, Hs. by apply HL. }
  destruct (b_ids batch) as [|id0 ids] eqn:Eids; [done|]. destruct (Hrec id0) as (wal & Hw & Hin & Ho & Hd); [by left|].
  split; [done|]. exists wal. rewrite Eids. split_and!; auto.
  - pose proof Hw as (_ & b & _ & rss' & Hok & _). pose proof (wo_kind _ _ _ Hok) as Hkind. destruct (kind wal); [done|].
    destruct Hkind as [Hnil _]. rewrite Hnil in Hin. by apply not_elem_of_nil in Hin.
  - intros id Hid. destruct (Hrec id Hid) as (wal' & Hw' & Hin' & _). by rewrite (has_wal_det tb w prior wal wal').
Qed.

Lemma import_known_ok batch rss known L st w vs : IsValidBatch tb batch = true -> batch_wf batch rss -> writer_ok st w ->
  current_state_ st = Some vs -> next_seq_ st <= 2 ^ 63 -> 0 < writer_epoch (vs_state vs) < 2 ^ 64 ->
  known_ok known (log_entries L) -> log_part w L -> next_seq_ st - 1 <= Z.of_nat (length L) ->
  triple (import_known batch vs (wal_digest fs (b_ids batch) rss) known) st w (import_post batch rss) writer_ok.
Proof.
  intros Hv Hwf Hok Hcs Hb Hep Hk HL Hlen. unfold import_known.
  destruct (check_known _ _ _ _ _ _) as [[already prior]|] eqn:Hc; [|by apply refuse_ok].
  destruct (check_known_ok _ _ _ _ _ _ _ Hc) as (Hbound & Hnone & _). cbn [fst] in Hbound, Hnone.
  destruct (Nat.eqb_spec already (length (b_ids batch))) as [Hall|Hsome].
  - assert (Hne : b_ids batch <> []) by (intros E; unfold IsValidBatch in Hv; by rewrite E in Hv).
    pose proof (known_carries batch rss known L w prior already Hwf Hne Hk HL Hc Hall) as Hcar.
    destruct (Z.leb_spec prior (published_seq (vs_state vs))) as [Hp|Hp].
    + eapply h_weaken; [apply result_ok|]. intros r st' w' _ _ (-> & -> & Hcode & Hs). split; [done|]. rewrite Hcode, Hs. split; [done|].
      pose proof Hok as (_ & _ & Hcur). rewrite Hcs in Hcur. destruct Hcur as ((_ & e & s & He & Hd & (_ & _ & Ha) & _) & _).
      exists e, s. split_and!; auto. lia.
    + destruct (immediate batch); [by eapply publish_import_ok | by apply durable_ok].
  - destruct (Nat.eqb_spec already 0) as [->|]; cbn [negb]; [|by apply refuse_ok].
    eapply append_ok; eauto.
Qed.

(** [Import] under interference: whatever it answers is true of the log. *)
Lemma import_ok batch rss st w : writer_ok st w -> (IsValidBatch tb batch = true -> batch_wf batch rss) ->
  triple (Import batch) st w (import_post batch rss) writer_ok.
Proof.
  intros Hok Hwf. eapply h_bind with (P := fun y st' w' => st' = st /\ y = st /\ w' = w); [by apply h_get|]. intros y st' w' _ _ (-> & -> & ->).
  destruct (current_state_ st) as [cs|] eqn:Hcs; [|by apply refuse_ok]. pose proof Hok as (Ht & Hs & _). rewrite Ht, Hs.
  destruct (IsValidBatch tb batch) eqn:Hv; cbn [negb]; [|by apply refuse_ok]. specialize (Hwf eq_refl).
  eapply h_bind; [by apply load_ok, writer_exits|]. intros r st' w1 HR1 HI1 (-> & HS1 & Hr).
  assert (Hok1 : writer_ok st w1) by (by eapply writer_ok_mono). destruct r as [vs|]; [|by apply refuse_ok].
  destruct Hr as (e & He & Hve & Hd). destruct (loaded_seen w1 vs e HI1 HS1 He Hve Hd) as [Hseen Hix].
  destruct (Z.eqb_spec (writer_epoch (vs_state vs)) (writer_epoch (vs_state cs))) as [Heq|Hne]; cbn [negb]; cycle 1.
  { eapply h_bind with (P := fun _ st' w' => st' = set_current None st /\ w' = w1); [by apply h_put|]. intros _ st' w' _ _ [-> ->]. by apply refuse_ok. }
  eapply h_bind with (P := fun _ st' w' => st' = set_current (Some vs) st /\ w' = w1); [by apply h_put|]. intros _ st' w' _ _ [-> ->].
  set (st1 := set_current (Some vs) st). assert (Hst1 : writer_ok st1 w1) by (eapply refresh_ok; eauto; lia).
  (* the bounds of the writer's position and epoch, from the log it was read with *)
  pose proof Hok1 as (_ & _ & Hcur). rewrite Hcs in Hcur. destruct Hcur as (_ & Hrange & x & Hx & Hxe).
  pose proof HI1 as [_ (L0 & HL0 & _ & _ & _)].
  assert (Hnext : next_seq_ st <= 2 ^ 63).
  { destruct Hx as (_ & bx & Hbx & _). pose proof (log_bound w1 L0 (proj1 HL0) HS1).
    destruct (decide (next_seq_ st - 1 <= Z.of_nat (length L0))) as [|Hgt]; [lia|]. rewrite (proj2 HL0) in Hbx; [done | lia]. }
  pose proof Hseen as [[_ (_ & _ & Fe & Fi & _) Hsv _ (m & es & Lm & Hm)] _].
  assert (Hep : 0 < writer_epoch (vs_state vs) < 2 ^ 64).
  { unfold in_bits in Fe. pose proof Hx as (_ & bx & _ & rx & Hokx & _). pose proof (wo_epoch _ _ _ Hokx). lia. }
  (* the request, encoded and decoded *)
  destruct (import_stored batch rss 1 1 Hv Hwf) as (b & Eb & Hst); [lia | lia|]. rewrite Eb.
  eapply h_bind with (P := fun y st' w' => st' = st1 /\ y = b /\ w' = w1); [apply h_lift; [by apply writer_exits | by intros a [= <-]]|].
  intros y st' w' _ _ (-> & -> & ->). rewrite (stored_decode tb b 1 _ Hst).
  eapply h_bind with (P := fun y st' w' => st' = st1 /\ payload_digest y = wal_digest fs (b_ids batch) rss /\ w' = w1);
    [apply h_lift; [by apply writer_exits | by intros a [= <-]]|]. intros y st' w' _ _ (-> & -> & ->).
  (* the index, then the records behind it *)
  eapply h_bind; [eapply load_manifest_ok; [by apply writer_exits | exact Hsv | exact Hm]|]. intros y2 st' w2 HR2 HI2 [-> ->].
  pose proof (manifest_of_mono _ _ _ _ _ _ _ _ HR2 Hm) as Hm2.
  eapply h_bind; [eapply load_batch_index_ok; [apply writer_exits; by eapply writer_ok_mono | exact Hm2]|]. intros y3 st' w3 HR3 HI3 [-> ->].
  assert (HR13 : R w1 w3) by (by transitivity w2). pose proof (manifest_of_mono _ _ _ _ _ _ _ _ HR13 Hm) as (_ & _ & _ & _ & _ & _ & HLm & Hnm & Hes & _).
  unfold in_bits in Fi. rewrite u64_small by lia. cbv zeta.
  eapply h_bind; [apply (scan_ok _ _ _ Lm); [apply writer_exits; by eapply writer_ok_mono | lia | lia | | done | lia]|].
  { eapply known_ext; [exact Hes|]. change es with ([] ++ es) at 2. apply emplace_all_ok. split; [done | by intros e' ?%not_elem_of_nil]. }
  intros known st' w4 HR4 HI4 [-> Hk]. assert (HR14 : R w1 w4) by (by transitivity w3). assert (Hst4 : writer_ok st1 w4) by (by eapply writer_ok_mono).
  destruct known as [known|]; [|by apply refuse_ok]. destruct Hk as (L & Hk & HL & Hlen).
  eapply (import_known_ok batch rss known L); eauto. cbn [st1 set_current next_seq_]. lia.
Qed.

End Proto.
