(* ===== verification/CloudIndex.v ===== *)
(** * The indexer, the snapshot loader and the probe limit

    The operations of [Cloud/CloudWalIndexer], [Cloud/TableSnapshotLoader] and
    [Cloud/CloudTable] under interference by other nodes: an index pass moves
    the index over records that are in the log and writes exactly their chunks
    and batch ids; a snapshot is a prefix of the log; the probe limit stays
    within its policy. *)

From stdpp Require Import strings pretty sorting.
From S2P Require Import Prelude KeyCodec Table TableSpec Storage SeqCodec SeqCodecSpec WalSpec Cloud CloudLogic CloudInv CloudProto.
Import MemMetadataStore MetaRuns.
Open Scope Z_scope.

(** ** The batch index of a pass *)

Lemma elem_unique_ids es e : (forall a b, a ∈ es -> b ∈ es -> batch_id a = batch_id b -> a = b) -> e ∈ unique_ids es <-> e ∈ es.
Proof.
  induction es as [|x es IH]; [done|]. intros Hinj. cbn [unique_ids].
  assert (IH' : e ∈ unique_ids es <-> e ∈ es) by (apply IH; intros a b Ha Hb; apply Hinj; by right).
  assert (Hin : forall y, y ∈ unique_ids es -> y ∈ es).
  { clear. induction es as [|z es IH]; [done|]. cbn [unique_ids]. intros y. destruct (unique_ids es) as [|z' es']; [set_solver|].
    case_bool_decide; set_solver. }
  destruct (unique_ids es) as [|y ys] eqn:E; [rewrite !elem_of_cons, <- IH'; set_solver|].
  case_bool_decide as Hxy; [|by rewrite elem_of_cons, IH', elem_of_cons].
  assert (x = y) as -> by (apply Hinj; [by left | right; apply Hin; by left | done]).
  rewrite (elem_of_cons es), <- IH', !elem_of_cons. tauto.
Qed.

Lemma elem_sort_entries es e : (forall a b, a ∈ es -> b ∈ es -> batch_id a = batch_id b -> a = b) -> e ∈ sort_entries es <-> e ∈ es.
Proof.
  intros Hinj. unfold sort_entries. pose proof (merge_sort_Permutation id_le es) as Hp. rewrite elem_unique_ids; [by rewrite Hp|].
  intros a b. rewrite !Hp. apply Hinj.
Qed.

(** ** Names of data files *)

Fixpoint slashes (n : nat) : string := match n with O => "" | S n => "/" +:+ slashes n end.

Lemma strip_decompose s : exists n, s = strip_slashes s +:+ slashes n.
Proof.
  induction s as [|c s (n & Hs)]; [by exists 0%nat|]. cbn [strip_slashes].
  destruct (bool_decide_reflect (strip_slashes s = "")) as [He|He]; cbn [andb].
  - rewrite He in Hs. change ("" +:+ slashes n) with (slashes n) in Hs. case_bool_decide as Hc.
    + exists (S n). rewrite Hs, Hc. done.
    + exists n. rewrite He. by rewrite Hs at 1.
  - exists n. by rewrite Hs at 1.
Qed.

Lemma data_path_neq tb key seq : String.prefix "data/" key = true -> file_prefix tb +:+ "/" +:+ key <> wkey tb seq.
Proof.
  intros Hk E. unfold wkey in E. destruct (strip_decompose (file_prefix tb)) as (n & Hs). rewrite Hs in E at 1.
  rewrite string_app_assoc in E. apply string_app_inv_l in E. destruct n as [|[|n]]; [|done | done].
  change ("/" +:+ key = "/" +:+ ("wal/" +:+ dec_digits 20 seq +:+ ".wal")) in E. apply string_app_inv_l in E. rewrite E in Hk. done.
Qed.

Section Index.

Context {hashes : Hashes} {hashes_spec : HashesSpec} {format : IFileFormat}.
Context (tb t : TableDescriptor) (Htb : table_wf tb t).

Abbreviation fs := (schema tb).
Abbreviation Inv := (CloudInv.Inv tb t).
Abbreviation R := (CloudInv.R tb t).
Abbreviation cur := (CloudInv.cur t).
Abbreviation has_wal := (CloudInv.has_wal tb).
Abbreviation log_part := (CloudInv.log_part tb).
Abbreviation wkey := (CloudInv.wkey tb).
Abbreviation seen := (CloudInv.seen tb t).
Abbreviation state_known := (CloudInv.state_known tb t).
Abbreviation manifest_of := (CloudInv.manifest_of tb t).
Abbreviation triple := (CloudProto.triple tb t).
Abbreviation exits := (CloudProto.exits tb t).

(** ** Entries and files of a stretch of the log *)

(** In a log with distinct ids an id has one entry. *)
Lemma log_entries_inj L a b : ids_distinct L -> a ∈ log_entries L -> b ∈ log_entries L -> batch_id a = batch_id b -> a = b.
Proof.
  intros Hd Ha Hb He. apply elem_log_entries in Ha as (i & x & Hi & Hx & A1 & A2 & A3).
  apply elem_log_entries in Hb as (j & y & Hj & Hy & B1 & B2 & B3). assert (i = j) as <-.
  { clear A1 A2 A3 B1 B2 B3. rewrite He in Hx. unfold ids_distinct in Hd. revert i j Hi Hj. induction L as [|z L IH]; intros i j Hi Hj; [done|].
    rewrite fmap_cons in Hd. cbn [concat] in Hd. apply NoDup_app in Hd as (_ & Hdis & Hd).
    assert (Hlater : forall k v, L !! k = Some v -> batch_id b ∈ batch_ids v -> batch_id b ∈ concat (batch_ids <$> L)).
    { intros k v Hk Hv. apply list_elem_of_In, in_concat. exists (batch_ids v). split; [|by apply list_elem_of_In].
      apply list_elem_of_In, list_elem_of_fmap. exists v. split; [done | by eapply list_elem_of_lookup_2]. }
    destruct i as [|i], j as [|j]; simpl in Hi, Hj; [done | | | f_equal; by eapply IH].
    - injection Hi as ->. exfalso. by eapply Hdis, Hlater.
    - injection Hj as ->. exfalso. by eapply Hdis, Hlater. }
  destruct a, b. simpl in *. congruence.
Qed.

Lemma distinct_prefix L G : ids_distinct (L ++ G) -> ids_distinct L.
Proof. unfold ids_distinct. rewrite fmap_app, concat_app, NoDup_app. by intros (? & _). Qed.

Lemma part_distinct w L : Inv w -> log_part w L -> ids_distinct L.
Proof. intros [_ (L0 & HL0 & _ & Hd & _)] HL. destruct (log_part_prefix tb w L L0 HL HL0) as [k ->]. by eapply distinct_prefix. Qed.

Lemma log_chunks_snoc L x : log_chunks (L ++ [x]) = log_chunks L ++ append_chunks x.
Proof. unfold log_chunks. rewrite fmap_app, concat_app. simpl. by rewrite app_nil_r. Qed.

Lemma log_chunks_app L G : log_chunks (L ++ G) = log_chunks L ++ log_chunks G.
Proof. unfold log_chunks. by rewrite fmap_app, concat_app. Qed.

(** The sequence numbers of the data files of a manifest lie in the log. *)
Lemma covers_bits w dfs L : covers w dfs L -> Z.of_nat (length L) < 2 ^ 64 ->
  Forall (fun f => in_bits 64 (first_seq f) /\ in_bits 64 (last_seq f) /\ in_bits 64 (df_row_count f)) dfs.
Proof.
  induction 1 as [|dfs L G _ IH _|dfs L G path b _ IH HG _ _]; intros Hl; [constructor | apply IH; rewrite length_app in Hl; lia|].
  rewrite length_app in Hl. apply Forall_app. split; [apply IH; lia|]. constructor; [|constructor]. unfold in_bits. cbn [first_seq last_seq df_row_count].
  assert (0 < length G)%nat by (destruct G; [done | simpl; lia]). split; [lia|]. split; [lia | apply u64_range].
Qed.

Section Ops.

Context {W : Type}.
Implicit Types (st : W) (w : World) (E : W -> World -> Prop).

(** The records after a prefix of the log, each with its entries and chunks. *)
Lemma collect_wals_ok n : forall end_ L st w E, exits E st w -> log_part w L -> Z.of_nat (length L) = end_ ->
  triple (collect_wals n tb end_) st w (fun r st' w1 => st' = st /\
    exists G, log_part w1 (L ++ G) /\ r.1.1 = end_ + Z.of_nat (length G) /\ log_entries (L ++ G) = log_entries L ++ r.1.2 /\ r.2 = log_chunks G) E.
Proof.
  induction n as [|n IH]; intros end_ L st w E HE HL Hn; cbn [collect_wals].
  { apply h_ret. split; [done|]. exists []. rewrite !app_nil_r. split_and!; auto. simpl. lia. }
  assert (Hstop : forall w', R w w' -> triple (tret (end_, [], [])) st w' (fun r st' w1 => st' = st /\
    exists G, log_part w1 (L ++ G) /\ r.1.1 = end_ + Z.of_nat (length G) /\ log_entries (L ++ G) = log_entries L ++ r.1.2 /\ r.2 = log_chunks G) E).
  { intros w' HR. apply h_ret. split; [done|]. exists []. rewrite !app_nil_r. split_and!; auto; [by eapply log_part_mono | simpl; lia]. }
  destruct (Z.leb_spec UINT64_MAX end_) as [|Hlt]; [by apply Hstop|]. unfold UINT64_MAX in Hlt.
  eapply h_bind; [by apply load_wal_ok; [done | lia |]|]. intros r st' w1 HR HI [-> Hr]. destruct r as [wal|]; [|by apply Hstop].
  assert (HL1 : log_part w1 (L ++ [wal])) by (apply (log_snoc _ _ _ (end_ + 1)); [by eapply log_part_mono | lia | done]).
  eapply h_bind; [apply (IH (end_ + 1) (L ++ [wal])); [by eapply exits_mono | done | rewrite length_app; simpl; lia]|].
  intros [[last es] cs] st' w2 HR2 HI2 (-> & G & HG & Hlast & Hes & Hcs). cbn [fst snd] in *. apply h_ret. split; [done|].
  exists (wal :: G). rewrite <- app_assoc in HG, Hes. cbn [fst snd length]. split_and!; [done | lia | |].
  - change ([wal] ++ G) with (wal :: G) in Hes. rewrite Hes, log_entries_snoc, <- app_assoc. do 2 f_equal.
    destruct Hr as (_ & b & _ & rss & Hok & _ & _ & _ & Hs & _). rewrite Hs, Hn. pose proof (wo_kind _ _ _ Hok) as Hk.
    destruct (kind wal); [done|]. unfold wal_entries. by destruct Hk as [-> _].
  - change (wal :: G) with ([wal] ++ G). rewrite log_chunks_app, Hcs. f_equal. unfold log_chunks. simpl. by rewrite app_nil_r.
Qed.

(** A key from the generator: any string. *)
Lemma new_key_ok (c : call string) st w E : exits E st w -> perform c = pop_key -> conflict c = None ->
  triple (tcall c) st w (fun _ st' _ => st' = st) E.
Proof.
  intros HE Hp Hc. apply h_write; [done|]. intros w1 HR HI HS x. unfold x. rewrite Hp, Hc. destruct (pop_key_ok tb t w1 HI) as [HI2 HR2].
  split_and!; auto. by destruct (pop_key w1).1.
Qed.

(** An indexer of this table. *)
Definition indexer_ok (ix : CloudWalIndexer) : Prop := x_table ix = tb /\ x_store ix = t.

Lemma write_data_file_ok ix s end_ L G dfs st w E : indexer_ok ix -> exits E st w -> log_part w (L ++ G) -> covers w dfs L ->
  Z.of_nat (length L) = indexed_seq s -> Z.of_nat (length (L ++ G)) = end_ ->
  triple (write_data ix s end_ (log_chunks G) dfs) st w (fun r st' w1 => st' = st /\
    match r with None => True | Some dfs' => covers w1 dfs' (L ++ G) end) E.
Proof.
  intros [Ht _] HE HL Hc Hn He. unfold write_data. rewrite Ht.
  destruct (log_chunks G) as [|c cs] eqn:Hcs; [apply h_ret; split; [done | by apply covers_skip]|]. rewrite <- Hcs.
  eapply h_bind; [by apply new_key_ok|]. intros key st' w1 HR1 HI1 ->.
  destruct (String.prefix "data/" key) eqn:Hk; cbn [negb]; [|by apply h_ret].
  eapply h_bind with (P := fun b st' w' => st' = st /\ format_file (log_chunks G) = Ok b);
    [by apply h_lift; [eapply exits_mono|]|]. intros b st' w2 HR2 HI2 [-> Hb]. assert (HR02 : R w w2) by (by transitivity w1).
  eapply h_bind with (P := fun _ st' w' => st' = st /\ (file_prefix tb +:+ "/" +:+ key, b) ∈ written w').
  { apply h_write; [by eapply exits_mono|]. intros w3 HR3 HI3 HS x. unfold x.
    destruct (data_file_ok tb t Htb w3 (file_prefix tb +:+ "/" +:+ key) b HI3) as (HI4 & HR4 & Ex & Hin); [intros seq _; by apply data_path_neq|].
    rewrite Ex. done. }
  intros _ st' w3 HR3 HI3 [-> Hin]. assert (HR03 : R w w3) by (by transitivity w2). apply h_ret. split; [done|].
  pose proof (log_length tb w _ HL) as Hl. rewrite length_app in Hl, He. assert (0 < length G)%nat by (destruct G; [done | simpl; lia]).
  rewrite u64_small by lia. rewrite <- Hn, <- He. apply covers_file with (b := b); auto; [by eapply covers_mono | by rewrite Hcs].
Qed.

(** The state a pass publishes is known, once its index and manifest are written. *)
Lemma index_known w s m dfs L G key dedup bi bm es : state_known w s -> mf_table_id m = table_id tb -> mf_schema_version m = 1 -> mf_schema m = fs ->
  log_part w (L ++ G) -> Z.of_nat (length L) = indexed_seq s -> Inv w -> (forall e, e ∈ es <-> e ∈ log_entries (L ++ G)) -> covers w dfs (L ++ G) ->
  has_meta t w dedup bi -> EncodeSequentialBatchIndex (sort_entries es) = Ok bi ->
  let m' := mkManifest (mf_table_id m) (Z.of_nat (length (L ++ G))) (mf_schema_version m) (mf_schema m) dfs [dedup] in
  has_meta t w key bm -> EncodeSequentialManifest m' = Ok bm ->
  let next := bump_version s (writer_epoch s) (Z.of_nat (length (L ++ G))) (Z.max (published_seq s) (Z.of_nat (length (L ++ G)))) key in
  state_valid next -> state_known w next.
Proof.
  intros Hk Hmi Hmv Hms HL Hn HI Hes Hc Hbi Hei m' Hbm Hem next Hv. destruct Hk as [K1 (F1 & F2 & F3 & F4 & F5) _ (Lp & HLp & Hnp) _].
  pose proof (log_length tb w _ HL) as Hl. pose proof (part_distinct w _ HI HL) as Hd.
  assert (Hmem : forall e, e ∈ sort_entries es <-> e ∈ log_entries (L ++ G)).
  { intros e. rewrite elem_sort_entries; [apply Hes|]. intros a b Ha Hb. apply (log_entries_inj (L ++ G)); [done | by apply Hes | by apply Hes]. }
  unfold next. split; simpl; auto.
  - split_and!; simpl; auto; [apply u64_range | unfold in_bits; lia | unfold in_bits in *; lia].
  - destruct (Z.max_spec (published_seq s) (Z.of_nat (length (L ++ G)))) as [[_ ->]|[_ ->]]; [by exists (L ++ G) | by exists Lp].
  - exists m', (sort_entries es), (L ++ G). split; [|split_and!; try done].
    + exists bm. split; [done|]. apply DecodeSequentialManifest_iff. split; [|done]. destruct Htb as [_ _ _ (_ & _ & Hcols)].
      split_and!; [unfold in_bits; simpl; lia | simpl; by rewrite Hmv | simpl; by rewrite Hms|].
      apply EncodeSequentialManifest_iff in Hem as [[_ _ [_ Hfv] _] _]. pose proof (covers_bits w dfs _ Hc Hl) as Hb.
      cbn [m' data_files covered_through_seq] in *. rewrite Forall_forall in Hfv, Hb |- *. intros f Hf.
      destruct (Hb f Hf) as (B1 & B2 & B3), (Hfv f Hf) as (_ & _ & _ & _ & _ & Hp). by split_and!.
    + exists [sort_entries es]. split; [|simpl; by rewrite app_nil_r]. constructor; [|constructor]. exists bi. split; [done|].
      apply DecodeSequentialBatchIndex_iff. split; [|done]. apply Forall_forall. intros e He.
      apply Hmem, elem_log_entries in He as (i & x & Hi%lookup_lt_Some & _ & -> & _). unfold in_bits. lia.
Qed.

Definition indexed_to (w : World) (seq : Z) : Prop :=
  exists e s, cur w = Some e /\ DecodeSequentialState (value e) = Ok s /\ seq <= indexed_seq s.

(** What the answers of a pass promise. *)
Definition index_post (r : CloudIndexResult) (w : World) : Prop :=
  match x_code r with Indexed => indexed_to w (x_indexed r) /\ published_to t w (x_published r) | _ => True end.

Lemma prefix_not_current p key : String.prefix p key = true -> String.prefix p "CURRENT" = false -> key <> "CURRENT".
Proof. by intros Hp Hn ->; rewrite Hp in Hn. Qed.

Lemma publish_index_ok ix vs m dfs es L G st w E : indexer_ok ix -> exits E st w -> seen w vs ->
  mf_table_id m = table_id tb -> mf_schema_version m = 1 -> mf_schema m = fs -> log_part w (L ++ G) -> Z.of_nat (length L) = indexed_seq (vs_state vs) ->
  (forall e, e ∈ es <-> e ∈ log_entries (L ++ G)) -> covers w dfs (L ++ G) ->
  triple (publish_index ix vs (Z.of_nat (length (L ++ G))) es m dfs) st w
    (fun r st' w1 => st' = st /\ match r with None => True | Some r => index_post r w1 end) E.
Proof.
  intros [Ht Hs] HE Hseen Hmi Hmv Hms HL Hn Hes Hc. unfold publish_index. rewrite Ht, Hs. cbv zeta.
  eapply h_bind; [by apply new_key_ok|]. intros key st' w1 HR1 HI1 ->. assert (HE1 : exits E st w1) by (by eapply exits_mono).
  destruct (String.prefix "manifest/" key) eqn:Hk; cbn [negb]; [|by apply h_ret].
  set (dedup := "dedup/" +:+ _).
  eapply h_bind; [by apply write_index_ok|]. intros r st' w2 HR2 HI2 [-> Hr]. destruct r; [|by apply h_ret..]. destruct Hr as (bi & Hbi & Hei).
  eapply h_bind; [by apply write_manifest_ok; [eapply exits_mono | eapply prefix_not_current]|].
  intros r st' w3 HR3 HI3 [-> Hr]. destruct r; [|by apply h_ret..]. destruct Hr as (bm & Hbm & Hem).
  assert (HR13 : R w1 w3) by (by transitivity w2). assert (HR03 : R w w3) by (by transitivity w1).
  assert (Hseen3 : seen w3 vs) by (by eapply seen_mono).
  eapply h_bind; [apply compare_exchange_ok; [by eapply exits_mono | done|]|].
  { intros Hen. apply EncodeSequentialState_iff in Hen as [Hv _].
    eapply (index_known w3 (vs_state vs) m dfs L G key dedup bi bm es); eauto using log_part_mono, covers_mono; [apply Hseen3 | by apply (R_meta _ _ _ _ HR3)]. }
  intros [r v] st' w4 HR4 HI4 [-> Hr]. destruct r; [|by apply h_ret..]. destruct v as [v|]; [|done]. destruct Hr as [Hv Hseen4].
  apply h_ret. split; [done|]. destruct Hseen4 as (_ & e & s & He & Hd & (_ & Hi & Hp) & _). rewrite Hv in *. split; exists e, s; by split_and!.
Qed.

Lemma index_attempt_ok ix st w E : indexer_ok ix -> exits E st w ->
  triple (index_attempt ix) st w (fun r st' w1 => st' = st /\ match r with None => True | Some r => index_post r w1 end) E.
Proof.
  intros Hix HE. pose proof Hix as [Ht Hs]. unfold index_attempt. rewrite Ht, Hs.
  eapply h_bind; [by apply load_ok|]. intros r st' w1 HR1 HI1 (-> & HS1 & Hr). destruct r as [vs|]; [|by apply h_ret].
  destruct Hr as (e & He & Hve & Hd). destruct (loaded_seen tb t Htb w1 vs e HI1 HS1 He Hve Hd) as [Hseen _].
  pose proof Hseen as [[_ _ Hsv _ (m & es & L & Hm)] _]. assert (HE1 : exits E st w1) by (by eapply exits_mono).
  eapply h_bind; [eapply load_manifest_ok; [done | done | exact Hsv | exact Hm]|]. intros y st' w2 HR2 HI2 [-> ->].
  assert (HE2 : exits E st w2) by (by eapply exits_mono). pose proof (manifest_of_mono _ _ _ _ _ _ _ _ HR2 Hm) as Hm2.
  eapply h_bind; [eapply load_batch_index_ok; [done | exact Hm2]|]. intros y st' w3 HR3 HI3 [-> ->].
  assert (HE3 : exits E st w3) by (by eapply exits_mono). assert (HR13 : R w1 w3) by (by transitivity w2).
  pose proof (manifest_of_mono _ _ _ _ _ _ _ _ HR13 Hm) as (_ & Hmi & _ & Hmv & Hms & _ & HL & Hn & Hes & Hc).
  eapply h_bind; [apply (collect_wals_ok _ _ L); [done | done | exact Hn]|]. intros [[end_ es'] cs] st' w4 HR4 HI4 (-> & G & HG & Hend & Hes' & Hcs).
  cbn [fst snd] in *. assert (HE4 : exits E st w4) by (by eapply exits_mono). assert (HR14 : R w1 w4) by (by transitivity w3).
  destruct (end_ =? indexed_seq (vs_state vs)); [by apply h_ret|]. subst cs.
  assert (Hlen : Z.of_nat (length (L ++ G)) = end_) by (rewrite length_app; lia).
  eapply h_bind; [apply (write_data_file_ok _ _ _ L); auto; exact (covers_mono _ _ _ _ _ _ HR4 Hc)|]. intros dfs st' w5 HR5 HI5 [-> Hdfs].
  destruct dfs as [dfs|]; [|by apply h_ret]. assert (HR15 : R w1 w5) by (by transitivity w4). rewrite <- Hlen.
  apply (publish_index_ok ix vs m dfs (es ++ es') L G); auto;
    [by eapply exits_mono | exact (seen_mono _ _ _ _ _ HR15 Hseen) | exact (log_part_mono _ _ _ _ _ HR5 HG)|].
  intros e'. rewrite Hes', !elem_of_app, Hes. done.
Qed.

Lemma index_ok ix st w E : indexer_ok ix -> exits E st w -> triple (Index ix) st w (fun r st' w1 => st' = st /\ index_post r w1) E.
Proof.
  intros Hix HE. unfold Index. revert w HE. induction (x_attempts ix) as [|n IH]; intros w HE; cbn [index_attempts].
  - destruct Hix as [_ Hs]. rewrite Hs. eapply h_bind; [by apply load_ok|]. intros r st' w1 _ _ (-> & _). apply h_ret. by destruct r.
  - eapply h_bind; [by apply index_attempt_ok|]. intros r st' w1 HR HI [-> Hr]. destruct r as [r|]; [by apply h_ret|].
    apply IH. by eapply exits_mono.
Qed.

(** ** The snapshot loader *)

(** The names of the [n] records after [seq]. *)
Fixpoint keys_from (seq : Z) (n : nat) : list string :=
  match n with O => [] | S n => wkey (seq + 1) :: keys_from (seq + 1) n end.

Lemma keys_from_app a b : forall seq, keys_from seq (a + b) = keys_from seq a ++ keys_from (seq + Z.of_nat a) b.
Proof.
  induction a as [|a IH]; intros seq; [by rewrite Z.add_0_r|]. cbn [Nat.add keys_from app]. rewrite IH. do 3 f_equal. lia.
Qed.

(** Records that are in the log are found. *)
Lemma required_ok Lr : forall seq L st w E, exits E st w -> log_part w (L ++ Lr) -> Z.of_nat (length L) = seq ->
  triple (load_required (length Lr) tb seq) st w (fun r st' _ => st' = st /\ r = Some (keys_from seq (length Lr), log_chunks Lr)) E.
Proof.
  induction Lr as [|x Lr IH]; intros seq L st w E HE HL Hn; cbn [load_required length keys_from]; [by apply h_ret|].
  assert (Hx : has_wal w (seq + 1) x) by (rewrite <- Hn; apply HL; by apply list_lookup_middle).
  pose proof Hx as [Hrange _]. rewrite u64_small by lia.
  eapply h_bind; [by apply load_wal_ok|]. intros r st' w1 HR HI [-> Hr]. pose proof (has_wal_mono _ _ _ _ _ _ HR Hx) as Hx1.
  destruct r as [y|]; [|destruct Hx1 as (_ & b & Hb & _); congruence]. rewrite (has_wal_det tb w1 (seq + 1) y x Hr Hx1). clear y Hr.
  rewrite (wkey_ok tb t Htb) by lia.
  eapply h_bind with (P := fun k st' w' => st' = st /\ k = wkey (seq + 1) /\ w' = w1);
    [apply h_lift; [by eapply exits_mono | by intros a [= <-]]|]. intros k st' w' _ _ (-> & -> & ->).
  eapply h_bind; [apply (IH (seq + 1) (L ++ [x])); [by eapply exits_mono | rewrite <- app_assoc; by eapply log_part_mono | rewrite length_app; simpl; lia]|].
  intros r st' w2 _ _ [-> ->]. by apply h_ret.
Qed.

Lemma probe_ok n : forall seq L st w E, exits E st w -> log_part w L -> Z.of_nat (length L) = seq ->
  triple (probe_wals n tb seq) st w (fun r st' w1 => st' = st /\
    exists G, log_part w1 (L ++ G) /\ (length G <= n)%nat /\ r = (Z.of_nat (length G), keys_from seq (length G), log_chunks G)) E.
Proof.
  induction n as [|n IH]; intros seq L st w E HE HL Hn; cbn [probe_wals].
  { apply h_ret. split; [done|]. exists []. by rewrite app_nil_r. }
  assert (Hstop : forall w', R w w' -> triple (tret (0, [], [])) st w' (fun r st' w1 => st' = st /\
    exists G, log_part w1 (L ++ G) /\ (length G <= S n)%nat /\ r = (Z.of_nat (length G), keys_from seq (length G), log_chunks G)) E).
  { intros w' HR. apply h_ret. split; [done|]. exists []. rewrite app_nil_r. split_and!; [by eapply log_part_mono | simpl; lia | done]. }
  destruct (Z.leb_spec UINT64_MAX seq) as [|Hlt]; [by apply Hstop|]. unfold UINT64_MAX in Hlt. rewrite u64_small by lia.
  eapply h_bind; [by apply load_wal_ok; [done | lia |]|]. intros r st' w1 HR HI [-> Hr]. destruct r as [x|]; [|by apply Hstop].
  rewrite (wkey_ok tb t Htb) by lia.
  eapply h_bind with (P := fun k st' w' => st' = st /\ k = wkey (seq + 1) /\ w' = w1);
    [apply h_lift; [by eapply exits_mono | by intros a [= <-]]|]. intros k st' w' _ _ (-> & -> & ->).
  eapply h_bind; [apply (IH (seq + 1) (L ++ [x])); [by eapply exits_mono | | rewrite length_app; simpl; lia]|].
  { apply (log_snoc _ _ _ (seq + 1)); [by eapply log_part_mono | lia | done]. }
  intros r st' w2 _ _ (-> & G & HG & Hle & ->). apply h_ret. split; [done|]. exists (x :: G). rewrite <- app_assoc in HG.
  split; [done|]. cbn [length keys_from]. split; [lia|]. do 2 f_equal. lia.
Qed.

(** A snapshot is a prefix of the log: the data files hold its indexed part,
    the rest is read from the records, of which those behind the watermark are
    at most [limit]. *)
Definition snapshot_ok (limit : nat) (w : World) (sn : TableSnapshot) : Prop :=
  exists dfs Li Lr Lp, log_part w (Li ++ Lr ++ Lp) /\
    Z.of_nat (length Li) = sn_indexed sn /\ Z.of_nat (length (Li ++ Lr)) = sn_published sn /\ Z.of_nat (length Lp) = probed_wal_count sn /\
    covers w dfs Li /\ sn_data_files sn = df_path <$> dfs /\
    sn_wal_files sn = keys_from (sn_indexed sn) (length (Lr ++ Lp)) /\ sn_wal_chunks sn = log_chunks (Lr ++ Lp) /\
    (length Lp <= limit)%nat /\ probe_limit_reached sn = (0 <? Z.of_nat limit) && (probed_wal_count sn =? Z.of_nat limit).

Lemma snapshot_mono limit w w' sn : R w w' -> snapshot_ok limit w sn -> snapshot_ok limit w' sn.
Proof.
  intros HR (dfs & Li & Lr & Lp & HL & H1 & H2 & H3 & Hc & Hr). exists dfs, Li, Lr, Lp. split; [by eapply log_part_mono|].
  split; [done|]. split; [done|]. split; [done|]. split; [by eapply covers_mono | done].
Qed.

(** A loaded snapshot is not behind what was published when the load began. *)
Definition snapshot_post (limit : nat) (w0 : World) (r : option TableSnapshot) (w : World) : Prop :=
  match r with
  | None => forall q, ~ published_to t w0 q
  | Some sn => snapshot_ok limit w sn /\ forall q, published_to t w0 q -> q <= sn_published sn
  end.

Lemma load_attempt_ok limit st w E : exits E st w ->
  triple (load_attempt tb t limit) st w (fun r st' w1 => st' = st /\ exists r', r = Some r' /\ snapshot_post limit w r' w1) E.
Proof.
  intros HE. eapply h_bind; [by apply load_ok|]. intros r st' w1 HR1 HI1 (-> & HS1 & Hr). destruct r as [vs|]; cycle 1.
  { apply h_ret. split; [done|]. exists None. split; [done|]. intros q Hq. destruct (published_mono tb t _ _ _ HR1 Hq) as (e & s & He & _). congruence. }
  destruct Hr as (e & He & Hve & Hd). destruct (loaded_seen tb t Htb w1 vs e HI1 HS1 He Hve Hd) as [Hseen _].
  pose proof Hseen as [[_ _ Hsv (Lb & HLb & Hnb) (m & es & Li & Hm)] _]. assert (HE1 : exits E st w1) by (by eapply exits_mono).
  eapply h_bind; [eapply load_manifest_ok; [done | done | exact Hsv | exact Hm]|]. intros y st' w2 HR2 HI2 [-> ->].
  assert (HE2 : exits E st w2) by (by eapply exits_mono).
  pose proof (manifest_of_mono _ _ _ _ _ _ _ _ HR2 Hm) as (_ & _ & _ & _ & _ & _ & HLi & Hni & _ & Hc).
  assert (HLb2 : log_part w2 Lb) by (by eapply log_part_mono). pose proof Hsv as (_ & _ & Hle & _).
  assert (exists Lr, Lb = Li ++ Lr) as [Lr ->].
  { pose proof HI2 as [_ (L0 & HL0 & _)]. destruct (log_part_prefix tb w2 Li L0 HLi HL0) as [k1 E1], (log_part_prefix tb w2 Lb L0 HLb2 HL0) as [k2 E2].
    destruct (prefix_weak_total Li Lb L0) as [[k ->]|[k ->]]; [by exists k1 | by exists k2 | by exists k|].
    rewrite length_app in Hni. assert (length k = 0)%nat as ->%nil_length_inv by lia. exists []. by rewrite !app_nil_r. }
  rewrite length_app in Hnb.
  replace (Z.to_nat (published_seq (vs_state vs) - indexed_seq (vs_state vs))) with (length Lr) by lia.
  eapply h_bind; [by apply (required_ok Lr _ Li)|]. intros y st' w3 HR3 HI3 [-> ->].
  rewrite Z.max_r by lia. assert (HR13 : R w1 w3) by (by transitivity w2).
  eapply h_bind; [apply (probe_ok _ _ (Li ++ Lr)); [by eapply exits_mono | by eapply log_part_mono | rewrite length_app; lia]|].
  intros y st' w4 HR4 HI4 (-> & G & HG & Hlim & ->). apply h_ret. split; [done|]. eexists. split; [done|]. split.
  - exists (data_files m), Li, Lr, G. rewrite <- app_assoc in HG. cbn [sn_indexed sn_published probed_wal_count sn_data_files sn_wal_files sn_wal_chunks probe_limit_reached].
    split; [done|]. split; [done|]. split; [rewrite length_app; lia|]. split; [done|].
    split; [eapply covers_mono; [|exact Hc]; by transitivity w3|]. split; [done|]. rewrite length_app, keys_from_app, log_chunks_app.
    split_and!; auto. do 2 f_equal. lia.
  - intros q Hq. destruct (published_mono tb t _ _ _ HR1 Hq) as (e' & s' & He' & Hd' & Hle'). cbn [sn_published].
    assert (e' = e) as -> by congruence. assert (s' = vs_state vs) as -> by congruence. done.
Qed.

(** Every load gives a snapshot; no published record is ever missing. *)
Lemma snapshot_load_ok limit st w E : exits E st w ->
  triple (Snapshot_Load tb limit) st w (fun r st' w1 => st' = st /\ snapshot_post limit w r w1) E.
Proof.
  intros HE. unfold Snapshot_Load. rewrite (tw_store _ _ Htb).
  eapply h_bind with (P := fun x st' w' => st' = st /\ x = t /\ w' = w); [apply h_lift; [done | by intros a [= <-]]|]. intros x st' w' _ _ (-> & -> & ->).
  cbn [load_attempts]. eapply h_bind; [by apply load_attempt_ok|]. intros r st' w1 HR HI (-> & r' & -> & Hr). by apply h_ret.
Qed.

End Ops.

(** ** The probe limit *)

Definition policy_ok (p : WalProbePolicy) : Prop := 0 < p_minimum p <= p_maximum p /\ p_maximum p < 2 ^ 64.

(** A cloud table of this table, its limit within the policy. *)
Definition cloud_table_ok (ct : CloudTable) : Prop :=
  ct_descriptor ct = tb /\ policy_ok (probe_policy_ ct) /\ p_minimum (probe_policy_ ct) <= probe_limit_ ct <= p_maximum (probe_policy_ ct).

Lemma next_limit_bounds p limit sn : policy_ok p -> p_minimum p <= limit <= p_maximum p -> p_minimum p <= next_limit p limit sn <= p_maximum p.
Proof.
  intros [Hp Hmax] Hl. unfold next_limit. pose proof (Z.div_mod (p_maximum p) 2 ltac:(lia)). pose proof (Z.mod_pos_bound (p_maximum p) 2 ltac:(lia)).
  pose proof (Z.div_mod limit 2 ltac:(lia)). pose proof (Z.mod_pos_bound limit 2 ltac:(lia)).
  destruct (probe_limit_reached sn && (limit <? p_maximum p)).
  - destruct (Z.ltb_spec (p_maximum p / 2) limit); [lia|]. rewrite u64_small by lia. lia.
  - destruct ((probed_wal_count sn <? limit / 4) && (p_minimum p <? limit)); lia.
Qed.

Lemma CloudTable_new_ok policy ct : p_maximum policy < 2 ^ 64 -> 0 <= p_minimum policy -> CloudTable_new tb policy = Ok ct -> cloud_table_ok ct.
Proof.
  intros Hmax Hmin. unfold CloudTable_new. destruct (_ || _) eqn:E; [done|].
  rewrite !orb_false_iff, !Z.ltb_ge, Z.eqb_neq in E. destruct E as ((((_ & H1) & H2) & H3) & H4). intros [= <-].
  unfold cloud_table_ok, policy_ok. cbn [ct_descriptor probe_policy_ probe_limit_]. split; [done|]. split; [lia | lia].
Qed.

(** A load reads the records behind the watermark up to the limit it started
    with, and moves the limit within the policy. *)
Lemma LoadSnapshot_ok probe ct w : cloud_table_ok ct ->
  triple (LoadSnapshot probe) ct w (fun r ct' w1 => cloud_table_ok ct' /\
    snapshot_post (Z.to_nat (if probe then probe_limit_ ct else 0)) w r w1) (fun ct' _ => cloud_table_ok ct').
Proof.
  intros Hct. pose proof Hct as (Hd & Hp & Hl). assert (HE : forall w, exits (fun ct' _ => cloud_table_ok ct') ct w) by (by intros w0 w' _ _).
  eapply h_bind with (P := fun x ct' w' => ct' = ct /\ x = ct /\ w' = w); [by apply h_get|]. intros x ct' w' _ _ (-> & -> & ->).
  rewrite Hd. eapply h_bind; [by apply snapshot_load_ok|]. intros r ct' w1 HR HI [-> Hr]. destruct r as [sn|]; [|by apply h_ret].
  destruct probe; [|by apply h_ret].
  set (ct1 := mkCloudTable _ _ _). eapply h_bind with (P := fun _ ct' w' => ct' = ct1 /\ w' = w1); [by apply h_put|]. intros _ ct' w' _ _ [-> ->].
  apply h_ret. split; [|done]. split; [done|]. split; [done|]. by apply next_limit_bounds.
Qed.

End Index.
