(* ===== verification/CloudSystem.v ===== *)
(** * Cloud tables as a system

    Any number of nodes, each with a writer, an indexer and a table handle, run
    scripts of operations against the shared stores, interleaved call by call,
    over stores that may answer with a conflict or throw, whether or not the
    call took effect. The theorems are about every run of such a system. *)

From stdpp Require Import strings pretty sorting.
From S2P Require Import Prelude KeyCodec Table TableSpec Storage SeqCodec SeqCodecSpec WalSpec Cloud CloudLogic CloudInv CloudProto CloudIndex.
Import MemMetadataStore MetaRuns.
Open Scope Z_scope.

(** ** Nodes *)

Record Node := mkNode { n_writer : CloudTableWriter; n_indexer : CloudWalIndexer; n_table : CloudTable }.

(** What a client asks of its node, and what it gets. *)
Inductive op := OpStart | OpImport (batch : CloudImportBatch) | OpIndex | OpSnapshot (probe_unpublished : bool).
Inductive answer :=
| AnsStart (r : CloudWriterStartResult) | AnsImport (r : CloudImportResult) | AnsIndex (r : CloudIndexResult)
| AnsSnapshot (r : option TableSnapshot) | AnsThrew.

Section Nodes.

Context {hashes : Hashes} {format : IFileFormat}.

(** A step of the writer, of the table handle, as a step of the node. *)
Definition on_writer {A} (m : T CloudTableWriter A) : T Node A := fun n =>
  prog_bind (m (n_writer n)) (fun x => Return (x.1, mkNode x.2 (n_indexer n) (n_table n))).
Definition on_table {A} (m : T CloudTable A) : T Node A := fun n =>
  prog_bind (m (n_table n)) (fun x => Return (x.1, mkNode (n_writer n) (n_indexer n) x.2)).

Definition node_op (fuel : nat) (o : op) : T Node answer :=
  match o with
  | OpStart => let! r := on_writer (Start fuel) in tret (AnsStart r)
  | OpImport batch => let! r := on_writer (Import batch) in tret (AnsImport r)
  | OpIndex => let! n := tget in let! r := Index (n_indexer n) in tret (AnsIndex r)
  | OpSnapshot probe => let! r := on_table (LoadSnapshot probe) in tret (AnsSnapshot r)
  end.

(** A client survives the exceptions of its node. *)
Fixpoint node_script (fuel : nat) (ops : list op) (n : Node) : prog (list (op * answer) * Node) :=
  match ops with
  | [] => Return ([], n)
  | o :: ops =>
      prog_bind (node_op fuel o n) (fun x => let a := match x.1 with Ok a => a | Fail _ => AnsThrew end in
      prog_bind (node_script fuel ops x.2) (fun y => Return ((o, a) :: y.1, y.2)))
  end.

(** A client: its table handle's policy, the attempts of its writer and
    indexer, and its requests. *)
Record Client := mkClient { c_policy : WalProbePolicy; c_attempts : nat; c_ops : list op }.

Definition new_node (tb : TableDescriptor) (c : Client) : result Node :=
  let? ct := CloudTable_new tb (c_policy c) in
  let? w := NewWriter ct (c_attempts c) in
  let? ix := NewIndexer ct (c_attempts c) in
  Ok (mkNode w ix ct).

Definition launch (fuel : nat) (tb : TableDescriptor) (c : Client) : result (prog (list (op * answer) * Node)) :=
  let? n := new_node tb c in Ok (node_script fuel (c_ops c) n).

(** Empty stores, and the keys the generator will hand out. *)
Definition start_world (keys : list string) : World := mkWorld MemMetadataStore.new ∅ keys [].

(** [σ] is reached by the clients [cs] from empty stores. *)
Definition reaches (fuel : nat) (tb : TableDescriptor) (cs : list Client) (keys : list string) (σ : system) : Prop :=
  exists ps, Forall2 (fun c p => launch fuel tb c = Ok p) cs ps /\ rtc sys_step (start_world keys, ps) σ.

End Nodes.

(** ** What the answers say *)

Section System.

Context {hashes : Hashes} {hashes_spec : HashesSpec} {format : IFileFormat}.
Context (tb t : TableDescriptor) (Htb : table_wf tb t).

Abbreviation Inv := (CloudInv.Inv tb t).
Abbreviation R := (CloudInv.R tb t).
Abbreviation safe := (CloudLogic.safe Inv R).

Definition node_ok (n : Node) (w : World) : Prop :=
  writer_ok tb t (n_writer n) w /\ indexer_ok tb t (n_indexer n) /\ cloud_table_ok tb (n_table n).

Lemma node_ok_mono n w w' : R w w' -> node_ok n w -> node_ok n w'.
Proof. intros HR (H1 & H2 & H3). split; [by eapply writer_ok_mono | done]. Qed.

(** The import was answered as done, under this sequence number. *)
Definition committed (r : CloudImportResult) : Prop := i_code r = Committed \/ i_code r = AlreadyCommitted.

Definition answer_ok (w : World) (x : op * answer) : Prop :=
  match x with
  | (OpImport batch, AnsImport r) => exists rss,
      (committed r -> carries tb w batch rss (i_seq r) /\ published_to t w (i_seq r)) /\
      (i_code r = Durable -> carries tb w batch rss (i_seq r))
  | (OpIndex, AnsIndex r) => index_post t r w
  | (OpSnapshot probe, AnsSnapshot (Some sn)) => exists limit, (probe = false -> limit = 0%nat) /\ snapshot_ok tb limit w sn
  | _ => True
  end.

Lemma published_to_mono w w' q : R w w' -> published_to t w q -> published_to t w' q.
Proof. apply published_mono. Qed.

Lemma index_post_mono w w' r : R w w' -> index_post t r w -> index_post t r w'.
Proof.
  intros HR. unfold index_post. destruct (x_code r); try done. intros [(e & s & He & Hs & Hle) Hp]. split; [|by eapply published_mono].
  destruct (R_cur _ _ _ _ HR e s He Hs) as (e' & s' & He' & Hs' & (_ & Hi & _) & _). exists e', s'. split_and!; auto. lia.
Qed.

Lemma answer_ok_mono w w' x : R w w' -> answer_ok w x -> answer_ok w' x.
Proof.
  intros HR. destruct x as [[|batch| |probe] [r|r|r|[sn|]|]]; try done; simpl.
  - intros (rss & H1 & H2). exists rss. split; [intros Hc; destruct (H1 Hc); eauto using carries_mono, published_mono | eauto using carries_mono].
  - by apply index_post_mono.
  - intros (limit & Hl & Hs). exists limit. split; [done | by eapply snapshot_mono].
Qed.

(** A snapshot [b] that follows the import [a] is not behind it. *)
Definition in_order (a b : op * answer) : Prop :=
  match a, b with
  | (OpImport _, AnsImport r), (OpSnapshot _, AnsSnapshot o) => committed r -> exists sn, o = Some sn /\ i_seq r <= sn_published sn
  | _, _ => True
  end.

(** Everything a client was told so far. *)
Definition answers_ok (w : World) (l : list (op * answer)) : Prop := Forall (answer_ok w) l /\ ForallOrdPairs in_order l.

(** ** Scripts are safe *)

(** The requests of a script: what the writer accepts is within the limits of
    the record format. *)
Definition requests_ok (ops : list op) : Prop :=
  forall batch, OpImport batch ∈ ops -> IsValidBatch tb batch = true -> exists rss, batch_wf tb batch rss.

(** The exit of a triple, weakened. *)
Lemma h_weaken_exit' {W A} (m : T W A) st w Q (E E' : W -> World -> Prop) : triple tb t m st w Q E -> (forall st' w', R w w' -> E st' w' -> E' st' w') ->
  triple tb t m st w Q E'.
Proof. intros Hm HE HI. eapply runs_weaken; [by apply Hm | done|]. intros st' w' (HR & HI' & H). split_and!; auto. Qed.

Lemma h_weaken_exit {W A} (m : T W A) st w Q (E E' : W -> World -> Prop) : triple tb t m st w Q E -> (forall st' w', E st' w' -> E' st' w') ->
  triple tb t m st w Q E'.
Proof. intros Hm HE. eapply h_weaken_exit'; eauto. Qed.

Lemma lift_writer {A} (m : T CloudTableWriter A) n w Q (E : CloudTableWriter -> World -> Prop) : triple tb t m (n_writer n) w Q E ->
  triple tb t (on_writer m) n w (fun a n' w' => Q a (n_writer n') w' /\ n_indexer n' = n_indexer n /\ n_table n' = n_table n)
    (fun n' w' => E (n_writer n') w' /\ n_indexer n' = n_indexer n /\ n_table n' = n_table n).
Proof.
  intros Hm HI. eapply safe_bind_prog; [by apply Hm|]. intros [[a|e] wr] w' (HR & HI' & H); simpl; by split_and!.
Qed.

Lemma lift_table {A} (m : T CloudTable A) n w Q (E : CloudTable -> World -> Prop) : triple tb t m (n_table n) w Q E ->
  triple tb t (on_table m) n w (fun a n' w' => Q a (n_table n') w' /\ n_indexer n' = n_indexer n /\ n_writer n' = n_writer n)
    (fun n' w' => E (n_table n') w' /\ n_indexer n' = n_indexer n /\ n_writer n' = n_writer n).
Proof.
  intros Hm HI. eapply safe_bind_prog; [by apply Hm|]. intros [[a|e] ct] w' (HR & HI' & H); simpl; by split_and!.
Qed.

(** The answer to [o] is true, and in order with what was true before. *)
Definition op_post (w : World) (o : op) (a : answer) (n' : Node) (w' : World) : Prop :=
  node_ok n' w' /\ answer_ok w' (o, a) /\ forall x, answer_ok w x -> in_order x (o, a).

Lemma quiet_order x o a : match o with OpSnapshot _ => False | _ => True end -> in_order x (o, a).
Proof. destruct x as [[] []]; try done. by destruct o. Qed.

Lemma node_op_ok fuel o n w : node_ok n w -> (forall batch, o = OpImport batch -> IsValidBatch tb batch = true -> exists rss, batch_wf tb batch rss) ->
  triple tb t (node_op fuel o) n w (op_post w o) node_ok.
Proof.
  intros (Hw & Hx & Hc) Hreq.
  assert (Hwr : forall wr w', writer_ok tb t (n_writer wr) w' /\ n_indexer wr = n_indexer n /\ n_table wr = n_table n -> node_ok wr w')
    by (intros wr w' (? & E1 & E2); unfold node_ok; by rewrite E1, E2).
  assert (HE : exits tb t node_ok n w) by (intros w' HR HI; eapply node_ok_mono; [exact HR | done]).
  destruct o as [|batch| |probe]; cbn [node_op].
  - eapply h_bind; [eapply h_weaken_exit; [apply lift_writer, start_ok; done | apply Hwr]|].
    intros r n' w' HR HI [[Hok _] Hn]. apply h_ret. split; [by apply Hwr|]. split; [done|]. intros x _. by apply quiet_order.
  - assert (exists rss, IsValidBatch tb batch = true -> batch_wf tb batch rss) as [rss Hwf].
    { destruct (IsValidBatch tb batch) eqn:Hv; [|by exists []]. destruct (Hreq batch eq_refl Hv) as [rss Hwf]. by exists rss. }
    eapply h_bind; [eapply h_weaken_exit; [apply lift_writer, (import_ok tb t Htb batch rss); done | apply Hwr]|].
    intros r n' w' HR HI [[Hok Hr] Hn]. apply h_ret. split; [by apply Hwr|]. split; [|intros x _; by apply quiet_order].
    exists rss. unfold committed. destruct (i_code r); (split; [intros [Hx'|Hx'] | intros Hx']); done.
  - eapply h_bind with (P := fun x n' w' => n' = n /\ x = n /\ w' = w); [by apply h_get|]. intros x n' w' _ HI (-> & -> & ->).
    eapply h_bind; [by apply index_ok|]. intros r n' w' HR HI' [-> Hr]. apply h_ret. split; [by apply HE|]. split; [done|].
    intros x _. by apply quiet_order.
  - assert (Htab : forall n' w', R w w' -> cloud_table_ok tb (n_table n') /\ n_indexer n' = n_indexer n /\ n_writer n' = n_writer n -> node_ok n' w').
    { intros n' w' HR (? & E1 & E2). unfold node_ok. rewrite E1, E2. split; [by eapply writer_ok_mono | done]. }
    eapply h_bind; [eapply h_weaken_exit'; [apply lift_table, (LoadSnapshot_ok tb t Htb probe); done | intros; by apply Htab]|].
    intros r n' w' HR HI [[Hok Hr] Hn]. apply h_ret. split; [by apply Htab|]. split.
    + destruct r as [sn|]; [|done]. exists (Z.to_nat (if probe then probe_limit_ (n_table n) else 0)). split; [by destruct probe | apply Hr].
    + intros x Hx'. destruct x as [[] []]; try done. simpl. intros Hcm. simpl in Hx'. destruct Hx' as (rss & Hp & _). destruct (Hp Hcm) as [_ Hpub].
      destruct r as [sn|]; simpl in Hr; [exists sn; split; [done | by apply Hr] | by apply Hr in Hpub].
Qed.

Lemma node_script_ok fuel ops : forall n w, Inv w -> node_ok n w -> requests_ok ops ->
  safe (node_script fuel ops n) (fun y w' => R w w' /\ Inv w' /\ answers_ok w' y.1 /\ forall x, answer_ok w x -> Forall (in_order x) y.1) w.
Proof.
  induction ops as [|o ops IH]; intros n w HI Hn Hreq; cbn [node_script].
  { split; [reflexivity|]. split; [done|]. split; [split; constructor | by constructor]. }
  assert (Hreq1 : forall batch, o = OpImport batch -> IsValidBatch tb batch = true -> exists rss, batch_wf tb batch rss)
    by (intros batch ->; apply Hreq; by left).
  eapply safe_bind_prog; [exact (node_op_ok fuel o n w Hn Hreq1 HI)|].
  set (a := fun r : result answer => match r with Ok a => a | Fail _ => AnsThrew end).
  intros [r n1] w1 H1. assert (R w w1 /\ Inv w1 /\ op_post w o (a r) n1 w1) as (HR1 & HI1 & Hn1 & Ha & Hord).
  { destruct r as [x|e]; [done|]. destruct H1 as (HR1 & HI1 & Hn1). do 3 (split; [done|]). split; [by destruct o|].
    intros x _. by destruct x as [[] []], o. }
  cbn [fst snd]. fold (a r). eapply safe_bind_prog; [apply (IH n1 w1 HI1 Hn1)|].
  { intros batch Hb. apply Hreq. by right. }
  intros [l n2] w2 (HR2 & HI2 & [Hl Hlo] & Hpast). cbn [CloudLogic.safe fst snd] in *. split; [by transitivity w1|]. split; [done|]. split.
  - split; [constructor; [by eapply answer_ok_mono | done]|]. constructor; [|done]. by apply Hpast.
  - intros x Hx. constructor; [by apply Hord|]. apply Hpast. by eapply answer_ok_mono.
Qed.

Lemma start_world_inv keys : Inv (start_world keys).
Proof.
  split; [split; [split; [done | intros k e He; simpl in He; by rewrite lookup_empty in He] | by intros p b _ ?%not_elem_of_nil]|]. exists []. split_and!.
  - split; [by intros i wal ? | intros q Hq; apply lookup_empty].
  - constructor.
  - constructor.
  - unfold cur. simpl. by rewrite lookup_empty.
Qed.

(** The clients the theorems are about. *)
Definition client_ok (c : Client) : Prop :=
  0 <= p_minimum (c_policy c) /\ p_maximum (c_policy c) < 2 ^ 64 /\ requests_ok (c_ops c).

Lemma new_node_ok c n w : client_ok c -> new_node tb c = Ok n -> node_ok n w.
Proof.
  intros (Hmin & Hmax & _) Hn. unfold new_node in Hn. destruct (CloudTable_new _ _) as [ct|] eqn:Ec; [|done]. cbn [result_bind] in Hn.
  pose proof (CloudTable_new_ok tb _ ct Hmax Hmin Ec) as Hct. pose proof Hct as (Hd & _).
  unfold NewWriter, Writer_new, NewIndexer, Indexer_new in Hn. rewrite Hd, (tw_store _ _ Htb) in Hn. cbn [result_bind] in Hn.
  destruct (_ =? 0)%nat; [done|]. cbn [result_bind] in Hn. destruct (_ || _); [done|]. injection Hn as <-. by split_and!.
Qed.

(** In every run: the invariant, and what each client was told. *)
Lemma system_sound fuel cs keys σ : Forall client_ok cs -> reaches fuel tb cs keys σ ->
  Inv σ.1 /\ Forall (fun p => safe p (fun y w => answers_ok w y.1) σ.1) σ.2.
Proof.
  intros Hcs (ps & Hps & Hrun). pose proof (start_world_inv keys) as HI.
  edestruct (safe_sound Inv R (fun y w => answers_ok w y.1) (start_world keys, ps) σ) as (H1 & _ & H2); [..|done].
  - intros y w w' [Ha Ho] HR _. split; [|done]. eapply Forall_impl; [exact Ha|]. intros x. by apply answer_ok_mono.
  - exact Hrun.
  - exact HI.
  - simpl. clear Hrun. induction Hps as [|c p cs ps Hp _ IH]; [constructor|]. apply Forall_cons in Hcs as [Hc Hcs]. constructor; [|by apply IH].
    unfold launch in Hp. destruct (new_node tb c) as [n|] eqn:En; [|done]. injection Hp as <-.
    eapply safe_weaken; [apply node_script_ok; [done | by eapply new_node_ok | apply Hc]|]. intros y w' (_ & _ & Ha & _). done.
Qed.

(** What a client that has finished was told. *)
Lemma finished_ok fuel cs keys w ts i l n : Forall client_ok cs -> reaches fuel tb cs keys (w, ts) -> ts !! i = Some (Return (l, n)) ->
  Inv w /\ answers_ok w l.
Proof.
  intros Hcs Hr Hi. destruct (system_sound _ _ _ _ Hcs Hr) as [HI Hs]. split; [done|]. exact (Forall_lookup_1 _ _ _ _ Hs Hi).
Qed.

(** ** Consequences *)

(** The data files of a manifest, read back. *)
Lemma covers_parts w dfs L : covers w dfs L -> data_inv w -> NoDup (written w).*1 ->
  exists parts, Forall2 (fun path cs => exists b, files w !! path = Some b /\ format_file cs = Ok b) (df_path <$> dfs) parts /\
    concat parts = log_chunks L.
Proof.
  intros Hc Hd Hn. induction Hc as [|dfs L G _ (parts & Hp & Hcat) HG|dfs L G path b _ (parts & Hp & Hcat) HG Hb Hin].
  - exists []. by split; [constructor|].
  - exists parts. split; [done|]. by rewrite log_chunks_app, HG, app_nil_r.
  - exists (parts ++ [log_chunks G]). rewrite fmap_app, concat_app, log_chunks_app, Hcat. split; [|simpl; by rewrite app_nil_r].
    apply Forall2_app; [done|]. constructor; [|constructor]. exists b. split; [by apply Hd | done].
Qed.

(** The records of a snapshot. *)
Lemma snapshot_records limit w sn : Inv w -> snapshot_ok tb limit w sn -> exists L, log_part tb w L /\
  Z.of_nat (length L) = sn_published sn + probed_wal_count sn /\ probed_wal_count sn <= Z.of_nat limit /\
  (NoDup (written w).*1 -> exists parts,
     Forall2 (fun path cs => exists b, files w !! path = Some b /\ format_file cs = Ok b) (sn_data_files sn) parts /\
     concat parts ++ sn_wal_chunks sn = log_chunks L).
Proof.
  intros [[_ Hd] _] (dfs & Li & Lr & Lp & HL & H1 & H2 & H3 & Hc & -> & _ & -> & Hle & _). exists (Li ++ Lr ++ Lp).
  split; [done|]. split; [rewrite !length_app in *; lia|]. split; [lia|]. intros Hn.
  destruct (covers_parts w dfs Li Hc Hd Hn) as (parts & Hp & Hcat). exists parts. split; [done|]. by rewrite Hcat, (log_chunks_app Li).
Qed.

(** An id is in one record only. *)
Lemma one_record w a b x y id : Inv w -> has_wal tb w a x -> has_wal tb w b y -> id ∈ batch_ids x -> id ∈ batch_ids y -> a = b.
Proof.
  intros [_ (L & [HL Hend] & _ & Hd & _)] Hx Hy Hix Hiy.
  assert (Hat : forall q z, has_wal tb w q z -> L !! Z.to_nat (q - 1) = Some z /\ 0 < q).
  { intros q z Hz. pose proof Hz as (Hq & b' & Hb & _). assert (q <= Z.of_nat (length L)).
    { destruct (decide (q <= Z.of_nat (length L))); [done|]. rewrite Hend in Hb; [done | lia]. }
    destruct (lookup_lt_is_Some_2 L (Z.to_nat (q - 1))) as [z' Hz']; [lia|]. split; [|lia]. rewrite Hz'. f_equal.
    pose proof (HL _ _ Hz') as Hw. replace (Z.of_nat (Z.to_nat (q - 1)) + 1) with q in Hw by lia. by eapply has_wal_det. }
  destruct (Hat _ _ Hx) as [Lx Px], (Hat _ _ Hy) as [Ly Py].
  assert (mkEntry id a (operation_id x) (payload_digest x) = mkEntry id b (operation_id y) (payload_digest y)) as [= -> _ _]; [|done].
  apply (log_entries_inj L); [done | | | done]; apply elem_log_entries.
  - exists (Z.to_nat (a - 1)), x. simpl. split_and!; auto. lia.
  - exists (Z.to_nat (b - 1)), y. simpl. split_and!; auto. lia.
Qed.

Lemma ord_pairs_lookup {A} (P : A -> A -> Prop) l a b x y : ForallOrdPairs P l -> (a < b)%nat -> l !! a = Some x -> l !! b = Some y -> P x y.
Proof.
  intros Hl. revert a b. induction Hl as [|z l Hz _ IH]; intros [|a] [|b] Hab Hx Hy; simpl in *; try lia; try done.
  - injection Hx as ->. by eapply Forall_lookup_1.
  - eapply (IH a b); [lia | done | done].
Qed.

(** A record at or before the end of a stretch of the log is one of its records. *)
Lemma in_part w L q x : log_part tb w L -> has_wal tb w q x -> q <= Z.of_nat (length L) -> L !! Z.to_nat (q - 1) = Some x.
Proof.
  intros HL Hx Hq. pose proof Hx as [Hr _]. destruct (lookup_lt_is_Some_2 L (Z.to_nat (q - 1))) as [y Hy]; [lia|]. rewrite Hy. f_equal.
  pose proof (HL _ _ Hy) as Hw. replace (Z.of_nat (Z.to_nat (q - 1)) + 1) with q in Hw by lia. by eapply has_wal_det.
Qed.

End System.

(** ** Runs of one node after the other

    An executable schedule: each client runs alone until it is done. *)

Definition small_b (w : World) : bool := (next_version_ (meta w) + 1 <? 2 ^ 64) && (Z.of_nat (size (files w)) <? 2 ^ 63).

Fixpoint exec {A} (p : prog A) (w : World) : option (A * World) :=
  match p with
  | Return a => Some (a, w)
  | Call c k => if small_b w then let (r, w') := perform c w in exec (k r) w' else None
  end.

Fixpoint exec_all {A} (ps : list (prog A)) (w : World) : option (list A * World) :=
  match ps with
  | [] => Some ([], w)
  | p :: ps =>
      match exec p w with
      | Some (a, w1) => match exec_all ps w1 with Some (l, w2) => Some (a :: l, w2) | None => None end
      | None => None
      end
  end.

Lemma small_b_ok w : small_b w = true -> Small w.
Proof. unfold small_b, Small. rewrite andb_true_iff, !Z.ltb_lt. done. Qed.

Lemma exec_step {A} B (c : call B) (k : result B -> prog A) w x w1 l r : small_b w = true -> perform c w = (x, w1) ->
  sys_step (w, l ++ Call c k :: r) (w1, l ++ k x :: r).
Proof.
  intros Hs Ep. replace (l ++ k x :: r) with (<[length l := k x]> (l ++ Call c k :: r)) by (by rewrite insert_app_r_alt, Nat.sub_diag by lia).
  eapply sys_call; [by apply list_lookup_middle | by apply small_b_ok|].
  replace x with (perform c w).1 by (by rewrite Ep). replace w1 with (perform c w).2 by (by rewrite Ep). constructor.
Qed.

Lemma exec_steps {A} (p : prog A) : forall w a w' l r, exec p w = Some (a, w') -> rtc sys_step (w, l ++ p :: r) (w', l ++ Return a :: r).
Proof.
  induction p as [x|B c k IH]; intros w a w' l r; cbn [exec]; [by intros [= -> ->]|].
  destruct (small_b w) eqn:Hs; [|done]. destruct (perform c w) as [x w1] eqn:Ep. intros H. eapply rtc_l; [by eapply exec_step | by apply IH].
Qed.

Lemma exec_all_steps {A} (ps : list (prog A)) : forall w l w' done, exec_all ps w = Some (l, w') ->
  rtc sys_step (w, done ++ ps) (w', done ++ (Return <$> l)).
Proof.
  induction ps as [|p ps IH]; intros w l w' done; cbn [exec_all]; [intros [= <- <-]; apply rtc_refl|].
  destruct (exec p w) as [[a w1]|] eqn:E1; [|done]. destruct (exec_all ps w1) as [[l2 w2]|] eqn:E2; [|done]. intros [= <- <-].
  etrans; [by apply exec_steps|]. specialize (IH w1 l2 w2 (done ++ [Return a]) E2). rewrite <- !app_assoc in IH. exact IH.
Qed.

(** The first [n] calls of a node. *)
Fixpoint exec_n {A} (n : nat) (p : prog A) (w : World) : option (prog A * World) :=
  match n, p with
  | S n, Call c k => if small_b w then let (r, w') := perform c w in exec_n n (k r) w' else None
  | _, _ => Some (p, w)
  end.

Lemma exec_n_steps {A} n : forall (p : prog A) w p' w' l r, exec_n n p w = Some (p', w') -> rtc sys_step (w, l ++ p :: r) (w', l ++ p' :: r).
Proof.
  induction n as [|n IH]; intros p w p' w' l r; destruct p as [x|B c k]; cbn [exec_n]; try (intros [= <- <-]; apply rtc_refl).
  destruct (small_b w) eqn:Hs; [|done]. destruct (perform c w) as [x w1] eqn:Ep. intros H. eapply rtc_l; [by eapply exec_step | by apply IH].
Qed.

(** The clients, launched and run in order. *)
Fixpoint launch_all {hashes : Hashes} {format : IFileFormat} (fuel : nat) (tb : TableDescriptor) (cs : list Client)
  : result (list (prog (list (op * answer) * Node))) :=
  match cs with
  | [] => Ok []
  | c :: cs => let? p := launch fuel tb c in let? ps := launch_all fuel tb cs in Ok (p :: ps)
  end.

Lemma launch_all_ok {hashes : Hashes} {format : IFileFormat} fuel tb cs : forall ps, launch_all fuel tb cs = Ok ps ->
  Forall2 (fun c p => launch fuel tb c = Ok p) cs ps.
Proof.
  induction cs as [|c cs IH]; intros ps; cbn [launch_all]; [intros [= <-]; constructor|].
  destruct (launch fuel tb c) as [p|] eqn:Ep; [|done]. cbn [result_bind]. destruct (launch_all fuel tb cs) as [ps'|]; [|done].
  intros [= <-]. constructor; [done | by apply IH].
Qed.

Definition run_clients {hashes : Hashes} {format : IFileFormat} (fuel : nat) (tb : TableDescriptor) (cs : list Client) (keys : list string)
  : option (list (list (op * answer) * Node) * World) :=
  match launch_all fuel tb cs with Ok ps => exec_all ps (start_world keys) | Fail _ => None end.

Lemma run_clients_reaches {hashes : Hashes} {format : IFileFormat} fuel tb cs keys l w :
  run_clients fuel tb cs keys = Some (l, w) -> reaches fuel tb cs keys (w, Return <$> l).
Proof.
  unfold run_clients. destruct (launch_all fuel tb cs) as [ps|] eqn:E; [|done]. intros H. exists ps.
  split; [by apply launch_all_ok | exact (exec_all_steps ps _ _ _ [] H)].
Qed.

(** ** A concrete system *)

Definition demo_format : IFileFormat :=
  {| format_schema := demo_fs; format_file := fun cs => Ok (concat ((fun c => le_bytes 8 (Z.of_nat (row_count c))) <$> cs)) |}.
Definition demo_table : TableDescriptor := mkTable "t1" "meta/t1/" "files/t1" demo_fs.
Definition demo_store : TableDescriptor := mkTable "t1" "meta/t1" "files/t1" demo_fs.
Definition demo_batch : CloudImportBatch := mkBatch ["b1"; "b2"] [chunk_of demo_fs demo_rows] true.
Definition demo_batch2 : CloudImportBatch := mkBatch ["b3"] [chunk_of demo_fs demo_rows] false.
Definition demo_policy : WalProbePolicy := mkPolicy 4 1 64.
Definition demo_keys : list string := ["data/f1"; "manifest/m1"; "data/f2"; "manifest/m2"].

(** The first client imports, indexes and reads; the second takes over, repeats
    the import and goes on. *)
Definition demo_clients : list Client :=
  [mkClient demo_policy 3 [OpStart; OpImport demo_batch; OpSnapshot false; OpIndex; OpImport demo_batch2; OpSnapshot true];
   mkClient demo_policy 3 [OpStart; OpImport demo_batch; OpSnapshot true]].
Definition demo_run := @run_clients demo_hashes demo_format 10 demo_table demo_clients demo_keys.

Lemma demo_table_wf : table_wf demo_table demo_store.
Proof. split; try done; split_and!; try done; repeat constructor; try done; by vm_compute. Qed.

Lemma demo_batch_wf : @batch_wf demo_hashes demo_table demo_batch [demo_rows].
Proof.
  split; [|by vm_compute]. split; try done.
  - split; [by vm_compute|]. repeat constructor; by vm_compute.
  - constructor; [apply wal_demo_rows_ok | constructor].
Qed.
Lemma demo_batch2_wf : @batch_wf demo_hashes demo_table demo_batch2 [demo_rows].
Proof.
  split; [|by vm_compute]. split; try done.
  - split; [by vm_compute|]. repeat constructor; by vm_compute.
  - constructor; [apply wal_demo_rows_ok | constructor].
Qed.

Lemma demo_clients_ok : Forall (@client_ok demo_hashes demo_table) demo_clients.
Proof.
  assert (Hr : forall ops, (forall b, OpImport b ∈ ops -> b = demo_batch \/ b = demo_batch2) -> @requests_ok demo_hashes demo_table ops).
  { intros ops Hops b Hb _. exists [demo_rows]. destruct (Hops b Hb) as [->| ->]; [apply demo_batch_wf | apply demo_batch2_wf]. }
  constructor; [|constructor; [|constructor]]; (split; [simpl; lia|]; split; [simpl; lia|]; apply Hr; intros b; cbn [c_ops]; rewrite !elem_of_cons, elem_of_nil; naive_solver).
Qed.

(** How the demonstration ends. *)
Definition demo_answers (i : nat) : list (op * answer) := match demo_run with Some (l, _) => default [] (fst <$> (l !! i)) | None => [] end.
Definition demo_node (i : nat) : option Node := match demo_run with Some (l, _) => snd <$> (l !! i) | None => None end.
Definition demo_system : system := match demo_run with Some (l, w) => (w, Return <$> l) | None => (start_world [], []) end.
Lemma demo_reaches : @reaches demo_hashes demo_format 10 demo_table demo_clients demo_keys demo_system.
Proof.
  unfold demo_system. destruct demo_run as [[l w]|] eqn:E; [|by vm_compute in E]. by apply run_clients_reaches.
Qed.

(** ** Properties *)

Section Theorems.

Context {hashes : Hashes} {hashes_spec : HashesSpec} {format : IFileFormat}.

(** C2. In every run of any number of clients over the shared stores, however
    their calls interleave and whichever of them fail or are lost, the records
    of a table form a gapless log with non-decreasing epochs in which no batch
    id occurs twice; the log only grows; CURRENT only moves forward, and the
    manifest and batch index it names are present and describe exactly the
    indexed prefix of the log. *)
Theorem cloud_log_invariant (tb t : TableDescriptor) fuel cs keys (σ σ' : system) :
  table_wf tb t -> Forall (client_ok tb) cs -> reaches fuel tb cs keys σ -> rtc sys_step σ σ' ->
  exists L L', log_at tb σ.1 L /\ log_at tb σ'.1 L' /\ L `prefix_of` L' /\ epochs_sorted L' /\ ids_distinct L' /\
    (forall e s, cur t σ.1 = Some e -> DecodeSequentialState (value e) = Ok s ->
       exists e' s', cur t σ'.1 = Some e' /\ DecodeSequentialState (value e') = Ok s' /\ advances s s') /\
    (forall e s, cur t σ'.1 = Some e -> DecodeSequentialState (value e) = Ok s ->
       published_seq s <= Z.of_nat (length L') /\
       exists m es, manifest_of tb t σ'.1 s m es (take (Z.to_nat (indexed_seq s)) L')).
Proof.
  intros Htb Hcs Hr Hrun. destruct (system_sound tb t Htb fuel cs keys σ Hcs Hr) as [HI Hs].
  edestruct (safe_sound (Inv tb t) (R tb t) (fun y w => answers_ok tb t w y.1) σ σ') as (HI' & HR & _); [| exact Hrun | done | exact Hs|].
  { intros y w w' [Ha Ho] HR _. split; [|done]. eapply Forall_impl; [exact Ha|]. intros x. by apply answer_ok_mono. }
  pose proof HI as [_ (L & HL & _)]. pose proof HI' as [_ (L' & HL' & Hso & Hd & Hc)]. exists L, L'. split; [done|]. split; [done|].
  split; [eapply log_part_prefix; [by eapply log_part_mono; [exact HR | apply HL] | done]|]. split; [done|]. split; [done|]. split.
  - intros e s He Hes. destruct (R_cur _ _ _ _ HR e s He Hes) as (e' & s' & ? & ? & ? & _). by exists e', s'.
  - intros e s He Hes. rewrite He in Hc. destruct Hc as (s1 & Hs1 & [_ _ _ (Lp & HLp & Hn) (m & es & Li & Hm)] & _). assert (s1 = s) as -> by congruence.
    destruct (log_part_prefix tb _ _ _ HLp HL') as [k ->]. rewrite length_app. split; [lia|]. exists m, es.
    pose proof Hm as (_ & _ & _ & _ & _ & _ & HLi & Hni & _). destruct (log_part_prefix tb _ _ _ HLi HL') as [k' Hk'].
    replace (take _ _) with Li; [done|]. rewrite Hk'. by rewrite take_app_length' by lia.
Qed.

(** C8. A client is never told of an import that did not happen: when it has
    finished in a world [w], every import answered Committed, AlreadyCommitted
    or Durable is in the log as an append record under the sequence number of
    the answer, with the ids of the request and the digest of its rows, and for
    the first two answers the published watermark covers it. *)
Theorem cloud_import_answers (tb t : TableDescriptor) fuel cs keys w ts i l n batch r :
  table_wf tb t -> Forall (client_ok tb) cs -> reaches fuel tb cs keys (w, ts) -> ts !! i = Some (Return (l, n)) ->
  (OpImport batch, AnsImport r) ∈ l -> i_code r ∈ [Committed; AlreadyCommitted; Durable] ->
  exists rss wal, b_chunks batch = chunk_of (schema tb) <$> rss /\ has_wal tb w (i_seq r) wal /\ kind wal = KAppend /\
    (forall id, id ∈ b_ids batch -> id ∈ batch_ids wal) /\ payload_digest wal = wal_digest (schema tb) (b_ids batch) rss /\
    (i_code r <> Durable -> published_to t w (i_seq r)).
Proof.
  intros Htb Hcs Hr Hi Hin Hcode. destruct (finished_ok tb t Htb _ _ _ _ _ _ _ _ Hcs Hr Hi) as [HI [Ha _]].
  rewrite Forall_forall in Ha. destruct (Ha _ Hin) as (rss & Hc & Hd).
  assert (carries tb w batch rss (i_seq r) /\ (i_code r <> Durable -> published_to t w (i_seq r))) as [[[Hwf _] (wal & Hw & Hk & _ & Hdig & Hids)] Hp].
  { rewrite !elem_of_cons, elem_of_nil in Hcode. destruct Hcode as [E|[E|[E|[]]]].
    - destruct Hc as [? ?]; [by left | by split].
    - destruct Hc as [? ?]; [by right | by split].
    - split; [by apply Hd | done]. }
  exists rss, wal. split; [apply (wo_chunks _ _ _ Hwf) | done].
Qed.

(** C4. Imports happen once: if two clients (or one client twice) are told that
    requests sharing a batch id are committed or durable, they are told the same
    sequence number, whatever retries, restarts and takeovers lie between. *)
Theorem cloud_import_once (tb t : TableDescriptor) fuel cs keys w ts i j l1 l2 n1 n2 b1 b2 r1 r2 id :
  table_wf tb t -> Forall (client_ok tb) cs -> reaches fuel tb cs keys (w, ts) ->
  ts !! i = Some (Return (l1, n1)) -> ts !! j = Some (Return (l2, n2)) ->
  (OpImport b1, AnsImport r1) ∈ l1 -> (OpImport b2, AnsImport r2) ∈ l2 -> id ∈ b_ids b1 -> id ∈ b_ids b2 ->
  i_code r1 ∈ [Committed; AlreadyCommitted; Durable] -> i_code r2 ∈ [Committed; AlreadyCommitted; Durable] -> i_seq r1 = i_seq r2.
Proof.
  intros Htb Hcs Hr Hi Hj Hin1 Hin2 Hid1 Hid2 Hc1 Hc2.
  assert (Hone : forall k l n b r, ts !! k = Some (Return (l, n)) -> (OpImport b, AnsImport r) ∈ l -> id ∈ b_ids b ->
    i_code r ∈ [Committed; AlreadyCommitted; Durable] -> Inv tb t w /\ exists wal, has_wal tb w (i_seq r) wal /\ id ∈ batch_ids wal).
  { intros k l n b r Hk Hin Hid Hcode. destruct (finished_ok tb t Htb _ _ _ _ _ _ _ _ Hcs Hr Hk) as [HI [Ha _]]. split; [done|].
    rewrite Forall_forall in Ha. destruct (Ha _ Hin) as (rss & Hc & Hd).
    assert (carries tb w b rss (i_seq r)) as [_ (wal & Hw & _ & _ & _ & Hids)]; [|exists wal; auto].
    rewrite !elem_of_cons, elem_of_nil in Hcode. destruct Hcode as [E|[E|[E|[]]]]; [by apply Hc; left | by apply Hc; right | by apply Hd]. }
  destruct (Hone _ _ _ _ _ Hi Hin1 Hid1 Hc1) as [HI (x & Hx & Hix)], (Hone _ _ _ _ _ Hj Hin2 Hid2 Hc2) as [_ (y & Hy & Hiy)].
  by eapply one_record.
Qed.

(** C5. A snapshot is exactly a prefix of the log: it consists of the records up
    to the published watermark and then the probed ones (none unless probing was
    asked for), and, provided the key generator never named the same data file
    twice, the bytes of its data files are the format's encoding of successive
    stretches of that prefix, so that data files and WAL chunks together hold
    every chunk of the prefix once and in order. *)
Theorem cloud_snapshot_exact (tb t : TableDescriptor) fuel cs keys w ts i l n probe sn :
  table_wf tb t -> Forall (client_ok tb) cs -> reaches fuel tb cs keys (w, ts) -> ts !! i = Some (Return (l, n)) ->
  (OpSnapshot probe, AnsSnapshot (Some sn)) ∈ l ->
  exists L, log_part tb w L /\ Z.of_nat (length L) = sn_published sn + probed_wal_count sn /\ (probe = false -> probed_wal_count sn = 0) /\
    (NoDup (written w).*1 -> exists parts,
       Forall2 (fun path cs => exists b, files w !! path = Some b /\ format_file cs = Ok b) (sn_data_files sn) parts /\
       concat parts ++ sn_wal_chunks sn = log_chunks L).
Proof.
  intros Htb Hcs Hr Hi Hin. destruct (finished_ok tb t Htb _ _ _ _ _ _ _ _ Hcs Hr Hi) as [HI [Ha _]].
  rewrite Forall_forall in Ha. destruct (Ha _ Hin) as (limit & Hl & Hsn).
  destruct (snapshot_records tb t limit w sn HI Hsn) as (L & HL & Hlen & Hle & Hparts). exists L. split_and!; auto.
  intros ->. rewrite Hl in Hle by done. destruct Hsn as (? & ? & ? & Lp & _ & _ & _ & Hlp & _). lia.
Qed.

(** C9. A client sees its own writes: a snapshot it loads after one of its
    imports was answered as committed exists, and the record of that import is
    among the records of the log the snapshot consists of. *)
Theorem cloud_read_your_writes (tb t : TableDescriptor) fuel cs keys w ts i l n a b batch r probe o :
  table_wf tb t -> Forall (client_ok tb) cs -> reaches fuel tb cs keys (w, ts) -> ts !! i = Some (Return (l, n)) ->
  (a < b)%nat -> l !! a = Some (OpImport batch, AnsImport r) -> l !! b = Some (OpSnapshot probe, AnsSnapshot o) -> committed r ->
  exists sn L wal, o = Some sn /\ log_part tb w L /\ Z.of_nat (length L) = sn_published sn + probed_wal_count sn /\
    L !! Z.to_nat (i_seq r - 1) = Some wal /\ kind wal = KAppend /\ forall id, id ∈ b_ids batch -> id ∈ batch_ids wal.
Proof.
  intros Htb Hcs Hr Hi Hab Hla Hlb Hc. destruct (finished_ok tb t Htb _ _ _ _ _ _ _ _ Hcs Hr Hi) as [HI [Ha Ho]].
  destruct (ord_pairs_lookup _ _ a b _ _ Ho Hab Hla Hlb Hc) as (sn & -> & Hle).
  destruct (Forall_lookup_1 _ _ _ _ Ha Hla) as (rss & Hcm & _). destruct (Hcm Hc) as [[_ (wal & Hw & Hk & _ & _ & Hids)] _].
  destruct (Forall_lookup_1 _ _ _ _ Ha Hlb) as (limit & _ & Hsn). destruct (snapshot_records tb t limit w sn HI Hsn) as (L & HL & Hlen & _ & _).
  exists sn, L, wal. split_and!; auto. eapply in_part; [done | done|].
  destruct Hsn as (? & ? & ? & Lp & _ & _ & _ & Hlp & _). lia.
Qed.

End Theorems.

(** The demonstration's first client imports under sequence number 2 and is told
    so; the second one is told that it was imported already. *)
Definition demo_committed : CloudImportResult := mkImportResult Committed 1 2 2.
Definition demo_repeated : CloudImportResult := mkImportResult AlreadyCommitted 2 2 2.

Lemma demo_finished i n : demo_node i = Some n -> demo_system.2 !! i = Some (Return (demo_answers i, n)).
Proof.
  unfold demo_node, demo_system, demo_answers. destruct demo_run as [[l w]|]; [|done]. cbn [snd fst]. intros Hn.
  apply fmap_Some in Hn as ([a n'] & Hi & ->). by rewrite list_lookup_fmap, Hi.
Qed.

Definition demo_node_0 : Node := Eval vm_compute in default (mkNode (mkWriter demo_table demo_store 0 None 0) (mkIndexer demo_table demo_store 0) (mkCloudTable demo_table demo_policy 0)) (demo_node 0).
Definition demo_node_1 : Node := Eval vm_compute in default (mkNode (mkWriter demo_table demo_store 0 None 0) (mkIndexer demo_table demo_store 0) (mkCloudTable demo_table demo_policy 0)) (demo_node 1).
Lemma demo_at_0 : demo_system.2 !! 0%nat = Some (Return (demo_answers 0, demo_node_0)).
Proof. apply demo_finished. by vm_compute. Qed.
Lemma demo_at_1 : demo_system.2 !! 1%nat = Some (Return (demo_answers 1, demo_node_1)).
Proof. apply demo_finished. by vm_compute. Qed.
Lemma demo_pair : demo_system = (demo_system.1, demo_system.2).
Proof. by destruct demo_system. Qed.

Lemma demo_reaches_pair : @reaches demo_hashes demo_format 10 demo_table demo_clients demo_keys (demo_system.1, demo_system.2).
Proof. rewrite <- demo_pair. apply demo_reaches. Qed.

Lemma demo_told_committed : (OpImport demo_batch, AnsImport demo_committed) ∈ demo_answers 0.
Proof. apply (list_elem_of_lookup_2 _ 1). by vm_compute. Qed.
Lemma demo_told_repeated : (OpImport demo_batch, AnsImport demo_repeated) ∈ demo_answers 1.
Proof. apply (list_elem_of_lookup_2 _ 1). by vm_compute. Qed.

Lemma cloud_log_invariant_witness : exists L L', @log_at demo_hashes demo_table demo_system.1 L /\ @log_at demo_hashes demo_table demo_system.1 L' /\ L `prefix_of` L'.
Proof.
  destruct (@cloud_log_invariant demo_hashes demo_hashes_spec demo_format demo_table demo_store 10 demo_clients demo_keys demo_system demo_system
    demo_table_wf demo_clients_ok demo_reaches (rtc_refl _ _)) as (L & L' & H1 & H2 & H3 & _). by exists L, L'.
Defined.

Lemma cloud_import_answers_witness : exists wal, @has_wal demo_hashes demo_table demo_system.1 2 wal /\ kind wal = KAppend /\
  published_to demo_store demo_system.1 2.
Proof.
  destruct (@cloud_import_answers demo_hashes demo_hashes_spec demo_format demo_table demo_store 10 demo_clients demo_keys demo_system.1 demo_system.2
    0 (demo_answers 0) demo_node_0 demo_batch demo_committed demo_table_wf demo_clients_ok demo_reaches_pair demo_at_0 demo_told_committed
    (list_elem_of_here _ _)) as (rss & wal & _ & Hw & Hk & _ & _ & Hp). exists wal. split; [exact Hw|]. split; [exact Hk | by apply Hp].
Defined.

Lemma cloud_import_once_witness : i_seq demo_committed = i_seq demo_repeated.
Proof.
  apply (@cloud_import_once demo_hashes demo_hashes_spec demo_format demo_table demo_store 10 demo_clients demo_keys demo_system.1 demo_system.2
    0 1 (demo_answers 0) (demo_answers 1) demo_node_0 demo_node_1 demo_batch demo_batch demo_committed demo_repeated "b1" demo_table_wf
    demo_clients_ok demo_reaches_pair demo_at_0 demo_at_1 demo_told_committed demo_told_repeated); by (left || right; left).
Defined.

(** The last snapshot of the first client: one data file and one record. *)
Definition demo_snapshot : TableSnapshot := Eval vm_compute in
  match demo_answers 0 !! 5%nat with Some (_, AnsSnapshot (Some sn)) => sn | _ => mkSnapshot "" 0 0 "" [] [] 0 0 [] 0 false end.

Lemma cloud_snapshot_exact_witness : exists L, @log_part demo_hashes demo_table demo_system.1 L /\ Z.of_nat (length L) = 3 /\
  exists parts, length parts = 1%nat /\ concat parts ++ sn_wal_chunks demo_snapshot = log_chunks L.
Proof.
  assert (Hin : (OpSnapshot true, AnsSnapshot (Some demo_snapshot)) ∈ demo_answers 0) by (apply (list_elem_of_lookup_2 _ 5); by vm_compute).
  destruct (@cloud_snapshot_exact demo_hashes demo_hashes_spec demo_format demo_table demo_store 10 demo_clients demo_keys demo_system.1 demo_system.2
    0 (demo_answers 0) demo_node_0 true demo_snapshot demo_table_wf demo_clients_ok demo_reaches_pair demo_at_0 Hin) as (L & HL & Hlen & _ & Hp).
  exists L. split; [exact HL|]. split; [exact Hlen|]. destruct Hp as (parts & Hf & Hcat).
  - assert (Hw : (written demo_system.1).*1 = ["files/t1/data/f1"]) by (by vm_compute). rewrite Hw. apply NoDup_singleton.
  - exists parts. split; [by apply Forall2_length in Hf | exact Hcat].
Defined.

Lemma cloud_read_your_writes_witness : exists L wal, @log_part demo_hashes demo_table demo_system.1 L /\ L !! 1%nat = Some wal /\ kind wal = KAppend.
Proof.
  destruct (@cloud_read_your_writes demo_hashes demo_hashes_spec demo_format demo_table demo_store 10 demo_clients demo_keys demo_system.1 demo_system.2
    0 (demo_answers 0) demo_node_0 1 5 demo_batch demo_committed true (Some demo_snapshot) demo_table_wf demo_clients_ok demo_reaches_pair demo_at_0)
    as (sn & L & wal & _ & HL & _ & Hw & Hk & _); [lia | by vm_compute | by vm_compute | by left|]. by exists L, wal.
Defined.

(** Two clients: the first is interrupted inside its import, after the record is
    in the log and before it is published. *)
Definition stuck_batch : CloudImportBatch := mkBatch ["b4"] [chunk_of demo_fs demo_rows] true.
Definition other_batch : CloudImportBatch := mkBatch ["b3"] [chunk_of demo_fs demo_rows] true.
Definition stuck_clients : list Client :=
  [mkClient demo_policy 3 [OpStart; OpImport demo_batch; OpImport stuck_batch; OpStart; OpImport stuck_batch];
   mkClient demo_policy 3 [OpStart; OpImport other_batch]].

Definition stuck_run : option ((list (op * answer) * Node) * (list (op * answer) * Node) * World) :=
  match @launch_all demo_hashes demo_format 10 demo_table stuck_clients with
  | Ok [pa; pb] =>
      match exec_n 13 pa (start_world []) with
      | Some (pa', w1) =>
          match exec pb w1 with
          | Some (b, w2) => match exec pa' w2 with Some (a, w3) => Some (a, b, w3) | None => None end
          | None => None
          end
      | None => None
      end
  | _ => None
  end.

Lemma stuck_run_reaches a b w : stuck_run = Some (a, b, w) ->
  @reaches demo_hashes demo_format 10 demo_table stuck_clients [] (w, [Return a; Return b]).
Proof.
  unfold stuck_run. destruct (launch_all _ _ _) as [ps|] eqn:E; [|done]. destruct ps as [|pa [|pb [|]]]; try done.
  destruct (exec_n 13 pa _) as [[pa' w1]|] eqn:E1; [|done]. destruct (exec pb w1) as [[b' w2]|] eqn:E2; [|done].
  destruct (exec pa' w2) as [[a' w3]|] eqn:E3; [|done]. intros [= <- <- <-]. exists [pa; pb]. split; [by apply launch_all_ok|].
  etrans; [exact (exec_n_steps 13 pa _ _ _ [] [pb] E1)|]. etrans; [exact (exec_steps pb _ _ _ [pa'] [] E2)|].
  exact (exec_steps pa' _ _ _ [] [Return b'] E3).
Qed.

