(* ===== verification/CloudSource.v ===== *)
(** * Querying a cloud table

    Models [Cloud/CloudTableSource] (the cursor over the indexed data followed by
    the WAL chunks of a snapshot), [CloudTable::OpenSnapshot], the dispatch of
    [Cloud/CloudServices], and the native columnar format as the file format of
    a cloud table. *)

From stdpp Require Import strings.
From S2P Require Import Prelude KeyCodec Table Storage Columnar SeqCodec Cloud.
Open Scope Z_scope.

(** ** The cursors *)

(** The chunks of the records, from [wc_pos] on. *)
Record SnapshotWalCursor := mkWalCursor { wc_chunks : list Chunk; wc_projection : list Z; wc_pos : nat }.

Fixpoint select_columns (projection : list Z) (cols : list Column) : result (list Column) :=
  match projection with
  | [] => Ok []
  | column :: projection =>
      match (if column <? 0 then None else cols !! Z.to_nat column) with
      | None => Fail (Throw out_of_range "CloudTableSource: invalid projection")
      | Some col => let? rest := select_columns projection cols in Ok (col :: rest)
      end
  end.

Definition Wal_Next {St} (c : SnapshotWalCursor) : M St (option Chunk * SnapshotWalCursor) :=
  match wc_chunks c !! wc_pos c with
  | None => ret (None, c)
  | Some src =>
      let* cols := lift (select_columns (wc_projection c) (columns src)) in
      ret (Some (mkChunk (wc_projection c) cols (row_count src)), mkWalCursor (wc_chunks c) (wc_projection c) (S (wc_pos c)))
  end.

#[export] Instance wal_cursor {St} : IBatchCursor St SnapshotWalCursor := {| Batch_Next := Wal_Next |}.

(** One cursor after the other; either may be null. *)
Record CompositeBatchCursor (C1 C2 : Type) := mkComposite {
  indexed_data_ : option C1;
  wal_ : option C2;
  reading_indexed_data_ : bool;
}.
Arguments mkComposite {C1 C2} _ _ _.
Arguments indexed_data_ {C1 C2} _.
Arguments wal_ {C1 C2} _.
Arguments reading_indexed_data_ {C1 C2} _.

Section Composite.

Context {St C1 C2 : Type} `{!IBatchCursor St C1, !IBatchCursor St C2}.
Abbreviation Composite := (CompositeBatchCursor C1 C2).

Definition composite_wal (c : Composite) : M St (option Chunk * Composite) :=
  match wal_ c with
  | None => ret (None, c)
  | Some w =>
      let* (o, w) := Batch_Next w in
      ret (o, mkComposite (indexed_data_ c) (Some w) (reading_indexed_data_ c))
  end.

Definition Composite_Next (c : Composite) : M St (option Chunk * Composite) :=
  if reading_indexed_data_ c then
    match indexed_data_ c with
    | None => composite_wal (mkComposite None (wal_ c) false)
    | Some d =>
        let* (o, d) := Batch_Next d in
        match o with
        | Some chunk => ret (Some chunk, mkComposite (Some d) (wal_ c) true)
        | None => composite_wal (mkComposite (Some d) (wal_ c) false)
        end
    end
  else composite_wal c.

#[export] Instance composite_cursor : IBatchCursor St Composite := {| Batch_Next := Composite_Next |}.

End Composite.

(** ** CloudTableSource *)

Record CloudTableSource := mkSource { src_schema : Schema; src_snapshot : TableSnapshot }.

Definition CloudTableSource_new `{!IFileFormat} (fs : Schema) (sn : TableSnapshot) : result CloudTableSource :=
  if negb (SchemasEqual fs format_schema)
  then Fail (Throw invalid_argument "CloudTableSource: format or file storage is null") else Ok (mkSource fs sn).

(** [Scan], given the format's. *)
Definition Cloud_Scan {St C} (format_Scan : list string -> list Z -> M St C) (src : CloudTableSource) (projection : list Z)
  : M St (CompositeBatchCursor C SnapshotWalCursor) :=
  let* indexed_data := format_Scan (sn_data_files (src_snapshot src)) projection in
  let wal := mkWalCursor (sn_wal_chunks (src_snapshot src)) projection 0 in
  ret (mkComposite (Some indexed_data) (Some wal) true).

Definition OpenSnapshot `{!Hashes, !IFileFormat} (probe_unpublished : bool) : T CloudTable (option CloudTableSource) :=
  let! snapshot := LoadSnapshot probe_unpublished in
  match snapshot with
  | None => tret None
  | Some sn =>
      let! ct := tget in
      let! src := tlift (CloudTableSource_new (schema (ct_descriptor ct)) sn) in
      tret (Some src)
  end.

(** ** The native columnar format of a cloud table *)

Section Native.

Context `{!Zlib}.

(** [for (const auto &chunk : chunks) writer->Write(chunk)] *)
Fixpoint write_chunks {Out : Type} (cs : list Chunk) (w : @ChunkWriter Out) : result (@ChunkWriter Out) :=
  match cs with
  | [] => Ok w
  | c :: cs => let? w := Write c w in write_chunks cs w
  end.

(** Open a writer, write the chunks, close it. *)
Definition write_native {St F Out} `{!IStorage St F Out} (fmt : FileFormat) (path : string) (cs : list Chunk) : M St unit :=
  let* w := OpenWriter fmt path in
  let* w := lift (write_chunks cs w) in
  let* _ := Writer_Close w in
  ret tt.

(** The bytes it publishes do not depend on where. *)
Definition native_file (fmt : FileFormat) (cs : list Chunk) : result bytes :=
  match write_native fmt "file" cs (∅ : MemStorage.files_) with
  | (Ok _, st) => match st !! "file" with Some b => Ok b | None => Fail (Undefined "no file") end
  | (Fail e, _) => Fail e
  end.

Definition native_format (fmt : FileFormat) : IFileFormat := {| format_schema := nf_schema fmt; format_file := native_file fmt |}.

Definition native_scan {St F Out} `{!IStorage St F Out} (fmt : FileFormat) (files : list string) (projection : list Z) : M St (@ColumnarCursor F) :=
  ret (Columnar_Scan fmt files projection).

End Native.

(** ** CloudServices

    The catalog, the router, the transport, the coordinators and the tables are
    interfaces; an object they hand out is its one method. *)

Record TableName := mkTableName { tn_database : string; tn_table : string }.
Record WriterTarget := mkTarget { writer_id : string; endpoint : string }.

Class ICloudCatalog (W : Type) := { Resolve : TableName -> T W (option TableDescriptor) }.
Class IWriterRouter (W : Type) := { Route : string -> T W (option WriterTarget) }.
Class IWriterTransport (W : Type) := { Transport_Import : WriterTarget -> string -> CloudImportBatch -> T W CloudImportResult }.
Class IWriteCoordinatorProvider (W : Type) := { Coordinator_Get : string -> T W (option (CloudImportBatch -> T W CloudImportResult)) }.
Class ICloudTableProvider (W : Type) := { Table_Get : TableDescriptor -> T W (option (bool -> T W (option CloudTableSource))) }.

Definition CloudImportService_Import {W} `{!ICloudCatalog W, !IWriterRouter W, !IWriterTransport W} (table : TableName) (batch : CloudImportBatch)
  : T W CloudImportResult :=
  let! descriptor := Resolve table in
  match descriptor with
  | None => tret (mkImportResult TableNotFound 0 0 0)
  | Some d =>
      let! target := Route (table_id d) in
      match target with
      | None => tret (mkImportResult NoWriterAvailable 0 0 0)
      | Some target => Transport_Import target (table_id d) batch
      end
  end.

Definition CloudWriterService_Import {W} `{!IWriteCoordinatorProvider W} (table_id : string) (batch : CloudImportBatch) : T W CloudImportResult :=
  let! coordinator := Coordinator_Get table_id in
  match coordinator with
  | None => tret (mkImportResult TableNotFound 0 0 0)
  | Some import => import batch
  end.

Definition CloudQueryService_Open {W} `{!ICloudCatalog W, !ICloudTableProvider W} (table : TableName) : T W (option CloudTableSource) :=
  let! descriptor := Resolve table in
  match descriptor with
  | None => tret None
  | Some d =>
      let! cloud_table := Table_Get d in
      match cloud_table with
      | None => tret None
      | Some open => open true
      end
  end.
