(* ===== verification/CloudQuery.v ===== *)
(** * A query of a cloud table returns what was imported

    The cursors of a snapshot keep the promise of a batch cursor; the data files
    the indexer writes in the native columnar format are files its scan reads;
    so scanning a snapshot gives the rows of a prefix of the log. *)

From stdpp Require Import strings pretty sorting.
From S2P Require Import Prelude KeyCodec Table TableSpec Storage Columnar ColumnarSpec SeqCodec SeqCodecSpec WalSpec Cloud CloudLogic CloudInv CloudProto CloudIndex CloudSystem CloudSource.
Open Scope Z_scope.

(** ** The cursor over the WAL chunks *)

Lemma select_columns_ok fs rows projection : in_schema fs projection ->
  select_columns projection (cols_of fs (all_columns fs) rows) = Ok (cols_of fs projection rows).
Proof.
  induction 1 as [|p projection Hp _ IH]; [done|]. cbn [select_columns]. destruct (Z.ltb_spec p 0); [lia|].
  unfold cols_of at 1. rewrite list_lookup_fmap, lookup_all_columns, decide_True by lia. simpl. rewrite IH. cbn [result_bind].
  by rewrite Z2Nat.id by lia.
Qed.

Section WalCursor.

Context (fs : Schema) (projection : list Z) (proj_in : in_schema fs projection).

Definition wal_at (c : SnapshotWalCursor) (rows : list (list Value)) : Prop :=
  wc_projection c = projection /\ exists rss, drop (wc_pos c) (wc_chunks c) = chunk_of fs <$> rss /\ Forall (rows_ok fs) rss /\
    rows = pick projection <$> concat rss.

Lemma wal_rows_read rows : rows_ok fs rows ->
  read_rows (length rows) 0 (cols_of fs projection (raws_of fs <$> rows)) = Ok (pick projection <$> rows).
Proof using proj_in.
  intros [Hr _ _ Hs]. rewrite <- (project_rows fs projection rows) by done. rewrite <- (length_fmap (raws_of fs) rows) at 1. apply read_rows_ok; auto.
  - by apply raws_rows.
  - unfold rows_fit. pose proof (length_wire_rows fs rows). lia.
Qed.

Lemma wal_end {St} c (s : St) : wal_at c [] -> Wal_Next c s = (Ok (None, c), s).
Proof.
  intros (_ & rss & Hd & Hok & Hr). unfold Wal_Next. assert (rss = []) as ->.
  { destruct rss as [|rows rss]; [done|]. apply Forall_cons in Hok as [[_ Hne _ _] _]. destruct rows; [done|]. done. }
  destruct (wc_chunks c !! wc_pos c) eqn:E; [|done]. apply drop_S in E. by rewrite Hd in E.
Qed.

Lemma wal_next {St} c (s : St) rows : wal_at c rows -> rows <> [] ->
  exists chunk c' rows1 rows2, Wal_Next c s = (Ok (Some chunk, c'), s) /\ rows = rows1 ++ rows2 /\ rows1 <> [] /\
    read_rows (row_count chunk) 0 (columns chunk) = Ok rows1 /\ wal_at c' rows2.
Proof using proj_in.
  intros (Hp & rss & Hd & Hok & ->) Hne. destruct rss as [|rows rss]; [done|]. apply Forall_cons in Hok as [Hrows Hok]. unfold Wal_Next.
  assert (E : wc_chunks c !! wc_pos c = Some (chunk_of fs rows)).
  { rewrite <- (Nat.add_0_r (wc_pos c)), <- lookup_drop, Hd. done. }
  rewrite E, Hp. rewrite (bind_ok _ _ s (cols_of fs projection (raws_of fs <$> rows)) s) by (unfold chunk_of; cbn [columns]; by rewrite select_columns_ok).
  eexists _, _, (pick projection <$> rows), (pick projection <$> concat rss). split; [done|]. cbn [concat]. rewrite fmap_app. split; [done|].
  split; [destruct Hrows; by destruct rows|]. split; [by apply wal_rows_read|]. split; [done|]. exists rss. cbn [wc_pos wc_chunks]. split_and!; auto.
  apply drop_S in E. rewrite Hd, fmap_cons in E. by injection E as <-.
Qed.

(** ** One cursor after the other *)

Context {St C1 : Type} `{HC : BatchCursorSpec St C1}.

Definition composite_at (s : St) (c : CompositeBatchCursor C1 SnapshotWalCursor) (rows : list (list Value)) : Prop :=
  exists r1 r2 w, rows = r1 ++ r2 /\ wal_ c = Some w /\ wal_at w r2 /\
    if reading_indexed_data_ c then exists d, indexed_data_ c = Some d /\ batch_at s d r1 else r1 = [].

(** The part behind the indexed data. *)
Lemma composite_wal_end c w s : wal_ c = Some w -> wal_at w [] -> reading_indexed_data_ c = false ->
  exists c', composite_wal c s = (Ok (None, c'), s) /\ composite_at s c' [].
Proof.
  intros Hw Hat Hr. unfold composite_wal. rewrite Hw. simpl Batch_Next. rewrite (bind_ok _ _ s (None, w) s) by (by apply wal_end).
  eexists. split; [reflexivity|]. exists [], [], w. cbn [reading_indexed_data_ wal_]. rewrite Hr. done.
Qed.

Lemma composite_wal_next c w s rows : wal_ c = Some w -> wal_at w rows -> rows <> [] -> reading_indexed_data_ c = false ->
  exists chunk c' rows1 rows2, composite_wal c s = (Ok (Some chunk, c'), s) /\ rows = rows1 ++ rows2 /\ rows1 <> [] /\
    read_rows (row_count chunk) 0 (columns chunk) = Ok rows1 /\ composite_at s c' rows2.
Proof using proj_in.
  intros Hw Hat Hne Hr. destruct (wal_next w s rows Hat Hne) as (chunk & w' & r1 & r2 & E & -> & Hne1 & Hread & Hat').
  unfold composite_wal. rewrite Hw. simpl Batch_Next. rewrite (bind_ok _ _ _ _ _ E).
  eexists _, _, r1, r2. split; [reflexivity|]. split_and!; auto. exists [], r2, w'. cbn [reading_indexed_data_ wal_]. rewrite Hr. done.
Qed.

#[export] Program Instance composite_spec : BatchCursorSpec St (CompositeBatchCursor C1 SnapshotWalCursor) := {| batch_at := composite_at |}.
Next Obligation.
  intros s c (r1 & r2 & w & E & Hw & Hat & Hr). symmetry in E. apply app_nil in E as [-> ->]. simpl. unfold Composite_Next.
  destruct (reading_indexed_data_ c) eqn:Hread.
  - destruct Hr as (d & -> & Hd). destruct (batch_end_spec s d Hd) as (d' & s' & E & _). rewrite (bind_ok _ _ _ _ _ E).
    destruct (composite_wal_end (mkComposite (Some d') (wal_ c) false) w s') as (c' & Ec & Hc); [done | done | done|]. by exists c', s'.
  - destruct (composite_wal_end c w s) as (c' & Ec & Hc); [done | done | done|]. by exists c', s.
Qed.
Next Obligation.
  intros s c rows (r1 & r2 & w & -> & Hw & Hat & Hr) Hne. simpl. unfold Composite_Next. destruct (reading_indexed_data_ c) eqn:Hread.
  - destruct Hr as (d & -> & Hd). destruct (decide (r1 = [])) as [->|Hne1].
    + destruct (batch_end_spec s d Hd) as (d' & s' & E & _). rewrite (bind_ok _ _ _ _ _ E).
      destruct (composite_wal_next (mkComposite (Some d') (wal_ c) false) w s' r2) as (chunk & c' & a & b & Ec & H); [done | done | done | done|].
      by exists chunk, c', s', a, b.
    + destruct (batch_next_spec s d r1 Hd Hne1) as (chunk & d' & s' & a & b & E & -> & Ha & Hread' & Hd'). rewrite (bind_ok _ _ _ _ _ E).
      eexists chunk, _, s', a, (b ++ r2). split; [reflexivity|]. rewrite app_assoc. split_and!; auto. exists b, r2, w. cbn. split_and!; auto. by exists d'.
  - subst r1. destruct (composite_wal_next c w s r2) as (chunk & c' & a & b & Ec & H); [done | done | done | done|]. by exists chunk, c', s, a, b.
Qed.

End WalCursor.

(** ** Data files in the native format *)

Lemma all_columns_fields fs : all_columns fs = all_fields fs.
Proof.
  unfold all_columns, all_fields, seqZ. rewrite Nat2Z.id. apply list_fmap_ext. intros i x _. simpl. lia.
Qed.

Section Native.

Context {Zl : Zlib} {HZ : ZlibSpec}.
Context (fs : Schema) (fmt : FileFormat) (Hfs : nf_schema fmt = fs).
Context (Hcomp : write_compression_ fmt = Compression_None \/ write_compression_ fmt = Compression_Zlib) (Htotal : forall b, compress2 b <> None).

Lemma write_chunks_batches {Out} rss : forall (w : @ChunkWriter Out), write_chunks (chunk_of fs <$> rss) w = write_batches fs (batch_raws fs rss) w.
Proof.
  induction rss as [|rows rss IH]; intros w; [done|]. rewrite fmap_cons. cbn [write_chunks batch_raws map write_batches]. unfold chunk_of at 1.
  rewrite all_columns_fields, length_fmap. destruct (Write _ w) as [w'|]; [|done]. cbn [result_bind]. apply IH.
Qed.

(** What the indexer writes is a sealed file of the rows. *)
Lemma native_file_sealed rss b : Forall (fun f => f_type f <> Invalid) fs -> Forall (rows_ok fs) rss -> rows_fit fs (raws_of fs <$> concat rss) ->
  native_file fmt (chunk_of fs <$> rss) = Ok b -> Z.of_nat (length b) < 2 ^ 63 -> sealed fs b (raws_of fs <$> concat rss).
Proof using Hfs Hcomp Htotal.
  intros Hv Hok Hfit Hb Hl.
  assert (Hrows : Forall (fun row => row_ok fs row) (concat rss)) by (apply Forall_concat; eapply Forall_impl; [exact Hok | by intros rows []]).
  assert (Ht : table_ok fs (concat (batch_raws fs rss))) by (rewrite concat_batch_raws; split_and!; [done | by apply raws_rows | done]).
  destruct (write_file_ok fs fmt "file" (batch_raws fs rss) (∅ : MemStorage.files_) Hfs Ht Hcomp Htotal) as (s' & fb & E & Es & Hsealed).
  rewrite concat_batch_raws in Hsealed. unfold native_file in Hb. unfold write_file in E. unfold write_native in Hb.
  unfold bind in E, Hb. destruct (OpenWriter fmt "file" ∅) as [[w|] s1]; [|done]. unfold lift in E, Hb. rewrite write_chunks_batches in Hb.
  rewrite E in Hb. cbn [stored mem_storage_spec] in Es. rewrite Es, lookup_insert_eq in Hb. injection Hb as <-. by apply Hsealed.
Qed.

(** The rows of the data files of a snapshot. *)
Lemma data_files_rows (files : gmap string bytes) paths parts rss : Forall (fun f => f_type f <> Invalid) fs -> Forall (rows_ok fs) rss ->
  rows_fit fs (raws_of fs <$> concat rss) -> (forall p b, files !! p = Some b -> Z.of_nat (length b) < 2 ^ 63) ->
  Forall2 (fun path cs => exists b, files !! path = Some b /\ native_file fmt cs = Ok b) paths parts -> concat parts = chunk_of fs <$> rss ->
  exists tabs, Forall2 (file_rows fs files) paths (batch_raws fs tabs) /\ concat tabs = concat rss.
Proof using Hfs Hcomp Htotal.
  intros Hv Hok Hfit Hsize Hp. revert rss Hok Hfit. induction Hp as [|path cs paths parts (b & Hb & Hfile) _ IH]; intros rss Hok Hfit Hcat.
  { exists []. split; [constructor|]. by destruct rss. }
  cbn [concat] in Hcat. symmetry in Hcat. apply fmap_app_inv in Hcat as (r1 & r2 & -> & E2 & ->).
  apply Forall_app in Hok as [Hok1 Hok2]. rewrite concat_app, fmap_app in Hfit. apply rows_fit_app in Hfit as [Hfit1 Hfit2].
  destruct (IH r2 Hok2 Hfit2 E2) as (tabs & Htabs & Hcat). exists (concat r1 :: tabs). split; [|cbn [concat]; by rewrite Hcat, concat_app].
  constructor; [|done]. unfold file_rows. rewrite Hb. apply native_file_sealed; auto. by eapply Hsize.
Qed.

End Native.

(** ** The rows of the log *)

Lemma log_chunk_rows `{!Hashes} tb w L : log_part tb w L -> exists rss, log_chunks L = chunk_of (schema tb) <$> rss /\ Forall (rows_ok (schema tb)) rss.
Proof.
  intros HL. assert (Hall : Forall (fun wal => exists rss, append_chunks wal = chunk_of (schema tb) <$> rss /\ Forall (rows_ok (schema tb)) rss) L).
  { apply Forall_forall. intros wal Hin. apply list_elem_of_lookup in Hin as [i Hi]. destruct (HL _ _ Hi) as (_ & b & _ & rss & Hok & _).
    unfold append_chunks. case_bool_decide; [|by exists []]. exists rss. split; [apply (wo_chunks _ _ _ Hok) | apply (wo_rows _ _ _ Hok)]. }
  clear HL. induction Hall as [|wal L (r1 & E1 & H1) _ (r2 & E2 & H2)]; [by exists []|]. exists (r1 ++ r2).
  change (wal :: L) with ([wal] ++ L). rewrite log_chunks_app, fmap_app, E2. split; [|by apply Forall_app]. f_equal. unfold log_chunks. simpl. by rewrite app_nil_r.
Qed.

(** A snapshot's data files and chunks, scanned. *)
Lemma source_scan_ok {Zl : Zlib} {HZ : ZlibSpec} fs fmt sn rd rw (tabs : list (list (list Value))) files projection : nf_schema fmt = fs -> fs <> [] ->
  in_schema fs projection -> Forall (rows_ok fs) rd -> Forall (rows_ok fs) rw ->
  Forall2 (file_rows fs files) (sn_data_files sn) (batch_raws fs tabs) -> concat tabs = concat rd -> sn_wal_chunks sn = chunk_of fs <$> rw ->
  exists s', CollectProjected (S (length (concat (rd ++ rw)))) (Cloud_Scan (native_scan fmt) (mkSource fs sn)) projection (files : MemStorage.files_) =
    (Ok (pick projection <$> concat (rd ++ rw)), s').
Proof.
  intros Hfs Hne Hin Hrd Hrw Hfiles Hcat Hw. unfold CollectProjected.
  assert (Hrows : Forall (fun row => row_ok fs row) (concat tabs)).
  { rewrite Hcat. apply Forall_concat. eapply Forall_impl; [exact Hrd | by intros rows []]. }
  set (d := Columnar_Scan fmt (sn_data_files sn) projection : @ColumnarCursor MemStorage.MemInputFile).
  set (c := mkComposite (Some d) (Some (mkWalCursor (sn_wal_chunks sn) projection 0)) true).
  rewrite (bind_ok _ _ files c files) by done.
  destruct (@collect_ok _ _ _ (composite_spec fs projection Hin (HC := columnar_spec fs projection Hin Hne)) files c
    (pick projection <$> concat (rd ++ rw)) (S (length (concat (rd ++ rw))))) as (c' & s' & E & _); [|rewrite length_fmap; lia | eauto].
  exists (pick projection <$> concat rd), (pick projection <$> concat rw), (mkWalCursor (sn_wal_chunks sn) projection 0).
  split; [by rewrite concat_app, fmap_app|]. split; [done|]. split; [split; [done|]; exists rw; by rewrite drop_0|].
  exists d. split; [done|].
  split_and!; [done | done | unfold Columnar_Scan; simpl; destruct (Nat.eqb_spec (nf_batch_rows fmt) 0); lia |].
  exists [], (batch_raws fs tabs). split_and!; [done | done |]. cbn [app]. by rewrite concat_batch_raws, project_rows, Hcat.
Qed.

(** ** Property *)

(** C3. End to end: in every run over the native columnar format, scanning a
    snapshot that a client loaded returns, for every projection, exactly the
    projected rows of a prefix of the log, each once and in import order:
    whatever part of it the indexer has moved to data files, and whatever
    interleaving, conflicts and lost answers led there. (No data file was
    written twice; the files are shorter than 2^63 bytes; the rows of the prefix
    take less than 4 GiB, the reach of a column's 32-bit offsets.) *)
Theorem cloud_query_exact {hashes : Hashes} {hashes_spec : HashesSpec} {Zl : Zlib} {HZ : ZlibSpec} (fmt : FileFormat)
    (tb t : TableDescriptor) fuel cs keys w ts i l n probe sn :
  let fs := schema tb in
  nf_schema fmt = fs -> write_compression_ fmt = Compression_None \/ write_compression_ fmt = Compression_Zlib -> (forall b, compress2 b <> None) ->
  table_wf tb t -> Forall (client_ok tb) cs -> @reaches hashes (native_format fmt) fuel tb cs keys (w, ts) -> ts !! i = Some (Return (l, n)) ->
  (OpSnapshot probe, AnsSnapshot (Some sn)) ∈ l -> NoDup (written w).*1 -> (forall p b, files w !! p = Some b -> Z.of_nat (length b) < 2 ^ 63) ->
  exists L rss, log_part tb w L /\ Z.of_nat (length L) = sn_published sn + probed_wal_count sn /\ log_chunks L = chunk_of fs <$> rss /\
    (rows_fit fs (raws_of fs <$> concat rss) -> forall projection, in_schema fs projection ->
     exists s', CollectProjected (S (length (concat rss))) (Cloud_Scan (native_scan fmt) (mkSource fs sn)) projection (files w) =
       (Ok (pick projection <$> concat rss), s')).
Proof.
  intros fs Hfs Hcomp Htotal Htb Hcs Hr Hi Hin Hnd Hsize.
  destruct (@finished_ok hashes hashes_spec (native_format fmt) tb t Htb _ _ _ _ _ _ _ _ Hcs Hr Hi) as [HI [Ha _]].
  rewrite Forall_forall in Ha. destruct (Ha _ Hin) as (limit & _ & Hsn).
  destruct (@snapshot_records hashes (native_format fmt) tb t limit w sn HI Hsn) as (L & HL & Hlen & _ & Hparts).
  destruct (Hparts Hnd) as (parts & Hp & Hcat). destruct (log_chunk_rows tb w L HL) as (rss & Erss & Hok).
  exists L, rss. split_and!; auto. intros Hfit projection Hproj. rewrite Erss in Hcat. symmetry in Hcat.
  apply fmap_app_inv in Hcat as (rd & rw & Erd & Erw & ->). apply Forall_app in Hok as [Hrd Hrw].
  pose proof Hfit as Hfit'. rewrite concat_app, fmap_app in Hfit'. apply rows_fit_app in Hfit' as [Hfd _].
  destruct Htb as [_ _ _ (Hne & Hfv & _)].
  assert (Hv : Forall (fun f => f_type f <> Invalid) fs) by (eapply Forall_impl; [exact Hfv | by intros f (_ & ? & _)]).
  destruct (data_files_rows fs fmt Hfs Hcomp Htotal (files w) _ parts rd Hv Hrd Hfd Hsize Hp Erd) as (tabs & Htabs & Etabs).
  exact (source_scan_ok fs fmt sn rd rw tabs (files w) projection Hfs Hne Hproj Hrd Hrw Htabs Etabs Erw).
Qed.

(** The demonstration of the system, over the native format without
    compression. *)
Definition query_format : FileFormat := mkFormat demo_fs Compression_None 2.
Definition query_run := @run_clients demo_hashes (@native_format id_zlib query_format) 10 demo_table demo_clients demo_keys.
Definition query_system : system := match query_run with Some (l, w) => (w, Return <$> l) | None => (start_world [], []) end.

Lemma query_reaches : @reaches demo_hashes (@native_format id_zlib query_format) 10 demo_table demo_clients demo_keys (query_system.1, query_system.2).
Proof.
  rewrite <- (surjective_pairing query_system). unfold query_system. destruct query_run as [[l w]|] eqn:E; [|by vm_compute in E].
  by apply run_clients_reaches.
Qed.

(** What the first client was told, and its node. *)
Definition query_first : list (op * answer) * Node := Eval vm_compute in
  match query_system.2 !! 0%nat with
  | Some (Return x) => x
  | _ => ([], mkNode (Cloud.mkWriter demo_table demo_store 0 None 0) (mkIndexer demo_table demo_store 0) (mkCloudTable demo_table demo_policy 0))
  end.
Definition query_snapshot : TableSnapshot := Eval vm_compute in
  match query_first.1 !! 5%nat with Some (_, AnsSnapshot (Some sn)) => sn | _ => mkSnapshot "" 0 0 "" [] [] 0 0 [] 0 false end.

Lemma cloud_query_exact_witness : exists L rss, @log_part demo_hashes demo_table query_system.1 L /\ Z.of_nat (length L) = 3 /\
  log_chunks L = chunk_of demo_fs <$> rss.
Proof.
  destruct (@cloud_query_exact demo_hashes demo_hashes_spec id_zlib id_zlib_spec query_format demo_table demo_store 10 demo_clients demo_keys
    query_system.1 query_system.2 0 query_first.1 query_first.2 true query_snapshot) as (L & rss & HL & Hlen & Hrss & _).
  - done.
  - by left.
  - done.
  - apply demo_table_wf.
  - apply demo_clients_ok.
  - apply query_reaches.
  - by vm_compute.
  - apply (list_elem_of_lookup_2 _ 5). by vm_compute.
  - assert (Hw : (written query_system.1).*1 = ["files/t1/data/f1"]) by (by vm_compute). rewrite Hw. apply NoDup_singleton.
  - intros p b Hb. apply elem_of_map_to_list in Hb.
    assert (Hall : forallb (fun x => Z.of_nat (length x.2) <? 2 ^ 63) (map_to_list (files query_system.1)) = true) by (by vm_compute).
    apply forallb_Forall in Hall. rewrite Forall_forall in Hall. apply Z.ltb_lt. exact (Hall _ Hb).
  - exists L, rss. done.
Defined.
