(* ===== verification/CloudProgress.v ===== *)
(** * Progress: a writer that is left alone succeeds

    Whatever happened before, a writer that runs undisturbed takes the next
    epoch, fences the log and imports: the loops end, nothing throws, and the
    answers are the good ones. *)

From stdpp Require Import strings pretty sorting.
From S2P Require Import Prelude KeyCodec Table TableSpec Storage SeqCodec SeqCodecSpec WalSpec Cloud CloudLogic CloudInv CloudProto CloudIndex CloudSystem.
Import MemMetadataStore MetaRuns.
Open Scope Z_scope.

(** ** Undisturbed runs *)

Lemma exec_bind {A B} (p : prog A) (f : A -> prog B) w :
  exec (prog_bind p f) w = match exec p w with Some (a, w1) => exec (f a) w1 | None => None end.
Proof.
  revert w. induction p as [a|C c k IH]; intros w; [done|]. cbn [prog_bind exec]. destruct (small_b w); [|done].
  destruct (perform c w) as [r w1]. apply IH.
Qed.

(** Alone from [st] and [w], [m] returns [a] and leaves [st'] and [w']. *)
Definition alone {W A} (m : T W A) (st : W) (w : World) (a : A) (st' : W) (w' : World) : Prop := exec (m st) w = Some ((Ok a, st'), w').

Section Alone.

Context {W : Type}.
Implicit Types (st : W) (w : World).

Lemma alone_bind {A B} (m : T W A) (f : A -> T W B) st w a st1 w1 b st2 w2 :
  alone m st w a st1 w1 -> alone (f a) st1 w1 b st2 w2 -> alone (tbind m f) st w b st2 w2.
Proof. unfold alone, tbind. intros Hm Hf. rewrite exec_bind, Hm. exact Hf. Qed.

Lemma alone_ret {A} (a : A) st w : alone (tret a) st w a st w.
Proof. done. Qed.

Lemma alone_lift {A} (r : result A) a st w : r = Ok a -> alone (tlift r) st w a st w.
Proof. by intros ->. Qed.

Lemma alone_get st w : alone tget st w st st w.
Proof. done. Qed.

Lemma alone_put st' st w : alone (tput st') st w tt st' w.
Proof. done. Qed.

Lemma alone_call {B} (c : call B) st w b w' : Small w -> perform c w = (Ok b, w') -> alone (tcall c) st w b st w'.
Proof.
  intros [H1 H2] Hp. unfold alone, tcall. cbn [exec]. assert (small_b w = true) as -> by (unfold small_b; rewrite andb_true_iff, !Z.ltb_lt; done).
  by rewrite Hp.
Qed.

End Alone.

Create HintDb alone discriminated.
#[export] Hint Resolve alone_ret alone_get alone_put : alone.

Section Progress.

Context {hashes : Hashes} {hashes_spec : HashesSpec} {format : IFileFormat}.
Context (tb t : TableDescriptor) (Htb : table_wf tb t).

Abbreviation fs := (schema tb).
Abbreviation Inv := (CloudInv.Inv tb t).
Abbreviation cur := (CloudInv.cur t).
Abbreviation has_wal := (CloudInv.has_wal tb).
Abbreviation log_at := (CloudInv.log_at tb).
Abbreviation wkey := (CloudInv.wkey tb).

(** ** The calls of the store *)

Section Calls.

Context {W : Type}.
Implicit Types (st : W) (w : World).

Lemma load_alone w e s st : Inv w -> Small w -> cur w = Some e -> DecodeSequentialState (value e) = Ok s ->
  alone (Load t) st w (Some (mkVersionedState s (version e))) st w.
Proof.
  intros HI HS He Hd. eapply alone_bind; [apply (alone_call _ _ _ (Some e) w); [done|]|].
  { cbn [perform]. unfold on_meta, Get, gets. unfold CloudInv.cur in He. by destruct w; simpl in *; rewrite He. }
  cbv beta iota. eapply alone_bind; [by apply alone_lift|]. cbv beta. destruct (store_fields tb t Htb) as [Hid _].
  destruct HI as [_ (L & _ & _ & _ & Hc)]. rewrite He in Hc. destruct Hc as (s1 & Hs1 & Hk & _). assert (s1 = s) as -> by congruence.
  rewrite Hid, bool_decide_true by apply Hk. apply alone_ret.
Qed.

Lemma load_none_alone w st : Small w -> cur w = None -> alone (Load t) st w None st w.
Proof.
  intros HS He. eapply alone_bind; [apply (alone_call _ _ _ None w); [done|] | apply alone_ret].
  cbn [perform]. unfold on_meta, Get, gets. unfold CloudInv.cur in He. by destruct w; simpl in *; rewrite He.
Qed.

Lemma load_wal_alone w seq wal st : Small w -> has_wal w seq wal -> alone (LoadSequentialWal tb seq) st w (Some wal) st w.
Proof.
  intros HS (Hseq & b & Hb & Hst). pose proof Hst as (rss & Hok & _ & _ & Hl & Hs & Hid & _). pose proof (stored_decode tb b seq wal Hst) as Hd.
  unfold LoadSequentialWal. eapply alone_bind; [apply alone_lift, (wkey_ok tb t Htb); lia|]. cbv beta.
  eapply alone_bind; [apply (alone_call _ _ _ (Some (MemStorage.mkInput b)) w); [done|]|].
  { cbn [perform]. unfold on_files, MemStorage.OpenInput, gets. destruct w; simpl in *; by rewrite Hb. }
  cbv beta iota. eapply alone_bind; [by apply alone_lift, ReadAll_ok|]. eapply alone_bind; [by apply alone_lift|]. cbv beta.
  rewrite Hs, Z.eqb_refl, Hid, bool_decide_true, (wo_version _ _ _ Hok) by done. apply alone_ret.
Qed.

Lemma load_no_wal_alone w seq st : Small w -> 0 < seq -> files w !! wkey seq = None -> alone (LoadSequentialWal tb seq) st w None st w.
Proof.
  intros HS Hseq Hb. unfold LoadSequentialWal. eapply alone_bind; [apply alone_lift, (wkey_ok tb t Htb); lia|]. cbv beta.
  eapply alone_bind; [apply (alone_call _ _ _ None w); [done|] | apply alone_ret].
  cbn [perform]. unfold on_files, MemStorage.OpenInput, gets. destruct w; simpl in *; by rewrite Hb.
Qed.

(** CURRENT, just read, is replaced. *)
Lemma cas_alone w e s next st : Inv w -> Small w -> cur w = Some e -> DecodeSequentialState (value e) = Ok s -> state_known tb t w next ->
  state_version next = u64 (state_version s + 1) -> advances s next ->
  alone (StateStore_CompareExchange t (mkVersionedState s (version e)) next) st w
    (Applied, Some (mkVersionedState next (pretty (next_version_ (meta w))))) st (put_entry w (current_key t) (enc_state next)).
Proof.
  intros HI HS He Hd Hk Hv (A1 & A2 & A3). destruct (store_fields tb t Htb) as [Hid _]. unfold StateStore_CompareExchange. cbn [vs_state vs_version].
  pose proof (sk_valid _ _ _ _ Hk) as Hval. pose proof Hval as (_ & _ & Hip & _).
  rewrite Hid, bool_decide_true, Hv, Z.eqb_refl by apply Hk. cbn [negb orb].
  do 4 (match goal with |- context [Z.ltb ?a ?b] => destruct (Z.ltb_spec a b); [lia|] end). cbn [orb].
  eapply alone_bind; [apply alone_lift, EncodeSequentialState_iff; done|]. cbv beta.
  eapply alone_bind; [apply (alone_call _ _ _ (Applied, Some (pretty (next_version_ (meta w)))) (put_entry w (current_key t) (enc_state next))); [done|] | apply alone_ret].
  rewrite perform_cas by eauto using Inv_version. unfold CloudInv.cur in He. by rewrite He, bool_decide_false by (intros Hx; by apply Hx).
Qed.

Lemma create_alone w seq b st : Small w -> files w !! wkey seq = None ->
  alone (tcall (FileCreateIfAbsent (wkey seq) b)) st w Created st (mkWorld (meta w) (<[wkey seq := b]> (files w)) (fresh_keys w) (written w)).
Proof.
  intros HS Hn. apply alone_call; [done|]. cbn [perform]. unfold on_files, MemStorage.CreateIfAbsent, bind, get. by rewrite Hn.
Qed.

End Calls.

(** ** Room

    The counters of the stores have room for [k] more writes. *)

Definition room (k : Z) (w : World) : Prop := next_version_ (meta w) + k < 2 ^ 64 /\ Z.of_nat (size (files w)) + k < 2 ^ 63.

Lemma room_small k w : 1 <= k -> room k w -> Small w.
Proof. intros Hk [H1 H2]. split; lia. Qed.

(** ** The worlds after a write *)

(** CURRENT is read as [s]. *)
Definition current_is (w : World) (s : SequentialState) (v : MetadataVersion) : Prop :=
  exists e, cur w = Some e /\ version e = v /\ DecodeSequentialState (value e) = Ok s.

Lemma cas_world w s v next k : Inv w -> room k w -> 1 <= k -> current_is w s v -> state_known tb t w next -> advances s next ->
  let w' := put_entry w (current_key t) (enc_state next) in
  Inv w' /\ room (k - 1) w' /\ current_is w' next (pretty (next_version_ (meta w))).
Proof.
  intros HI Hroom Hk (e & He & <- & Hd) Hkn Hadv w'. assert (HS : Small w) by (by eapply room_small).
  pose proof (sk_valid _ _ _ _ Hkn) as Hval.
  assert (Hb : EncodeSequentialState next = Ok (enc_state next)) by (by apply EncodeSequentialState_iff).
  destruct (cas_ok tb t w _ next (enc_state next) HI HS (Inv_seen tb t w e s HI He Hd) Hb Hkn Hadv) as (HI' & _ & _).
  rewrite perform_cas in HI' by eauto using Inv_version. unfold CloudInv.cur in He. cbn [vs_version] in HI'.
  rewrite He, bool_decide_false in HI' by (intros Hx; by apply Hx). split; [exact HI'|]. destruct Hroom as [R1 R2]. split; [split; simpl; lia|].
  exists (mkVersioned (enc_state next) (pretty (next_version_ (meta w)))). split; [apply lookup_insert_eq|]. split; [done|].
  apply DecodeSequentialState_iff. split; [apply Hkn | done].
Qed.

Definition add_file (w : World) (path : string) (b : bytes) : World := mkWorld (meta w) (<[path := b]> (files w)) (fresh_keys w) (written w).

Lemma create_world w L b wal s v k : Inv w -> room k w -> 1 <= k -> log_at w L -> current_is w s v -> wal_epoch wal <= writer_epoch s ->
  Forall (fun x => wal_epoch x <= wal_epoch wal) L -> NoDup (batch_ids wal) -> (forall id, id ∈ batch_ids wal -> id ∉ concat (batch_ids <$> L)) ->
  stored_wal tb b (Z.of_nat (length L) + 1) wal ->
  let w' := add_file w (wkey (Z.of_nat (length L) + 1)) b in
  files w !! wkey (Z.of_nat (length L) + 1) = None /\ Inv w' /\ room (k - 1) w' /\ log_at w' (L ++ [wal]) /\ current_is w' s v.
Proof.
  intros HI Hroom Hk HL (e & He & Hv & Hd) Hep Heps Hnd Hids Hst w'. assert (HS : Small w) by (by eapply room_small).
  set (seq := Z.of_nat (length L) + 1) in *. pose proof (log_bound tb t Htb w L (proj1 HL) HS) as Hlen.
  assert (Hnone : files w !! wkey seq = None) by (apply HL; lia).
  assert (Hap : appendable tb t w seq wal L).
  { split; [apply HL | unfold seq; lia | done | by exists e, s | done]. }
  destruct (create_ok tb t Htb w seq wal L b HI HS ltac:(lia) Hap Hst) as (HI' & HR & r & Er & _).
  cbn [perform] in HI', HR. unfold on_files, MemStorage.CreateIfAbsent, bind, get in HI', HR. rewrite Hnone in HI', HR. cbn [fst snd put ret] in HI', HR.
  split; [done|]. split; [exact HI'|]. destruct Hroom as [R1 R2].
  split; [split; simpl; [lia | rewrite map_size_insert_None by done; lia]|]. split; [|by exists e]. destruct HL as [HL Hend]. split.
  - apply (log_snoc _ _ _ seq); [exact (log_part_mono tb t w w' L HR HL) | unfold seq; lia|]. split; [lia|]. exists b. split; [apply lookup_insert_eq | done].
  - intros q Hq. rewrite length_app in Hq. simpl in Hq. unfold w', add_file. cbn [files]. rewrite lookup_insert_ne; [apply Hend; lia|].
    intros E. apply (wkey_inj tb t Htb) in E; unfold seq in *; lia.
Qed.

(** ** Start *)

(** A started writer at the end of the log, with the CURRENT of the store. *)
Record poised (st : CloudTableWriter) (w : World) (L : list SequentialWal) (s : SequentialState) : Prop := {
  po_table : w_table st = tb;
  po_store : w_store st = t;
  po_inv : Inv w;
  po_log : log_at w L;
  po_next : next_seq_ st = Z.of_nat (length L) + 1;
  po_epoch : 0 < writer_epoch s < 2 ^ 64;
  po_current : exists v, current_is w s v /\ current_state_ st = Some (mkVersionedState s v);
}.

Lemma current_load {W} w s v (st : W) : Inv w -> Small w -> current_is w s v -> alone (Load t) st w (Some (mkVersionedState s v)) st w.
Proof. intros HI HS (e & He & <- & Hd). by apply load_alone. Qed.

Lemma finish_start_alone st w L s v epoch seq : w_table st = tb -> w_store st = t -> Inv w -> Small w -> log_at w L -> current_is w s v ->
  writer_epoch s = epoch -> 0 < epoch < 2 ^ 64 -> seq = Z.of_nat (length L) -> seq < 2 ^ 63 ->
  exists st', alone (finish_start t epoch seq) st w (mkStartResult Started epoch) st' w /\ poised st' w L s /\ max_publish_attempts_ st' = max_publish_attempts_ st.
Proof.
  intros Ht Hs HI HS HL Hc He Hpos Hseq Hb. exists (set_next (u64 (seq + 1)) (set_current (Some (mkVersionedState s v)) st)). split_and!.
  - eapply alone_bind; [by apply current_load|]. cbv beta. eapply alone_bind; [apply alone_get|]. cbv beta. cbn [vs_state].
    rewrite He, Z.eqb_refl. eapply alone_bind; [apply alone_put | apply alone_ret].
  - split; auto; [simpl; rewrite u64_small by lia; lia | by rewrite He | by exists v].
  - done.
Qed.

Lemma log_record w L q : log_at w L -> 0 < q <= Z.of_nat (length L) -> exists wal, has_wal w q wal.
Proof.
  intros [HL _] Hq. destruct (lookup_lt_is_Some_2 L (Z.to_nat (q - 1))) as [wal Hw]; [lia|]. exists wal. specialize (HL _ _ Hw).
  by replace (Z.of_nat (Z.to_nat (q - 1)) + 1) with q in HL by lia.
Qed.

Lemma fence_alone fuel : forall st w L s v seq k, w_table st = tb -> w_store st = t -> Inv w -> room k w -> 2 <= k -> log_at w L -> current_is w s v ->
  0 < writer_epoch s < 2 ^ 64 -> indexed_seq s < seq <= Z.of_nat (length L) + 1 -> 0 <= indexed_seq s -> Z.of_nat (length L) + 1 - seq < Z.of_nat fuel ->
  exists st' w' wal, alone (write_fence fuel tb t (writer_epoch s) seq) st w (mkStartResult Started (writer_epoch s)) st' w' /\
    poised st' w' (L ++ [wal]) s /\ room (k - 1) w' /\ kind wal = KFence /\ max_publish_attempts_ st' = max_publish_attempts_ st.
Proof.
  induction fuel as [|fuel IH]; intros st w L s v seq k Ht Hs HI Hroom Hk HL Hc Hep Hseq Hix Hfuel; [lia|].
  assert (HS : Small w) by (apply (room_small k); [lia | done]). pose proof (log_bound tb t Htb w L (proj1 HL) HS) as Hlen.
  assert (Hadj : (if seq <=? indexed_seq s then u64 (indexed_seq s + 1) else seq) = seq) by (destruct (Z.leb_spec seq (indexed_seq s)); lia).
  destruct (decide (seq <= Z.of_nat (length L))) as [Hin|Hout].
  - destruct (log_record w L seq HL) as [x Hx]; [lia|].
    destruct (IH st w L s v (u64 (seq + 1)) k) as (st' & w' & wal & E & H); try done; try (rewrite u64_small by lia; lia).
    exists st', w', wal. split; [|done]. cbn [write_fence]. eapply alone_bind; [by apply current_load|]. cbv beta iota zeta. cbn [vs_state].
    rewrite Z.eqb_refl, Hadj. cbn [negb]. eapply alone_bind; [by apply load_wal_alone|]. exact E.
  - assert (seq = Z.of_nat (length L) + 1) as -> by lia.
    destruct (fence_stored tb t Htb (writer_epoch s) (Z.of_nat (length L) + 1)) as (b & Eb & Hst); [lia | done|].
    set (wal := with_digest (wal_digest fs [] []) (fence_wal tb (writer_epoch s) (Z.of_nat (length L) + 1))) in *.
    pose proof Hc as (e & He & _ & Hd).
    destruct (create_world w L b wal s v k HI Hroom) as (Hnone & HI' & Hroom' & HL' & Hc'); auto; [lia | simpl; lia | | constructor | by intros id ?%not_elem_of_nil|].
    { exact (epochs_bounded tb t w L e s HI (proj1 HL) He Hd). }
    destruct (finish_start_alone st _ (L ++ [wal]) s v (writer_epoch s) (Z.of_nat (length L) + 1) Ht Hs HI') as (st' & E & Hpo & Hm); auto.
    { apply (room_small (k - 1)); [lia | done]. } { rewrite length_app. simpl. lia. }
    { pose proof (log_small tb t Htb w L (proj1 HL)). destruct Hroom. lia. }
    exists st', (add_file w (wkey (Z.of_nat (length L) + 1)) b), wal. split; [|by split_and!]. cbn [write_fence].
    eapply alone_bind; [by apply current_load|]. cbv beta iota zeta. cbn [vs_state]. rewrite Z.eqb_refl, Hadj. cbn [negb].
    eapply alone_bind; [by apply load_no_wal_alone; [|lia|]|]. cbv beta iota. eapply alone_bind; [by apply alone_lift|]. cbv beta.
    eapply alone_bind; [apply alone_lift, (wkey_ok tb t Htb); lia|]. cbv beta. eapply alone_bind; [by apply create_alone|]. exact E.
Qed.

(** What [Start] ends in: the next epoch, and a fence at the end of the log. *)
Definition starts (m : T CloudTableWriter CloudWriterStartResult) (st : CloudTableWriter) (w : World) (L : list SequentialWal) (epoch k : Z) : Prop :=
  exists st' w' wal s', alone m st w (mkStartResult Started epoch) st' w' /\ poised st' w' (L ++ [wal]) s' /\ kind wal = KFence /\
    writer_epoch s' = epoch /\ room k w' /\ max_publish_attempts_ st' = max_publish_attempts_ st.

Lemma start_from_alone fuel st w L s v k : w_table st = tb -> w_store st = t -> (0 < max_publish_attempts_ st)%nat -> Inv w -> room k w -> 3 <= k ->
  log_at w L -> current_is w s v -> writer_epoch s < UINT64_MAX -> (length L < fuel)%nat ->
  starts (start_from fuel st (mkVersionedState s v)) st w L (writer_epoch s + 1) (k - 2).
Proof.
  intros Ht Hs Hatt HI Hroom Hk HL Hc Hmax Hfuel. unfold UINT64_MAX in Hmax. assert (HS : Small w) by (apply (room_small k); [lia | done]).
  pose proof Hc as (e & He & Hv & Hd). pose proof (Inv_seen tb t w e s HI He Hd) as [Hk0 _]. cbn [vs_state] in Hk0.
  pose proof (sk_fields _ _ _ _ Hk0) as (_ & _ & Fe & Fi & _). unfold in_bits in Fe, Fi.
  set (next := bump_version s (writer_epoch s + 1) (indexed_seq s) (published_seq s) (manifest_key s)).
  assert (Hkn : state_known tb t w next).
  { destruct (sk_published _ _ _ _ Hk0) as (Lp & HLp & Hn). eapply known_bump; eauto; [unfold in_bits; lia|].
    by destruct (sk_valid _ _ _ _ Hk0) as (_ & _ & ? & _). }
  destruct (sk_manifest _ _ _ _ Hk0) as (m & es & Lm & Hm). destruct Hm as (_ & _ & _ & _ & _ & _ & HLm & Hnm & _).
  destruct (log_part_prefix tb w Lm L HLm HL) as [rest ->]. rewrite length_app in Hfuel. pose proof (log_bound tb t Htb w _ (proj1 HL) HS) as Hlen.
  rewrite length_app in Hlen. assert (Hadv : advances s next) by (split_and!; simpl; lia).
  destruct (cas_world w s v next k HI Hroom ltac:(lia) Hc Hkn Hadv) as (HI1 & Hroom1 & Hc1).
  destruct (fence_alone fuel st _ (Lm ++ rest) next _ (u64 (indexed_seq s + 1)) (k - 1) Ht Hs HI1 Hroom1 ltac:(lia) HL Hc1)
    as (st' & w' & wal & E & Hpo & Hroom' & Hkind & Hm').
  { simpl. lia. } { rewrite u64_small, length_app by lia. simpl. lia. } { simpl. lia. } { rewrite u64_small, length_app by lia. lia. }
  exists st', w', wal, next. split_and!; auto; [|replace (k - 2) with (k - 1 - 1) by lia; done].
  unfold start_from. rewrite Ht, Hs. destruct (max_publish_attempts_ st) as [|n]; [lia|].
  eapply alone_bind with (a := inr (mkVersionedState next (pretty (next_version_ (meta w))))); [|exact E].
  cbn [acquire_epoch vs_state]. destruct (Z.eqb_spec (writer_epoch s) UINT64_MAX) as [Hx|_]; [unfold UINT64_MAX in Hx; lia|].
  cbv zeta. subst v. eapply alone_bind; [by apply cas_alone|]. apply alone_ret.
Qed.

(** A new table. *)
Lemma initial_encodes : exists bm b, EncodeSequentialManifest (initial_manifest t) = Ok bm /\ EncodeSequentialState (initial_state t) = Ok b.
Proof.
  destruct (store_fields tb t Htb) as [Hid Hsc]. pose proof (fits_id tb t Htb) as Hf. destruct Htb as [_ _ [Hne Hl] (H1 & H2 & H3)].
  exists (enc_manifest (initial_manifest t)), (enc_state (initial_state t)). split.
  - apply EncodeSequentialManifest_iff. split; [|done]. split; simpl; rewrite ?Hid, ?Hsc; try done; repeat split; constructor.
  - apply EncodeSequentialState_iff. split; [|done]. unfold initial_state. rewrite Hid. split_and!; try done.
Qed.

Lemma initialize_alone {W} (st : W) w k : Inv w -> room k w -> 2 <= k -> cur w = None -> entries_ (meta w) !! meta_key t initial_key = None ->
  exists w' v, alone (Initialize t) st w Applied st w' /\ Inv w' /\ room (k - 2) w' /\ current_is w' (initial_state t) v /\ log_at w' [].
Proof.
  intros HI [R1 R2] Hk Hcur Hman. destruct initial_encodes as (bm & b & Em & Es).
  assert (HS : Small w) by (split; lia). destruct (add_meta tb t w initial_key bm HI HS ltac:(done) Hman) as (HI1 & HR1 & Hm1).
  set (w1 := put_entry w (meta_key t initial_key) bm) in *. assert (HS1 : Small w1) by (split; simpl; lia).
  assert (Hcur1 : entries_ (meta w1) !! current_key t = None).
  { unfold w1. simpl. rewrite lookup_insert_ne; [exact Hcur|]. intros E. by apply meta_key_inj in E. }
  destruct (put_current_ok tb t Htb w1 bm b HI1 HS1 Hm1 Em Es) as [HI2 _]. rewrite perform_put in HI2 by eauto using Inv_version. rewrite Hcur1 in HI2.
  exists (put_entry w1 (current_key t) b), (pretty (next_version_ (meta w1))). split_and!.
  - assert (P1 : perform (MetaPutIfAbsent (meta_key t initial_key) bm) w = (Ok (Applied, Some (pretty (next_version_ (meta w)))), w1))
      by (rewrite perform_put by eauto using Inv_version; by rewrite Hman).
    assert (P2 : perform (MetaPutIfAbsent (current_key t) b) w1 = (Ok (Applied, Some (pretty (next_version_ (meta w1)))), put_entry w1 (current_key t) b))
      by (rewrite perform_put by eauto using Inv_version; by rewrite Hcur1).
    eapply alone_bind; [eapply alone_bind; [by apply alone_lift|]; eapply alone_bind; [exact (alone_call _ _ _ _ _ HS P1) | apply alone_ret]|].
    cbv beta iota. eapply alone_bind; [by apply alone_lift|]. eapply alone_bind; [exact (alone_call _ _ _ _ _ HS1 P2) | apply alone_ret].
  - exact HI2.
  - split; simpl; lia.
  - exists (mkVersioned b (pretty (next_version_ (meta w1)))). split; [apply lookup_insert_eq|]. split; [done|].
    apply DecodeSequentialState_iff. split; [by split_and! | done].
  - destruct HI as [_ (L & HL & _ & _ & Hc)]. rewrite Hcur in Hc. by subst L.
Qed.

(** A writer that is not started, alone, starts: on a table with a CURRENT whose
    epoch is not the last one, or on a table that was never initialised. *)
Definition epoch_of (w : World) (epoch : Z) : Prop :=
  (exists s v, current_is w s v /\ writer_epoch s = epoch) \/ (cur w = None /\ entries_ (meta w) !! meta_key t initial_key = None /\ epoch = 0).

Lemma start_alone fuel st w L epoch k : w_table st = tb -> w_store st = t -> current_state_ st = None -> (0 < max_publish_attempts_ st)%nat ->
  Inv w -> room k w -> 5 <= k -> log_at w L -> epoch_of w epoch -> epoch < UINT64_MAX -> (length L < fuel)%nat ->
  starts (Start fuel) st w L (epoch + 1) (k - 4).
Proof.
  intros Ht Hs Hcs Hatt HI Hroom Hk HL [(s & v & Hc & <-)|(Hcur & Hman & ->)] Hmax Hfuel; assert (HS : Small w) by (apply (room_small k); [lia | done]).
  - destruct (start_from_alone fuel st w L s v k) as (st' & w' & wal & s' & E & Hpo & Hkind & Hep & Hroom' & Hm); auto; [lia|].
    exists st', w', wal, s'. split_and!; auto; [|destruct Hroom'; split; lia]. eapply alone_bind; [apply alone_get|]. cbv beta. rewrite Hcs, Hs.
    eapply alone_bind; [by apply current_load | exact E].
  - destruct (initialize_alone st w k HI Hroom ltac:(lia) Hcur Hman) as (w1 & v & E1 & HI1 & Hroom1 & Hc1 & HL1).
    assert (L = []) as -> by (destruct HI as [_ (L0 & HL0 & _ & _ & Hc)]; rewrite Hcur in Hc; subst L0; by destruct (log_part_prefix tb w L [] (proj1 HL) HL0) as [k0 [-> _]%eq_sym%app_eq_nil]).
    destruct (start_from_alone fuel st w1 [] (initial_state t) v (k - 2)) as (st' & w' & wal & s' & E & Hpo & Hkind & Hep & Hroom' & Hm); auto; [lia|].
    exists st', w', wal, s'. split_and!; auto; [|by replace (k - 4) with (k - 2 - 2) by lia]. eapply alone_bind; [apply alone_get|]. cbv beta. rewrite Hcs, Hs.
    eapply alone_bind; [by apply load_none_alone|]. cbv beta iota. eapply alone_bind; [exact E1|]. cbv beta iota.
    eapply alone_bind; [apply current_load; [done | apply (room_small (k - 2)); [lia | done] | done] | exact E].
Qed.

(** ** Import *)

Lemma get_meta_alone {W} (st : W) w key b : Small w -> has_meta t w key b ->
  exists e, value e = b /\ alone (tcall (MetaGet (meta_key t key))) st w (Some e) st w.
Proof.
  intros HS (_ & e & He & Hv). exists e. split; [done|]. apply alone_call; [done|]. cbn [perform]. unfold on_meta, Get, gets.
  by destruct w; simpl in *; rewrite He.
Qed.

Lemma load_manifest_alone {W} (st : W) w s m es L : Small w -> state_valid s -> manifest_of tb t w s m es L -> alone (LoadManifest t s) st w m st w.
Proof.
  intros HS Hv ((b & Hb & Hd) & Hid & Hcov & Hver & Hsc & _). destruct (get_meta_alone st w _ b HS Hb) as (e & <- & E).
  eapply alone_bind; [exact E|]. cbv beta iota. eapply alone_bind; [by apply alone_lift|]. cbv beta.
  destruct (store_fields tb t Htb) as [Hti Hts], Hv as (_ & _ & _ & Hsv & _).
  rewrite Hid, Hti, Hts, Hcov, Hver, Hsv, Hsc, bool_decide_true, !Z.eqb_refl, SchemasEqual_refl by done. apply alone_ret.
Qed.

Lemma load_index_alone {W} (st : W) w keys parts : Small w -> index_parts t w keys parts -> alone (load_index_files t keys) st w (concat parts) st w.
Proof.
  intros HS Hp. induction Hp as [|key part keys parts (b & Hb & Hd) _ IH]; [apply alone_ret|]. cbn [load_index_files].
  destruct (get_meta_alone st w _ b HS Hb) as (e & <- & E). eapply alone_bind; [exact E|]. cbv beta iota.
  eapply alone_bind; [by apply alone_lift|]. eapply alone_bind; [exact IH | apply alone_ret].
Qed.

(** The records behind the index, read to the end of the log. *)
Lemma scan_alone w L (HS : Small w) (HL : log_at w L) n : forall known L1 L2 (st : CloudTableWriter), L = L1 ++ L2 -> n = length L2 ->
  known_ok known (log_entries L1) ->
  exists known', alone (scan_wals n tb (Z.of_nat (length L1) + 1) known) st w (Some known') st w /\ known_ok known' (log_entries L).
Proof.
  pose proof (log_bound tb t Htb w L (proj1 HL) HS) as Hlen.
  induction n as [|n IH]; intros known L1 [|x L2] st -> Hn Hk; simpl in Hn; try lia.
  { exists known. rewrite app_nil_r. split; [apply alone_ret | done]. }
  rewrite length_app in Hlen. simpl in Hlen.
  destruct (IH (emplace_all (wal_entries x (Z.of_nat (length L1) + 1)) known) (L1 ++ [x]) L2 st) as (known' & E & Hk'); [by rewrite <- app_assoc | lia | |].
  { rewrite log_entries_snoc. by apply (emplace_all_ok tb t Htb). }
  exists known'. split; [|done]. cbn [scan_wals]. eapply alone_bind; [apply load_wal_alone; [done|]|].
  { apply (proj1 HL (length L1)). by apply list_lookup_middle. }
  cbv beta iota. rewrite u64_small by lia. rewrite length_app in E. simpl in E. by replace (Z.of_nat (length L1) + 1 + 1) with (Z.of_nat (length L1 + 1) + 1) by lia.
Qed.

Lemma check_new known op digest ids : (forall id, id ∈ ids -> known !! id = None) -> check_known known op digest ids 0 0 = Some (0%nat, 0).
Proof.
  induction ids as [|id ids IH]; intros Hn; [done|]. cbn [check_known]. rewrite (Hn id) by (by left). apply IH. intros x Hx. apply Hn. by right.
Qed.

(** Publishing the last record of the log. *)
Lemma publish_alone st w L s v k : w_store st = t -> (0 < max_publish_attempts_ st)%nat -> Inv w -> room k w -> 2 <= k -> log_at w L ->
  current_is w s v -> published_seq s < Z.of_nat (length L) -> current_state_ st = Some (mkVersionedState s v) ->
  exists s' v' w', let st' := set_current (Some (mkVersionedState s' v')) st in
    alone (Publish (Z.of_nat (length L)) (writer_epoch s)) st w (mkImportResult Committed (writer_epoch s) (Z.of_nat (length L)) (Z.of_nat (length L))) st' w' /\
    Inv w' /\ room (k - 1) w' /\ log_at w' L /\ current_is w' s' v' /\ writer_epoch s' = writer_epoch s.
Proof.
  intros Hst Hatt HI Hroom Hk HL Hc Hpub Hcs. assert (HS : Small w) by (apply (room_small k); [lia | done]).
  pose proof Hc as (e & He & Hv & Hd). destruct (Inv_seen tb t w e s HI He Hd) as [Hk0 _]. cbn [vs_state] in Hk0.
  pose proof (sk_valid _ _ _ _ Hk0) as (_ & _ & Hip & _).
  set (next := bump_version s (writer_epoch s) (indexed_seq s) (Z.of_nat (length L)) (manifest_key s)).
  assert (Hkn : state_known tb t w next) by (eapply known_bump; eauto; [apply (sk_fields _ _ _ _ Hk0) | apply HL | lia]).
  assert (Hadv : advances s next) by (split_and!; simpl; lia).
  destruct (cas_world w s v next k HI Hroom ltac:(lia) Hc Hkn Hadv) as (HI1 & Hroom1 & Hc1).
  exists next, (pretty (next_version_ (meta w))), (put_entry w (current_key t) (enc_state next)). split; [|by split_and!].
  eapply alone_bind with (a := mkImportResult ImportConflict (writer_epoch s) (published_seq s) (Z.of_nat (length L))); [|].
  { eapply alone_bind; [apply alone_get|]. cbv beta. rewrite Hcs. apply alone_ret. }
  eapply alone_bind; [apply alone_get|]. cbv beta. rewrite Hst. destruct (max_publish_attempts_ st) as [|n]; [lia|]. cbn [publish_loop].
  eapply alone_bind; [by apply current_load|]. cbv beta iota zeta. cbn [vs_state]. eapply alone_bind; [apply alone_get|]. cbv beta.
  destruct (Z.leb_spec (Z.of_nat (length L)) (published_seq s)); [lia|]. rewrite Z.eqb_refl. cbn [negb]. subst v.
  eapply alone_bind; [by apply cas_alone|]. cbv beta iota. eapply alone_bind; [apply alone_put|]. cbv beta.
  eapply alone_bind; [apply alone_get | apply alone_ret].
Qed.

(** The record a batch becomes. *)
Definition import_record (batch : CloudImportBatch) (rss : list (list (list Value))) (seq epoch : Z) : SequentialWal :=
  with_digest (wal_digest fs (b_ids batch) rss) (import_wal tb seq epoch batch).

Definition new_to (batch : CloudImportBatch) (L : list SequentialWal) : Prop := forall id, id ∈ b_ids batch -> id ∉ concat (batch_ids <$> L).

(** [m] commits the batch as the next record and leaves a poised writer. *)
Definition commits (m : T CloudTableWriter CloudImportResult) (st : CloudTableWriter) (w : World) (L : list SequentialWal) batch rss (epoch k : Z) : Prop :=
  let seq := Z.of_nat (length L) + 1 in
  exists st' w' s', alone m st w (mkImportResult Committed epoch seq seq) st' w' /\ poised st' w' (L ++ [import_record batch rss seq epoch]) s' /\
    writer_epoch s' = epoch /\ room k w' /\ max_publish_attempts_ st' = max_publish_attempts_ st.

Lemma published_bound w L s v : Inv w -> log_at w L -> current_is w s v -> published_seq s <= Z.of_nat (length L).
Proof.
  intros HI HL (e & He & _ & Hd). destruct (Inv_seen tb t w e s HI He Hd) as [Hk _]. destruct (sk_published _ _ _ _ Hk) as (Lp & HLp & Hn).
  destruct (log_part_prefix tb w Lp L HLp HL) as [r ->]. rewrite length_app. cbn [vs_state] in Hn. lia.
Qed.

Lemma append_alone batch rss st w L s k : IsValidBatch tb batch = true -> batch_wf tb batch rss -> immediate batch = true -> poised st w L s ->
  (0 < max_publish_attempts_ st)%nat -> room k w -> 3 <= k -> new_to batch L ->
  commits (append_wal batch (writer_epoch s)) st w L batch rss (writer_epoch s) (k - 2).
Proof.
  intros Hv Hwf Him [Ht Hs HI HL Hnx Hep (v & Hc & Hcs)] Hatt Hroom Hk Hnew. assert (HS : Small w) by (apply (room_small k); [lia | done]).
  pose proof (log_bound tb t Htb w L (proj1 HL) HS) as Hlen. set (seq := Z.of_nat (length L) + 1) in *.
  destruct (import_stored tb t Htb batch rss seq (writer_epoch s) Hv Hwf) as (b & Eb & Hst); [lia | done|].
  fold (import_record batch rss seq (writer_epoch s)) in Hst. set (wal := import_record batch rss seq (writer_epoch s)) in *.
  pose proof Hc as (e & He & _ & Hd). pose proof (published_bound w L s v HI HL Hc) as Hpub.
  destruct (create_world w L b wal s v k HI Hroom) as (Hnone & HI1 & Hroom1 & HL1 & Hc1); auto; [lia | simpl; lia | | |].
  { exact (epochs_bounded tb t w L e s HI (proj1 HL) He Hd). }
  { unfold IsValidBatch in Hv. rewrite !andb_true_iff in Hv. destruct Hv as [[_ Hdi] _]. by apply (distinct_ids_ok tb t Htb) in Hdi as (? & _). }
  fold seq in Hnone, HI1, Hroom1, HL1, Hc1. set (w1 := add_file w (wkey seq) b) in *.
  assert (Hl1 : Z.of_nat (length (L ++ [wal])) = seq) by (rewrite length_app; simpl; lia).
  destruct (publish_alone (set_next (seq + 1) st) w1 (L ++ [wal]) s v (k - 1)) as (s' & v' & w' & E & HI' & Hroom' & HL' & Hc' & Hep'); auto; [lia | rewrite Hl1; unfold seq; lia|].
  rewrite Hl1 in E. exists (set_current (Some (mkVersionedState s' v')) (set_next (seq + 1) st)), w', s'. split_and!; auto; cycle 1.
  { split; auto; [simpl; rewrite length_app; simpl; unfold seq; lia | by rewrite Hep' | by exists v']. }
  { by replace (k - 2) with (k - 1 - 1) by lia. }
  eapply alone_bind; [apply alone_get|]. cbv beta. rewrite Hnx, Ht. destruct (Z.eqb_spec seq UINT64_MAX) as [Hx|_]; [unfold UINT64_MAX in Hx; lia|].
  cbv zeta. eapply alone_bind; [apply alone_lift, (wkey_ok tb t Htb); simpl; lia|]. cbv beta. rewrite Eb.
  eapply alone_bind; [apply create_alone; done|]. cbv beta iota. eapply alone_bind; [apply alone_get|]. cbv beta.
  eapply alone_bind; [apply alone_put|]. cbv beta. rewrite Him, Hnx, u64_small by lia. exact E.
Qed.

(** A poised writer that is left alone commits a new batch. *)
Lemma import_alone batch rss st w L s k : IsValidBatch tb batch = true -> batch_wf tb batch rss -> immediate batch = true -> poised st w L s ->
  (0 < max_publish_attempts_ st)%nat -> room k w -> 3 <= k -> new_to batch L ->
  commits (Import batch) st w L batch rss (writer_epoch s) (k - 2).
Proof.
  intros Hv Hwf Him Hpo Hatt Hroom Hk Hnew. assert (HS : Small w) by (apply (room_small k); [lia | done]).
  destruct (append_alone batch rss st w L s k) as (st' & w' & s' & E & H); auto. exists st', w', s'. split; [|exact H]. clear H.
  destruct Hpo as [Ht Hs HI HL Hnx Hep (v & Hc & Hcs)]. pose proof (log_bound tb t Htb w L (proj1 HL) HS) as Hlen.
  pose proof Hc as (e & He & _ & Hd). destruct (Inv_seen tb t w e s HI He Hd) as [[_ _ Hsv _ (m & es & Lm & Hm)] _]. cbn [vs_state] in *.
  pose proof Hm as (_ & _ & _ & _ & _ & (parts & Hp & ->) & HLm & Hnm & Hes & _). destruct (log_part_prefix tb w Lm L HLm HL) as [L2 HL2].
  destruct (import_stored tb t Htb batch rss 1 1 Hv Hwf) as (b & Eb & Hst); [lia | lia|].
  assert (Hst1 : set_current (Some (mkVersionedState s v)) st = st) by (destruct st; simpl in *; by rewrite Hcs).
  destruct (scan_alone w L HS HL (length L2) (emplace_all (concat parts) ∅) Lm L2 st HL2 eq_refl) as (known & Es & Hkn).
  { eapply known_ext; [exact Hes|]. change (concat parts) with ([] ++ concat parts) at 2. apply (emplace_all_ok tb t Htb).
    split; [done | by intros e' ?%not_elem_of_nil]. }
  assert (Hno : forall id, id ∈ b_ids batch -> known !! id = None).
  { intros id Hid. destruct (known !! id) as [x|] eqn:Ex; [|done]. destruct Hkn as [Hkn _]. destruct (Hkn id x Ex) as [Hbi Hin].
    destruct (Hnew id Hid). apply in_log_ids. by exists x. }
  eapply alone_bind; [apply alone_get|]. cbv beta. rewrite Hcs, Ht, Hs, Hv. cbn [negb]. eapply alone_bind; [by apply current_load|]. cbv beta iota.
  cbn [vs_state]. rewrite Z.eqb_refl. cbn [negb]. eapply alone_bind; [apply alone_put|]. cbv beta. rewrite Hst1.
  eapply alone_bind; [by apply alone_lift|]. cbv beta. eapply alone_bind; [by apply alone_lift, (stored_decode tb b 1)|]. cbv beta.
  eapply alone_bind; [by eapply load_manifest_alone|]. cbv beta. eapply alone_bind; [by apply load_index_alone|]. cbv beta zeta.
  assert (Hln : Z.of_nat (length Lm) + Z.of_nat (length L2) = Z.of_nat (length L)) by (rewrite HL2, length_app; lia).
  rewrite u64_small, Hnx, <- Hnm by lia. replace (Z.to_nat _) with (length L2) by lia. eapply alone_bind; [exact Es|]. cbv beta iota.
  unfold import_known. rewrite check_new by done. destruct (Nat.eqb_spec 0 (length (b_ids batch))) as [Hz|_]; [|exact E].
  unfold IsValidBatch in Hv. by rewrite <- Hz in Hv.
Qed.

End Progress.

(** ** Properties *)

Section Theorems.

Context {hashes : Hashes} {hashes_spec : HashesSpec} {format : IFileFormat}.

(** A new writer, after any run, left alone. *)
Lemma new_writer_starts (tb t : TableDescriptor) fuel0 cs keys w ts attempts wr epoch fuel L :
  table_wf tb t -> Forall (client_ok tb) cs -> reaches fuel0 tb cs keys (w, ts) -> Writer_new tb attempts = Ok wr -> room 7 w -> log_at tb w L ->
  epoch_of t w epoch -> epoch < UINT64_MAX -> (size (files w) < fuel)%nat -> (0 < max_publish_attempts_ wr)%nat /\
  starts tb t (Start fuel) wr w L (epoch + 1) 3.
Proof.
  intros Htb Hcs Hr Hw Hroom HL He Hmax Hfuel. destruct (system_sound tb t Htb fuel0 cs keys _ Hcs Hr) as [HI _].
  pose proof (log_small tb t Htb w L (proj1 HL)) as Hn. unfold Writer_new in Hw. rewrite (tw_store _ _ Htb) in Hw. cbn [result_bind] in Hw.
  destruct (Nat.eqb_spec attempts 0); [done|]. injection Hw as <-. split; [simpl; lia|].
  apply (start_alone tb t Htb fuel _ w L epoch 7); auto; [simpl; lia | lia | lia].
Qed.



End Theorems.

(** ** The demonstration goes on: a third writer *)

Definition demo_world : World := demo_system.1.
Definition demo_writer : CloudTableWriter := mkWriter demo_table demo_store 3 None 0.

Lemma demo_epoch : epoch_of demo_store demo_world 2.
Proof.
  assert (Hx : match cur demo_store demo_world with
               | Some e => match DecodeSequentialState (value e) with Ok s => writer_epoch s | Fail _ => 0 end
               | None => 0
               end = 2) by (by vm_compute).
  left. destruct (cur demo_store demo_world) as [e|] eqn:He; [|discriminate Hx].
  destruct (DecodeSequentialState (value e)) as [s|] eqn:Hs; [|discriminate Hx].
  exists s, (version e). split; [|exact Hx]. exists e. split; [exact He|]. split; [reflexivity | exact Hs].
Qed.


