(* ===== verification/S3.v ===== *)
(** * The S3 adapters

    Models [Cloud/S3]: request signing ([Sigv4]), the HTTP client ([S3Client]),
    and the adapters [S3FileStorage] and [S3MetadataStore] that make an object
    store a byte storage and a metadata store. libcurl, the clock and OpenSSL are
    parameters: a transfer is [curl_perform], from a request to what the
    callbacks were given. A [std::string] that holds text is a [string], a
    payload or a digest is [bytes]. *)

From Stdlib Require Import Ascii.
From stdpp Require Import strings pretty sorting.
From S2P Require Import Prelude Storage SeqCodec.
Open Scope Z_scope.

Abbreviation MetadataVersion := MemMetadataStore.MetadataVersion.
Abbreviation VersionedValue := MemMetadataStore.VersionedValue.
Abbreviation ConditionalWriteResult := MemMetadataStore.ConditionalWriteResult.

(** Characters, as unsigned. *)
Definition code (c : ascii) : Z := Z.of_N (N_of_ascii c).

(** [HMAC(EVP_sha256(), ...)]: key and data. *)
Class Hmac := { HMAC : bytes -> bytes -> bytes }.

(** ** Sigv4 *)

Module Sigv4.

Definition kHex : string := "0123456789abcdef".
Definition kHexUpper : string := "0123456789ABCDEF".

(** [table[i]] on a table of sixteen characters. *)
Definition nibble (table : string) (i : Z) : ascii := default zero (String.get (Z.to_nat i) table).

Definition IsUnreserved (c : ascii) : bool :=
  let c := code c in
  ((code "A" <=? c) && (c <=? code "Z")) || ((code "a" <=? c) && (c <=? code "z")) || ((code "0" <=? c) && (c <=? code "9")) ||
  (c =? code "-") || (c =? code "_") || (c =? code ".") || (c =? code "~").

Fixpoint HexEncode (b : bytes) : string :=
  match b with
  | [] => ""
  | c :: b =>
      let c := byte_to_Z c in
      String (nibble kHex (Z.shiftr c 4)) (String (nibble kHex (Z.land c 15)) (HexEncode b))
  end.

Definition Sha256Hex `{!Hashes} (data : bytes) : string := HexEncode (SHA256 data).

Definition HmacSha256 `{!Hmac} (key data : bytes) : bytes := HMAC key data.

Fixpoint UriEncode (value : string) (encode_slash : bool) : string :=
  match value with
  | EmptyString => ""
  | String c value =>
      if IsUnreserved c || (bool_decide (c = "/"%char) && negb encode_slash) then String c (UriEncode value encode_slash)
      else String "%" (String (nibble kHexUpper (Z.shiftr (code c) 4)) (String (nibble kHexUpper (Z.land (code c) 15)) (UriEncode value encode_slash)))
  end.

(** [gmtime_r], for the proleptic Gregorian calendar, and the two [strftime]
    formats. *)
Record tm := mkTm { tm_year : Z; tm_mon : Z; tm_mday : Z; tm_hour : Z; tm_min : Z; tm_sec : Z }.

Definition gmtime (t : Z) : tm :=
  let days := t / 86400 + 719468 in
  let sec := t mod 86400 in
  let era := days / 146097 in
  let doe := days mod 146097 in
  let yoe := (doe - doe / 1460 + doe / 36524 - doe / 146096) / 365 in
  let doy := doe - (365 * yoe + yoe / 4 - yoe / 100) in
  let mp := (5 * doy + 2) / 153 in
  let mon := if mp <? 10 then mp + 3 else mp - 9 in
  mkTm (yoe + era * 400 + (if mon <=? 2 then 1 else 0)) mon (doy - (153 * mp + 2) / 5 + 1) (sec / 3600) (sec / 60 mod 60) (sec mod 60).

Definition two_digits (z : Z) : string := (if z <? 10 then "0" else "") +:+ pretty z.

Record AmzTimestamp := mkStamp { date_time : string; date : string }.

Definition FormatAmzTime (utc_seconds : Z) : AmzTimestamp :=
  let t := gmtime utc_seconds in
  let d := pretty (tm_year t) +:+ two_digits (tm_mon t) +:+ two_digits (tm_mday t) in
  mkStamp (d +:+ "T" +:+ two_digits (tm_hour t) +:+ two_digits (tm_min t) +:+ two_digits (tm_sec t) +:+ "Z") d.

Record SigningInput := mkSigning {
  method : string;
  canonical_uri : string;
  query : list (string * string);
  host : string;
  amz_date : string;
  payload_sha256_hex : string;
  region : string;
  service : string;
  access_key : string;
  secret_key : string;
}.

(** [std::pair]'s [<] on strings, which compare as unsigned bytes. *)
Definition str_cmp (a b : string) : comparison := memcmp (lit a) (lit b).
Definition pair_le (a b : string * string) : Prop :=
  match str_cmp a.1 b.1 with Lt => True | Eq => str_cmp a.2 b.2 <> Gt | Gt => False end.
#[global] Instance pair_le_dec : RelDecision pair_le.
Proof. intros a b. unfold pair_le. destruct (str_cmp a.1 b.1); [destruct (str_cmp a.2 b.2); [left | left | right] | left | right]; congruence || done. Defined.

Definition encode_pair (kv : string * string) : string * string := (UriEncode kv.1 true, UriEncode kv.2 true).

(** [k1=v1&k2=v2...] *)
Fixpoint join_query (kvs : list (string * string)) : string :=
  match kvs with
  | [] => ""
  | [(k, v)] => k +:+ "=" +:+ v
  | (k, v) :: kvs => k +:+ "=" +:+ v +:+ "&" +:+ join_query kvs
  end.

Definition canonical_query (query : list (string * string)) : string := join_query (merge_sort pair_le (encode_pair <$> query)).

Definition NL : string := String "010" "".
Definition signed_headers : string := "host;x-amz-content-sha256;x-amz-date".

Definition canonical_request (i : SigningInput) : string :=
  method i +:+ NL +:+
  UriEncode (canonical_uri i) false +:+ NL +:+
  canonical_query (query i) +:+ NL +:+
  ("host:" +:+ host i +:+ NL +:+ "x-amz-content-sha256:" +:+ payload_sha256_hex i +:+ NL +:+ "x-amz-date:" +:+ amz_date i +:+ NL) +:+ NL +:+
  signed_headers +:+ NL +:+
  payload_sha256_hex i.

Definition scope_date (i : SigningInput) : string := String.substring 0 8 (amz_date i).
Definition scope (i : SigningInput) : string := scope_date i +:+ "/" +:+ region i +:+ "/" +:+ service i +:+ "/aws4_request".

Section Sign.

Context `{!Hashes, !Hmac}.

Definition string_to_sign (i : SigningInput) : string :=
  "AWS4-HMAC-SHA256" +:+ NL +:+ amz_date i +:+ NL +:+ scope i +:+ NL +:+ Sha256Hex (lit (canonical_request i)).

Definition signing_key (i : SigningInput) : bytes :=
  let k_date := HmacSha256 (lit ("AWS4" +:+ secret_key i)) (lit (scope_date i)) in
  let k_region := HmacSha256 k_date (lit (region i)) in
  let k_service := HmacSha256 k_region (lit (service i)) in
  HmacSha256 k_service (lit "aws4_request").

Definition BuildAuthorization (i : SigningInput) : string :=
  "AWS4-HMAC-SHA256 Credential=" +:+ access_key i +:+ "/" +:+ scope i +:+ ", SignedHeaders=" +:+ signed_headers +:+
  ", Signature=" +:+ HexEncode (HmacSha256 (signing_key i) (lit (string_to_sign i))).

End Sign.

End Sigv4.
Import Sigv4.

(** ** S3Client *)

Record S3Config := mkConfig { endpoint : string; cfg_region : string; cfg_access_key : string; cfg_secret_key : string }.
Inductive PutCondition := CondNone | IfNoneMatchStar | IfMatch.
Record S3Response := mkResponse {
  status : Z;
  transport_error : bool;
  body : bytes;
  etag : string;
  content_length : Z;
}.

(** What a transfer is set up with ... *)
Record HttpRequest := mkRequest {
  rq_method : string;
  rq_url : string;
  rq_headers : list string;
  rq_payload : option bytes;
  rq_nobody : bool;
}.

(** ... and what it ends in: an error of libcurl, if any, the status, and what
    the header and the write callback were given. *)
Record CurlReply := mkReply {
  cr_error : option string;
  cr_status : Z;
  cr_headers : list string;
  cr_body : bytes;
}.

Class Curl (St : Type) := {
  curl_perform : HttpRequest -> St -> CurlReply * St;
  std_time : St -> Z;
}.

Definition HostFromEndpoint (endpoint : string) : string :=
  let s := match String.index 0 "://" endpoint with
           | Some scheme => String.substring (scheme + 3) (String.length endpoint) endpoint
           | None => endpoint
           end in
  match String.index 0 "/" s with Some slash => String.substring 0 slash s | None => s end.

(** The characters of [set] that [s] begins with, removed. *)
Fixpoint drop_leading (set : list ascii) (s : string) : string :=
  match s with
  | EmptyString => ""
  | String c s' => if bool_decide (c ∈ set) then drop_leading set s' else s
  end.

Definition string_rev (s : string) : string := string_of_list_ascii (rev (list_ascii_of_string s)).

(** From the first character that is no blank to the last that is neither blank
    nor line end; nothing when one of them does not exist. *)
Definition TrimHeaderValue (value : string) : string :=
  let blank := [" "%char; "009"%char] in
  let line_end := [" "%char; "009"%char; "013"%char; "010"%char] in
  if String.eqb (drop_leading blank value) "" then ""
  else if String.eqb (drop_leading line_end (string_rev value)) "" then ""
  else string_rev (drop_leading line_end (string_rev (drop_leading blank value))).

Definition lower (c : ascii) : ascii := if (code "A" <=? code c) && (code c <=? code "Z") then ascii_of_N (Z.to_N (code c + 32)) else c.

(** [len >= n && strncasecmp(buffer, name, n) == 0]: what follows the name. *)
Fixpoint after_name (name line : string) : option string :=
  match name, line with
  | EmptyString, _ => Some line
  | String a name, String b line => if bool_decide (lower a = lower b) then after_name name line else None
  | String _ _, EmptyString => None
  end.

(** [strtoll(_, nullptr, 10)] *)
Fixpoint digits_value (acc : Z) (s : string) : Z :=
  match s with
  | String c s => if (code "0" <=? code c) && (code c <=? code "9") then digits_value (10 * acc + (code c - code "0")) s else acc
  | EmptyString => acc
  end.
Definition clamp_i64 (z : Z) : Z := Z.max (- 2 ^ 63) (Z.min (2 ^ 63 - 1) z).
Definition strtoll (s : string) : Z :=
  match drop_leading [" "%char; "009"%char; "010"%char; "011"%char; "012"%char; "013"%char] s with
  | String "-" s => clamp_i64 (- digits_value 0 s)
  | String "+" s => clamp_i64 (digits_value 0 s)
  | s => clamp_i64 (digits_value 0 s)
  end.

(** [value.size() >= 2 && front() == '"' && back() == '"']: without them. *)
Definition strip_quotes (value : string) : string :=
  let n := String.length value in
  if (2 <=? n)%nat && bool_decide (String.get 0 value = Some "034"%char) && bool_decide (String.get (n - 1) value = Some "034"%char)
  then String.substring 1 (n - 2) value else value.

Definition CaptureHeaders (resp : S3Response) (line : string) : S3Response :=
  match after_name "etag:" line with
  | Some rest => mkResponse (status resp) (transport_error resp) (body resp) (strip_quotes (TrimHeaderValue rest)) (content_length resp)
  | None =>
      match after_name "content-length:" line with
      | Some rest =>
          let value := TrimHeaderValue rest in
          if String.eqb value "" then resp
          else mkResponse (status resp) (transport_error resp) (body resp) (etag resp) (strtoll value)
      | None => resp
      end
  end.

(** The response the callbacks fill, then the outcome of the transfer. *)
Definition response_of (r : CurlReply) : S3Response :=
  let resp := foldl CaptureHeaders (mkResponse 0 false (cr_body r) "" (-1)) (cr_headers r) in
  match cr_error r with
  | Some msg => mkResponse (status resp) true (lit msg) (etag resp) (content_length resp)
  | None => mkResponse (cr_status r) false (body resp) (etag resp) (content_length resp)
  end.

Section Client.

Context {St : Type} `{!Hashes, !Hmac, !Curl St}.

Definition request_url (c : S3Config) (key : string) (q : list (string * string)) : string :=
  endpoint c +:+ UriEncode ("/" +:+ key) false +:+ match q with [] => "" | _ => "?" +:+ join_query (encode_pair <$> q) end.

(** The request [Do] performs at time [now]. *)
Definition build_request (c : S3Config) (now : Z) (meth key : string) (q : list (string * string)) (payload : option bytes)
    (extra_headers : list string) (head_only : bool) : HttpRequest :=
  let payload_hash := Sha256Hex (default [] payload) in
  let ts := FormatAmzTime now in
  let sign := mkSigning meth ("/" +:+ key) q (HostFromEndpoint (endpoint c)) (date_time ts) payload_hash (cfg_region c) "s3"
    (cfg_access_key c) (cfg_secret_key c) in
  mkRequest meth (request_url c key q)
    (["x-amz-date: " +:+ date_time ts; "x-amz-content-sha256: " +:+ payload_hash; "Authorization: " +:+ BuildAuthorization sign; "Expect:"]
     ++ extra_headers)
    (if String.eqb meth "PUT" then Some (default [] payload) else None) (negb (String.eqb meth "PUT") && head_only).

Definition Do (c : S3Config) (meth key : string) (q : list (string * string)) (payload : option bytes) (extra_headers : list string)
    (head_only : bool) : M St S3Response := fun st =>
  let (r, st) := curl_perform (build_request c (std_time st) meth key q payload extra_headers head_only) st in
  (Ok (response_of r), st).

Definition Client_Get (c : S3Config) (key : string) : M St S3Response := Do c "GET" key [] None [] false.

Definition range_header (offset length : Z) : string :=
  "Range: bytes=" +:+ pretty offset +:+ "-" +:+ pretty (u64 (offset + length - 1)).

Definition GetRange (c : S3Config) (key : string) (offset length : Z) : M St S3Response :=
  if length =? 0 then Do c "GET" key [] None [] false else Do c "GET" key [] None [range_header offset length] false.

Definition Head (c : S3Config) (key : string) : M St S3Response := Do c "HEAD" key [] None [] true.

Definition condition_headers (cond : PutCondition) (if_match_etag : string) : list string :=
  match cond with
  | CondNone => []
  | IfNoneMatchStar => ["If-None-Match: *"]
  | IfMatch => ["If-Match: " +:+ String "034" (if_match_etag +:+ String "034" "")]
  end.

Definition Client_Put (c : S3Config) (key : string) (b : bytes) (cond : PutCondition) (if_match_etag : string) : M St S3Response :=
  Do c "PUT" key [] (Some b) (condition_headers cond if_match_etag) false.

Definition Client_Delete (c : S3Config) (key : string) : M St S3Response := Do c "DELETE" key [] None [] false.

Definition ListV2 (c : S3Config) (bucket pre continuation_token : string) : M St S3Response :=
  Do c "GET" bucket ([("list-type", "2"); ("prefix", pre)] ++
    (if String.eqb continuation_token "" then [] else [("continuation-token", continuation_token)])) None [] false.

End Client.

(** ** S3FileStorage *)

Module S3FileStorage.

Section Files.

Context {St : Type} `{!Hashes, !Hmac, !Curl St} (client_ : S3Config) (bucket_ : string).

Definition ObjectKey (path : string) : string := bucket_ +:+ "/" +:+ path.

Record S3InputFile := mkInput { in_key_ : string; size_ : Z }.
Record S3OutputStream := mkOutput { out_key_ : string; buffer_ : bytes; closed_ : bool }.

Definition Size (f : S3InputFile) : Z := size_ f.

(** [None] is its [false]. *)
Definition ReadAt (f : S3InputFile) (offset len : Z) : M St (option bytes) :=
  if (size_ f <? offset) || (size_ f <? u64 (offset + len)) then ret None
  else if len =? 0 then ret (Some [])
  else
    let* r := GetRange client_ (in_key_ f) offset len in
    if transport_error r then throw runtime_error ("S3InputFile: transport error reading " +:+ in_key_ f)
    else if (status r =? 206) || (status r =? 200) then ret (Some (body r))
    else if (status r =? 416) || (status r =? 404) then ret None
    else throw runtime_error ("S3InputFile: unexpected status " +:+ pretty (status r) +:+ " reading " +:+ in_key_ f).

Definition Append (data : bytes) (o : S3OutputStream) : M St S3OutputStream :=
  if closed_ o then throw runtime_error ("S3OutputStream: append after close on " +:+ out_key_ o)
  else ret (mkOutput (out_key_ o) (buffer_ o ++ data) (closed_ o)).

Definition Close (o : S3OutputStream) : M St S3OutputStream :=
  if closed_ o then ret o
  else
    let* r := Client_Put client_ (out_key_ o) (buffer_ o) CondNone "" in
    if transport_error r then throw runtime_error ("S3OutputStream: transport error writing " +:+ out_key_ o)
    else if negb (status r =? 200)
    then throw runtime_error ("S3OutputStream: PUT " +:+ out_key_ o +:+ " failed with status " +:+ pretty (status r))
    else ret (mkOutput (out_key_ o) (buffer_ o) true).

(** The text between the first [<tag>] at or after [pos] and the [</tag>] that
    follows it, and the position behind that. *)
Definition ExtractTag (xml tag : string) (pos : nat) : option (string * nat) :=
  let open := "<" +:+ tag +:+ ">" in
  let close := "</" +:+ tag +:+ ">" in
  match String.index pos open xml with
  | None => None
  | Some a =>
      let start := (a + String.length open)%nat in
      match String.index start close xml with
      | None => None
      | Some b => Some (String.substring start (b - start) xml, (b + String.length close)%nat)
      end
  end.

(** [while (ExtractTag(r.body, "Key", &pos, &key)) keys.push_back(key)]: every
    round moves [pos] forward. *)
Fixpoint extract_all (fuel : nat) (xml tag : string) (pos : nat) : list string :=
  match fuel with
  | O => []
  | S fuel =>
      match ExtractTag xml tag pos with
      | None => []
      | Some (key, pos) => key :: extract_all fuel xml tag pos
      end
  end.
Definition extract_keys (xml : string) : list string := extract_all (S (String.length xml)) xml "Key" 0.

(** The token of the next page; empty when this is the last one. *)
Definition next_token (xml : string) : string :=
  match ExtractTag xml "IsTruncated" 0 with
  | Some (truncated, _) =>
      if String.eqb truncated "true" then match ExtractTag xml "NextContinuationToken" 0 with Some (token, _) => token | None => "" end else ""
  | None => ""
  end.

Definition OpenInput (path : string) : M St (option S3InputFile) :=
  let* r := Head client_ (ObjectKey path) in
  if transport_error r then throw runtime_error ("S3FileStorage: transport error on HEAD " +:+ path)
  else if status r =? 404 then ret None
  else if negb (status r =? 200) then throw runtime_error ("S3FileStorage: HEAD " +:+ path +:+ " status " +:+ pretty (status r))
  else ret (Some (mkInput (ObjectKey path) (if 0 <=? content_length r then content_length r else 0))).

Definition OpenOutput (path : string) : M St S3OutputStream := ret (mkOutput (ObjectKey path) [] false).

Definition CreateIfAbsent (path : string) (b : bytes) : M St CreateFileResult :=
  let* r := Client_Put client_ (ObjectKey path) b IfNoneMatchStar "" in
  if transport_error r || (status r =? 409) || (500 <=? status r) then ret RetryableConflict
  else if status r =? 200 then ret Created
  else if status r =? 412 then ret AlreadyExists
  else throw runtime_error ("S3FileStorage: conditional PUT " +:+ path +:+ " status " +:+ pretty (status r)).

Definition Exists (path : string) : M St bool :=
  let* r := Head client_ (ObjectKey path) in
  if transport_error r then throw runtime_error ("S3FileStorage: transport error on HEAD " +:+ path) else ret (status r =? 200).

(** The [do ... while (!token.empty())] of [List], from the page of [token]. *)
Fixpoint list_pages (fuel : nat) (pre token : string) : M St (list string) :=
  match fuel with
  | O => fail OutOfFuel
  | S fuel =>
      let* r := ListV2 client_ bucket_ pre token in
      if transport_error r then throw runtime_error ("S3FileStorage: transport error on LIST " +:+ pre)
      else if negb (status r =? 200) then throw runtime_error ("S3FileStorage: LIST " +:+ pre +:+ " status " +:+ pretty (status r))
      else
        let xml := string_of_list_byte (body r) in
        let keys := extract_keys xml in
        let token := next_token xml in
        if String.eqb token "" then ret keys
        else let* rest := list_pages fuel pre token in ret (keys ++ rest)
  end.

Definition List_ (fuel : nat) (pre : string) : M St (list string) := list_pages fuel pre "".

Definition Delete (path : string) : M St unit :=
  let* r := Client_Delete client_ (ObjectKey path) in
  if transport_error r then throw runtime_error ("S3FileStorage: transport error on DELETE " +:+ path)
  else if negb (status r =? 204) && negb (status r =? 200) && negb (status r =? 404)
  then throw runtime_error ("S3FileStorage: DELETE " +:+ path +:+ " status " +:+ pretty (status r))
  else ret tt.

End Files.

End S3FileStorage.

(** ** S3MetadataStore *)

Module S3MetadataStore.

Section Meta.

Context {St : Type} `{!Hashes, !Hmac, !Curl St} (client_ : S3Config) (bucket_ : string).

Definition ObjectKey (key : string) : string := bucket_ +:+ "/" +:+ key.

Definition Get (key : string) : M St (option VersionedValue) :=
  let* r := Client_Get client_ (ObjectKey key) in
  if transport_error r then throw runtime_error ("S3MetadataStore: transport error on GET " +:+ key)
  else if status r =? 404 then ret None
  else if negb (status r =? 200) then throw runtime_error ("S3MetadataStore: GET " +:+ key +:+ " status " +:+ pretty (status r))
  else if String.eqb (etag r) "" then throw runtime_error ("S3MetadataStore: GET " +:+ key +:+ " returned no ETag")
  else ret (Some (MemMetadataStore.mkVersioned (body r) (etag r))).

Definition ResolveVersion (key : string) (put_response : S3Response) : M St MetadataVersion :=
  if negb (String.eqb (etag put_response) "") then ret (etag put_response)
  else
    let* head := Head client_ (ObjectKey key) in
    if (status head =? 200) && negb (String.eqb (etag head) "") then ret (etag head)
    else throw runtime_error ("S3MetadataStore: could not resolve ETag after writing " +:+ key).

(** [if (new_version != nullptr) *new_version = ResolveVersion(key, r)] *)
Definition applied (want_version : bool) (key : string) (r : S3Response) : M St (ConditionalWriteResult * option MetadataVersion) :=
  if want_version then let* v := ResolveVersion key r in ret (MemMetadataStore.Applied, Some v)
  else ret (MemMetadataStore.Applied, None).

Definition PutIfAbsent (key : string) (value : bytes) (want_version : bool) : M St (ConditionalWriteResult * option MetadataVersion) :=
  let* r := Client_Put client_ (ObjectKey key) value IfNoneMatchStar "" in
  if transport_error r then ret (MemMetadataStore.RetryableConflict, None)
  else if status r =? 200 then applied want_version key r
  else if status r =? 412 then ret (MemMetadataStore.PreconditionFailed, None)
  else if 500 <=? status r then ret (MemMetadataStore.RetryableConflict, None)
  else throw runtime_error ("S3MetadataStore: PutIfAbsent " +:+ key +:+ " status " +:+ pretty (status r)).

Definition CompareExchange (key : string) (expected : MetadataVersion) (value : bytes) (want_version : bool)
  : M St (ConditionalWriteResult * option MetadataVersion) :=
  let* r := Client_Put client_ (ObjectKey key) value IfMatch expected in
  if transport_error r then ret (MemMetadataStore.RetryableConflict, None)
  else if status r =? 200 then applied want_version key r
  else if (status r =? 412) || (status r =? 404) then ret (MemMetadataStore.PreconditionFailed, None)
  else if 500 <=? status r then ret (MemMetadataStore.RetryableConflict, None)
  else throw runtime_error ("S3MetadataStore: CompareExchange " +:+ key +:+ " status " +:+ pretty (status r)).

End Meta.

End S3MetadataStore.
