(* ===== verification/S3Sign.v ===== *)
(** * Requests of the S3 client, as a server reads them

    A server takes the URL apart, undoes the percent-encoding, and recomputes the
    signature from what it received, with its own formulation of Signature V4.
    It reads the object key and the query that the client meant, whatever
    characters they have, and it finds the signature right. *)

From Stdlib Require Import Ascii.
From stdpp Require Import strings pretty sorting.
From S2P Require Import Prelude Text Storage SeqCodec S3.
Import Sigv4.
Open Scope Z_scope.

(** ** Strings *)

Fixpoint strip_prefix (pre s : string) : option string :=
  match pre, s with
  | EmptyString, _ => Some s
  | String a pre, String b s => if bool_decide (a = b) then strip_prefix pre s else None
  | String _ _, EmptyString => None
  end.

Lemma strip_prefix_app pre s : strip_prefix pre (pre +:+ s) = Some s.
Proof. induction pre as [|a pre IH]; [done|]. rewrite string_app_cons. cbn [strip_prefix]. by rewrite bool_decide_true. Qed.

Lemma strip_prefix_inv pre s r : strip_prefix pre s = Some r -> s = pre +:+ r.
Proof.
  revert s. induction pre as [|a pre IH]; intros [|b s]; cbn [strip_prefix]; try done; [by intros [= <-] | by intros [= <-] |].
  destruct (bool_decide_reflect (a = b)) as [->|]; [|done]. intros H. by rewrite (IH s H).
Qed.

(** ** Percent-encoding *)

Definition hex_value (c : ascii) : option Z :=
  let v := code c in
  if (code "0" <=? v) && (v <=? code "9") then Some (v - code "0")
  else if (code "A" <=? v) && (v <=? code "F") then Some (v - code "A" + 10)
  else if (code "a" <=? v) && (v <=? code "f") then Some (v - code "a" + 10)
  else None.

Fixpoint uri_decode (s : string) : option string :=
  match s with
  | EmptyString => Some ""
  | String "%" (String a (String b s)) =>
      match hex_value a, hex_value b, uri_decode s with
      | Some x, Some y, Some s => Some (String (ascii_of_N (Z.to_N (16 * x + y))) s)
      | _, _, _ => None
      end
  | String "%" _ => None
  | String c s => match uri_decode s with Some s => Some (String c s) | None => None end
  end.

(** What a character becomes has only characters of this set. *)
Definition uri_safe (slash : bool) (c : ascii) : Prop := IsUnreserved c = true \/ c = "%"%char \/ slash = true /\ c = "/"%char.

Lemma nibbles_ok c : let hi := nibble kHexUpper (Z.shiftr (code c) 4) in let lo := nibble kHexUpper (Z.land (code c) 15) in
  (exists x y, hex_value hi = Some x /\ hex_value lo = Some y /\ ascii_of_N (Z.to_N (16 * x + y)) = c) /\
  IsUnreserved hi = true /\ IsUnreserved lo = true.
Proof.
  destruct c as [b0 b1 b2 b3 b4 b5 b6 b7].
  destruct b0, b1, b2, b3, b4, b5, b6, b7; (split; [eexists _, _; split; [reflexivity|]; split; reflexivity | split; reflexivity]).
Qed.

Lemma uri_safe_encode v slash : all_chars (uri_safe (negb slash)) (UriEncode v slash).
Proof.
  unfold all_chars. induction v as [|c v IH]; cbn [UriEncode]; [constructor|]. destruct (_ || _) eqn:E.
  - constructor; [|exact IH]. apply orb_true_iff in E as [E|E]; [by left|]. apply andb_true_iff in E as [E1 E2].
    apply bool_decide_eq_true in E1. right. right. done.
  - destruct (nibbles_ok c) as (_ & H1 & H2). constructor; [right; by left|]. constructor; [by left|]. constructor; [by left | exact IH].
Qed.

Lemma uri_decode_plain c s : c <> "%"%char -> uri_decode (String c s) = match uri_decode s with Some s => Some (String c s) | None => None end.
Proof.
  intros Hc. destruct c as [b0 b1 b2 b3 b4 b5 b6 b7]. destruct b0, b1, b2, b3, b4, b5, b6, b7; try done; by destruct Hc.
Qed.

Lemma uri_decode_escape a b s x y : hex_value a = Some x -> hex_value b = Some y ->
  uri_decode (String "%" (String a (String b s))) =
  match uri_decode s with Some s => Some (String (ascii_of_N (Z.to_N (16 * x + y))) s) | None => None end.
Proof. intros Hx Hy. cbn [uri_decode]. by rewrite Hx, Hy. Qed.

(** Percent-decoding undoes the encoding, with or without slashes. *)
Lemma uri_decode_encode v slash : uri_decode (UriEncode v slash) = Some v.
Proof.
  induction v as [|c v IH]; cbn [UriEncode]; [done|]. destruct (_ || _) eqn:E.
  - rewrite uri_decode_plain, IH; [done|]. intros ->. by destruct slash.
  - destruct (nibbles_ok c) as ((x & y & Hx & Hy & Hc) & _). by rewrite (uri_decode_escape _ _ _ x y Hx Hy), IH, Hc.
Qed.

Lemma uri_safe_ne slash c d : IsUnreserved d = false -> d <> "%"%char -> (slash = true -> d <> "/"%char) -> uri_safe slash c -> c <> d.
Proof. intros H1 H2 H3 [Hc|[Hc|[Hs Hc]]] ->; [congruence | done | by apply H3]. Qed.

(** ** Searching *)

Lemma prefix_app (a b : string) : String.prefix a (a +:+ b) = true.
Proof. induction a as [|x a IH]; [by destruct b|]. rewrite string_app_cons. cbn [String.prefix]. destruct (ascii_dec x x); [exact IH | done]. Qed.

Lemma index_shift (a : string) n pat s : String.index (String.length a + n) pat (a +:+ s) = Nat.add (String.length a) <$> String.index n pat s.
Proof.
  induction a as [|x a IH]; [symmetry; exact (option_fmap_id _)|]. rewrite string_app_cons. cbn [String.length plus String.index].
  rewrite IH. by destruct (String.index n pat s).
Qed.

Lemma index_here (a b : string) : String.index 0 a (a +:+ b) = Some 0%nat.
Proof.
  pose proof (prefix_app a b) as Hp. destruct (a +:+ b) as [|c s] eqn:E; [destruct a; [done | by rewrite string_app_cons in E]|].
  cbn [String.index]. by rewrite Hp.
Qed.

(** A text without the first character of the pattern is passed over. *)
Lemma index_skip c pat a s : all_chars (.≠ c) a ->
  String.index 0 (String c pat) (a +:+ s) = Nat.add (String.length a) <$> String.index 0 (String c pat) s.
Proof.
  induction a as [|x a IH]; intros Ha; [symmetry; exact (option_fmap_id _)|]. apply Forall_cons in Ha as [Hx Ha].
  rewrite string_app_cons. cbn [String.index String.prefix]. destruct (ascii_dec c x) as [->|_]; [done|]. rewrite (IH Ha).
  by destruct (String.index 0 _ s).
Qed.

Lemma substring_all s : String.substring 0 (String.length s) s = s.
Proof. induction s as [|c s IH]; [done|]. simpl. by rewrite IH. Qed.

Lemma substring_here (b c : string) : String.substring 0 (String.length b) (b +:+ c) = b.
Proof. induction b as [|x b IH]; [by destruct c|]. rewrite string_app_cons. cbn [String.length String.substring]. by rewrite IH. Qed.

Lemma substring_skip (a s : string) n : String.substring (String.length a) n (a +:+ s) = String.substring 0 n s.
Proof. induction a as [|x a IH]; [done|]. exact IH. Qed.

Lemma substring_long (s : string) n : (String.length s <= n)%nat -> String.substring 0 n s = s.
Proof. revert n. induction s as [|c s IH]; intros [|n] Hn; simpl in *; try done; [lia|]. by rewrite IH by lia. Qed.

(** ** What a server reads *)

Record View := mkView {
  v_method : string;
  v_key : string;
  v_query : list (string * string);
  v_headers : list string;
  v_payload : bytes;
  v_nobody : bool;
}.

Definition decode_param (s : string) : option (string * string) :=
  let (k, v) := cut "=" s in
  match uri_decode k, uri_decode (default "" v) with Some k, Some v => Some (k, v) | _, _ => None end.

Fixpoint decode_params (l : list string) : option (list (string * string)) :=
  match l with
  | [] => Some []
  | s :: l => match decode_param s, decode_params l with Some kv, Some kvs => Some (kv :: kvs) | _, _ => None end
  end.

(** The request for a server whose address is [ep]. *)
Definition server_view (ep : string) (r : HttpRequest) : option View :=
  match strip_prefix ep (rq_url r) with
  | None => None
  | Some rest =>
      let (path, q) := cut "?" rest in
      match uri_decode path, match q with None => Some [] | Some q => decode_params (split_on "&" q) end with
      | Some (String "/" key), Some query => Some (mkView (rq_method r) key query (rq_headers r) (default [] (rq_payload r)) (rq_nobody r))
      | _, _ => None
      end
  end.

Lemma encoded_ne v slash d : IsUnreserved d = false -> d <> "%"%char -> (slash = false -> d <> "/"%char) -> all_chars (.≠ d) (UriEncode v slash).
Proof.
  intros H1 H2 H3. eapply Forall_impl; [apply uri_safe_encode|]. intros c. apply uri_safe_ne; [done | done|]. destruct slash; [done | by intros _; apply H3].
Qed.

Lemma decode_param_ok k v : decode_param (UriEncode k true +:+ "=" +:+ UriEncode v true) = Some (k, v).
Proof. unfold decode_param. change ("=" +:+ ?s) with (String "=" s). rewrite cut_app by (by apply encoded_ne). simpl. by rewrite !uri_decode_encode. Qed.

Lemma param_ne k v d : IsUnreserved d = false -> d <> "%"%char -> d <> "="%char -> all_chars (.≠ d) (UriEncode k true +:+ "=" +:+ UriEncode v true).
Proof.
  intros H1 H2 H3. apply all_chars_app; [by apply encoded_ne|]. apply all_chars_app; [|by apply encoded_ne]. by repeat constructor.
Qed.

Lemma decode_params_ok q : q <> [] -> decode_params (split_on "&" (join_query (encode_pair <$> q))) = Some q.
Proof.
  induction q as [|[k v] q IH]; intros Hq; [done|]. destruct q as [|kv q].
  - cbn [fmap list_fmap join_query encode_pair fst snd]. rewrite split_on_none by (by apply param_ne). cbn [decode_params]. by rewrite decode_param_ok.
  - specialize (IH ltac:(done)).
    change (join_query (encode_pair <$> (k, v) :: kv :: q)) with
      (UriEncode k true +:+ "=" +:+ UriEncode v true +:+ "&" +:+ join_query (encode_pair <$> kv :: q)).
    rewrite <- !string_app_assoc, (string_app_assoc _ "&"). change ("&" +:+ ?s) with (String "&" s).
    rewrite split_on_app by (rewrite string_app_assoc; by apply param_ne). cbn [decode_params]. by rewrite string_app_assoc, decode_param_ok, IH.
Qed.

Section View.

Context `{!Hashes, !Hmac}.

(** The server reads what the client meant. *)
Lemma view_build c now m key q payload h ho :
  server_view (endpoint c) (build_request c now m key q payload h ho) =
  Some (mkView m key q (rq_headers (build_request c now m key q payload h ho)) (if String.eqb m "PUT" then default [] payload else [])
    (negb (String.eqb m "PUT") && ho)).
Proof.
  unfold server_view, build_request, request_url. cbn [rq_url rq_method rq_headers rq_payload rq_nobody]. rewrite strip_prefix_app.
  assert (He : all_chars (.≠ "?"%char) (UriEncode ("/" +:+ key) false)) by (by apply encoded_ne).
  assert (Hd : uri_decode (UriEncode ("/" +:+ key) false) = Some (String "/" key)) by apply uri_decode_encode.
  destruct q as [|kv q].
  - rewrite string_app_nil_r, (cut_none _ _ He), Hd. by destruct (String.eqb m "PUT").
  - change ("?" +:+ ?s) with (String "?" s). rewrite (cut_app _ _ _ He), Hd, decode_params_ok by done. by destruct (String.eqb m "PUT").
Qed.

End View.

(** ** The order of the query *)

Lemma memcmp_swap a b : memcmp b a = CompOpp (memcmp a b).
Proof.
  revert b. induction a as [|x a IH]; intros [|y b]; try done. cbn [memcmp]. rewrite (Z.compare_antisym (byte_to_Z x)).
  by destruct (byte_to_Z x ?= byte_to_Z y); simpl.
Qed.

Lemma memcmp_trans a b c : memcmp a b = Lt -> memcmp b c = Lt -> memcmp a c = Lt.
Proof.
  revert b c. induction a as [|x a IH]; intros [|y b] [|z c]; try done. cbn [memcmp].
  destruct (Z.compare_spec (byte_to_Z x) (byte_to_Z y)), (Z.compare_spec (byte_to_Z y) (byte_to_Z z)), (Z.compare_spec (byte_to_Z x) (byte_to_Z z));
    try done; try lia. apply IH.
Qed.

Lemma str_cmp_eq a b : str_cmp a b = Eq <-> a = b.
Proof.
  unfold str_cmp, lit. rewrite memcmp_eq. split; [|by intros ->]. intros H.
  by rewrite <- (string_of_list_byte_of_string a), H, string_of_list_byte_of_string.
Qed.

(** The two orders a pair is compared by. *)
Definition pair_cmp (a b : string * string) : comparison := match str_cmp a.1 b.1 with Eq => str_cmp a.2 b.2 | c => c end.

Lemma pair_le_cmp a b : pair_le a b <-> pair_cmp a b <> Gt.
Proof. unfold pair_le, pair_cmp. by destruct (str_cmp a.1 b.1). Qed.

Lemma pair_cmp_swap a b : pair_cmp b a = CompOpp (pair_cmp a b).
Proof. unfold pair_cmp, str_cmp. rewrite (memcmp_swap (lit a.1)), (memcmp_swap (lit a.2)). by destruct (memcmp (lit a.1) _). Qed.

Lemma pair_cmp_eq a b : pair_cmp a b = Eq -> a = b.
Proof.
  unfold pair_cmp. destruct (str_cmp a.1 b.1) eqn:E; try done. apply str_cmp_eq in E. intros H%str_cmp_eq. destruct a, b; simpl in *; by subst.
Qed.

Lemma pair_cmp_trans a b c : pair_cmp a b = Lt -> pair_cmp b c = Lt -> pair_cmp a c = Lt.
Proof.
  unfold pair_cmp. destruct (str_cmp a.1 b.1) eqn:E1; try done.
  - apply str_cmp_eq in E1. rewrite E1. intros H. destruct (str_cmp b.1 c.1); try done. by apply memcmp_trans.
  - intros _. destruct (str_cmp b.1 c.1) eqn:E2; try done.
    + apply str_cmp_eq in E2. rewrite E2 in E1. by rewrite E1.
    + intros _. unfold str_cmp in *. by rewrite (memcmp_trans _ _ _ E1 E2).
Qed.

#[export] Instance pair_le_total : Total pair_le.
Proof. intros a b. rewrite !pair_le_cmp, (pair_cmp_swap a b). destruct (pair_cmp a b); [left | left | right]; done. Qed.

#[export] Instance pair_le_anti : AntiSymm (=) pair_le.
Proof.
  intros a b. rewrite !pair_le_cmp, (pair_cmp_swap a b). destruct (pair_cmp a b) eqn:E; try done. intros _ _. by apply pair_cmp_eq.
Qed.

#[export] Instance pair_le_trans : Transitive pair_le.
Proof.
  intros a b c. rewrite !pair_le_cmp. intros H1 H2. destruct (pair_cmp a b) eqn:E1; [apply pair_cmp_eq in E1 as ->; done | | done].
  destruct (pair_cmp b c) eqn:E2; [apply pair_cmp_eq in E2 as <-; by rewrite E1 | by rewrite (pair_cmp_trans _ _ _ E1 E2) | done].
Qed.

(** ** Signature V4, as a server checks it *)

Definition join (sep : string) (l : list string) : string :=
  match l with [] => "" | s :: l => foldl (fun acc s => acc +:+ sep +:+ s) s l end.

(** The text of the first header of that name. *)
Fixpoint header_text (name : string) (headers : list string) : option string :=
  match headers with
  | [] => None
  | h :: hs => match strip_prefix (name +:+ ": ") h with Some v => Some v | None => header_text name hs end
  end.

(** The host the transfer goes to: behind the scheme, up to the path. *)
Definition url_host (url : string) : option string :=
  match (cut ":" url).2 with
  | Some rest => match strip_prefix "//" rest with Some s => Some (cut "/" s).1 | None => None end
  | None => None
  end.

(** The parameters in canonical order. *)
Definition canonical_params (q l : list (string * string)) : Prop := Sorted pair_le l /\ l ≡ₚ (encode_pair <$> q).

Section Reference.

Context `{!Hashes, !Hmac}.

Definition ref_request (meth key hostname date hash : string) (params : list (string * string)) : string :=
  let headers := [("host", hostname); ("x-amz-content-sha256", hash); ("x-amz-date", date)] in
  join NL ([meth; UriEncode ("/" +:+ key) false; join "&" ((fun p => p.1 +:+ "=" +:+ p.2) <$> params)] ++
    ((fun h => h.1 +:+ ":" +:+ h.2) <$> headers) ++ [""; join ";" headers.*1; hash]).

Definition ref_authorization (c : S3Config) (meth key hostname date hash : string) (params : list (string * string)) : string :=
  let day := String.substring 0 8 date in
  let steps := [day; cfg_region c; "s3"; "aws4_request"] in
  let to_sign := join NL ["AWS4-HMAC-SHA256"; date; join "/" steps; HexEncode (SHA256 (lit (ref_request meth key hostname date hash params)))] in
  let signing := foldl HMAC (lit ("AWS4" +:+ cfg_secret_key c)) (lit <$> steps) in
  "AWS4-HMAC-SHA256 " +:+ join ", " ["Credential=" +:+ cfg_access_key c +:+ "/" +:+ join "/" steps;
    "SignedHeaders=host;x-amz-content-sha256;x-amz-date"; "Signature=" +:+ HexEncode (HMAC signing (lit to_sign))].

(** A server at [endpoint c] that shares the client's secret accepts [r]. *)
Definition accepted (c : S3Config) (r : HttpRequest) : Prop :=
  exists v hostname date auth, server_view (endpoint c) r = Some v /\ url_host (rq_url r) = Some hostname /\
    header_text "x-amz-date" (rq_headers r) = Some date /\ header_text "Authorization" (rq_headers r) = Some auth /\
    let hash := HexEncode (SHA256 (v_payload v)) in
    header_text "x-amz-content-sha256" (rq_headers r) = Some hash /\
    forall params, canonical_params (v_query v) params -> auth = ref_authorization c (v_method v) (v_key v) hostname date hash params.

End Reference.

(** The addresses of S3Config: a scheme and an authority. *)
Definition valid_endpoint (ep : string) : Prop :=
  exists scheme authority, ep = scheme +:+ "://" +:+ authority /\ all_chars (.≠ ":"%char) scheme /\ all_chars (.≠ "/"%char) authority.

Lemma host_of_endpoint ep : valid_endpoint ep -> forall rest, url_host (ep +:+ "/" +:+ rest) = Some (HostFromEndpoint ep).
Proof.
  intros (scheme & authority & -> & Hs & Ha) rest. unfold url_host, HostFromEndpoint.
  rewrite !string_app_assoc. change ("://" +:+ ?s) with (String ":" ("//" +:+ s)) at 1. rewrite (cut_app _ _ _ Hs). cbn [snd].
  rewrite strip_prefix_app. change ("/" +:+ rest) with (String "/" rest). rewrite (cut_app _ _ _ Ha). cbn [fst]. f_equal.
  change "://" with (String ":" "//") at 1. rewrite (index_skip ":" "//" scheme _ Hs). change (String ":" "//") with "://". rewrite index_here. simpl.
  rewrite Nat.add_0_r.
  replace (String.length scheme + 3)%nat with (String.length (scheme +:+ "://")) by (by rewrite string_length_app).
  rewrite <- string_app_assoc, substring_skip, substring_long by (rewrite !string_length_app; lia).
  assert (Hi : String.index 0 "/" authority = None).
  { pose proof (index_skip "/" "" authority "" Ha) as H. rewrite string_app_nil_r in H. by rewrite H. }
  by rewrite Hi.
Qed.

Lemma join_cons sep a b l : join sep (a :: b :: l) = a +:+ sep +:+ join sep (b :: l).
Proof.
  cbn [join foldl]. revert a b. induction l as [|c l IH]; intros a b; [done|]. cbn [foldl].
  rewrite <- (IH a (b +:+ sep +:+ c)). by rewrite !string_app_assoc.
Qed.

Lemma join_params params : join "&" ((fun p => p.1 +:+ "=" +:+ p.2) <$> params) = join_query params.
Proof.
  induction params as [|[k v] params IH]; [done|]. destruct params as [|[k' v'] params]; [done|].
  change (join_query ((k, v) :: (k', v') :: params)) with (k +:+ "=" +:+ v +:+ "&" +:+ join_query ((k', v') :: params)).
  rewrite <- IH, 2!fmap_cons, join_cons. cbn [fst snd]. by rewrite !string_app_assoc.
Qed.

(** The canonical query does not depend on the order of the parameters. *)
Lemma canonical_query_params q params : canonical_params q params -> canonical_query q = join_query params.
Proof.
  intros [Hs Hp]. unfold canonical_query. f_equal. apply (Sorted_unique pair_le); [apply Sorted_merge_sort, _ | done|].
  by rewrite merge_sort_Permutation.
Qed.

Section Accepted.

Context `{!Hashes, !Hmac}.

Lemma ref_request_ok i params : canonical_params (query i) params -> forall key, canonical_uri i = "/" +:+ key ->
  canonical_request i = ref_request (method i) key (host i) (amz_date i) (payload_sha256_hex i) params.
Proof.
  intros Hp key Hk. unfold canonical_request, ref_request. rewrite (canonical_query_params _ _ Hp), Hk, <- join_params.
  cbn [fmap list_fmap app fst snd]. rewrite !join_cons. unfold signed_headers. cbn [join foldl]. by rewrite !string_app_assoc.
Qed.

Lemma ref_authorization_ok c i params key : canonical_params (query i) params -> canonical_uri i = "/" +:+ key -> service i = "s3" ->
  region i = cfg_region c -> access_key i = cfg_access_key c -> secret_key i = cfg_secret_key c ->
  BuildAuthorization i = ref_authorization c (method i) key (host i) (amz_date i) (payload_sha256_hex i) params.
Proof.
  intros Hp Hk H1 H2 H3 H4. unfold BuildAuthorization, ref_authorization, string_to_sign, signing_key, Sha256Hex, HmacSha256, scope, scope_date, signed_headers.
  rewrite (ref_request_ok i params Hp key Hk), H1, H2, H3, H4. cbv zeta. rewrite !join_cons. cbn [join foldl fmap list_fmap].
  by rewrite !string_app_assoc.
Qed.

Lemma build_accepted c now m key q payload h ho : valid_endpoint (endpoint c) -> m = "PUT" \/ payload = None ->
  accepted c (build_request c now m key q payload h ho).
Proof.
  intros He Hm. unfold accepted. rewrite view_build. eexists _, (HostFromEndpoint (endpoint c)), (date_time (FormatAmzTime now)), _. split; [reflexivity|].
  split; [|split; [reflexivity|]; split; [reflexivity|]].
  { unfold build_request, request_url. cbn [rq_url]. change ("/" +:+ key) with (String "/" key). cbn [UriEncode].
    replace (IsUnreserved "/" || _) with true by done. rewrite string_app_cons. by apply host_of_endpoint. }
  cbn [v_payload v_query v_method v_key]. assert (Hpl : (if String.eqb m "PUT" then default [] payload else []) = default [] payload).
  { destruct Hm as [->| ->]; [done | by destruct (String.eqb m "PUT")]. }
  rewrite Hpl. split; [reflexivity|]. intros params Hp. by apply ref_authorization_ok.
Qed.

End Accepted.

(** ** Properties *)

(** C18. A server at the client's endpoint that shares its secret reads from any
    request of the client exactly the method, the object key, the query and the
    payload it was made for, whatever characters they contain, and accepts its
    signature: recomputed from the received URL and headers by an independent
    formulation of Signature V4, in whatever order the parameters arrived, it is
    the one in the Authorization header. *)
Theorem requests_authentic `{!Hashes, !Hmac} c now m key q payload h ho : valid_endpoint (endpoint c) -> m = "PUT" \/ payload = None ->
  let r := build_request c now m key q payload h ho in
  accepted c r /\ exists v, server_view (endpoint c) r = Some v /\ v_method v = m /\ v_key v = key /\ v_query v = q /\
    v_payload v = default [] payload /\ forall line, line ∈ h -> line ∈ v_headers v.
Proof.
  intros He Hm r. split; [by apply build_accepted|]. unfold r. rewrite view_build. eexists. split; [reflexivity|].
  cbn [v_method v_key v_query v_payload v_headers]. split_and!; [done..| |].
  - destruct Hm as [->| ->]; [done | by destruct (String.eqb m "PUT")].
  - intros line Hl. unfold build_request. cbn [rq_headers]. apply elem_of_app. by right.
Qed.

(** A secret, a key with a space and a slash, and two parameters. *)
Definition demo_config : S3Config := mkConfig "http://127.0.0.1:19900" "us-east-1" "minioadmin" "minio secret".
Definition sign_hashes : Hashes := {| crc32 := fun _ => 0; SHA256 := fun b => le_bytes 32 (le_value b) |}.
Definition demo_hmac : Hmac := {| HMAC := fun k d => le_bytes 32 (le_value (k ++ d)) |}.

Lemma requests_authentic_witness :
  let r := @build_request sign_hashes demo_hmac demo_config 1704067200 "GET" "bucket/a key" [("prefix", "wal/1&2"); ("list-type", "2")] None [] false in
  @accepted sign_hashes demo_hmac demo_config r /\
  rq_url r = "http://127.0.0.1:19900/bucket/a%20key?prefix=wal%2F1%262&list-type=2".
Proof.
  cbv zeta. split; [|by vm_compute].
  destruct (@requests_authentic sign_hashes demo_hmac demo_config 1704067200 "GET" "bucket/a key" [("prefix", "wal/1&2"); ("list-type", "2")] None [] false) as [H _];
    [exists "http", "127.0.0.1:19900"; split; [done|]; split; repeat constructor; done | by right | exact H].
Defined.

Example amz_time : FormatAmzTime 1704067199 = mkStamp "20231231T235959Z" "20231231".
Proof. by vm_compute. Qed.
Example amz_leap_day : FormatAmzTime 1709164800 = mkStamp "20240229T000000Z" "20240229".
Proof. by vm_compute. Qed.
