(* ===== verification/S3Spec.v ===== *)
(** * The S3 adapters over an object service

    What is documented of an S3-compatible service: requests it accepts read and
    write a map of objects atomically, conditional PUTs are refused when their
    precondition fails, and a request whose answer is lost or is a server error
    may or may not have taken effect. Over any such service, the adapters of
    [Cloud/S3] keep the contracts of [IStorage] and [IMetadataStore]. *)

From Stdlib Require Import Ascii.
From stdpp Require Import strings pretty sorting.
From S2P Require Import Prelude Text Storage SeqCodec S3 S3Sign.
Import Sigv4.
Open Scope Z_scope.

(** ** Header lines *)

Definition blank : list ascii := [" "%char; "009"%char].
Definition line_end : list ascii := [" "%char; "009"%char; "013"%char; "010"%char].
Definition CRLF : string := String "013" (String "010" "").
Definition quoted (e : string) : string := String "034" (e +:+ String "034" "").

(** A value that has no blanks around it. *)
Definition clean (v : string) : Prop := exists c s d s', v = String c s /\ v = s' +:+ String d "" /\ (c ∉ blank) /\ (d ∉ line_end).

(** [line] is the header [name], in any case, with the value [value]. *)
Definition header_line (name value line : string) : Prop :=
  exists n ws, line = n +:+ ws +:+ value +:+ CRLF /\ after_name name n = Some "" /\ all_chars (.∈ blank) ws.

(** The header occurs once, with this value; it does not occur. *)
Definition sends (name value : string) (lines : list string) : Prop :=
  exists l1 line l2, lines = l1 ++ line :: l2 /\ header_line name value line /\ Forall (fun l => after_name name l = None) (l1 ++ l2).
Definition omits (name : string) (lines : list string) : Prop := Forall (fun l => after_name name l = None) lines.

Lemma string_rev_app a b : string_rev (a +:+ b) = string_rev b +:+ string_rev a.
Proof.
  unfold string_rev. rewrite chars_app, rev_app_distr. generalize (rev (chars b)), (rev (chars a)). intros l1 l2.
  induction l1 as [|c l1 IH]; [done|]. simpl. by rewrite IH.
Qed.

Lemma string_rev_rev s : string_rev (string_rev s) = s.
Proof. unfold string_rev. by rewrite list_ascii_of_string_of_list_ascii, rev_involutive, string_of_list_ascii_of_string. Qed.

Lemma drop_leading_app l a b : all_chars (.∈ l) a -> drop_leading l (a +:+ b) = drop_leading l b.
Proof.
  induction a as [|c a IH]; intros Ha; [done|]. apply Forall_cons in Ha as [Hc Ha]. rewrite string_app_cons. cbn [drop_leading].
  by rewrite bool_decide_true, IH.
Qed.

Lemma drop_leading_stop l c s : c ∉ l -> drop_leading l (String c s) = String c s.
Proof. intros Hc. cbn [drop_leading]. by rewrite bool_decide_false. Qed.

Lemma trim_ok ws v : all_chars (.∈ blank) ws -> clean v -> TrimHeaderValue (ws +:+ v +:+ CRLF) = v.
Proof.
  intros Hws (c & s & d & s' & E1 & E2 & Hc & Hd). unfold TrimHeaderValue. fold blank. fold line_end.
  rewrite (drop_leading_app _ _ _ Hws), E1, string_app_cons, (drop_leading_stop _ _ _ Hc), <- string_app_cons, <- E1.
  assert (Hr : forall x, string_rev (x +:+ v +:+ CRLF) = String "010" (String "013" (String d (string_rev s' +:+ string_rev x)))).
  { intros x. rewrite E2, !string_rev_app. change (string_rev CRLF) with (String "010" (String "013" "")).
    change (string_rev (String d "")) with (String d ""). done. }
  assert (Hl : forall x, drop_leading line_end (String "010" (String "013" (String d x))) = String d x).
  { intros x. change (drop_leading line_end (String d x) = String d x). by apply drop_leading_stop. }
  replace (String.eqb (v +:+ CRLF) "") with false by (by rewrite E1).
  rewrite Hr, Hl. pose proof (Hr "") as H0. change ("" +:+ ?x) with x in H0. rewrite H0, Hl. cbn [String.eqb].
  change (string_rev "") with "". rewrite string_app_nil_r.
  change (String d (string_rev s')) with (string_rev (String d "") +:+ string_rev s'). rewrite <- string_rev_app, string_rev_rev. by symmetry.
Qed.

Lemma after_name_app name n rest : after_name name n = Some "" -> after_name name (n +:+ rest) = Some rest.
Proof.
  revert n. induction name as [|a name IH]; intros [|b n]; cbn [after_name]; try done.
  rewrite string_app_cons. cbn [after_name]. destruct (bool_decide _); [apply IH | done].
Qed.

Lemma strip_quoted e : strip_quotes (quoted e) = e.
Proof.
  unfold strip_quotes, quoted. cbn [String.length]. rewrite string_length_app. cbn [String.length].
  replace (S (String.length e + 1) - 2)%nat with (String.length e) by lia. replace (S (String.length e + 1) - 1)%nat with (S (String.length e)) by lia.
  rewrite bool_decide_true by done. rewrite bool_decide_true.
  - destruct (Nat.leb_spec 2 (S (String.length e + 1))); [|lia]. simpl. apply substring_here.
  - cbn [String.get]. clear. induction e as [|c e IH]; [done | exact IH].
Qed.

Lemma not_both line x y : after_name "content-length:" line = Some x -> after_name "etag:" line = Some y -> False.
Proof.
  destruct line as [|c line]; [done|]. cbn [after_name]. destruct (bool_decide_reflect (lower "c" = lower c)) as [E|]; [|done].
  destruct (bool_decide_reflect (lower "e" = lower c)) as [E'|]; [|done]. rewrite <- E in E'. by vm_compute in E'.
Qed.

(** What a line does to each field. *)
Lemma capture_fields resp line :
  etag (CaptureHeaders resp line) = match after_name "etag:" line with Some rest => strip_quotes (TrimHeaderValue rest) | None => etag resp end /\
  content_length (CaptureHeaders resp line) =
    match after_name "content-length:" line with
    | Some rest => if String.eqb (TrimHeaderValue rest) "" then content_length resp else strtoll (TrimHeaderValue rest)
    | None => content_length resp
    end /\ body (CaptureHeaders resp line) = body resp /\ status (CaptureHeaders resp line) = status resp.
Proof.
  unfold CaptureHeaders. destruct (after_name "etag:" line) as [e|] eqn:E1, (after_name "content-length:" line) as [n|] eqn:E2; try done.
  - destruct (not_both _ _ _ E2 E1).
  - by destruct (String.eqb (TrimHeaderValue n) "").
Qed.

Lemma captured_omits resp lines : omits "etag:" lines -> etag (foldl CaptureHeaders resp lines) = etag resp.
Proof.
  revert resp. induction lines as [|l lines IH]; intros resp Hl; [done|]. apply Forall_cons in Hl as [H Hl]. simpl.
  rewrite IH by done. destruct (capture_fields resp l) as (-> & _). by rewrite H.
Qed.

Lemma captured_omits_length resp lines : omits "content-length:" lines -> content_length (foldl CaptureHeaders resp lines) = content_length resp.
Proof.
  revert resp. induction lines as [|l lines IH]; intros resp Hl; [done|]. apply Forall_cons in Hl as [H Hl]. simpl.
  rewrite IH by done. destruct (capture_fields resp l) as (_ & -> & _). by rewrite H.
Qed.

Lemma captured_body resp lines : body (foldl CaptureHeaders resp lines) = body resp /\ status (foldl CaptureHeaders resp lines) = status resp.
Proof.
  revert resp. induction lines as [|l lines IH]; intros resp; [done|]. simpl. destruct (IH (CaptureHeaders resp l)) as [-> ->].
  split; apply capture_fields.
Qed.

Lemma quoted_clean e : clean (quoted e).
Proof. exists "034"%char, (e +:+ String "034" ""), "034"%char, (String "034" e). split_and!; try done; unfold blank, line_end; set_solver. Qed.

Lemma captured_etag resp lines e : sends "etag:" (quoted e) lines -> etag (foldl CaptureHeaders resp lines) = e.
Proof.
  intros (l1 & line & l2 & -> & (n & ws & -> & Hn & Hws) & Ho). apply Forall_app in Ho as [_ Ho]. rewrite foldl_app. cbn [foldl].
  rewrite (captured_omits _ _ Ho). destruct (capture_fields (foldl CaptureHeaders resp l1) (n +:+ ws +:+ quoted e +:+ CRLF)) as (-> & _).
  by rewrite (after_name_app _ _ _ Hn), trim_ok, strip_quoted by auto using quoted_clean.
Qed.

(** *** Numbers *)

Definition digit (c : ascii) : Prop := (code "0" <=? code c) && (code c <=? code "9") = true.

Lemma pretty_char_digit x : (x < 10)%N -> digit (pretty_N_char x) /\ code (pretty_N_char x) - code "0" = Z.of_N x.
Proof.
  intros Hx.
  assert (x = 0 \/ x = 1 \/ x = 2 \/ x = 3 \/ x = 4 \/ x = 5 \/ x = 6 \/ x = 7 \/ x = 8 \/ x = 9)%N as Hin by lia.
  repeat (destruct Hin as [->|Hin]; [by vm_compute|]). by subst x; vm_compute.
Qed.

Lemma digits_value_go x : forall s, digits_value 0 (pretty_N_go x s) = digits_value (Z.of_N x) s /\
  ((0 < x)%N -> all_chars digit s -> all_chars digit (pretty_N_go x s) /\ pretty_N_go x s <> "").
Proof.
  induction (N.lt_wf_0 x) as [x _ IH]. intros s. destruct (decide (0 < x)%N) as [Hx|Hx]; cycle 1.
  { assert (x = 0%N) as -> by lia. rewrite pretty_N_go_0. by split. }
  rewrite pretty_N_go_step by done. pose proof (N.mod_lt x 10 ltac:(done)) as Hm.
  destruct (pretty_char_digit (x `mod` 10) Hm) as [Hd Hv]. destruct (IH (x `div` 10)%N) with (s := String (pretty_N_char (x `mod` 10)) s) as [H1 H2].
  { by apply N.div_lt. }
  rewrite H1. cbn [digits_value]. unfold digit in Hd. rewrite Hd, Hv. split.
  - f_equal. pose proof (N.div_mod x 10 ltac:(done)). lia.
  - intros _ Hs. assert (Hs' : all_chars digit (String (pretty_N_char (x `mod` 10)) s)) by (by constructor).
    destruct (decide (0 < x `div` 10)%N) as [Hp|Hp]; [by apply H2|]. assert ((x `div` 10)%N = 0%N) as -> by (by apply N.le_0_r, N.le_ngt). by rewrite pretty_N_go_0.
Qed.

Lemma pretty_digits n : 0 <= n -> digits_value 0 (pretty n) = n /\ all_chars digit (pretty n) /\ pretty n <> "".
Proof.
  intros Hn. destruct n as [|p|p]; [split; [done|]; split; [repeat constructor | done] | | lia].
  change (pretty (Z.pos p)) with (pretty_N_go (N.pos p) ""). destruct (digits_value_go (N.pos p) "") as [H1 H2].
  split; [by rewrite H1|]. apply H2; [lia | constructor].
Qed.

Lemma digit_plain c : digit c -> (c ∉ line_end) /\ c <> "-"%char /\ c <> "+"%char /\ (c ∉ [" "%char; "009"%char; "010"%char; "011"%char; "012"%char; "013"%char]).
Proof. unfold line_end. rewrite !not_elem_of_cons. intros Hd. split_and!; try (intros ->; by vm_compute in Hd); by apply not_elem_of_nil. Qed.

Lemma strtoll_pretty n : 0 <= n < 2 ^ 63 -> strtoll (pretty n) = n.
Proof.
  intros Hn. destruct (pretty_digits n) as (Hv & Hd & Hne); [lia|]. destruct (pretty n) as [|c s]; [done|].
  apply Forall_cons in Hd as [Hc _]. destruct (digit_plain c Hc) as (_ & Hm & Hp & Hw). unfold strtoll. rewrite (drop_leading_stop _ _ _ Hw).
  assert (Hcl : clamp_i64 (digits_value 0 (String c s)) = n) by (rewrite Hv; unfold clamp_i64; lia).
  transitivity (clamp_i64 (digits_value 0 (String c s))); [|exact Hcl]. clear - Hm Hp. destruct c as [b0 b1 b2 b3 b4 b5 b6 b7].
  destruct b0, b1, b2, b3, b4, b5, b6, b7; done.
Qed.

Lemma digits_clean v : all_chars digit v -> v <> "" -> clean v.
Proof.
  intros Hv Hne. destruct v as [|c s]; [done|]. assert (exists s' d, String c s = s' +:+ String d "" /\ digit d) as (s' & d & E & Hd).
  { clear Hne. revert c Hv. induction s as [|c' s IH]; intros c Hv.
    - exists "", c. split; [done|]. by apply Forall_cons in Hv as [? _].
    - apply Forall_cons in Hv as [_ Hv]. destruct (IH c' Hv) as (s' & d & E & Hd). exists (String c s'), d. split; [by rewrite string_app_cons, <- E | done]. }
  exists c, s, d, s'. apply Forall_cons in Hv as [Hc _]. apply digit_plain in Hc as [Hc _]. apply digit_plain in Hd as [Hd _]. split_and!; try done.
  unfold blank, line_end in *. set_solver.
Qed.

Lemma captured_length resp lines n : 0 <= n < 2 ^ 63 -> sends "content-length:" (pretty n) lines ->
  content_length (foldl CaptureHeaders resp lines) = n.
Proof.
  intros Hn (l1 & line & l2 & -> & (nm & ws & -> & Hnm & Hws) & Ho). apply Forall_app in Ho as [_ Ho]. rewrite foldl_app. cbn [foldl].
  rewrite (captured_omits_length _ _ Ho). destruct (capture_fields (foldl CaptureHeaders resp l1) (nm +:+ ws +:+ pretty n +:+ CRLF)) as (_ & -> & _).
  destruct (pretty_digits n) as (_ & Hd & Hne); [lia|]. rewrite (after_name_app _ _ _ Hnm), trim_ok by auto using digits_clean.
  apply String.eqb_neq in Hne as ->. by apply strtoll_pretty.
Qed.

(** ** The service *)

Record Object := mkObject { ob_bytes : bytes; ob_etag : string }.
Abbreviation objects := (gmap string Object).

Definition range_line (a b : Z) : string := "Range: bytes=" +:+ pretty a +:+ "-" +:+ pretty b.
Definition if_match_line (e : string) : string := "If-Match: " +:+ quoted e.
Definition if_none_match_line : string := "If-None-Match: *".

(** The conditions of a PUT hold of the object it replaces. *)
Definition precondition (o : objects) (v : View) : Prop :=
  (if_none_match_line ∈ v_headers v -> o !! v_key v = None) /\
  (forall e, if_match_line e ∈ v_headers v -> exists ob, o !! v_key v = Some ob /\ ob_etag ob = e).

(** A write that took effect, whatever was answered. *)
Definition may_write (o : objects) (v : View) (o' : objects) : Prop :=
  o' = o \/ (v_method v = "PUT" /\ precondition o v /\ exists e, e <> "" /\ o' = <[v_key v := mkObject (v_payload v) e]> o) \/
  (v_method v = "DELETE" /\ o' = delete (v_key v) o).

Definition replies (r : CurlReply) (st : Z) : Prop := cr_error r = None /\ cr_status r = st.
Definition unranged (v : View) : Prop := forall a b, 0 <= a -> 0 <= b -> range_line a b ∉ v_headers v.

(** One request: what is answered and what becomes of the objects. *)
Inductive served (o : objects) (v : View) : CurlReply -> objects -> Prop :=
| sv_lost r o' : is_Some (cr_error r) -> may_write o v o' -> served o v r o'
| sv_broken r o' st : replies r st -> 500 <= st -> may_write o v o' -> served o v r o'
| sv_refused r st : replies r st -> 300 <= st < 500 -> st ∉ [404; 412; 416] -> served o v r o
| sv_get r ob : v_method v = "GET" -> v_query v = [] -> unranged v -> o !! v_key v = Some ob -> replies r 200 ->
    cr_body r = ob_bytes ob -> sends "etag:" (quoted (ob_etag ob)) (cr_headers r) -> served o v r o
| sv_range r ob a b : v_method v = "GET" -> v_query v = [] -> range_line a b ∈ v_headers v -> o !! v_key v = Some ob -> replies r 206 ->
    0 <= a <= b -> a < Z.of_nat (length (ob_bytes ob)) ->
    cr_body r = slice (Z.to_nat a) (Z.to_nat (b - a + 1)) (ob_bytes ob) -> served o v r o
| sv_range_out r ob a b : v_method v = "GET" -> v_query v = [] -> range_line a b ∈ v_headers v -> o !! v_key v = Some ob -> replies r 416 ->
    0 <= a -> 0 <= b -> b < a \/ Z.of_nat (length (ob_bytes ob)) <= a -> served o v r o
| sv_head r ob : v_method v = "HEAD" -> o !! v_key v = Some ob -> replies r 200 ->
    sends "etag:" (quoted (ob_etag ob)) (cr_headers r) -> sends "content-length:" (pretty (Z.of_nat (length (ob_bytes ob)))) (cr_headers r) ->
    served o v r o
| sv_missing r : v_method v = "HEAD" \/ v_method v = "GET" /\ v_query v = [] -> o !! v_key v = None -> replies r 404 -> served o v r o
| sv_put r e : v_method v = "PUT" -> precondition o v -> e <> "" -> replies r 200 ->
    sends "etag:" (quoted e) (cr_headers r) \/ omits "etag:" (cr_headers r) -> served o v r (<[v_key v := mkObject (v_payload v) e]> o)
| sv_put_failed r : v_method v = "PUT" -> ~ precondition o v -> replies r 412 \/ replies r 404 /\ o !! v_key v = None -> served o v r o
| sv_delete r : v_method v = "DELETE" -> replies r 204 \/ replies r 200 -> served o v r (delete (v_key v) o)
| sv_delete_missing r : v_method v = "DELETE" -> o !! v_key v = None -> replies r 404 -> served o v r o.

(** Objects have an ETag and fit the [Content-Length] header. *)
Definition objects_ok (o : objects) : Prop := forall k ob, o !! k = Some ob -> ob_etag ob <> "" /\ Z.of_nat (length (ob_bytes ob)) < 2 ^ 63.

Class S3Service (St : Type) `{!Hashes, !Hmac, !Curl St} (c : S3Config) := {
  objects_of : St -> objects;
  service_ok : forall st, objects_ok (objects_of st);
  service_served : forall r v st, server_view (endpoint c) r = Some v -> accepted c r -> v_query v = [] ->
    served (objects_of st) v (curl_perform r st).1 (objects_of (curl_perform r st).2);
}.

Section Adapters.

Context {St : Type} {hashes : Hashes} {hmac : Hmac} {curl : Curl St} (c : S3Config) {service : S3Service St c} (Hep : valid_endpoint (endpoint c)) (bucket : string).
Implicit Types (st : St).

(** The headers of every request come first; they are neither conditions nor
    ranges. *)
Lemma extra_header now m key q p h ho line : line ∈ rq_headers (build_request c now m key q p h ho) ->
  (exists s, line = String "I" s \/ line = String "R" s) -> line ∈ h.
Proof.
  unfold build_request. cbn [rq_headers]. rewrite elem_of_app. intros [Hl|Hl] [s Hs]; [|done].
  rewrite !elem_of_cons, elem_of_nil in Hl. destruct Hl as [->|[->|[->|[->|[]]]]]; by destruct Hs.
Qed.

(** A request of the client, as the service treats it. *)
Lemma do_served m key p h ho st : m = "PUT" \/ p = None ->
  exists r v, Do c m key [] p h ho st = (Ok (response_of r), (curl_perform (build_request c (std_time st) m key [] p h ho) st).2) /\
    served (objects_of st) v r (objects_of (curl_perform (build_request c (std_time st) m key [] p h ho) st).2) /\
    v_method v = m /\ v_key v = key /\ v_query v = [] /\ v_payload v = (if String.eqb m "PUT" then default [] p else []) /\
    (forall line, (exists s, line = String "I" s \/ line = String "R" s) -> line ∈ v_headers v <-> line ∈ h).
Proof.
  intros Hm. set (r := build_request c (std_time st) m key [] p h ho).
  pose proof (view_build c (std_time st) m key [] p h ho) as Hv. pose proof (build_accepted c (std_time st) m key [] p h ho Hep Hm) as Ha.
  pose proof (service_served r _ st Hv Ha eq_refl) as Hs. exists (curl_perform r st).1. eexists. split.
  { unfold Do. fold r. by destruct (curl_perform r st). }
  split; [exact Hs|]. split_and!; try done. intros line Hl. cbn [v_headers]. split; [intros Hin; by eapply extra_header|].
  intros Hin. unfold build_request. cbn [rq_headers]. apply elem_of_app. by right.
Qed.

Lemma response_fields r : transport_error (response_of r) = bool_decide (is_Some (cr_error r)) /\
  (cr_error r = None -> status (response_of r) = cr_status r /\ body (response_of r) = cr_body r /\
    etag (response_of r) = etag (foldl CaptureHeaders (mkResponse 0 false (cr_body r) "" (-1)) (cr_headers r)) /\
    content_length (response_of r) = content_length (foldl CaptureHeaders (mkResponse 0 false (cr_body r) "" (-1)) (cr_headers r))).
Proof.
  unfold response_of. destruct (cr_error r) as [msg|]; [by split|]. split; [done|]. intros _. cbn [status body etag content_length].
  by rewrite (proj1 (captured_body _ _)).
Qed.
(** What the conditions of a PUT ask of the object. *)
Definition cond_ok (cond : PutCondition) (expected : string) (x : option Object) : Prop :=
  match cond with
  | CondNone => True
  | IfNoneMatchStar => x = None
  | IfMatch => exists ob, x = Some ob /\ ob_etag ob = expected
  end.

Definition maybe_put (key : string) (b : bytes) (ok : Prop) (o o' : objects) : Prop :=
  o' = o \/ (ok /\ exists e, e <> "" /\ o' = <[key := mkObject b e]> o).

Lemma quoted_inj a b : quoted a = quoted b -> a = b.
Proof. intros H. by rewrite <- (strip_quoted a), H, strip_quoted. Qed.

Lemma cond_precondition o v cond e : (forall line, (exists s, line = String "I" s \/ line = String "R" s) ->
    line ∈ v_headers v <-> line ∈ condition_headers cond e) ->
  precondition o v <-> cond_ok cond e (o !! v_key v).
Proof.
  intros Hh. unfold precondition.
  assert (Hn : if_none_match_line ∈ v_headers v <-> if_none_match_line ∈ condition_headers cond e) by (apply Hh; eexists; by left).
  assert (Hm : forall x, if_match_line x ∈ v_headers v <-> if_match_line x ∈ condition_headers cond e) by (intros x; apply Hh; eexists; by left).
  assert (Hq : "If-Match: " +:+ String "034" (e +:+ String "034" "") = if_match_line e) by done.
  setoid_rewrite Hn. setoid_rewrite Hm. destruct cond; cbn [condition_headers cond_ok]; rewrite ?Hq.
  - split; [done|]. intros _. split; [by intros ?%not_elem_of_nil | by intros x ?%not_elem_of_nil].
  - setoid_rewrite list_elem_of_singleton. split; [intros [H _]; by apply H | intros H; split; [done|]]. intros x Hx. by destruct x.
  - setoid_rewrite list_elem_of_singleton. split; [intros [_ H]; by apply H|]. intros H. split; [by destruct e|].
    intros x Hx. assert (x = e) as ->; [|done]. apply (f_equal (strip_prefix "If-Match: ")) in Hx. unfold if_match_line in Hx.
    rewrite !strip_prefix_app in Hx. apply quoted_inj. congruence.
Qed.

Inductive put_answer (key : string) (b : bytes) (ok : Prop) (o : objects) : S3Response -> objects -> Prop :=
| pa_unknown r o' : transport_error r = true \/ transport_error r = false /\ 500 <= status r -> maybe_put key b ok o o' -> put_answer key b ok o r o'
| pa_refused r : transport_error r = false -> 300 <= status r < 500 -> status r ∉ [404; 412; 416] -> put_answer key b ok o r o
| pa_done r e : transport_error r = false -> status r = 200 -> ok -> e <> "" -> etag r = e \/ etag r = "" ->
    put_answer key b ok o r (<[key := mkObject b e]> o)
| pa_failed r : transport_error r = false -> ~ ok -> status r = 412 \/ status r = 404 /\ o !! key = None -> put_answer key b ok o r o.

Lemma replied r n : replies r n -> transport_error (response_of r) = false /\ status (response_of r) = n /\ body (response_of r) = cr_body r.
Proof.
  intros [He Hs]. destruct (response_fields r) as [Ht Hf]. destruct (Hf He) as (H1 & H2 & _). rewrite Ht, H1, H2, Hs, He. done.
Qed.

Lemma replied_etag r n e : replies r n -> sends "etag:" (quoted e) (cr_headers r) -> etag (response_of r) = e.
Proof. intros [He _] Hs. destruct (response_fields r) as [_ Hf]. destruct (Hf He) as (_ & _ & -> & _). by apply captured_etag. Qed.

Lemma replied_no_etag r n : replies r n -> omits "etag:" (cr_headers r) -> etag (response_of r) = "".
Proof. intros [He _] Hs. destruct (response_fields r) as [_ Hf]. destruct (Hf He) as (_ & _ & -> & _). by rewrite captured_omits. Qed.

Lemma lost_error r : is_Some (cr_error r) -> transport_error (response_of r) = true /\ status (response_of r) = 0.
Proof. intros [msg He]. unfold response_of. rewrite He. split; [done|]. exact (proj2 (captured_body _ _)). Qed.

(** A PUT of the client. *)
Lemma put_served key b cond e st : exists r st', Client_Put c key b cond e st = (Ok r, st') /\
  put_answer key b (cond_ok cond e (objects_of st !! key)) (objects_of st) r (objects_of st').
Proof.
  destruct (do_served "PUT" key (Some b) (condition_headers cond e) false st) as (r & v & Hdo & Hs & Hm & Hk & Hq & Hp & Hh); [by left|].
  pose proof (cond_precondition (objects_of st) v cond e Hh) as Hpre. rewrite Hk in Hpre. change (v_payload v = b) in Hp.
  exists (response_of r). eexists. split; [exact Hdo|].
  assert (Hmay : forall o', may_write (objects_of st) v o' -> maybe_put key b (cond_ok cond e (objects_of st !! key)) (objects_of st) o').
  { intros o' [->|[(_ & Hw & e' & He & ->)|[Hd _]]]; [by left | right | congruence]. split; [by apply Hpre|]. exists e'. by rewrite Hk, Hp. }
  clear Hdo. revert Hs. generalize (objects_of (curl_perform (build_request c (std_time st) "PUT" key [] (Some b) (condition_headers cond e) false) st).2).
  intros o' Hs. destruct Hs as [r o' Hl Hw|r o' n Hr Hn Hw|r n Hr Hn Hx| | | | |r Hm'|r e' _ Hpr Hne Hr Het|r _ Hpr Hr| |]; try congruence.
  - apply pa_unknown; [left; by apply lost_error | by apply Hmay].
  - destruct (replied _ _ Hr) as (H2 & H3 & _). apply pa_unknown; [right; by rewrite H3 | by apply Hmay].
  - destruct (replied _ _ Hr) as (H2 & H3 & _). apply pa_refused; [done | lia | by rewrite H3].
  - destruct Hm' as [Hm'|[Hm' _]]; congruence.
  - destruct (replied _ _ Hr) as (H5 & H6 & _). rewrite Hk, Hp. apply pa_done; [done | done | by apply Hpre | done|].
    destruct Het; [left; by eapply replied_etag | right; by eapply replied_no_etag].
  - rewrite Hpre in Hpr. destruct Hr as [Hr|[Hr Hno]]; destruct (replied _ _ Hr) as (H5 & H6 & _); apply pa_failed; auto. right. by rewrite <- Hk.
Qed.

(** The reads of the client. *)
Definition no_answer (r : S3Response) : Prop :=
  transport_error r = true /\ status r = 0 \/ transport_error r = false /\ 300 <= status r /\ status r ∉ [404; 412; 416].

Lemma refused_no_answer r n : replies r n -> 300 <= n < 500 -> n ∉ [404; 412; 416] -> no_answer (response_of r).
Proof. intros Hr Hn Hx. destruct (replied _ _ Hr) as (H2 & H3 & _). right. rewrite H3. split; [done|]. split; [lia | done]. Qed.

Lemma broken_no_answer r n : replies r n -> 500 <= n -> no_answer (response_of r).
Proof.
  intros Hr Hn. destruct (replied _ _ Hr) as (H2 & H3 & _). right. rewrite H3. split; [done|]. split; [lia|].
  rewrite !not_elem_of_cons, elem_of_nil. lia.
Qed.

Lemma lost_no_answer r : is_Some (cr_error r) -> no_answer (response_of r).
Proof. intros He. left. by apply lost_error. Qed.

Hint Resolve refused_no_answer broken_no_answer lost_no_answer : core.

Lemma may_read o v o' : v_method v = "GET" \/ v_method v = "HEAD" -> may_write o v o' -> o' = o.
Proof. intros Hm [->|[[Hx _]|[Hx _]]]; destruct Hm; congruence. Qed.

(** The answers that say nothing. *)
Ltac read_fails := try (split; [first [reflexivity | eapply may_read; [|eassumption]; by auto] | left; by eauto]).

Lemma head_served key st : exists r st', Head c key st = (Ok r, st') /\ objects_of st' = objects_of st /\
  (no_answer r \/ transport_error r = false /\
    match objects_of st !! key with
    | Some ob => status r = 200 /\ etag r = ob_etag ob /\ content_length r = Z.of_nat (length (ob_bytes ob))
    | None => status r = 404
    end).
Proof.
  destruct (do_served "HEAD" key None [] true st) as (r & v & Hdo & Hs & Hm & Hk & Hq & Hp & Hh); [by right|].
  exists (response_of r). eexists. split; [exact Hdo|]. clear Hdo. revert Hs.
  generalize (objects_of (curl_perform (build_request c (std_time st) "HEAD" key [] None [] true) st).2). intros o' Hs.
  destruct Hs as [r o' Hl Hw|r o' n Hr Hn Hw|r n Hr Hn Hx| | | |r ob _ Hob Hr He Hlen|r _ Hob Hr| | | |]; try congruence; read_fails.
  - destruct (replied _ _ Hr) as (H2 & H3 & _). split; [done|]. right. split; [done|]. rewrite Hk in Hob. rewrite Hob. split; [done|].
    split; [by eapply replied_etag|]. pose proof (service_ok st _ _ Hob) as [_ Hb]. destruct Hr as [Hr _]. destruct (response_fields r) as [_ Hf].
    destruct (Hf Hr) as (_ & _ & _ & ->). apply captured_length; [lia | done].
  - destruct (replied _ _ Hr) as (H2 & H3 & _). split; [done|]. right. rewrite Hk in Hob. by rewrite Hob.
Qed.

Lemma get_served key st : exists r st', Client_Get c key st = (Ok r, st') /\ objects_of st' = objects_of st /\
  (no_answer r \/ transport_error r = false /\
    match objects_of st !! key with Some ob => status r = 200 /\ etag r = ob_etag ob /\ body r = ob_bytes ob | None => status r = 404 end).
Proof.
  destruct (do_served "GET" key None [] false st) as (r & v & Hdo & Hs & Hm & Hk & Hq & Hp & Hh); [by right|].
  exists (response_of r). eexists. split; [exact Hdo|]. clear Hdo. revert Hs.
  generalize (objects_of (curl_perform (build_request c (std_time st) "GET" key [] None [] false) st).2). intros o' Hs.
  assert (Hnr : forall a b, range_line a b ∉ v_headers v).
  { intros a b Hin. apply Hh in Hin; [by apply not_elem_of_nil in Hin | eexists; by right]. }
  destruct Hs as [r o' Hl Hw|r o' n Hr Hn Hw|r n Hr Hn Hx|r ob _ _ _ Hob Hr Hb He|r ob a b _ _ Hin|r ob a b _ _ Hin| |r _ Hob Hr| | | |];
    try congruence; read_fails; try (by destruct (Hnr a b)).
  - destruct (replied _ _ Hr) as (H2 & H3 & H4). split; [done|]. right. split; [done|]. rewrite Hk in Hob. rewrite Hob, H4. split_and!; auto.
    by eapply replied_etag.
  - destruct (replied _ _ Hr) as (H2 & H3 & _). split; [done|]. right. rewrite Hk in Hob. by rewrite Hob.
Qed.

Lemma range_line_inj a b a' b' : 0 <= a -> 0 <= b -> 0 <= a' -> 0 <= b' -> range_line a b = range_line a' b' -> a = a' /\ b = b'.
Proof.
  intros Ha Hb Ha' Hb' E. apply (f_equal (strip_prefix "Range: bytes=")) in E. unfold range_line in E. rewrite !strip_prefix_app in E. injection E as E.
  assert (Hd : forall n, 0 <= n -> all_chars (.≠ "-"%char) (pretty n)).
  { intros n Hn. destruct (pretty_digits n Hn) as (_ & Hd & _). eapply Forall_impl; [exact Hd|]. intros x Hx ->. by vm_compute in Hx. }
  apply (f_equal (cut "-")) in E. change ("-" +:+ ?s) with (String "-" s) in E. rewrite !cut_app in E by auto. injection E as E1 E2.
  split; by apply (inj pretty).
Qed.

(** A range of an object that the file was opened with. *)
Lemma range_served key a len st ob : 0 <= a -> 0 < len -> a + len <= Z.of_nat (length (ob_bytes ob)) -> objects_of st !! key = Some ob ->
  exists r st', GetRange c key a len st = (Ok r, st') /\ objects_of st' = objects_of st /\
    (no_answer r \/ transport_error r = false /\ status r = 206 /\ body r = slice (Z.to_nat a) (Z.to_nat len) (ob_bytes ob)).
Proof.
  intros Ha Hl Hle Hob. pose proof (service_ok st _ _ Hob) as [_ Hsz]. unfold GetRange. destruct (Z.eqb_spec len 0); [lia|].
  set (h := [range_header a len]). destruct (do_served "GET" key None h false st) as (r & v & Hdo & Hs & Hm & Hk & Hq & Hp & Hh); [by right|].
  exists (response_of r). eexists. split; [exact Hdo|]. clear Hdo. revert Hs.
  generalize (objects_of (curl_perform (build_request c (std_time st) "GET" key [] None h false) st).2). intros o' Hs.
  assert (Hin : range_line a (a + len - 1) ∈ v_headers v).
  { apply Hh; [eexists; by right|]. unfold h, range_header. rewrite u64_small by lia. by apply list_elem_of_singleton. }
  assert (Hrg : forall x y, range_line x y ∈ v_headers v -> range_line x y = range_line a (a + len - 1)).
  { intros x y Hx. apply Hh in Hx; [|eexists; by right]. unfold h in Hx. apply list_elem_of_singleton in Hx. rewrite Hx. unfold range_header.
    by rewrite u64_small by lia. }
  rewrite <- Hk in Hob.
  destruct Hs as [r o' Hl' Hw|r o' n' Hr Hn Hw|r n' Hr Hn Hx|r ob' _ _ Hnr|r ob' x y _ _ Hxy Hob' Hr Hx Hlt Hb|r ob' x y _ _ Hxy Hob' Hr H0 H1 Hx| |r _ Hob' Hr| | | |];
    try congruence; read_fails; try (by destruct (Hnr a (a + len - 1) ltac:(lia) ltac:(lia) Hin)).
  - destruct (replied _ _ Hr) as (H2 & H3 & H4). split; [done|]. right. split; [done|]. split; [done|]. rewrite H4, Hb.
    apply Hrg in Hxy. apply range_line_inj in Hxy as [-> ->]; try lia. assert (ob' = ob) as -> by congruence. f_equal. lia.
  - exfalso. apply Hrg in Hxy. apply range_line_inj in Hxy as [-> ->]; try lia. assert (ob' = ob) as -> by congruence. lia.
Qed.

Lemma delete_served key st : exists r st', Client_Delete c key st = (Ok r, st') /\
  (no_answer r /\ (objects_of st' = objects_of st \/ objects_of st' = delete key (objects_of st)) \/
   transport_error r = false /\ status r ∈ [204; 200; 404] /\ objects_of st' = delete key (objects_of st)).
Proof.
  destruct (do_served "DELETE" key None [] false st) as (r & v & Hdo & Hs & Hm & Hk & Hq & Hp & Hh); [by right|].
  exists (response_of r). eexists. split; [exact Hdo|]. clear Hdo. revert Hs.
  generalize (objects_of (curl_perform (build_request c (std_time st) "DELETE" key [] None [] false) st).2). intros o' Hs.
  assert (Hw' : forall o', may_write (objects_of st) v o' -> o' = objects_of st \/ o' = delete key (objects_of st)).
  { intros o1 [->|[[Hx _]|[_ ->]]]; [by left | congruence | right; by rewrite Hk]. }
  destruct Hs as [r o' Hl Hw|r o' n Hr Hn Hw|r n Hr Hn Hx| | | | |r Hm'| | |r _ Hr|r _ Hob Hr]; try congruence.
  - left. auto.
  - left. eauto.
  - left. eauto.
  - destruct Hm' as [Hm'|[Hm' _]]; congruence.
  - right. rewrite Hk. destruct Hr as [Hr|Hr]; destruct (replied _ _ Hr) as (H2 & H3 & _); rewrite H3; (split; [done|]; split; [set_solver | done]).
  - right. rewrite Hk in Hob. destruct (replied _ _ Hr) as (H2 & H3 & _). rewrite H3, delete_id by done. split; [done|]. split; [set_solver | done].
Qed.

(** ** The metadata store *)

(** A conditional write: applied where its condition held, refused where it did
    not, or of unknown effect. *)
Inductive write_outcome (key : string) (value : bytes) (want : bool) (ok : Prop) (o : objects)
  : result (ConditionalWriteResult * option MetadataVersion) -> objects -> Prop :=
| wo_applied e : ok -> e <> "" ->
    write_outcome key value want ok o (Ok (MemMetadataStore.Applied, if want then Some e else None)) (<[key := mkObject value e]> o)
| wo_failed : ~ ok -> write_outcome key value want ok o (Ok (MemMetadataStore.PreconditionFailed, None)) o
| wo_unknown r o' : r = Ok (MemMetadataStore.RetryableConflict, None) \/ (exists msg, r = Fail (Throw runtime_error msg)) ->
    maybe_put key value ok o o' -> write_outcome key value want ok o r o'.

Lemma applied_ok key value want ok o r st e : transport_error r = false -> ok -> e <> "" -> etag r = e \/ etag r = "" ->
  objects_of st = <[S3MetadataStore.ObjectKey bucket key := mkObject value e]> o ->
  exists res st', S3MetadataStore.applied c bucket want key r st = (res, st') /\
    write_outcome (S3MetadataStore.ObjectKey bucket key) value want ok o res (objects_of st').
Proof.
  intros Ht Hok Hne He Ho. unfold S3MetadataStore.applied. set (k := S3MetadataStore.ObjectKey bucket key) in *.
  destruct want; [|eexists _, st; split; [reflexivity|]; rewrite Ho; by apply (wo_applied k value false)].
  unfold S3MetadataStore.ResolveVersion. fold k. destruct (String.eqb_spec (etag r) "") as [E|E]; cbn [negb].
  - destruct (head_served k st) as (h & st' & Hh & Ho' & Hr). unfold bind. rewrite Hh. rewrite Ho, lookup_insert_eq in Hr. cbn [ob_etag] in Hr.
    destruct ((status h =? 200) && negb (String.eqb (etag h) "")) eqn:G.
    + apply andb_true_iff in G as [G1%Z.eqb_eq G2]. eexists _, _. split; [reflexivity|]. rewrite Ho', Ho. destruct Hr as [[[_ Hr]|(_ & Hr & _)]|(_ & _ & -> & _)]; [lia | lia|].
      by apply (wo_applied k value true).
    + eexists _, _. split; [reflexivity|]. rewrite Ho', Ho. apply wo_unknown; [right; eauto|]. right. eauto.
  - destruct He as [He|He]; [|done]. eexists _, _. split; [reflexivity|]. rewrite Ho, He. by apply (wo_applied k value true).
Qed.

(** The two conditional writes, after their PUT. *)
Lemma write_ok key value want ok o r st (retry : Z -> bool) msg : put_answer (S3MetadataStore.ObjectKey bucket key) value ok o r (objects_of st) ->
  (forall n, retry n = true -> n = 412 \/ n = 404) -> retry 412 = true -> (retry 404 = true \/ (o !! S3MetadataStore.ObjectKey bucket key = None -> ok)) ->
  exists res st', (if transport_error r then ret (MemMetadataStore.RetryableConflict, None)
    else if status r =? 200 then S3MetadataStore.applied c bucket want key r
    else if retry (status r) then ret (MemMetadataStore.PreconditionFailed, None)
    else if 500 <=? status r then ret (MemMetadataStore.RetryableConflict, None)
    else throw runtime_error (msg (status r))) st = (res, st') /\
    write_outcome (S3MetadataStore.ObjectKey bucket key) value want ok o res (objects_of st').
Proof.
  intros Hp Hr1 Hr2 Hr3. remember (objects_of st) as o1 eqn:Eo1. destruct Hp as [r o' Hlost Hm|r Ht Hn Hx|r e Ht Hs Hok Hne He|r Ht Hno Hs].
  - assert (Hu : forall x, x = Ok (MemMetadataStore.RetryableConflict, None) \/ (exists m, x = Fail (Throw runtime_error m)) ->
      write_outcome (S3MetadataStore.ObjectKey bucket key) value want ok o x (objects_of st)) by (intros x Hx; subst; by apply wo_unknown).
    destruct (transport_error r); [eexists _, _; split; [reflexivity|]; apply Hu; by left|]. destruct Hlost as [|[_ Hn]]; [done|].
    destruct (Z.eqb_spec (status r) 200); [lia|]. destruct (retry (status r)) eqn:Er; [apply Hr1 in Er; lia|].
    destruct (Z.leb_spec 500 (status r)); [|lia]. eexists _, _. split; [reflexivity|]. apply Hu. by left.
  - rewrite Ht. rewrite !not_elem_of_cons in Hx. destruct (Z.eqb_spec (status r) 200); [lia|]. destruct (retry (status r)) eqn:Er; [apply Hr1 in Er; lia|].
    destruct (Z.leb_spec 500 (status r)); [lia|]. eexists _, _. split; [reflexivity|]. rewrite <- Eo1. apply wo_unknown; [right; eauto | by left].
  - rewrite Ht, Hs. apply (applied_ok key value want ok o r st e); auto.
  - rewrite Ht. destruct (Z.eqb_spec (status r) 200); [lia|]. assert (retry (status r) = true) as ->.
    { destruct Hs as [->|[-> Hk]]; [done|]. destruct Hr3 as [|Hr3]; [done|]. destruct Hno. by apply Hr3. }
    eexists _, _. split; [reflexivity|]. rewrite <- Eo1. by apply wo_failed.
Qed.

Definition get_outcome (x : option Object) (r : result (option VersionedValue)) : Prop :=
  match r with
  | Ok o => o = (fun ob => MemMetadataStore.mkVersioned (ob_bytes ob) (ob_etag ob)) <$> x
  | Fail (Throw runtime_error _) => True
  | Fail _ => False
  end.

Lemma s3_meta_get key st : exists r st', S3MetadataStore.Get c bucket key st = (r, st') /\ objects_of st' = objects_of st /\
  get_outcome (objects_of st !! S3MetadataStore.ObjectKey bucket key) r.
Proof.
  destruct (get_served (S3MetadataStore.ObjectKey bucket key) st) as (r & st' & Hg & Ho & Hr). unfold S3MetadataStore.Get, bind. rewrite Hg.
  destruct Hr as [[[Ht _]|(Ht & Hn & Hx)]|(Ht & Hr)]; rewrite Ht.
  - by eexists _, _.
  - rewrite !not_elem_of_cons in Hx. destruct (Z.eqb_spec (status r) 404); [lia|]. destruct (Z.eqb_spec (status r) 200); [lia|]. by eexists _, _.
  - destruct (objects_of st !! S3MetadataStore.ObjectKey bucket key) as [ob|] eqn:Eo; [|rewrite Hr; eexists _, _; by split; [reflexivity|]].
    destruct Hr as (-> & -> & ->). destruct (service_ok st _ _ Eo) as [Hne _]. apply String.eqb_neq in Hne. cbn [Z.eqb negb]. rewrite Hne. by eexists _, _.
Qed.

Lemma s3_meta_put key value want st : exists r st', S3MetadataStore.PutIfAbsent c bucket key value want st = (r, st') /\
  write_outcome (S3MetadataStore.ObjectKey bucket key) value want (objects_of st !! S3MetadataStore.ObjectKey bucket key = None) (objects_of st) r (objects_of st').
Proof.
  destruct (put_served (S3MetadataStore.ObjectKey bucket key) value IfNoneMatchStar "" st) as (r & st1 & Hp & Ha). unfold S3MetadataStore.PutIfAbsent, bind.
  rewrite Hp. cbn [cond_ok] in Ha.
  apply (write_ok key value want _ _ r st1 (fun n => n =? 412) (fun n => "S3MetadataStore: PutIfAbsent " +:+ key +:+ " status " +:+ pretty n) Ha); [| done|].
  - intros n Hn%Z.eqb_eq. by left.
  - by right.
Qed.

Lemma s3_meta_cas key expected value want st : let k := S3MetadataStore.ObjectKey bucket key in
  exists r st', S3MetadataStore.CompareExchange c bucket key expected value want st = (r, st') /\
  write_outcome k value want (exists ob, objects_of st !! k = Some ob /\ ob_etag ob = expected) (objects_of st) r (objects_of st').
Proof.
  intros k. destruct (put_served k value IfMatch expected st) as (r & st1 & Hp & Ha). unfold S3MetadataStore.CompareExchange, bind. fold k. rewrite Hp.
  apply (write_ok key value want _ _ r st1 (fun n => (n =? 412) || (n =? 404)) (fun n => "S3MetadataStore: CompareExchange " +:+ key +:+ " status " +:+ pretty n) Ha).
  - intros n. rewrite orb_true_iff, !Z.eqb_eq. tauto.
  - done.
  - by left.
Qed.

(** ** The byte storage *)

(** [A] on success; a hard error is a [runtime_error], and then [B]. *)
Definition outcome {A} (r : result A) (ok : A -> Prop) (err : Prop) : Prop :=
  match r with Ok a => ok a | Fail (Throw runtime_error _) => err | Fail _ => False end.

Abbreviation object_key := (S3FileStorage.ObjectKey bucket).

Lemma s3_open path st : exists r st', S3FileStorage.OpenInput c bucket path st = (r, st') /\ objects_of st' = objects_of st /\
  outcome r (fun f => f = (fun ob => S3FileStorage.mkInput (object_key path) (Z.of_nat (length (ob_bytes ob)))) <$> (objects_of st !! object_key path)) True.
Proof.
  destruct (head_served (object_key path) st) as (r & st' & Hg & Ho & Hr). unfold S3FileStorage.OpenInput, bind. rewrite Hg.
  destruct Hr as [[[Ht _]|(Ht & Hn & Hx)]|(Ht & Hr)]; rewrite Ht.
  - by eexists _, _.
  - rewrite !not_elem_of_cons in Hx. destruct (Z.eqb_spec (status r) 404); [lia|]. destruct (Z.eqb_spec (status r) 200); [lia|]. by eexists _, _.
  - destruct (objects_of st !! object_key path) as [ob|] eqn:Eo; [|rewrite Hr; by eexists _, _].
    destruct Hr as (-> & _ & ->). destruct (Z.leb_spec 0 (Z.of_nat (length (ob_bytes ob)))); [|lia]. by eexists _, _.
Qed.

(** A read of the file as it was opened. *)
Lemma s3_read key ob off len st : 0 <= off -> 0 <= len -> off + len < 2 ^ 64 -> objects_of st !! key = Some ob ->
  exists r st', S3FileStorage.ReadAt c (S3FileStorage.mkInput key (Z.of_nat (length (ob_bytes ob)))) off len st = (r, st') /\ objects_of st' = objects_of st /\
  outcome r (fun x => x = if off + len <=? Z.of_nat (length (ob_bytes ob)) then Some (slice (Z.to_nat off) (Z.to_nat len) (ob_bytes ob)) else None) True.
Proof.
  intros Hoff Hlen Hb Hob. unfold S3FileStorage.ReadAt. cbn [S3FileStorage.size_ S3FileStorage.in_key_]. rewrite u64_small by lia. set (n := Z.of_nat (length (ob_bytes ob))).
  destruct (Z.leb_spec (off + len) n) as [Hle|Hgt].
  - destruct (Z.ltb_spec n off); [lia|]. destruct (Z.ltb_spec n (off + len)); [lia|]. cbn [orb]. destruct (Z.eqb_spec len 0) as [->|Hz].
    { eexists _, _. split; [reflexivity|]. split; [done|]. done. }
    destruct (range_served key off len st ob) as (r & st' & Hg & Ho & Hr); auto; [lia|]. unfold bind. rewrite Hg.
    destruct Hr as [[[Ht _]|(Ht & Hn & Hx)]|(Ht & Hs & Hbd)]; rewrite Ht.
    + by eexists _, _.
    + rewrite !not_elem_of_cons in Hx. destruct (Z.eqb_spec (status r) 206); [lia|]. destruct (Z.eqb_spec (status r) 200); [lia|].
      destruct (Z.eqb_spec (status r) 416); [lia|]. destruct (Z.eqb_spec (status r) 404); [lia|]. by eexists _, _.
    + rewrite Hs, Hbd. by eexists _, _.
  - destruct (Z.ltb_spec n (off + len)); [|lia]. rewrite orb_true_r. by eexists _, _.
Qed.

Definition create_outcome (k : string) (b : bytes) (o : objects) (r : result CreateFileResult) (o' : objects) : Prop :=
  outcome r (fun res => match res with
    | Created => o !! k = None /\ exists e, o' = <[k := mkObject b e]> o
    | AlreadyExists => is_Some (o !! k) /\ o' = o
    | RetryableConflict => maybe_put k b (o !! k = None) o o'
    end) (o' = o).

Lemma s3_create path b st : exists r st', S3FileStorage.CreateIfAbsent c bucket path b st = (r, st') /\
  create_outcome (object_key path) b (objects_of st) r (objects_of st').
Proof.
  destruct (put_served (object_key path) b IfNoneMatchStar "" st) as (r & st' & Hp & Ha). unfold S3FileStorage.CreateIfAbsent, bind. rewrite Hp.
  cbn [cond_ok] in Ha. remember (objects_of st') as o2 eqn:Eo2. destruct Ha as [r o' Hl Hm|r Ht Hn Hx|r e Ht Hs Hok Hne He|r Ht Hno Hs].
  - assert (transport_error r || (status r =? 409) || (500 <=? status r) = true) as ->; [|eexists _, _; split; [reflexivity | by rewrite <- Eo2]].
    destruct Hl as [->|[_ Hl]]; [done|]. destruct (Z.leb_spec 500 (status r)); [by rewrite orb_true_r | lia].
  - rewrite !not_elem_of_cons in Hx. rewrite Ht. cbn [orb]. destruct (Z.eqb_spec (status r) 409); [eexists _, _; split; [reflexivity|]; rewrite <- Eo2; by left|].
    destruct (Z.leb_spec 500 (status r)); [lia|]. destruct (Z.eqb_spec (status r) 200); [lia|]. destruct (Z.eqb_spec (status r) 412); [lia|].
    eexists _, _. split; [reflexivity | by rewrite <- Eo2].
  - rewrite Ht, Hs. eexists _, _. split; [reflexivity|]. rewrite <- Eo2. split; [done|]. by exists e.
  - assert (Hsome : is_Some (objects_of st !! object_key path)) by (by destruct (objects_of st !! object_key path)).
    destruct Hs as [Hs|[_ Hs]]; [|by destruct Hno]. rewrite Ht, Hs. eexists _, _. split; [reflexivity | by rewrite <- Eo2].
Qed.

Lemma s3_close o st : exists r st', S3FileStorage.Close c o st = (r, st') /\
  outcome r (fun o1 => S3FileStorage.closed_ o1 = true /\
    if S3FileStorage.closed_ o then objects_of st' = objects_of st
    else exists e, objects_of st' = <[S3FileStorage.out_key_ o := mkObject (S3FileStorage.buffer_ o) e]> (objects_of st))
    (maybe_put (S3FileStorage.out_key_ o) (S3FileStorage.buffer_ o) True (objects_of st) (objects_of st')).
Proof.
  unfold S3FileStorage.Close. destruct (S3FileStorage.closed_ o) eqn:Ec; [by eexists _, _|].
  destruct (put_served (S3FileStorage.out_key_ o) (S3FileStorage.buffer_ o) CondNone "" st) as (r & st' & Hp & Ha). unfold bind. rewrite Hp.
  cbn [cond_ok] in Ha. remember (objects_of st') as o2 eqn:Eo2. destruct Ha as [r o' Hl Hm|r Ht Hn Hx|r e Ht Hs Hok Hne He|r Ht Hno Hs]; [| | |by destruct Hno].
  - destruct (transport_error r); [eexists _, _; split; [reflexivity | by rewrite <- Eo2]|]. destruct Hl as [|[_ Hl]]; [done|].
    destruct (Z.eqb_spec (status r) 200); [lia|]. eexists _, _. split; [reflexivity | by rewrite <- Eo2].
  - rewrite Ht. destruct (Z.eqb_spec (status r) 200); [lia|]. eexists _, _. split; [reflexivity|]. rewrite <- Eo2. by left.
  - rewrite Ht, Hs. eexists _, _. split; [reflexivity|]. rewrite <- Eo2. split; [done|]. by exists e.
Qed.

Lemma s3_delete path st : exists r st', S3FileStorage.Delete c bucket path st = (r, st') /\
  outcome r (fun _ => objects_of st' = delete (object_key path) (objects_of st))
    (objects_of st' = objects_of st \/ objects_of st' = delete (object_key path) (objects_of st)).
Proof.
  destruct (delete_served (object_key path) st) as (r & st' & Hd & Hr). unfold S3FileStorage.Delete, bind. rewrite Hd.
  destruct Hr as [[[[Ht _]|(Ht & Hn & Hx)] Ho]|(Ht & Hin & Ho)]; rewrite Ht.
  - by eexists _, _.
  - rewrite !not_elem_of_cons in Hx. destruct (Z.eqb_spec (status r) 204); [lia|]. destruct (Z.eqb_spec (status r) 200); [lia|].
    destruct (Z.eqb_spec (status r) 404); [lia|]. by eexists _, _.
  - rewrite !elem_of_cons, elem_of_nil in Hin. destruct Hin as [->|[->|[->|[]]]]; by eexists _, _.
Qed.

Lemma s3_exists path st : exists r st', S3FileStorage.Exists c bucket path st = (r, st') /\ objects_of st' = objects_of st /\
  outcome r (fun b => b = true -> is_Some (objects_of st !! object_key path)) True.
Proof.
  destruct (head_served (object_key path) st) as (r & st' & Hg & Ho & Hr). unfold S3FileStorage.Exists, bind. rewrite Hg.
  destruct (transport_error r) eqn:Et; [by eexists _, _|]. eexists _, _. split; [reflexivity|]. split; [done|]. intros Hs%Z.eqb_eq.
  destruct Hr as [[[Ht _]|(_ & Hn & _)]|(_ & Hr)]; [congruence | lia|]. destruct (objects_of st !! object_key path); [done | lia].
Qed.

End Adapters.

(** ** A service *)

(** An object server in memory: its objects, the number of the next ETag, and
    whether it sends ETags with its answers to PUTs. *)
Record Server := mkServer { s_raw : objects; s_next : Z; s_put_etag : bool }.

Definition fits (ob : Object) : Prop := ob_etag ob <> "" /\ Z.of_nat (length (ob_bytes ob)) < 2 ^ 63.
#[local] Instance fits_dec ob : Decision (fits ob).
Proof. apply _. Defined.

Definition s_objects (s : Server) : objects := filter (fun kv => fits kv.2) (s_raw s).

Definition answer_line (name value : string) : string := name +:+ " " +:+ value +:+ CRLF.

(** [Range: bytes=a-b], if the header is one. *)
Definition parse_range (h : string) : option (Z * Z) :=
  match strip_prefix "Range: bytes=" h with
  | None => None
  | Some s =>
      match cut "-" s with
      | (x, Some y) => let a := digits_value 0 x in let b := digits_value 0 y in if bool_decide (0 <= a /\ 0 <= b /\ h = range_line a b) then Some (a, b) else None
      | _ => None
      end
  end.

Definition find_range (hs : list string) : option (Z * Z) := head (omap parse_range hs).

(** The condition of one header. *)
Definition check_header (x : option Object) (h : string) : bool :=
  if bool_decide (h = if_none_match_line) then bool_decide (x = None)
  else match strip_prefix "If-Match: " h with
       | Some q => negb (bool_decide (q = quoted (strip_quotes q))) || bool_decide (ob_etag <$> x = Some (strip_quotes q))
       | None => true
       end.

#[local] Instance object_eq_dec : EqDecision Object.
Proof. solve_decision. Defined.

Definition handle (s : Server) (v : View) : CurlReply * Server :=
  let o := s_objects s in
  let reply st hs b := mkReply None st hs b in
  if String.eqb (v_method v) "GET" then
    match v_query v, o !! v_key v with
    | _ :: _, _ => (reply 501 [] [], s)
    | [], None => (reply 404 [] [], s)
    | [], Some ob =>
        match find_range (v_headers v) with
        | Some (a, b) =>
            if (a <=? b) && (a <? Z.of_nat (length (ob_bytes ob)))
            then (reply 206 [] (slice (Z.to_nat a) (Z.to_nat (Z.min (b - a + 1) (Z.of_nat (length (ob_bytes ob))))) (ob_bytes ob)), s) else (reply 416 [] [], s)
        | None => (reply 200 [answer_line "ETag:" (quoted (ob_etag ob))] (ob_bytes ob), s)
        end
    end
  else if String.eqb (v_method v) "HEAD" then
    match o !! v_key v with
    | None => (reply 404 [] [], s)
    | Some ob => (reply 200 [answer_line "etag:" (quoted (ob_etag ob)); answer_line "Content-Length:" (pretty (Z.of_nat (length (ob_bytes ob))))] [], s)
    end
  else if String.eqb (v_method v) "PUT" then
    if 2 ^ 63 <=? Z.of_nat (length (v_payload v)) then (reply 413 [] [], s)
    else if forallb (check_header (o !! v_key v)) (v_headers v) then
      (reply 200 (if s_put_etag s then [answer_line "ETag:" (quoted (pretty (s_next s)))] else []) [],
       mkServer (<[v_key v := mkObject (v_payload v) (pretty (s_next s))]> (s_raw s)) (s_next s + 1) (s_put_etag s))
    else (reply 412 [] [], s)
  else if String.eqb (v_method v) "DELETE" then (reply 204 [] [], mkServer (delete (v_key v) (s_raw s)) (s_next s) (s_put_etag s))
  else (reply 405 [] [], s).

(** The server at [ep]; the time is that of its last write. *)
Definition server_curl (ep : string) : Curl Server := {|
  curl_perform := fun r s => match server_view ep r with Some v => handle s v | None => (mkReply None 400 [] [], s) end;
  std_time := fun s => 1704067200 + s_next s;
|}.

Lemma answer_sends name n value lines : after_name name n = Some "" -> Forall (fun l => after_name name l = None) lines ->
  sends name value (answer_line n value :: lines).
Proof. intros Hn Hl. exists [], (answer_line n value), lines. split; [done|]. split; [|done]. exists n, " ". split_and!; try done. repeat constructor. Qed.

Lemma parse_range_line a b : 0 <= a -> 0 <= b -> parse_range (range_line a b) = Some (a, b).
Proof.
  intros Ha Hb. unfold parse_range. unfold range_line at 1. rewrite strip_prefix_app. destruct (pretty_digits a Ha) as (Va & Da & _), (pretty_digits b Hb) as (Vb & _).
  change ("-" +:+ pretty b) with (String "-" (pretty b)). rewrite cut_app; [rewrite Va, Vb, bool_decide_true; done|].
  eapply Forall_impl; [exact Da|]. intros x Hx ->. by vm_compute in Hx.
Qed.

Lemma parse_range_inv h a b : parse_range h = Some (a, b) -> h = range_line a b /\ 0 <= a /\ 0 <= b.
Proof.
  unfold parse_range. destruct (strip_prefix _ h) as [s|]; [|done]. destruct (cut "-" s) as [x [y|]]; [|done].
  cbv zeta. destruct (bool_decide_reflect (0 <= digits_value 0 x /\ 0 <= digits_value 0 y /\ h = range_line (digits_value 0 x) (digits_value 0 y))) as [(H1 & H2 & H3)|]; [|done].
  by intros [= <- <-].
Qed.

Lemma find_range_spec hs : match find_range hs with
  | Some (a, b) => range_line a b ∈ hs /\ 0 <= a /\ 0 <= b
  | None => forall a b, 0 <= a -> 0 <= b -> range_line a b ∉ hs
  end.
Proof.
  unfold find_range. destruct (head (omap parse_range hs)) as [[a b]|] eqn:E.
  - apply head_Some_elem_of in E. apply list_elem_of_omap in E as (h & Hin & Hh). apply parse_range_inv in Hh as (-> & ? & ?). done.
  - intros a b Ha Hb Hin. assert ((a, b) ∈ omap parse_range hs) as Hx.
    { apply list_elem_of_omap. exists (range_line a b). split; [done | by apply parse_range_line]. }
    apply head_None in E. rewrite E in Hx. by apply not_elem_of_nil in Hx.
Qed.

Lemma check_header_spec x hs : forallb (check_header x) hs = true <->
  (if_none_match_line ∈ hs -> x = None) /\ (forall e, if_match_line e ∈ hs -> exists ob, x = Some ob /\ ob_etag ob = e).
Proof.
  rewrite forallb_forall. setoid_rewrite <- list_elem_of_In. split.
  - intros Hall. split.
    + intros Hin. apply Hall in Hin. unfold check_header in Hin. rewrite bool_decide_true in Hin by done. by apply bool_decide_eq_true in Hin.
    + intros e Hin. apply Hall in Hin. unfold check_header in Hin. rewrite bool_decide_false in Hin by done. unfold if_match_line in Hin.
      rewrite strip_prefix_app, strip_quoted, bool_decide_true in Hin by done. cbn [negb orb] in Hin. apply bool_decide_eq_true in Hin.
      destruct x as [ob|]; [|done]. injection Hin as <-. by exists ob.
  - intros [H1 H2] h Hin. unfold check_header. destruct (bool_decide_reflect (h = if_none_match_line)) as [->|Hne]; [rewrite bool_decide_true; auto|].
    destruct (strip_prefix "If-Match: " h) as [q|] eqn:Eq; [|done]. destruct (bool_decide_reflect (q = quoted (strip_quotes q))) as [Hq|]; [|done].
    cbn [negb orb]. destruct (H2 (strip_quotes q)) as (ob & -> & <-); [|by rewrite bool_decide_true].
    apply strip_prefix_inv in Eq as ->. unfold if_match_line. by rewrite <- Hq.
Qed.

Lemma s_objects_ok s : objects_ok (s_objects s).
Proof. intros k ob Hk. apply map_lookup_filter_Some in Hk as [_ Hk]. exact Hk. Qed.

Lemma pretty_ne (z : Z) : pretty z <> "".
Proof. destruct z as [|p|p]; [done | | by vm_compute]. destruct (pretty_digits (Z.pos p)) as (_ & _ & H); [lia | exact H]. Qed.

Lemma s_objects_put s k b n p : Z.of_nat (length b) < 2 ^ 63 ->
  s_objects (mkServer (<[k := mkObject b (pretty (s_next s))]> (s_raw s)) n p) = <[k := mkObject b (pretty (s_next s))]> (s_objects s).
Proof. intros Hl. unfold s_objects. cbn [s_raw]. apply map_filter_insert_True. split; [apply pretty_ne | exact Hl]. Qed.

Lemma s_objects_delete s k n p : s_objects (mkServer (delete k (s_raw s)) n p) = delete k (s_objects s).
Proof. unfold s_objects. cbn [s_raw]. by rewrite map_filter_delete. Qed.

Lemma slice_min (l : bytes) i n : slice i (Z.to_nat (Z.min n (Z.of_nat (length l)))) l = slice i (Z.to_nat n) l.
Proof.
  unfold slice. destruct (Z.min_spec n (Z.of_nat (length l))) as [[_ ->]|[H ->]]; [done|].
  rewrite !take_ge by (rewrite length_drop; lia). done.
Qed.

Lemma handle_served s v : served (s_objects s) v (handle s v).1 (s_objects (handle s v).2).
Proof.
  unfold handle. destruct (String.eqb_spec (v_method v) "GET") as [Hm|_]; [|destruct (String.eqb_spec (v_method v) "HEAD") as [Hm|_];
    [|destruct (String.eqb_spec (v_method v) "PUT") as [Hm|_]; [|destruct (String.eqb_spec (v_method v) "DELETE") as [Hm|_]]]].
  - destruct (v_query v) eqn:Hq; [|eapply sv_broken; [by split | simpl; lia | by left]].
    destruct (s_objects s !! v_key v) as [ob|] eqn:Ho; [|apply sv_missing; auto; by split].
    pose proof (find_range_spec (v_headers v)) as Hr. destruct (find_range (v_headers v)) as [[a b]|].
    + destruct Hr as (Hin & Ha & Hb). destruct (Z.leb_spec a b), (Z.ltb_spec a (Z.of_nat (length (ob_bytes ob)))); cbn [andb fst snd];
        solve [eapply sv_range; eauto; [by split | by apply slice_min] | eapply sv_range_out; eauto; by split].
    + eapply sv_get; eauto; [by split|]. by apply answer_sends.
  - destruct (s_objects s !! v_key v) as [ob|] eqn:Ho; [|apply sv_missing; auto; by split].
    eapply sv_head; eauto; [by split | by apply answer_sends; [|repeat constructor]|].
    eexists [_], _, []. split; [reflexivity|]. split; [|by repeat constructor]. exists "Content-Length:", " ". split_and!; try done. repeat constructor.
  - destruct (Z.leb_spec (2 ^ 63) (Z.of_nat (length (v_payload v)))) as [Hl|Hl]; [eapply sv_refused; [by split | simpl; lia | set_solver by lia]|].
    destruct (forallb _ _) eqn:Hc; cbn [fst snd].
    + rewrite s_objects_put by done. apply sv_put; [done | by apply check_header_spec in Hc | apply pretty_ne | by split|]. destruct (s_put_etag s); [left; by apply answer_sends | right; constructor].
    + apply sv_put_failed; [done | | left; by split]. intros Hp. apply not_true_iff_false in Hc. apply Hc. by apply check_header_spec.
  - cbn [fst snd]. rewrite s_objects_delete. apply sv_delete; [done | left; by split].
  - eapply sv_refused; [by split | simpl; lia | set_solver by lia].
Qed.

Definition server_service (hashes : Hashes) (hmac : Hmac) (c : S3Config) : @S3Service Server hashes hmac (server_curl (endpoint c)) c.
Proof.
  refine (@Build_S3Service Server hashes hmac (server_curl (endpoint c)) c s_objects s_objects_ok _).
  intros r v st Hv _ _. cbn [server_curl curl_perform]. rewrite Hv. apply handle_served.
Defined.

(** ** Properties *)

Section Theorems.

Context {St : Type} {hashes : Hashes} {hmac : Hmac} {curl : Curl St} (c : S3Config) {service : S3Service St c}.


(** C17. Over any S3 service, the byte storage keeps its contract: [OpenInput]
    finds exactly the stored objects with their sizes; a range of a file that did
    not change since it was opened is read exactly, and refused exactly when it
    lies outside; [CreateIfAbsent] stores whole files, never over an existing
    one; [Close] publishes what was appended; [Delete] removes; a hard error is a
    [runtime_error] and leaves each object whole. *)
Theorem s3_files_atomic (bucket path : string) (st : St) : valid_endpoint (endpoint c) ->
  let k := S3FileStorage.ObjectKey bucket path in let o := objects_of st in
  (exists r st', S3FileStorage.OpenInput c bucket path st = (r, st') /\ objects_of st' = o /\
     outcome r (fun f => f = (fun ob => S3FileStorage.mkInput k (Z.of_nat (length (ob_bytes ob)))) <$> (o !! k)) True) /\
  (forall ob off len, o !! k = Some ob -> 0 <= off -> 0 <= len -> off + len < 2 ^ 64 ->
     exists r st', S3FileStorage.ReadAt c (S3FileStorage.mkInput k (Z.of_nat (length (ob_bytes ob)))) off len st = (r, st') /\ objects_of st' = o /\
     outcome r (fun x => x = if off + len <=? Z.of_nat (length (ob_bytes ob)) then Some (slice (Z.to_nat off) (Z.to_nat len) (ob_bytes ob)) else None) True) /\
  (forall b, exists r st', S3FileStorage.CreateIfAbsent c bucket path b st = (r, st') /\ create_outcome k b o r (objects_of st')) /\
  (forall b, exists r st', S3FileStorage.Close c (S3FileStorage.mkOutput k b false) st = (r, st') /\
     outcome r (fun out => S3FileStorage.closed_ out = true /\ exists e, objects_of st' = <[k := mkObject b e]> o) (maybe_put k b True o (objects_of st'))) /\
  (exists r st', S3FileStorage.Delete c bucket path st = (r, st') /\
     outcome r (fun _ => objects_of st' = delete k o) (objects_of st' = o \/ objects_of st' = delete k o)).
Proof.
  intros Hep k o. split; [by apply s3_open|]. split; [intros ob off len Ho H1 H2 H3; by apply s3_read|]. split; [intros b; by apply s3_create|].
  split; [|by apply s3_delete]. intros b. by apply (s3_close c Hep (S3FileStorage.mkOutput k b false)).
Qed.

End Theorems.

(** A bucket with a CURRENT, on a server that sends ETags and on one that does
    not. *)
Definition demo_server (put_etag : bool) : Server := mkServer {["b/CURRENT" := mkObject (lit "one") "1"]} 2 put_etag.
Definition demo_curl : Curl Server := server_curl (endpoint demo_config).
Definition demo_service : @S3Service Server sign_hashes demo_hmac demo_curl demo_config := server_service sign_hashes demo_hmac demo_config.

Lemma demo_endpoint : valid_endpoint (endpoint demo_config).
Proof. exists "http", "127.0.0.1:19900". split; [done|]. split; repeat constructor; done. Qed.


Lemma s3_files_atomic_witness : exists r st',
  @S3FileStorage.CreateIfAbsent Server sign_hashes demo_hmac demo_curl demo_config "b" "wal/1" (lit "record") (demo_server true) = (r, st') /\
  create_outcome "b/wal/1" (lit "record") (s_objects (demo_server true)) r (s_objects st') /\ r = Ok Created.
Proof.
  destruct (@s3_files_atomic Server sign_hashes demo_hmac demo_curl demo_config demo_service "b" "wal/1" (demo_server true) demo_endpoint) as (_ & _ & H & _).
  destruct (H (lit "record")) as (r & st' & E & Hw). exists r, st'. split; [exact E|]. split; [exact Hw|].
  apply (f_equal (fun x => x.1)) in E. cbn [fst] in E. rewrite <- E. by vm_compute.
Defined.

(** *** Where the adapters are not what they mean to be *)

Section Findings.

#[local] Existing Instance sign_hashes.
#[local] Existing Instance demo_hmac.
#[local] Existing Instance demo_curl.

(** The fallback of [ResolveVersion] is a second request. When another client
    replaces the value in between, the first writer is given the version of the
    other's write as that of its own, and with it overwrites the other's value
    without a conflict. *)
Lemma ResolveVersion_races :
  let client st := Client_Put demo_config "b/CURRENT" (lit "A") IfMatch "1" st in
  let other st := S3MetadataStore.CompareExchange demo_config "b" "CURRENT" "2" (lit "B") true st in
  match client (demo_server false) with
  | (Ok r, st1) =>
      status r = 200 /\ (other st1).1 = Ok (MemMetadataStore.Applied, Some "3") /\
      (S3MetadataStore.ResolveVersion demo_config "b" "CURRENT" r (other st1).2).1 = Ok "3" /\
      (S3MetadataStore.CompareExchange demo_config "b" "CURRENT" "3" (lit "A2") true (other st1).2).1 = Ok (MemMetadataStore.Applied, Some "4")
  | _ => False
  end.
Proof. by vm_compute. Qed.

(** [offset + len] wraps: a read of nearly 2^64 bytes from the second byte on is
    taken for one that ends before the file does, and returns the rest of it. *)
Lemma S3_ReadAt_wraps :
  (S3FileStorage.ReadAt demo_config (S3FileStorage.mkInput "b/CURRENT" 3) 1 (2 ^ 64 - 1) (demo_server true)).1 = Ok (Some (lit "ne")).
Proof. by vm_compute. Qed.

End Findings.

(** A server that is out of order. *)
Definition broken_curl : Curl unit := {| curl_perform := fun _ _ => (mkReply None 503 [] [], tt); std_time := fun _ => 0 |}.

(** [Exists] answers that there is no file when the service answered nothing of
    the kind. *)
Lemma S3_Exists_hides_errors path :
  (@S3FileStorage.Exists unit sign_hashes demo_hmac broken_curl demo_config "b" path tt).1 = Ok false /\
  exists msg, (@S3FileStorage.OpenInput unit sign_hashes demo_hmac broken_curl demo_config "b" path tt).1 = Fail (Throw runtime_error msg).
Proof. split; [done|]. by eexists. Qed.
