(* ===== verification/S3List.v ===== *)
(** * Listing a bucket

    [S3FileStorage::List] asks for page after page and takes the keys out of the
    XML by searching for tags. Over a service that pages through its keys it
    ends, and returns every key once, in order. *)

From Stdlib Require Import Ascii.
From stdpp Require Import strings pretty sorting.
From S2P Require Import Prelude Text Storage SeqCodec S3 S3Sign S3Spec.
Import Sigv4 S3FileStorage.
Open Scope Z_scope.

(** ** Documents

    A document is a sequence of tags, with whatever is between their brackets
    (a name, a name behind a slash, attributes), and of text. *)

Inductive item := Tag (t : string) | Txt (s : string).

#[export] Instance item_eq_dec : EqDecision item.
Proof. solve_decision. Defined.

Definition render_item (i : item) : string := match i with Tag t => "<" +:+ t +:+ ">" | Txt s => s end.
Definition render (l : list item) : string := foldr (fun i s => render_item i +:+ s) "" l.

Definition plain (s : string) : Prop := all_chars (.≠ "<"%char) s /\ all_chars (.≠ ">"%char) s.
Definition item_wf (i : item) : Prop := match i with Tag t => plain t | Txt s => all_chars (.≠ "<"%char) s end.

Lemma render_app a b : render (a ++ b) = render a +:+ render b.
Proof. induction a as [|i a IH]; [done|]. cbn [app render foldr]. fold (render (a ++ b)). rewrite IH. by rewrite string_app_assoc. Qed.

Lemma render_cons i l : render (i :: l) = render_item i +:+ render l.
Proof. done. Qed.

(** ** Searching for a tag *)

Lemma prefix_tag (t u r : string) : all_chars (.≠ ">"%char) t -> all_chars (.≠ ">"%char) u -> t <> u ->
  String.prefix (t +:+ ">") (u +:+ String ">" r) = false.
Proof.
  revert u. induction t as [|a t IH]; intros u Ht Hu Hne.
  - destruct u as [|b u]; [done|]. apply Forall_cons in Hu as [Hb _]. rewrite string_app_cons. change ("" +:+ ">") with (String ">" ""). cbn [String.prefix].
    destruct (ascii_dec ">" b) as [<-|]; done.
  - apply Forall_cons in Ht as [Ha Ht]. rewrite string_app_cons. destruct u as [|b u].
    + change ("" +:+ String ">" r) with (String ">" r). cbn [String.prefix]. by destruct (ascii_dec a ">").
    + apply Forall_cons in Hu as [Hb Hu]. rewrite string_app_cons. cbn [String.prefix]. destruct (ascii_dec a b) as [->|]; [|done].
      apply IH; auto. intros ->. done.
Qed.

Lemma index_other_tag t u r : plain t -> plain u -> t <> u ->
  String.index 0 ("<" +:+ t +:+ ">") (render_item (Tag u) +:+ r) =
  Nat.add (String.length (render_item (Tag u))) <$> String.index 0 ("<" +:+ t +:+ ">") r.
Proof.
  intros [_ Ht] [Hu Hu'] Hne. cbn [render_item]. change ("<" +:+ ?x) with (String "<" x). rewrite string_app_cons. cbn [String.index String.prefix].
  destruct (ascii_dec "<" "<"); [|done]. rewrite string_app_assoc. change (">" +:+ r) with (String ">" r). rewrite (prefix_tag t u r Ht Hu' Hne).
  change (String ">" r) with (">" +:+ r). rewrite <- string_app_assoc, index_skip; cycle 1.
  { apply all_chars_app; [done|]. by repeat constructor. }
  cbn [String.length]. by destruct (String.index 0 (String "<" (t +:+ ">")) r).
Qed.

Lemma index_text t s r : item_wf (Txt s) -> String.index 0 ("<" +:+ t +:+ ">") (s +:+ r) = Nat.add (String.length s) <$> String.index 0 ("<" +:+ t +:+ ">") r.
Proof. intros Hs. by apply (index_skip "<" (t +:+ ">")). Qed.

Lemma index_skip_items t l r : plain t -> Forall item_wf l -> Tag t ∉ l ->
  String.index 0 ("<" +:+ t +:+ ">") (render l +:+ r) = Nat.add (String.length (render l)) <$> String.index 0 ("<" +:+ t +:+ ">") r.
Proof.
  intros Ht. induction l as [|i l IH]; intros Hl Hn; [symmetry; exact (option_fmap_id _)|].
  apply Forall_cons in Hl as [Hi Hl]. apply not_elem_of_cons in Hn as [Hne Hn]. rewrite render_cons, string_app_assoc, string_length_app.
  assert (Hstep : String.index 0 ("<" +:+ t +:+ ">") (render_item i +:+ (render l +:+ r)) =
    Nat.add (String.length (render_item i)) <$> String.index 0 ("<" +:+ t +:+ ">") (render l +:+ r)).
  { destruct i as [u|s]; [apply index_other_tag; [done | done | congruence] | by apply index_text]. }
  rewrite Hstep, (IH Hl Hn). destruct (String.index 0 ("<" +:+ t +:+ ">") r) as [n|]; [|done]. simpl. f_equal. lia.
Qed.

Lemma index_tag t l r : plain t -> Forall item_wf l -> Tag t ∉ l ->
  String.index 0 ("<" +:+ t +:+ ">") (render l +:+ (render_item (Tag t) +:+ r)) = Some (String.length (render l)).
Proof. intros Ht Hl Hn. rewrite index_skip_items by done. cbn [render_item]. rewrite index_here. simpl. f_equal. lia. Qed.

Lemma index_no_tag t l : plain t -> Forall item_wf l -> Tag t ∉ l -> String.index 0 ("<" +:+ t +:+ ">") (render l) = None.
Proof. intros Ht Hl Hn. rewrite <- (string_app_nil_r (render l)). by rewrite index_skip_items. Qed.

(** ** Elements *)

(** The contents of the elements [tag] of a document, in order. *)
Inductive elements (tag : string) : list item -> list string -> Prop :=
| el_none l : Tag tag ∉ l -> elements tag l []
| el_cons pre inner post ks : Tag tag ∉ pre -> Tag ("/" +:+ tag) ∉ inner -> elements tag post ks ->
    elements tag (pre ++ Tag tag :: inner ++ Tag ("/" +:+ tag) :: post) (render inner :: ks).

Lemma plain_close t : plain t -> plain ("/" +:+ t).
Proof. intros [H1 H2]. split; (constructor; [done | assumption]). Qed.

Lemma extract_none xml tag seen l : xml = seen +:+ render l -> plain tag -> Forall item_wf l -> Tag tag ∉ l -> ExtractTag xml tag (String.length seen) = None.
Proof.
  intros -> Ht Hl Hn. unfold ExtractTag. rewrite <- (Nat.add_0_r (String.length seen)), index_shift. by rewrite index_no_tag.
Qed.

Lemma extract_first xml tag seen pre inner post : xml = seen +:+ render (pre ++ Tag tag :: inner ++ Tag ("/" +:+ tag) :: post) -> plain tag ->
  Forall item_wf (pre ++ Tag tag :: inner ++ Tag ("/" +:+ tag) :: post) -> Tag tag ∉ pre -> Tag ("/" +:+ tag) ∉ inner ->
  ExtractTag xml tag (String.length seen) =
  Some (render inner, String.length (seen +:+ render (pre ++ Tag tag :: inner ++ [Tag ("/" +:+ tag)]))).
Proof.
  intros -> Ht Hl Hn Hn2. apply Forall_app in Hl as [Hpre Hl]. apply Forall_cons in Hl as [_ Hl]. apply Forall_app in Hl as [Hin _].
  set (close := render_item (Tag ("/" +:+ tag))). set (open := render_item (Tag tag)).
  assert (Hr : render (pre ++ Tag tag :: inner ++ Tag ("/" +:+ tag) :: post) = render pre +:+ (open +:+ (render inner +:+ (close +:+ render post)))).
  { by rewrite render_app, render_cons, render_app, render_cons. }
  assert (Hlen : String.length (seen +:+ render (pre ++ Tag tag :: inner ++ [Tag ("/" +:+ tag)])) =
    (String.length seen + String.length (render pre) + String.length open + String.length (render inner) + String.length close)%nat).
  { rewrite render_app, render_cons, render_app, render_cons, !string_length_app. fold open. fold close. change (String.length (render [])) with 0%nat. lia. }
  rewrite Hlen, Hr. unfold ExtractTag. cbv zeta. change ("<" +:+ tag +:+ ">") with open. change ("</" +:+ tag +:+ ">") with close.
  rewrite <- (Nat.add_0_r (String.length seen)), index_shift. unfold open at 1, close at 1. cbn [render_item]. rewrite (index_tag tag pre _ Ht Hpre Hn). cbn [fmap option_fmap option_map].
  fold open. set (before := seen +:+ render pre +:+ open).
  assert (Hs : seen +:+ (render pre +:+ (open +:+ (render inner +:+ (close +:+ render post)))) = before +:+ (render inner +:+ (close +:+ render post)))
    by (unfold before; by rewrite !string_app_assoc).
  assert (Hst : (String.length seen + String.length (render pre) + String.length open)%nat = String.length before)
    by (unfold before; rewrite !string_length_app; lia).
  rewrite Hs, Hst. rewrite <- (Nat.add_0_r (String.length before)) at 1. rewrite index_shift.
  pose proof (index_tag ("/" +:+ tag) inner (render post) (plain_close tag Ht) Hin Hn2) as Hc. fold close in Hc. unfold close at 1. cbn [render_item].
  rewrite Hc. cbn [fmap option_fmap option_map]. replace (_ + String.length (render inner) - _)%nat with (String.length (render inner)) by lia.
  rewrite substring_skip, substring_here. f_equal. f_equal. lia.
Qed.

Lemma elements_length tag l ks : elements tag l ks -> (length ks <= String.length (render l))%nat.
Proof.
  induction 1 as [|pre inner post ks _ _ _ IH]; [simpl; lia|]. rewrite render_app, render_cons, render_app, render_cons, !string_length_app.
  cbn [length render_item]. rewrite !string_length_app. cbn [String.length]. lia.
Qed.

Lemma extract_all_ok tag l ks : plain tag -> elements tag l ks -> forall fuel xml seen, xml = seen +:+ render l -> Forall item_wf l ->
  (length ks < fuel)%nat -> extract_all fuel xml tag (String.length seen) = ks.
Proof.
  intros Ht. induction 1 as [l Hn|pre inner post ks Hn Hn2 _ IH]; intros [|fuel] xml seen Hx Hl Hf; simpl in Hf; try lia; cbn [extract_all].
  - by rewrite (extract_none xml tag seen l).
  - rewrite (extract_first xml tag seen pre inner post) by done. f_equal. apply IH; [| |lia].
    + rewrite Hx, string_app_assoc, <- render_app. f_equal. f_equal. by rewrite <- app_assoc, <- app_comm_cons, <- app_assoc.
    + apply Forall_app in Hl as [_ Hl]. apply Forall_cons in Hl as [_ Hl]. apply Forall_app in Hl as [_ Hl]. by apply Forall_cons in Hl as [_ Hl].
Qed.

(** Every key of a document is found. *)
Lemma extract_keys_ok l ks : elements "Key" l ks -> Forall item_wf l -> extract_keys (render l) = ks.
Proof.
  intros He Hl. pose proof (elements_length _ _ _ He). apply (extract_all_ok "Key" l ks) with (seen := ""); auto; [split; repeat constructor; done | lia].
Qed.

Lemma extract_head tag l k ks : plain tag -> elements tag l (k :: ks) -> Forall item_wf l -> exists n, ExtractTag (render l) tag 0 = Some (k, n).
Proof.
  intros Ht He Hl. inversion He as [|pre inner post ks' Hn Hn2 Hp E1 E2]; subst. eexists. by apply (extract_first _ tag "" pre inner post).
Qed.

(** ** Pages *)

(** A page that lists [ks] and says how to go on, if there is more. *)
Record page (l : list item) (ks : list string) (next : option string) : Prop := {
  pg_wf : Forall item_wf l;
  pg_keys : elements "Key" l ks;
  pg_truncated : exists more, elements "IsTruncated" l [more] /\ (more = "true" <-> is_Some next);
  pg_token : forall token, next = Some token -> elements "NextContinuationToken" l [token];
}.

Lemma next_token_ok l ks next : page l ks next -> next_token (render l) = default "" next.
Proof.
  intros [Hwf _ (more & Hm & Hmore) Ht]. unfold next_token.
  destruct (extract_head "IsTruncated" l more []) as [n ->]; [split; repeat constructor; done | done | done|].
  destruct next as [token|].
  - assert (more = "true") as -> by (by apply Hmore). cbn [String.eqb Ascii.eqb Bool.eqb].
    by destruct (extract_head "NextContinuationToken" l token []) as [m ->]; [split; repeat constructor; done | by apply Ht | done|].
  - destruct (String.eqb_spec more "true") as [->|]; [|done]. by destruct (proj1 Hmore eq_refl).
Qed.

(** A service that pages through the keys of a bucket: [listing] is what there
    is to list, and a token stands for a position in it. *)
Class S3Lister (St : Type) `{!Hashes, !Hmac, !Curl St} (c : S3Config) (bucket : string) := {
  listing : St -> string -> list string;
  token_at : nat -> string;
  token_nonempty : forall i, token_at i <> "";
  lists : forall r v st pre i, server_view (endpoint c) r = Some v -> accepted c r -> v_method v = "GET" -> v_key v = bucket ->
    v_query v = [("list-type", "2"); ("prefix", pre)] ++ (if (i =? 0)%nat then [] else [("continuation-token", token_at i)]) ->
    (i <= length (listing st pre))%nat ->
    let (reply, st') := curl_perform r st in
    cr_error reply = None /\ cr_status reply = 200 /\ listing st' pre = listing st pre /\
    exists l n, cr_body reply = lit (render l) /\
      page l (take n (drop i (listing st pre))) (if (i + n <? length (listing st pre))%nat then Some (token_at (i + n)) else None) /\
      ((i < length (listing st pre))%nat -> (0 < n)%nat);
}.

Section Listing.

Context {St : Type} {hashes : Hashes} {hmac : Hmac} {curl : Curl St} (c : S3Config) (bucket : string) {lister : S3Lister St c bucket}.
Context (Hep : valid_endpoint (endpoint c)).

(** The pages from position [i] on. *)
Lemma list_pages_ok pre fuel : forall st i, (i <= length (listing st pre))%nat -> (length (listing st pre) - i < fuel)%nat ->
  exists st', list_pages c bucket fuel pre (if (i =? 0)%nat then "" else token_at i) st = (Ok (drop i (listing st pre)), st') /\
    listing st' pre = listing st pre.
Proof.
  induction fuel as [|fuel IH]; intros st i Hi Hf; [lia|]. cbn [list_pages]. unfold ListV2, Do.
  set (q := [("list-type", "2"); ("prefix", pre)] ++ _). set (r := build_request c (std_time st) "GET" bucket q None [] false).
  assert (Hq : q = [("list-type", "2"); ("prefix", pre)] ++ (if (i =? 0)%nat then [] else [("continuation-token", token_at i)])).
  { unfold q. destruct (Nat.eqb_spec i 0); [done|]. destruct (String.eqb_spec (token_at i) ""); [by destruct (token_nonempty i) | done]. }
  pose proof (@lists St hashes hmac curl c bucket lister r _ st pre i (view_build c (std_time st) "GET" bucket q None [] false)
    (build_accepted c (std_time st) "GET" bucket q None [] false Hep (or_intror eq_refl)) eq_refl eq_refl Hq Hi) as Hl.
  unfold bind at 1. fold r. destruct (curl_perform r st) as [reply st1]. destruct Hl as (He & Hs & Hsame & l & n & Hb & Hp & Hn).
  unfold response_of. rewrite He. cbn [transport_error status body]. rewrite Hs, Z.eqb_refl, (proj1 (captured_body _ _)). cbn [body negb]. rewrite Hb. unfold lit.
  rewrite string_of_list_byte_of_string, (extract_keys_ok l _ (pg_keys _ _ _ Hp) (pg_wf _ _ _ Hp)), (next_token_ok _ _ _ Hp).
  destruct (Nat.ltb_spec (i + n) (length (listing st pre))) as [Hlt|Hge]; cbn [from_option id].
  - destruct (String.eqb_spec (token_at (i + n)) ""); [by destruct (token_nonempty (i + n))|]. assert (Hpos : (0 < n)%nat) by (apply Hn; lia).
    destruct (IH st1 (i + n)%nat) as (st' & E & Hsame'); [rewrite Hsame; lia | rewrite Hsame; lia|].
    destruct (Nat.eqb_spec (i + n) 0); [lia|]. exists st'. split; [|congruence]. unfold bind. rewrite E, Hsame. unfold ret. f_equal. f_equal.
    by rewrite <- drop_drop, take_drop.
  - exists st1. split; [|done]. unfold ret. f_equal. f_equal. rewrite take_ge; [done|]. rewrite length_drop. lia.
Qed.

End Listing.

(** ** Properties *)

(** C19. Over a service that pages through the keys of a bucket, however many keys
    it puts on a page and whatever else its documents contain, [List] ends and
    returns exactly the keys with the prefix, each once and in order. *)
Theorem s3_list_complete {St : Type} {hashes : Hashes} {hmac : Hmac} {curl : Curl St} (c : S3Config) (bucket : string) {lister : S3Lister St c bucket}
    (pre : string) (st : St) (fuel : nat) : valid_endpoint (endpoint c) -> (length (listing st pre) < fuel)%nat ->
  exists st', List_ c bucket fuel pre st = (Ok (listing st pre), st').
Proof.
  intros Hep Hf. destruct (list_pages_ok c bucket Hep pre fuel st 0) as (st' & E & _); [lia | lia|]. exists st'. exact E.
Qed.

(** A server with three files, one to a page. *)
Definition demo_files : list string := ["t/wal-1"; "t/wal-2"; "u/data"].
Definition demo_listing (pre : string) : list string := filter (fun k => String.prefix pre k = true) demo_files.
Definition listing_page (keys : list string) (i : nat) : list item :=
  let more := (i + 1 <? length keys)%nat in
  [Tag "?xml version='1.0'?"; Tag "ListBucketResult"; Tag "IsTruncated"; Txt (if more then "true" else "false"); Tag "/IsTruncated"] ++
  match keys !! i with Some k => [Tag "Contents"; Tag "Key"; Txt k; Tag "/Key"; Tag "/Contents"] | None => [] end ++
  (if more then [Tag "NextContinuationToken"; Txt (pretty (Z.of_nat (i + 1))); Tag "/NextContinuationToken"] else []) ++ [Tag "/ListBucketResult"].

Definition demo_list_curl : Curl unit := {|
  curl_perform := fun r _ =>
    match server_view (endpoint demo_config) r with
    | Some (mkView _ _ (_ :: (_, pre) :: rest) _ _ _) =>
        let i := match rest with [] => 0%nat | (_, token) :: _ => Z.to_nat (digits_value 0 token) end in
        (mkReply None 200 [] (lit (render (listing_page (demo_listing pre) i))), tt)
    | _ => (mkReply None 400 [] [], tt)
    end;
  std_time := fun _ => 0;
|}.

Lemma digits_plain n : 0 <= n -> all_chars (.≠ "<"%char) (pretty n).
Proof. intros Hn. destruct (pretty_digits n Hn) as (_ & Hd & _). eapply Forall_impl; [exact Hd|]. intros x Hx ->. by vm_compute in Hx. Qed.

(** One element among other tags. *)
Lemma element_here tag pre s post : Tag tag ∉ pre -> Tag tag ∉ post -> elements tag (pre ++ Tag tag :: Txt s :: Tag ("/" +:+ tag) :: post) [s].
Proof.
  intros H1 H2. replace [s] with (render [Txt s] :: []) by (cbn; by rewrite string_app_nil_r).
  apply (el_cons tag pre [Txt s] post []); [done | by rewrite list_elem_of_singleton | by apply el_none].
Qed.

(** The parts of the document. *)
Definition demo_head (more : string) : list item := [Tag "?xml version='1.0'?"; Tag "ListBucketResult"; Tag "IsTruncated"; Txt more; Tag "/IsTruncated"].
Definition demo_entry (k : string) : list item := [Tag "Contents"; Tag "Key"; Txt k; Tag "/Key"; Tag "/Contents"].
Definition demo_next (token : string) : list item := [Tag "NextContinuationToken"; Txt token; Tag "/NextContinuationToken"].

Ltac show_items := cbv beta delta [demo_head demo_entry demo_next]; cbn [app List.concat fmap list_fmap].
Ltac no_tag := show_items; rewrite ?not_elem_of_cons; split_and?; try discriminate; apply not_elem_of_nil.
Lemma plain_b t : forallb (fun c => negb (Ascii.eqb c "<") && negb (Ascii.eqb c ">")) (chars t) = true -> plain t.
Proof.
  intros Ht. rewrite forallb_forall in Ht. assert (Hf := proj2 (List.Forall_forall _ _) Ht). clear Ht. rename Hf into Ht. split; (eapply Forall_impl; [exact Ht|]); intros c; cbv beta;
    destruct (Ascii.eqb_spec c "<"), (Ascii.eqb_spec c ">"); done.
Qed.
Ltac plain_items := show_items;
  repeat (apply Forall_cons; split; [first [assumption | apply plain_b; reflexivity | eapply proj1, plain_b; reflexivity]|]); apply Forall_nil; exact I.

Lemma demo_last_ok ks : (length ks <= 1)%nat -> Forall (all_chars (.≠ "<"%char)) ks ->
  page (demo_head "false" ++ concat (demo_entry <$> ks) ++ [Tag "/ListBucketResult"]) ks None.
Proof.
  intros Hl Hk. destruct ks as [|k [|]]; simpl in Hl; try lia.
  - split; [plain_items | apply el_none; no_tag | | done]. exists "false". split; [|by split; [|intros []]].
    apply (element_here "IsTruncated" [Tag "?xml version='1.0'?"; Tag "ListBucketResult"]); no_tag.
  - apply Forall_cons in Hk as [Hk _]. split; [plain_items | | | done].
    + apply (element_here "Key" (demo_head "false" ++ [Tag "Contents"])); no_tag.
    + exists "false". split; [|by split; [|intros []]].
      apply (element_here "IsTruncated" [Tag "?xml version='1.0'?"; Tag "ListBucketResult"]); no_tag.
Qed.

Lemma demo_more_ok k token : all_chars (.≠ "<"%char) k -> all_chars (.≠ "<"%char) token ->
  page (demo_head "true" ++ demo_entry k ++ demo_next token ++ [Tag "/ListBucketResult"]) [k] (Some token).
Proof.
  intros Hk Ht. split; [plain_items | | |].
  - apply (element_here "Key" (demo_head "true" ++ [Tag "Contents"])); no_tag.
  - exists "true". split; [|done]. apply (element_here "IsTruncated" [Tag "?xml version='1.0'?"; Tag "ListBucketResult"]); no_tag.
  - intros token' [= <-]. apply (element_here "NextContinuationToken" (demo_head "true" ++ demo_entry k)); no_tag.
Qed.

Lemma listing_page_ok keys i : Forall (all_chars (.≠ "<"%char)) keys -> page (listing_page keys i) (take 1 (drop i keys))
  (if (i + 1 <? length keys)%nat then Some (pretty (Z.of_nat (i + 1))) else None).
Proof.
  intros Hk. pose proof (digits_plain (Z.of_nat (i + 1)) ltac:(lia)) as Hd.
  assert (Hkey : take 1 (drop i keys) = match keys !! i with Some k => [k] | None => [] end).
  { rewrite <- (Nat.add_0_r i) at 2. rewrite <- lookup_drop. by destruct (drop i keys). }
  assert (Hplain : forall k, keys !! i = Some k -> all_chars (.≠ "<"%char) k) by (intros k Hi; by eapply (Forall_lookup_1 _ _ _ _ Hk)).
  rewrite Hkey. unfold listing_page. destruct (Nat.ltb_spec (i + 1) (length keys)) as [Hlt|Hge].
  - destruct (lookup_lt_is_Some_2 keys i) as [k Ei]; [lia|]. rewrite Ei. apply demo_more_ok; auto.
  - destruct (keys !! i) as [k|] eqn:Ei; [apply (demo_last_ok [k]); auto | apply (demo_last_ok []); simpl; auto].
Qed.

Definition demo_lister : @S3Lister unit sign_hashes demo_hmac demo_list_curl demo_config "b".
Proof.
  refine (@Build_S3Lister unit sign_hashes demo_hmac demo_list_curl demo_config "b" (fun _ => demo_listing) (fun i => pretty (Z.of_nat i)) _ _).
  - intros i. apply pretty_ne.
  - intros r v st pre i Hv _ _ _ Hq Hi. cbn [demo_list_curl curl_perform]. rewrite Hv. destruct v as [m k q h p nb]. cbn [v_query] in Hq. subst q. cbn [app].
    assert (Hpos : match (if (i =? 0)%nat then [] else [("continuation-token", pretty (Z.of_nat i))]) with
                   | [] => 0%nat | (_, token) :: _ => Z.to_nat (digits_value 0 token) end = i).
    { destruct (Nat.eqb_spec i 0) as [Hz|Hz]; [by symmetry|]. rewrite (proj1 (pretty_digits (Z.of_nat i) ltac:(lia))). lia. }
    rewrite Hpos. split; [done|]. split; [done|]. split; [done|]. exists (listing_page (demo_listing pre) i), 1%nat. split; [done|]. split; [|lia].
    apply listing_page_ok. apply Forall_forall. intros x Hx. apply list_elem_of_filter in Hx as [_ Hx]. revert x Hx. apply Forall_forall.
    unfold demo_files. repeat (apply Forall_cons; split; [eapply proj1, plain_b; reflexivity|]). by apply Forall_nil.
Defined.

Lemma s3_list_complete_witness : exists st',
  @List_ unit sign_hashes demo_hmac demo_list_curl demo_config "b" 4 "t/" tt = (Ok ["t/wal-1"; "t/wal-2"], st').
Proof.
  apply (@s3_list_complete unit sign_hashes demo_hmac demo_list_curl demo_config "b" demo_lister "t/" tt 4); [apply demo_endpoint|].
  apply Nat.ltb_lt. by vm_compute.
Defined.
