(* ===== verification/LocalStorage.v ===== *)
(** * Files on a local disk

    Models [Storage/File/LocalStorage] over a POSIX file system. The file system
    is one kernel state; an operation is a [proc], a tree of system calls, so
    that other threads and processes can run between any two calls. A system call
    may fail at any time, and [write] may take fewer bytes than it was given. The
    standard library's streams and [std::filesystem] are written out in terms of
    the calls they make. There are no symbolic links. *)

From Stdlib Require Import Ascii.
From stdpp Require Import strings.
From S2P Require Import Prelude Text Storage.
Open Scope Z_scope.

(** ** The file system *)

Module Posix.

(** [EIO] stands for every error of the medium. *)
Inductive errno := EEXIST | ENOENT | ENOTDIR | EISDIR | ENOTEMPTY | EBADF | EIO.

Inductive node := Dir | File (ino : nat).

(** An open file: what it refers to, and the position of the next write. *)
Record open_file := mkOpen { of_node : node; of_pos : nat }.

(** [names] maps absolute paths, as components, to what they name; several names
    may share an inode. *)
Record FS := mkFS {
  cwd : list string;
  names : gmap (list string) node;
  inodes : gmap nat bytes;
  opens : gmap nat open_file;
}.

Definition entry (fs : FS) (p : list string) : option node :=
  match p with [] => Some Dir | _ => names fs !! p end.

(** Resolution of a pathname: every component is looked up in a directory. *)
Fixpoint walk (fs : FS) (cur cs : list string) : errno + list string :=
  match cs with
  | [] => inr cur
  | c :: cs =>
      match entry fs cur with
      | None => inl ENOENT
      | Some (File _) => inl ENOTDIR
      | Some Dir =>
          if bool_decide (c = "") || bool_decide (c = ".") then walk fs cur cs
          else if bool_decide (c = "..") then walk fs (removelast cur) cs
          else walk fs (cur ++ [c]) cs
      end
  end.

Definition is_absolute (s : string) : bool := String.prefix "/" s.

Definition resolve (fs : FS) (s : string) : errno + list string :=
  if bool_decide (s = "") then inl ENOENT
  else walk fs (if is_absolute s then [] else cwd fs) (split_on "/" s).

Inductive file_status := Regular (size : Z) | Directory.

(** The system calls, indexed by what they return when they succeed. [Read] is
    [lseek] with the reads up to [len] bytes or the end of the file, [Remove] is
    [remove(3)], [Readdir] the whole of a directory. *)
Inductive sys : Type -> Type :=
| Stat (p : string) : sys file_status
| Mkdir (p : string) : sys unit
| OpenRead (p : string) : sys nat
| OpenTrunc (p : string) : sys nat
| Mkstemp (template : string) : sys (string * nat)
| Write (fd : nat) (data : bytes) : sys nat
| Read (fd : nat) (offset len : Z) : sys bytes
| Fsync (fd : nat) : sys unit
| Close (fd : nat) : sys unit
| Link (old new : string) : sys unit
| Unlink (p : string) : sys unit
| Remove (p : string) : sys unit
| Readdir (p : string) : sys (list (string * bool)).

(** What the environment decides about a call: an error of the medium, the bytes
    [write] takes at most, and the six characters [mkstemp] makes up. *)
Record oracle := mkOracle { failure : bool; count : nat; suffix : string }.

Definition content (fs : FS) (i : nat) : bytes := default [] (inodes fs !! i).

(** The bytes of a file after a write at [pos]; a hole reads as zeros. *)
Definition write_at (b : bytes) (pos : nat) (data : bytes) : bytes :=
  take pos (b ++ replicate (pos - length b) Byte.x00) ++ data ++ drop (pos + length data) b.

Definition set_names (m : gmap (list string) node) (fs : FS) : FS := mkFS (cwd fs) m (inodes fs) (opens fs).
Definition set_inode (i : nat) (b : bytes) (fs : FS) : FS := mkFS (cwd fs) (names fs) (<[i := b]> (inodes fs)) (opens fs).
Definition set_opens (m : gmap nat open_file) (fs : FS) : FS := mkFS (cwd fs) (names fs) (inodes fs) m.

(** A new descriptor for [n]. *)
Definition open_fd (n : node) (fs : FS) : nat * FS :=
  let fd := fresh (dom (opens fs)) in (fd, set_opens (<[fd := mkOpen n 0]> (opens fs)) fs).

(** A new empty file, with a descriptor. *)
Definition create_file (p : list string) (fs : FS) : nat * FS :=
  let i := fresh (dom (inodes fs)) in
  open_fd (File i) (set_inode i [] (set_names (<[p := File i]> (names fs)) fs)).

Definition on_path {X} (fs : FS) (s : string) (f : list string -> (errno + X) * FS) : (errno + X) * FS :=
  match resolve fs s with inl e => (inl e, fs) | inr p => f p end.

(** The entries of a directory, with whether each is a regular file. *)
Definition child (d : list string) (e : list string * node) : option (string * bool) :=
  match last (e.1) with
  | Some c => if bool_decide (e.1 = d ++ [c]) then Some (c, match e.2 with File _ => true | Dir => false end) else None
  | None => None
  end.
Definition children (fs : FS) (d : list string) : list (string * bool) := omap (child d) (map_to_list (names fs)).

Definition sys_ok (o : oracle) {X} (c : sys X) (fs : FS) : (errno + X) * FS :=
  match c in sys X return (errno + X) * FS with
  | Stat s =>
      on_path fs s (fun p => match entry fs p with
                             | None => (inl ENOENT, fs)
                             | Some Dir => (inr Directory, fs)
                             | Some (File i) => (inr (Regular (Z.of_nat (length (content fs i)))), fs)
                             end)
  | Mkdir s =>
      on_path fs s (fun p => match entry fs p with
                             | None => (inr tt, set_names (<[p := Dir]> (names fs)) fs)
                             | Some _ => (inl EEXIST, fs)
                             end)
  | OpenRead s =>
      on_path fs s (fun p => match entry fs p with
                             | None => (inl ENOENT, fs)
                             | Some n => let '(fd, fs) := open_fd n fs in (inr fd, fs)
                             end)
  | OpenTrunc s =>
      on_path fs s (fun p => match entry fs p with
                             | None => let '(fd, fs) := create_file p fs in (inr fd, fs)
                             | Some Dir => (inl EISDIR, fs)
                             | Some (File i) => let '(fd, fs) := open_fd (File i) (set_inode i [] fs) in (inr fd, fs)
                             end)
  | Mkstemp template =>
      let s := template +:+ suffix o in
      on_path fs s (fun p => match entry fs p with
                             | None => let '(fd, fs) := create_file p fs in (inr (s, fd), fs)
                             | Some _ => (inl EEXIST, fs)
                             end)
  | Write fd data =>
      match opens fs !! fd with
      | Some (mkOpen (File i) pos) =>
          let n := Nat.min (count o) (length data) in
          (inr n, set_opens (<[fd := mkOpen (File i) (pos + n)]> (opens fs))
                    (set_inode i (write_at (content fs i) pos (take n data)) fs))
      | _ => (inl EBADF, fs)
      end
  | Read fd offset len =>
      match opens fs !! fd with
      | Some (mkOpen (File i) _) => (inr (slice (Z.to_nat offset) (Z.to_nat len) (content fs i)), fs)
      | Some (mkOpen Dir _) => (inl EISDIR, fs)
      | None => (inl EBADF, fs)
      end
  | Fsync fd => (inr tt, fs)
  | Close fd => (inr tt, set_opens (delete fd (opens fs)) fs)
  | Link old new =>
      on_path fs old (fun p => match entry fs p with
      | Some (File i) => on_path fs new (fun q => match entry fs q with
                                                  | None => (inr tt, set_names (<[q := File i]> (names fs)) fs)
                                                  | Some _ => (inl EEXIST, fs)
                                                  end)
      | Some Dir => (inl EISDIR, fs)
      | None => (inl ENOENT, fs)
      end)
  | Unlink s =>
      on_path fs s (fun p => match entry fs p with
                             | None => (inl ENOENT, fs)
                             | Some Dir => (inl EISDIR, fs)
                             | Some (File _) => (inr tt, set_names (delete p (names fs)) fs)
                             end)
  | Remove s =>
      on_path fs s (fun p => match entry fs p with
                             | None => (inl ENOENT, fs)
                             | Some (File _) => (inr tt, set_names (delete p (names fs)) fs)
                             | Some Dir => match children fs p with
                                           | [] => (inr tt, set_names (delete p (names fs)) fs)
                                           | _ => (inl ENOTEMPTY, fs)
                                           end
                             end)
  | Readdir s =>
      on_path fs s (fun p => match entry fs p with
                             | None => (inl ENOENT, fs)
                             | Some (File _) => (inl ENOTDIR, fs)
                             | Some Dir => (inr (children fs p), fs)
                             end)
  end.

(** A call that fails changes nothing, except that [close] gives the descriptor
    up in any case. *)
Definition sys_exec (o : oracle) {X} (c : sys X) (fs : FS) : (errno + X) * FS :=
  if failure o then (inl EIO, match c with Close fd => set_opens (delete fd (opens fs)) fs | _ => fs end)
  else sys_ok o c fs.

(** ** Programs of system calls *)

Inductive proc (A : Type) : Type :=
| Return (a : A)
| Raise (f : fault)
| Call {X : Type} (c : sys X) (k : errno + X -> proc A).
Arguments Return {A} a.
Arguments Raise {A} f.
Arguments Call {A X} c k.

Fixpoint proc_bind {A B} (p : proc A) (f : A -> proc B) : proc B :=
  match p with
  | Return a => f a
  | Raise e => Raise e
  | Call c k => Call c (fun r => proc_bind (k r) f)
  end.

(** [try p catch (...)]. *)
Fixpoint proc_catch {A} (p : proc A) (h : fault -> proc A) : proc A :=
  match p with
  | Return a => Return a
  | Raise e => h e
  | Call c k => Call c (fun r => proc_catch (k r) h)
  end.

Definition sys_call {X} (c : sys X) : proc (errno + X) := Call c Return.

End Posix.
Export Posix.

Notation "'do' x '<-' m ';' k" := (proc_bind m (fun x => k))
  (at level 199, x pattern, m at level 100, right associativity,
   format "'[v' 'do'  x  '<-'  m ';' '/' k ']'") : dbp_scope.

Definition runtime (msg : string) : fault := Throw runtime_error msg.

(** ** std::filesystem *)

Fixpoint join_path (cs : list string) : string :=
  match cs with
  | [] => ""
  | [c] => c
  | c :: cs => c +:+ "/" +:+ join_path cs
  end.

(** [path::filename]: what is behind the last ['/']. *)
Definition filename (s : string) : string := default "" (last (split_on "/" s)).

(** [path::operator/]. *)
Definition path_append (a b : string) : string :=
  if is_absolute b then b
  else if bool_decide (filename a = "") then a +:+ b
  else a +:+ "/" +:+ b.

Fixpoint strip_trailing (cs : list string) : list string :=
  match cs with
  | [] => []
  | c :: cs => match strip_trailing cs with [] => if bool_decide (c = "") then [] else [c] | cs => c :: cs end
  end.

(** [path::parent_path]: without the filename and the separators before it, but
    the root directory is its own parent. *)
Definition parent_path (s : string) : string :=
  match split_on "/" s with
  | [] | [_] => ""
  | cs => match strip_trailing (removelast cs) with [] => "/" | cs => join_path cs end
  end.

(** The non-empty prefixes of a path that end before a ['/'], and the path. *)
Definition prefixes (s : string) : list string :=
  filter (.≠ "") ((fun k => join_path (take k (split_on "/" s))) <$> seq 1 (length (split_on "/" s))).

(** [create_directory] with what precedes it: a directory that is there, or that
    appears meanwhile, is no error. *)
Definition ensure_directory (p : string) : proc unit :=
  do r <- sys_call (Stat p);
  match r with
  | inr Directory => Return tt
  | inr (Regular _) => Raise (runtime "filesystem error: cannot create directories")
  | inl ENOENT =>
      do r <- sys_call (Mkdir p);
      match r with
      | inr _ => Return tt
      | inl EEXIST =>
          do r <- sys_call (Stat p);
          match r with
          | inr Directory => Return tt
          | _ => Raise (runtime "filesystem error: cannot create directories")
          end
      | inl _ => Raise (runtime "filesystem error: cannot create directories")
      end
  | inl _ => Raise (runtime "filesystem error: cannot create directories")
  end.

Fixpoint ensure_directories (ps : list string) : proc unit :=
  match ps with
  | [] => Return tt
  | p :: ps => do _ <- ensure_directory p; ensure_directories ps
  end.

Definition create_directories (p : string) : proc unit :=
  if bool_decide (p = "") then Raise (runtime "filesystem error: cannot create directories")
  else ensure_directories (prefixes p).

Definition is_regular_file (p : string) : proc bool :=
  do r <- sys_call (Stat p);
  match r with
  | inr (Regular _) => Return true
  | inr Directory | inl ENOENT | inl ENOTDIR => Return false
  | inl _ => Raise (runtime "filesystem error: status")
  end.

Definition is_directory (p : string) : proc bool :=
  do r <- sys_call (Stat p);
  match r with
  | inr Directory => Return true
  | inr (Regular _) | inl ENOENT | inl ENOTDIR => Return false
  | inl _ => Raise (runtime "filesystem error: status")
  end.

Definition file_size (p : string) : proc Z :=
  do r <- sys_call (Stat p);
  match r with
  | inr (Regular n) => Return n
  | _ => Raise (runtime "filesystem error: cannot get file size")
  end.

Definition remove (p : string) : proc unit :=
  do r <- sys_call (Remove p);
  match r with
  | inr _ | inl ENOENT => Return tt
  | inl _ => Raise (runtime "filesystem error: cannot remove")
  end.

(** The entries of a directory that is seen as [rel] from where the iteration
    started: the regular files, and what [descend] finds in the directories. *)
Fixpoint visit_entries (descend : string -> proc (list string)) (rel : string) (es : list (string * bool)) : proc (list string) :=
  match es with
  | [] => Return []
  | (c, true) :: es => do l <- visit_entries descend rel es; Return ((rel +:+ c) :: l)
  | (c, false) :: es => do l <- descend c; do l' <- visit_entries descend rel es; Return (l ++ l')
  end.

(** [recursive_directory_iterator] from [dir], with the regular files it comes to
    relative to the start. The fuel bounds the depth. *)
Fixpoint recursive_directory_iterator (fuel : nat) (dir rel : string) : proc (list string) :=
  match fuel with
  | O => Raise OutOfFuel
  | S fuel =>
      do r <- sys_call (Readdir dir);
      match r with
      | inl _ => Raise (runtime "filesystem error: directory iterator cannot open directory")
      | inr es => visit_entries (fun c => recursive_directory_iterator fuel (path_append dir c) (rel +:+ c +:+ "/")) rel es
      end
  end.

(** ** LocalStorage *)

(** When a [filebuf] that holds the first bytes passes them on with the second,
    rather than keep both; the standard leaves it open. *)
Class Filebuf := { overflows : bytes -> bytes -> bool }.

Module LocalStorage.

Section LocalStorage.

Variable root_ : string.

Record LocalInputFile := mkInput { in_ : nat; size_ : Z }.

(** An [ofstream]: its descriptor while it is open, the bytes in its buffer, and
    whether it is good. *)
Record LocalOutputStream := mkOutput { out_ : option nat; buffered : bytes; good : bool }.

Definition new : proc unit := create_directories root_.

Definition FullPath (path : string) : string := path_append root_ path.

Definition Size (f : LocalInputFile) : Z := size_ f.

Definition ReadAt (f : LocalInputFile) (offset len : Z) : proc (option bytes) :=
  if (size_ f <? offset) || (size_ f - offset <? len) then Return None
  else
    do r <- sys_call (Read (in_ f) offset len);
    match r with
    | inr b => if Z.of_nat (length b) =? len then Return (Some b) else Raise (runtime "LocalStorage: short read")
    | inl _ => Raise (runtime "LocalStorage: short read")
    end.

Definition OpenInput (path : string) : proc (option LocalInputFile) :=
  let full := FullPath path in
  do regular <- is_regular_file full;
  if negb regular then Return None else
  do r <- sys_call (OpenRead full);
  match r with
  | inl _ => Raise (runtime ("LocalStorage: cannot open " +:+ full))
  | inr fd => do size <- file_size full; Return (Some (mkInput fd size))
  end.

(** The destructor of an [ifstream]. *)
Definition drop_input (f : LocalInputFile) : proc unit := do _ <- sys_call (Posix.Close (in_ f)); Return tt.

(** [filebuf] writes until everything is written or a write fails. *)
Fixpoint filebuf_write (fuel : nat) (fd : nat) (b : bytes) : proc bool :=
  match b with
  | [] => Return true
  | _ =>
      match fuel with
      | O => Raise OutOfFuel
      | S fuel =>
          do r <- sys_call (Write fd b);
          match r with
          | inl _ | inr O => Return false
          | inr n => filebuf_write fuel fd (drop n b)
          end
      end
  end.

Definition OpenOutput (path : string) : proc LocalOutputStream :=
  let full := FullPath path in
  do _ <- create_directories (parent_path full);
  do r <- sys_call (OpenTrunc full);
  match r with
  | inl _ => Raise (runtime ("LocalStorage: cannot create " +:+ full))
  | inr fd => Return (mkOutput (Some fd) [] true)
  end.

(** The stream after the call, and whether it threw. A stream that is not good
    or not open takes nothing. *)
Definition Append `{!Filebuf} (data : bytes) (o : LocalOutputStream) : proc (LocalOutputStream * result unit) :=
  let failed := (mkOutput (out_ o) (buffered o) false, Fail (runtime "LocalStorage: write failed")) in
  match out_ o, good o with
  | Some fd, true =>
      if overflows (buffered o) data then
        let b := buffered o ++ data in
        do ok <- filebuf_write (length b) fd b;
        if (ok : bool) then Return (mkOutput (Some fd) [] true, Ok tt) else Return failed
      else Return (mkOutput (Some fd) (buffered o ++ data) true, Ok tt)
  | _, _ => Return failed
  end.

(** [ofstream::close] flushes and closes; a failure only clears the state of the
    stream, which nobody looks at. The destructor calls it too. *)
Definition Close (o : LocalOutputStream) : proc LocalOutputStream :=
  match out_ o with
  | None => Return o
  | Some fd =>
      do ok <- filebuf_write (length (buffered o)) fd (buffered o);
      do _ <- sys_call (Posix.Close fd);
      Return (mkOutput None [] (good o && ok))
  end.

(** The loop of [write]s of [CreateIfAbsent]. *)
Fixpoint write_all (fuel : nat) (full : string) (fd : nat) (b : bytes) (written : nat) : proc unit :=
  if (length b <=? written)%nat then Return tt else
  match fuel with
  | O => Raise OutOfFuel
  | S fuel =>
      do r <- sys_call (Write fd (drop written b));
      match r with
      | inl _ | inr O => Raise (runtime ("LocalStorage: write failed for " +:+ full))
      | inr n => write_all fuel full fd b (written + n)
      end
  end.

Definition close_and_unlink (fd : nat) (name : string) : proc unit :=
  do _ <- sys_call (Posix.Close fd);
  do _ <- sys_call (Unlink name);
  Return tt.

(** The [try] block of [CreateIfAbsent]. *)
Definition fill_and_link (full name : string) (fd : nat) (b : bytes) : proc CreateFileResult :=
  do _ <- write_all (length b) full fd b 0;
  do r <- sys_call (Fsync fd);
  match r with
  | inl _ => Raise (runtime ("LocalStorage: fsync failed for " +:+ full))
  | inr _ =>
      do r <- sys_call (Link name full);
      match r with
      | inr _ => do _ <- close_and_unlink fd name; Return Created
      | inl EEXIST => do _ <- close_and_unlink fd name; Return AlreadyExists
      | inl _ => Raise (runtime ("LocalStorage: link failed for " +:+ full))
      end
  end.

Definition CreateIfAbsent (path : string) (b : bytes) : proc CreateFileResult :=
  let full := FullPath path in
  do _ <- create_directories (parent_path full);
  do r <- sys_call (Mkstemp (full +:+ ".tmp."));
  match r with
  | inl _ => Raise (runtime ("LocalStorage: mkstemp failed for " +:+ full))
  | inr (name, fd) =>
      proc_catch (fill_and_link full name fd b) (fun e => do _ <- close_and_unlink fd name; Raise e)
  end.

Definition Exists (path : string) : proc bool := is_regular_file (FullPath path).

(** [fuel] bounds the depth of the directory tree under the root. *)
Definition List_ (fuel : nat) (pre : string) : proc (list string) :=
  do dir <- is_directory root_;
  if negb dir then Return [] else
  do out <- recursive_directory_iterator fuel root_ "";
  Return (filter (fun rel => String.prefix pre rel = true) out).

Definition Delete (path : string) : proc unit := remove (FullPath path).

End LocalStorage.

End LocalStorage.
