(* ===== verification/LocalSpec.v ===== *)
(** * Local files under interference

    [CreateIfAbsent] on a disk that other threads and processes use at the same
    time: its only effect that others can see is one step that makes the complete
    file appear at its path. *)

From Stdlib Require Import Ascii.
From stdpp Require Import strings.
From S2P Require Import Prelude Text Storage LocalStorage.
Open Scope Z_scope.

(** ** The kernel's state *)

(** A component that a name can end in. *)
Definition plain (c : string) : Prop := c <> "" /\ c <> "." /\ c <> ".." /\ all_chars (.≠ "/"%char) c.

Record wf (fs : FS) : Prop := mkWf {
  wf_root : names fs !! [] = None;
  wf_tree : forall p n, names fs !! p = Some n -> exists d c, p = d ++ [c] /\ plain c /\ entry fs d = Some Dir;
  wf_names : forall p i, names fs !! p = Some (File i) -> is_Some (inodes fs !! i);
  wf_opens : forall fd i pos, opens fs !! fd = Some (mkOpen (File i) pos) -> is_Some (inodes fs !! i);
}.

(** The place a pathname means, whatever directories there are. *)
Fixpoint norm (cur cs : list string) : list string :=
  match cs with
  | [] => cur
  | c :: cs =>
      if bool_decide (c = "") || bool_decide (c = ".") then norm cur cs
      else if bool_decide (c = "..") then norm (removelast cur) cs
      else norm (cur ++ [c]) cs
  end.

Definition place (fs : FS) (s : string) : list string := norm (if is_absolute s then [] else cwd fs) (split_on "/" s).

(** The regular file at a place. *)
Definition file_at (fs : FS) (p : list string) : option bytes :=
  match names fs !! p with Some (File i) => inodes fs !! i | _ => None end.

Lemma walk_norm fs cs cur p : walk fs cur cs = inr p -> p = norm cur cs.
Proof.
  revert cur. induction cs as [|c cs IH]; intros cur H; simpl in *; [congruence|].
  destruct (entry fs cur) as [[|i]|]; try done. repeat case_match; eauto.
Qed.

Lemma resolve_place fs s p : resolve fs s = inr p -> p = place fs s.
Proof. unfold resolve, place. case_bool_decide; [done|]. apply walk_norm. Qed.

Lemma split_on_chars c s : Forall (all_chars (.≠ c)) (split_on c s).
Proof.
  induction s as [|x s IH]; simpl; [by repeat constructor|]. case_bool_decide as Hx.
  - constructor; [constructor | done].
  - destruct (split_on c s) as [|a l]; [repeat constructor; done|]. apply Forall_cons in IH as [Ha Hl].
    constructor; [by constructor | done].
Qed.

(** A name that resolution comes to without finding it there is in a directory. *)
Lemma walk_new fs cs cur p : walk fs cur cs = inr p -> Forall (all_chars (.≠ "/"%char)) cs -> is_Some (entry fs cur) ->
  (forall q, entry fs q <> None -> q <> [] -> is_Some (entry fs (removelast q))) ->
  entry fs p = None -> exists d c, p = d ++ [c] /\ plain c /\ entry fs d = Some Dir.
Proof.
  intros H Hc Hcur Hup Hp. revert cur H Hcur. induction Hc as [|c cs Hcc Hc IH]; intros cur H Hcur; simpl in H.
  { injection H as <-. destruct Hcur. congruence. }
  destruct (entry fs cur) as [[|i]|] eqn:Ee; try done.
  destruct (bool_decide (c = "") || bool_decide (c = ".")) eqn:E1; [by eapply IH|].
  case_bool_decide as E2.
  - eapply IH; [done|]. destruct cur as [|x cur]; [done|]. apply (Hup (x :: cur)); congruence.
  - destruct (entry fs (cur ++ [c])) eqn:E3; [eapply IH; [done | rewrite E3; done]|].
    destruct cs as [|c' cs].
    + injection H as <-. exists cur, c. apply orb_false_iff in E1 as [E1 E1']. split; [done|]. split; [|done].
      apply bool_decide_eq_false in E1, E1'. done.
    + simpl in H. by rewrite E3 in H.
Qed.

Lemma wf_up fs q : wf fs -> entry fs q <> None -> q <> [] -> is_Some (entry fs (removelast q)).
Proof.
  intros Hw Hq Hne. destruct q as [|x q]; [done|]. destruct (names fs !! (x :: q)) as [n|] eqn:E; [|done].
  destruct (wf_tree _ Hw _ _ E) as (d & c & -> & _ & Hd). by rewrite removelast_last, Hd.
Qed.

Lemma entry_nonroot fs p : p <> [] -> entry fs p = names fs !! p.
Proof. by destruct p. Qed.

Lemma split_on_cons c s : exists a l, split_on c s = a :: l.
Proof. destruct s as [|x s]; simpl; [eauto|]. case_bool_decide; [eauto|]. destruct (split_on c s); eauto. Qed.

Lemma resolve_new fs s p : wf fs -> resolve fs s = inr p -> entry fs p = None ->
  exists d c, p = d ++ [c] /\ plain c /\ entry fs d = Some Dir.
Proof.
  unfold resolve. intros Hw. case_bool_decide; [done|]. set (cur := if is_absolute s then [] else cwd fs). intros H1 H2.
  eapply walk_new; [done | apply split_on_chars | | |done].
  - destruct (split_on_cons "/" s) as (a & l & E). rewrite E in H1. simpl in H1. by destruct (entry fs cur) as [[]|].
  - intros q. by apply wf_up.
Qed.

(** *** The kernel keeps its state well-formed *)

Lemma entry_insert fs p n q : p <> [] -> entry (set_names (<[p := n]> (names fs)) fs) q = if decide (q = p) then Some n else entry fs q.
Proof.
  intros Hp. case_decide as Hq; [subst q; rewrite entry_nonroot by done; apply lookup_insert_eq|].
  destruct q; [done|]. simpl. by rewrite lookup_insert_ne.
Qed.

Lemma wf_insert fs p n : wf fs -> names fs !! p = None -> (exists d c, p = d ++ [c] /\ plain c /\ entry fs d = Some Dir) ->
  (forall i, n = File i -> is_Some (inodes fs !! i)) -> wf (set_names (<[p := n]> (names fs)) fs).
Proof.
  intros Hw Hp (d & c & Hd & Hc & He) Hn. assert (Hne : p <> []) by (subst p; by destruct d).
  constructor; [by simpl; rewrite lookup_insert_ne by congruence; apply Hw | | | by apply Hw].
  - assert (Hkeep : forall q, entry fs q = Some Dir -> entry (set_names (<[p := n]> (names fs)) fs) q = Some Dir).
    { intros q Hq. rewrite entry_insert by done. case_decide; [|done]. subst q. rewrite entry_nonroot in Hq by done. congruence. }
    intros q m Hq. simpl in Hq. apply lookup_insert_Some in Hq as [[<- <-]|[_ Hq]]; [eauto 6|].
    destruct (wf_tree _ Hw _ _ Hq) as (d' & c' & H1 & H2 & H3). eauto 6.
  - intros q i Hq. simpl in *. apply lookup_insert_Some in Hq as [[<- ->]|[_ Hq]]; [by apply Hn | by eapply wf_names].
Qed.

Lemma wf_delete fs p : wf fs -> (forall c, names fs !! (p ++ [c]) = None) -> wf (set_names (delete p (names fs)) fs).
Proof.
  intros Hw Hp. constructor; [simpl; apply lookup_delete_None; right; apply Hw | | | by apply Hw].
  - intros q m Hq. simpl in Hq. apply lookup_delete_Some in Hq as [Hne Hq].
    destruct (wf_tree _ Hw _ _ Hq) as (d & c & -> & H2 & H3). exists d, c. split_and!; [done | done |].
    assert (p <> d) by (intros ->; congruence). destruct d; [done|]. simpl in *. by rewrite lookup_delete_ne.
  - intros q i Hq. simpl in *. apply lookup_delete_Some in Hq as [_ Hq]. by eapply wf_names.
Qed.

Lemma wf_inode fs i b : wf fs -> wf (set_inode i b fs).
Proof.
  intros [H1 H2 H3 H4]. constructor; simpl; [done | done | |]; intros *; intros Hx;
    (destruct (decide (i = i0)) as [->|]; [by rewrite lookup_insert_eq | rewrite lookup_insert_ne by done; eauto]).
Qed.

Lemma wf_set_opens fs m : wf fs -> (forall fd i pos, m !! fd = Some (mkOpen (File i) pos) -> is_Some (inodes fs !! i)) -> wf (set_opens m fs).
Proof. intros [H1 H2 H3 H4] Hm. by constructor. Qed.

Lemma wf_close fs fd : wf fs -> wf (set_opens (delete fd (opens fs)) fs).
Proof. intros Hw. apply wf_set_opens; [done|]. intros fd' i pos H. apply lookup_delete_Some in H as [_ H]. by eapply wf_opens. Qed.

Lemma wf_open fs n fd pos : wf fs -> (forall i, n = File i -> is_Some (inodes fs !! i)) -> wf (set_opens (<[fd := mkOpen n pos]> (opens fs)) fs).
Proof.
  intros Hw Hn. apply wf_set_opens; [done|]. intros fd' i pos' H. apply lookup_insert_Some in H as [[<- [= -> ->]]|[_ H]]; [by apply Hn | by eapply wf_opens].
Qed.

Lemma child_spec d e c f : child d e = Some (c, f) <-> e.1 = d ++ [c] /\ f = match e.2 with File _ => true | Dir => false end.
Proof.
  destruct e as [p n]. unfold child. cbn [fst snd]. split.
  - destruct (last p) as [c'|] eqn:E; [|done]. case_bool_decide; [|done]. by intros [= <- <-].
  - intros [-> ->]. rewrite last_snoc. by rewrite bool_decide_true.
Qed.

Lemma elem_of_children fs d c f : (c, f) ∈ children fs d <-> exists n, names fs !! (d ++ [c]) = Some n /\ f = match n with File _ => true | Dir => false end.
Proof.
  unfold children. rewrite list_elem_of_omap. split.
  - intros ([p n] & Hin & He). apply child_spec in He as [Hp Hf]. simpl in *. subst p. apply elem_of_map_to_list in Hin. eauto.
  - intros (n & Hn & ->). exists (d ++ [c], n). split; [by apply elem_of_map_to_list | by apply child_spec].
Qed.

Lemma create_file_spec fs p : wf fs -> names fs !! p = None -> (exists d c, p = d ++ [c] /\ plain c /\ entry fs d = Some Dir) ->
  exists fd i fs', create_file p fs = (fd, fs') /\ wf fs' /\ opens fs !! fd = None /\ inodes fs !! i = None /\ cwd fs' = cwd fs /\
    names fs' = <[p := File i]> (names fs) /\ inodes fs' = <[i := []]> (inodes fs) /\ opens fs' = <[fd := mkOpen (File i) 0]> (opens fs).
Proof.
  intros Hw Hp Hd. unfold create_file, open_fd. set (i := fresh (dom (inodes fs))). set (fd := fresh (dom (opens fs))).
  assert (Hi : inodes fs !! i = None) by apply not_elem_of_dom, is_fresh. assert (Hfd : opens fs !! fd = None) by apply not_elem_of_dom, is_fresh.
  eexists fd, i, _. split; [reflexivity|]. split_and!; try done. apply wf_open.
  - replace (set_inode i [] (set_names (<[p:=File i]> (names fs)) fs)) with (set_names (<[p := File i]> (names (set_inode i [] fs))) (set_inode i [] fs)) by done.
    apply wf_insert; [by apply wf_inode | done | | ]; [done|]. intros ? [= <-]. simpl. by rewrite lookup_insert_eq.
  - intros ? [= <-]. simpl. by rewrite lookup_insert_eq.
Qed.

Lemma entry_file fs p i : entry fs p = Some (File i) -> names fs !! p = Some (File i).
Proof. by destruct p. Qed.

Lemma entry_none fs p : entry fs p = None -> names fs !! p = None.
Proof. by destruct p. Qed.

(** Files have nothing below them. *)
Lemma file_no_child fs p i c : wf fs -> names fs !! p = Some (File i) -> names fs !! (p ++ [c]) = None.
Proof.
  intros Hw Hp. destruct (names fs !! (p ++ [c])) as [n|] eqn:E; [|done]. destruct (wf_tree _ Hw _ _ E) as (d & c' & Hd & _ & He).
  apply app_inj_tail in Hd as [-> ->]. destruct d; [by rewrite (wf_root _ Hw) in Hp | simpl in He; congruence].
Qed.

(** Every outcome of resolving a path in the goal. *)
Ltac by_path H := unfold on_path in H; let E := fresh "Er" in
  match type of H with context [resolve ?fs ?s] => destruct (resolve fs s) as [?|?] eqn:E; [by simplify_eq|] end.
Ltac by_entry H := let E := fresh "Ee" in
  match type of H with context [entry ?fs ?p] => destruct (entry fs p) as [[|?]|] eqn:E end.

#[local] Arguments create_file : simpl never.

Lemma sys_exec_wf o {X} (c : sys X) fs r fs' : wf fs -> sys_exec o c fs = (r, fs') -> wf fs' /\ cwd fs' = cwd fs.
Proof.
  intros Hw. unfold sys_exec. destruct (failure o).
  { destruct c; intros [= <- <-]; split; try done; by apply wf_close. }
  destruct c; intros H; cbn [sys_ok] in H; try (by simplify_eq).
  - by_path H. by_entry H; by simplify_eq.
  - by_path H. by_entry H; simplify_eq; try done. split; [|done]. apply wf_insert; [done | by apply entry_none | | done]. by eapply resolve_new.
  - by_path H. unfold open_fd in H. by_entry H; simplify_eq; try done; (split; [|done]); apply wf_open; try done. intros ? [= <-]. eapply wf_names; [done | by apply entry_file].
  - by_path H. by_entry H; try by simplify_eq.
    + injection H as <- <-. split; [|done]. apply (wf_open (set_inode ino [] fs)); [by apply wf_inode|]. intros ? [= <-]. simpl. by rewrite lookup_insert_eq.
    + destruct (create_file_spec fs l) as (fd & i & fs1 & E & Hw1 & _ & _ & Hc & _); [done | by apply entry_none | by eapply resolve_new|].
      rewrite E in H. by injection H as <- <-.
  - by_path H. by_entry H; try by simplify_eq.
    destruct (create_file_spec fs l) as (fd & i & fs1 & E & Hw1 & _ & _ & Hc & _); [done | by apply entry_none | by eapply resolve_new|].
    rewrite E in H. by injection H as <- <-.
  - destruct (opens fs !! fd) as [[[|i] pos]|] eqn:E; simplify_eq; try done. split; [|done].
    apply (wf_open (set_inode i (write_at (content fs i) pos (take (count o `min` length data) data)) fs)); [by apply wf_inode|].
    intros ? [= <-]. simpl. by rewrite lookup_insert_eq.
  - destruct (opens fs !! fd) as [[[|i] pos]|] eqn:E; by simplify_eq.
  - simplify_eq. split; [by apply wf_close | done].
  - by_path H. by_entry H; simplify_eq; try done. by_path H. by_entry H; simplify_eq; try done. split; [|done].
    apply wf_insert; [done | by apply entry_none | by eapply resolve_new|]. intros ? [= <-]. eapply wf_names; [done | by apply entry_file].
  - by_path H. by_entry H; simplify_eq; try done. split; [|done]. apply wf_delete; [done|]. intros c. eapply file_no_child; [done | by apply entry_file].
  - by_path H. by_entry H; simplify_eq; try done.
    + destruct (children fs l) eqn:Ec; simplify_eq; [|done]. split; [|done]. apply wf_delete; [done|]. intros c.
      destruct (names fs !! (l ++ [c])) as [n|] eqn:E; [|done].
      destruct (elem_of_children fs l c match n with File _ => true | Dir => false end) as [_ Hin].
      rewrite Ec in Hin. assert (Hno : (c, match n with File _ => true | Dir => false end) ∈ @nil (string * bool)) by eauto. by apply not_elem_of_nil in Hno.
    + split; [|done]. apply wf_delete; [done|]. intros c. eapply file_no_child; [done | by apply entry_file].
  - by_path H. by_entry H; by simplify_eq.
Qed.

(** ** Runs with interference *)

(** How far a call of [CreateIfAbsent] is with its temporary file. *)
Inductive phase := Writing | Linked | Closed.

(** What it holds: the place of the file, its descriptor and its inode. *)
Record held := mkHeld { h_path : list string; h_fd : nat; h_ino : nat; h_phase : phase }.

Definition enter (ph : phase) (h : held) : held := mkHeld (h_path h) (h_fd h) (h_ino h) ph.

Definition hold (h : option held) {X} (c : sys X) (fs : FS) (r : errno + X) (fs' : FS) : option held :=
  match c in sys X return errno + X -> option held with
  | Mkstemp _ => fun r =>
      match r with
      | inr (name, fd) => match names fs' !! place fs name with Some (File i) => Some (mkHeld (place fs name) fd i Writing) | _ => h end
      | inl _ => h
      end
  | Link _ _ => fun r => match r with inr _ => enter Linked <$> h | inl _ => h end
  | Close _ => fun _ => enter Closed <$> h
  | Unlink _ => fun r => match r with inr _ => None | inl _ => h end
  | _ => fun _ => h
  end r.

(** Nobody else touches the temporary file: its name, its descriptor while that
    is open and, until it is linked, its bytes; nobody links it. Everything else
    may change. *)
Definition interfere (h : option held) (fs fs' : FS) : Prop :=
  wf fs' /\ cwd fs' = cwd fs /\
  match h with
  | None => True
  | Some h =>
      names fs' !! h_path h = names fs !! h_path h /\
      (h_phase h <> Closed -> opens fs' !! h_fd h = opens fs !! h_fd h) /\
      (h_phase h = Writing -> inodes fs' !! h_ino h = inodes fs !! h_ino h /\
         forall q, names fs' !! q = Some (File (h_ino h)) -> names fs !! q = Some (File (h_ino h)))
  end.

(** What is true of a temporary file that is held. *)
Record valid (h : held) (fs : FS) : Prop := mkValid {
  v_name : names fs !! h_path h = Some (File (h_ino h));
  v_open : h_phase h <> Closed -> exists pos, opens fs !! h_fd h = Some (mkOpen (File (h_ino h)) pos);
  v_only : h_phase h = Writing -> forall q, names fs !! q = Some (File (h_ino h)) -> q = h_path h;
}.

Lemma valid_stable h fs fs' : valid h fs -> interfere (Some h) fs fs' -> valid h fs'.
Proof.
  intros [H1 H2 H3] (_ & _ & Hn & Ho & Hw). constructor; [congruence | intros Hp; rewrite Ho by done; auto |].
  intros Hp. destruct (Hw Hp) as [_ Hq]. eauto.
Qed.

(** A run of a program: before each system call others may interfere. It is a
    list of the states before and after each call of the program's own. *)
Fixpoint run {A} (p : proc A) (h : option held) (fs : FS) (tr : list (FS * FS)) (res : result A) (h' : option held) (fs' : FS) : Prop :=
  match p with
  | Return a => tr = [] /\ res = Ok a /\ h' = h /\ fs' = fs
  | Raise e => tr = [] /\ res = Fail e /\ h' = h /\ fs' = fs
  | Call c k =>
      exists o fs1 r fs2 tr', interfere h fs fs1 /\ all_chars (.≠ "/"%char) (suffix o) /\ sys_exec o c fs1 = (r, fs2) /\
        tr = (fs1, fs2) :: tr' /\ run (k r) (hold h c fs1 r fs2) fs2 tr' res h' fs'
  end.

Lemma run_bind {A B} (p : proc A) (f : A -> proc B) h fs tr res h' fs' : run (proc_bind p f) h fs tr res h' fs' ->
  (exists e, res = Fail e /\ run p h fs tr (Fail e) h' fs') \/
  exists a tr1 tr2 h1 fs1, tr = tr1 ++ tr2 /\ run p h fs tr1 (Ok a) h1 fs1 /\ run (f a) h1 fs1 tr2 res h' fs'.
Proof.
  revert h fs tr. induction p as [a|e|X c k IH]; intros h fs tr H; simpl in H.
  - right. by exists a, [], tr, h, fs.
  - destruct H as (-> & -> & -> & ->). left. by exists e.
  - destruct H as (o & fs1 & r & fs2 & tr' & H1 & H2 & H3 & -> & H4). apply IH in H4 as [(e & -> & H4)|(a & tr1 & tr2 & h1 & fs3 & -> & H4 & H5)].
    + left. exists e. split; [done|]. simpl. by exists o, fs1, r, fs2, tr'.
    + right. exists a, ((fs1, fs2) :: tr1), tr2, h1, fs3. split; [done|]. split; [|done]. simpl. by exists o, fs1, r, fs2, tr1.
Qed.

Lemma run_catch {A} (p : proc A) (f : fault -> proc A) h fs tr res h' fs' : run (proc_catch p f) h fs tr res h' fs' ->
  (exists a, res = Ok a /\ run p h fs tr (Ok a) h' fs') \/
  exists e tr1 tr2 h1 fs1, tr = tr1 ++ tr2 /\ run p h fs tr1 (Fail e) h1 fs1 /\ run (f e) h1 fs1 tr2 res h' fs'.
Proof.
  revert h fs tr. induction p as [a|e|X c k IH]; intros h fs tr H; simpl in H.
  - destruct H as (-> & -> & -> & ->). left. by exists a.
  - right. by exists e, [], tr, h, fs.
  - destruct H as (o & fs1 & r & fs2 & tr' & H1 & H2 & H3 & -> & H4). apply IH in H4 as [(a & -> & H4)|(e & tr1 & tr2 & h1 & fs3 & -> & H4 & H5)].
    + left. exists a. split; [done|]. simpl. by exists o, fs1, r, fs2, tr'.
    + right. exists e, ((fs1, fs2) :: tr1), tr2, h1, fs3. split; [done|]. split; [|done]. simpl. by exists o, fs1, r, fs2, tr1.
Qed.

(** Inversion of the first call of a run. *)
Ltac run_call H := let o := fresh "o" in let fs := fresh "fs" in let r := fresh "r" in let fs' := fresh "fs" in
  let tr := fresh "tr" in let Hi := fresh "Hi" in let Ho := fresh "Ho" in let He := fresh "He" in
  destruct H as (o & fs & r & fs' & tr & Hi & Ho & He & -> & H); cbn [hold] in H.
(** Inversion of a run that is over. *)
Ltac run_done H := destruct H as (-> & -> & -> & ->).

(** *** What others see of a step *)

(** The files are the same, but perhaps for the one at [t]. *)
Definition same_but (t : list string) (s : FS * FS) : Prop := forall q, q <> t -> file_at s.2 q = file_at s.1 q.

(** The step of a call whose temporary file is [i] at [t] is one that every other
    call of [CreateIfAbsent] expects. *)
Definition polite (t : list string) (i : nat) (s : FS * FS) : Prop :=
  forall h, h_path h <> t -> h_ino h <> i -> valid h s.1 -> interfere (Some h) s.1 s.2.

(** The file [b] appears at [p], where nothing was; all the others, but perhaps
    the one at [t], are as they were. *)
Definition publishes (p t : list string) (b : bytes) (s : FS * FS) : Prop :=
  entry s.1 p = None /\ file_at s.2 p = Some b /\ forall q, q <> t -> q <> p -> file_at s.2 q = file_at s.1 q.

Definition quiet (t : list string) (i : nat) (s : FS * FS) : Prop := same_but t s /\ polite t i s.

Lemma polite_same t i fs : wf fs -> polite t i (fs, fs).
Proof. intros Hw h _ _ _. by split_and!. Qed.

Lemma quiet_same t i fs : wf fs -> quiet t i (fs, fs).
Proof. intros Hw. split; [done | by apply polite_same]. Qed.

(** Calls that only look, and those that also make directories. *)
Definition looks {X} (c : sys X) : bool :=
  match c with Stat _ | Read _ _ _ | Fsync _ | Readdir _ => true | _ => false end.
Definition harmless {X} (c : sys X) : bool := match c with Mkdir _ => true | _ => looks c end.

Lemma looks_spec o {X} (c : sys X) fs r fs' : looks c = true -> sys_exec o c fs = (r, fs') -> fs' = fs.
Proof.
  intros Hl. unfold sys_exec. destruct (failure o); [destruct c; by intros [= <- <-]|].
  destruct c; try done; intros H; cbn [sys_ok] in H.
  - by_path H. by_entry H; by simplify_eq.
  - destruct (opens fs !! fd) as [[[|i] pos]|]; by simplify_eq.
  - by simplify_eq.
  - by_path H. by_entry H; by simplify_eq.
Qed.

Lemma mkdir_quiet t i o p fs r fs' : wf fs -> sys_exec o (Mkdir p) fs = (r, fs') -> quiet t i (fs, fs').
Proof.
  intros Hw H. destruct (sys_exec_wf _ _ _ _ _ Hw H) as [Hw' Hc']. revert H. unfold sys_exec.
  destruct (failure o); [intros [= <- <-]; by apply quiet_same|]. cbn [sys_ok]. intros H. unfold on_path in H.
  destruct (resolve fs p) as [e|q] eqn:Er; [injection H as <- <-; by apply quiet_same|].
  by_entry H; injection H as <- <-; try by apply quiet_same. apply entry_none in Ee. split.
  - intros q' _. unfold file_at. simpl. destruct (decide (q' = q)) as [->|]; [|by rewrite lookup_insert_ne].
    by rewrite lookup_insert_eq, Ee.
  - intros h _ _ [H1 H2 H3]. simpl in *. split_and!; try done.
    + simpl. rewrite lookup_insert_ne by congruence. done.
    + split; [done|]. simpl. intros q'. destruct (decide (q' = q)) as [->|]; [by rewrite lookup_insert_eq | by rewrite lookup_insert_ne].
Qed.

Lemma harmless_spec t i o {X} (c : sys X) h fs r fs' : wf fs -> harmless c = true -> sys_exec o c fs = (r, fs') ->
  quiet t i (fs, fs') /\ hold h c fs r fs' = h.
Proof.
  intros Hw Hc He. split; [|by destruct c]. destruct c; try done; try (rewrite (looks_spec _ _ _ _ _ Hc He); by apply quiet_same). by eapply mkdir_quiet.
Qed.

(** *** Making the directories *)

(** A program of harmless calls. *)
Fixpoint all_harmless {A} (p : proc A) : Prop :=
  match p with
  | Return _ => True
  | Raise e => exists msg, e = runtime msg
  | Call c k => harmless c = true /\ forall r, all_harmless (k r)
  end.

Lemma all_harmless_bind {A B} (p : proc A) (f : A -> proc B) : all_harmless p -> (forall a, all_harmless (f a)) -> all_harmless (proc_bind p f).
Proof. induction p as [a|e|X c k IH]; simpl; [auto | auto |]. intros [H1 H2] Hf. split; [done|]. intros r. by apply IH. Qed.

Lemma all_harmless_run {A} (p : proc A) fs tr res h' fs' : all_harmless p -> wf fs -> run p None fs tr res h' fs' ->
  wf fs' /\ cwd fs' = cwd fs /\ h' = None /\ (forall t i, Forall (quiet t i) tr) /\ (forall e, res = Fail e -> exists msg, e = runtime msg).
Proof.
  revert fs tr. induction p as [a|e|X c k IH]; intros fs tr Hp Hw H; simpl in H.
  - run_done H. by split_and!.
  - run_done H. split_and!; try done. intros e' [= ->]. apply Hp.
  - destruct Hp as [Hc Hk]. run_call H. destruct Hi as (Hw0 & Hcwd & _). destruct (sys_exec_wf _ _ _ _ _ Hw0 He) as [Hw1 Hc1].
    assert (Hh := fun t i => harmless_spec t i _ _ None _ _ _ Hw0 Hc He). assert (Hs := fun t i => proj1 (Hh t i)). destruct (Hh [] 0%nat) as [_ Hh']. rewrite Hh' in H. destruct (IH _ _ _ (Hk r) Hw1 H) as (H1 & H2 & H3 & H4 & H5).
    split_and!; try done; [congruence | by constructor].
Qed.

Lemma create_directories_harmless p : all_harmless (create_directories p).
Proof.
  unfold create_directories. case_bool_decide; [simpl; eauto|]. generalize (prefixes p). intros ps.
  induction ps as [|q ps IH]; [done|]. apply all_harmless_bind; [|done]. unfold ensure_directory.
  apply all_harmless_bind; [by split|]. intros [[]|[]]; simpl; eauto. split; [done|]. intros [[]|]; simpl; eauto. split; [done|].
  intros [|[]]; simpl; eauto.
Qed.

(** *** The temporary file *)

(** While it is written, its descriptor is at its end. *)
Definition owned (h : held) (fs : FS) (data : bytes) : Prop :=
  h_phase h = Writing /\ valid h fs /\ opens fs !! h_fd h = Some (mkOpen (File (h_ino h)) (length data)) /\ inodes fs !! h_ino h = Some data.

Lemma owned_stable h fs fs' data : owned h fs data -> interfere (Some h) fs fs' -> owned h fs' data.
Proof.
  intros (H1 & H2 & H3 & H4) Hi. pose proof (valid_stable _ _ _ H2 Hi) as Hv. destruct Hi as (_ & _ & Hn & Ho & Hw).
  split; [done|]. split; [done|]. rewrite Ho by congruence. by rewrite (proj1 (Hw H1)).
Qed.

Lemma valid_fd h h' fs : valid h fs -> valid h' fs -> h_phase h <> Closed -> h_phase h' <> Closed -> h_ino h' <> h_ino h -> h_fd h' <> h_fd h.
Proof.
  intros Hv Hv' Hp Hp' Hne E. destruct (v_open _ _ Hv Hp) as (pos & Ho), (v_open _ _ Hv' Hp') as (pos' & Ho'). rewrite E in Ho'. congruence.
Qed.

Abbreviation still h := (quiet (h_path h) (h_ino h)).

Lemma mkstemp_spec o template fs r fs' : wf fs -> sys_exec o (Mkstemp template) fs = (r, fs') ->
  (exists e, r = inl e /\ fs' = fs) \/
  exists fd i, let name := template +:+ suffix o in let h := mkHeld (place fs name) fd i Writing in
    r = inr (name, fd) /\ hold None (Mkstemp template) fs r fs' = Some h /\ owned h fs' [] /\ still h (fs, fs').
Proof.
  intros Hw He. destruct (sys_exec_wf _ _ _ _ _ Hw He) as [Hw' Hc']. revert He.
  unfold sys_exec. destruct (failure o); [intros [= <- <-]; left; eauto|]. cbn [sys_ok]. intros H.
  unfold on_path in H. destruct (resolve fs (template +:+ suffix o)) as [e|p] eqn:Er; [injection H as <- <-; left; eauto|].
  by_entry H; [injection H as <- <-; left; eauto | injection H as <- <-; left; eauto |]. right.
  pose proof (resolve_place _ _ _ Er) as Hp. pose proof (entry_none _ _ Ee) as Hn.
  destruct (create_file_spec fs p) as (fd & i & fs1 & E & Hw1 & Hfd & Hi & Hcw & Hnm & Hin & Hop); [done | done | by eapply resolve_new|].
  rewrite E in H. injection H as <- <-. exists fd, i. cbn zeta. cbn [h_path h_ino]. rewrite <- Hp. split; [done|]. cbn [hold]. rewrite <- Hp, Hnm, lookup_insert_eq.
  split; [done|]. split; [|split].
  - unfold owned. cbn [h_phase h_path h_ino h_fd]. rewrite Hin, Hop, !lookup_insert_eq. split_and!; try done. constructor; cbn [h_phase h_path h_ino h_fd].
    + by rewrite Hnm, lookup_insert_eq.
    + intros _. rewrite Hop, lookup_insert_eq. eauto.
    + intros _ q Hq. rewrite Hnm in Hq. apply lookup_insert_Some in Hq as [[? _]|[_ Hq]]; [done|]. destruct (wf_names _ Hw _ _ Hq). congruence.
  - intros q Hq. unfold file_at. cbn [fst snd]. rewrite Hnm, lookup_insert_ne by done. destruct (names fs !! q) as [[|j]|] eqn:Ej; [done| |done].
    rewrite Hin, lookup_insert_ne; [done|]. intros ->. destruct (wf_names _ Hw _ _ Ej). congruence.
  - intros h' Hne Hio [V1 V2 V3]. cbn [fst snd] in *. split; [done|]. split; [done|]. rewrite Hnm, Hin, Hop, !lookup_insert_ne by congruence. split; [done|]. split.
    + intros Hp'. destruct (V2 Hp') as (pos & V2'). rewrite lookup_insert_ne by congruence. done.
    + intros _. split; [by rewrite lookup_insert_ne by congruence|]. intros q Hq. apply lookup_insert_Some in Hq as [[_ [= ?]]|[_ Hq]]; [congruence | done].
Qed.

Lemma write_at_end (b : bytes) w n : (w <= length b)%nat -> write_at (take w b) w (take n (drop w b)) = take (w + n) b.
Proof.
  intros Hw. unfold write_at. rewrite length_take, Nat.min_l, Nat.sub_diag, app_nil_r by done. rewrite take_take, Nat.min_id.
  rewrite (drop_ge (take w b)) by (rewrite length_take; lia). by rewrite app_nil_r, take_take_drop.
Qed.

Lemma write_spec o (b : bytes) w h fs r fs' : wf fs -> owned h fs (take w b) -> (w <= length b)%nat -> sys_exec o (Write (h_fd h) (drop w b)) fs = (r, fs') ->
  still h (fs, fs') /\
  ((exists e, r = inl e /\ fs' = fs) \/ exists n, r = inr n /\ (w + n <= length b)%nat /\ owned h fs' (take (w + n) b)).
Proof.
  intros Hw (H1 & H2 & H3 & H4) Hb He. destruct (sys_exec_wf _ _ _ _ _ Hw He) as [Hw' Hc']. revert He.
  unfold sys_exec. destruct (failure o); [intros [= <- <-]; split; [by apply quiet_same|]; left; eauto|].
  cbn [sys_ok]. rewrite H3. unfold content. rewrite H4. cbn [default]. intros H. injection H as <- <-.
  set (n := (count o `min` length (drop w b))%nat) in *. assert (Hn : (w + n <= length b)%nat) by (subst n; rewrite length_drop; lia).
  rewrite length_take, Nat.min_l, (write_at_end b w n) in * by done. split; [split|].
  - intros q Hq. unfold file_at. simpl. destruct (names fs !! q) as [[|j]|] eqn:Ej; [done| |done]. rewrite lookup_insert_ne; [done|].
    intros <-. by apply (v_only _ _ H2 H1) in Ej.
  - intros h' Hne Hio V. cbn [fst snd] in *. split; [done|]. split; [done|]. simpl. split; [done|]. split.
    + intros Hp'. rewrite lookup_insert_ne; [done|]. apply not_eq_sym. eapply valid_fd; eauto. congruence.
    + intros _. by rewrite lookup_insert_ne by congruence.
  - right. exists n. split; [done|]. split; [done|]. unfold owned. simpl. rewrite !lookup_insert_eq, length_take, Nat.min_l by done.
    split_and!; try done. destruct H2 as [V1 V2 V3]. constructor; simpl; [done | intros _; rewrite lookup_insert_eq; eauto | done].
Qed.

Lemma write_all_run fuel full h (b : bytes) w fs tr res h' fs' : (length b <= w + fuel)%nat -> (w <= length b)%nat -> wf fs -> owned h fs (take w b) ->
  run (LocalStorage.write_all fuel full (h_fd h) b w) (Some h) fs tr res h' fs' ->
  wf fs' /\ cwd fs' = cwd fs /\ h' = Some h /\ Forall (still h) tr /\
  match res with Ok _ => owned h fs' b | Fail e => valid h fs' /\ exists msg, e = runtime msg end.
Proof.
  revert w fs tr. induction fuel as [|fuel IH]; intros w fs tr Hf Hb Hw Ho H; simpl in H.
  { rewrite (proj2 (Nat.leb_le _ _)) in H by lia. run_done H. rewrite take_ge in Ho by lia. by split_and!. }
  destruct (Nat.leb_spec (length b) w); [run_done H; rewrite take_ge in Ho by done; by split_and!|].
  run_call H. assert (Hown := owned_stable _ _ _ _ Ho Hi). destruct Hi as (Hw0 & Hcwd & _).
  destruct (sys_exec_wf _ _ _ _ _ Hw0 He) as [Hw1 Hc1]. destruct (write_spec _ _ _ _ _ _ _ Hw0 Hown Hb He) as [Hs [(e & -> & ->)|(n & -> & Hn & Ho1)]].
  { run_done H. split_and!; try done; [by constructor | apply Hown | eauto]. }
  destruct n as [|n]; [run_done H; split_and!; try done; [congruence | by constructor | apply Ho1 | eauto]|].
  destruct (IH (w + S n)%nat fs1 tr0) as (H1 & H2 & H3 & H4 & H5); try done; [lia|]. split_and!; try done; [congruence | by constructor].
Qed.

Lemma close_quiet o h fs r fs' : wf fs -> valid h fs -> h_phase h <> Closed -> sys_exec o (Close (h_fd h)) fs = (r, fs') ->
  still h (fs, fs') /\ valid (enter Closed h) fs'.
Proof.
  intros Hw Hv Hp He. destruct (sys_exec_wf _ _ _ _ _ Hw He) as [Hw' Hc'].
  assert (Hfs : fs' = set_opens (delete (h_fd h) (opens fs)) fs) by (revert He; unfold sys_exec; destruct (failure o); by intros [= <- <-]).
  subst fs'. split; [split|].
  - by intros q _.
  - intros h' Hne Hio V. split; [done|]. split; [done|]. simpl. split; [done|]. split; [|done]. intros Hp'.
    rewrite lookup_delete_ne; [done|]. apply not_eq_sym. by eapply valid_fd.
  - constructor; simpl; [apply Hv | done | done].
Qed.

Lemma unlink_quiet o s h fs r fs' : wf fs -> place fs s = h_path h -> sys_exec o (Unlink s) fs = (r, fs') -> still h (fs, fs').
Proof.
  intros Hw Hs He. destruct (sys_exec_wf _ _ _ _ _ Hw He) as [Hw' Hc']. revert He.
  unfold sys_exec. destruct (failure o); [intros [= <- <-]; by apply quiet_same|]. cbn [sys_ok]. intros H.
  unfold on_path in H. destruct (resolve fs s) as [e|p] eqn:Er; [injection H as <- <-; by apply quiet_same|].
  apply resolve_place in Er. rewrite Hs in Er. subst p.
  by_entry H; injection H as <- <-; try (by apply quiet_same). split.
  - intros q Hq. unfold file_at. simpl. by rewrite lookup_delete_ne.
  - intros h' Hne Hio V. split; [done|]. split; [done|]. simpl. rewrite lookup_delete_ne by done. split; [done|]. split; [done|].
    intros _. split; [done|]. intros q Hq. by apply lookup_delete_Some in Hq as [_ Hq].
Qed.

Lemma place_cwd fs fs' s : cwd fs' = cwd fs -> place fs' s = place fs s.
Proof. unfold place. by intros ->. Qed.

Lemma close_and_unlink_run name h fs tr res h' fs' : wf fs -> valid h fs -> h_phase h <> Closed -> place fs name = h_path h ->
  run (LocalStorage.close_and_unlink (h_fd h) name) (Some h) fs tr res h' fs' ->
  res = Ok tt /\ wf fs' /\ cwd fs' = cwd fs /\ Forall (still h) tr.
Proof.
  intros Hw Hv Hp Hn H. unfold LocalStorage.close_and_unlink in H. simpl in H. run_call H. cbn [fmap option_fmap option_map] in H. run_call H. run_done H.
  pose proof (valid_stable _ _ _ Hv Hi) as Hv0. destruct Hi as (Hw0 & Hc0 & _), Hi0 as (Hw2 & Hc2 & _).
  destruct (sys_exec_wf _ _ _ _ _ Hw0 He) as [_ Hc1], (sys_exec_wf _ _ _ _ _ Hw2 He0) as [Hw3 Hc3].
  destruct (close_quiet _ _ _ _ _ Hw0 Hv0 Hp He) as [Hq1 _].
  apply (unlink_quiet _ _ h) in He0; [|done | rewrite (place_cwd fs) by congruence; done].
  split_and!; [done | done | congruence | by do 2 (apply Forall_cons_2; [done|])].
Qed.

Lemma resolve_not_exist fs s : resolve fs s <> inl EEXIST.
Proof.
  unfold resolve. case_bool_decide; [done|]. generalize (if is_absolute s then [] else cwd fs).
  induction (split_on "/" s) as [|c cs IH]; intros cur; simpl; [done|]. destruct (entry fs cur) as [[]|]; [|done|done].
  repeat case_match; eauto.
Qed.

Lemma link_spec o name full h b fs r fs' : wf fs -> owned h fs b -> place fs name = h_path h ->
  sys_exec o (Link name full) fs = (r, fs') ->
  match r with
  | inr _ => publishes (place fs full) (h_path h) b (fs, fs') /\ polite (h_path h) (h_ino h) (fs, fs') /\ valid (enter Linked h) fs'
  | inl e => fs' = fs /\ (e = EEXIST -> is_Some (entry fs (place fs full)))
  end.
Proof.
  intros Hw (H1 & H2 & H3 & H4) Hn He. destruct (sys_exec_wf _ _ _ _ _ Hw He) as [Hw' Hc']. revert He.
  unfold sys_exec. destruct (failure o); [by intros [= <- <-]|]. cbn [sys_ok]. intros H.
  unfold on_path in H. destruct (resolve fs name) as [e|p] eqn:Er.
  { injection H as <- <-. split; [done|]. intros ->. by apply resolve_not_exist in Er. }
  apply resolve_place in Er as Hp. rewrite Hn in Hp. subst p. by_entry H; try (by injection H as <- <-).
  apply entry_file in Ee. rewrite (v_name _ _ H2) in Ee. injection Ee as <-. destruct (resolve fs full) as [e|q] eqn:Er2.
  { injection H as <- <-. split; [done|]. intros ->. by apply resolve_not_exist in Er2. }
  apply resolve_place in Er2 as Hq. subst q. destruct (entry fs (place fs full)) eqn:Ef; injection H as <- <-; [done|].
  pose proof (entry_none _ _ Ef) as Ef'. split; [|split].
  - split; [done|]. unfold file_at. simpl. rewrite lookup_insert_eq. split; [done|]. intros q _ Hq. by rewrite lookup_insert_ne.
  - intros h' Hne Hio V. split; [done|]. split; [done|]. simpl. rewrite lookup_insert_ne by (intros E; destruct V as [V _ _]; simpl in V; congruence).
    split; [done|]. split; [done|]. intros _. split; [done|]. intros q Hq. apply lookup_insert_Some in Hq as [[_ [= ?]]|[_ Hq]]; [congruence | done].
  - destruct H2 as [V1 V2 V3]. constructor; simpl; [rewrite lookup_insert_ne by congruence; done | intros _; eauto | done].
Qed.

(** *** The temporary name is not the file's *)

Lemma split_on_suffix x s : all_chars (.≠ "/"%char) x -> exists cs c, split_on "/" s = cs ++ [c] /\ split_on "/" (s +:+ x) = cs ++ [c +:+ x].
Proof.
  intros Hx. induction s as [|a s (cs & c & E1 & E2)].
  - exists [], "". split; [done|]. by apply split_on_none.
  - rewrite string_app_cons. cbn [split_on]. rewrite E1, E2. case_bool_decide; [by exists ("" :: cs), c|].
    destruct cs as [|c' cs]; [by exists [], (String a c) | by exists (String a c' :: cs), c].
Qed.

Lemma norm_app cs cs' cur : norm cur (cs ++ cs') = norm (norm cur cs) cs'.
Proof. revert cur. induction cs as [|c cs IH]; intros cur; simpl; [done|]. repeat case_match; auto. Qed.

Lemma temp_component c x : let y := (c +:+ ".tmp." +:+ x)%string in y <> "" /\ y <> "." /\ y <> ".." /\ y <> c.
Proof.
  assert (Hl : (String.length c < String.length (c +:+ ".tmp." +:+ x))%nat /\ (4 < String.length (c +:+ ".tmp." +:+ x))%nat)
    by (rewrite string_length_app; simpl; lia).
  cbn zeta. split_and!; intros E; rewrite E in Hl; simpl in Hl; lia.
Qed.

Lemma norm_snoc cur c : norm cur [c] <> cur ++ [c] -> norm cur [c] = cur \/ norm cur [c] = removelast cur.
Proof. simpl. repeat case_match; auto. done. Qed.

Lemma temp_ne fs full x : all_chars (.≠ "/"%char) x -> place fs ((full +:+ ".tmp.") +:+ x) <> place fs full.
Proof.
  intros Hx. rewrite string_app_assoc. unfold place. replace (is_absolute (full +:+ ".tmp." +:+ x)) with (is_absolute full) by (by destruct full as [|a [|b s]]).
  destruct (split_on_suffix (".tmp." +:+ x) full) as (cs & c & -> & ->); [by repeat constructor|].
  rewrite !norm_app. set (d := norm _ cs). destruct (temp_component c x) as (N1 & N2 & N3 & N4).
  assert (Ht : norm d [c +:+ ".tmp." +:+ x] = d ++ [c +:+ ".tmp." +:+ x]) by (simpl; rewrite !bool_decide_false by done; done).
  rewrite Ht. intros E. destruct (decide (norm d [c] = d ++ [c])) as [E'|E'].
  - rewrite E' in E. apply app_inj_tail in E as [_ E]. done.
  - apply (f_equal length) in E. rewrite length_app in E. apply norm_snoc in E' as [E'|E']; rewrite E' in E; simpl in E; [lia|].
    assert (length (removelast d) <= length d)%nat; [|lia]. rewrite removelast_firstn_len, length_firstn. lia.
Qed.

(** ** CreateIfAbsent *)

(** Each call that the program makes is one that other creations expect, and no
    file but a temporary one changes in it, except that one call of a successful
    creation makes the complete file appear where nothing was. *)
Definition atomic_creation (p t : list string) (i : nat) (b : bytes) (tr : list (FS * FS)) (res : result CreateFileResult) : Prop :=
  match res with
  | Ok Created => exists tr1 s tr2, tr = tr1 ++ s :: tr2 /\ publishes p t b s /\ polite t i s /\ Forall (quiet t i) (tr1 ++ tr2)
  | Ok AlreadyExists => Forall (quiet t i) tr /\ exists s, s ∈ tr /\ is_Some (entry s.1 p)
  | Fail (Throw runtime_error _) => Forall (quiet t i) tr
  | _ => False
  end.

Lemma atomic_quiet p t i b tr res : Forall (quiet t i) tr -> (exists msg, res = Fail (runtime msg)) -> atomic_creation p t i b tr res.
Proof. by intros H (msg & ->). Qed.

Lemma atomic_extend p t i b tr1 tr2 res : Forall (quiet t i) tr1 -> atomic_creation p t i b tr2 res -> atomic_creation p t i b (tr1 ++ tr2) res.
Proof.
  intros H1 H2. destruct res as [[]|[[]| | |]]; simpl in *; try done.
  - destruct H2 as (tr3 & s & tr4 & -> & Hs & Hp & Hq). exists (tr1 ++ tr3), s, tr4. rewrite <- !app_assoc. split_and!; try done. by apply Forall_app_2.
  - destruct H2 as (Hq & s & Hs & He). split; [by apply Forall_app_2|]. exists s. split; [|done]. apply elem_of_app. by right.
  - by apply Forall_app_2.
Qed.

(** Giving the temporary file up, after the outcome is decided. *)
Lemma cleanup_run {A} (p : proc A) name h fs tr res h' fs' : wf fs -> valid h fs -> h_phase h <> Closed -> place fs name = h_path h ->
  run (do _ <- LocalStorage.close_and_unlink (h_fd h) name; p) (Some h) fs tr res h' fs' ->
  exists tr1 tr2 h1 fs1, tr = tr1 ++ tr2 /\ Forall (still h) tr1 /\ run p h1 fs1 tr2 res h' fs'.
Proof.
  intros Hw Hv Hp Hn H. apply run_bind in H as [(e & _ & H)|(a & tr1 & tr2 & h1 & fs1 & -> & H & Hr)].
  - by apply close_and_unlink_run in H as [? _].
  - apply close_and_unlink_run in H as (_ & _ & _ & Hq); [|done..]. by exists tr1, tr2, h1, fs1.
Qed.

Lemma fill_and_link_run full name h (b : bytes) fs tr res h' fs' : wf fs -> owned h fs [] -> place fs name = h_path h ->
  run (LocalStorage.fill_and_link full name (h_fd h) b) (Some h) fs tr res h' fs' ->
  match res with
  | Ok _ => atomic_creation (place fs full) (h_path h) (h_ino h) b tr res
  | Fail e => (exists msg, e = runtime msg) /\ Forall (still h) tr /\ wf fs' /\ cwd fs' = cwd fs /\ h' = Some h /\ valid h fs'
  end.
Proof.
  intros Hw Ho Hn H. apply run_bind in H as [(e & -> & H)|(a & tr1 & tr2 & h1 & fs1 & -> & Hwr & H)].
  { apply write_all_run in H as (H1 & H2 & H3 & H4 & H5 & H6); [|lia | lia | done | done]. by split_and!. }
  apply write_all_run in Hwr as (Hw1 & Hc1 & -> & Hq1 & Hown1); [|lia | lia | done | done]. simpl in H. run_call H.
  pose proof (owned_stable _ _ _ _ Hown1 Hi) as Hown2. destruct Hi as (Hw2 & Hc2 & _).
  destruct (harmless_spec (h_path h) (h_ino h) _ (Fsync (h_fd h)) (Some h) _ _ _ Hw2 eq_refl He) as [Hq2 _]. apply looks_spec in He; [|done]. subst fs2.
  destruct r as [e|[]].
  { run_done H. split_and!; [eauto | | done | congruence | done | apply Hown2]. apply Forall_app_2; [done|]. by apply Forall_cons_2. }
  simpl in H. run_call H. pose proof (owned_stable _ _ _ _ Hown2 Hi) as Hown3. destruct Hi as (Hw3 & Hc3 & _). destruct (sys_exec_wf _ _ _ _ _ Hw3 He) as [Hw4 Hc4].
  assert (Hpl : forall s, place fs2 s = place fs s) by (intros s; apply place_cwd; congruence).
  assert (Hpl' : forall s, place fs3 s = place fs s) by (intros s; apply place_cwd; congruence).
  apply (link_spec _ _ _ _ _ _ _ _ Hw3 Hown3) in He; [|by rewrite Hpl]. rewrite Hpl in He.
  assert (Hfin : Forall (still h) (tr1 ++ [(fs0, fs0)])) by (apply Forall_app_2; [done | by apply Forall_cons_2]).
  assert (Hph : h_phase h <> Closed) by (destruct Ho as [-> _]; done).
  destruct r as [e|[]].
  - destruct He as [-> Hex]. assert (Hq3 : Forall (still h) (tr1 ++ [(fs0, fs0); (fs2, fs2)])).
    { apply Forall_app_2; [done|]. apply Forall_cons_2; [done|]. apply Forall_cons_2; [by apply quiet_same | done]. }
    destruct e; [|run_done H; split_and!; [eauto | done | done | congruence | done | apply Hown3] ..].
    eapply (cleanup_run (Return AlreadyExists)) in H as (tr3 & tr4 & h1 & fs5 & -> & Hq & H); [|done | apply Hown3 | done | by rewrite Hpl].
    run_done H. split; [|exists (fs2, fs2); split; [|by apply Hex]].
    + replace (tr1 ++ _) with ((tr1 ++ [(fs0, fs0); (fs2, fs2)]) ++ tr3) by (by rewrite app_nil_r, <- app_assoc). by apply Forall_app_2.
    + apply elem_of_app. right. do 2 constructor.
  - destruct He as (Hpub & Hpol & Hv). change (Call (Close (h_fd h))) with (Call (A := CreateFileResult) (Close (h_fd (enter Linked h)))) in H.
    eapply (cleanup_run (Return Created)) in H as (tr3 & tr4 & h1 & fs5 & -> & Hq & H); [|done | done | done | by rewrite Hpl'].
    run_done H. exists (tr1 ++ [(fs0, fs0)]), (fs2, fs3), tr3. split; [by rewrite app_nil_r, <- app_assoc|]. split_and!; try done.
    by apply Forall_app_2.
Qed.

(** C15. [CreateIfAbsent] is atomic: whatever other threads and processes do
    between its system calls (short of touching its temporary file), and
    whichever of its calls fail, it makes the complete file appear in one step
    where there was nothing and answers [Created]; or it answers [AlreadyExists],
    and there was something; or it throws. Otherwise no file but a temporary one
    ever changes, and concurrent creations do not disturb each other. *)
Theorem CreateIfAbsent_atomic (root path : string) (b : bytes) (fs : FS) (tr : list (FS * FS)) (res : result CreateFileResult) (h : option held) (fs' : FS) :
  wf fs -> run (LocalStorage.CreateIfAbsent root path b) None fs tr res h fs' ->
  let full := LocalStorage.FullPath root path in
  exists x i, let t := place fs ((full +:+ ".tmp.") +:+ x) in
    t <> place fs full /\ atomic_creation (place fs full) t i b tr res.
Proof.
  intros Hw H full. apply run_bind in H as [(e & -> & H)|(a & tr1 & tr2 & h1 & fs1 & -> & Hd & H)].
  { apply all_harmless_run in H as (_ & _ & _ & Hq & He); [|apply create_directories_harmless | done].
    exists "", 0%nat. split; [apply temp_ne; constructor|]. destruct (He _ eq_refl) as (msg & ->). apply atomic_quiet; eauto. }
  apply all_harmless_run in Hd as (Hw1 & Hc1 & -> & Hq1 & _); [|apply create_directories_harmless | done].
  simpl in H. run_call H. destruct Hi as (Hw2 & Hc2 & _). destruct (sys_exec_wf _ _ _ _ _ Hw2 He) as [Hw3 Hc3].
  assert (Hpl : forall s, place fs0 s = place fs s) by (intros s; apply place_cwd; congruence).
  assert (Hpl' : forall s, place fs2 s = place fs s) by (intros s; apply place_cwd; congruence).
  destruct (mkstemp_spec _ _ _ _ _ Hw2 He) as [(e & -> & ->)|(fd & i & -> & Hh & Hown & Hq2)].
  { run_done H. exists "", 0%nat. split; [apply temp_ne; constructor|]. apply atomic_quiet; [|eauto].
    apply Forall_app_2; [apply Hq1|]. apply Forall_cons_2; [by apply quiet_same | done]. }
  fold full in H, Hh, Hown, Hq2. rewrite Hpl in Hh, Hown, Hq2. set (name := (full +:+ ".tmp.") +:+ suffix o) in *. exists (suffix o), i. split; [by apply temp_ne|].
  apply atomic_extend; [apply Hq1|]. change ((fs0, fs2) :: tr) with ([(fs0, fs2)] ++ tr). apply atomic_extend; [by apply Forall_cons_2|].
  cbn [hold] in Hh. rewrite Hh in H. set (h0 := mkHeld (place fs name) fd i Writing) in *.
  apply run_catch in H as [(a' & -> & H)|(e & tr3 & tr4 & h1 & fs3 & -> & H & Hk)];
    apply (fill_and_link_run full name h0) in H; try done; try (by rewrite Hpl'); rewrite ?Hpl' in H; [done|].
  destruct H as ((msg & ->) & Hq & Hw4 & Hc4 & -> & Hv). apply atomic_extend; [done|].
  eapply (cleanup_run (Raise (runtime msg)) name h0) in Hk as (tr5 & tr6 & h2 & fs5 & -> & Hq5 & Hk);
    [|done | done | done | rewrite (place_cwd fs2) by done; by rewrite Hpl'].
  run_done Hk. rewrite app_nil_r. apply atomic_quiet; eauto.
Qed.

(** ** Runs that are left alone *)

(** The n-th call is decided by [os n]. *)
Fixpoint exec {A} (p : proc A) (os : nat -> oracle) (h : option held) (fs : FS) : list (FS * FS) * result A * option held * FS :=
  match p with
  | Return a => ([], Ok a, h, fs)
  | Raise e => ([], Fail e, h, fs)
  | Call c k =>
      let '(r, fs1) := sys_exec (os 0%nat) c fs in
      let '(tr, res, h', fs') := exec (k r) (fun n => os (S n)) (hold h c fs r fs1) fs1 in
      ((fs, fs1) :: tr, res, h', fs')
  end.

Lemma exec_run {A} (p : proc A) os h fs tr res h' fs' : wf fs -> (forall n, all_chars (.≠ "/"%char) (suffix (os n))) ->
  exec p os h fs = (tr, res, h', fs') -> run p h fs tr res h' fs'.
Proof.
  revert os h fs tr. induction p as [a|e|X c k IH]; intros os h fs tr Hw Ho H; cbn [exec] in H.
  - by injection H as <- <- <- <-.
  - by injection H as <- <- <- <-.
  - destruct (sys_exec (os 0%nat) c fs) as [r fs1] eqn:E. destruct (exec (k r) (fun n => os (S n)) (hold h c fs r fs1) fs1) as [[[tr1 res1] h1] fs2] eqn:E2.
    injection H as <- <- <- <-. destruct (sys_exec_wf _ _ _ _ _ Hw E) as [Hw1 _]. simpl. exists (os 0%nat), fs, r, fs1, tr1. split_and!; try done; [by destruct h|].
    apply (IH r (fun n => os (S n))); [done | intros n; apply Ho | done].
Qed.

Definition empty_fs : FS := mkFS [] ∅ ∅ ∅.

Lemma wf_empty : wf empty_fs.
Proof. by constructor; intros *; rewrite ?lookup_empty. Qed.

(** Nothing fails; [write] takes one byte at a time. *)
Definition demo_oracle (n : nat) : oracle := mkOracle false 1 "AbC123".

Definition demo_run := exec (LocalStorage.CreateIfAbsent "/db" "wal/1" [Byte.x01; Byte.x02]) demo_oracle None empty_fs.

Lemma demo_run_result : (let '(tr, res, h, fs) := demo_run in (res, file_at fs ["db"; "wal"; "1"], file_at fs ["db"; "wal"; "1.tmp.AbC123"])) =
  (Ok Created, Some [Byte.x01; Byte.x02], None).
Proof. vm_compute. reflexivity. Qed.

Lemma CreateIfAbsent_atomic_witness : let '(tr, res, h, fs) := demo_run in
  res = Ok Created /\ file_at fs ["db"; "wal"; "1"] = Some [Byte.x01; Byte.x02] /\ file_at fs ["db"; "wal"; "1.tmp.AbC123"] = None /\
  exists x i, let t := place empty_fs ("/db/wal/1.tmp." +:+ x) in
    t <> ["db"; "wal"; "1"] /\ atomic_creation ["db"; "wal"; "1"] t i [Byte.x01; Byte.x02] tr res.
Proof.
  pose proof (exec_run (LocalStorage.CreateIfAbsent "/db" "wal/1" [Byte.x01; Byte.x02]) demo_oracle None empty_fs) as Hr.
  fold demo_run in Hr. pose proof demo_run_result as R. destruct demo_run as [[[tr res] h] fs].
  specialize (Hr tr res h fs wf_empty ltac:(intros n; by repeat constructor) eq_refl). injection R as R1 R2 R3.
  split; [exact R1|]. split; [exact R2|]. split; [exact R3|]. exact (CreateIfAbsent_atomic "/db" "wal/1" _ _ _ _ _ _ wf_empty Hr).
Defined.
