(* ===== verification/LocalRefine.v ===== *)
(** * LocalStorage answers as MemStorage

    Scripts of storage operations on a disk where no call fails and nobody
    interferes: whatever temporary names are drawn, however few bytes each
    [write] takes and whenever the streams flush, LocalStorage gives the answers
    of MemStorage. *)

From Stdlib Require Import Ascii.
From stdpp Require Import strings.
From S2P Require Import Prelude Text Storage LocalStorage LocalSpec.
Open Scope Z_scope.

(** ** Paths as components *)

Abbreviation slash_free := (all_chars (.≠ "/"%char)).

Lemma join_path_cons c cs : cs <> [] -> join_path (c :: cs) = c +:+ "/" +:+ join_path cs.
Proof. by destruct cs. Qed.

Lemma join_split s : join_path (split_on "/" s) = s.
Proof.
  induction s as [|x s IH]; [done|]. cbn [split_on]. destruct (split_on_cons "/" s) as (a & l & E). rewrite E in *. case_bool_decide as Hx.
  - rewrite join_path_cons, IH by done. by subst x.
  - destruct l as [|b l]; [simpl in *; by f_equal|]. rewrite join_path_cons in * by done. rewrite string_app_cons. by f_equal.
Qed.

Lemma split_app_slash a b : split_on "/" (a +:+ "/" +:+ b) = split_on "/" a ++ split_on "/" b.
Proof.
  induction a as [|x a IH]; [done|]. rewrite string_app_cons. cbn [split_on]. rewrite IH. case_bool_decide; [done|].
  by destruct (split_on_cons "/" a) as (c & l & ->).
Qed.

Lemma split_join cs : Forall slash_free cs -> cs <> [] -> split_on "/" (join_path cs) = cs.
Proof.
  induction 1 as [|c cs Hc Hcs IH]; [done|]. intros _. destruct cs as [|c' cs]; [by apply split_on_none|].
  rewrite join_path_cons by done. change ("/" +:+ ?s) with (String "/" s). rewrite split_on_app by done. f_equal. by apply IH.
Qed.

(** The first directory of a resolution. *)
Definition origin (fs : FS) (cs : list string) : list string :=
  match cs with "" :: _ :: _ => [] | _ => cwd fs end.

Lemma is_absolute_split s : s <> "" -> is_absolute s = match split_on "/" s with "" :: _ => true | _ => false end.
Proof.
  destruct s as [|x s]; [done|]. intros _. unfold is_absolute. cbn [split_on String.prefix]. destruct (split_on_cons "/" s) as (a & l & ->).
  case_bool_decide as Hx; [subst x; by destruct s|]. destruct (ascii_dec "/" x); [congruence | by destruct a].
Qed.

Lemma resolve_split fs s : s <> "" -> resolve fs s = walk fs (origin fs (split_on "/" s)) (split_on "/" s).
Proof.
  intros Hs. unfold resolve. rewrite bool_decide_false, is_absolute_split by done. f_equal.
  destruct s as [|x s]; [done|]. cbn [split_on]. destruct (split_on_cons "/" s) as (a & l & E). rewrite E. by case_bool_decide.
Qed.

Lemma walk_app fs cs cs' cur : walk fs cur (cs ++ cs') = match walk fs cur cs with inr d => walk fs d cs' | inl e => inl e end.
Proof.
  revert cur. induction cs as [|c cs IH]; intros cur; simpl; [done|]. destruct (entry fs cur) as [[|]|]; [|done|done].
  destruct (_ || _); [apply IH|]. destruct (bool_decide (c = "..")); apply IH.
Qed.

Lemma walk_plain fs c cs cur : plain c -> walk fs cur (c :: cs) =
  match entry fs cur with Some Dir => walk fs (cur ++ [c]) cs | Some (File _) => inl ENOTDIR | None => inl ENOENT end.
Proof. intros (H1 & H2 & H3 & _). simpl. destruct (entry fs cur) as [[]|]; [|done|done]. by rewrite !bool_decide_false. Qed.

Lemma walk_plains fs cs cur : Forall plain cs -> (forall j, (j < length cs)%nat -> entry fs (cur ++ take j cs) = Some Dir) -> walk fs cur cs = inr (cur ++ cs).
Proof.
  intros Hc. revert cur. induction Hc as [|c cs Hp Hc IH]; intros cur Hd; [by rewrite app_nil_r|].
  rewrite walk_plain by done. specialize (Hd 0%nat) as H0. simpl in H0. rewrite app_nil_r in H0. rewrite H0 by lia. rewrite IH, <- app_assoc; [done|].
  intros j Hj. rewrite <- app_assoc. apply (Hd (S j)). simpl. lia.
Qed.

(** ** Runs without failures *)

(** What the environment may decide when nothing fails: [write] makes progress,
    and [mkstemp] finds an unused name. *)
Definition kind {X} (o : oracle) (c : sys X) (fs : FS) : Prop :=
  failure o = false /\ (0 < count o)%nat /\ slash_free (suffix o) /\
  match c with Mkstemp t => entry fs (place fs (t +:+ suffix o)) = None | _ => True end.

(** Every run of [p] from [fs] ends, in a result and a state with [Q]. *)
Fixpoint always {A} (p : proc A) (fs : FS) (Q : result A -> FS -> Prop) : Prop :=
  match p with
  | Return a => Q (Ok a) fs
  | Raise e => Q (Fail e) fs
  | Call c k => (exists o, kind o c fs) /\ forall o, kind o c fs -> let '(r, fs1) := sys_exec o c fs in always (k r) fs1 Q
  end.

Lemma always_mono {A} (p : proc A) fs (Q Q' : result A -> FS -> Prop) : (forall r fs', Q r fs' -> Q' r fs') -> always p fs Q -> always p fs Q'.
Proof.
  intros HQ. revert fs. induction p as [a|e|X c k IH]; intros fs; simpl; [auto | auto |]. intros [Hk H]. split; [done|]. intros o Ho.
  specialize (H o Ho). destruct (sys_exec o c fs). auto.
Qed.

Lemma always_bind {A B} (p : proc A) (f : A -> proc B) fs Q :
  always p fs (fun r fs1 => match r with Ok a => always (f a) fs1 Q | Fail e => Q (Fail e) fs1 end) -> always (proc_bind p f) fs Q.
Proof.
  revert fs. induction p as [a|e|X c k IH]; intros fs; simpl; [auto | auto |]. intros [Hk H]. split; [done|]. intros o Ho.
  specialize (H o Ho). destruct (sys_exec o c fs). auto.
Qed.

(** The usual step of a proof: the first program has the one result [a]. *)
Lemma always_seq {A B} (p : proc A) (f : A -> proc B) fs (P : A -> FS -> Prop) Q :
  always p fs (fun r fs1 => exists a, r = Ok a /\ P a fs1) -> (forall a fs1, P a fs1 -> always (f a) fs1 Q) -> always (proc_bind p f) fs Q.
Proof. intros Hp Hf. apply always_bind. eapply always_mono; [|done]. intros r fs1 (a & -> & Ha). auto. Qed.

(** A call other than [mkstemp] can be made. *)
Lemma always_call {A X} (c : sys X) (k : errno + X -> proc A) fs Q : (match c with Mkstemp _ => False | _ => True end) ->
  (forall o, failure o = false -> (0 < count o)%nat -> let '(r, fs1) := sys_ok o c fs in always (k r) fs1 Q) -> always (Call c k) fs Q.
Proof.
  intros Hc H. split.
  - exists (mkOracle false 1 ""). split; [done|]. split; [simpl; lia|]. split; [constructor|]. by destruct c.
  - intros o (H1 & H2 & _). specialize (H o H1 H2). unfold sys_exec. by rewrite H1.
Qed.

(** A call whose outcome does not depend on the environment. *)
Lemma always_det {A X} (c : sys X) (k : errno + X -> proc A) fs r fs1 Q : (match c with Mkstemp _ => False | _ => True end) ->
  (forall o, sys_ok o c fs = (r, fs1)) -> always (k r) fs1 Q -> always (Call c k) fs Q.
Proof. intros Hc Hr H. apply always_call; [done|]. intros o _ _. by rewrite Hr. Qed.

(** ** Directories *)

Lemma entry_app_nonempty fs p c q : entry fs (p ++ c :: q) = names fs !! (p ++ c :: q).
Proof. by destruct p. Qed.

(** What is below a name is in directories. *)
Lemma wf_prefix fs p q n : wf fs -> names fs !! (p ++ q) = Some n -> q <> [] -> entry fs p = Some Dir.
Proof.
  intros Hw. revert n. induction q as [|c q IH] using rev_ind; [done|]. intros n Hn _. rewrite app_assoc in Hn.
  destruct (wf_tree _ Hw _ _ Hn) as (d & c' & E & _ & Hd). apply app_inj_tail in E as [E _]. subst d.
  destruct (decide (q = [])) as [->|Hq]; [by rewrite app_nil_r in Hd|]. eapply (IH Dir); [|done].
  destruct q as [|x q]; [done|]. by rewrite entry_app_nonempty in Hd.
Qed.

Lemma walk_prefix_dir fs cur cs cs' p : walk fs cur (cs ++ cs') = inr p -> entry fs p = Some Dir ->
  exists d, walk fs cur cs = inr d /\ entry fs d = Some Dir.
Proof.
  rewrite walk_app. destruct (walk fs cur cs) as [e|d]; [done|]. intros H Hp. exists d. split; [done|].
  destruct cs' as [|c cs']; [by injection H as ->|]. simpl in H. by destruct (entry fs d) as [[]|].
Qed.

Lemma walk_mono fs fs' cs cur p : (forall q, entry fs q = Some Dir -> entry fs' q = Some Dir) -> walk fs cur cs = inr p -> walk fs' cur cs = inr p.
Proof.
  intros Hd. revert cur. induction cs as [|c cs IH]; intros cur H; simpl in *; [done|]. destruct (entry fs cur) as [[]|] eqn:E; try done.
  rewrite (Hd _ E). destruct (_ || _); [by apply IH|]. destruct (bool_decide (c = "..")); by apply IH.
Qed.

(** Directories were made, at most, on the way from [rp] to [rp ++ ds]. *)
Record dirs_made (rp ds : list string) (fs fs' : FS) : Prop := mkMade {
  dm_wf : wf fs';
  dm_cwd : cwd fs' = cwd fs;
  dm_inodes : inodes fs' = inodes fs;
  dm_opens : opens fs' = opens fs;
  dm_names : forall q, names fs' !! q = names fs !! q \/
    names fs !! q = None /\ names fs' !! q = Some Dir /\ exists j, (0 < j <= length ds)%nat /\ q = rp ++ take j ds;
}.

Lemma dirs_made_refl rp ds fs : wf fs -> dirs_made rp ds fs fs.
Proof. intros Hw. by constructor; [..|left]. Qed.

Lemma dirs_made_trans rp ds fs1 fs2 fs3 : dirs_made rp ds fs1 fs2 -> dirs_made rp ds fs2 fs3 -> dirs_made rp ds fs1 fs3.
Proof.
  intros [H1 H2 H3 H4 H5] [K1 K2 K3 K4 K5]. constructor; [done | congruence.. |]. intros q.
  destruct (H5 q) as [E|(E1 & E2 & E3)], (K5 q) as [F|(F1 & F2 & F3)]; [left; congruence | right; split_and!; eauto; congruence | right; split_and!; eauto; congruence | congruence].
Qed.

Lemma dirs_made_entry rp ds fs fs' q n : dirs_made rp ds fs fs' -> entry fs q = Some n -> entry fs' q = Some n.
Proof. intros Hm. destruct q as [|x q]; [done|]. simpl. intros H. destruct (dm_names _ _ _ _ Hm (x :: q)) as [->|[? _]]; congruence. Qed.

Lemma ensure_directory_spec s d rp ds fs : wf fs -> resolve fs s = inr d -> (forall i, entry fs d <> Some (File i)) ->
  (entry fs d = None -> exists j, (0 < j <= length ds)%nat /\ d = rp ++ take j ds) ->
  always (ensure_directory s) fs (fun r fs' => r = Ok tt /\ dirs_made rp ds fs fs' /\ entry fs' d = Some Dir).
Proof.
  intros Hw Hr Hf Hj. unfold ensure_directory. simpl. destruct (entry fs d) as [[|i]|] eqn:E; [| by destruct (Hf i) |].
  - eapply always_det; [done | intros o; cbn [sys_ok]; unfold on_path; rewrite Hr, E; reflexivity|]. simpl.
    split_and!; [done | by apply dirs_made_refl | done].
  - eapply always_det; [done | intros o; cbn [sys_ok]; unfold on_path; rewrite Hr, E; reflexivity|]. simpl.
    assert (Hne : d <> []) by (intros ->; done). pose proof (entry_none _ _ E) as E'.
    eapply always_det; [done | intros o; cbn [sys_ok]; unfold on_path; rewrite Hr, E; reflexivity|]. simpl. split; [done|].
    split; [|by rewrite entry_insert, decide_True by done]. constructor; try done.
    + apply wf_insert; [done | done | by eapply resolve_new | done].
    + intros q. simpl. destruct (decide (q = d)) as [->|Hq]; [right | left; by rewrite lookup_insert_ne].
      rewrite lookup_insert_eq. split_and!; [done | done | by apply Hj].
Qed.

Abbreviation comps := (split_on "/").

(** A path of plain components. *)
Definition good_path (p : string) : Prop := Forall plain (comps p).

(** A root directory that does not end in ['/']. *)
Definition good_root (root : string) : Prop := filename root <> "".

(** None of the paths is a directory on the way to another. *)
Definition prefix_free (U : list string) : Prop := forall p q tl, p ∈ U -> q ∈ U -> comps q = comps p ++ tl -> tl = [].

(** ** The files of a store *)

(** The store at [rp] holds the files [m], all at paths in [U]. *)
Record rep (root : string) (U : list string) (rp : list string) (fs : FS) (m : gmap string bytes) : Prop := mkRep {
  rep_wf : wf fs;
  rep_root : walk fs (origin fs (comps root)) (comps root) = inr rp;
  rep_dir : entry fs rp = Some Dir;
  rep_files : forall p, p ∈ U -> file_at fs (rp ++ comps p) = m !! p;
  rep_dom : forall p, is_Some (m !! p) -> p ∈ U;
  rep_names : forall cs n, cs <> [] -> names fs !! (rp ++ cs) = Some n ->
    exists p tl, p ∈ U /\ comps p = cs ++ tl /\ (tl = [] <-> n <> Dir);
  rep_inj : forall cs i q, names fs !! (rp ++ cs) = Some (File i) -> names fs !! q = Some (File i) -> q = rp ++ cs;
}.

Section Paths.

Context (root : string) (U : list string) (rp : list string) (fs : FS) (m : gmap string bytes).
Context (Hroot : good_root root) (HU : Forall good_path U) (Hpf : prefix_free U) (Hrep : rep root U rp fs m).

Lemma root_comps : exists cs c, comps root = cs ++ [c] /\ c <> "".
Proof.
  unfold good_root, filename in Hroot. destruct (split_on_cons "/" root) as (a & l & E). rewrite E in *.
  destruct (exists_last (l := a :: l)) as (cs & c & E'); [done|]. rewrite E' in *. rewrite last_snoc in Hroot. by exists cs, c.
Qed.

Lemma comps_cons p : p ∈ U -> exists c cs, comps p = c :: cs /\ plain c /\ Forall plain cs.
Proof.
  intros Hp. assert (Hg : good_path p) by (by eapply Forall_forall in HU). unfold good_path in Hg. destruct (split_on_cons "/" p) as (c & cs & E).
  rewrite E in *. apply Forall_cons in Hg as [Hc Hcs]. eauto.
Qed.

Lemma FullPath_comps p : p ∈ U -> LocalStorage.FullPath root p <> "" /\ LocalStorage.FullPath root p = root +:+ "/" +:+ p /\
  comps (LocalStorage.FullPath root p) = comps root ++ comps p.
Proof.
  intros Hp. destruct (comps_cons p Hp) as (c & cs & E & (Hc & _) & _). unfold LocalStorage.FullPath, path_append.
  assert (Hne : p <> "") by (intros ->; simpl in E; congruence). rewrite is_absolute_split, E by done.
  replace (match c :: cs with "" :: _ => true | _ => false end) with false by (by destruct c). rewrite bool_decide_false by done.
  split_and!; [|done | rewrite <- E; apply split_app_slash]. intros E'. apply (f_equal String.length) in E'. rewrite string_length_app in E'. simpl in E'. lia.
Qed.

Lemma origin_root cs : origin fs (comps root ++ cs) = origin fs (comps root).
Proof. destruct root_comps as (l & c & -> & Hc). destruct l as [|a [|b l]]; simpl; [by destruct c; [|destruct cs] | by destruct a | by destruct a]. Qed.

(** The parents of a path are directories or missing, and it is none itself. *)
Lemma parent_not_file p j i : p ∈ U -> (j < length (comps p))%nat -> entry fs (rp ++ take j (comps p)) <> Some (File i).
Proof.
  intros Hp Hj He. apply entry_file in He. destruct j as [|j].
  { simpl in He. rewrite app_nil_r in He. pose proof (rep_dir _ _ _ _ _ Hrep) as Hd. destruct rp; [by rewrite (wf_root _ (rep_wf _ _ _ _ _ Hrep)) in He|]. simpl in Hd. congruence. }
  apply (rep_names _ _ _ _ _ Hrep) in He as (q & tl & Hq & E & Hn); [|destruct (comps_cons p Hp) as (? & ? & -> & _); done].
  assert (tl = []) as -> by (by apply Hn). rewrite app_nil_r in E. apply (f_equal length) in E as El. rewrite length_take in El.
  assert (Ed : drop (S j) (comps p) = []). { apply (Hpf q p); [done | done|]. rewrite E. by rewrite take_drop. }
  apply (f_equal length) in Ed. rewrite length_drop in Ed. simpl in Ed. lia.
Qed.

Lemma path_not_dir p : p ∈ U -> names fs !! (rp ++ comps p) <> Some Dir.
Proof.
  intros Hp He. apply (rep_names _ _ _ _ _ Hrep) in He as (q & tl & Hq & E & Hn); [|destruct (comps_cons p Hp) as (? & ? & -> & _); done].
  apply (Hpf p q) in E; [|done..]. apply Hn in E. done.
Qed.

Lemma full_name p : p ∈ U -> entry fs (rp ++ comps p) = names fs !! (rp ++ comps p).
Proof. intros Hp. destruct (comps_cons p Hp) as (? & ? & -> & _). apply entry_app_nonempty. Qed.

(** Where a path leads. *)
Lemma resolve_full p : p ∈ U ->
  (resolve fs (LocalStorage.FullPath root p) = inr (rp ++ comps p) \/
   resolve fs (LocalStorage.FullPath root p) = inl ENOENT /\ names fs !! (rp ++ comps p) = None).
Proof.
  intros Hp. destruct (FullPath_comps p Hp) as (Hne & _ & Hc). rewrite resolve_split, Hc, origin_root, walk_app, (rep_root _ _ _ _ _ Hrep) by done.
  destruct (decide (names fs !! (rp ++ comps p) = None)) as [Hn|Hn].
  - assert (Hpl : Forall plain (comps p)) by (by eapply Forall_forall in HU). assert (Hnf := fun j i => parent_not_file p j i Hp).
    rewrite Hn. clear Hn Hc Hne Hp. revert Hnf. generalize rp. induction Hpl as [|c cs Hcp Hcs IH]; intros d Hnf; [left; by rewrite app_nil_r|].
    rewrite walk_plain by done. destruct (entry fs d) as [[|i]|] eqn:E; [|exfalso; apply (Hnf 0%nat i); [simpl; lia | simpl; by rewrite app_nil_r] | by right].
    destruct (IH (d ++ [c])) as [H|[H _]]; rewrite ?H, <- ?app_assoc; [|by left | by right].
    intros j i Hj He. rewrite <- app_assoc in He. by apply (Hnf (S j) i); [simpl; lia|].
  - left. apply walk_plains; [by eapply Forall_forall in HU|]. intros j Hj. destruct (names fs !! (rp ++ comps p)) as [n|] eqn:E; [|done].
    eapply (wf_prefix _ _ (drop j (comps p)) n); [apply Hrep | by rewrite <- app_assoc, take_drop|]. intros Ed. apply (f_equal length) in Ed. rewrite length_drop in Ed. simpl in Ed. lia.
Qed.

(** *** The directories of a path *)

Lemma strip_trailing_snoc cs c : c <> "" -> strip_trailing (cs ++ [c]) = cs ++ [c].
Proof. intros Hc. induction cs as [|a cs IH]; simpl; [by rewrite bool_decide_false|]. rewrite IH. by destruct cs. Qed.

Lemma parent_path_comps s cs c x : comps s = (cs ++ [c]) ++ [x] -> c <> "" -> parent_path s = join_path (cs ++ [c]).
Proof.
  intros E Hc. pose proof (strip_trailing_snoc cs c Hc) as Hs. pose proof (removelast_last (cs ++ [c]) x) as Hr.
  unfold parent_path. rewrite E. rewrite <- Hr in Hs at 1. destruct ((cs ++ [c]) ++ [x]) as [|a [|b l]] eqn:El.
  - by destruct cs.
  - by destruct cs as [|? []].
  - rewrite Hs. by destruct cs.
Qed.

(** The directories between the root and the file. *)
Definition dir_comps (p : string) : list string := removelast (comps p).

Lemma dir_comps_spec p : p ∈ U -> exists c, comps p = dir_comps p ++ [c] /\ Forall plain (dir_comps p) /\ plain c.
Proof.
  intros Hp. assert (Hg : good_path p) by (by eapply Forall_forall in HU). unfold good_path, dir_comps in *. destruct (comps_cons p Hp) as (a & l & E & _).
  destruct (exists_last (l := comps p)) as (cs & c & E'); [by rewrite E|]. rewrite E', removelast_last in *. apply Forall_app in Hg as [H1 H2].
  apply Forall_cons in H2 as [H2 _]. eauto.
Qed.

Lemma parent_last p : p ∈ U -> exists cs c, comps root ++ dir_comps p = cs ++ [c] /\ c <> "".
Proof.
  intros Hp. destruct (dir_comps_spec p Hp) as (x & _ & Hpl & _). destruct (decide (dir_comps p = [])) as [->|Hne].
  - rewrite app_nil_r. apply root_comps.
  - destruct (exists_last Hne) as (l & c & E). rewrite E in *. exists (comps root ++ l), c. rewrite app_assoc. split; [done|].
    apply Forall_app in Hpl as [_ Hpl]. apply Forall_cons in Hpl as [(Hc & _) _]. done.
Qed.

Lemma plain_slash_free cs : Forall plain cs -> Forall slash_free cs.
Proof. intros H. eapply Forall_impl; [done|]. by intros c (_ & _ & _ & Hc). Qed.

Lemma parent_path_full p : p ∈ U -> parent_path (LocalStorage.FullPath root p) = join_path (comps root ++ dir_comps p) /\
  comps (join_path (comps root ++ dir_comps p)) = comps root ++ dir_comps p.
Proof.
  intros Hp. destruct (FullPath_comps p Hp) as (_ & _ & Hc). destruct (dir_comps_spec p Hp) as (x & Ex & Hpl & _). destruct (parent_last p Hp) as (cs & c & E & Hne).
  split.
  - rewrite E. apply (parent_path_comps _ _ _ x); [|done]. by rewrite Hc, Ex, app_assoc, E.
  - apply split_join; [apply Forall_app_2; [apply split_on_chars | by apply plain_slash_free]|]. by rewrite E; destruct cs.
Qed.

Lemma origin_take fs1 cs a : cwd fs1 = cwd fs -> join_path (take (S a) cs) <> "" -> origin fs1 (take (S a) cs) = origin fs cs.
Proof.
  unfold origin. intros ->. destruct cs as [|x [|y cs]]; simpl; [done | destruct a; by destruct x |]. destruct a as [|a]; simpl; [by destruct x|]. by destruct x.
Qed.

(** Each prefix of the parent's path leads to a directory, or to one that is
    still to be made behind those that are there. *)
Lemma prefix_step ds a fs1 : Forall plain ds -> (a < length (comps root ++ ds))%nat -> join_path (take (S a) (comps root ++ ds)) <> "" ->
  (forall j i, (j <= length ds)%nat -> entry fs (rp ++ take j ds) <> Some (File i)) ->
  dirs_made rp ds fs fs1 -> (forall j, (j <= length ds)%nat -> (length (comps root) + j < S a)%nat -> entry fs1 (rp ++ take j ds) = Some Dir) ->
  exists d, resolve fs1 (join_path (take (S a) (comps root ++ ds))) = inr d /\ (forall i, entry fs1 d <> Some (File i)) /\
    (entry fs1 d = None -> exists j, (0 < j <= length ds)%nat /\ d = rp ++ take j ds) /\
    (forall j, (j <= length ds)%nat -> (length (comps root) + j = S a)%nat -> d = rp ++ take j ds).
Proof.
  intros Hpl Ha Hne Hnf Hm Hi. set (rcs := comps root) in *. rewrite resolve_split by done.
  rewrite (split_join (take (S a) _)) by (first [by destruct (rcs ++ ds) | apply Forall_take, Forall_app_2; [apply split_on_chars | by apply plain_slash_free]]).
  rewrite origin_take by (apply Hm || done). unfold rcs at 1. rewrite origin_root. fold rcs.
  assert (Hmono : forall q, entry fs q = Some Dir -> entry fs1 q = Some Dir) by (intros q; by eapply dirs_made_entry).
  pose proof (walk_mono _ _ _ _ _ Hmono (rep_root _ _ _ _ _ Hrep)) as Hw1. fold rcs in Hw1. pose proof (Hmono _ (rep_dir _ _ _ _ _ Hrep)) as Hd1.
  rewrite length_app in Ha. destruct (decide (S a <= length rcs)%nat) as [Hle|Hgt].
  - rewrite take_app_le by done. rewrite <- (take_drop (S a) rcs) in Hw1 at 2. destruct (walk_prefix_dir _ _ _ _ _ Hw1 Hd1) as (d & H1 & H2).
    exists d. split_and!; [done | congruence | congruence |]. intros j Hj E. assert (j = 0%nat) as -> by lia. simpl. rewrite app_nil_r.
    rewrite walk_app, H1 in Hw1. assert (Ed : drop (S a) rcs = []) by (apply drop_ge; lia). rewrite Ed in Hw1. simpl in Hw1. congruence.
  - rewrite take_app_ge by lia. set (j := (S a - length rcs)%nat). assert (Hj : (0 < j <= length ds)%nat) by lia.
    rewrite walk_app, Hw1, walk_plains; [| by apply Forall_take |].
    + exists (rp ++ take j ds). split; [done|]. split; [|split; [eauto | intros j' Hj' E; by replace j' with j by lia]].
      intros i He. apply (Hnf j i); [lia|]. apply entry_file in He. destruct (dm_names _ _ _ _ Hm (rp ++ take j ds)) as [E|(_ & E & _)]; [|congruence].
      rewrite entry_nonroot by (intros E0; rewrite E0, (wf_root _ (dm_wf _ _ _ _ Hm)) in He; done). congruence.
    + intros k Hk. rewrite length_take in Hk. rewrite take_take, Nat.min_l by lia. apply Hi; lia.
Qed.

Lemma ensure_prefixes ds n a fs1 : Forall plain ds -> (a + n = length (comps root ++ ds))%nat ->
  (forall j i, (j <= length ds)%nat -> entry fs (rp ++ take j ds) <> Some (File i)) ->
  dirs_made rp ds fs fs1 -> (forall j, (j <= length ds)%nat -> (length (comps root) + j < S a)%nat -> entry fs1 (rp ++ take j ds) = Some Dir) ->
  always (ensure_directories (filter (.≠ "") ((fun k => join_path (take k (comps root ++ ds))) <$> seq (S a) n))) fs1 (fun r fs' => r = Ok tt /\
    dirs_made rp ds fs fs' /\ forall j, (j <= length ds)%nat -> entry fs' (rp ++ take j ds) = Some Dir).
Proof.
  intros Hpl Hn Hnf. revert a fs1 Hn. induction n as [|n IH]; intros a fs1 Hn Hm Hi.
  - simpl. split_and!; [done | done |]. intros j Hj. apply Hi; [done|]. rewrite length_app in Hn. lia.
  - cbn [seq fmap list_fmap]. rewrite filter_cons. case_decide as Hne.
    + destruct (prefix_step ds a fs1) as (d & H1 & H2 & H3 & H4); try done; [lia|]. cbn [ensure_directories].
      eapply (always_seq _ _ _ (fun _ fs2 => dirs_made rp ds fs1 fs2 /\ entry fs2 d = Some Dir)).
      * eapply always_mono; [|eapply (ensure_directory_spec _ d rp ds); [apply Hm | done | done | done]]. intros r fs2 (-> & E). eauto.
      * intros _ fs2 [Hm2 Hd2]. apply IH; [lia | by eapply dirs_made_trans |]. intros j Hj Hlt.
        destruct (decide (length (comps root) + j = S a)%nat) as [E|E]; [by rewrite <- (H4 j) | eapply dirs_made_entry; [done|]; apply Hi; lia].
    + apply IH; [lia | done |]. intros j Hj Hlt. destruct (decide (length (comps root) + j = S a)%nat) as [E|E]; [|apply Hi; lia].
      exfalso. revert Hne. destruct root_comps as (cs & c & Ec & Hc). rewrite take_app_ge by lia. generalize (S a - length (comps root))%nat. intros k. rewrite Ec, <- app_assoc.
      destruct cs as [|x cs]; cbn [app].
      * intros E'. apply (f_equal String.length) in E'. destruct c; [done|]. destruct (take k ds); simpl in E'; done.
      * rewrite join_path_cons by (by destruct cs). intros E'. apply (f_equal String.length) in E'. rewrite string_length_app in E'. simpl in E'. lia.
Qed.

Lemma create_directories_full p : p ∈ U -> always (create_directories (parent_path (LocalStorage.FullPath root p))) fs (fun r fs' => r = Ok tt /\
  dirs_made rp (dir_comps p) fs fs' /\ forall j, (j <= length (dir_comps p))%nat -> entry fs' (rp ++ take j (dir_comps p)) = Some Dir).
Proof.
  intros Hp. destruct (dir_comps_spec p Hp) as (x & Ex & Hpl & _). destruct (parent_path_full p Hp) as [-> Hc]. destruct (parent_last p Hp) as (cs & c & E & Hne).
  unfold create_directories. rewrite bool_decide_false by (intros E0; rewrite E0, E in Hc; destruct cs as [|? []]; simpl in Hc; congruence).
  unfold prefixes. rewrite Hc. apply (ensure_prefixes (dir_comps p) _ 0); [done | done | | by apply dirs_made_refl, Hrep |].
  - intros j i Hj He. assert (Hl : (j < length (comps p))%nat) by (rewrite Ex, length_app; simpl; lia).
    apply (parent_not_file p j i Hp Hl). rewrite Ex, take_app_le by done. done.
  - intros j Hj Hlt. destruct (split_on_cons "/" root) as (? & ? & E0). rewrite E0 in Hlt. simpl in Hlt. lia.
Qed.

Lemma rep_dirs p fs' : p ∈ U -> dirs_made rp (dir_comps p) fs fs' -> rep root U rp fs' m.
Proof.
  intros Hp Hm. assert (Hmono : forall q, entry fs q = Some Dir -> entry fs' q = Some Dir) by (intros q; by eapply dirs_made_entry).
  assert (Hfile : forall q i, names fs' !! q = Some (File i) -> names fs !! q = Some (File i)).
  { intros q i Hq. destruct (dm_names _ _ _ _ Hm q) as [E|(_ & E & _)]; congruence. }
  constructor; [apply Hm | | apply Hmono, Hrep | | apply Hrep | |].
  - replace (origin fs' (comps root)) with (origin fs (comps root)) by (unfold origin; by rewrite (dm_cwd _ _ _ _ Hm)).
    by eapply walk_mono, Hrep.
  - intros q Hq. rewrite <- (rep_files _ _ _ _ _ Hrep q Hq). unfold file_at. rewrite (dm_inodes _ _ _ _ Hm).
    destruct (dm_names _ _ _ _ Hm (rp ++ comps q)) as [->|(-> & -> & _)]; done.
  - intros cs n Hcs Hn. destruct (dm_names _ _ _ _ Hm (rp ++ cs)) as [E|(_ & E & j & Hj & Eq)]; [rewrite E in Hn; by eapply Hrep|].
    assert (n = Dir) as -> by congruence. apply app_inv_head in Eq. subst cs. destruct (dir_comps_spec p Hp) as (x & Ex & _).
    exists p, (drop j (dir_comps p) ++ [x]). split; [done|]. split; [by rewrite Ex, app_assoc, take_drop|]. split; [by destruct (drop j (dir_comps p)) | done].
  - intros cs i q H1 H2. eapply Hrep; eauto.
Qed.

End Paths.

(** ** Clients

    A client opens a file, reads a range and drops the file; or it opens a
    stream, appends some chunks and closes it, whatever happens in between. *)

Definition read_file (root p : string) (offset len : Z) : proc (option (option bytes)) :=
  do f <- LocalStorage.OpenInput root p;
  match f with
  | None => Return None
  | Some f => do b <- LocalStorage.ReadAt f offset len; do _ <- LocalStorage.drop_input f; Return (Some b)
  end.

Fixpoint append_all `{!Filebuf} (chunks : list bytes) (o : LocalStorage.LocalOutputStream) : proc (LocalStorage.LocalOutputStream * result unit) :=
  match chunks with
  | [] => Return (o, Ok tt)
  | d :: chunks =>
      do x <- LocalStorage.Append d o;
      match x with (o, Ok _) => append_all chunks o | (o, Fail e) => Return (o, Fail e) end
  end.

Definition write_file `{!Filebuf} (root p : string) (chunks : list bytes) : proc unit :=
  do o <- LocalStorage.OpenOutput root p;
  do x <- append_all chunks o;
  do _ <- LocalStorage.Close (x.1);
  match x.2 with Ok _ => Return tt | Fail e => Raise e end.

(** ** How calls change the files *)

Section Changes.

Context (root : string) (U : list string) (rp : list string).
Context (Hroot : good_root root) (HU : Forall good_path U) (Hpf : prefix_free U).

Abbreviation full p := (LocalStorage.FullPath root p).
Abbreviation at_ p := (rp ++ comps p).

Lemma comps_inj p q : comps p = comps q -> p = q.
Proof. intros E. rewrite <- (join_split p), <- (join_split q). by rewrite E. Qed.

(** The inode behind a file. *)
Lemma rep_inode fs m p b : rep root U rp fs m -> p ∈ U -> m !! p = Some b -> exists i, names fs !! at_ p = Some (File i) /\ inodes fs !! i = Some b.
Proof.
  intros Hrep Hp Hm. rewrite <- (rep_files _ _ _ _ _ Hrep p Hp) in Hm. unfold file_at in Hm. destruct (names fs !! at_ p) as [[|i]|]; try done. eauto.
Qed.

Lemma rep_absent fs m p : rep root U rp fs m -> p ∈ U -> m !! p = None -> names fs !! at_ p = None.
Proof.
  intros Hrep Hp Hm. rewrite <- (rep_files _ _ _ _ _ Hrep p Hp) in Hm. unfold file_at in Hm. destruct (names fs !! at_ p) as [[|i]|] eqn:E; [|destruct (wf_names _ (rep_wf _ _ _ _ _ Hrep) _ _ E); congruence | done].
  by apply (path_not_dir root U rp fs m HU Hpf Hrep) in E.
Qed.

(** The root stays where it is while directories stay. *)
Lemma root_kept fs fs' m : rep root U rp fs m -> cwd fs' = cwd fs -> (forall q, entry fs q = Some Dir -> entry fs' q = Some Dir) ->
  walk fs' (origin fs' (comps root)) (comps root) = inr rp /\ entry fs' rp = Some Dir.
Proof.
  intros Hrep Hc Hd. split; [|apply Hd, Hrep]. replace (origin fs' (comps root)) with (origin fs (comps root)) by (unfold origin; by rewrite Hc).
  by eapply walk_mono, Hrep.
Qed.

(** Descriptors do not matter. *)
Lemma rep_opens fs m O : rep root U rp fs m -> wf (set_opens O fs) -> rep root U rp (set_opens O fs) m.
Proof.
  intros Hrep Hw. destruct (root_kept fs (set_opens O fs) m Hrep) as [H2 H3]; [done | by intros [|]|]. destruct Hrep. by constructor.
Qed.

(** Writing to a file. *)
Lemma rep_write fs m p i b : rep root U rp fs m -> p ∈ U -> names fs !! at_ p = Some (File i) -> rep root U rp (set_inode i b fs) (<[p := b]> m).
Proof.
  intros Hrep Hp Hi. destruct (root_kept fs (set_inode i b fs) m Hrep) as [H2 H3]; [done | by intros [|]|].
  constructor; [apply wf_inode, Hrep | done | done | | | apply Hrep | apply Hrep].
  - intros q Hq. unfold file_at. simpl. destruct (decide (q = p)) as [->|Hne]; [by rewrite Hi, !lookup_insert_eq|].
    rewrite (lookup_insert_ne m) by done. rewrite <- (rep_files _ _ _ _ _ Hrep q Hq). unfold file_at. destruct (names fs !! at_ q) as [[|j]|] eqn:Ej; [done| |done].
    rewrite lookup_insert_ne; [done|]. intros <-. pose proof (rep_inj _ _ _ _ _ Hrep _ _ _ Hi Ej) as E. apply app_inv_head, comps_inj in E. done.
  - intros q Hq. destruct (decide (q = p)) as [->|Hne]; [done|]. rewrite lookup_insert_ne in Hq by done. by apply Hrep.
Qed.

(** A file appears, with an inode of its own. *)
Lemma rep_add fs fs' m p i b : rep root U rp fs m -> p ∈ U -> wf fs' -> cwd fs' = cwd fs -> names fs !! at_ p = None -> inodes fs !! i = None ->
  names fs' = <[at_ p := File i]> (names fs) -> inodes fs' = <[i := b]> (inodes fs) -> rep root U rp fs' (<[p := b]> m).
Proof.
  intros Hrep Hp Hw Hc Hn Hi En Ei. assert (Hfresh : forall q, names fs !! q <> Some (File i)).
  { intros q Hq. destruct (wf_names _ (rep_wf _ _ _ _ _ Hrep) _ _ Hq). congruence. }
  destruct (root_kept fs fs' m Hrep Hc) as [H2 H3].
  { intros [|x q]; [done|]. simpl. intros Hq. rewrite En, lookup_insert_ne by congruence. done. }
  constructor; [done | done | done | | | |].
  - intros q Hq. unfold file_at. rewrite En, Ei. destruct (decide (q = p)) as [->|Hne]; [by rewrite !lookup_insert_eq|].
    rewrite !lookup_insert_ne by (try done; intros E; by apply app_inv_head, comps_inj in E). rewrite <- (rep_files _ _ _ _ _ Hrep q Hq). unfold file_at.
    destruct (names fs !! at_ q) as [[|j]|] eqn:Ej; [done| |done]. rewrite lookup_insert_ne; [done|]. intros <-. by apply Hfresh in Ej.
  - intros q Hq. destruct (decide (q = p)) as [->|Hne]; [done|]. rewrite lookup_insert_ne in Hq by done. by apply Hrep.
  - intros cs n Hcs Hx. rewrite En in Hx. apply lookup_insert_Some in Hx as [[E <-]|[_ Hx]]; [|by eapply Hrep].
    apply app_inv_head in E as <-. exists p, []. rewrite app_nil_r. done.
  - intros cs j q. rewrite En. intros H4 H5.
    apply lookup_insert_Some in H4 as [[E4 F4]|[N4 H4]]; apply lookup_insert_Some in H5 as [[E5 F5]|[N5 H5]]; try congruence.
    eapply Hrep; eauto.
Qed.

(** A file goes. *)
Lemma rep_delete fs m p i : rep root U rp fs m -> p ∈ U -> names fs !! at_ p = Some (File i) ->
  rep root U rp (set_names (delete (at_ p) (names fs)) fs) (delete p m).
Proof.
  intros Hrep Hp Hi. destruct (root_kept fs (set_names (delete (at_ p) (names fs)) fs) m Hrep) as [H2 H3]; [done| |].
  { intros [|x q]; [done|]. simpl. intros Hq. rewrite lookup_delete_ne by congruence. done. }
  constructor; [apply wf_delete; [apply Hrep|]; intros c; eapply file_no_child; [apply Hrep | done] | done | done | | | |].
  - intros q Hq. unfold file_at. simpl. destruct (decide (q = p)) as [->|Hne]; [by rewrite !lookup_delete_eq|].
    rewrite !lookup_delete_ne by (try done; intros E; by apply app_inv_head, comps_inj in E). apply (rep_files _ _ _ _ _ Hrep q Hq).
  - intros q Hq. destruct (decide (q = p)) as [->|Hne]; [done|]. rewrite lookup_delete_ne in Hq by done. by apply Hrep.
  - intros cs n Hcs Hx. simpl in Hx. apply lookup_delete_Some in Hx as [_ Hx]. by eapply Hrep.
  - intros cs j q H4 H5. simpl in *. apply lookup_delete_Some in H4 as [_ H4], H5 as [_ H5]. eapply Hrep; eauto.
Qed.

(** ** The operations *)

Lemma stat_full o fs m p : rep root U rp fs m -> p ∈ U ->
  sys_ok o (Stat (full p)) fs = (match m !! p with Some b => inr (Regular (Z.of_nat (length b))) | None => inl ENOENT end, fs).
Proof.
  intros Hrep Hp. cbn [sys_ok]. unfold on_path. destruct (m !! p) as [b|] eqn:Em.
  - destruct (rep_inode _ _ _ _ Hrep Hp Em) as (i & Hn & Hb).
    destruct (resolve_full root U rp fs m Hroot HU Hpf Hrep p Hp) as [->|[_ E]]; [|congruence].
    rewrite (full_name U rp fs HU p Hp), Hn. unfold content. by rewrite Hb.
  - pose proof (rep_absent _ _ _ Hrep Hp Em) as Hn. destruct (resolve_full root U rp fs m Hroot HU Hpf Hrep p Hp) as [->|[-> _]]; [|done].
    by rewrite (full_name U rp fs HU p Hp), Hn.
Qed.

Lemma Exists_spec fs m p : rep root U rp fs m -> p ∈ U ->
  always (LocalStorage.Exists root p) fs (fun r fs' => r = Ok (bool_decide (is_Some (m !! p))) /\ fs' = fs).
Proof.
  intros Hrep Hp. unfold LocalStorage.Exists, is_regular_file. simpl. eapply always_det; [done | intros o; by apply stat_full|].
  by destruct (m !! p).
Qed.

Lemma Delete_spec fs m p : rep root U rp fs m -> p ∈ U ->
  always (LocalStorage.Delete root p) fs (fun r fs' => r = Ok tt /\ rep root U rp fs' (delete p m)).
Proof.
  intros Hrep Hp. unfold LocalStorage.Delete, remove. simpl. destruct (m !! p) as [b|] eqn:Em.
  - destruct (rep_inode _ _ _ _ Hrep Hp Em) as (i & Hn & Hb).
    destruct (resolve_full root U rp fs m Hroot HU Hpf Hrep p Hp) as [Er|[_ E]]; [|congruence].
    eapply always_det; [done | intros o; cbn [sys_ok]; unfold on_path; rewrite Er, (full_name U rp fs HU p Hp), Hn; reflexivity|].
    simpl. split; [done|]. by eapply rep_delete.
  - pose proof (rep_absent _ _ _ Hrep Hp Em) as Hn. rewrite delete_id by done.
    destruct (resolve_full root U rp fs m Hroot HU Hpf Hrep p Hp) as [Er|[Er _]].
    + eapply always_det; [done | intros o; cbn [sys_ok]; unfold on_path; rewrite Er, (full_name U rp fs HU p Hp), Hn; reflexivity | done].
    + eapply always_det; [done | intros o; cbn [sys_ok]; unfold on_path; rewrite Er; reflexivity | done].
Qed.

Lemma read_file_spec fs m p offset len : rep root U rp fs m -> p ∈ U -> 0 <= offset -> 0 <= len ->
  always (read_file root p offset len) fs (fun r fs' => r = Ok ((fun b => MemStorage.ReadAt (MemStorage.mkInput b) offset len) <$> m !! p) /\ rep root U rp fs' m).
Proof.
  intros Hrep Hp Ho Hl. unfold read_file, LocalStorage.OpenInput, is_regular_file, file_size. simpl.
  eapply always_det; [done | intros o; by apply stat_full|]. destruct (m !! p) as [b|] eqn:Em; [|done]. simpl.
  destruct (rep_inode _ _ _ _ Hrep Hp Em) as (i & Hn & Hb). destruct (resolve_full root U rp fs m Hroot HU Hpf Hrep p Hp) as [Er|[_ E]]; [|congruence].
  set (fd := fresh (dom (opens fs))). set (fs1 := set_opens (<[fd := mkOpen (File i) 0]> (opens fs)) fs).
  assert (Hrep1 : rep root U rp fs1 m) by (apply rep_opens; [done|]; apply wf_open; [apply Hrep | intros ? [= <-]; by rewrite Hb]).
  eapply always_det; [done | intros o; cbn [sys_ok]; unfold on_path; rewrite Er, (full_name U rp fs HU p Hp), Hn; reflexivity|].
  cbv iota beta. eapply (always_det _ _ fs1); [done | intros o; rewrite (stat_full o fs1 m p Hrep1 Hp), Em; reflexivity|]. simpl.
  unfold MemStorage.ReadAt, MemStorage.Size, LocalStorage.ReadAt. simpl.
  assert (Hclose : forall x : option bytes, always (Call (Close fd) (fun _ => Return (Some x))) fs1 (fun r fs' => r = Ok (Some x) /\ rep root U rp fs' m)).
  { intros x. eapply always_det; [done | reflexivity|]. split; [done|]. apply rep_opens; [done|]. apply wf_close, Hrep1. }
  destruct ((Z.of_nat (length b) <? offset) || (Z.of_nat (length b) - offset <? len)) eqn:Eb; [apply Hclose|].
  apply orb_false_iff in Eb as [E1 E2]. apply Z.ltb_ge in E1, E2. simpl.
  eapply (always_det _ _ fs1); [done | intros o; cbn [sys_ok]; unfold fs1 at 1; cbn [opens set_opens]; rewrite lookup_insert_eq; reflexivity|].
  assert (Hc : content fs1 i = b) by (unfold content; simpl; by rewrite Hb). rewrite !Hc.
  rewrite length_slice, Z2Nat.id, Z.eqb_refl by lia. simpl. apply Hclose.
Qed.

(** *** Streams *)

(** The stream's file has [flushed], and its descriptor is at the end. *)
Definition streams (fs : FS) (m : gmap string bytes) (p : string) (fd i : nat) (flushed : bytes) : Prop :=
  rep root U rp fs (<[p := flushed]> m) /\ names fs !! at_ p = Some (File i) /\ inodes fs !! i = Some flushed /\
  opens fs !! fd = Some (mkOpen (File i) (length flushed)).

Lemma streams_write o fs m p fd i flushed (b : bytes) : p ∈ U -> streams fs m p fd i flushed -> failure o = false -> (0 < count o)%nat -> b <> [] ->
  exists n fs', sys_ok o (Write fd b) fs = (inr (S n), fs') /\ streams fs' m p fd i (flushed ++ take (S n) b) /\ (S n <= length b)%nat.
Proof.
  intros Hp (H1 & H2 & H3 & H4) _ Hc Hb. cbn [sys_ok]. rewrite H4. assert (Hct : content fs i = flushed) by (unfold content; by rewrite H3). rewrite Hct.
  destruct (count o `min` length b)%nat as [|n] eqn:En; [destruct b; simpl in *; [done | lia]|]. eexists n, _. split; [reflexivity|]. split; [|lia].
  assert (Ew : write_at flushed (length flushed) (take (S n) b) = flushed ++ take (S n) b).
  { unfold write_at. rewrite Nat.sub_diag, app_nil_r, take_ge, drop_ge, app_nil_r by lia. done. }
  rewrite Ew. assert (Hr : rep root U rp (set_inode i (flushed ++ take (S n) b) fs) (<[p := flushed ++ take (S n) b]> m)).
  { replace (<[p := flushed ++ take (S n) b]> m) with (<[p := flushed ++ take (S n) b]> (<[p := flushed]> m)) by apply insert_insert_eq. by apply rep_write. }
  split_and!; simpl; rewrite ?lookup_insert_eq, ?length_app, ?length_take; try done; [|by rewrite Nat.min_l by lia].
  apply (rep_opens (set_inode i (flushed ++ take (S n) b) fs)); [done|]. apply (wf_open (set_inode _ _ fs)); [apply Hr|]. intros ? [= <-]. simpl. by rewrite lookup_insert_eq.
Qed.

Lemma filebuf_write_spec fuel fs m p fd i flushed (b : bytes) : p ∈ U -> streams fs m p fd i flushed -> (length b <= fuel)%nat ->
  always (LocalStorage.filebuf_write fuel fd b) fs (fun r fs' => r = Ok true /\ streams fs' m p fd i (flushed ++ b)).
Proof.
  intros Hp. revert fs flushed b. induction fuel as [|fuel IH]; intros fs flushed b Hs Hl.
  - destruct b; [|simpl in Hl; lia]. simpl. by rewrite app_nil_r.
  - cbn [LocalStorage.filebuf_write]. destruct b as [|x b]; [simpl; by rewrite app_nil_r|]. simpl. apply always_call; [done|]. intros o Ho Hc.
    destruct (streams_write o fs m p fd i flushed (x :: b)) as (n & fs' & -> & Hs' & Hn); [done..|].
    eapply always_mono; [|apply (IH fs' (flushed ++ take (S n) (x :: b)) (drop (S n) (x :: b)) Hs')].
    + intros r fs2 (-> & H2). rewrite <- app_assoc, take_drop in H2. done.
    + rewrite length_drop. lia.
Qed.

(** The directories of a path are made, and it leads somewhere. *)
Lemma make_room {A} fs m p (k : unit -> proc A) Q : rep root U rp fs m -> p ∈ U ->
  (forall fs1, rep root U rp fs1 m -> (forall j, (j <= length (dir_comps p))%nat -> entry fs1 (rp ++ take j (dir_comps p)) = Some Dir) ->
     always (k tt) fs1 Q) ->
  always (proc_bind (create_directories (parent_path (full p))) k) fs Q.
Proof.
  intros Hrep Hp Hk. apply (always_seq _ _ _ (fun _ fs1 => dirs_made rp (dir_comps p) fs fs1 /\ forall j, (j <= length (dir_comps p))%nat -> entry fs1 (rp ++ take j (dir_comps p)) = Some Dir)).
  - eapply always_mono; [|by eapply create_directories_full]. intros r fs1 (-> & H). eauto.
  - intros [] fs1 [H1 H2]. apply Hk; [by eapply rep_dirs | done].
Qed.

(** Once they are there, a name in the last of them is found. *)
Lemma resolve_in_dir fs m p c : rep root U rp fs m -> p ∈ U -> plain c ->
  (forall j, (j <= length (dir_comps p))%nat -> entry fs (rp ++ take j (dir_comps p)) = Some Dir) ->
  forall s, comps s = (comps root ++ dir_comps p) ++ [c] -> s <> "" -> resolve fs s = inr (rp ++ dir_comps p ++ [c]).
Proof.
  intros Hrep Hp Hc Hd s Es Hs. destruct (dir_comps_spec U HU p Hp) as (x & Ex & Hpl & _).
  rewrite resolve_split, Es, <- app_assoc, (origin_root root fs Hroot), walk_app, (rep_root _ _ _ _ _ Hrep) by done. apply walk_plains.
  - apply Forall_app_2; [done | by apply Forall_cons_2].
  - intros j Hj. rewrite length_app in Hj. simpl in Hj. rewrite take_app_le by lia. apply Hd. lia.
Qed.

Lemma resolve_made fs m p : rep root U rp fs m -> p ∈ U ->
  (forall j, (j <= length (dir_comps p))%nat -> entry fs (rp ++ take j (dir_comps p)) = Some Dir) -> resolve fs (full p) = inr (at_ p).
Proof.
  intros Hrep Hp Hd. destruct (dir_comps_spec U HU p Hp) as (x & Ex & Hpl & Hx). destruct (FullPath_comps root U Hroot HU p Hp) as (Hne & _ & Hc).
  rewrite Ex. eapply resolve_in_dir; try done. by rewrite Hc, Ex, app_assoc.
Qed.

Lemma OpenOutput_spec fs m p : rep root U rp fs m -> p ∈ U ->
  always (LocalStorage.OpenOutput root p) fs (fun r fs' => exists fd i, r = Ok (LocalStorage.mkOutput (Some fd) [] true) /\ streams fs' m p fd i []).
Proof.
  intros Hrep Hp. unfold LocalStorage.OpenOutput. apply (make_room _ m); [done | done|]. clear fs Hrep. intros fs Hrep Hd.
  pose proof (resolve_made fs m p Hrep Hp Hd) as Er. simpl. apply always_call; [done|]. intros o _ _. cbn [sys_ok]. unfold on_path. rewrite Er, (full_name U rp fs HU p Hp).
  destruct (m !! p) as [b|] eqn:Em.
  - destruct (rep_inode _ _ _ _ Hrep Hp Em) as (i & Hn & Hb). rewrite Hn. simpl. eexists _, i. split; [done|].
    pose proof (rep_write fs m p i [] Hrep Hp Hn) as Hr.
    split_and!; simpl; rewrite ?lookup_insert_eq; try done. apply (rep_opens (set_inode i [] fs)); [done|]. apply (wf_open (set_inode i [] fs)); [apply Hr|].
    intros ? [= <-]. simpl. by rewrite lookup_insert_eq.
  - pose proof (rep_absent _ _ _ Hrep Hp Em) as Hn. rewrite Hn.
    destruct (create_file_spec fs (at_ p)) as (fd & i & fs1 & -> & Hw1 & Hfd & Hi & Hcw & Hnm & Hin & Hop); [apply Hrep | done | |].
    { eapply resolve_new; [apply Hrep | done|]. by rewrite (full_name U rp fs HU p Hp). }
    simpl. exists fd, i. split; [done|]. split_and!; [by eapply (rep_add fs) | rewrite Hnm, lookup_insert_eq; done | rewrite Hin, lookup_insert_eq; done | rewrite Hop, lookup_insert_eq; done].
Qed.

Lemma append_all_spec {fb : Filebuf} chunks fs m p fd i flushed buf : p ∈ U -> streams fs m p fd i flushed ->
  always (append_all chunks (LocalStorage.mkOutput (Some fd) buf true)) fs (fun r fs' => exists flushed' buf',
    r = Ok (LocalStorage.mkOutput (Some fd) buf' true, Ok tt) /\ streams fs' m p fd i flushed' /\ flushed' ++ buf' = flushed ++ buf ++ concat chunks).
Proof.
  intros Hp. revert fs flushed buf. induction chunks as [|d chunks IH]; intros fs flushed buf Hs; cbn [append_all].
  - simpl. exists flushed, buf. by rewrite app_nil_r.
  - unfold LocalStorage.Append. cbn [LocalStorage.out_ LocalStorage.good LocalStorage.buffered]. destruct (overflows buf d).
    + apply always_bind. apply (always_seq _ _ _ (fun ok fs1 => ok = true /\ streams fs1 m p fd i (flushed ++ buf ++ d))).
      * eapply always_mono; [|by eapply filebuf_write_spec]. intros r fs1 (-> & H). eauto.
      * intros ok fs1 (-> & H). simpl. eapply always_mono; [|by apply IH]. intros r fs2 (f' & b' & -> & H2 & H3). exists f', b'. split_and!; [done | done|].
        rewrite H3. simpl. by rewrite <- !app_assoc.
    + simpl. eapply always_mono; [|by apply IH]. intros r fs2 (f' & b' & -> & H2 & H3). exists f', b'. split_and!; [done | done|].
      rewrite H3. by rewrite <- !app_assoc.
Qed.

Lemma write_file_spec {fb : Filebuf} fs m p chunks : rep root U rp fs m -> p ∈ U ->
  always (write_file root p chunks) fs (fun r fs' => r = Ok tt /\ rep root U rp fs' (<[p := concat chunks]> m)).
Proof.
  intros Hrep Hp. unfold write_file.
  apply (always_seq _ _ _ (fun o fs1 => exists fd i, o = LocalStorage.mkOutput (Some fd) [] true /\ streams fs1 m p fd i [])).
  { eapply always_mono; [|by apply OpenOutput_spec]. intros r fs1 (fd & i & -> & H). eauto 6. }
  intros o fs1 (fd & i & -> & Hs).
  apply (always_seq _ _ _ (fun x fs2 => exists f' b', x = (LocalStorage.mkOutput (Some fd) b' true, Ok tt) /\ streams fs2 m p fd i f' /\ f' ++ b' = concat chunks)).
  { eapply always_mono; [|by apply append_all_spec]. intros r fs2 (f' & b' & -> & H). eauto 8. }
  intros x fs2 (f' & b' & -> & Hs2 & Ec). unfold LocalStorage.Close. cbn [fst snd LocalStorage.out_ LocalStorage.buffered].
  apply always_bind. apply (always_seq _ _ _ (fun ok fs3 => ok = true /\ streams fs3 m p fd i (f' ++ b'))).
  { eapply always_mono; [|by eapply filebuf_write_spec]. intros r fs3 (-> & H). eauto. }
  intros ok fs3 (-> & Hs3). unfold sys_call. cbn [proc_bind]. eapply always_det; [done | reflexivity|]. simpl. split; [done|]. rewrite <- Ec.
  destruct Hs3 as (Hr & _). apply rep_opens; [done|]. apply wf_close, Hr.
Qed.

(** *** Creation *)

(** An inode without a name. *)
Lemma rep_orphan fs m i b : rep root U rp fs m -> inodes fs !! i = None -> rep root U rp (set_inode i b fs) m.
Proof.
  intros Hrep Hi. destruct (root_kept fs (set_inode i b fs) m Hrep) as [H2 H3]; [done | by intros [|]|].
  constructor; [apply wf_inode, Hrep | done | done | | apply Hrep.. ].
  intros q Hq. rewrite <- (rep_files _ _ _ _ _ Hrep q Hq). unfold file_at. simpl. destruct (names fs !! at_ q) as [[|j]|] eqn:Ej; [done| |done].
  rewrite lookup_insert_ne; [done|]. intros <-. destruct (wf_names _ (rep_wf _ _ _ _ _ Hrep) _ _ Ej). congruence.
Qed.

Lemma resolve_mono fs fs' s p : cwd fs' = cwd fs -> (forall q, entry fs q = Some Dir -> entry fs' q = Some Dir) -> resolve fs s = inr p -> resolve fs' s = inr p.
Proof. intros Hc Hd. unfold resolve. case_bool_decide; [done|]. rewrite Hc. by apply walk_mono. Qed.

(** A suffix longer than every name there is. *)
Lemma fresh_suffix fs (d : list string) c : exists x, slash_free x /\ names fs !! (d ++ [c +:+ ".tmp." +:+ x]) = None.
Proof.
  set (bound := foldr Nat.max 0%nat ((fun e => String.length (default "" (last e.1))) <$> map_to_list (names fs))).
  assert (Hb : forall p n, names fs !! p = Some n -> (String.length (default "" (last p)) <= bound)%nat).
  { intros p n Hp. apply elem_of_map_to_list in Hp. subst bound. induction (map_to_list (names fs)) as [|e l IH]; [by apply not_elem_of_nil in Hp|].
    cbn [fmap list_fmap foldr]. apply elem_of_cons in Hp as [<-|Hp]; cbn [fst]; [lia | specialize (IH Hp); lia]. }
  exists (string_of_list_ascii (replicate bound "A"%char)). split.
  - unfold all_chars. rewrite list_ascii_of_string_of_list_ascii. by apply Forall_replicate.
  - destruct (names fs !! (d ++ [c +:+ ".tmp." +:+ string_of_list_ascii (replicate bound "A"%char)])) as [n|] eqn:E; [|done].
    apply Hb in E. rewrite last_snoc in E. simpl in E. rewrite !string_length_app in E. simpl in E.
    assert (El : String.length (string_of_list_ascii (replicate bound "A"%char)) = bound); [|rewrite El in E; lia].
    clear. induction bound as [|n IH]; simpl; [done | by rewrite IH].
Qed.

(** The state while the temporary file [t] is written. *)
Definition tmp_state (fs : FS) (t : list string) (i fd : nat) (d : bytes) : FS :=
  mkFS (cwd fs) (<[t := File i]> (names fs)) (<[i := d]> (inodes fs)) (<[fd := mkOpen (File i) (length d)]> (opens fs)).

Lemma write_all_solo fuel s fs t i fd (b : bytes) w : (w <= length b)%nat -> (length b <= w + fuel)%nat ->
  always (LocalStorage.write_all fuel s fd b w) (tmp_state fs t i fd (take w b)) (fun r fs' => r = Ok tt /\ fs' = tmp_state fs t i fd b).
Proof.
  revert w. induction fuel as [|fuel IH]; intros w Hw Hf; cbn [LocalStorage.write_all].
  { rewrite (proj2 (Nat.leb_le _ _)) by lia. simpl. by rewrite take_ge by lia. }
  destruct (Nat.leb_spec (length b) w); [simpl; by rewrite take_ge by lia|]. unfold sys_call. cbn [proc_bind].
  apply always_call; [done|]. intros o _ Hc. cbn [sys_ok]. unfold tmp_state at 1. cbn [opens]. rewrite lookup_insert_eq.
  assert (Hct : content (tmp_state fs t i fd (take w b)) i = take w b) by (unfold content; simpl; by rewrite lookup_insert_eq). rewrite Hct.
  destruct (count o `min` length (drop w b))%nat as [|n] eqn:En; [rewrite length_drop in En; lia|].
  assert (Hn : (w + S n <= length b)%nat) by (rewrite length_drop in En; lia).
  rewrite length_take, (Nat.min_l w), write_at_end by done.
  replace (set_opens _ _) with (tmp_state fs t i fd (take (w + S n) b)); [apply IH; lia|].
  unfold tmp_state, set_opens, set_inode. simpl. rewrite !insert_insert_eq, length_take, Nat.min_l by done. done.
Qed.

Lemma close_and_unlink_solo {A} (a : A) fs1 fd name t i : resolve fs1 name = inr t -> names fs1 !! t = Some (File i) -> t <> [] ->
  always (do _ <- LocalStorage.close_and_unlink fd name; Return a) fs1 (fun r fs' => r = Ok a /\
    fs' = mkFS (cwd fs1) (delete t (names fs1)) (inodes fs1) (delete fd (opens fs1))).
Proof.
  intros Hr Hn Ht. unfold LocalStorage.close_and_unlink, sys_call. cbn [proc_bind]. eapply always_det; [done | reflexivity|].
  set (fs2 := set_opens (delete fd (opens fs1)) fs1).
  assert (Hr2 : resolve fs2 name = inr t) by (apply (resolve_mono fs1); [done | by intros [|] | done]).
  eapply always_det; [done | intros o; cbn [sys_ok]; unfold on_path; rewrite Hr2, entry_nonroot by done; unfold fs2 at 1; cbn [names set_opens]; rewrite Hn; reflexivity | done].
Qed.

(** Filling the temporary file and linking it, and the state when it is gone. *)
Lemma fill_and_link_solo fs m p name t i fd b : rep root U rp fs m -> p ∈ U ->
  resolve fs (full p) = inr (at_ p) -> resolve fs name = inr t -> t <> at_ p -> t <> [] -> names fs !! t = None -> inodes fs !! i = None -> opens fs !! fd = None ->
  always (LocalStorage.fill_and_link (full p) name fd b) (tmp_state fs t i fd []) (fun r fs' =>
    match m !! p with
    | Some _ => r = Ok AlreadyExists /\ fs' = set_inode i b fs
    | None => r = Ok Created /\ fs' = set_inode i b (set_names (<[at_ p := File i]> (names fs)) fs)
    end).
Proof.
  intros Hrep Hp Hr1 Hr2 Hne Ht Hn Hi Hfd. unfold LocalStorage.fill_and_link.
  apply (always_seq _ _ _ (fun _ fs' => fs' = tmp_state fs t i fd b)).
  { change (@nil Byte.byte) with (take 0 b). eapply always_mono; [|apply write_all_solo; lia]. intros r fs' [-> ->]. eauto. }
  intros _ fs' ->. unfold sys_call. cbn [proc_bind]. eapply always_det; [done | reflexivity|]. cbn [proc_bind].
  assert (Hdirs : forall q, entry fs q = Some Dir -> entry (tmp_state fs t i fd b) q = Some Dir).
  { intros [|x q]; [done|]. simpl. intros Hq. rewrite lookup_insert_ne by congruence. done. }
  assert (Hr1' := resolve_mono fs (tmp_state fs t i fd b) _ _ eq_refl Hdirs Hr1). assert (Hr2' := resolve_mono fs (tmp_state fs t i fd b) _ _ eq_refl Hdirs Hr2).
  assert (Het : entry (tmp_state fs t i fd b) t = Some (File i)) by (rewrite entry_nonroot by done; apply lookup_insert_eq).
  assert (Hat : at_ p <> []) by (destruct (comps_cons U HU p Hp) as (? & ? & -> & _); by destruct rp).
  assert (Hep : entry (tmp_state fs t i fd b) (at_ p) = names fs !! at_ p) by (rewrite entry_nonroot by done; by apply lookup_insert_ne).
  destruct (m !! p) as [b0|] eqn:Em.
  - destruct (rep_inode _ _ _ _ Hrep Hp Em) as (j & Hj & _).
    eapply always_det; [done | intros o; cbn [sys_ok]; unfold on_path; rewrite Hr2', Het, Hr1', Hep, Hj; reflexivity|]. cbv iota beta.
    eapply always_mono; [|eapply close_and_unlink_solo; [exact Hr2' | apply lookup_insert_eq | done]]. intros r fs' [-> ->]. split; [done|].
    unfold tmp_state, set_inode. simpl. by rewrite !delete_insert_id.
  - pose proof (rep_absent _ _ _ Hrep Hp Em) as Hj.
    eapply always_det; [done | intros o; cbn [sys_ok]; unfold on_path; rewrite Hr2', Het, Hr1', Hep, Hj; reflexivity|]. cbv iota beta.
    eapply always_mono; [|eapply (close_and_unlink_solo Created _ fd name t i); [|simpl; rewrite lookup_insert_ne by congruence; apply lookup_insert_eq | done]].
    + intros r fs' [-> ->]. split; [done|]. unfold tmp_state, set_inode, set_names. simpl. rewrite insert_insert_ne by done. by rewrite !delete_insert_id by (rewrite ?lookup_insert_ne; done).
    + apply (resolve_mono (tmp_state fs t i fd b)); [done | | done]. intros [|x q]; [done|]. intros Hq. cbn [entry] in *. simpl in *.
      rewrite lookup_insert_ne; [done|]. intros E. rewrite <- E, lookup_insert_ne in Hq by done. congruence.
Qed.

Lemma CreateIfAbsent_spec fs m p b : rep root U rp fs m -> p ∈ U ->
  always (LocalStorage.CreateIfAbsent root p b) fs (fun r fs' =>
    match m !! p with
    | Some _ => r = Ok AlreadyExists /\ rep root U rp fs' m
    | None => r = Ok Created /\ rep root U rp fs' (<[p := b]> m)
    end).
Proof.
  intros Hrep Hp. unfold LocalStorage.CreateIfAbsent. apply (make_room _ m); [done | done|]. clear fs Hrep. intros fs Hrep Hd.
  pose proof (resolve_made fs m p Hrep Hp Hd) as Er. destruct (dir_comps_spec U HU p Hp) as (c & Ec & Hpl & Hc).
  destruct (FullPath_comps root U Hroot HU p Hp) as (Hne & _ & Hcomp).
  assert (Hname : forall x, slash_free x -> resolve fs ((full p +:+ ".tmp.") +:+ x) = inr ((rp ++ dir_comps p) ++ [c +:+ ".tmp." +:+ x])).
  { intros x Hx. destruct (temp_component c x) as (N1 & N2 & N3 & _). destruct (split_on_suffix (".tmp." +:+ x) (full p)) as (cs & c' & E1 & E2); [by repeat constructor|].
    rewrite Hcomp, Ec, app_assoc in E1. apply app_inj_tail in E1 as [<- <-]. rewrite <- app_assoc. eapply resolve_in_dir; try done.
    - split_and!; try done. apply all_chars_app; [apply Hc | by repeat constructor].
    - by rewrite string_app_assoc.
    - intros E. apply (f_equal String.length) in E. rewrite !string_length_app in E. simpl in E. lia. }
  unfold sys_call. cbn [proc_bind]. split.
  { destruct (fresh_suffix fs (rp ++ dir_comps p) c) as (x & Hx & Hfree). exists (mkOracle false 1 x). split_and!; [done | simpl; lia | done|]. cbn [suffix].
    rewrite <- (resolve_place _ _ _ (Hname x Hx)), entry_app_nonempty. done. }
  intros o (Hf & _ & Hsx & Hfree). unfold sys_exec. rewrite Hf. cbn [sys_ok]. unfold on_path. rewrite (Hname _ Hsx).
  rewrite <- (resolve_place _ _ _ (Hname _ Hsx)) in Hfree. rewrite Hfree. set (t := (rp ++ dir_comps p) ++ [c +:+ ".tmp." +:+ suffix o]) in *.
  assert (Ht : t <> []) by (subst t; by destruct (rp ++ dir_comps p)).
  destruct (create_file_spec fs t) as (fd & i & fs1 & -> & Hw1 & Hfd & Hi & Hcw & Hnm & Hin & Hop); [apply Hrep | by apply entry_none | |].
  { eapply resolve_new; [apply Hrep | by apply Hname | done]. }
  assert (Efs : fs1 = tmp_state fs t i fd []) by (destruct fs1; unfold tmp_state; simpl in *; congruence). subst fs1.
  assert (Hcatch : forall A (q : proc A) h fs Q, always q fs (fun r fs' => match r with Ok _ => Q r fs' | Fail _ => False end) -> always (proc_catch q h) fs Q).
  { clear. intros A q h. induction q as [a|e|X c k IH]; intros fs Q; simpl; [done | done |]. intros [Hk H]. split; [done|]. intros o Ho. specialize (H o Ho).
    destruct (sys_exec o c fs). auto. }
  apply Hcatch. eapply always_mono; [|eapply (fill_and_link_solo fs m p); try done; [by apply Hname | | by apply entry_none]].
  - intros r fs' Hr. destruct (m !! p) eqn:Em; destruct Hr as [-> ->].
    + split; [done|]. by apply rep_orphan.
    + split; [done|]. eapply (rep_add fs _ m p i b); try done; [|by eapply rep_absent].
      pose proof (rep_absent _ _ _ Hrep Hp Em) as Hn. apply (wf_insert (set_inode i b fs)); [apply wf_inode, Hrep | done | |].
      * destruct (resolve_new fs (full p) (at_ p)) as (d & c' & E1 & E2 & E3); [apply Hrep | done | by rewrite (full_name U rp fs HU p Hp)|].
        exists d, c'. split_and!; [done..|]. by destruct d.
      * intros ? [= <-]. simpl. by rewrite lookup_insert_eq.
  - rewrite Ec. subst t. intros E. rewrite app_assoc in E. apply app_inj_tail in E as [_ E]. by apply (temp_component c (suffix o)).
Qed.

End Changes.
