(* ===== verification/LocalScript.v ===== *)
(** * Scripts on local files

    Listing the directory tree of a store, and the theorem that compares every
    script of operations with the same script on MemStorage. *)

From Stdlib Require Import Ascii.
From stdpp Require Import strings.
From S2P Require Import Prelude Text Storage LocalStorage LocalSpec LocalRefine.
Open Scope Z_scope.

(** ** Listing *)

Lemma children_nodup fs d : NoDup (children fs d).*1.
Proof.
  unfold children. pose proof (NoDup_fst_map_to_list (names fs)) as Hn. induction (map_to_list (names fs)) as [|e l IH]; [constructor|].
  apply NoDup_cons in Hn as [He Hn]. specialize (IH Hn). simpl. destruct (child d e) as [[c f]|] eqn:E; [|done]. apply child_spec in E as [E _].
  cbn [fmap list_fmap fst]. apply NoDup_cons. split; [|done]. intros Hc. apply He. apply list_elem_of_fmap in Hc as ([c' f'] & -> & Hc).
  apply list_elem_of_omap in Hc as (e' & He' & Hc). apply child_spec in Hc as [Hc _]. simpl in *. apply list_elem_of_fmap. exists e'. by rewrite Hc.
Qed.

(** The components of the names in a directory are plain. *)
Lemma names_plain fs d cs n : wf fs -> names fs !! (d ++ cs) = Some n -> Forall plain cs.
Proof.
  intros Hw. revert n. induction cs as [|c cs IH] using rev_ind; [constructor|]. intros n Hn. rewrite app_assoc in Hn.
  destruct (wf_tree _ Hw _ _ Hn) as (d' & c' & E & Hc & Hd). apply app_inj_tail in E as [<- <-]. apply Forall_app_2; [|by apply Forall_cons_2].
  destruct (decide (cs = [])) as [->|Hne]; [constructor|]. eapply (IH Dir). rewrite <- Hd. destruct cs; [done|]. by rewrite entry_app_nonempty.
Qed.

(** [x] is, from [rel], a file below one of the entries [es] of [d]. *)
Definition found (fs : FS) (d : list string) (rel : string) (es : list (string * bool)) (x : string) : Prop :=
  exists c f cs i, (c, f) ∈ es /\ names fs !! (d ++ c :: cs) = Some (File i) /\ x = rel +:+ join_path (c :: cs).

Lemma join_inj cs cs' : Forall plain cs -> Forall plain cs' -> cs <> [] -> cs' <> [] -> join_path cs = join_path cs' -> cs = cs'.
Proof. intros H1 H2 N1 N2 E. rewrite <- (split_join cs), <- (split_join cs'), E; try done; by apply plain_slash_free. Qed.

(** Different entries have different files. *)
Lemma found_disjoint fs d rel c f es x : wf fs -> (forall f', (c, f') ∉ es) -> found fs d rel [(c, f)] x -> ~ found fs d rel es x.
Proof.
  intros Hw Hc (c1 & f1 & cs1 & i1 & H1 & Hn1 & ->) (c2 & f2 & cs2 & i2 & H2 & Hn2 & E). apply list_elem_of_singleton in H1 as [= -> ->].
  apply (inj (String.append rel)) in E. apply join_inj in E as [= <- <-]; [by apply Hc in H2 | by eapply names_plain | by eapply names_plain | done | done].
Qed.

Lemma found_cons fs d rel e es x : found fs d rel (e :: es) x <-> found fs d rel [e] x \/ found fs d rel es x.
Proof.
  split.
  - intros (c & f & cs & i & H & Hr). apply elem_of_cons in H as [<-|H]; [left | right]; exists c, f, cs, i; split; try done. by constructor.
  - intros [(c & f & cs & i & H & Hr)|(c & f & cs & i & H & Hr)]; exists c, f, cs, i; split; try done; [apply list_elem_of_singleton in H as <-|]; by constructor.
Qed.

(** What an iteration over [es] answers. *)
Definition lists (fs : FS) (d : list string) (rel : string) (es : list (string * bool)) (r : result (list string)) (fs' : FS) : Prop :=
  fs' = fs /\ exists l, r = Ok l /\ NoDup l /\ forall x, x ∈ l <-> found fs d rel es x.

Lemma visit_spec fs d rel descend es : wf fs -> NoDup es.*1 -> (forall e, e ∈ es -> e ∈ children fs d) ->
  (forall c, (c, false) ∈ es -> always (descend c) fs (lists fs d rel [(c, false)])) ->
  always (visit_entries descend rel es) fs (lists fs d rel es).
Proof.
  intros Hw Hn Hc Hd. induction es as [|[c f] es IH].
  { simpl. split; [done|]. exists []. split_and!; [done | constructor |]. intros x. split; [by intros ?%not_elem_of_nil|]. by intros (? & ? & ? & ? & ?%not_elem_of_nil & _). }
  apply NoDup_cons in Hn as [Hcn Hn]. assert (Hno : forall f', (c, f') ∉ es).
  { intros f' Hf. apply Hcn. apply list_elem_of_fmap. by exists (c, f'). }
  assert (Hvis : always (visit_entries descend rel es) fs (lists fs d rel es)).
  { apply IH; [done | |]; intros; [apply Hc | apply Hd]; by constructor. }
  specialize (Hc (c, f) ltac:(by constructor)). apply elem_of_children in Hc as (n & Hc & Hf). destruct f; cbn [visit_entries].
  - destruct n as [|i]; [done|]. apply (always_seq _ _ _ (fun l fs1 => lists fs d rel es (Ok l) fs1)).
    { eapply always_mono; [|exact Hvis]. intros r fs1 (-> & l & -> & H). exists l. split; [done|]. split; [done|]. eauto. }
    intros l fs1 (-> & l' & [= <-] & Hl1 & Hl2). simpl. split; [done|]. exists ((rel +:+ c) :: l). split; [done|].
    assert (Hself : found fs d rel [(c, true)] (rel +:+ c)) by (exists c, true, [], i; split; [by constructor | done]).
    split; [apply NoDup_cons; split; [|done]; intros Hin; apply Hl2 in Hin; by eapply found_disjoint|].
    intros x. rewrite found_cons, elem_of_cons, Hl2. split; [intros [->|]; auto|]. intros [(c' & f' & cs & j & H1 & H2 & ->)|]; [left | by right].
    apply list_elem_of_singleton in H1 as [= -> ->]. destruct cs as [|c2 cs]; [done|].
    exfalso. assert (He : entry fs (d ++ [c]) = Some Dir) by (eapply (wf_prefix fs (d ++ [c]) (c2 :: cs)); [done | rewrite <- app_assoc; exact H2 | done]).
    by rewrite entry_app_nonempty, Hc in He.
  - apply (always_seq _ _ _ (fun l fs1 => lists fs d rel [(c, false)] (Ok l) fs1)).
    { eapply always_mono; [|apply Hd; by constructor]. intros r fs1 (-> & l & -> & H). exists l. split; [done|]. split; [done|]. eauto. }
    intros l fs1 (-> & l0 & [= <-] & Hl1 & Hl2). apply (always_seq _ _ _ (fun l fs1 => lists fs d rel es (Ok l) fs1)).
    { eapply always_mono; [|exact Hvis]. intros r fs1 (-> & l' & -> & H). exists l'. split; [done|]. split; [done|]. eauto. }
    intros l' fs1 (-> & l0 & [= <-] & Hl3 & Hl4). simpl. split; [done|]. exists (l ++ l'). split; [done|]. split.
    + apply NoDup_app. split_and!; [done | | done]. intros x H1 H2. apply Hl2 in H1. apply Hl4 in H2. by eapply found_disjoint.
    + intros x. by rewrite found_cons, elem_of_app, Hl2, Hl4.
Qed.

Lemma filename_snoc dir c : slash_free c -> filename (dir +:+ "/" +:+ c) = c.
Proof. intros Hc. unfold filename. by rewrite split_app_slash, (split_on_none "/" c), last_snoc by done. Qed.

Lemma iterate_spec fuel fs dir d rel : wf fs -> good_root dir -> resolve fs dir = inr d -> entry fs d = Some Dir ->
  (forall cs, entry fs (d ++ cs) = Some Dir -> (length cs < fuel)%nat) ->
  always (recursive_directory_iterator fuel dir rel) fs (lists fs d rel (children fs d)).
Proof.
  intros Hw. revert dir d rel. induction fuel as [|fuel IH]; intros dir d rel Hg Hr Hd Hf.
  { specialize (Hf []). rewrite app_nil_r in Hf. specialize (Hf Hd). lia. }
  cbn [recursive_directory_iterator]. unfold sys_call. cbn [proc_bind].
  eapply always_det; [done | intros o; cbn [sys_ok]; unfold on_path; rewrite Hr, Hd; reflexivity|]. cbv iota beta.
  apply visit_spec; [done | apply children_nodup | done |]. intros c Hc. apply elem_of_children in Hc as (n & Hc & Hn). destruct n; [|done].
  assert (Hpc : plain c) by (eapply (names_plain _ _ [c]) in Hc; [|done]; by apply Forall_cons in Hc as [? _]).
  assert (Hpa : path_append dir c = dir +:+ "/" +:+ c).
  { unfold path_append. rewrite is_absolute_split by apply Hpc. rewrite split_on_none by apply Hpc.
    replace (match [c] with "" :: _ => true | _ => false end) with false by (destruct c; [by destruct Hpc | done]). by rewrite bool_decide_false. }
  assert (Hne : dir <> "") by (intros ->; by apply Hg).
  assert (Hr' : resolve fs (path_append dir c) = inr (d ++ [c])).
  { rewrite Hpa. rewrite resolve_split in Hr by done. rewrite resolve_split.
    - rewrite split_app_slash, (split_on_none "/" c) by apply Hpc. rewrite origin_root, walk_app, Hr, walk_plain, Hd by done. done.
    - intros E. apply (f_equal String.length) in E. rewrite !string_length_app in E. simpl in E. lia. }
  eapply always_mono; [|apply (IH (path_append dir c) (d ++ [c]) (rel +:+ c +:+ "/"))].
  - intros r fs1 (-> & l & -> & Hl1 & Hl2). split; [done|]. exists l. split_and!; [done | done|]. intros x. rewrite Hl2. split.
    + intros (c' & f & cs & i & H1 & H2 & ->). rewrite <- app_assoc in H2. exists c, false, (c' :: cs), i. split; [by constructor|]. split; [done|].
      by rewrite (join_path_cons c), !string_app_assoc.
    + intros (c1 & f & cs & i & H1 & H2 & ->). apply list_elem_of_singleton in H1 as [= -> ->]. destruct cs as [|c2 cs]; [congruence|].
      replace (d ++ c :: c2 :: cs) with ((d ++ [c]) ++ c2 :: cs) in H2 by (by rewrite <- app_assoc).
      assert (Hin : exists f2, (c2, f2) ∈ children fs (d ++ [c])).
      { destruct cs as [|c3 cs]; [eexists; apply elem_of_children; eauto|]. assert (He : entry fs ((d ++ [c]) ++ [c2]) = Some Dir).
        { eapply (wf_prefix _ _ (c3 :: cs)); [done | rewrite <- (app_assoc _ [c2]); exact H2 | done]. }
        rewrite entry_app_nonempty in He. eexists. apply elem_of_children. eauto. }
      destruct Hin as (f2 & Hin). exists c2, f2, cs, i. split_and!; [done | done|]. by rewrite (join_path_cons c), !string_app_assoc.
  - unfold good_root. rewrite Hpa, filename_snoc by apply Hpc. apply Hpc.
  - done.
  - by rewrite entry_app_nonempty.
  - intros cs Hcs. rewrite <- app_assoc in Hcs. apply Hf in Hcs. simpl in Hcs. lia.
Qed.

Section Scripts.

Context {fb : Filebuf} (root : string) (U : list string) (rp : list string) (depth : nat).
Context (Hroot : good_root root) (HU : Forall good_path U) (Hpf : prefix_free U).
Context (Hdepth : forall p, p ∈ U -> (length (comps p) <= depth)%nat) (Hpos : (0 < depth)%nat).

Lemma List_spec fs m pre : rep root U rp fs m ->
  always (LocalStorage.List_ root depth pre) fs (fun r fs' => fs' = fs /\ exists l, r = Ok l /\
    l ≡ₚ filter (fun p => String.prefix pre p = true) (map_to_list m).*1).
Proof.
  intros Hrep. assert (Hne : root <> "") by (intros ->; by apply Hroot).
  assert (Hr : resolve fs root = inr rp) by (rewrite resolve_split by done; apply Hrep). pose proof (rep_dir _ _ _ _ _ Hrep) as Hd.
  unfold LocalStorage.List_, is_directory, sys_call. cbn [proc_bind].
  eapply always_det; [done | intros o; cbn [sys_ok]; unfold on_path; rewrite Hr, Hd; reflexivity|]. cbn [proc_bind negb]. cbv iota.
  apply (always_seq _ _ _ (fun l fs1 => fs1 = fs /\ l ≡ₚ (map_to_list m).*1)).
  2:{ intros l fs1 [-> Hl]. simpl. split; [done|]. eexists. split; [done|]. by rewrite Hl. }
  eapply always_mono; [|apply (iterate_spec depth fs root rp ""); [apply Hrep | done | done | done |]].
  - intros r fs1 (-> & l & -> & Hl1 & Hl2). exists l. split; [done|]. split; [done|]. apply NoDup_Permutation; [done | apply NoDup_fst_map_to_list|].
    intros x. rewrite Hl2. split.
    + intros (c & f & cs & i & _ & Hn & ->). change ("" +:+ ?s) with s. destruct (rep_names _ _ _ _ _ Hrep (c :: cs) (File i)) as (p & tl & Hp & E & Ht); [done | done|].
      assert (tl = []) as -> by (by apply Ht). rewrite app_nil_r in E. rewrite <- E, join_split.
      pose proof (rep_files _ _ _ _ _ Hrep p Hp) as Hm. unfold file_at in Hm. rewrite E, Hn in Hm.
      destruct (wf_names _ (rep_wf _ _ _ _ _ Hrep) _ _ Hn) as [b Hb]. rewrite Hb in Hm.
      apply list_elem_of_fmap. exists (p, b). split; [done|]. by apply elem_of_map_to_list.
    + intros Hx. apply list_elem_of_fmap in Hx as ([p b] & -> & Hx). apply elem_of_map_to_list in Hx. cbn [fst].
      assert (Hp : p ∈ U) by (apply (rep_dom _ _ _ _ _ Hrep); eauto). destruct (rep_inode root U rp fs m p b Hrep Hp Hx) as (i & Hn & _).
      destruct (comps_cons U HU p Hp) as (c & cs & E & Hc & Hcs). rewrite E in Hn.
      assert (Hin : exists f, (c, f) ∈ children fs rp).
      { destruct cs as [|c2 cs]; [eexists; apply elem_of_children; eauto|]. assert (He : entry fs (rp ++ [c]) = Some Dir).
        { eapply (wf_prefix _ _ (c2 :: cs)); [apply Hrep | rewrite <- app_assoc; exact Hn | done]. }
        rewrite entry_app_nonempty in He. eexists. apply elem_of_children. eauto. }
      destruct Hin as (f & Hin). exists c, f, cs, i. split_and!; [done | done|]. rewrite <- E, join_split. done.
  - intros cs Hcs. destruct (decide (cs = [])) as [->|Hn]; [done|].
    assert (Hcs' : names fs !! (rp ++ cs) = Some Dir) by (destruct cs; [done|]; by rewrite entry_app_nonempty in Hcs).
    destruct (rep_names _ _ _ _ _ Hrep cs Dir) as (p & tl & Hp & E & Ht); [done | done|]. specialize (Hdepth p Hp). rewrite E, length_app in Hdepth.
    destruct tl; [|simpl in Hdepth; lia]. destruct Ht as [Ht _]. by specialize (Ht eq_refl).
Qed.

(** ** Scripts *)

Inductive op :=
| Create (p : string) (b : bytes)
| WriteFile (p : string) (chunks : list bytes)
| ReadFile (p : string) (offset len : Z)
| TestFile (p : string)
| ListFiles (pre : string)
| DeleteFile (p : string).

Inductive answer :=
| Answer_create (r : CreateFileResult)
| Answer_unit
| Answer_read (b : option (option bytes))
| Answer_bool (b : bool)
| Answer_list (l : list string).

Definition local_op (o : op) : proc answer :=
  match o with
  | Create p b => do r <- LocalStorage.CreateIfAbsent root p b; Return (Answer_create r)
  | WriteFile p chunks => do _ <- write_file root p chunks; Return Answer_unit
  | ReadFile p offset len => do b <- read_file root p offset len; Return (Answer_read b)
  | TestFile p => do b <- LocalStorage.Exists root p; Return (Answer_bool b)
  | ListFiles pre => do l <- LocalStorage.List_ root depth pre; Return (Answer_list l)
  | DeleteFile p => do _ <- LocalStorage.Delete root p; Return Answer_unit
  end.

Fixpoint local_script (ops : list op) : proc (list answer) :=
  match ops with
  | [] => Return []
  | o :: ops => do a <- local_op o; do l <- local_script ops; Return (a :: l)
  end.

(** The same on MemStorage. *)
Definition mem_op (o : op) : M MemStorage.files_ answer :=
  match o with
  | Create p b => let* r := MemStorage.CreateIfAbsent p b in ret (Answer_create r)
  | WriteFile p chunks =>
      let* o := MemStorage.OpenOutput p in
      let* _ := MemStorage.Close (foldl (fun o d => MemStorage.Append d o) o chunks) in
      ret Answer_unit
  | ReadFile p offset len => let* f := MemStorage.OpenInput p in ret (Answer_read ((fun f => MemStorage.ReadAt f offset len) <$> f))
  | TestFile p => let* b := MemStorage.Exists p in ret (Answer_bool b)
  | ListFiles pre => let* l := MemStorage.List_ pre in ret (Answer_list l)
  | DeleteFile p => let* _ := MemStorage.Delete p in ret Answer_unit
  end.

Fixpoint mem_script (ops : list op) : M MemStorage.files_ (list answer) :=
  match ops with
  | [] => ret []
  | o :: ops => let* a := mem_op o in let* l := mem_script ops in ret (a :: l)
  end.

(** Listings are unordered. *)
Definition same_answer (a a' : answer) : Prop :=
  match a, a' with Answer_list l, Answer_list l' => l ≡ₚ l' | _, _ => a = a' end.

Definition op_ok (o : op) : Prop :=
  match o with
  | Create p _ | WriteFile p _ | TestFile p | DeleteFile p => p ∈ U
  | ReadFile p offset len => p ∈ U /\ 0 <= offset /\ 0 <= len
  | ListFiles _ => True
  end.

Lemma append_chunks chunks o : foldl (fun o d => MemStorage.Append d o) o chunks =
  MemStorage.mkOutput (MemStorage.path_ o) (MemStorage.buf_ o ++ concat chunks) (MemStorage.closed_ o).
Proof.
  revert o. induction chunks as [|d chunks IH]; intros [p b c]; simpl; [by rewrite app_nil_r|]. rewrite IH. simpl. by rewrite <- app_assoc.
Qed.

(** The two answers are the same term. *)
Ltac answers := simpl; eexists; split; [reflexivity|]; eexists _, _; split; [reflexivity|]; done.

Lemma local_op_spec o fs m : rep root U rp fs m -> op_ok o ->
  always (local_op o) fs (fun r fs' => exists a, r = Ok a /\ exists a' m', mem_op o m = (Ok a', m') /\ same_answer a a' /\ rep root U rp fs' m').
Proof.
  intros Hrep Ho. destruct o as [p b|p chunks|p offset len|p|pre|p]; simpl in Ho; cbn [local_op mem_op]; apply always_bind.
  - eapply always_mono; [|eapply (CreateIfAbsent_spec root U rp); eauto]. intros r fs' Hr. unfold bind, MemStorage.CreateIfAbsent, bind, get, put, ret.
    destruct (m !! p); destruct Hr as [-> Hr]; answers.
  - eapply always_mono; [|eapply (write_file_spec root U rp); eauto]. intros r fs' (-> & Hr).
    unfold bind, MemStorage.OpenOutput, ret. rewrite append_chunks. unfold MemStorage.Close, MemStorage.Put, bind, modify, ret. answers.
  - destruct Ho as (Hp & H1 & H2). eapply always_mono; [|eapply (read_file_spec root U rp); eauto]. intros r fs' (-> & Hr).
    unfold bind, MemStorage.OpenInput, bind, get, ret. destruct (m !! p); answers.
  - eapply always_mono; [|eapply (Exists_spec root U rp); eauto]. intros r fs' (-> & ->). answers.
  - eapply always_mono; [|by apply List_spec]. intros r fs' (-> & l & -> & Hl). answers.
  - eapply always_mono; [|eapply (Delete_spec root U rp); eauto]. intros r fs' (-> & Hr). answers.
Qed.

(** C14. On a disk where no system call fails and nobody interferes, every script
    of creations, writes, range reads, tests, listings and deletions on
    [LocalStorage] ends, and answers as the same script on [MemStorage], whatever
    the kernel and the streams decide; the files under the root stay those of
    the in-memory store. The paths are relative, with plain components, and none
    is a directory on the way to another. *)
Theorem local_refines_mem (ops : list op) (fs : FS) (m : gmap string bytes) :
  rep root U rp fs m -> Forall op_ok ops ->
  always (local_script ops) fs (fun r fs' => exists l, r = Ok l /\ exists l' m', mem_script ops m = (Ok l', m') /\
    Forall2 same_answer l l' /\ rep root U rp fs' m').
Proof.
  intros Hrep Hops. revert fs m Hrep. induction Hops as [|o ops Ho Hops IH]; intros fs m Hrep; cbn [local_script].
  { simpl. exists []. split; [done|]. exists [], m. by split_and!. }
  apply (always_seq _ _ _ (fun a fs1 => exists a' m1, mem_op o m = (Ok a', m1) /\ same_answer a a' /\ rep root U rp fs1 m1)); [by apply local_op_spec|].
  intros a fs1 (a' & m1 & E1 & Ha & Hrep1).
  apply (always_seq _ _ _ (fun l fs2 => exists l' m2, mem_script ops m1 = (Ok l', m2) /\ Forall2 same_answer l l' /\ rep root U rp fs2 m2)); [by apply IH|].
  intros l fs2 (l' & m2 & E2 & Hl & Hrep2). simpl. exists (a :: l). split; [done|]. exists (a' :: l'), m2. split; [|split; [by constructor | done]].
  unfold bind. by rewrite E1, E2.
Qed.

End Scripts.

(** *** A store *)

Definition demo_fs : FS := mkFS [] {[["db"] := Dir]} ∅ ∅.
Definition demo_paths : list string := ["a/x"; "b"].
#[local] Instance demo_filebuf : Filebuf := {| overflows := fun buf d => (3 <? length buf + length d)%nat |}.

Lemma demo_names p n : names demo_fs !! p = Some n -> p = ["db"] /\ n = Dir.
Proof. unfold demo_fs. simpl. intros H. by apply lookup_singleton_Some in H as [<- <-]. Qed.

Lemma demo_rep : rep "/db" demo_paths ["db"] demo_fs ∅.
Proof.
  constructor; try done.
  - constructor; try done.
    + intros p n H. apply demo_names in H as [-> ->]. exists [], "db". split_and!; [done | repeat split; try done; by repeat constructor | done].
    + intros p i H. by apply demo_names in H as [_ ?].
  - intros p Hp. unfold file_at. destruct (names demo_fs !! _) as [n|] eqn:E; [|done]. by apply demo_names in E as [_ ->].
  - by intros p [? ?].
  - intros cs n Hcs Hn. apply demo_names in Hn as [E _]. by destruct cs.
  - intros cs i q H. by apply demo_names in H as [_ ?].
Qed.

Definition demo_script : list op :=
  [Create "a/x" [Byte.x01; Byte.x02]; WriteFile "b" [[Byte.x03]; [Byte.x04; Byte.x05; Byte.x06]]; Create "b" []; ReadFile "a/x" 1 1;
   ListFiles ""; DeleteFile "b"; TestFile "b"].

Lemma local_refines_mem_witness :
  (exec (local_script "/db" 2 demo_script) demo_oracle None demo_fs).1.1.2 =
    Ok [Answer_create Created; Answer_unit; Answer_create AlreadyExists; Answer_read (Some (Some [Byte.x02])); Answer_list ["b"; "a/x"]; Answer_unit; Answer_bool false] /\
  always (local_script "/db" 2 demo_script) demo_fs (fun r fs' => exists l, r = Ok l /\ exists l' m', mem_script demo_script ∅ = (Ok l', m') /\
    Forall2 same_answer l l' /\ rep "/db" demo_paths ["db"] fs' m').
Proof.
  split; [vm_compute; reflexivity|]. apply (local_refines_mem "/db" demo_paths ["db"] 2).
  - done.
  - repeat constructor; done.
  - intros p q tl Hp Hq E. unfold demo_paths in *. repeat (apply elem_of_cons in Hp as [->|Hp]); try (by apply not_elem_of_nil in Hp);
      repeat (apply elem_of_cons in Hq as [->|Hq]); try (by apply not_elem_of_nil in Hq); vm_compute in E; simplify_eq; done.
  - intros p Hp. unfold demo_paths in *. repeat (apply elem_of_cons in Hp as [->|Hp]); try (by apply not_elem_of_nil in Hp); vm_compute; lia.
  - lia.
  - apply demo_rep.
  - unfold demo_paths. repeat constructor; try done; simpl; try lia; set_solver.
Defined.

(** *** Where the two stores differ *)

(** [Close] hides a failed flush: the write fails, no exception is thrown, and
    the file is empty, although [Close] should commit the bytes. *)
Lemma Close_hides_failure :
  let '(_, res, _, fs') := exec (write_file "/db" "b" [[Byte.x03]]) (fun n => mkOracle (Nat.eqb n 2) 1 "") None demo_fs in
  res = Ok tt /\ file_at fs' ["db"; "b"] = Some [].
Proof. by vm_compute. Qed.

(** [Delete] of a path that is a directory on the way to a file throws, although
    no file is there and an absent file should be no error; the in-memory store
    does nothing. *)
Lemma Delete_directory_throws :
  exists msg, (exec (do _ <- LocalStorage.CreateIfAbsent "/db" "a/x" []; LocalStorage.Delete "/db" "a") demo_oracle None demo_fs).1.1.2 = Fail (runtime msg) /\
  (MemStorage.Delete "a" {["a/x"%string := []]}).1 = Ok tt.
Proof. eexists. split; [vm_compute; reflexivity | done]. Qed.

(** An absolute path leaves the root directory. *)
Lemma absolute_path_escapes root path : is_absolute path = true -> LocalStorage.FullPath root path = path.
Proof. intros H. unfold LocalStorage.FullPath, path_append. by rewrite H. Qed.

(** While a file is created, or after a crash then, its temporary file is listed
    as a stored path. *)
Lemma List_shows_temporary : let tr := (exec (LocalStorage.CreateIfAbsent "/db" "b" [Byte.x01]) demo_oracle None demo_fs).1.1.1 in
  exists fs fs', (fs, fs') ∈ tr /\ (exec (LocalStorage.List_ "/db" 1 "") demo_oracle None fs').1.1.2 = Ok ["b.tmp.AbC123"].
Proof.
  vm_compute (exec (LocalStorage.CreateIfAbsent _ _ _) _ _ _). cbv zeta. cbn [fst snd].
  eexists _, _. split; [apply elem_of_cons; right; apply elem_of_cons; left; reflexivity | vm_compute; reflexivity].
Qed.
