(* ===== verification/Reactor.v ===== *)
(** * The reactor

    Models [Io]: channels, the poller over [::poll] and the event loop. Channels
    are objects in a heap, named by their addresses, since the poller and the loop
    keep raw pointers to them; a callback is a number that the environment knows
    how to run. A failed assertion or a fatal log message ends the process, and
    is the fault [Undefined]. *)

From stdpp Require Import list.
From S2P Require Import Prelude.
Open Scope Z_scope.

(** The flags of [poll.h]. *)
Definition POLLIN : Z := 1.
Definition POLLPRI : Z := 2.
Definition POLLOUT : Z := 4.
Definition POLLERR : Z := 8.
Definition POLLHUP : Z := 16.
Definition POLLNVAL : Z := 32.

Definition has (mask flags : Z) : bool := negb (Z.land mask flags =? 0).

(** [static_cast<short>]. *)
Definition i16 (z : Z) : Z := (z + 2 ^ 15) mod 2 ^ 16 - 2 ^ 15.

Definition kNoneEvent : Z := 0.
Definition kReadEvent : Z := Z.lor POLLIN POLLPRI.
Definition kWriteEvent : Z := POLLOUT.

(** ** Data *)

Abbreviation EventCallback := nat.

Record Channel := mkChannel {
  fd_ : Z;
  events_ : Z;
  revents_ : Z;
  index_ : Z;
  read_callback_ : option EventCallback;
  write_callback_ : option EventCallback;
  close_callback_ : option EventCallback;
  error_callback_ : option EventCallback;
}.

Record pollfd := mkPollfd { pf_fd : Z; pf_events : Z; pf_revents : Z }.

(** [channels_] maps descriptors to addresses. *)
Record Poller := mkPoller { pollfds_ : list pollfd; channels_ : gmap Z nat }.

Record EventLoop := mkLoop {
  looping_ : bool;
  quit_ : bool;
  thread_id_ : nat;
  poller_ : Poller;
  active_channels_ : list nat;
}.

(** The objects, the thread that runs, and the rest of the program. *)
Record World (W : Type) := mkWorld { heap : gmap nat Channel; loop : EventLoop; this_thread : nat; user : W }.
Arguments mkWorld {W}.
Arguments heap {W}.
Arguments loop {W}.
Arguments this_thread {W}.
Arguments user {W}.

(** What [::poll] answers: how many descriptors have events, with the [revents]
    of all, or an error and whether it is [EINTR]. *)
Inductive poll_result := PollReady (n : Z) (revents : list Z) | PollFailed (interrupted : bool).

Class Env (W : Type) := {
  invoke : EventCallback -> M (World W) unit;
  poll : list pollfd -> Z -> M (World W) poll_result;
}.

Section Reactor.

Context {W : Type} `{!Env W}.

Abbreviation R := (M (World W)).

Definition set_heap (h : gmap nat Channel) (w : World W) : World W := mkWorld h (loop w) (this_thread w) (user w).
Definition set_loop (l : EventLoop) (w : World W) : World W := mkWorld (heap w) l (this_thread w) (user w).
Definition set_poller (p : Poller) (w : World W) : World W :=
  set_loop (mkLoop (looping_ (loop w)) (quit_ (loop w)) (thread_id_ (loop w)) p (active_channels_ (loop w))) w.

Definition check (ok : bool) (msg : string) : R unit := if ok then ret tt else fail (Undefined msg).

(** [*c] *)
Definition deref (c : nat) : R Channel :=
  let* w := get in
  match heap w !! c with Some ch => ret ch | None => fail (Undefined "dangling channel") end.

Definition store (c : nat) (ch : Channel) : R unit := let* w := get in put (set_heap (<[c := ch]> (heap w)) w).

Definition get_poller : R Poller := gets (fun w => poller_ (loop w)).
Definition put_poller (p : Poller) : R unit := modify (set_poller p).

(** ** Poller *)

Definition with_index (i : Z) (ch : Channel) : Channel :=
  mkChannel (fd_ ch) (events_ ch) (revents_ ch) i (read_callback_ ch) (write_callback_ ch) (close_callback_ ch) (error_callback_ ch).
Definition with_revents (r : Z) (ch : Channel) : Channel :=
  mkChannel (fd_ ch) (events_ ch) r (index_ ch) (read_callback_ ch) (write_callback_ ch) (close_callback_ ch) (error_callback_ ch).
Definition with_events (e : Z) (ch : Channel) : Channel :=
  mkChannel (fd_ ch) e (revents_ ch) (index_ ch) (read_callback_ ch) (write_callback_ ch) (close_callback_ ch) (error_callback_ ch).

Definition SetIndexInPoller (c : nat) (i : Z) : R unit := let* ch := deref c in store c (with_index i ch).
Definition SetRevents (c : nat) (revt : Z) : R unit := let* ch := deref c in store c (with_revents revt ch).

(** An [EventCallback] is a [std::function], which may be empty. *)
Definition SetReadCallback (c : nat) (cb : option EventCallback) : R unit :=
  let* ch := deref c in
  store c (mkChannel (fd_ ch) (events_ ch) (revents_ ch) (index_ ch) cb (write_callback_ ch) (close_callback_ ch) (error_callback_ ch)).
Definition SetWriteCallback (c : nat) (cb : option EventCallback) : R unit :=
  let* ch := deref c in
  store c (mkChannel (fd_ ch) (events_ ch) (revents_ ch) (index_ ch) (read_callback_ ch) cb (close_callback_ ch) (error_callback_ ch)).
Definition SetCloseCallback (c : nat) (cb : option EventCallback) : R unit :=
  let* ch := deref c in
  store c (mkChannel (fd_ ch) (events_ ch) (revents_ ch) (index_ ch) (read_callback_ ch) (write_callback_ ch) cb (error_callback_ ch)).
Definition SetErrorCallback (c : nat) (cb : option EventCallback) : R unit :=
  let* ch := deref c in
  store c (mkChannel (fd_ ch) (events_ ch) (revents_ ch) (index_ ch) (read_callback_ ch) (write_callback_ ch) (close_callback_ ch) cb).
Definition IsNoneEvent (ch : Channel) : bool := events_ ch =? kNoneEvent.

Definition Poller_UpdateChannel (c : nat) : R unit :=
  let* ch := deref c in
  let* p := get_poller in
  if index_ ch <? 0 then
    check (bool_decide (channels_ p !! fd_ ch = None)) "Poller: fd already registered";;;
    let pfds := pollfds_ p ++ [mkPollfd (fd_ ch) (i16 (events_ ch)) 0] in
    SetIndexInPoller c (Z.of_nat (length pfds) - 1);;;
    put_poller (mkPoller pfds (<[fd_ ch := c]> (channels_ p)))
  else
    check (bool_decide (channels_ p !! fd_ ch <> None)) "Poller: updating unregistered fd";;;
    match pollfds_ p !! Z.to_nat (index_ ch) with
    | None => fail (Undefined "pollfds_[index]")
    | Some _ =>
        let fd := if IsNoneEvent ch then - fd_ ch - 1 else fd_ ch in
        put_poller (mkPoller (<[Z.to_nat (index_ ch) := mkPollfd fd (i16 (events_ ch)) 0]> (pollfds_ p)) (channels_ p))
    end.

(** The descriptor behind a slot that may be switched off. *)
Definition slot_fd (x : pollfd) : Z := if pf_fd x <? 0 then - pf_fd x - 1 else pf_fd x.

Definition Poller_RemoveChannel (c : nat) : R unit :=
  let* ch := deref c in
  let* p := get_poller in
  check (bool_decide (channels_ p !! fd_ ch <> None)) "Poller: removing unregistered fd";;;
  let channels := delete (fd_ ch) (channels_ p) in
  let last_index := Z.of_nat (length (pollfds_ p)) - 1 in
  match last (pollfds_ p) with
  | None => fail (Undefined "pop_back of an empty vector")
  | Some back =>
      (if index_ ch =? last_index then put_poller (mkPoller (removelast (pollfds_ p)) channels)
       else if index_ ch <? 0 then fail (Undefined "pollfds_[-1]")
       else
         match pollfds_ p !! Z.to_nat (index_ ch), channels !! slot_fd back with
         | Some _, Some c' =>
             SetIndexInPoller c' (index_ ch);;;
             put_poller (mkPoller (removelast (<[Z.to_nat (index_ ch) := back]> (pollfds_ p))) channels)
         | _, _ => fail (Undefined "pollfds_[index] or a null channel")
         end);;;
      SetIndexInPoller c (-1)
  end.

Definition Poller_HasChannel (c : nat) : R bool :=
  let* ch := deref c in
  let* p := get_poller in
  ret (bool_decide (channels_ p !! fd_ ch = Some c)).

Fixpoint FillActiveChannels (num_events : Z) (pfds : list pollfd) : R (list nat) :=
  match pfds with
  | [] => ret []
  | x :: pfds =>
      if num_events <=? 0 then ret []
      else if 0 <? pf_revents x then
        let* p := get_poller in
        match channels_ p !! pf_fd x with
        | None => fail (Undefined "Poller: revents for unknown fd")
        | Some c => SetRevents c (pf_revents x);;; let* l := FillActiveChannels (num_events - 1) pfds in ret (c :: l)
        end
      else FillActiveChannels num_events pfds
  end.

(** [::poll] writes the [revents]; the channels that are appended to
    [active_channels] are returned. *)
Definition Poller_Poll (timeout_ms : Z) : R (list nat) :=
  let* p := get_poller in
  let* r := poll (pollfds_ p) timeout_ms in
  match r with
  | PollReady n revents =>
      let pfds := zip_with (fun x r => mkPollfd (pf_fd x) (pf_events x) r) (pollfds_ p) revents in
      let* p' := get_poller in
      put_poller (mkPoller pfds (channels_ p'));;;
      if 0 <? n then FillActiveChannels n pfds else ret []
  | PollFailed _ => ret []
  end.

(** ** Channel and EventLoop *)

Definition IsInLoopThread (w : World W) : bool := Nat.eqb (thread_id_ (loop w)) (this_thread w).
Definition AssertInLoopThread : R unit := let* w := get in check (IsInLoopThread w) "EventLoop accessed from another thread".

Definition UpdateChannel (c : nat) : R unit := AssertInLoopThread;;; Poller_UpdateChannel c.
Definition RemoveChannel (c : nat) : R unit := AssertInLoopThread;;; Poller_RemoveChannel c.
Definition HasChannel (c : nat) : R bool := AssertInLoopThread;;; Poller_HasChannel c.

Definition new_Channel (fd : Z) : Channel := mkChannel fd kNoneEvent 0 (-1) None None None None.

(** [events_ = f(events_); Update();] *)
Definition change_events (f : Z -> Z) (c : nat) : R unit :=
  let* ch := deref c in
  store c (with_events (f (events_ ch)) ch);;;
  UpdateChannel c.

Definition EnableReading : nat -> R unit := change_events (fun e => Z.lor e kReadEvent).
Definition DisableReading : nat -> R unit := change_events (fun e => Z.land e (Z.lnot kReadEvent)).
Definition EnableWriting : nat -> R unit := change_events (fun e => Z.lor e kWriteEvent).
Definition DisableWriting : nat -> R unit := change_events (fun e => Z.land e (Z.lnot kWriteEvent)).
Definition DisableAll : nat -> R unit := change_events (fun _ => kNoneEvent).
Definition IsReading (ch : Channel) : bool := has (events_ ch) kReadEvent.
Definition IsWriting (ch : Channel) : bool := has (events_ ch) kWriteEvent.
Definition Remove : nat -> R unit := RemoveChannel.

(** [if (cond on revents_) { if (callback) callback(); }] *)
Definition run_if (cond : Z -> bool) (callback : Channel -> option EventCallback) (c : nat) : R unit :=
  let* ch := deref c in
  if cond (revents_ ch) then match callback ch with Some cb => invoke cb | None => ret tt end else ret tt.

Definition HandleEvent (c : nat) : R unit :=
  run_if (fun r => has r POLLHUP && negb (has r POLLIN)) close_callback_ c;;;
  run_if (fun r => has r (Z.lor POLLERR POLLNVAL)) error_callback_ c;;;
  run_if (fun r => has r (Z.lor POLLIN POLLPRI)) read_callback_ c;;;
  run_if (fun r => has r POLLOUT) write_callback_ c.

Definition kPollTimeoutMs : Z := 10000.

Fixpoint handle_all (cs : list nat) : R unit :=
  match cs with
  | [] => ret tt
  | c :: cs => HandleEvent c;;; handle_all cs
  end.

Definition set_active (l : list nat) (e : EventLoop) : EventLoop := mkLoop (looping_ e) (quit_ e) (thread_id_ e) (poller_ e) l.
Definition set_flags (looping quit : bool) (e : EventLoop) : EventLoop := mkLoop looping quit (thread_id_ e) (poller_ e) (active_channels_ e).

(** One turn of the loop. *)
Definition turn : R unit :=
  modify (fun w => set_loop (set_active [] (loop w)) w);;;
  let* active := Poller_Poll kPollTimeoutMs in
  modify (fun w => set_loop (set_active active (loop w)) w);;;
  handle_all active.

Fixpoint turns (fuel : nat) : R unit :=
  let* w := get in
  if quit_ (loop w) then ret tt else
  match fuel with
  | O => fail OutOfFuel
  | S fuel => turn;;; turns fuel
  end.

Definition Loop (fuel : nat) : R unit :=
  let* w := get in
  check (negb (looping_ (loop w))) "EventLoop::Loop called re-entrantly";;;
  AssertInLoopThread;;;
  put (set_loop (set_flags true false (loop w)) w);;;
  turns fuel;;;
  modify (fun w => set_loop (set_flags false (quit_ (loop w)) (loop w)) w).

Definition Quit : R unit := modify (fun w => set_loop (set_flags (looping_ (loop w)) true (loop w)) w).

Definition new_EventLoop (thread : nat) : EventLoop := mkLoop false false thread (mkPoller [] ∅) [].

End Reactor.
