(* ===== verification/ReactorSpec.v ===== *)
(** * What the reactor promises

    The poller's array and map, kept in step by swap-removal, are an
    implementation of a set of channels with the events each wants: [::poll] is
    asked for exactly those. One turn of the loop runs exactly the callbacks that
    are due, in the order of the array. *)

From stdpp Require Import list.
From S2P Require Import Prelude Reactor.
Open Scope Z_scope.

(** ** Channels with their interests *)

Record interest := mkInterest { i_fd : Z; i_events : Z; i_registered : bool }.

Inductive change := ReadOn | ReadOff | WriteOn | WriteOff | AllOff.

Inductive op :=
| NewChannel (c : nat) (fd : Z)
| Change (k : change) (c : nat)
| RemoveIt (c : nat)
| DestroyIt (c : nat).

Definition changed (k : change) (e : Z) : Z :=
  match k with
  | ReadOn => Z.lor e kReadEvent
  | ReadOff => Z.land e (Z.lnot kReadEvent)
  | WriteOn => Z.lor e kWriteEvent
  | WriteOff => Z.land e (Z.lnot kWriteEvent)
  | AllOff => kNoneEvent
  end.

(** No channel has registered the descriptor. *)
Definition fd_free (fd : Z) (σ : gmap nat interest) : bool :=
  forallb (fun e => negb (i_registered e.2 && (i_fd e.2 =? fd))) (map_to_list σ).

(** [None] is a use that the assertions rule out: a descriptor registered twice,
    the removal of a channel that is not registered, the destruction of one that
    is. *)
Definition spec_op (o : op) (σ : gmap nat interest) : option (gmap nat interest) :=
  match o with
  | NewChannel c fd =>
      match σ !! c with None => if 0 <=? fd then Some (<[c := mkInterest fd kNoneEvent false]> σ) else None | Some _ => None end
  | Change k c =>
      match σ !! c with
      | Some s => if i_registered s || fd_free (i_fd s) σ then Some (<[c := mkInterest (i_fd s) (changed k (i_events s)) true]> σ) else None
      | None => None
      end
  | RemoveIt c =>
      match σ !! c with
      | Some s => if i_registered s then Some (<[c := mkInterest (i_fd s) (i_events s) false]> σ) else None
      | None => None
      end
  | DestroyIt c => match σ !! c with Some s => if i_registered s then None else Some (delete c σ) | None => None end
  end.

Fixpoint spec_ops (ops : list op) (σ : gmap nat interest) : option (gmap nat interest) :=
  match ops with
  | [] => Some σ
  | o :: ops => match spec_op o σ with Some σ => spec_ops ops σ | None => None end
  end.

(** What [::poll] should watch. *)
Definition wanted (σ : gmap nat interest) : list (Z * Z) :=
  omap (fun e => if i_registered e.2 && negb (i_events e.2 =? 0) then Some (i_fd e.2, i_events e.2) else None) (map_to_list σ).

Section Spec.

Context {W : Type} {env : Env W}.

Definition run_op (o : op) : M (World W) unit :=
  match o with
  | NewChannel c fd => modify (fun w => set_heap (<[c := new_Channel fd]> (heap w)) w)
  | Change ReadOn c => EnableReading c
  | Change ReadOff c => DisableReading c
  | Change WriteOn c => EnableWriting c
  | Change WriteOff c => DisableWriting c
  | Change AllOff c => DisableAll c
  | RemoveIt c => Remove c
  | DestroyIt c => modify (fun w => set_heap (delete c (heap w)) w)
  end.

Fixpoint run_ops (ops : list op) : M (World W) unit :=
  match ops with
  | [] => ret tt
  | o :: ops => run_op o;;; run_ops ops
  end.

(** The interests that a world has. *)
Definition to_interest (ch : Channel) : interest := mkInterest (fd_ ch) (events_ ch) (0 <=? index_ ch).
Definition interests (w : World W) : gmap nat interest := to_interest <$> heap w.

(** What it asks [::poll] for: a negative descriptor, or no events, is nothing. *)
Definition watched (w : World W) : list (Z * Z) :=
  omap (fun x => if (0 <=? pf_fd x) && negb (pf_events x =? 0) then Some (pf_fd x, pf_events x) else None) (pollfds_ (poller_ (loop w))).

(** ** The invariant of the poller *)

Record inv (h : gmap nat Channel) (p : Poller) : Prop := mkInv {
  inv_slot : forall k x, pollfds_ p !! k = Some x -> exists c ch, channels_ p !! slot_fd x = Some c /\ h !! c = Some ch /\
    fd_ ch = slot_fd x /\ index_ ch = Z.of_nat k /\ pf_events x = events_ ch /\ (pf_fd x < 0 -> events_ ch = 0);
  inv_reg : forall fd c, channels_ p !! fd = Some c -> exists ch x, h !! c = Some ch /\ fd_ ch = fd /\ 0 <= index_ ch /\
    pollfds_ p !! Z.to_nat (index_ ch) = Some x /\ slot_fd x = fd;
  inv_index : forall c ch, h !! c = Some ch -> 0 <= index_ ch -> channels_ p !! fd_ ch = Some c;
  inv_range : forall c ch, h !! c = Some ch -> 0 <= fd_ ch /\ 0 <= events_ ch < 8;
}.

Definition good (w : World W) : Prop := inv (heap w) (poller_ (loop w)) /\ thread_id_ (loop w) = this_thread w.

Lemma changed_range k e : 0 <= e < 8 -> 0 <= changed k e < 8.
Proof.
  intros He. assert (e = 0 \/ e = 1 \/ e = 2 \/ e = 3 \/ e = 4 \/ e = 5 \/ e = 6 \/ e = 7) by lia.
  repeat destruct H as [->|H]; destruct k; vm_compute; try (split; congruence); subst; vm_compute; split; congruence.
Qed.

Lemma i16_small e : 0 <= e < 8 -> i16 e = e.
Proof. intros He. unfold i16. rewrite Z.mod_small by lia. lia. Qed.

(** The slot of a registered channel. *)
Lemma inv_at h p c ch : inv h p -> h !! c = Some ch -> 0 <= index_ ch ->
  exists x, pollfds_ p !! Z.to_nat (index_ ch) = Some x /\ slot_fd x = fd_ ch /\ channels_ p !! fd_ ch = Some c.
Proof.
  intros Hi Hc Hx. pose proof (inv_index _ _ Hi _ _ Hc Hx) as Hr. destruct (inv_reg _ _ Hi _ _ Hr) as (ch' & x & H1 & H2 & H3 & H4 & H5).
  assert (ch' = ch) as -> by congruence. eauto.
Qed.

(** Registered channels have descriptors and slots of their own. *)
Lemma inv_inj h p c ch c' ch' : inv h p -> h !! c = Some ch -> h !! c' = Some ch' -> 0 <= index_ ch -> 0 <= index_ ch' ->
  fd_ ch = fd_ ch' \/ index_ ch = index_ ch' -> c = c'.
Proof.
  intros Hi Hc Hc' Hx Hx' He. destruct (inv_at _ _ _ _ Hi Hc Hx) as (x & S1 & S2 & S3), (inv_at _ _ _ _ Hi Hc' Hx') as (x' & T1 & T2 & T3).
  destruct He as [E|E]; [congruence|]. rewrite E in S1. assert (x = x') as -> by congruence. congruence.
Qed.

Lemma slot_fd_on fd e r : 0 <= fd -> slot_fd (mkPollfd fd e r) = fd.
Proof. intros H. unfold slot_fd. simpl. destruct (Z.ltb_spec fd 0); lia. Qed.

Lemma slot_fd_off fd e r : 0 <= fd -> slot_fd (mkPollfd (- fd - 1) e r) = fd.
Proof. intros H. unfold slot_fd. simpl. destruct (Z.ltb_spec (- fd - 1) 0); lia. Qed.

(** Updating a channel that is not registered. *)
Lemma inv_register h p c ch : inv h p -> h !! c = Some ch -> index_ ch < 0 -> channels_ p !! fd_ ch = None -> 0 <= fd_ ch -> 0 <= events_ ch < 8 ->
  inv (<[c := with_index (Z.of_nat (length (pollfds_ p))) ch]> h) (mkPoller (pollfds_ p ++ [mkPollfd (fd_ ch) (events_ ch) 0]) (<[fd_ ch := c]> (channels_ p))).
Proof.
  intros Hi Hc Hx Hf Hfd Hev. assert (Hother : forall fd c', channels_ p !! fd = Some c' -> c' <> c /\ fd <> fd_ ch).
  { intros fd c' Hr. destruct (inv_reg _ _ Hi _ _ Hr) as (ch' & x & H1 & H2 & H3 & _). split; [|congruence]. intros ->. assert (ch' = ch) as -> by congruence. lia. }
  constructor; simpl.
  - intros k x Hk. apply lookup_app_Some in Hk as [Hk|[Hl Hk]].
    + destruct (inv_slot _ _ Hi _ _ Hk) as (c' & ch' & H1 & H2 & H3). destruct (Hother _ _ H1) as [N1 N2]. exists c', ch'. by rewrite !lookup_insert_ne.
    + apply list_lookup_singleton_Some in Hk as [Hk <-]. rewrite slot_fd_on by done. exists c, (with_index (Z.of_nat (length (pollfds_ p))) ch).
      rewrite !lookup_insert_eq. split_and!; try done; simpl; lia.
  - intros fd c' Hr. apply lookup_insert_Some in Hr as [[<- <-]|[_ Hr]].
    + eexists _, _. rewrite lookup_insert_eq. split; [done|]. simpl. split; [done|]. split; [lia|]. rewrite Nat2Z.id.
      split; [by apply list_lookup_middle | by apply slot_fd_on].
    + destruct (inv_reg _ _ Hi _ _ Hr) as (ch' & x & H1 & H2 & H3 & H4 & H5). destruct (Hother _ _ Hr) as [N1 N2]. exists ch', x.
      rewrite lookup_insert_ne by done. split_and!; try done. by apply lookup_app_l_Some.
  - intros c' ch' Hc' Hx'. apply lookup_insert_Some in Hc' as [[<- <-]|[Hne Hc']]; [by rewrite lookup_insert_eq|].
    pose proof (inv_index _ _ Hi _ _ Hc' Hx') as Hr. destruct (Hother _ _ Hr) as [N1 N2]. by rewrite lookup_insert_ne.
  - intros c' ch' Hc'. apply lookup_insert_Some in Hc' as [[<- <-]|[_ Hc']]; [done | by eapply inv_range].
Qed.

(** Changing or making a channel that is not registered. *)
Lemma inv_idle h p c ch' : inv h p -> (forall ch, h !! c = Some ch -> index_ ch < 0) -> index_ ch' < 0 -> 0 <= fd_ ch' -> 0 <= events_ ch' < 8 ->
  inv (<[c := ch']> h) p.
Proof.
  intros Hi Hc Hx Hfd Hev. assert (Hother : forall fd c', channels_ p !! fd = Some c' -> c' <> c).
  { intros fd c' Hr ->. destruct (inv_reg _ _ Hi _ _ Hr) as (ch & x & H1 & H2 & H3 & _). specialize (Hc _ H1). lia. }
  constructor.
  - intros k x Hk. destruct (inv_slot _ _ Hi _ _ Hk) as (c1 & ch1 & H1 & H2 & H3). exists c1, ch1. apply Hother in H1 as N. by rewrite lookup_insert_ne.
  - intros fd c1 Hr. destruct (inv_reg _ _ Hi _ _ Hr) as (ch1 & x & H1 & H2). exists ch1, x. apply Hother in Hr as N. by rewrite lookup_insert_ne.
  - intros c1 ch1 Hc1 Hx1. apply lookup_insert_Some in Hc1 as [[<- <-]|[_ Hc1]]; [lia | by eapply inv_index].
  - intros c1 ch1 Hc1. apply lookup_insert_Some in Hc1 as [[<- <-]|[_ Hc1]]; [done | by eapply inv_range].
Qed.

Lemma inv_destroy h p c : inv h p -> (forall ch, h !! c = Some ch -> index_ ch < 0) -> inv (delete c h) p.
Proof.
  intros Hi Hc. assert (Hother : forall fd c', channels_ p !! fd = Some c' -> c' <> c).
  { intros fd c' Hr ->. destruct (inv_reg _ _ Hi _ _ Hr) as (ch & x & H1 & H2 & H3 & _). specialize (Hc _ H1). lia. }
  constructor.
  - intros k x Hk. destruct (inv_slot _ _ Hi _ _ Hk) as (c1 & ch1 & H1 & H2 & H3). exists c1, ch1. apply Hother in H1 as N. by rewrite lookup_delete_ne.
  - intros fd c1 Hr. destruct (inv_reg _ _ Hi _ _ Hr) as (ch1 & x & H1 & H2). exists ch1, x. apply Hother in Hr as N. by rewrite lookup_delete_ne.
  - intros c1 ch1 Hc1. apply lookup_delete_Some in Hc1 as [_ Hc1]. by apply Hi.
  - intros c1 ch1 Hc1. apply lookup_delete_Some in Hc1 as [_ Hc1]. by eapply inv_range.
Qed.

(** Updating a channel that is registered. *)
Lemma inv_update h p c ch e : inv h p -> h !! c = Some ch -> 0 <= index_ ch -> 0 <= e < 8 ->
  inv (<[c := with_events e ch]> h)
    (mkPoller (<[Z.to_nat (index_ ch) := mkPollfd (if e =? 0 then - fd_ ch - 1 else fd_ ch) e 0]> (pollfds_ p)) (channels_ p)).
Proof.
  intros Hi Hc Hx He. destruct (inv_at _ _ _ _ Hi Hc Hx) as (x & S1 & S2 & S3). destruct (inv_range _ _ Hi _ _ Hc) as [Hfd _].
  assert (Hslot : slot_fd (mkPollfd (if e =? 0 then - fd_ ch - 1 else fd_ ch) e 0) = fd_ ch) by (destruct (e =? 0); [by apply slot_fd_off | by apply slot_fd_on]).
  pose proof (lookup_lt_Some _ _ _ S1) as Hl. constructor; simpl.
  - intros k y Hk. destruct (decide (k = Z.to_nat (index_ ch))) as [->|Hne].
    + rewrite list_lookup_insert_eq in Hk by done. injection Hk as <-. rewrite Hslot. exists c, (with_events e ch). rewrite lookup_insert_eq. simpl.
      split_and!; try done; [lia|]. destruct (Z.eqb_spec e 0); [done | lia].
    + rewrite list_lookup_insert_ne in Hk by done. destruct (inv_slot _ _ Hi _ _ Hk) as (c1 & ch1 & H1 & H2 & H3 & H4 & H5).
      exists c1, ch1. rewrite lookup_insert_ne; [done|]. intros ->. assert (ch1 = ch) as -> by congruence. lia.
  - intros fd c1 Hr. destruct (inv_reg _ _ Hi _ _ Hr) as (ch1 & y & H1 & H2 & H3 & H4 & H5). destruct (decide (c1 = c)) as [->|Hne].
    + assert (ch1 = ch) as -> by congruence. eexists (with_events e ch), _. rewrite lookup_insert_eq. simpl. rewrite list_lookup_insert_eq by done.
      split_and!; try done. congruence.
    + exists ch1, y. rewrite lookup_insert_ne by done. split_and!; try done. rewrite list_lookup_insert_ne; [done|]. intros E.
      apply Hne. eapply (inv_inj _ _ c1 ch1 c ch); eauto. right. lia.
  - intros c1 ch1 Hc1 Hx1. apply lookup_insert_Some in Hc1 as [[<- <-]|[_ Hc1]]; [done | by eapply inv_index].
  - intros c1 ch1 Hc1. apply lookup_insert_Some in Hc1 as [[<- <-]|[_ Hc1]]; [done | by eapply inv_range].
Qed.

(** Removal: the last slot goes, after its channel has taken the free slot. *)
Lemma inv_remove_last h p c ch : inv h p -> h !! c = Some ch -> index_ ch = Z.of_nat (length (pollfds_ p)) - 1 -> 0 <= index_ ch ->
  inv (<[c := with_index (-1) ch]> h) (mkPoller (removelast (pollfds_ p)) (delete (fd_ ch) (channels_ p))).
Proof.
  intros Hi Hc Hx H0. destruct (inv_range _ _ Hi _ _ Hc) as [Hfd Hev].
  assert (Hrl : forall k (x : pollfd), removelast (pollfds_ p) !! k = Some x <-> pollfds_ p !! k = Some x /\ Z.of_nat k <> index_ ch).
  { intros k x. rewrite removelast_firstn_len, lookup_take_Some. split; intros [H1 H2]; (split; [done|]); [lia|]. apply lookup_lt_Some in H1. lia. }
  constructor; simpl.
  - intros k x Hk. apply Hrl in Hk as [Hk Hne]. destruct (inv_slot _ _ Hi _ _ Hk) as (c1 & ch1 & H1 & H2 & H3 & H4 & H5). exists c1, ch1.
    assert (c1 <> c) by (intros ->; assert (ch1 = ch) as -> by congruence; lia). rewrite lookup_insert_ne by done.
    rewrite lookup_delete_ne; [done|]. intros E. pose proof (inv_index _ _ Hi _ _ Hc H0). congruence.
  - intros fd c1 Hr. apply lookup_delete_Some in Hr as [Hne Hr]. destruct (inv_reg _ _ Hi _ _ Hr) as (ch1 & x & H1 & H2 & H3 & H4 & H5). exists ch1, x.
    assert (c1 <> c) by (intros ->; assert (ch1 = ch) as -> by congruence; done). rewrite lookup_insert_ne by done. split_and!; try done.
    apply Hrl. split; [done|]. intros E. apply H. eapply (inv_inj _ _ c1 ch1 c ch); eauto. right. lia.
  - intros c1 ch1 Hc1 Hx1. apply lookup_insert_Some in Hc1 as [[<- <-]|[Hne Hc1]]; [simpl in Hx1; lia|]. pose proof (inv_index _ _ Hi _ _ Hc1 Hx1) as Hr.
    rewrite lookup_delete_ne; [done|]. intros E. apply Hne. eapply (inv_inj _ _ c ch c1 ch1); eauto.
  - intros c1 ch1 Hc1. apply lookup_insert_Some in Hc1 as [[<- <-]|[_ Hc1]]; [done | by eapply inv_range].
Qed.

Lemma inv_remove_swap h p c ch back c' ch' : inv h p -> h !! c = Some ch -> 0 <= index_ ch -> index_ ch <> Z.of_nat (length (pollfds_ p)) - 1 ->
  last (pollfds_ p) = Some back -> channels_ p !! slot_fd back = Some c' -> h !! c' = Some ch' -> c' <> c ->
  inv (<[c := with_index (-1) ch]> (<[c' := with_index (index_ ch) ch']> h))
    (mkPoller (removelast (<[Z.to_nat (index_ ch) := back]> (pollfds_ p))) (delete (fd_ ch) (channels_ p))).
Proof.
  intros Hi Hc H0 Hnl Hb Hr' Hc' Hne. destruct (inv_range _ _ Hi _ _ Hc) as [Hfd Hev], (inv_range _ _ Hi _ _ Hc') as [Hfd' Hev'].
  destruct (inv_at _ _ _ _ Hi Hc H0) as (xc & S1 & S2 & S3). pose proof (lookup_lt_Some _ _ _ S1) as Hlt.
  rewrite last_lookup in Hb. destruct (inv_slot _ _ Hi _ _ Hb) as (c2 & ch2 & T1 & T2 & T3 & T4 & T5). assert (c2 = c') as -> by congruence. assert (ch2 = ch') as -> by congruence.
  assert (Hfdne : fd_ ch' <> fd_ ch) by (intros E; apply Hne; eapply (inv_inj _ _ c' ch' c ch); eauto; lia).
  assert (Hrl : forall k x, removelast (<[Z.to_nat (index_ ch) := back]> (pollfds_ p)) !! k = Some x <->
    (Z.of_nat k = index_ ch /\ x = back \/ Z.of_nat k <> index_ ch /\ Z.of_nat k <> index_ ch' /\ pollfds_ p !! k = Some x)).
  { intros k x. rewrite removelast_firstn_len, length_insert, lookup_take_Some. destruct (decide (k = Z.to_nat (index_ ch))) as [->|Hk].
    - rewrite list_lookup_insert_eq by done. split; [intros [[= <-] _]; left; split; [lia | done] | intros [[_ ->]|[? _]]; [split; [done | lia] | lia]].
    - rewrite list_lookup_insert_ne by done. split; [intros [H1 H2]; right; split_and!; [lia | lia | done] | intros [[? _]|(_ & H1 & H2)]; [lia|]].
      split; [done|]. apply lookup_lt_Some in H2. lia. }
  constructor; simpl.
  - intros k x Hk. apply Hrl in Hk as [[Hk ->]|(Hk1 & Hk2 & Hk)].
    + exists c', (with_index (index_ ch) ch'). rewrite lookup_insert_ne, lookup_insert_eq by done. simpl. rewrite lookup_delete_ne by congruence.
      destruct T5 as [T5 T6]. split_and!; try done.
    + destruct (inv_slot _ _ Hi _ _ Hk) as (c1 & ch1 & H1 & H2 & H3 & H4 & H5). exists c1, ch1.
      assert (c1 <> c) by (intros ->; assert (ch1 = ch) as -> by congruence; lia). assert (c1 <> c') by (intros ->; assert (ch1 = ch') as -> by congruence; lia).
      rewrite !lookup_insert_ne by done. rewrite lookup_delete_ne; [done|]. intros E. congruence.
  - intros fd c1 Hr. apply lookup_delete_Some in Hr as [Hfne Hr]. destruct (inv_reg _ _ Hi _ _ Hr) as (ch1 & x & H1 & H2 & H3 & H4 & H5).
    assert (c1 <> c) by (intros ->; assert (ch1 = ch) as -> by congruence; done). destruct (decide (c1 = c')) as [->|Hne1].
    + assert (ch1 = ch') as -> by congruence. exists (with_index (index_ ch) ch'), back. rewrite lookup_insert_ne, lookup_insert_eq by done. simpl.
      split_and!; [done | done | done | | congruence]. apply Hrl. left. split; [lia | done].
    + exists ch1, x. rewrite !lookup_insert_ne by done. split_and!; try done. apply Hrl. right. split_and!; [| |done]; rewrite Z2Nat.id by done; intros E;
        [apply H; eapply (inv_inj _ _ c1 ch1 c ch); eauto | apply Hne1; eapply (inv_inj _ _ c1 ch1 c' ch'); eauto; lia].
  - intros c1 ch1 Hc1 Hx1. apply lookup_insert_Some in Hc1 as [[<- <-]|[N1 Hc1]]; [simpl in Hx1; lia|].
    apply lookup_insert_Some in Hc1 as [[<- <-]|[N2 Hc1]]; [simpl; rewrite lookup_delete_ne by congruence; congruence|].
    pose proof (inv_index _ _ Hi _ _ Hc1 Hx1) as Hr. rewrite lookup_delete_ne; [done|]. intros E. apply N1. eapply (inv_inj _ _ c ch c1 ch1); eauto.
  - intros c1 ch1 Hc1. apply lookup_insert_Some in Hc1 as [[<- <-]|[_ Hc1]]; [done|]. apply lookup_insert_Some in Hc1 as [[<- <-]|[_ Hc1]]; [done | by eapply inv_range].
Qed.

(** ** The operations *)

Lemma interests_lookup w c s : interests w !! c = Some s -> exists ch, heap w !! c = Some ch /\ s = to_interest ch.
Proof. unfold interests. rewrite lookup_fmap. destruct (heap w !! c); simpl; [|done]. intros [= <-]. eauto. Qed.

Lemma fd_free_spec w fd : good w -> fd_free fd (interests w) = true -> channels_ (poller_ (loop w)) !! fd = None.
Proof.
  intros [Hi _] Hf. destruct (channels_ (poller_ (loop w)) !! fd) as [c|] eqn:E; [|done]. exfalso.
  destruct (inv_reg _ _ Hi _ _ E) as (ch & x & H1 & H2 & H3 & _). unfold fd_free in Hf. rewrite forallb_forall in Hf.
  specialize (Hf (c, to_interest ch)). assert (Hin : In (c, to_interest ch) (map_to_list (interests w))).
  { apply list_elem_of_In, elem_of_map_to_list. unfold interests. by rewrite lookup_fmap, H1. }
  specialize (Hf Hin). simpl in Hf. destruct (Z.leb_spec 0 (index_ ch)); [|lia]. by rewrite H2, Z.eqb_refl in Hf.
Qed.

Lemma deref_ok (w : World W) c ch : heap w !! c = Some ch -> deref c w = (Ok ch, w).
Proof. intros H. unfold deref, bind, get. by rewrite H. Qed.

Lemma AssertInLoopThread_ok (w : World W) : thread_id_ (loop w) = this_thread w -> AssertInLoopThread w = (Ok tt, w).
Proof. intros Ht. unfold AssertInLoopThread, bind, get, check, IsInLoopThread. by rewrite Ht, Nat.eqb_refl. Qed.

Lemma change_events_spec k w c ch : good w -> heap w !! c = Some ch -> (0 <=? index_ ch) || fd_free (fd_ ch) (interests w) = true ->
  exists w', change_events (changed k) c w = (Ok tt, w') /\ good w' /\ user w' = user w /\
    interests w' = <[c := mkInterest (fd_ ch) (changed k (events_ ch)) true]> (interests w).
Proof.
  intros Hg Hc Hok. pose proof Hg as [Hi Ht]. destruct (inv_range _ _ Hi _ _ Hc) as [Hfd Hev]. pose proof (changed_range k _ Hev) as Hev'.
  set (e := changed k (events_ ch)) in *. set (ch1 := with_events e ch). set (w1 := set_heap (<[c := ch1]> (heap w)) w).
  assert (E1 : change_events (changed k) c w = UpdateChannel c w1).
  { unfold change_events, deref, store, bind, get, put. rewrite Hc. reflexivity. }
  assert (Hc1 : heap w1 !! c = Some ch1) by (subst w1; apply lookup_insert_eq).
  rewrite E1. unfold UpdateChannel. rewrite (bind_ok _ _ _ tt w1) by (by apply AssertInLoopThread_ok). unfold Poller_UpdateChannel.
  rewrite (bind_ok _ _ _ ch1 w1) by (by apply deref_ok). rewrite (bind_ok _ _ _ (poller_ (loop w)) w1) by done. cbn [index_ fd_ events_ ch1 with_events].
  destruct (Z.leb_spec 0 (index_ ch)) as [Hx|Hx].
  - rewrite (proj2 (Z.ltb_ge _ _)) by done. destruct (inv_at _ _ _ _ Hi Hc Hx) as (x & S1 & S2 & S3).
    rewrite bool_decide_true by congruence. rewrite (bind_ok _ _ _ tt w1) by done. rewrite S1. eexists. split; [reflexivity|].
    unfold IsNoneEvent, kNoneEvent. simpl. rewrite i16_small by done. split; [split; [|done]|split; [done|]].
    + simpl. by apply inv_update.
    + unfold interests. simpl. rewrite fmap_insert. unfold to_interest at 1. simpl. by rewrite (proj2 (Z.leb_le _ _)).
  - rewrite (proj2 (Z.ltb_lt _ _)) by done. simpl in Hok. pose proof (fd_free_spec _ _ Hg Hok) as Hf. rewrite bool_decide_true by done.
    rewrite (bind_ok _ _ _ tt w1) by done. unfold SetIndexInPoller. erewrite bind_ok by (rewrite (bind_ok _ _ _ ch1 w1) by (by apply deref_ok); reflexivity).
    eexists. split; [reflexivity|].
    rewrite length_app. simpl. rewrite i16_small by done. replace (Z.of_nat (length (pollfds_ (poller_ (loop w))) + 1) - 1) with (Z.of_nat (length (pollfds_ (poller_ (loop w))))) by lia.
    split; [split; [|done]|split; [done|]].
    + simpl. assert (Hi1 : inv (<[c := ch1]> (heap w)) (poller_ (loop w))).
      { apply inv_idle; try done. intros ch2 E. assert (ch2 = ch) as -> by congruence. done. }
      apply (inv_register _ _ c ch1 Hi1); try done.
    + unfold interests. simpl. rewrite insert_insert_eq, fmap_insert. unfold to_interest at 1. simpl. by rewrite (proj2 (Z.leb_le _ _)) by lia.
Qed.

Lemma RemoveChannel_spec w c ch : good w -> heap w !! c = Some ch -> 0 <= index_ ch ->
  exists w', Remove c w = (Ok tt, w') /\ good w' /\ user w' = user w /\ interests w' = <[c := mkInterest (fd_ ch) (events_ ch) false]> (interests w).
Proof.
  intros Hg Hc Hx. pose proof Hg as [Hi Ht]. destruct (inv_at _ _ _ _ Hi Hc Hx) as (x & S1 & S2 & S3). pose proof (lookup_lt_Some _ _ _ S1) as Hl.
  unfold Remove, RemoveChannel. rewrite (bind_ok _ _ _ tt w) by (by apply AssertInLoopThread_ok). unfold Poller_RemoveChannel.
  rewrite (bind_ok _ _ _ ch w) by (by apply deref_ok). rewrite (bind_ok _ _ _ (poller_ (loop w)) w) by done.
  rewrite bool_decide_true by congruence. rewrite (bind_ok _ _ _ tt w) by done. cbv zeta.
  destruct (last (pollfds_ (poller_ (loop w)))) as [back|] eqn:Eb; [|apply last_None in Eb; rewrite Eb in Hl; simpl in Hl; lia].
  destruct (Z.eqb_spec (index_ ch) (Z.of_nat (length (pollfds_ (poller_ (loop w)))) - 1)) as [El|El].
  - erewrite bind_ok by reflexivity. unfold SetIndexInPoller. rewrite (bind_ok _ _ _ ch _) by (by apply deref_ok). eexists. split; [reflexivity|].
    split; [split; [|done]|split; [done|]]; simpl; [by apply inv_remove_last|]. unfold interests. simpl. by rewrite fmap_insert.
  - rewrite (proj2 (Z.ltb_ge _ _)) by done. rewrite S1. pose proof Eb as Eb'. rewrite last_lookup in Eb'. destruct (inv_slot _ _ Hi _ _ Eb') as (c' & ch' & T1 & T2 & T3 & T4 & T5).
    assert (Hne : c' <> c) by (intros ->; assert (ch' = ch) as -> by congruence; lia).
    assert (Hfd : slot_fd back <> fd_ ch) by (rewrite <- T3; intros E; apply Hne; eapply (inv_inj _ _ c' ch' c ch); eauto; lia).
    rewrite lookup_delete_ne, T1 by done. unfold SetIndexInPoller.
    erewrite bind_ok by (erewrite bind_ok by (rewrite (bind_ok _ _ _ ch' w) by (by apply deref_ok); reflexivity); reflexivity).
    rewrite (bind_ok _ _ _ ch _) by (apply deref_ok; simpl; by rewrite lookup_insert_ne). eexists. split; [reflexivity|]. split; [split; [|done]|split; [done|]]; simpl.
    + by eapply inv_remove_swap.
    + unfold interests. simpl. rewrite !fmap_insert. f_equal. apply map_eq. intros c1. destruct (decide (c1 = c')) as [->|]; [|by rewrite lookup_insert_ne].
      rewrite lookup_insert_eq, lookup_fmap, T2. simpl. unfold to_interest. simpl. by rewrite !(proj2 (Z.leb_le _ _)) by lia.
Qed.

Lemma run_op_spec o w σ : good w -> spec_op o (interests w) = Some σ ->
  exists w', run_op o w = (Ok tt, w') /\ good w' /\ interests w' = σ /\ user w' = user w.
Proof.
  intros Hg Hs. pose proof Hg as [Hi Ht]. destruct o as [c fd|k c|c|c]; simpl in Hs.
  - destruct (interests w !! c) eqn:E; [done|]. destruct (Z.leb_spec 0 fd) as [Hfd|]; [|done]. injection Hs as <-. eexists. split; [reflexivity|].
    assert (Hn : heap w !! c = None) by (unfold interests in E; rewrite lookup_fmap in E; by destruct (heap w !! c)).
    split; [split; [|done]|split; [|done]]; simpl; [apply inv_idle; try done; intros ch Hc; congruence|]. unfold interests. simpl. by rewrite fmap_insert.
  - destruct (interests w !! c) as [s|] eqn:E; [|done]. apply interests_lookup in E as (ch & Hc & ->). simpl in Hs.
    destruct ((0 <=? index_ ch) || fd_free (fd_ ch) (interests w)) eqn:Eok; [|done]. injection Hs as <-.
    destruct (change_events_spec k w c ch Hg Hc Eok) as (w' & H1 & H2 & H3 & H4). exists w'. split; [|done]. by destruct k.
  - destruct (interests w !! c) as [s|] eqn:E; [|done]. apply interests_lookup in E as (ch & Hc & ->). simpl in Hs.
    destruct (Z.leb_spec 0 (index_ ch)) as [Hx|]; [|done]. injection Hs as <-. destruct (RemoveChannel_spec w c ch Hg Hc Hx) as (w' & H1 & H2 & H3 & H4). eauto.
  - destruct (interests w !! c) as [s|] eqn:E; [|done]. apply interests_lookup in E as (ch & Hc & ->). simpl in Hs.
    destruct (Z.leb_spec 0 (index_ ch)) as [|Hx]; [done|]. injection Hs as <-. eexists. split; [reflexivity|].
    split; [split; [|done]|split; [|done]]; simpl; [apply inv_destroy; [done|]; intros ch' Hc'; assert (ch' = ch) as -> by congruence; done|].
    unfold interests. simpl. by rewrite fmap_delete.
Qed.

(** ** Refinement *)

Lemma NoDup_omap_inj {A B} (f : A -> option B) (l : list A) :
  (forall i j x y b, l !! i = Some x -> l !! j = Some y -> f x = Some b -> f y = Some b -> i = j) -> NoDup (omap f l).
Proof.
  induction l as [|a l IH]; intros Hf; simpl; [constructor|].
  assert (Hl : NoDup (omap f l)) by (apply IH; intros i j x y b Hx Hy Ex Ey; by specialize (Hf (S i) (S j) x y b Hx Hy Ex Ey) as [= ->]).
  destruct (f a) as [b|] eqn:E; [|done]. apply NoDup_cons. split; [|done]. intros Hb. apply list_elem_of_omap in Hb as (x & Hx & Ex).
  apply list_elem_of_lookup in Hx as (i & Hx). by specialize (Hf 0%nat (S i) a x b eq_refl Hx E Ex).
Qed.

Lemma watched_wanted w : good w -> watched w ≡ₚ wanted (interests w).
Proof.
  intros [Hi _]. apply NoDup_Permutation.
  - apply NoDup_omap_inj. intros i j x y [fd e] Hx Hy Ex Ey. repeat case_match; try done. simplify_eq.
    destruct (inv_slot _ _ Hi _ _ Hx) as (c & ch & S1 & S2 & S3 & S4 & _), (inv_slot _ _ Hi _ _ Hy) as (c' & ch' & T1 & T2 & T3 & T4 & _).
    assert (Ef : pf_fd y = pf_fd x) by congruence. assert (Es : slot_fd y = slot_fd x) by (unfold slot_fd; by rewrite Ef). rewrite Es in T1. assert (c' = c) as -> by congruence. assert (ch' = ch) as -> by congruence. lia.
  - apply NoDup_omap_inj. intros i j [c s] [c' s'] [fd e] Hx Hy Ex Ey. apply (NoDup_lookup (map_to_list (interests w)) i j (c, s)); [apply NoDup_map_to_list | exact Hx |]. rewrite Hy. f_equal.
    apply list_elem_of_lookup_2, elem_of_map_to_list in Hx, Hy. simpl in *. pose proof Hx as Hx'. pose proof Hy as Hy'.
    apply interests_lookup in Hx' as (ch & Hc & ->), Hy' as (ch' & Hc' & ->). simpl in *.
    destruct (Z.leb_spec 0 (index_ ch)), (Z.leb_spec 0 (index_ ch')); try done. repeat case_match; try done. simplify_eq.
    assert (c' = c) as -> by (eapply (inv_inj _ _ c' ch' c ch); eauto). congruence.
  - intros [fd e]. unfold watched, wanted. rewrite !list_elem_of_omap. split.
    + intros (x & Hx & Ex). apply list_elem_of_lookup in Hx as (k & Hx). destruct (inv_slot _ _ Hi _ _ Hx) as (c & ch & S1 & S2 & S3 & S4 & S5 & S6).
      destruct (Z.leb_spec 0 (pf_fd x)) as [H0|]; [|done]. destruct (Z.eqb_spec (pf_events x) 0) as [|He]; [done|]. injection Ex as <- <-.
      exists (c, to_interest ch). split; [apply elem_of_map_to_list; unfold interests; by rewrite lookup_fmap, S2|]. simpl.
      rewrite (proj2 (Z.leb_le 0 (index_ ch))) by lia. rewrite <- S5, (proj2 (Z.eqb_neq _ _)) by done. simpl. rewrite S3. unfold slot_fd.
      by rewrite (proj2 (Z.ltb_ge _ _)).
    + intros ([c s] & Hc & Ex). apply elem_of_map_to_list, interests_lookup in Hc as (ch & Hc & ->). simpl in Ex.
      destruct (Z.leb_spec 0 (index_ ch)) as [Hx|]; [|done]. destruct (Z.eqb_spec (events_ ch) 0) as [|He]; [done|]. injection Ex as <- <-.
      destruct (inv_at _ _ _ _ Hi Hc Hx) as (x & S1 & S2 & S3). destruct (inv_slot _ _ Hi _ _ S1) as (c' & ch' & T1 & T2 & T3 & T4 & T5 & T6).
      assert (c' = c) as -> by congruence. assert (ch' = ch) as -> by congruence.
      exists x. split; [by eapply list_elem_of_lookup_2|]. unfold slot_fd in S2. destruct (Z.ltb_spec (pf_fd x) 0); [by specialize (T6 H)|].
      rewrite (proj2 (Z.leb_le _ _)) by done. rewrite T5, (proj2 (Z.eqb_neq _ _)) by done. by rewrite <- S2.
Qed.

(** A loop in its thread, with no channels. *)
Definition fresh_world (thread : nat) (u : W) : World W := mkWorld ∅ (new_EventLoop thread) thread u.

Lemma fresh_good thread u : good (fresh_world thread u).
Proof. split; [|done]. by constructor; simpl; intros *; rewrite ?lookup_nil, ?lookup_empty. Qed.


(** ** Dispatch *)

Definition set_user (u : W) (w : World W) : World W := mkWorld (heap w) (loop w) (this_thread w) u.

(** What a channel should run for [r], in order. *)
Definition callbacks_of (ch : Channel) (r : Z) : list EventCallback :=
  (if has r POLLHUP && negb (has r POLLIN) then option_list (close_callback_ ch) else []) ++
  (if has r (Z.lor POLLERR POLLNVAL) then option_list (error_callback_ ch) else []) ++
  (if has r (Z.lor POLLIN POLLPRI) then option_list (read_callback_ ch) else []) ++
  (if has r POLLOUT then option_list (write_callback_ ch) else []).

(** What [::poll] promises: a count of the descriptors with events, no events on
    negative descriptors. *)
Definition poll_valid (pfds : list pollfd) (r : poll_result) : Prop :=
  match r with
  | PollReady n rs => n = Z.of_nat (length (filter (fun r => 0 < r) rs)) /\ Forall2 (fun x r => 0 <= r /\ (pf_fd x < 0 -> r = 0)) pfds rs
  | PollFailed _ => True
  end.

(** An environment in which callbacks leave the reactor alone and [::poll] works
    as documented. *)
Class CalmEnv := {
  act : EventCallback -> W -> W;
  invoke_calm : forall cb w, invoke cb w = (Ok tt, set_user (act cb (user w)) w);
  poll_documented : forall pfds t w, exists r u, poll pfds t w = (Ok r, set_user u w) /\ poll_valid pfds r;
}.

Context {calm : CalmEnv}.

Definition acts (cbs : list EventCallback) (u : W) : W := foldl (fun u cb => act cb u) u cbs.

Lemma run_if_calm cond callback c w ch : heap w !! c = Some ch ->
  run_if cond callback c w = (Ok tt, set_user (acts (if cond (revents_ ch) then option_list (callback ch) else []) (user w)) w).
Proof.
  intros Hc. unfold run_if. rewrite (bind_ok _ _ _ ch w) by (by apply deref_ok). destruct (cond (revents_ ch)); [|by destruct w].
  destruct (callback ch); simpl; [apply invoke_calm | by destruct w].
Qed.

Lemma HandleEvent_calm c w ch : heap w !! c = Some ch -> HandleEvent c w = (Ok tt, set_user (acts (callbacks_of ch (revents_ ch)) (user w)) w).
Proof.
  intros Hc. unfold HandleEvent, callbacks_of.
  do 3 (erewrite bind_ok by (apply run_if_calm; exact Hc)). erewrite run_if_calm by exact Hc. unfold acts. by rewrite !foldl_app.
Qed.

(** What a slot with events makes the loop do. *)
Definition due_slot (h : gmap nat Channel) (p : Poller) (x : pollfd) : list EventCallback :=
  if 0 <? pf_revents x then match channels_ p !! pf_fd x ≫= (h !!.) with Some ch => callbacks_of ch (pf_revents x) | None => [] end else [].

(** The slots after [::poll] are those of a registered channel, if they have
    events. *)
Definition slots_ok (h : gmap nat Channel) (p : Poller) (pfds : list pollfd) : Prop :=
  NoDup (pf_fd <$> pfds) /\ Forall (fun x => 0 < pf_revents x -> exists c ch, channels_ p !! pf_fd x = Some c /\ h !! c = Some ch) pfds /\
  (forall a b c, channels_ p !! a = Some c -> channels_ p !! b = Some c -> a = b).

Lemma fill_spec pfds (w : World W) : slots_ok (heap w) (poller_ (loop w)) pfds ->
  exists cs h, FillActiveChannels (Z.of_nat (length (filter (fun x => 0 < pf_revents x) pfds))) pfds w = (Ok cs, set_heap h w) /\
    (forall c, (forall x, x ∈ pfds -> 0 < pf_revents x -> channels_ (poller_ (loop w)) !! pf_fd x <> Some c) -> h !! c = heap w !! c) /\
    (forall c, exists r, h !! c = with_revents r <$> heap w !! c) /\
    Forall (fun c => is_Some (h !! c)) cs /\
    concat ((fun c => match h !! c with Some ch => callbacks_of ch (revents_ ch) | None => [] end) <$> cs) =
    concat (due_slot (heap w) (poller_ (loop w)) <$> pfds).
Proof.
  revert w. induction pfds as [|x pfds IH]; intros w (Hn & Hf & Hinj).
  { exists [], (heap w). split; [by destruct w|]. split_and!; try done. intros c. destruct (heap w !! c) as [ch|] eqn:E; [|by exists 0].
    exists (revents_ ch). by destruct ch. }
  cbn [fmap list_fmap] in Hn. apply NoDup_cons in Hn as [Hx Hn]. apply Forall_cons in Hf as [Hfx Hf]. cbn [FillActiveChannels]. rewrite filter_cons. case_decide as Hr.
  - rewrite (proj2 (Z.leb_gt _ _)) by (simpl; lia). rewrite (proj2 (Z.ltb_lt _ _)) by done. destruct (Hfx Hr) as (c & ch & H1 & H2).
    rewrite (bind_ok _ _ _ (poller_ (loop w)) w) by done. rewrite H1. unfold SetRevents.
    set (w1 := set_heap (<[c := with_revents (pf_revents x) ch]> (heap w)) w).
    rewrite (bind_ok _ _ _ tt w1) by (rewrite (bind_ok _ _ _ ch w) by (by apply deref_ok); reflexivity).
    destruct (IH w1) as (cs & h & E & Hk & Hre & Hall & Hdue).
    { split_and!; [done | | done]. eapply Forall_impl; [exact Hf|]. intros y Hy Hr'. destruct (Hy Hr') as (c1 & ch1 & K1 & K2). exists c1.
      subst w1. simpl. destruct (decide (c = c1)) as [->|]; [rewrite lookup_insert_eq; eauto | rewrite lookup_insert_ne by done; eauto]. }
    replace (Z.of_nat _ - 1) with (Z.of_nat (length (filter (fun y => 0 < pf_revents y) pfds))) by (simpl; lia).
    rewrite (bind_ok _ _ _ _ _ E). exists (c :: cs), h. split; [done|].
    assert (Hc : h !! c = Some (with_revents (pf_revents x) ch)).
    { rewrite Hk; [subst w1; apply lookup_insert_eq|]. intros y Hy _ Hc. apply Hx. rewrite (Hinj _ _ _ H1 Hc). by apply list_elem_of_fmap_2. }
    split_and!.
    + intros c1 Hc1. rewrite Hk; [|intros y Hy; apply Hc1; by right]. subst w1. simpl. rewrite lookup_insert_ne; [done|]. intros <-. apply (Hc1 x); [left | done | done].
    + intros c1. destruct (Hre c1) as (r & Er). subst w1. simpl in Er. destruct (decide (c = c1)) as [<-|Hne].
      * rewrite lookup_insert_eq in Er. exists r. by rewrite Er, H2.
      * rewrite lookup_insert_ne in Er by done. eauto.
    + constructor; [by rewrite Hc | done].
    + cbn [fmap list_fmap concat]. rewrite Hc. f_equal.
      * unfold due_slot. rewrite (proj2 (Z.ltb_lt _ _)), H1 by done. simpl. by rewrite H2.
      * rewrite Hdue. f_equal. apply list_fmap_ext. intros k y Hy. unfold due_slot. destruct (0 <? pf_revents y); [|done]. subst w1. simpl.
        destruct (channels_ (poller_ (loop w)) !! pf_fd y) as [c1|] eqn:Ec; [|done]. simpl. destruct (decide (c = c1)) as [<-|]; [|by rewrite lookup_insert_ne].
        exfalso. apply Hx. rewrite (Hinj _ _ _ H1 Ec). eapply list_elem_of_fmap_2, list_elem_of_lookup_2, Hy.
  - assert (Hzero : due_slot (heap w) (poller_ (loop w)) x = []) by (unfold due_slot; by rewrite (proj2 (Z.ltb_ge _ _)) by lia).
    destruct (IH w) as (cs & h & E & Hk & Hre & Hall & Hdue); [done|]. destruct (Z.leb_spec (Z.of_nat (length (filter (fun y => 0 < pf_revents y) pfds))) 0) as [Hz|Hz].
    + assert (En : filter (fun y => 0 < pf_revents y) pfds = []) by (destruct (filter _ pfds); [done | simpl in Hz; lia]).
      assert (E0 : FillActiveChannels (Z.of_nat (length (filter (fun y => 0 < pf_revents y) pfds))) pfds w = (Ok [], w)) by (rewrite En; by destruct pfds).
      rewrite E in E0. injection E0 as -> Eh. exists [], h. split; [by rewrite Eh|]. split_and!; try done.
      * intros c Hc. apply Hk. intros y Hy. apply Hc. by right.
      * cbn [fmap list_fmap concat]. by rewrite Hzero, <- Hdue.
    + rewrite (proj2 (Z.ltb_ge _ _)) by lia. exists cs, h. split; [done|]. split_and!; try done.
      * intros c Hc. apply Hk. intros y Hy. apply Hc. by right.
      * cbn [fmap list_fmap concat]. by rewrite Hzero, <- Hdue.
Qed.

Lemma handle_all_calm cs w : Forall (fun c => is_Some (heap w !! c)) cs ->
  handle_all cs w = (Ok tt, set_user (acts (concat ((fun c => match heap w !! c with Some ch => callbacks_of ch (revents_ ch) | None => [] end) <$> cs)) (user w)) w).
Proof.
  intros Hf. revert w Hf. induction cs as [|c cs IH]; intros w Hf; [by destruct w|]. apply Forall_cons in Hf as [[ch Hc] Hf].
  cbn [handle_all]. rewrite (bind_ok _ _ _ _ _ (HandleEvent_calm c w ch Hc)). rewrite IH by done. cbn [fmap list_fmap concat]. rewrite Hc.
  unfold acts. by rewrite foldl_app.
Qed.

(** The invariant and the interests do not depend on the events that occurred. *)
Lemma inv_revents h p h' l : inv h p -> Forall2 (fun x y => pf_fd y = pf_fd x /\ pf_events y = pf_events x) (pollfds_ p) l ->
  (forall c, exists r, h' !! c = with_revents r <$> h !! c) -> inv h' (mkPoller l (channels_ p)).
Proof.
  intros Hi Hl Hh. assert (Hup : forall c ch, h !! c = Some ch -> exists r, h' !! c = Some (with_revents r ch)).
  { intros c ch Hc. destruct (Hh c) as (r & E). rewrite Hc in E. eauto. }
  assert (Hdown : forall c ch', h' !! c = Some ch' -> exists r ch, h !! c = Some ch /\ ch' = with_revents r ch).
  { intros c ch' Hc. destruct (Hh c) as (r & E). rewrite Hc in E. destruct (h !! c) as [ch|]; [|done]. simpl in E. injection E as ->. eauto. }
  constructor; simpl.
  - intros k y Hy. destruct (Forall2_lookup_r _ _ _ _ _ Hl Hy) as (x & Hx & E1 & E2). destruct (inv_slot _ _ Hi _ _ Hx) as (c & ch & S1 & S2 & S3 & S4 & S5 & S6).
    destruct (Hup _ _ S2) as (r & Hr). exists c, (with_revents r ch). unfold slot_fd in *. rewrite E1, E2. by split_and!.
  - intros fd c Hr. destruct (inv_reg _ _ Hi _ _ Hr) as (ch & x & S1 & S2 & S3 & S4 & S5). destruct (Hup _ _ S1) as (r & Hr').
    destruct (Forall2_lookup_l _ _ _ _ _ Hl S4) as (y & Hy & E1 & E2). exists (with_revents r ch), y. unfold slot_fd in *. rewrite E1. by split_and!.
  - intros c ch' Hc Hx. destruct (Hdown _ _ Hc) as (r & ch & Hc' & ->). by apply (inv_index _ _ Hi _ _ Hc').
  - intros c ch' Hc. destruct (Hdown _ _ Hc) as (r & ch & Hc' & ->). by apply (inv_range _ _ Hi _ _ Hc').
Qed.

(** The slots as [::poll] leaves them. *)
Definition with_events_of (p : Poller) (rs : list Z) : list pollfd := zip_with (fun x r => mkPollfd (pf_fd x) (pf_events x) r) (pollfds_ p) rs.

Lemma with_events_same p rs (P : pollfd -> Z -> Prop) : Forall2 P (pollfds_ p) rs ->
  Forall2 (fun x y => pf_fd y = pf_fd x /\ pf_events y = pf_events x) (pollfds_ p) (with_events_of p rs).
Proof. intros H. unfold with_events_of. induction H; simpl; by constructor. Qed.

Lemma slots_ok_polled h p rs : inv h p -> Forall2 (fun x r => 0 <= r /\ (pf_fd x < 0 -> r = 0)) (pollfds_ p) rs ->
  slots_ok h (mkPoller (with_events_of p rs) (channels_ p)) (with_events_of p rs).
Proof.
  intros Hi Hrs. pose proof (with_events_same p rs _ Hrs) as Hs. split_and!; simpl.
  - apply NoDup_alt. intros i j fd Hx Hy. apply list_lookup_fmap_Some in Hx as (x & Ex & Hx), Hy as (y & Ey & Hy).
    destruct (Forall2_lookup_r _ _ _ _ _ Hs Hx) as (x0 & Hx0 & E1 & _), (Forall2_lookup_r _ _ _ _ _ Hs Hy) as (y0 & Hy0 & E2 & _).
    destruct (inv_slot _ _ Hi _ _ Hx0) as (c & ch & S1 & S2 & S3 & S4 & _), (inv_slot _ _ Hi _ _ Hy0) as (c' & ch' & T1 & T2 & T3 & T4 & _).
    assert (Ef : pf_fd y0 = pf_fd x0) by congruence. assert (Es : slot_fd y0 = slot_fd x0) by (unfold slot_fd; by rewrite Ef).
    rewrite Es in T1. assert (c' = c) as -> by congruence. assert (ch' = ch) as -> by congruence. lia.
  - apply Forall_forall. intros y Hy Hr. apply list_elem_of_lookup in Hy as (k & Hy). unfold with_events_of in Hy. rewrite lookup_zip_with_Some in Hy.
    destruct Hy as (x & r & -> & Hx & Hr'). simpl in *. destruct (Forall2_lookup_lr _ _ _ _ _ _ Hrs Hx Hr') as [_ Hneg].
    destruct (inv_slot _ _ Hi _ _ Hx) as (c & ch & S1 & S2 & _). unfold slot_fd in S1. destruct (Z.ltb_spec (pf_fd x) 0); [specialize (Hneg H); lia | eauto].
  - intros a b c Ha Hb. destruct (inv_reg _ _ Hi _ _ Ha) as (ch & x & S1 & S2 & _), (inv_reg _ _ Hi _ _ Hb) as (ch' & x' & T1 & T2 & _). congruence.
Qed.

Lemma polled_count p rs : Forall2 (fun x r => 0 <= r /\ (pf_fd x < 0 -> r = 0)) (pollfds_ p) rs ->
  length (filter (fun r => 0 < r) rs) = length (filter (fun x => 0 < pf_revents x) (with_events_of p rs)).
Proof.
  intros H. unfold with_events_of. induction H as [|x r l rs _ _ IH]; [done|]. simpl. rewrite !filter_cons. simpl. repeat case_decide; simpl; try done. by rewrite IH.
Qed.

(** The callbacks that are due after an answer of [::poll]. *)
Definition due (w : World W) (r : poll_result) : list EventCallback :=
  let p := poller_ (loop w) in
  match r with
  | PollReady _ rs => concat (due_slot (heap w) p <$> with_events_of p rs)
  | PollFailed _ => []
  end.


End Spec.

(** ** A program on the reactor *)

(** [::poll] finds every descriptor ready for what it is watched for. *)
Definition demo_revents (x : pollfd) : Z := if 0 <=? pf_fd x then Z.max 0 (pf_events x) else 0.
Definition demo_poll (pfds : list pollfd) : poll_result :=
  PollReady (Z.of_nat (length (filter (fun r => 0 < r) (demo_revents <$> pfds)))) (demo_revents <$> pfds).

(** Callbacks write a log. *)
#[local] Instance demo_env : Env (list nat) := {|
  invoke := fun cb w => (Ok tt, set_user (user w ++ [cb]) w);
  poll := fun pfds _ w => (Ok (demo_poll pfds), w);
|}.

#[local] Program Instance demo_calm : CalmEnv (W := list nat) := {| act := fun cb u => u ++ [cb] |}.
Next Obligation. done. Qed.
Next Obligation.
  intros pfds t w. eexists _, (user w). split; [by destruct w|]. split; [done|]. apply Forall2_fmap_r, Forall_Forall2_diag, Forall_forall.
  intros x _. simpl. unfold demo_revents. destruct (Z.leb_spec 0 (pf_fd x)); split; lia.
Qed.

Definition demo_ops : list op :=
  [NewChannel 1 5; NewChannel 2 7; NewChannel 3 9; Change ReadOn 1; Change WriteOn 2; Change ReadOn 3; RemoveIt 1; Change AllOff 2; DestroyIt 1; Change WriteOn 3].


Definition demo_channel : Channel := mkChannel 5 3 0 0 (Some 42%nat) None None None.
Definition demo_world : World (list nat) := mkWorld {[1%nat := demo_channel]} (mkLoop true false 0 (mkPoller [mkPollfd 5 3 0] {[5 := 1%nat]}) []) 0 [].

Lemma demo_good : good demo_world.
Proof.
  split; [|done]. constructor; simpl.
  - intros [|k] x Hx; [|by destruct k]. injection Hx as <-. exists 1%nat, demo_channel. by split_and!.
  - intros fd c Hr. apply lookup_singleton_Some in Hr as [<- <-]. by exists demo_channel, (mkPollfd 5 3 0).
  - intros c ch Hc _. apply lookup_singleton_Some in Hc as [<- <-]. done.
  - intros c ch Hc. apply lookup_singleton_Some in Hc as [<- <-]. done.
Qed.


(** *** Pointers that outlive their channels *)

(** Two channels are ready, and the first one's callback destroys the second one,
    by the rules: it is removed from the loop first. The loop still has its
    pointer in [active_channels_] and follows it. *)
Lemma dispatch_dangling : let env := {| invoke := fun cb => bind (run_op (RemoveIt 2)) (fun _ => run_op (DestroyIt 2)); poll := @poll _ demo_env |} in
  let w := mkWorld {[1%nat := mkChannel 5 3 0 0 (Some 1%nat) None None None; 2%nat := mkChannel 7 3 0 1 None None None None]}
             (mkLoop true false 0 (mkPoller [mkPollfd 5 3 0; mkPollfd 7 3 0] {[5 := 1%nat; 7 := 2%nat]}) []) 0 [] in
  (turn (Env0 := env) w).1 = Fail (Undefined "dangling channel").
Proof. vm_compute. reflexivity. Qed.
