(* ===== verification/BoundedQueue.v ===== *)
(** * The bounded queue

    Models [Base/BoundedQueue.h]: a list behind one mutex and one condition
    variable, for any number of threads. A thread holds the mutex from the
    moment it gets it until it waits or returns, so what it does in between is
    one step. *)

From stdpp Require Import list.
From S2P Require Import Prelude.
Open Scope Z_scope.

Section Queue.

Context {A : Type}.

Record BoundedQueue := mkQueue { queue_ : list A; capacity_ : Z }.

(** [size_t] of the length. *)
Definition size (q : BoundedQueue) : Z := Z.of_nat (length (queue_ q)).

Definition IsFull (q : BoundedQueue) : bool := capacity_ q <=? size q.

(** One turn of [PushBack] with the mutex: [None] when it waits. *)
Definition PushBack (element : A) (q : BoundedQueue) : option BoundedQueue :=
  if capacity_ q <=? size q then None else Some (mkQueue (queue_ q ++ [element]) (capacity_ q)).

(** One turn of [Pop], with the argument [element_ret] and what it holds after. *)
Definition Pop (element_ret : A) (q : BoundedQueue) : option (A * BoundedQueue) :=
  match queue_ q with
  | [] => None
  | _ => Some (element_ret, mkQueue (removelast (queue_ q)) (capacity_ q))
  end.

(** ** Threads *)

Inductive call := CallPush (a : A) | CallPop (element_ret : A).

(** A thread wants the mutex, waits on the condition, or has returned; the last
    also with what its argument holds. *)
Inductive thread := Ready (c : call) | Waiting (c : call) | Done (c : call) (element : A).

Record state := mkState { queue : BoundedQueue; threads : list thread }.

(** [notify_one]: some waiting thread, if there is one, goes for the mutex. *)
Inductive notify_one : list thread -> list thread -> Prop :=
| notify_some ts i c : ts !! i = Some (Waiting c) -> notify_one ts (<[i := Ready c]> ts)
| notify_none ts : (forall i c, ts !! i <> Some (Waiting c)) -> notify_one ts ts.

Inductive step : state -> state -> Prop :=
| step_push q q' ts ts' i a : ts !! i = Some (Ready (CallPush a)) -> PushBack a q = Some q' ->
    notify_one (<[i := Done (CallPush a) a]> ts) ts' -> step (mkState q ts) (mkState q' ts')
| step_pop q q' ts ts' i e e' : ts !! i = Some (Ready (CallPop e)) -> Pop e q = Some (e', q') ->
    notify_one (<[i := Done (CallPop e) e']> ts) ts' -> step (mkState q ts) (mkState q' ts')
| step_push_wait q ts i a : ts !! i = Some (Ready (CallPush a)) -> PushBack a q = None ->
    step (mkState q ts) (mkState q (<[i := Waiting (CallPush a)]> ts))
| step_pop_wait q ts i e : ts !! i = Some (Ready (CallPop e)) -> Pop e q = None ->
    step (mkState q ts) (mkState q (<[i := Waiting (CallPop e)]> ts)).

(** Waits may also end without a notification. *)
Inductive wakes : state -> state -> Prop :=
| spurious q ts i c : ts !! i = Some (Waiting c) -> wakes (mkState q ts) (mkState q (<[i := Ready c]> ts)).

Definition moves (s s' : state) : Prop := step s s' \/ wakes s s'.

(** ** What holds in every run *)

(** The calls that have returned. *)
Definition pushed (ts : list thread) : list A := omap (fun t => match t with Done (CallPush a) _ => Some a | _ => None end) ts.
Definition popped (ts : list thread) : list A := omap (fun t => match t with Done (CallPop _) e => Some e | _ => None end) ts.

(** The queue is within its bounds and accounts for the calls that returned. *)
Definition accounts (s : state) : Prop :=
  size (queue s) <= capacity_ (queue s) /\
  (length (queue_ (queue s)) + length (popped (threads s)) = length (pushed (threads s)))%nat /\
  (forall a, a ∈ queue_ (queue s) -> a ∈ pushed (threads s)).

(** A thread that has not returned counts for nothing. *)
Definition idle (t : thread) : bool := match t with Done _ _ => false | _ => true end.

Lemma omap_insert {B} (f : thread -> option B) ts i t t' : ts !! i = Some t -> f t = None ->
  omap f (<[i := t']> ts) ≡ₚ option_list (f t') ++ omap f ts.
Proof.
  revert i. induction ts as [|x ts IH]; intros [|i] Hi Ht; simpl in *; try done.
  - injection Hi as ->. rewrite Ht. by destruct (f t').
  - destruct (f x) as [b|]; [|by apply IH]. rewrite IH by done. by rewrite Permutation_middle.
Qed.

Lemma idle_counts ts i t t' : ts !! i = Some t -> idle t = true -> idle t' = true ->
  pushed (<[i := t']> ts) ≡ₚ pushed ts /\ popped (<[i := t']> ts) ≡ₚ popped ts.
Proof. intros Hi Ht Ht'. unfold pushed, popped. rewrite !(omap_insert _ ts i t t') by (try done; by destruct t). by destruct t'. Qed.

(** A call that returns counts once. *)
Lemma done_counts ts i c e : ts !! i = Some (Ready c) ->
  pushed (<[i := Done c e]> ts) ≡ₚ match c with CallPush a => a :: pushed ts | CallPop _ => pushed ts end /\
  popped (<[i := Done c e]> ts) ≡ₚ match c with CallPush _ => popped ts | CallPop _ => e :: popped ts end.
Proof. intros Hi. unfold pushed, popped. rewrite !(omap_insert _ ts i (Ready c) (Done c e)) by done. by destruct c. Qed.

Lemma notify_counts ts ts' : notify_one ts ts' -> pushed ts' ≡ₚ pushed ts /\ popped ts' ≡ₚ popped ts.
Proof. intros [? i c Hi|]; [by eapply idle_counts | done]. Qed.

Lemma accounts_idle q ts ts' : pushed ts' ≡ₚ pushed ts -> popped ts' ≡ₚ popped ts -> accounts (mkState q ts) -> accounts (mkState q ts').
Proof.
  intros H1 H2 (B1 & B2 & B3). split; [done|]. simpl in *. split; [by rewrite (Permutation_length H1), (Permutation_length H2)|].
  intros a Ha. rewrite H1. auto.
Qed.

Lemma size_snoc q a : size (mkQueue (queue_ q ++ [a]) (capacity_ q)) = size q + 1.
Proof. unfold size. simpl. rewrite length_app. simpl. lia. Qed.

Lemma moves_accounts s s' : accounts s -> moves s s' -> accounts s'.
Proof.
  intros Ha Hm. revert Ha. destruct Hm as [[q q' ts ts' i a Hi Hp Hn|q q' ts ts' i e e' Hi Hp Hn|q ts i a Hi Hp|q ts i e Hi Hp]|[q ts i c Hi]]; intros Ha.
  - unfold PushBack in Hp. destruct (Z.leb_spec (capacity_ q) (size q)) as [|Hlt]; [done|]. injection Hp as <-. apply notify_counts in Hn as [N1 N2].
    eapply accounts_idle; [exact N1 | exact N2 |]. destruct Ha as (B1 & B2 & B3). simpl in *.
    destruct (done_counts ts i (CallPush a) a Hi) as [E1 E2].
    unfold accounts. simpl. rewrite size_snoc, length_app, (Permutation_length E1), (Permutation_length E2). simpl. split_and!; [lia | lia|].
    intros b Hb. rewrite E1. apply elem_of_app in Hb as [Hb|Hb]; [right; auto | apply list_elem_of_singleton in Hb as ->; left].
  - unfold Pop in Hp. destruct (exists_last (l := queue_ q)) as (l & x & El); [by destruct (queue_ q)|]. rewrite El, removelast_last in Hp.
    destruct (l ++ [x]) eqn:Ex; [done|]. injection Hp as <- <-. apply notify_counts in Hn as [N1 N2].
    eapply accounts_idle; [exact N1 | exact N2 |]. destruct Ha as (B1 & B2 & B3). unfold accounts, size in *. simpl in *. rewrite El, <- Ex in *. rewrite length_app in *. simpl in *.
    destruct (done_counts ts i (CallPop e) e Hi) as [E1 E2].
    rewrite (Permutation_length E1), (Permutation_length E2). simpl. split_and!; [lia | lia|]. intros b Hb. rewrite E1. apply B3, elem_of_app. by left.
  - destruct (idle_counts ts i (Ready (CallPush a)) (Waiting (CallPush a))) as [N1 N2]; [done..|]. by eapply accounts_idle.
  - destruct (idle_counts ts i (Ready (CallPop e)) (Waiting (CallPop e))) as [N1 N2]; [done..|]. by eapply accounts_idle.
  - destruct (idle_counts ts i (Waiting c) (Ready c)) as [N1 N2]; [done..|]. by eapply accounts_idle.
Qed.

(** A queue in which nothing has happened yet. *)
Definition fresh_queue (n : Z) (cs : list call) : state := mkState (mkQueue [] n) (Ready <$> cs).

(** C39. However the threads are scheduled and whoever is woken up, with or
    without reason, the queue never holds more than its capacity, it holds as
    many elements as pushes have returned and pops have not, and only elements
    that were pushed. *)
Theorem queue_accounts (n : Z) (cs : list call) (s : state) : 0 <= n -> rtc moves (fresh_queue n cs) s -> accounts s.
Proof.
  intros Hn. remember (fresh_queue n cs) as s0 eqn:E0. intros Hr.
  assert (H0 : accounts s0); [|clear E0; induction Hr as [|s1 s2 s3 Hm _ IH]; [done | by eapply IH, moves_accounts]].
  subst s0. unfold accounts, fresh_queue, size. simpl.
  assert (E : pushed (Ready <$> cs) = [] /\ popped (Ready <$> cs) = []) by (clear; by induction cs as [|c cs IH]).
  destruct E as [-> ->]. split_and!; [done | done |]. by intros a ?%not_elem_of_nil.
Qed.

(** [Pop] returns [true], but its argument keeps what it held: the element that
    is removed is lost, and it is the newest, not the oldest. *)
Lemma Pop_loses_element (l : list A) (x e : A) (n : Z) : Pop e (mkQueue (l ++ [x]) n) = Some (e, mkQueue l n).
Proof. unfold Pop. simpl. rewrite removelast_last. by destruct l. Qed.

End Queue.

Arguments call : clear implicits.
Arguments thread : clear implicits.
Arguments state : clear implicits.

Lemma queue_accounts_witness : accounts (mkState (mkQueue [] 1) [Done (CallPush 7) 7; Done (CallPop 0) 0]).
Proof.
  apply (queue_accounts 1 [CallPush 7; CallPop 0]); [done|]. unfold fresh_queue; simpl.
  eapply rtc_l; [left; eapply (step_pop_wait _ _ 1 0); done|].
  eapply rtc_l; [left; eapply (step_push _ _ _ _ 0 7); [done | done |]; eapply (notify_some _ 1); done|].
  eapply rtc_l; [left; eapply (step_pop _ _ _ _ 1 0 0); [done | done |]; apply notify_none; intros [|[|[]]] c; done|]. done.
Defined.

(** One condition variable serves both directions, and [notify_one] may choose a
    thread that cannot go on: with two producers, two consumers and room for one
    element, a producer and a consumer can end up waiting for ever although the
    queue is empty. *)
Lemma queue_lost_wakeup : exists s, rtc step (fresh_queue 1 [CallPush 1; CallPush 2; CallPop 0; CallPop 0]) s /\
  queue_ (queue s) = [] /\ threads s = [Done (CallPush 1) 1; Waiting (CallPush 2); Done (CallPop 0) 0; Waiting (CallPop 0)] /\ forall s', ~ step s s'.
Proof.
  exists (mkState (mkQueue [] 1) [Done (CallPush 1) 1; Waiting (CallPush 2); Done (CallPop 0) 0; Waiting (CallPop 0)]). split; [|split; [|split; [reflexivity|]]].
  - unfold fresh_queue; simpl. eapply rtc_l; [eapply (step_pop_wait _ _ 2 0); done|]. eapply rtc_l; [eapply (step_pop_wait _ _ 3 0); done|].
    eapply rtc_l; [eapply (step_push _ _ _ _ 0 1); [done | done |]; eapply (notify_some _ 2); done|].
    eapply rtc_l; [eapply (step_push_wait _ _ 1 2); done|].
    eapply rtc_l; [eapply (step_pop _ _ _ _ 2 0 0); [done | done |]; eapply (notify_some _ 3); done|].
    eapply rtc_l; [eapply (step_pop_wait _ _ 3 0); done|]. apply rtc_refl.
  - done.
  - intros s' Hs. inversion Hs as [? ? ? ? i ? Hi|? ? ? ? i ? ? Hi|? ? i ? Hi|? ? i ? Hi]; subst; destruct i as [|[|[|[|i]]]]; simpl in Hi; discriminate Hi.
Qed.
