(* ===== verification/LatchSpec.v ===== *)
(** * The reader-writer latch between threads

    Models [Base/ReaderWriterLatch.h] as the monitor it is: one mutex, the
    conditions [reader_] and [writer_], and any number of threads that enter and
    leave critical sections. A thread holds the mutex from the moment it gets it
    until it waits or returns, so what it does in between is one step. Module
    [Latch] of [BufferPool] is the same latch for one thread, where waiting means
    to wait for ever. *)

From stdpp Require Import list relations.
From S2P Require Import Prelude Replacer BufferPool.
Open Scope Z_scope.

(** ** Turns with the mutex *)

(** Where a thread is: about to take the mutex in [RLock] or [WLock], waiting on
    [reader_], past the first loop of [WLock], waiting on [writer_], or inside
    the critical section. *)
Inductive phase := Wants | WaitReader | Entered | WaitWriter | Inside.

#[global] Instance phase_eq_dec : EqDecision phase.
Proof. solve_decision. Defined.

Inductive mode := Read | Write.

(** The condition of the second loop of [WLock]. *)
Definition WLock_again (l : Latch.ReaderWriterLatch) : phase :=
  if 0 <? Latch.reader_count l then WaitWriter else Inside.

Definition WLock_turn (l : Latch.ReaderWriterLatch) : phase * Latch.ReaderWriterLatch :=
  if Latch.writer_entered l then (WaitReader, l)
  else let l := Latch.mkLatch (Latch.reader_count l) true in (WLock_again l, l).

Definition RLock_turn (l : Latch.ReaderWriterLatch) : phase * Latch.ReaderWriterLatch :=
  if Latch.writer_entered l || (Latch.reader_count l =? Latch.MAX_READERS) then (WaitReader, l)
  else (Inside, Latch.mkLatch (u32 (Latch.reader_count l + 1)) (Latch.writer_entered l)).

(** For a thread alone, not to get inside at once is to block. *)
Lemma turns_alone l :
  Latch.RLock l = (match RLock_turn l with (Inside, l') => Ok l' | _ => Fail Blocked end) /\
  Latch.WLock l = (match WLock_turn l with (Inside, l') => Ok l' | _ => Fail Blocked end).
Proof.
  unfold Latch.RLock, RLock_turn, Latch.WLock, WLock_turn, WLock_again. split; [by destruct (_ || _)|].
  destruct (Latch.writer_entered l); [done|]. simpl. by destruct (0 <? Latch.reader_count l).
Qed.

(** ** Threads *)

(** A thread and the critical sections it has still to go through, the current
    one first. *)
Record thread := mkThread { at_phase : phase; todo : list mode }.

Record state := mkState { latch : Latch.ReaderWriterLatch; threads : list thread }.

Definition to_phase (p : phase) (t : thread) : thread := mkThread p (todo t).

(** [notify_one]: some thread waiting in [from], if there is one, goes on at [to]. *)
Inductive notify_one (from to : phase) : list thread -> list thread -> Prop :=
| notify_some ts i t : ts !! i = Some t -> at_phase t = from -> notify_one from to ts (<[i := to_phase to t]> ts)
| notify_none ts : (forall i t, ts !! i = Some t -> at_phase t <> from) -> notify_one from to ts ts.

(** [reader_.notify_all()] *)
Definition wake_reader (t : thread) : thread := if decide (at_phase t = WaitReader) then to_phase Wants t else t.

(** The notifications of [RUnlock], with the latch as it leaves it. *)
Definition RUnlock_notifies (l : Latch.ReaderWriterLatch) (ts ts' : list thread) : Prop :=
  if Latch.writer_entered l then
    if Latch.reader_count l =? 0 then notify_one WaitWriter Entered ts ts' else ts' = ts
  else
    if Latch.reader_count l =? Latch.MAX_READERS - 1 then notify_one WaitReader Wants ts ts' else ts' = ts.

Inductive step : state -> state -> Prop :=
| step_rlock l l' ts i p ms : ts !! i = Some (mkThread Wants (Read :: ms)) -> RLock_turn l = (p, l') ->
    step (mkState l ts) (mkState l' (<[i := mkThread p (Read :: ms)]> ts))
| step_wlock l l' ts i p ms : ts !! i = Some (mkThread Wants (Write :: ms)) -> WLock_turn l = (p, l') ->
    step (mkState l ts) (mkState l' (<[i := mkThread p (Write :: ms)]> ts))
| step_again l ts i ms : ts !! i = Some (mkThread Entered (Write :: ms)) ->
    step (mkState l ts) (mkState l (<[i := mkThread (WLock_again l) (Write :: ms)]> ts))
| step_runlock l ts ts' i ms : ts !! i = Some (mkThread Inside (Read :: ms)) ->
    RUnlock_notifies (Latch.RUnlock l) (<[i := mkThread Wants ms]> ts) ts' ->
    step (mkState l ts) (mkState (Latch.RUnlock l) ts')
| step_wunlock l ts i ms : ts !! i = Some (mkThread Inside (Write :: ms)) ->
    step (mkState l ts) (mkState (Latch.WUnlock l) (wake_reader <$> <[i := mkThread Wants ms]> ts)).

(** Waits may also end without a notification. *)
Inductive wakes : state -> state -> Prop :=
| wakes_reader l ts i t : ts !! i = Some t -> at_phase t = WaitReader -> wakes (mkState l ts) (mkState l (<[i := to_phase Wants t]> ts))
| wakes_writer l ts i t : ts !! i = Some t -> at_phase t = WaitWriter -> wakes (mkState l ts) (mkState l (<[i := to_phase Entered t]> ts)).

Definition moves (s s' : state) : Prop := step s s' \/ wakes s s'.

(** A new latch, and threads that have not begun. *)
Definition new_state (scripts : list (list mode)) : state := mkState Latch.unlocked (mkThread Wants <$> scripts).

Definition finished (s : state) : Prop := forall t, t ∈ threads s -> t = mkThread Wants [].

(** ** Counting threads *)

Definition sum (f : thread -> Z) (ts : list thread) : Z := foldr (fun t n => f t + n) 0 ts.
Definition count (P : thread -> bool) (ts : list thread) : Z := foldr (fun t n => Z.b2z (P t) + n) 0 ts.

Lemma sum_insert f ts i t t' : ts !! i = Some t -> sum f (<[i := t']> ts) = sum f ts - f t + f t'.
Proof.
  revert i. induction ts as [|x ts IH]; intros [|i] Hi; simpl in *; try done; [injection Hi as ->; lia|]. rewrite (IH i Hi). lia.
Qed.

Lemma count_insert P ts i t t' : ts !! i = Some t -> count P (<[i := t']> ts) = count P ts - Z.b2z (P t) + Z.b2z (P t').
Proof. exact (sum_insert (fun t => Z.b2z (P t)) ts i t t'). Qed.

Lemma count_bound P ts : 0 <= count P ts <= Z.of_nat (length ts).
Proof. induction ts as [|t ts IH]; simpl; [lia|]. destruct (P t); simpl; lia. Qed.

Lemma count_le P Q ts : (forall t, P t = true -> Q t = true) -> count P ts <= count Q ts.
Proof.
  intros H. induction ts as [|t ts IH]; simpl; [lia|]. specialize (H t). destruct (P t), (Q t); simpl; (lia || by specialize (H eq_refl)).
Qed.

Lemma count_zero P ts : count P ts = 0 <-> forall i t, ts !! i = Some t -> P t = false.
Proof.
  induction ts as [|t ts IH]; simpl; [by split; [intros _ i t Hi|]|]. pose proof (count_bound P ts). split.
  - intros Hc [|i] t' Hi; simpl in Hi; destruct (P t) eqn:Ep; simpl in Hc; try lia; [by injection Hi as <-|].
    destruct IH as [IH _]. eapply IH; [lia | done].
  - intros Hi. rewrite (Hi 0%nat t eq_refl). simpl. apply IH. intros i t' Hi'. by apply (Hi (S i)).
Qed.

Lemma count_pos P ts i t : ts !! i = Some t -> P t = true -> 0 < count P ts.
Proof.
  intros Hi Ht. pose proof (count_bound P ts). enough (count P ts <> 0) by lia. intros Hz. apply count_zero with (i := i) (t := t) in Hz; congruence.
Qed.

Lemma count_find P ts : 0 < count P ts -> exists i t, ts !! i = Some t /\ P t = true.
Proof.
  induction ts as [|t ts IH]; simpl; [lia|]. destruct (P t) eqn:Ep; simpl; [intros _; by exists 0%nat, t|].
  intros Hc. destruct IH as (i & t' & Hi & Ht); [lia|]. by exists (S i), t'.
Qed.

Lemma count_unique P ts i j t t' : count P ts <= 1 -> ts !! i = Some t -> P t = true -> ts !! j = Some t' -> P t' = true -> i = j.
Proof.
  revert i j. induction ts as [|x ts IH]; intros [|i] [|j] Hc Hi Ht Hj Ht'; simpl in *; try done.
  - injection Hi as ->. rewrite Ht in Hc. simpl in Hc. pose proof (count_pos P ts j t' Hj Ht'). lia.
  - injection Hj as ->. rewrite Ht' in Hc. simpl in Hc. pose proof (count_pos P ts i t Hi Ht). lia.
  - f_equal. eapply IH; [|done..]. destruct (P x); simpl in Hc; lia.
Qed.

Lemma count_map P f ts : (forall t, P (f t) = P t) -> count P (f <$> ts) = count P ts.
Proof. intros Hf. unfold count. induction ts as [|t ts IH]; [done|]. rewrite fmap_cons. cbn [foldr]. by rewrite Hf, IH. Qed.

(** ** What holds in every run *)

Definition is_writer (t : thread) : bool := match todo t with Write :: _ => true | _ => false end.
Definition in_phase (p : phase) (t : thread) : bool := bool_decide (at_phase t = p).
Definition reading (t : thread) : bool := in_phase Inside t && negb (is_writer t).
Definition writing (t : thread) : bool := in_phase Inside t && is_writer t.
(** Past the first loop of [WLock]: these hold [writer_entered_]. *)
Definition entered (t : thread) : bool := match at_phase t with Entered | WaitWriter => true | Inside => is_writer t | _ => false end.

Definition thread_wf (t : thread) : Prop :=
  match at_phase t with
  | Wants => True
  | WaitReader | Inside => todo t <> []
  | Entered | WaitWriter => is_writer t = true
  end.

Record latch_ok (s : state) : Prop := {
  lo_wf : forall i t, threads s !! i = Some t -> thread_wf t;
  lo_size : Z.of_nat (length (threads s)) < Latch.MAX_READERS;
  lo_readers : Latch.reader_count (latch s) = count reading (threads s);
  lo_entered : Z.b2z (Latch.writer_entered (latch s)) = count entered (threads s);
  lo_writing : 0 < count writing (threads s) -> count reading (threads s) = 0;
  lo_wait_writer : 0 < count (in_phase WaitWriter) (threads s) -> 0 < count reading (threads s);
  lo_wait_reader : 0 < count (in_phase WaitReader) (threads s) -> Latch.writer_entered (latch s) = true;
}.

(** One thread moves on, within its section. *)
Lemma thread_wf_insert (ts : list thread) i t' : (forall j t, ts !! j = Some t -> thread_wf t) -> thread_wf t' ->
  forall j t, <[i := t']> ts !! j = Some t -> thread_wf t.
Proof.
  intros Hw Ht j t Hj. destruct (decide (i = j)) as [->|Hne]; [|rewrite list_lookup_insert_ne in Hj by done; by eapply Hw].
  apply list_lookup_insert_Some in Hj as [(_ & <- & _)|(Hj & _)]; done.
Qed.

(** The counts after one thread was replaced. *)
Ltac counts i Hi := rewrite ?(count_insert _ _ i _ _ Hi) in *; unfold reading, writing, entered, in_phase, is_writer, to_phase in *; simpl in *.

Lemma wakes_ok s s' : latch_ok s -> wakes s s' -> latch_ok s'.
Proof.
  intros [Wf Sz Rd En Wr Ww Wk] Hw. destruct Hw as [l ts i [p ms] Hi Hp|l ts i [p ms] Hi Hp]; simpl in *; subst p.
  - constructor; simpl; [by apply thread_wf_insert | by rewrite length_insert | counts i Hi; lia..|].
    pose proof (count_pos (in_phase WaitReader) ts i _ Hi eq_refl). intros _. by apply Wk.
  - pose proof (Wf i _ Hi) as Hwf. unfold thread_wf in Hwf. simpl in Hwf.
    constructor; simpl; [by apply thread_wf_insert | by rewrite length_insert | counts i Hi; first [lia | intros; apply Wk; lia]..].
Qed.

Lemma reader_count_range s : latch_ok s -> 0 <= Latch.reader_count (latch s) < Latch.MAX_READERS.
Proof. intros [_ Sz Rd _ _ _ _]. rewrite Rd. pose proof (count_bound reading (threads s)). lia. Qed.

(** The entered writer is alone: it is the one inside, or no one is writing. *)
Lemma writing_entered ts : count writing ts <= count entered ts.
Proof.
  apply count_le. intros [p ms]. unfold writing, entered, in_phase, is_writer. simpl. by destruct p.
Qed.

Lemma waiting_entered ts : (forall i t, ts !! i = Some t -> thread_wf t) -> count (in_phase WaitWriter) ts <= count entered ts.
Proof.
  intros _. apply count_le. intros [p ms]. unfold entered, in_phase. simpl. by destruct p.
Qed.

(** Leaving as a reader, up to the notification. *)
Lemma runlock_ok l ts ts' i ms : latch_ok (mkState l ts) -> ts !! i = Some (mkThread Inside (Read :: ms)) ->
  RUnlock_notifies (Latch.RUnlock l) (<[i := mkThread Wants ms]> ts) ts' -> latch_ok (mkState (Latch.RUnlock l) ts').
Proof.
  intros Hs Hi Hn. pose proof (reader_count_range _ Hs) as Hr. destruct Hs as [Wf Sz Rd En Wr Ww Wk]. simpl in *.
  pose proof (count_pos reading ts i _ Hi eq_refl) as Hpos. set (ts1 := <[i := mkThread Wants ms]> ts) in *.
  assert (Wf1 : forall j t, ts1 !! j = Some t -> thread_wf t) by (by apply thread_wf_insert).
  assert (Sz1 : length ts1 = length ts) by apply length_insert.
  assert (C : count reading ts1 = count reading ts - 1 /\ count entered ts1 = count entered ts /\ count writing ts1 = count writing ts /\
    count (in_phase WaitWriter) ts1 = count (in_phase WaitWriter) ts /\ count (in_phase WaitReader) ts1 = count (in_phase WaitReader) ts).
  { unfold ts1. counts i Hi. lia. }
  destruct C as (C1 & C2 & C3 & C4 & C5). pose proof (waiting_entered ts1 Wf1) as Hww. pose proof (count_bound (in_phase WaitWriter) ts1) as Hb.
  clearbody ts1. unfold RUnlock_notifies, Latch.RUnlock in *. simpl in *.
  rewrite u32_small in * by (unfold Latch.MAX_READERS, UINT32_MAX in *; lia).
  destruct (Latch.writer_entered l) eqn:Ew; simpl in En.
  - destruct (Z.eqb_spec (Latch.reader_count l - 1) 0) as [Hz|Hnz]; [|subst ts'; constructor; simpl; (done || (rewrite ?Sz1; lia))].
    destruct Hn as [ts1 j [p m] Hj Hp|ts1 Hnone].
    + simpl in Hp. subst p. pose proof (Wf1 j _ Hj) as Hwf. unfold thread_wf in Hwf. simpl in Hwf.
      constructor; simpl; [by apply thread_wf_insert | by rewrite length_insert, Sz1 | counts j Hj; first [lia | done]..].
    + assert (Hz0 : count (in_phase WaitWriter) ts1 = 0).
      { apply count_zero. intros j t Hj. apply bool_decide_eq_false_2. by eapply Hnone. }
      constructor; simpl; (done || (rewrite ?Sz1; lia)).
  - destruct (Z.eqb_spec (Latch.reader_count l - 1) (Latch.MAX_READERS - 1)) as [|_]; [lia|]. subst ts'.
    constructor; simpl; [done | by rewrite Sz1 | lia | simpl; lia | lia | lia |]. intros Hc. apply Wk. lia.
Qed.

(** Leaving as a writer wakes up everybody who waits at the entrance. *)
Lemma wunlock_ok l ts i ms : latch_ok (mkState l ts) -> ts !! i = Some (mkThread Inside (Write :: ms)) ->
  latch_ok (mkState (Latch.WUnlock l) (wake_reader <$> <[i := mkThread Wants ms]> ts)).
Proof.
  intros [Wf Sz Rd En Wr Ww Wk] Hi. simpl in *. pose proof (count_pos writing ts i _ Hi eq_refl) as Hpos.
  pose proof (writing_entered ts) as Hwe. set (ts1 := <[i := mkThread Wants ms]> ts) in *.
  assert (Wf1 : forall j t, ts1 !! j = Some t -> thread_wf t) by (by apply thread_wf_insert).
  assert (Sz1 : length ts1 = length ts) by apply length_insert.
  assert (C : count reading ts1 = count reading ts /\ count entered ts1 = count entered ts - 1 /\ count writing ts1 = count writing ts - 1).
  { unfold ts1. counts i Hi. lia. }
  destruct C as (C1 & C2 & C3). pose proof (waiting_entered ts1 Wf1) as Hww. pose proof (count_bound (in_phase WaitWriter) ts1) as Hb.
  clearbody ts1.
  assert (Hsame : forall P, (forall ms, P (mkThread WaitReader ms) = P (mkThread Wants ms)) -> count P (wake_reader <$> ts1) = count P ts1).
  { intros P HP. apply count_map. intros [p m]. unfold wake_reader. simpl. case_decide; subst; [by rewrite HP | done]. }
  assert (Hno : count (in_phase WaitReader) (wake_reader <$> ts1) = 0).
  { apply count_zero. intros j t Hj. rewrite list_lookup_fmap in Hj. destruct (ts1 !! j) as [t0|]; [|done]. injection Hj as <-.
    apply bool_decide_eq_false_2. unfold wake_reader. case_decide as Hd; [done | exact Hd]. }
  destruct (Latch.writer_entered l); simpl in En; [|lia].
  constructor; simpl; rewrite ?Hsame by done; rewrite ?length_fmap, ?Sz1; [|lia..].
  intros j t Hj. rewrite list_lookup_fmap in Hj. destruct (ts1 !! j) as [t0|] eqn:Ej; [|done]. injection Hj as <-.
  unfold wake_reader. case_decide; [done | by eapply Wf1].
Qed.

Lemma step_ok s s' : latch_ok s -> step s s' -> latch_ok s'.
Proof.
  intros Hs Hst. pose proof (reader_count_range s Hs) as Hr. destruct Hs as [Wf Sz Rd En Wr Ww Wk].
  destruct Hst as [l l' ts i p ms Hi Ht|l l' ts i p ms Hi Ht|l ts i ms Hi|l ts ts' i ms Hi Hn|l ts i ms Hi]; simpl in *;
    pose proof (writing_entered ts) as Hwe; pose proof (waiting_entered ts Wf) as Hww;
    pose proof (count_bound writing ts); pose proof (count_bound reading ts); pose proof (count_bound (in_phase WaitWriter) ts).
  - unfold RLock_turn in Ht. destruct (Z.eqb_spec (Latch.reader_count l) Latch.MAX_READERS) as [|_]; [lia|]. rewrite orb_false_r in Ht.
    destruct (Latch.writer_entered l) eqn:Ew; injection Ht as <- <-;
      (constructor; simpl; [by apply thread_wf_insert | by rewrite length_insert | counts i Hi; rewrite ?Ew in *; simpl in *; try lia..]).
    rewrite u32_small; [lia|]. unfold Latch.MAX_READERS, UINT32_MAX in *. lia.
  - unfold WLock_turn, WLock_again in Ht. destruct (Latch.writer_entered l) eqn:Ew; [injection Ht as <- <-|];
      [|simpl in Ht; destruct (Z.ltb_spec 0 (Latch.reader_count l)) as [Hpos|Hzero]; injection Ht as <- <-];
      (constructor; simpl; [by apply thread_wf_insert | by rewrite length_insert | counts i Hi; rewrite ?Ew in *; simpl in *; first [lia | done]..]).
  - pose proof (count_pos entered ts i _ Hi eq_refl). unfold WLock_again. destruct (Z.ltb_spec 0 (Latch.reader_count l)) as [Hpos|Hzero];
      (constructor; simpl; [by apply thread_wf_insert | by rewrite length_insert | counts i Hi; simpl in *; first [lia | intros; apply Wk; lia]..]).
  - eapply runlock_ok; [by constructor | exact Hi | exact Hn].
  - eapply wunlock_ok; [by constructor | exact Hi].
Qed.

Lemma new_state_ok scripts : Z.of_nat (length scripts) < Latch.MAX_READERS -> latch_ok (new_state scripts).
Proof.
  intros Hlen. assert (Hz : forall P, (forall ms, P (mkThread Wants ms) = false) -> count P (mkThread Wants <$> scripts) = 0).
  { intros P HP. apply count_zero. intros i t Hi. rewrite list_lookup_fmap in Hi. by destruct (scripts !! i); simplify_eq/=. }
  constructor; simpl; rewrite ?Hz by done; try done; [|by rewrite length_fmap].
  intros i t Hi. rewrite list_lookup_fmap in Hi. by destruct (scripts !! i); simplify_eq/=.
Qed.

Lemma reachable_ok scripts s : Z.of_nat (length scripts) < Latch.MAX_READERS -> rtc moves (new_state scripts) s -> latch_ok s.
Proof.
  intros Hlen Hr. pose proof (new_state_ok scripts Hlen) as H0. induction Hr as [|s1 s2 s3 [Hst|Hw] _ IH]; [done | |];
    apply IH; [by eapply step_ok | by eapply wakes_ok].
Qed.

(** ** Progress *)

Lemma notify_total from to ts : exists ts', notify_one from to ts ts'.
Proof.
  pose proof (count_bound (in_phase from) ts) as Hb. destruct (decide (0 < count (in_phase from) ts)) as [Hc|Hc].
  - apply count_find in Hc as (i & t & Hi & Ht). apply bool_decide_eq_true in Ht. eexists. by eapply notify_some.
  - exists ts. apply notify_none. intros i t Hi. assert (Hz : count (in_phase from) ts = 0) by lia.
    rewrite count_zero in Hz. eapply bool_decide_eq_false_1, (Hz i), Hi.
Qed.

Lemma RUnlock_total l ts : exists ts', RUnlock_notifies l ts ts'.
Proof. unfold RUnlock_notifies. repeat case_match; eauto using notify_total. Qed.

(** A thread that takes the mutex when it gets it. *)
Definition active (t : thread) : bool :=
  match at_phase t, todo t with Inside, _ | Entered, _ | Wants, _ :: _ => true | _, _ => false end.

Lemma active_step l ts i t : ts !! i = Some t -> thread_wf t -> active t = true -> exists s', step (mkState l ts) s'.
Proof.
  destruct t as [[] ms]; intros Hi Hwf Ha; unfold thread_wf, active, is_writer in *; simpl in *; try done.
  - destruct ms as [|[] ms]; [done | destruct (RLock_turn l) as [p l'] eqn:E | destruct (WLock_turn l) as [p l'] eqn:E];
      eexists; [by eapply step_rlock | by eapply step_wlock].
  - destruct ms as [|[] ms]; [done..|]. eexists. by eapply step_again.
  - destruct ms as [|[] ms]; [done | | eexists; by eapply step_wunlock].
    destruct (RUnlock_total (Latch.RUnlock l) (<[i := mkThread Wants ms]> ts)) as [ts' Hn]. eexists. by eapply step_runlock.
Qed.

(** Some thread has a step, unless all are done: a thread that waits does so
    because another is on its way out. *)
Lemma ok_progress s : latch_ok s -> finished s \/ exists s', step s s'.
Proof.
  intros [Wf Sz Rd En Wr Ww Wk]. destruct s as [l ts]. simpl in *. pose proof (count_bound active ts) as Hb.
  destruct (decide (0 < count active ts)) as [Hc|Hc].
  { apply count_find in Hc as (i & t & Hi & Ht). right. eapply active_step; eauto. }
  left. assert (Hz : count active ts = 0) by lia. rewrite count_zero in Hz.
  assert (Hr : count reading ts = 0).
  { apply count_zero. intros i [[] ms] Hi; try done. by specialize (Hz i _ Hi). }
  assert (Hww : count (in_phase WaitWriter) ts = 0) by (pose proof (count_bound (in_phase WaitWriter) ts); lia).
  rewrite count_zero in Hww.
  assert (He : count entered ts = 0).
  { apply count_zero. intros i [[] ms] Hi; try done; [by specialize (Hz i _ Hi) | by specialize (Hww i _ Hi) | by specialize (Hz i _ Hi)]. }
  assert (Hwr : count (in_phase WaitReader) ts = 0).
  { pose proof (count_bound (in_phase WaitReader) ts). destruct (Latch.writer_entered l); simpl in En; [lia|].
    destruct (decide (0 < count (in_phase WaitReader) ts)) as [Hp|]; [by specialize (Wk Hp) | lia]. }
  rewrite count_zero in Hwr. intros t Ht. simpl in Ht. apply list_elem_of_lookup in Ht as [i Hi].
  specialize (Hz i t Hi). specialize (Hww i t Hi). specialize (Hwr i t Hi). destruct t as [[] [|m ms]]; done.
Qed.

(** ** Termination *)

Definition rank (t : thread) : Z :=
  match at_phase t with Wants => 4 | WaitReader => 3 | Entered => 2 | WaitWriter => 1 | Inside => 0 end.

Definition sections (t : thread) : Z := Z.of_nat (length (todo t)).

(** A bound on the steps that are left: every section costs a step for each
    thread that is woken up at its end, and the steps of its own. *)
Definition work (s : state) : Z :=
  (Z.of_nat (length (threads s)) + 6) * sum sections (threads s) + sum rank (threads s).

Lemma sum_nonneg f ts : (forall t, 0 <= f t) -> 0 <= sum f ts.
Proof. intros Hf. induction ts as [|t ts IH]; simpl; [lia|]. specialize (Hf t). lia. Qed.

Lemma work_nonneg s : 0 <= work s.
Proof.
  unfold work. pose proof (sum_nonneg sections (threads s) ltac:(intros; unfold sections; lia)).
  pose proof (sum_nonneg rank (threads s) ltac:(intros [[] ?]; unfold rank; simpl; lia)). nia.
Qed.

Lemma notify_work from to ts ts' : (forall ms, rank (mkThread to ms) <= rank (mkThread from ms) + 1) -> notify_one from to ts ts' ->
  length ts' = length ts /\ sum sections ts' = sum sections ts /\ sum rank ts' <= sum rank ts + 1.
Proof.
  intros Hrk [ts0 i [p ms] Hi Hp|ts0 _]; [|lia]. simpl in Hp. subst p. rewrite length_insert, !(sum_insert _ ts0 i _ _ Hi).
  specialize (Hrk ms). unfold to_phase, sections. simpl. lia.
Qed.

Lemma RUnlock_work l ts ts' : RUnlock_notifies l ts ts' ->
  length ts' = length ts /\ sum sections ts' = sum sections ts /\ sum rank ts' <= sum rank ts + 1.
Proof.
  unfold RUnlock_notifies. intros Hn. repeat case_match; try (subst ts'; lia); (eapply notify_work; [|exact Hn]); intros; unfold rank; simpl; lia.
Qed.

Lemma wake_work ts : sum sections (wake_reader <$> ts) = sum sections ts /\ sum rank (wake_reader <$> ts) <= sum rank ts + Z.of_nat (length ts).
Proof.
  induction ts as [|[p ms] ts [IH1 IH2]]; [done|]. rewrite fmap_cons. cbn [sum foldr length]. fold (sum sections (wake_reader <$> ts)) (sum rank (wake_reader <$> ts)) (sum sections ts) (sum rank ts).
  assert (H : sections (wake_reader (mkThread p ms)) = sections (mkThread p ms) /\ rank (wake_reader (mkThread p ms)) <= rank (mkThread p ms) + 1).
  { unfold wake_reader. simpl. case_decide; [subst p|]; unfold sections, rank; simpl; lia. }
  lia.
Qed.

Lemma step_work s s' : step s s' -> work s' < work s.
Proof.
  intros Hst. unfold work. destruct Hst as [l l' ts i p ms Hi Ht|l l' ts i p ms Hi Ht|l ts i ms Hi|l ts ts' i ms Hi Hn|l ts i ms Hi]; simpl.
  - rewrite length_insert, !(sum_insert _ ts i _ _ Hi). unfold RLock_turn in Ht. unfold sections, rank. simpl. case_match; simplify_eq/=; lia.
  - rewrite length_insert, !(sum_insert _ ts i _ _ Hi). unfold WLock_turn, WLock_again in Ht. unfold sections, rank. simpl. repeat case_match; simplify_eq/=; lia.
  - rewrite length_insert, !(sum_insert _ ts i _ _ Hi). unfold WLock_again, sections, rank. simpl. repeat case_match; simplify_eq/=; lia.
  - apply RUnlock_work in Hn as (-> & -> & Hrk). rewrite length_insert, !(sum_insert _ ts i _ _ Hi) in *. unfold sections, rank in *. simpl in *. lia.
  - rewrite length_fmap, length_insert. destruct (wake_work (<[i := mkThread Wants ms]> ts)) as [W1 W2].
    rewrite W1. rewrite length_insert, !(sum_insert _ ts i _ _ Hi) in *. unfold sections, rank in *. simpl in *. lia.
Qed.

Lemma steps_work k s s' : nsteps step k s s' -> Z.of_nat k <= work s - work s'.
Proof. induction 1 as [s|k s1 s2 s3 Hst _ IH]; [lia|]. apply step_work in Hst. lia. Qed.

(** ** Properties *)

(** C26. The latch keeps writers apart from everybody else: however the threads
    are scheduled, whoever is notified and however often waits end without
    reason, a thread that is inside as a writer is the only one inside, the
    count is the number of readers inside, and when all are done the latch is
    as it was at the beginning. *)
Theorem latch_exclusive (scripts : list (list mode)) (s : state) :
  Z.of_nat (length scripts) < Latch.MAX_READERS -> rtc moves (new_state scripts) s ->
  (forall i j t u, threads s !! i = Some t -> threads s !! j = Some u -> writing t = true -> at_phase u = Inside -> i = j) /\
  Latch.reader_count (latch s) = count reading (threads s) /\
  (finished s -> latch s = Latch.unlocked).
Proof.
  intros Hlen Hr. destruct (reachable_ok scripts s Hlen Hr) as [Wf Sz Rd En Wr _ _]. split; [|split; [done|]].
  - intros i j t u Hi Hj Ht Hu. pose proof (count_pos writing _ i t Hi Ht) as Hc. specialize (Wr Hc). rewrite count_zero in Wr. specialize (Wr j u Hj).
    assert (Hw : writing u = true) by (unfold reading, writing, in_phase in *; rewrite Hu in *; simpl in *; by destruct (is_writer u)).
    eapply (count_unique writing); [|exact Hi | exact Ht | exact Hj | exact Hw].
    pose proof (writing_entered (threads s)). destruct (Latch.writer_entered (latch s)); simpl in En; lia.
  - intros Hf. assert (Hz : forall P, P (mkThread Wants []) = false -> count P (threads s) = 0).
    { intros P HP. apply count_zero. intros i t Hi. by rewrite (Hf t) by by eapply list_elem_of_lookup_2. }
    rewrite !Hz in * by done. destruct (latch s) as [n []]; simpl in *; [done|]. by subst n.
Qed.

Definition demo_scripts : list (list mode) := [[Read; Write]; [Write]; [Read]].

(** A reader is inside and a writer waits for it, past the entrance. *)
Definition demo_state : state :=
  mkState (Latch.mkLatch 1 true) [mkThread Inside [Read; Write]; mkThread WaitWriter [Write]; mkThread Wants [Read]].

Lemma demo_reachable : rtc moves (new_state demo_scripts) demo_state.
Proof.
  eapply rtc_l. { left. apply (step_rlock Latch.unlocked (Latch.mkLatch 1 false) _ 0 Inside [Write]); reflexivity. }
  eapply rtc_l. { left. apply (step_wlock _ (Latch.mkLatch 1 true) _ 1 WaitWriter []); reflexivity. }
  reflexivity.
Qed.

Lemma latch_exclusive_witness : Latch.reader_count (latch demo_state) = count reading (threads demo_state).
Proof. apply (latch_exclusive demo_scripts demo_state); [vm_compute; reflexivity | apply demo_reachable]. Defined.

(** C27. No wake-up is lost: from every state that the threads can reach, also by
    waits that ended without reason, some thread can go on until all have been
    through all their critical sections, and they have after a bounded number
    of steps, whoever is scheduled and whoever is notified. *)
Theorem latch_serves_all (scripts : list (list mode)) (s s' : state) (k : nat) :
  Z.of_nat (length scripts) < Latch.MAX_READERS -> rtc moves (new_state scripts) s -> nsteps step k s s' ->
  (finished s' \/ exists s'', step s' s'') /\ Z.of_nat k <= work s.
Proof.
  intros Hlen Hr Hk. pose proof (steps_work k s s' Hk) as Hb. pose proof (work_nonneg s'). split; [|lia].
  apply ok_progress. apply (reachable_ok scripts); [done|]. etrans; [exact Hr|].
  eapply rtc_subrel; [|eapply rtc_nsteps_2; exact Hk]. intros x y Hxy. by left.
Qed.

Lemma latch_serves_all_witness : (finished demo_state \/ exists s'', step demo_state s'') /\ Z.of_nat 0 <= work demo_state.
Proof. apply (latch_serves_all demo_scripts demo_state demo_state 0); [vm_compute; reflexivity | apply demo_reachable | constructor]. Defined.
